(* ===== verification/_CoqProject ===== *)
-Q . S2P
Prelude.v
Text.v
Ulid.v
IrcMessage.v
ActTransitions.v
PolicyEval.v
PolicyStore.v
PolicyEngine.v
AvSession.v
Multiline.v
RelayQueue.v
NickMap.v
RoomTables.v
S2sMessage.v
Channel.v
Rooms.v
ChannelOps.v
Pins.v
ChannelInv.v
ChannelSpec.v
ChannelRuns.v
S2sLink.v
Crdt.v
Federation.v
FederationSpec.v
FederationRuns.v
SessionLife.v
SessionSpec.v
SessionRuns.v
Primitives.v
X3dh.v
Ratchet.v
RatchetSync.v
RatchetRuns.v
E2eeManager.v
E2eeGroup.v
Ssrf.v
Sasl.v
SignIn.v
SignInSpec.v
SignInRuns.v
SignedDocs.v
MessageStore.v
Routing.v
Messaging.v
MessagingOps.v
FederatedChat.v
MessagingSpec.v
FederatedChatSpec.v
MessagingRuns.v
FederatedRuns.v
TaskDocs.v
TaskLog.v
TaskLogSpec.v
TaskGate.v
TaskGateSpec.v
TaskRelay.v
TaskRelaySpec.v
TaskRuns.v
TaskRelayRuns.v
Catchup.v
CatchupSpec.v
CatchupRuns.v
