(* ===== verification/Prelude.v ===== *)
(** * Freeq: a verification library

    Freeq is an IRC server ([freeq-server]) with decentralised identities,
    channel policies, tasks ("acts") that participants move through a signed
    lifecycle, calls, and federation with other servers, together with the
    client library it shares code with ([freeq-sdk]). This library models the
    parts of both that decide something, and proves what those decisions
    guarantee. Paths below are relative to [src/].

    ** The parts and how they interact

    A client's line is parsed ([IrcMessage]) and dispatched by the command loop
    of a connection. A multi-line message is collected by the batch state
    machine ([Multiline]) before it is handed on. NICK, JOIN, PART, MODE, KICK,
    INVITE, TOPIC, PIN and the room commands act on the state all connections
    share: channels ([Channel], [ChannelOps], [Pins]), the nickname table
    ([NickMap]) and the rooms with their invites ([RoomTables], [Rooms]). A JOIN
    asks the policy engine ([PolicyEngine]), which reads documents from its store
    ([PolicyStore]) and evaluates a requirement tree ([PolicyEval]). A task message
    is judged ([TaskGate]): its sender's signature over the document its tags make
    ([TaskDocs]) is checked, and one critical section asks the rules table
    ([ActTransitions]) whether the move is legal, files it and moves the table of
    live tasks ([TaskLog]); the server then signs a receipt. One relayed by a peer
    is judged by [TaskRelay]: it is filed, carried to the server that owns the
    task, or waits in a queue for a key, a referee or another event, as relayed
    edits do ([RelayQueue]). Calls are kept by a session manager ([AvSession]). Messages
    and events carry ids minted and checked by [Ulid]. PRIVMSG, NOTICE and TAGMSG
    ([MessagingOps]) settle a message's id and signature ([Messaging], over the
    documents of [SignedDocs]), file it ([MessageStore]) and send it to channel
    members, to the devices of a nick or DID, and to peers ([Routing]).

    Servers federate: a frame from a peer ([S2sMessage]) passes the rate limit,
    the trust gate and the duplicate filter of the link ([S2sLink]) and is then
    applied to the same shared state by the federation handlers ([Federation] for
    channels, [FederatedChat] for messages; an edit or a mutation whose signer's
    key is not known yet is held and taken up when the key arrives). A link
    that comes back asks for what it missed ([Catchup]).
    Founder, trusted operators and topic also live in a document all servers
    merge ([Crdt]), which the handlers read back.

    ** Files

    - [Prelude] (this file): Rust's [Result], machine integers, string functions,
      iteration orders, the tactics and the shared lemmas.
    - [Ulid]: [freeq-server/src/msgid.rs], and the decoders of the same format in
      [freeq-sdk/src/sigtag.rs] and [freeq-sdk/src/act_transitions.rs].
    - [IrcMessage]: [freeq-sdk/src/irc.rs] and [freeq-server/src/irc.rs].
    - [ActTransitions]: [freeq-sdk/src/act_transitions.rs], the table
      [spec/act-transitions.json], and [materialize_act] of
      [freeq-server/src/db.rs].
    - [PolicyEval], [PolicyStore], [PolicyEngine]: [freeq-server/src/policy/]
      [eval.rs], [store.rs], [engine.rs] and [types.rs].
    - [AvSession]: [freeq-server/src/av.rs].
    - [Multiline]: [freeq-server/src/connection/draft_multiline.rs] and the arms
      of [connection/mod.rs] that feed it.
    - [RelayQueue]: [freeq-server/src/held_relay.rs] and the queues of
      [freeq-server/src/act_relay.rs].
    - [NickMap]: the nickname table of [freeq-server/src/server.rs], the NICK
      command and the ghosting of [connection/mod.rs].
    - [RoomTables], [Rooms]: the room and invite tables of
      [freeq-server/src/db.rs], and [freeq-server/src/rooms.rs].
    - [S2sMessage]: the message type of [freeq-server/src/s2s.rs].
    - [Channel]: [ChannelState], [ServerState] and their methods in
      [freeq-server/src/server.rs]; the reply helpers of
      [connection/helpers.rs].
    - [ChannelOps], [Pins]: the command handlers of
      [freeq-server/src/connection/channel.rs], and the pins of [connection/mod.rs]
      and [web.rs].
    - [ChannelInv]: the invariant of the shared state, all commands as one step
      relation, and its preservation.
    - [ChannelSpec], [ChannelRuns]: who may join, change modes, kick, invite;
      concrete runs.
    - [S2sLink]: the duplicate filter, event counter, rate limiter, trust gate
      and peer table of [freeq-server/src/s2s.rs].
    - [Crdt]: [freeq-server/src/crdt.rs].
    - [Federation]: the arms of [process_s2s_message] in
      [freeq-server/src/server.rs].
    - [FederationSpec], [FederationRuns]: what a peer's message may change;
      concrete runs.
    - [Text]: text functions of the standard library that several files use.
    - [SessionLife]: [freeq-server/src/connection/registration.rs] and the end
      of a connection in [connection/mod.rs].
    - [SessionSpec], [SessionRuns]: what attaching, disconnecting and coming back
      guarantee; concrete runs.
    - [Primitives]: the cryptographic primitives as parameters.
    - [X3dh], [Ratchet]: [freeq-sdk/src/x3dh.rs] and [freeq-sdk/src/ratchet.rs].
    - [RatchetSync], [RatchetRuns]: two ratchet sessions and the network between
      them; bounds, saving, concrete conversations.
    - [E2eeManager]: the encryption manager of [freeq-sdk-ffi/src/lib.rs].
    - [E2eeGroup]: [freeq-sdk/src/e2ee.rs], [e2ee_did.rs] and [e2ee_group.rs].
    - [Ssrf]: [freeq-ssrf/src/lib.rs].
    - [Sasl]: [freeq-server/src/sasl.rs], the allowlist of [server.rs], and the
      identity documents and response framing of [freeq-sdk].
    - [SignIn]: [freeq-server/src/connection/cap.rs].
    - [SignInSpec], [SignInRuns]: what a sign-in rests on; concrete runs.
    - [SignedDocs]: [freeq-sdk/src/canonical.rs], [sigtag.rs] and [chatsig.rs]:
      the documents chat signatures cover.
    - [MessageStore]: the message, reaction, pin, card and event tables of
      [freeq-server/src/db.rs], and [freeq-server/src/events.rs].
    - [Routing]: [freeq-server/src/connection/routing.rs].
    - [Messaging], [MessagingOps]: [freeq-server/src/connection/messaging.rs], the
      checks and the handlers of PRIVMSG, NOTICE and TAGMSG.
    - [MessagingSpec], [MessagingRuns]: what these guarantee; concrete runs.

    - [FederatedChat]: the arms of [process_s2s_event] for PRIVMSG and TAGMSG in
      [freeq-server/src/server.rs], with the queue that waits for a key.
    - [FederatedChatSpec], [FederatedRuns]: what these guarantee; concrete runs.
    - [TaskDocs]: [freeq-sdk/src/act.rs], the documents task signatures cover,
      and their reading in [freeq-server/src/events.rs].
    - [TaskLog]: the task functions of [freeq-server/src/db.rs]: the log rows, the
      table of live tasks, [apply_act_event] and the rebuild.
    - [TaskGate]: [freeq-server/src/connection/act.rs], with
      [verify_act_signature] of [connection/messaging.rs] and the clocks and
      routes of [server.rs].
    - [TaskRelay]: the verdicts of [freeq-server/src/act_relay.rs] and the
      judgement, filing and waiting of relayed task events in [server.rs].
    - [TaskLogSpec], [TaskGateSpec], [TaskRelaySpec]: what these guarantee;
      [TaskRuns], [TaskRelayRuns]: concrete runs.
    - [Catchup]: the arms of [process_s2s_event] for catch-up with
      [apply_replayed_event] in [freeq-server/src/server.rs], and the asking of
      [s2s.rs]. [CatchupSpec], [CatchupRuns]: what it guarantees; concrete runs.
    A definition has the name of the function or type it translates, with a
    prefix where two would clash. State the code mutates is a record that is
    passed and returned; a clock reading, a fresh id or a random number is an
    argument of the call that draws it; a reply or a message handed on is an
    element of a list of effects. Log lines are left out.

    ** What stands for code outside the repository

    The classes are parameters with the laws the code relies on, each with an
    instance that shows the laws can hold: [HashOrder] (the order a [HashMap]
    iterates in: any enumeration of its entries), [SqlOrder] ([ORDER BY]: a
    sorted arrangement of the rows), [CaseFold] and [Trim] (Unicode
    lower-casing and trimming), [PolicyEnv] of [PolicyStore] (content hashes,
    the attestation HMAC and RFC 3339 timestamps), [Json] of [Crdt] (a
    serialiser that reads back what it wrote),
    [Primitives] and [Base64] (Diffie-Hellman, key derivation, sealing,
    signatures, encodings), [SessionJson] of [Ratchet] (the serialiser of a
    session), [Secp256k1] of [E2eeGroup], and [SaslEnv] of [Sasl] (encodings, the
    DID resolver and the answers of data servers, without laws), [JsonText] of
    [SignedDocs] (the text of a JSON document, which reads back), [KeyBytes],
    [UrlDecode] and [IsoTime] of [Messaging] (without laws). Two reads of
    a network are plain arguments: DNS in [Ssrf], the records of an agent's owner
    in [SignIn].

    ** What the theorems show

    - Who may do what in a channel: a JOIN succeeds only on the documented grounds
      (C1) and, under a policy, with an attestation
      ([ChannelSpec.join_holds_attestation]); modes change only for those entitled
      (C6); a ban catches exactly what its mask describes
      ([Channel.is_banned_spec]); no command tells a peer about a room
      (C38); an invitation admits as often as it says
      ([RoomTables.invite_admissions_bounded]).
    - Messages: no signature leaves the server that was not checked or made by it
      (C21), and the signed bytes fix every covered field
      (C30); an edit or a delete takes effect for its author (or an
      operator) and with their proof (C22, C23); a
      channel message passes the modes and reaches members only
      (C28), a direct message reaches its two ends only
      (C29); floods are bounded ([MessagingSpec.flood_bounded]). The event log
      only grows and says what its bytes say (C27); a delete takes
      every revision ([MessageStore.delete_takes_all_revisions]).
    - Over every history of commands, sign-ins, disconnections and timers the
      channels stay well formed (C3).
    - Messages from peers: a relayed edit, delete or reaction has an effect only
      with the account's own proof (C24) and for the
      author or an authority (C25); the log calls valid only
      what was checked here (C26); delivery reaches the
      right sessions ([FederatedChatSpec.relayed_reaches_only]); waiting for a key changes nothing
      ([FederatedChatSpec.released_as_on_arrival]).
    - Catching up: a replay rewrites nothing and adds only what was checked
      (C14); one complete exchange brings over every chat
      event missed (C15), each as it was
      ([CatchupSpec.missed_event_is_filed_as_it_was]) and once ([CatchupSpec.taken_once]),
      in whatever order it travels (C17); only a task's home
      speaks for it (C16).
    - Sessions: a device that attaches gains only what its identity had
      ([SessionSpec.attach_confers_nothing]); coming back within the grace period restores
      what was held ([SessionSpec.reconnect_restores]); a session that ended leaves no trace
      ([SessionSpec.disconnect_leaves_no_trace]).
    - Sign-in: an identity is held only on the evidence and under the allowlist
      the code means to require (C7, [Sasl.did_is_allowed_checked_spec]), and
      failures are limited ([SignInSpec.sasl_failures_bounded]).
    - Federation: a peer's message changes what its sender may change
      (C2, C31, [FederationSpec.sync_never_weakens]), its snapshot
      gives its users exactly ([FederationSpec.sync_presence_exact]), and an event is acted on when
      authenticated, trusted, within its rate and new (C32, [S2sLink.dedup_no_replay]); a
      recorded founder is stable ([Crdt.Cluster.founder_is_stable]).
    - Policies: the evaluator is sound (C5), versions form a chain
      ([PolicyEngine.policy_chain_invariant]) and a confirmed join rests on a verified attestation
      (C37).
    - Tasks: the checker decides legality of a move for every rules table
      (C4); for the shipped table the assignee invariant holds
      ([ActTransitions.shipped_lifecycle_invariant]) and no task is stuck (C40).
      Whatever clients send and the clocks do, the live tasks are what their signed
      openers say and stand in reachable states (C8);
      one claim wins (C9); a task of another server moves by that
      server's word (C10). An accepted message carries
      its sender's checked signature (C11), a refused one
      changes nothing (C18), and a replayed one verifies
      as the original did (C19). What peers relay is filed and
      shown only with proof (C12,
      [TaskRelaySpec.shown_only_with_proof]), rulings only as the named referee's
      (C13).
    - Wire and ids: printing and parsing a message are inverse (C35),
      the parameter loop ends (C36), multi-line batches stay within their
      limits (C34), ids decode to their time ([Ulid.generate_timestamp_roundtrip]).
    - Queues and calls: ceilings and order of held events (C39), the
      index of calls ([AvSession.channel_index_sound]).
    - Encryption: both sides of a key agreement agree ([X3dh.x3dh_agreement]); a ratchet
      conversation with losses and reordering reads what was sent
      (C20); a sealed group key opens to the steward's state
      ([E2eeGroup.Eg1.sealed_key_roundtrip]).
    - The address filter decides membership in its blocks (C33) and
      hands out no private address ([Ssrf.resolve_and_check_spec]).
    - Where the code departs from its intent: a replayed message desynchronises a
      ratchet ([RatchetSync.replay_desynchronises]), a ghost overrides a kick or ban
      ([SessionSpec.reclaim_overrides_removal]), a link's end can be forged
      ([FederationSpec.disconnect_can_be_forged]). The files [*Runs] and the sections of that title hold
      the others as theorems and runs.

    A theorem with hypotheses has a witness, [<name>_witness], that applies it to
    concrete data.

    ** Bounds and fuel

    Machine integers are [Z] with the wrap-around or saturation of the code
    written out where it can occur ([wrap], [shl_w], [sat_i64]). Recursions that
    are not structural take fuel that is proved sufficient or used up by
    construction: the parameter loop of the parser gets the length of the line
    (and [params_loop_fuel] shows that more changes nothing); the eviction loops
    of [RelayQueue] get the number of items, and each round removes one. In
    [TaskRelay] an event that is judged may release others that waited for it,
    and so on: that recursion takes fuel, and its theorems hold for every amount. The
    counters [next_seq] (u64) and [attempts] (u32) are unbounded: they grow by
    one per event or per request. Ceilings of the code (500 channels, invites
    and bans, 50 pins, 100 events a second from a peer) are its own constants
    and are proved to hold.

    ** Not modelled

    CHATHISTORY, SEARCH and the query commands; the control of calls
    inside TAGMSG (an effect of [MessagingOps.handle_tagmsg]); a full send buffer; the SQL of the tables not
    named above; HTTP handlers other than the room endpoints;
    media forwarding; key lookup over the network and its caches; the client
    library's connection task; the terminal, voice and bot applications and the
    clients in other languages. Of a modelled handler, log lines, metrics and the
    per-session tables that no modelled code reads are left out.
    Of [process_s2s_event] the arms for calls are left out. *)

From stdpp Require Import base gmap strings list sorting.
From Stdlib Require Import ZArith Lia Ascii String.

Open Scope Z_scope.

(** ** Rust's [Result] *)

Inductive result (T E : Type) : Type :=
| Ok (x : T)
| Err (e : E).
Arguments Ok {T E} x.
Arguments Err {T E} e.

Definition is_ok {T E} (r : result T E) : bool :=
  match r with Ok _ => true | Err _ => false end.

Definition res_bind {T U E} (r : result T E) (k : T -> result U E) : result U E :=
  match r with Ok x => k x | Err e => Err e end.

Definition is_some {A} (o : option A) : bool := match o with Some _ => true | None => false end.

(** [opt.ok_or(e)] *)
Definition ok_or {T E} (o : option T) (e : E) : result T E :=
  match o with Some x => Ok x | None => Err e end.

Declare Scope rust_scope.
Delimit Scope rust_scope with rust.

(** Rust's [let x = e?; k] on [Result]. *)
Notation "'let?' x ':=' e 'in' k" := (res_bind e (fun x => k))
  (at level 200, x name, e at level 200, k at level 200) : rust_scope.

(** ** Machine integers

    A [w]-bit integer is a [Z]; the wrap-around is written out where the
    source can reach it. *)

Definition wrap (w : Z) (x : Z) : Z := x mod 2 ^ w.

(** [x << k] on an unsigned [w]-bit integer: the high bits are lost. *)
Definition shl_w (w x k : Z) : Z := wrap w (Z.shiftl x k).

Definition i64_min : Z := - 2 ^ 63.
Definition i64_max : Z := 2 ^ 63 - 1.

(** [i64::saturating_*]: clamp the mathematical result to the [i64] range. *)
Definition sat_i64 (x : Z) : Z := Z.max i64_min (Z.min i64_max x).

(** [x as i64] for an unsigned 64-bit [x]: two's complement reinterpretation. *)
Definition u64_as_i64 (x : Z) : Z := if x <? 2 ^ 63 then x else x - 2 ^ 64.

(** ** Strings: a Rust [String] is its bytes *)

Fixpoint str_all (p : ascii -> bool) (s : string) : bool :=
  match s with
  | EmptyString => true
  | String c r => p c && str_all p r
  end.

Fixpoint str_any (p : ascii -> bool) (s : string) : bool :=
  match s with
  | EmptyString => false
  | String c r => p c || str_any p r
  end.

(** [s.contains(c)] *)
Definition str_contains (c : ascii) (s : string) : bool := str_any (Ascii.eqb c) s.

(** [bytes.iter().position(|x| *x == c)] *)
Fixpoint str_position (c : ascii) (s : string) : option nat :=
  match s with
  | EmptyString => None
  | String d r => if Ascii.eqb d c then Some O else S <$> str_position c r
  end.

(** The first [n] bytes. *)
Fixpoint str_take (n : nat) (s : string) : string :=
  match n, s with
  | S m, String c r => String c (str_take m r)
  | _, _ => EmptyString
  end.

Fixpoint str_fold {A} (f : A -> ascii -> A) (a : A) (s : string) : A :=
  match s with
  | EmptyString => a
  | String c r => str_fold f (f a c) r
  end.

Definition is_empty (s : string) : bool :=
  match s with EmptyString => true | _ => false end.

Definition byte (c : ascii) : Z := Z.of_nat (nat_of_ascii c).

Definition is_ascii_lowercase (c : ascii) : bool := (97 <=? byte c) && (byte c <=? 122).
Definition is_ascii_uppercase (c : ascii) : bool := (65 <=? byte c) && (byte c <=? 90).
Definition is_ascii_digit (c : ascii) : bool := (48 <=? byte c) && (byte c <=? 57).
Definition is_ascii_alphanumeric (c : ascii) : bool :=
  is_ascii_lowercase c || is_ascii_uppercase c || is_ascii_digit c.

(** [u8::to_ascii_uppercase] / [u8::to_ascii_lowercase] *)
Definition ascii_upper (c : ascii) : ascii :=
  if is_ascii_lowercase c then ascii_of_nat (nat_of_ascii c - 32) else c.
Definition ascii_lower (c : ascii) : ascii :=
  if is_ascii_uppercase c then ascii_of_nat (nat_of_ascii c + 32) else c.

Fixpoint str_map (f : ascii -> ascii) (s : string) : string :=
  match s with
  | EmptyString => EmptyString
  | String c r => String (f c) (str_map f r)
  end.

(** Rust's [Ord] on [str]: lexicographic on bytes. *)
Definition str_lt (s t : string) : Prop := String.compare s t = Lt.

Definition str_le (s t : string) : Prop := String.leb s t = true.
#[export] Instance str_le_dec : RelDecision str_le.
Proof. intros s t. unfold str_le. apply _. Defined.

(** [s.find(c)] with the two slices around it, and [s.split_once(c)]. *)
Fixpoint split_once (c : ascii) (s : string) : option (string * string) :=
  match s with
  | EmptyString => None
  | String d r =>
      if Ascii.eqb d c then Some (""%string, r)
      else match split_once c r with
           | Some (a, b) => Some (String d a, b)
           | None => None
           end
  end.

(** [s.split(c)]: always at least one piece. *)
Fixpoint str_split (c : ascii) (s : string) : list string :=
  match s with
  | EmptyString => [""%string]
  | String d r =>
      if Ascii.eqb d c then ""%string :: str_split c r
      else match str_split c r with
           | [] => [String d ""]
           | p :: ps => String d p :: ps
           end
  end.

(** [v.join(sep)] *)
Fixpoint str_join (sep : string) (l : list string) : string :=
  match l with
  | [] => ""
  | [x] => x
  | x :: r => x +:+ sep +:+ str_join sep r
  end.

(** [s.starts_with(c)] *)
Definition starts_with_char (c : ascii) (s : string) : bool :=
  match s with String d _ => Ascii.eqb d c | EmptyString => false end.

(** [s.chars().filter(p).collect()] *)
Fixpoint str_filter (p : ascii -> bool) (s : string) : string :=
  match s with
  | EmptyString => ""
  | String c r => if p c then String c (str_filter p r) else str_filter p r
  end.

Definition CR : ascii := "013".
Definition LF : ascii := "010".
Definition NUL : ascii := "000".

(** [s.starts_with(p)], [s.strip_prefix(p)] for a string pattern. *)
Fixpoint strip_prefix (p s : string) : option string :=
  match p, s with
  | EmptyString, _ => Some s
  | String a p', String b s' => if Ascii.eqb a b then strip_prefix p' s' else None
  | _, _ => None
  end.
Definition starts_with (p s : string) : bool :=
  match strip_prefix p s with Some _ => true | None => false end.

(** ** Hash maps

    A Rust [HashMap] iterates in an arbitrary order. The order is a parameter:
    any enumeration of the map's entries. [map_to_list] is one instance. *)
Class HashOrder := {
  hash_iter : forall {A : Type}, gmap string A -> list (string * A);
  hash_iter_perm : forall {A : Type} (m : gmap string A), hash_iter m ≡ₚ map_to_list m
}.

Definition map_order : HashOrder := {|
  hash_iter := fun A m => map_to_list m;
  hash_iter_perm := fun A m => reflexivity (map_to_list m)
|}.

(** A [BTreeMap] iterates in the order of its keys. *)
Definition key_le {A} (x y : string * A) : Prop := str_le x.1 y.1.
#[export] Instance key_le_dec {A} : RelDecision (@key_le A).
Proof. intros x y. unfold key_le. apply _. Defined.

Definition btree_iter {A} (m : gmap string A) : list (string * A) :=
  merge_sort key_le (map_to_list m).

Definition bool_rel {A} (le : A -> A -> bool) (x y : A) : Prop := le x y = true.
#[export] Instance bool_rel_dec {A} (le : A -> A -> bool) : RelDecision (bool_rel le).
Proof. intros x y. unfold bool_rel. apply _. Defined.

(** A query's [ORDER BY]: some sorted arrangement of the selected rows; rows
    with equal keys come in an order the engine chooses. *)
Class SqlOrder := {
  order_by : forall {A : Type} (le : A -> A -> bool), list A -> list A;
  order_by_perm : forall {A : Type} (le : A -> A -> bool) l, order_by le l ≡ₚ l;
  order_by_sorted : forall {A : Type} (le : A -> A -> bool) l,
    Total (bool_rel le) -> Transitive (bool_rel le) ->
    StronglySorted (bool_rel le) (order_by le l)
}.

(** [str::to_lowercase] is Unicode case folding: a parameter, of which the code
    needs that folding twice is folding once. ASCII folding is one instance. *)
Class CaseFold := {
  to_lowercase : string -> string;
  to_lowercase_idem : forall s, to_lowercase (to_lowercase s) = to_lowercase s
}.

(** [str::trim] removes Unicode white space at both ends; lower-casing brings
    none. *)
Class Trim {CF : CaseFold} := {
  trim : string -> string;
  trim_to_lowercase : forall s, trim (to_lowercase (trim s)) = to_lowercase (trim s)
}.

(** ** Tactics *)

(** Case analysis on the tests and matches of the goal or of a hypothesis. *)
Ltac dmatch :=
  match goal with
  | |- context [match ?x with _ => _ end] => destruct x eqn:?
  end.
Ltac dmatch_in H :=
  match type of H with
  | context [match ?x with _ => _ end] => destruct x eqn:?
  end.

(** Turn boolean tests in the context into propositions. *)
Ltac bool_hyps :=
  repeat match goal with
  | H : (_ && _) = true |- _ => apply andb_true_iff in H; destruct H
  | H : (_ || _) = false |- _ => apply orb_false_iff in H; destruct H
  | H : negb _ = true |- _ => apply negb_true_iff in H
  | H : negb _ = false |- _ => apply negb_false_iff in H
  | H : (_ <? _) = true |- _ => apply Z.ltb_lt in H
  | H : (_ <? _) = false |- _ => apply Z.ltb_ge in H
  | H : (_ <=? _) = true |- _ => apply Z.leb_le in H
  | H : (_ <=? _) = false |- _ => apply Z.leb_gt in H
  | H : (_ =? _) = true |- _ => apply Z.eqb_eq in H
  | H : (_ =? _) = false |- _ => apply Z.eqb_neq in H
  | H : (_ =? _)%nat = true |- _ => apply Nat.eqb_eq in H
  | H : (_ =? _)%nat = false |- _ => apply Nat.eqb_neq in H
  | H : (_ <=? _)%nat = true |- _ => apply Nat.leb_le in H
  | H : (_ <=? _)%nat = false |- _ => apply Nat.leb_gt in H
  | H : (_ <? _)%nat = true |- _ => apply Nat.ltb_lt in H
  | H : (_ <? _)%nat = false |- _ => apply Nat.ltb_ge in H
  | H : (_ =? _)%string = true |- _ => apply String.eqb_eq in H
  | H : (_ =? _)%string = false |- _ => apply String.eqb_neq in H
  | H : Ascii.eqb _ _ = true |- _ => apply Ascii.eqb_eq in H
  | H : Ascii.eqb _ _ = false |- _ => apply Ascii.eqb_neq in H
  end.

(** ** Shared lemmas on strings *)

Create HintDb freeq.

#[global] Arguments Ascii.eqb : simpl never.
#[global] Arguments String.eqb : simpl never.
#[global] Arguments strip_prefix : simpl never.
#[global] Arguments String.append !s1 s2 / : simpl nomatch, rename.

Lemma Ok_inj {T E} (x y : T) : @Ok T E x = Ok y -> y = x.
Proof. by intros [= ->]. Qed.

Lemma is_empty_true s : is_empty s = true <-> s = ""%string.
Proof. by destruct s. Qed.

Lemma is_empty_false s : is_empty s = false <-> s <> ""%string.
Proof. by destruct s. Qed.

Lemma append_nil_r (s : string) : (s +:+ "") = s.
Proof. induction s as [|c s IH]; simpl; congruence. Qed.

Lemma append_assoc (s t u : string) : ((s +:+ t) +:+ u) = (s +:+ (t +:+ u)).
Proof. induction s as [|c s IH]; simpl; congruence. Qed.

Lemma append_length (s t : string) :
  String.length (s +:+ t) = (String.length s + String.length t)%nat.
Proof. induction s as [|c s IH]; simpl; congruence. Qed.

Lemma str_all_app p s t : str_all p (s +:+ t) = str_all p s && str_all p t.
Proof. induction s as [|c s IH]; simpl; [done|]. by rewrite IH, andb_assoc. Qed.

Lemma str_any_app p s t : str_any p (s +:+ t) = str_any p s || str_any p t.
Proof. induction s as [|c s IH]; simpl; [done|]. by rewrite IH, orb_assoc. Qed.

Lemma str_contains_app c s t :
  str_contains c (s +:+ t) = str_contains c s || str_contains c t.
Proof. apply str_any_app. Qed.

Lemma str_fold_app {A} (f : A -> ascii -> A) s t a :
  str_fold f a (s +:+ t) = str_fold f (str_fold f a s) t.
Proof. revert a; induction s as [|c s IH]; intros a; simpl; auto. Qed.

Lemma str_take_app s t : str_take (String.length s) (s +:+ t) = s.
Proof. induction s as [|c s IH]; simpl; [by destruct t|congruence]. Qed.

Lemma ascii_compare_refl c : Ascii.compare c c = Eq.
Proof. unfold Ascii.compare. apply N.compare_refl. Qed.

Lemma str_lt_cons_eq c s t : str_lt (String c s) (String c t) <-> str_lt s t.
Proof. unfold str_lt; simpl. by rewrite ascii_compare_refl. Qed.

Lemma str_lt_cons_lt c d s t : byte c < byte d -> str_lt (String c s) (String d t).
Proof.
  unfold str_lt, byte; simpl. intros H.
  replace (Ascii.compare c d) with Lt; [done|].
  symmetry; unfold Ascii.compare; apply N.compare_lt_iff.
  unfold nat_of_ascii in H. lia.
Qed.

(** Equal-length prefixes decide a comparison first. *)
Lemma str_lt_app_l s1 s2 t1 t2 :
  String.length s1 = String.length s2 -> str_lt s1 s2 -> str_lt (s1 +:+ t1) (s2 +:+ t2).
Proof.
  revert s2; induction s1 as [|c s1 IH]; intros [|d s2] Hl Hlt; simpl in *; try done.
  unfold str_lt in *; simpl in *.
  destruct (Ascii.compare c d); [apply IH; [lia|done]|done|done].
Qed.

Lemma str_lt_app_eq s t1 t2 : str_lt (s +:+ t1) (s +:+ t2) <-> str_lt t1 t2.
Proof. induction s as [|c s IH]; [done|]. simpl. by rewrite str_lt_cons_eq. Qed.

(** ** Splitting and joining *)

Lemma split_once_app c a b : str_contains c a = false -> split_once c (a +:+ String c b) = Some (a, b).
Proof.
  unfold str_contains. induction a as [|d a IH]; simpl.
  - by rewrite Ascii.eqb_refl.
  - rewrite (Ascii.eqb_sym c d). intros H. bool_hyps.
    rewrite (proj2 (Ascii.eqb_neq _ _) H), IH; done.
Qed.

Lemma split_once_none c s : str_contains c s = false -> split_once c s = None.
Proof.
  unfold str_contains. induction s as [|d s IH]; simpl; [done|].
  rewrite (Ascii.eqb_sym c d). intros H. bool_hyps.
  by rewrite (proj2 (Ascii.eqb_neq _ _) H), IH.
Qed.

Lemma split_once_some c s a b :
  split_once c s = Some (a, b) -> s = (a +:+ String c b) /\ str_contains c a = false.
Proof.
  unfold str_contains. revert a b; induction s as [|d s IH]; intros a b; simpl; [done|].
  destruct (Ascii.eqb d c) eqn:E; bool_hyps.
  - intros [= <- <-]. by subst.
  - destruct (split_once c s) as [[x y]|]; [|done]. intros [= <- <-].
    destruct (IH x y eq_refl) as [-> H]. simpl. split; [done|].
    by rewrite (proj2 (Ascii.eqb_neq c d)) by done.
Qed.

Lemma str_split_app c a b :
  str_contains c a = false -> str_split c (a +:+ String c b) = a :: str_split c b.
Proof.
  unfold str_contains. induction a as [|d a IH]; simpl.
  - by rewrite Ascii.eqb_refl.
  - rewrite (Ascii.eqb_sym c d). intros H. bool_hyps.
    by rewrite (proj2 (Ascii.eqb_neq _ _) H), IH.
Qed.

Lemma str_split_none c a : str_contains c a = false -> str_split c a = [a].
Proof.
  unfold str_contains. induction a as [|d a IH]; simpl; [done|].
  rewrite (Ascii.eqb_sym c d). intros H. bool_hyps.
  by rewrite (proj2 (Ascii.eqb_neq _ _) H), IH.
Qed.

(** Splitting what was joined gives the pieces back. *)
Lemma str_split_join c l :
  l <> [] -> Forall (fun x => str_contains c x = false) l ->
  str_split c (str_join (String c "") l) = l.
Proof.
  induction l as [|x l IH]; [done|]. intros _ [Hx Hl]%Forall_cons.
  destruct l as [|y l]; [by apply str_split_none|].
  change (str_join (String c "") (x :: y :: l))
    with (x +:+ String c (str_join (String c "") (y :: l))).
  rewrite str_split_app by done. by rewrite IH.
Qed.

Lemma str_join_cons sep x y l : str_join sep (x :: y :: l) = (x +:+ sep +:+ str_join sep (y :: l)).
Proof. done. Qed.

Lemma str_join_contains c sep l :
  str_contains c sep = false -> Forall (fun x => str_contains c x = false) l ->
  str_contains c (str_join sep l) = false.
Proof.
  intros Hsep. induction l as [|x l IH]; [done|]. intros [Hx Hl]%Forall_cons.
  destruct l as [|y l]; [done|].
  by rewrite str_join_cons, !str_contains_app, Hx, Hsep, IH.
Qed.

(** The ASCII instance of [CaseFold]. *)
Lemma ascii_lower_idem c : ascii_lower (ascii_lower c) = ascii_lower c.
Proof. destruct c as [[] [] [] [] [] [] [] []]; reflexivity. Qed.

Lemma str_map_idem f s : (forall c, f (f c) = f c) -> str_map f (str_map f s) = str_map f s.
Proof. intros H; induction s as [|c s IH]; simpl; congruence. Qed.

Definition ascii_fold : CaseFold := {|
  to_lowercase := str_map ascii_lower;
  to_lowercase_idem := fun s => str_map_idem ascii_lower s ascii_lower_idem
|}.

(** The ASCII instance of [Trim]. *)
Definition is_ws (c : ascii) : bool :=
  (byte c =? 32) || ((9 <=? byte c) && (byte c <=? 13)).

Fixpoint trim_start (s : string) : string :=
  match s with
  | EmptyString => ""
  | String c r => if is_ws c then trim_start r else s
  end.

Fixpoint trim_end (s : string) : string :=
  match s with
  | EmptyString => ""
  | String c r =>
      match trim_end r with
      | EmptyString => if is_ws c then "" else String c ""
      | r' => String c r'
      end
  end.

Definition ascii_trim (s : string) : string := trim_end (trim_start s).

Lemma is_ws_lower c : is_ws (ascii_lower c) = is_ws c.
Proof. destruct c as [[] [] [] [] [] [] [] []]; reflexivity. Qed.

Lemma trim_start_lower s : trim_start (str_map ascii_lower s) = str_map ascii_lower (trim_start s).
Proof.
  induction s as [|c s IH]; [done|]. cbn [str_map trim_start]. rewrite is_ws_lower, IH.
  by destruct (is_ws c).
Qed.

Lemma trim_end_lower s : trim_end (str_map ascii_lower s) = str_map ascii_lower (trim_end s).
Proof.
  induction s as [|c s IH]; [done|]. cbn [str_map trim_end]. rewrite is_ws_lower, IH.
  destruct (trim_end s); [by destruct (is_ws c)|done].
Qed.

Lemma trim_end_idem s : trim_end (trim_end s) = trim_end s.
Proof.
  induction s as [|c s IH]; [done|]. cbn [trim_end].
  destruct (trim_end s) as [|d t] eqn:E.
  - destruct (is_ws c) eqn:Ew; [done|]. cbn [trim_end]. by rewrite Ew.
  - change (trim_end (String c (String d t))) with
      (match trim_end (String d t) with
       | EmptyString => if is_ws c then "" else String c ""
       | r' => String c r' end)%string. by rewrite IH.
Qed.

Lemma trim_start_end s : trim_start (trim_end (trim_start s)) = trim_end (trim_start s).
Proof.
  induction s as [|c s IH]; [done|]. cbn [trim_start]. destruct (is_ws c) eqn:Ew; [done|].
  cbn [trim_end]. rewrite Ew. destruct (trim_end s); cbn [trim_start]; by rewrite Ew.
Qed.

Lemma ascii_trim_lower s :
  ascii_trim (str_map ascii_lower (ascii_trim s)) = str_map ascii_lower (ascii_trim s).
Proof.
  unfold ascii_trim. rewrite trim_start_lower, trim_end_lower, trim_start_end. by rewrite trim_end_idem.
Qed.

Definition ascii_trimming : @Trim ascii_fold := @Build_Trim ascii_fold ascii_trim ascii_trim_lower.

(** ** Lists *)

Lemma existsb_false {A} (f : A -> bool) l : existsb f l = false <-> forall x, In x l -> f x = false.
Proof.
  induction l as [|y l IH]; simpl; [by split|]. rewrite orb_false_iff, IH. naive_solver.
Qed.

Lemma existsb_map {A B} (f : B -> bool) (g : A -> B) l :
  existsb f (map g l) = existsb (fun x => f (g x)) l.
Proof. induction l as [|y l IH]; simpl; congruence. Qed.

Lemma find_app_eq {A} (q : A -> bool) l1 l2 :
  List.find q (l1 ++ l2) = match List.find q l1 with Some x => Some x | None => List.find q l2 end.
Proof. induction l1 as [|x l1 IH]; simpl; [done|]. by destruct (q x). Qed.

Lemma list_filter_nil {A} (f : A -> bool) l :
  (forall x, In x l -> f x = false) -> List.filter f l = [].
Proof.
  induction l as [|x l IH]; simpl; intros H; [done|]. rewrite (H x (or_introl eq_refl)). auto.
Qed.

Lemma forallb_false_Exists {A} (f : A -> bool) l :
  forallb f l = false -> Exists (fun x => f x = false) l.
Proof. induction l as [|x l IH]; simpl; [done|]. destruct (f x) eqn:E; simpl; [right; auto|by left]. Qed.

Lemma filter_Permutation_List {A} (f : A -> bool) l1 l2 :
  l1 ≡ₚ l2 -> List.filter f l1 ≡ₚ List.filter f l2.
Proof.
  induction 1 as [|x l1 l2 _ IH|x y l|l1 l2 l3 _ IH1 _ IH2]; simpl; [done|by destruct (f x); [f_equiv|]| |by etrans].
  destruct (f x), (f y); try done. by constructor.
Qed.

Lemma flat_map_ext_in {A B} (f g : A -> list B) l :
  (forall x, In x l -> f x = g x) -> flat_map f l = flat_map g l.
Proof.
  induction l as [|x l IH]; simpl; intros H; [done|]. rewrite (H x (or_introl eq_refl)). f_equal. auto.
Qed.

Lemma fold_left_inv {A B} (P : A -> Prop) (f : A -> B -> A) l a :
  (forall a x, P a -> P (f a x)) -> P a -> P (fold_left f l a).
Proof. intros H. revert a; induction l as [|x l IH]; simpl; auto. Qed.

Lemma NoDup_map_inj {A B} (f : A -> B) l x y :
  List.NoDup (map f l) -> In x l -> In y l -> f x = f y -> x = y.
Proof.
  induction l as [|z l IH]; simpl; [done|]. inversion_clear 1 as [|? ? Hz Hl].
  rewrite in_map_iff in Hz. intros [->|Hx] [->|Hy] E; auto; destruct Hz; eauto.
Qed.

(** ** Orders *)

Lemma str_compare_trans_le s t u : str_le s t -> str_le t u -> str_le s u.
Proof.
  unfold str_le, String.leb. revert t u; induction s as [|c s IH]; intros [|d t] [|e u]; simpl; try done.
  unfold Ascii.compare.
  destruct (N.compare_spec (N_of_ascii c) (N_of_ascii d)),
           (N.compare_spec (N_of_ascii d) (N_of_ascii e)),
           (N.compare_spec (N_of_ascii c) (N_of_ascii e)); try done; try lia; eauto.
Qed.

#[export] Instance str_le_trans : Transitive str_le.
Proof. intros s t u. apply str_compare_trans_le. Qed.

#[export] Instance str_le_total : Total str_le.
Proof.
  intros s t. unfold str_le, String.leb. rewrite (String.compare_antisym t s).
  destruct (String.compare s t); simpl; auto.
Qed.

#[export] Instance key_le_trans {A} : Transitive (@key_le A).
Proof. intros x y z. unfold key_le. apply transitivity. Qed.

#[export] Instance key_le_total {A} : Total (@key_le A).
Proof. intros x y. unfold key_le. apply total. apply _. Qed.

Lemma btree_iter_perm {A} (m : gmap string A) : btree_iter m ≡ₚ map_to_list m.
Proof. apply merge_sort_Permutation. Qed.

Lemma btree_iter_sorted {A} (m : gmap string A) : StronglySorted key_le (btree_iter m).
Proof. apply StronglySorted_merge_sort; apply _. Qed.

Lemma btree_iter_lookup {A} (m : gmap string A) k x :
  In (k, x) (btree_iter m) <-> m !! k = Some x.
Proof.
  rewrite <- list_elem_of_In, btree_iter_perm. apply elem_of_map_to_list.
Qed.

(** Sorting is one way to answer an [ORDER BY]. *)
Definition merge_order : SqlOrder := {|
  order_by := fun A le l => merge_sort (bool_rel le) l;
  order_by_perm := fun A le l => merge_sort_Permutation (bool_rel le) l;
  order_by_sorted := fun A le l Ht Htr => StronglySorted_merge_sort (bool_rel le) l
|}.

Lemma head_rev {A} (l : list A) : head (rev l) = last l.
Proof. destruct l as [|x l _] using rev_ind; [done|]. by rewrite rev_unit, last_snoc. Qed.

(** An [ORDER BY] on a key that is distinct on every row has one answer. *)
Section Order_by_key.
Context {SO : SqlOrder} {A : Type} (key : A -> Z).

Definition increasing (l : list A) : Prop := StronglySorted (fun x y => key x < key y) l.

Lemma increasing_inj l x y :
  increasing l -> In x l -> In y l -> key x = key y -> x = y.
Proof.
  induction 1 as [|a l _ IH HF]; simpl; [done|]. rewrite Forall_forall in HF.
  intros [->|Hx] [->|Hy] E; auto; exfalso; [specialize (HF y)|specialize (HF x)];
    rewrite list_elem_of_In in HF; specialize (HF ltac:(done)); lia.
Qed.

Lemma indexed_increasing l c :
  (forall i x, l !! i = Some x -> key x = Z.of_nat i + c) -> increasing l.
Proof.
  revert c; induction l as [|a l IH]; intros c H; [constructor|]. constructor.
  - apply (IH (c + 1)). intros i x Hi. rewrite (H (S i) x Hi). lia.
  - apply Forall_forall. intros x Hx. apply list_elem_of_lookup in Hx as [i Hi].
    rewrite (H O a eq_refl), (H (S i) x Hi). lia.
Qed.

Lemma order_by_asc l : increasing l -> order_by (fun x y => key x <=? key y) l = l.
Proof.
  intros Hl. eapply (StronglySorted_unique_strong (bool_rel (fun x y => key x <=? key y)));
    [| | |apply order_by_perm].
  - unfold bool_rel. intros x y. rewrite order_by_perm, !list_elem_of_In, !Z.leb_le.
    intros ?? ??. eapply increasing_inj; eauto. lia.
  - apply order_by_sorted; unfold bool_rel; intros ?; intros; rewrite ?Z.leb_le in *; lia.
  - unfold bool_rel. induction Hl; constructor; auto.
    eapply Forall_impl; [eassumption|]. simpl. intros. apply Z.leb_le. lia.
Qed.

Lemma increasing_rev_sorted l :
  increasing l -> StronglySorted (bool_rel (fun x y => key y <=? key x)) (rev l).
Proof.
  induction 1 as [|a l _ IH HF]; simpl; [constructor|].
  apply StronglySorted_app_2; [|done|by repeat constructor].
  intros x y Hx Hy. apply list_elem_of_singleton in Hy as ->. rewrite Forall_forall in HF.
  unfold bool_rel. apply Z.leb_le. apply list_elem_of_In, in_rev, list_elem_of_In in Hx.
  specialize (HF x Hx). lia.
Qed.

Lemma order_by_desc l : increasing l -> order_by (fun x y => key y <=? key x) l = rev l.
Proof.
  intros Hl. eapply (StronglySorted_unique_strong (bool_rel (fun x y => key y <=? key x))).
  - unfold bool_rel. intros x y. rewrite order_by_perm, !list_elem_of_In, <- in_rev, !Z.leb_le.
    intros ?? ??. eapply increasing_inj; eauto. lia.
  - apply order_by_sorted; unfold bool_rel; intros ?; intros; rewrite ?Z.leb_le in *; lia.
  - by apply increasing_rev_sorted.
  - rewrite order_by_perm. apply Permutation_rev.
Qed.
End Order_by_key.

#[export] Hint Rewrite append_nil_r append_assoc append_length str_all_app str_any_app
  str_contains_app : freeq.
