(* ===== verification/Text.v ===== *)
(** * Text and byte strings of the standard library

    What several components use of Rust's strings: decimal numbers, splitting
    into a bounded number of fields, UTF-8 validation, big-endian integers and
    fixed-length byte arrays. A byte array or a [Vec<u8>] is a [string] of its
    bytes. *)
From stdpp Require Import base strings list pretty countable.
From Stdlib Require Import ZArith Lia Ascii String.
From S2P Require Import Prelude.
Open Scope string_scope.
Open Scope list_scope.
Open Scope Z_scope.

(** ** Definitions *)

(** [str::parse::<u64>]: an optional plus, then decimal digits; [None] on
    anything else and on overflow. *)
Definition digit_step (acc : Z) (c : ascii) : Z := acc * 10 + (byte c - 48).
Definition parse_u64 (s : string) : option Z :=
  let digits := default s (strip_prefix "+" s) in
  if is_empty digits || negb (str_all is_ascii_digit digits) then None
  else let n := str_fold digit_step 0 digits in if n <? 2 ^ 64 then Some n else None.

(** [s.splitn(n, c).collect()]: at most [n] fields, the last one whole. *)
Fixpoint splitn (n : nat) (c : ascii) (s : string) : list string :=
  match n with
  | O => []
  | S O => [s]
  | S n' => match split_once c s with
            | Some (a, b) => a :: splitn n' c b
            | None => [s]
            end
  end.

(** [data[n..]] *)
Fixpoint str_drop (n : nat) (s : string) : string :=
  match n, s with
  | S n', String _ r => str_drop n' r
  | _, _ => s
  end.

(** [s.ends_with(p)]: some suffix of [s] is [p]. *)
Fixpoint ends_with (p s : string) : bool :=
  String.eqb p s || match s with String _ r => ends_with p r | EmptyString => false end.
(** [s.contains(p)] for a string pattern. *)
Fixpoint contains_str (p s : string) : bool :=
  starts_with p s || match s with String _ r => contains_str p r | EmptyString => false end.

(** [s.trim_start_matches(c)], [s.trim_end_matches(c)] *)
Fixpoint trim_start_char (c : ascii) (s : string) : string :=
  match s with
  | String d r => if Ascii.eqb c d then trim_start_char c r else s
  | EmptyString => ""
  end.
Fixpoint trim_end_char (c : ascii) (s : string) : string :=
  match s with
  | EmptyString => ""
  | String d r => match trim_end_char c r with
                  | EmptyString => if Ascii.eqb c d then "" else String d ""
                  | r' => String d r'
                  end
  end.

(** [String::from_utf8(bytes).is_ok()]: no overlong form, no surrogate, nothing
    above U+10FFFF. *)
Definition in_bytes (lo hi : Z) (c : ascii) : bool := (lo <=? byte c) && (byte c <=? hi).
Definition utf8_tail : ascii -> bool := in_bytes 128 191.
Fixpoint valid_utf8 (s : string) : bool :=
  match s with
  | EmptyString => true
  | String c r =>
      if byte c <=? 127 then valid_utf8 r
      else if in_bytes 194 223 c then
        match r with String d r' => utf8_tail d && valid_utf8 r' | _ => false end
      else if in_bytes 224 239 c then
        match r with
        | String d (String e r') =>
            (if byte c =? 224 then in_bytes 160 191 d else if byte c =? 237 then in_bytes 128 159 d else utf8_tail d)
            && utf8_tail e && valid_utf8 r'
        | _ => false
        end
      else if in_bytes 240 244 c then
        match r with
        | String d (String e (String f r')) =>
            (if byte c =? 240 then in_bytes 144 191 d else if byte c =? 244 then in_bytes 128 143 d else utf8_tail d)
            && utf8_tail e && utf8_tail f && valid_utf8 r'
        | _ => false
        end
      else false
  end.

(** [u32::to_be_bytes], [u32::from_be_bytes] *)
Definition byte_of (z : Z) : ascii := ascii_of_nat (Z.to_nat (z mod 256)).
Definition u32_to_be_bytes (n : Z) : string :=
  String (byte_of (Z.shiftr n 24)) (String (byte_of (Z.shiftr n 16)) (String (byte_of (Z.shiftr n 8)) (String (byte_of n) ""))).
Definition u32_from_be_bytes (s : string) : Z := str_fold (fun acc c => acc * 256 + byte c) 0 s.

(** ** Decimal numbers *)

Lemma digit_char_byte x : (x < 10)%N -> byte (pretty_N_char x) = 48 + Z.of_N x /\ is_ascii_digit (pretty_N_char x) = true.
Proof.
  intros H. assert (Hx : In x [0; 1; 2; 3; 4; 5; 6; 7; 8; 9]%N) by (simpl; lia).
  simpl in Hx. repeat (destruct Hx as [<-|Hx]; [by vm_compute|]). done.
Qed.

Lemma pretty_N_go_digits x : forall s,
  str_all is_ascii_digit s = true ->
  str_all is_ascii_digit (pretty_N_go x s) = true /\ (String.length s <= String.length (pretty_N_go x s))%nat /\
  str_fold digit_step 0 (pretty_N_go x s) = str_fold digit_step (Z.of_N x) s.
Proof.
  induction x as [x IH] using (well_founded_ind N.lt_wf_0). intros s Hs.
  destruct (N.eq_dec x 0) as [->|Hx]; [rewrite pretty_N_go_0; by split_and!|].
  rewrite pretty_N_go_step by lia.
  destruct (digit_char_byte (x mod 10)%N) as [Hb Hd]; [apply N.mod_lt; lia|].
  destruct (IH (x / 10)%N ltac:(apply N.div_lt; lia) (String (pretty_N_char (x mod 10)) s)) as (H1 & H2 & H3);
    [simpl; by rewrite Hd|].
  split_and!; [done|simpl in H2; lia|]. rewrite H3. simpl. f_equal. unfold digit_step. rewrite Hb.
  pose proof (N.div_mod x 10 ltac:(lia)). lia.
Qed.

Lemma pretty_Z_digits z :
  0 <= z -> str_all is_ascii_digit (pretty z) = true /\ is_empty (pretty z) = false /\ str_fold digit_step 0 (pretty z) = z.
Proof.
  intros Hz. destruct z as [|p|p]; [by vm_compute| |lia]. change (pretty (Z.pos p)) with (pretty (N.pos p)).
  unfold pretty, pretty_N. rewrite decide_False by done.
  destruct (pretty_N_go_digits (N.pos p) "" eq_refl) as (H1 & H2 & H3). split_and!; [done| |by rewrite H3].
  rewrite pretty_N_go_step by lia.
  destruct (digit_char_byte (N.pos p mod 10)%N) as [_ Hd]; [apply N.mod_lt; lia|].
  destruct (pretty_N_go_digits (N.pos p / 10) (String (pretty_N_char (N.pos p mod 10)) "")) as (_ & H & _);
    [simpl; by rewrite Hd|]. revert H. simpl. generalize (pretty_N_go (N.pos p / 10) (String (pretty_N_char (N.pos p mod 10)) "")).
  intros [|]; simpl; [lia|done].
Qed.

Lemma digits_no c s : is_ascii_digit c = false -> str_all is_ascii_digit s = true -> str_contains c s = false.
Proof.
  intros Hc. induction s as [|d s IH]; simpl; [done|]. unfold str_contains in *. simpl. intros H. bool_hyps.
  rewrite IH by done. rewrite (proj2 (Ascii.eqb_neq c d)); [done|]. intros ->. congruence.
Qed.

Lemma strip_plus_digits s : str_all is_ascii_digit s = true -> default s (strip_prefix "+" s) = s.
Proof.
  destruct s as [|c s]; [done|]. simpl. intros H. bool_hyps. unfold strip_prefix.
  destruct (Ascii.eqb "+" c) eqn:E; [|done]. bool_hyps. by subst c.
Qed.

Lemma parse_u64_pretty n : 0 <= n < 2 ^ 64 -> parse_u64 (pretty n) = Some n.
Proof.
  intros [H0 H1]. destruct (pretty_Z_digits n H0) as (Hd & He & Hv). unfold parse_u64.
  rewrite strip_plus_digits, He, Hd by done. simpl. rewrite Hv. by destruct (Z.ltb_spec n (2 ^ 64)); [|lia].
Qed.

(** ** Fields and slices *)

Lemma splitn_cons n c a b :
  str_contains c a = false -> splitn (S (S n)) c (a +:+ String c b) = a :: splitn (S n) c b.
Proof. intros H. simpl. by rewrite split_once_app. Qed.

Lemma strip_prefix_some p s r : strip_prefix p s = Some r <-> s = p +:+ r.
Proof.
  revert s; induction p as [|a p IH]; intros s; [split; [by intros [= ->]|by intros ->]|].
  destruct s as [|b s]; [done|]. unfold strip_prefix; fold strip_prefix. destruct (Ascii.eqb a b) eqn:E.
  - apply Ascii.eqb_eq in E as ->. rewrite IH. split; [by intros ->|by intros [=]].
  - apply Ascii.eqb_neq in E. split; [done|]. intros [=]. congruence.
Qed.

Lemma strip_prefix_app p s : strip_prefix p (p +:+ s) = Some s.
Proof. by apply strip_prefix_some. Qed.

Lemma starts_with_app p s : starts_with p s = true <-> exists r, s = p +:+ r.
Proof.
  unfold starts_with. destruct (strip_prefix p s) as [r|] eqn:E.
  - apply strip_prefix_some in E. naive_solver.
  - split; [done|]. intros [r Hr]. apply strip_prefix_some in Hr. congruence.
Qed.

Lemma ends_with_app p s : ends_with p s = true <-> exists r, s = r +:+ p.
Proof.
  induction s as [|c s IH]; simpl; rewrite orb_true_iff, String.eqb_eq.
  - split; [intros [->|]; [by exists ""|done]|]. intros [[|d r] Hr]; [by left|done].
  - rewrite IH. split.
    + intros [->|[r ->]]; [by exists ""|by exists (String c r)].
    + intros [[|d r] Hr]; [by left|]. right. exists r. by injection Hr.
Qed.

Lemma str_take_ge n s : (String.length s <= n)%nat -> str_take n s = s.
Proof. revert n. induction s as [|c s IH]; intros [|n] H; simpl in *; [done..|lia|]. rewrite IH by lia. done. Qed.
Lemma str_drop_ge n s : (String.length s <= n)%nat -> str_drop n s = "".
Proof. revert n. induction s as [|c s IH]; intros [|n] H; simpl in *; [done..|lia|]. apply IH. lia. Qed.

Lemma str_drop_app s t : str_drop (String.length s) (s +:+ t) = t.
Proof. induction s; simpl; [by destruct t|done]. Qed.

Lemma str_drop_length n s : String.length (str_drop n s) = (String.length s - n)%nat.
Proof. revert n. induction s as [|c s IH]; intros [|n]; simpl; [done..|]. apply IH. Qed.

Lemma str_take_length n s : String.length (str_take n s) = Nat.min n (String.length s).
Proof. revert n. induction s as [|c s IH]; intros [|n]; simpl; [done..|]. by rewrite IH. Qed.

Lemma str_take_drop n s : str_take n s +:+ str_drop n s = s.
Proof. revert n. induction s as [|c s IH]; intros [|n]; simpl; [done..|]. by rewrite IH. Qed.

(** ** Big-endian integers *)

Lemma byte_of_byte z : byte (byte_of z) = z mod 256.
Proof.
  unfold byte, byte_of. pose proof (Z.mod_pos_bound z 256 ltac:(lia)).
  rewrite nat_ascii_embedding by lia. lia.
Qed.

Lemma u32_be_length n : String.length (u32_to_be_bytes n) = 4%nat.
Proof. done. Qed.

Lemma u32_be_roundtrip n : 0 <= n < 2 ^ 32 -> u32_from_be_bytes (u32_to_be_bytes n) = n.
Proof.
  intros Hn. unfold u32_from_be_bytes, u32_to_be_bytes. simpl. rewrite !byte_of_byte, !Z.shiftr_div_pow2 by lia.
  change (2 ^ 24) with (256 * (256 * 256)). change (2 ^ 16) with (256 * 256). change (2 ^ 8) with 256.
  rewrite <-!Z.div_div by lia.
  pose proof (Z.div_mod n 256 ltac:(lia)). pose proof (Z.div_mod (n / 256) 256 ltac:(lia)).
  pose proof (Z.div_mod (n / 256 / 256) 256 ltac:(lia)).
  assert (n / 256 / 256 / 256 < 256). { rewrite !Z.div_div by lia. apply Z.div_lt_upper_bound; lia. }
  assert (0 <= n / 256 / 256 / 256) by (repeat apply Z.div_pos; lia).
  rewrite (Z.mod_small (n / 256 / 256 / 256) 256) by lia. lia.
Qed.

Lemma u32_from_be_range s :
  (String.length s <= 4)%nat -> 0 <= u32_from_be_bytes s < 2 ^ 32.
Proof.
  assert (Hb : forall c, 0 <= byte c < 256).
  { intros c. unfold byte. pose proof (nat_ascii_bounded c). lia. }
  unfold u32_from_be_bytes. intros H.
  destruct s as [|c1 [|c2 [|c3 [|c4 [|c5 s]]]]]; cbn [str_fold String.length] in *; [lia|..|lia];
    pose proof (Hb c1); try pose proof (Hb c2); try pose proof (Hb c3); try pose proof (Hb c4); lia.
Qed.

(** ** A serialiser for witnesses

    A value written as its number in an enumeration of its type. It serves to
    show that the laws of a serialiser can hold. *)
Fixpoint pos_bits (p : positive) : string :=
  match p with xH => "" | xO q => String "0" (pos_bits q) | xI q => String "1" (pos_bits q) end.
Fixpoint pos_unbits (s : string) : option positive :=
  match s with
  | EmptyString => Some xH
  | String c r =>
      if Ascii.eqb c "0" then xO <$> pos_unbits r else if Ascii.eqb c "1" then xI <$> pos_unbits r else None
  end.
Definition enum_text `{Countable A} (x : A) : string := pos_bits (encode x).
Definition enum_read `{Countable A} (s : string) : option A := pos_unbits s ≫= decode.

Lemma pos_unbits_bits p : pos_unbits (pos_bits p) = Some p.
Proof. induction p as [p IH|p IH|]; simpl; by rewrite ?IH. Qed.

Lemma enum_read_text `{Countable A} (x : A) : enum_read (enum_text x) = Some x.
Proof. unfold enum_read, enum_text. rewrite pos_unbits_bits. simpl. apply decode_encode. Qed.

#[export] Hint Rewrite strip_prefix_app str_take_app str_drop_app str_drop_length str_take_length u32_be_length : freeq.
