(* ===== verification/Ulid.v ===== *)
(** * Message ids (ULIDs)

    Models [freeq-server/src/msgid.rs] (generation, well-formedness, the
    client-minted check) and the two other decoders of the same id format:
    [freeq-sdk/src/sigtag.rs] ([msgid_timestamp_ms]) and
    [freeq-sdk/src/act_transitions.rs] ([event_time_ms], [is_event_id]).

    The process-wide [LAST] mutex is the state [generate] threads; the wall
    clock and the random source are arguments of each call. *)

From stdpp Require Import base gmap strings list sorting.
From Stdlib Require Import ZArith Lia Ascii String.
From S2P Require Import Prelude.
Open Scope Z_scope.
Open Scope rust_scope.

Definition CROCKFORD : string := "0123456789ABCDEFGHJKMNPQRSTVWXYZ".

Definition MAX_CLIENT_SKEW_MS : Z := 120000.

Inductive IdRejection := NotUlid | Skewed.

Definition IdRejection_code (r : IdRejection) : string :=
  match r with
  | NotUlid => "INVALID_EVENTID"
  | Skewed => "EVENTID_CLOCK_SKEW"
  end.

Definition IdRejection_description (r : IdRejection) : string :=
  match r with
  | NotUlid => "Event id must be a 26-character Crockford base32 ULID"
  | Skewed => "Event id timestamp is too far from server time"
  end.

Definition is_wellformed (id : string) : bool :=
  (String.length id =? 26)%nat
  && str_all (fun b => str_contains (ascii_upper b) CROCKFORD
                       && negb (is_ascii_lowercase b)) id.

(** The decoding loop: [ts = (ts << 5) | position(b)?] over the bytes. *)
Fixpoint decode_loop (ts : Z) (s : string) : option Z :=
  match s with
  | EmptyString => Some ts
  | String b r =>
      match str_position b CROCKFORD with
      | None => None
      | Some v => decode_loop (Z.lor (shl_w 64 ts 5) (Z.of_nat v)) r
      end
  end.

Definition timestamp_ms (id : string) : option Z :=
  if negb (is_wellformed id) then None else decode_loop 0 (str_take 10 id).

Definition check_client_minted (id : string) (now_ms : Z) : result unit IdRejection :=
  let? ts := ok_or (timestamp_ms id) NotUlid in
  if MAX_CLIENT_SKEW_MS <? Z.abs (ts - now_ms) then Err Skewed else Ok tt.

(** [LAST]: the last timestamp and random component handed out. *)
Record Last := mkLast { last_ts : Z; last_rand : Z }.

(** What one call draws from its environment: the wall clock in milliseconds
    and the two random words [gen::<u16>] and [gen::<u64>]. *)
Record Draw := mkDraw { now_ms : Z; rnd_u16 : Z; rnd_u64 : Z }.

Definition next_last (last : Last) (d : Draw) : Last :=
  if now_ms d =? last_ts last then
    mkLast (last_ts last) (wrap 128 (last_rand last + 1))
  else
    let r := Z.lor (shl_w 128 (rnd_u16 d) 64) (rnd_u64 d) in
    let r := Z.land r (2 ^ 80 - 1) in
    mkLast (now_ms d) r.

(** [CROCKFORD[i]] *)
Definition crock (i : Z) : ascii :=
  default "0"%char (String.get (Z.to_nat i) CROCKFORD).

(** The encoding loops fill the buffer from the last position down. *)
Fixpoint encode_loop (n : nat) (t : Z) (acc : string) : string :=
  match n with
  | O => acc
  | S m => encode_loop m (Z.shiftr t 5) (String (crock (Z.land t 31)) acc)
  end.

Definition generate (last : Last) (d : Draw) : string * Last :=
  let last' := next_last last d in
  (encode_loop 10 (now_ms d) (encode_loop 16 (last_rand last') ""), last').

(** [sigtag::msgid_timestamp_ms] *)
Definition msgid_timestamp_ms (id : string) : option Z :=
  if negb (String.length id =? 26)%nat
     || negb (str_all (fun b => str_contains b CROCKFORD) id)
  then None
  else decode_loop 0 (str_take 10 id).

(** [act_transitions::is_event_id] *)
Definition is_event_id (id : string) : bool :=
  (String.length id =? 26)%nat && str_all (fun b => str_contains b CROCKFORD) id.

(** [act_transitions::event_time_ms] *)
Definition event_time_ms (msgid : string) : option Z :=
  if negb (String.length msgid =? 26)%nat then None
  else decode_loop 0 (str_take 10 msgid).

(** A run of [generate] calls, one per draw: the ids in generation order and
    the state after each. *)
Fixpoint generate_all (last : Last) (ds : list Draw) : list (string * Last) :=
  match ds with
  | [] => []
  | d :: ds => let g := generate last d in g :: generate_all g.2 ds
  end.

(** ** Digits *)

Definition digits : list Z :=
  [0;1;2;3;4;5;6;7;8;9;10;11;12;13;14;15;16;17;18;19;20;21;22;23;24;25;26;27;28;29;30;31].

Lemma digits_spec i : 0 <= i < 32 -> In i digits.
Proof. intros H. unfold digits. simpl. lia. Qed.

Lemma crock_position i : 0 <= i < 32 -> str_position (crock i) CROCKFORD = Some (Z.to_nat i).
Proof.
  intros H%digits_spec. revert i H. apply List.Forall_forall.
  repeat (constructor; [vm_compute; reflexivity|]). constructor.
Qed.

Lemma crock_contains i : 0 <= i < 32 -> str_contains (crock i) CROCKFORD = true.
Proof.
  intros H%digits_spec. revert i H. apply List.Forall_forall.
  repeat (constructor; [vm_compute; reflexivity|]). constructor.
Qed.

(** The alphabet is in ascending byte order, which is what makes the encoding
    sortable. *)
Lemma crock_mono i j : 0 <= i < 32 -> 0 <= j < 32 -> i < j -> byte (crock i) < byte (crock j).
Proof.
  intros Hi Hj.
  assert (Forall (fun a => Forall (fun b => a < b -> byte (crock a) < byte (crock b)) digits)
            digits) as HF.
  { repeat (constructor; [repeat (constructor; [vm_compute; congruence|]); constructor|]).
    constructor. }
  rewrite !List.Forall_forall in HF.
  pose proof (HF i (digits_spec i Hi)) as HF'. rewrite List.Forall_forall in HF'.
  apply HF', digits_spec, Hj.
Qed.

Lemma land31 t : Z.land t 31 = t mod 32.
Proof. change 31 with (Z.ones 5). by rewrite Z.land_ones by lia. Qed.

Lemma lor_shl5 x v : 0 <= v < 32 -> Z.lor (Z.shiftl x 5) v = x * 32 + v.
Proof.
  intros Hv.
  assert (Z.land (Z.shiftl x 5) v = 0) as Hl.
  { apply Z.bits_inj'. intros n Hn. rewrite Z.land_spec, Z.shiftl_spec, Z.bits_0 by lia.
    destruct (Z.lt_ge_cases n 5).
    - by rewrite Z.testbit_neg_r by lia.
    - rewrite (Z.bits_above_log2 v n), andb_false_r; [done|lia|].
      destruct (Z.eq_dec v 0) as [->|]; [simpl; lia|].
      apply Z.log2_lt_pow2; [lia|]. apply Z.lt_le_trans with (2 ^ 5); [lia|].
      apply Z.pow_le_mono_r; lia. }
  rewrite <- Z.lxor_lor by done. rewrite <- Z.add_nocarry_lxor by done.
  by rewrite Z.shiftl_mul_pow2 by lia.
Qed.

(** ** The encoder, one character at a time *)

Definition enc (n : nat) (t : Z) : string := encode_loop n t "".

Lemma encode_loop_app n t acc : encode_loop n t acc = (enc n t +:+ acc).
Proof.
  unfold enc. revert t acc. induction n as [|n IH]; intros t acc; [done|].
  simpl. rewrite IH, (IH _ (String _ "")), append_assoc. done.
Qed.

Lemma enc_succ n t : enc (S n) t = (enc n (Z.shiftr t 5) +:+ String (crock (Z.land t 31)) "").
Proof. unfold enc at 1. simpl. apply encode_loop_app. Qed.

Lemma enc_length n t : String.length (enc n t) = n.
Proof.
  revert t; induction n as [|n IH]; intros t; [done|].
  rewrite enc_succ, append_length, IH. simpl. lia.
Qed.

Lemma enc_crockford n t : str_all (fun b => str_contains b CROCKFORD) (enc n t) = true.
Proof.
  revert t; induction n as [|n IH]; intros t; [done|].
  rewrite enc_succ, str_all_app, IH. simpl.
  rewrite crock_contains; [done|]. rewrite land31. apply Z.mod_pos_bound; lia.
Qed.

Lemma decode_loop_app s t ts :
  decode_loop ts (s +:+ t) = decode_loop ts s ≫= fun ts' => decode_loop ts' t.
Proof.
  revert ts; induction s as [|c s IH]; intros ts; [done|].
  cbn [decode_loop String.append]. destruct (str_position c CROCKFORD); [apply IH|done].
Qed.

(** Decoding inverts encoding: [n] characters carry the low [5 n] bits. *)
Lemma decode_enc n t : (n <= 10)%nat -> decode_loop 0 (enc n t) = Some (t mod 2 ^ (5 * Z.of_nat n)).
Proof.
  revert t; induction n as [|n IH]; intros t Hn.
  { simpl. by rewrite Z.mod_1_r. }
  rewrite enc_succ, decode_loop_app, IH by lia. cbn [mbind option_bind decode_loop].
  assert (0 <= Z.land t 31 < 32) as Hd by (rewrite land31; apply Z.mod_pos_bound; lia).
  rewrite crock_position by done. f_equal.
  set (x := Z.shiftr t 5 mod 2 ^ (5 * Z.of_nat n)).
  assert (0 <= x < 2 ^ (5 * Z.of_nat n)) as Hx by (apply Z.mod_pos_bound; lia).
  assert (2 ^ (5 * Z.of_nat n) <= 2 ^ 45) by (apply Z.pow_le_mono_r; lia).
  assert (2 ^ 64 = 2 ^ 45 * 2 ^ 19) by done.
  unfold shl_w, wrap. rewrite Z.mod_small by (rewrite Z.shiftl_mul_pow2 by lia; lia).
  rewrite Z2Nat.id, lor_shl5, land31 by lia.
  unfold x. rewrite Z.shiftr_div_pow2 by lia. change (2 ^ 5) with 32.
  replace (5 * Z.of_nat (S n)) with (5 * Z.of_nat n + 5) by lia.
  rewrite Z.pow_add_r by lia. change (2 ^ 5) with 32.
  rewrite (Z.mul_comm (2 ^ (5 * Z.of_nat n)) 32), Z.rem_mul_r by lia. lia.
Qed.

(** Encoding is order-preserving on [n]-digit numbers. *)
Lemma enc_mono n a b :
  0 <= a < 2 ^ (5 * Z.of_nat n) -> 0 <= b < 2 ^ (5 * Z.of_nat n) -> a < b ->
  str_lt (enc n a) (enc n b).
Proof.
  revert a b; induction n as [|n IH]; intros a b Ha Hb Hab.
  { simpl in *. lia. }
  replace (5 * Z.of_nat (S n)) with (5 * Z.of_nat n + 5) in * by lia.
  rewrite Z.pow_add_r in * by lia. change (2 ^ 5) with 32 in *.
  set (P := 2 ^ (5 * Z.of_nat n)) in *.
  rewrite !enc_succ, !Z.shiftr_div_pow2, !land31 by lia. change (2 ^ 5) with 32.
  pose proof (Z.mod_pos_bound a 32) as Hma. pose proof (Z.mod_pos_bound b 32) as Hmb.
  pose proof (Z.div_mod a 32) as Hda. pose proof (Z.div_mod b 32) as Hdb.
  assert (0 <= a / 32 < P) by (split; [apply Z.div_pos; lia|apply Z.div_lt_upper_bound; lia]).
  assert (0 <= b / 32 < P) by (split; [apply Z.div_pos; lia|apply Z.div_lt_upper_bound; lia]).
  destruct (Z.lt_trichotomy (a / 32) (b / 32)) as [Hlt|[Heq|Hgt]]; [| |lia].
  - apply str_lt_app_l; [by rewrite !enc_length|]. by apply IH.
  - rewrite Heq. apply str_lt_app_eq, str_lt_cons_lt, crock_mono; lia.
Qed.

(** ** Well-formedness *)

(** The server's test and the SDK's test accept the same bytes. *)
Lemma crockford_byte b :
  str_contains (ascii_upper b) CROCKFORD && negb (is_ascii_lowercase b)
  = str_contains b CROCKFORD.
Proof. destruct b as [[] [] [] [] [] [] [] []]; vm_compute; reflexivity. Qed.

Lemma str_all_ext p q s : (forall c, p c = q c) -> str_all p s = str_all q s.
Proof. intros H; induction s as [|c s IH]; simpl; [done|]. by rewrite H, IH. Qed.

Lemma is_wellformed_event_id id : is_wellformed id = is_event_id id.
Proof.
  unfold is_wellformed, is_event_id. f_equal. apply str_all_ext, crockford_byte.
Qed.

Lemma generate_shape last d :
  (generate last d).1 = (enc 10 (now_ms d) +:+ enc 16 (last_rand (next_last last d))).
Proof. unfold generate. cbn [fst]. by rewrite encode_loop_app. Qed.

Lemma generate_wellformed last d : is_wellformed (generate last d).1 = true.
Proof.
  rewrite is_wellformed_event_id, generate_shape. unfold is_event_id.
  by rewrite append_length, str_all_app, !enc_length, !enc_crockford.
Qed.

(** Every id [generate] hands out is a well-formed ULID, and decoding it
    gives back the very millisecond it was minted at (the 10 timestamp
    characters carry 50 bits, so for every clock reading below 2^50 ms). *)
Theorem generate_timestamp_roundtrip last d :
  0 <= now_ms d < 2 ^ 50 ->
  is_wellformed (generate last d).1 = true
  /\ timestamp_ms (generate last d).1 = Some (now_ms d).
Proof.
  intros Hnow. pose proof (generate_wellformed last d) as Hwf. split; [done|].
  unfold timestamp_ms. rewrite Hwf, generate_shape. cbn [negb].
  rewrite <- (enc_length 10 (now_ms d)) at 1. rewrite str_take_app, decode_enc by lia.
  by rewrite Z.mod_small.
Qed.

Lemma generate_timestamp_roundtrip_witness :
  timestamp_ms (generate (mkLast 5 6) (mkDraw 1788000000000 1 2)).1 = Some 1788000000000.
Proof. apply generate_timestamp_roundtrip. vm_compute. split; congruence. Defined.

(** ** Sort order *)

Lemma land80_bound x : 0 <= Z.land x (2 ^ 80 - 1) < 2 ^ 80.
Proof.
  change (2 ^ 80 - 1) with (Z.ones 80). rewrite Z.land_ones by lia.
  apply Z.mod_pos_bound. lia.
Qed.

Lemma wrap_bound w x : 0 <= w -> 0 <= wrap w x < 2 ^ w.
Proof. intros. apply Z.mod_pos_bound. lia. Qed.

Lemma next_last_ts last d : last_ts (next_last last d) = now_ms d.
Proof. unfold next_last. destruct (now_ms d =? last_ts last) eqn:E; bool_hyps; done. Qed.

Lemma next_last_nonneg last d : 0 <= last_rand (next_last last d).
Proof.
  unfold next_last. destruct (now_ms d =? last_ts last); simpl.
  - apply wrap_bound. lia.
  - apply land80_bound.
Qed.

Lemma next_last_same last d :
  now_ms d = last_ts last -> last_rand (next_last last d) = wrap 128 (last_rand last + 1).
Proof. intros H. unfold next_last. by rewrite (proj2 (Z.eqb_eq _ _) H). Qed.

(** Two consecutive calls whose clock did not go back, the random part still
    inside its 80 bits. *)
Lemma generate_step_lt last d e :
  0 <= now_ms d <= now_ms e -> now_ms e < 2 ^ 50 ->
  last_rand (next_last last d) < 2 ^ 80 ->
  last_rand (next_last (next_last last d) e) < 2 ^ 80 ->
  str_lt (generate last d).1 (generate (next_last last d) e).1.
Proof.
  intros Hd He Hr1 Hr2. rewrite !generate_shape.
  destruct (Z.eq_dec (now_ms d) (now_ms e)) as [Heq|Hne].
  - rewrite Heq. apply str_lt_app_eq, enc_mono; change (5 * Z.of_nat 16) with 80.
    1,2: split; [apply next_last_nonneg|done].
    rewrite (next_last_same _ e) in Hr2 |- * by (by rewrite next_last_ts).
    pose proof (next_last_nonneg last d).
    unfold wrap. rewrite Z.mod_small; [lia|]. change (2 ^ 128) with (2 ^ 80 * 2 ^ 48). lia.
  - apply str_lt_app_l; [by rewrite !enc_length|]. apply enc_mono; simpl Z.mul; lia.
Qed.

Lemma str_lt_trans s t u : str_lt s t -> str_lt t u -> str_lt s u.
Proof.
  revert t u; induction s as [|a s IH]; intros [|b t] [|c u]; unfold str_lt; simpl; try done.
  unfold Ascii.compare.
  destruct (N.compare_spec (N_of_ascii a) (N_of_ascii b)) as [E1|E1|E1],
    (N.compare_spec (N_of_ascii b) (N_of_ascii c)) as [E2|E2|E2]; try done; intros H1 H2;
  destruct (N.compare_spec (N_of_ascii a) (N_of_ascii c)); try done; try lia.
  by apply (IH t u).
Qed.

#[export] Instance str_lt_transitive : Transitive str_lt := str_lt_trans.

(** A run in which the clock never steps back and no millisecond mints so many
    ids that the 80-bit counter overflows. *)
Definition monotone_run (last : Last) (ds : list Draw) : Prop :=
  Sorted (fun d e => now_ms d <= now_ms e) ds
  /\ Forall (fun d => 0 <= now_ms d < 2 ^ 50) ds
  /\ Forall (fun g => last_rand g.2 < 2 ^ 80) (generate_all last ds).

(** Over any number of calls, generation order is sort order: under a
    clock that never steps back, each id sorts strictly after every id handed
    out before it, also within one millisecond. *)
Theorem generate_all_sorted last ds :
  monotone_run last ds -> StronglySorted str_lt (generate_all last ds).*1.
Proof.
  intros (Hs & Hb & Hr). apply Sorted_StronglySorted; [apply _|].
  revert last Hr. induction ds as [|d ds IH]; intros last Hr; [constructor|].
  apply Sorted_inv in Hs as [Hs Hhd]. simpl in Hr. apply Forall_cons in Hr as [Hr1 Hr].
  apply Forall_cons in Hb as [Hd Hb]. simpl. constructor; [by apply IH|].
  destruct ds as [|e ds]; simpl; constructor.
  inversion Hhd; subst. simpl in Hr. apply Forall_cons in Hr as [Hr2 _].
  apply Forall_cons in Hb as [He _].
  apply generate_step_lt; [lia|lia|done|done].
Qed.

Lemma generate_all_sorted_witness :
  StronglySorted str_lt
    (generate_all (mkLast 0 0) [mkDraw 7 1 2; mkDraw 7 0 0; mkDraw 9 3 4]).*1.
Proof.
  apply generate_all_sorted. split_and!.
  - repeat (constructor || (simpl; lia)).
  - repeat constructor; simpl; lia.
  - repeat (apply Forall_cons; split; [vm_compute; done|]). constructor.
Defined.

(** The clock hypothesis is needed: after a step back the same millisecond is
    met again with fresh random bits, and the later id can sort first. *)
Lemma generate_clock_step_back :
  let ids := (generate_all (mkLast 0 0) [mkDraw 7 5 0; mkDraw 6 0 0; mkDraw 7 4 0]).*1 in
  str_lt (nth 2 ids "") (nth 0 ids "").
Proof. vm_compute. reflexivity. Qed.

(** ** Three decoders of one format *)

Lemma contains_position c t : str_contains c t = true -> str_position c t <> None.
Proof.
  unfold str_contains. induction t as [|d t IH]; simpl; [done|].
  rewrite (Ascii.eqb_sym c d). destruct (Ascii.eqb d c); [done|]. simpl. intros H.
  destruct (str_position c t); [done|]. by apply IH.
Qed.

Lemma decode_total n s ts :
  str_all (fun b => str_contains b CROCKFORD) s = true -> decode_loop ts (str_take n s) <> None.
Proof.
  revert n ts; induction s as [|c s IH]; intros n ts Hall; destruct n; try done.
  simpl in Hall. bool_hyps. cbn [str_take decode_loop].
  destruct (str_position c CROCKFORD) eqn:Ep; [by apply IH|].
  by apply contains_position in H.
Qed.

Lemma wellformed_decodes id : is_wellformed id = true -> timestamp_ms id <> None.
Proof.
  intros H. unfold timestamp_ms. rewrite H. cbn [negb].
  rewrite is_wellformed_event_id in H. unfold is_event_id in H. bool_hyps.
  by apply decode_total.
Qed.

(** The three readers of an id agree: the SDK's [msgid_timestamp_ms] is
    the server's [timestamp_ms] on every string, the SDK's shape test is the
    server's, and on a well-formed id the lifecycle checker's clock
    [event_time_ms] reads the same millisecond and never fails. *)
Theorem ulid_decoders_agree id :
  msgid_timestamp_ms id = timestamp_ms id
  /\ is_event_id id = is_wellformed id
  /\ (is_wellformed id = true -> event_time_ms id = timestamp_ms id /\ timestamp_ms id <> None).
Proof.
  split_and!; [|by rewrite is_wellformed_event_id|].
  - unfold msgid_timestamp_ms, timestamp_ms. rewrite is_wellformed_event_id.
    unfold is_event_id. by rewrite negb_andb.
  - intros Hwf. split; [|by apply wellformed_decodes].
    unfold event_time_ms, timestamp_ms. rewrite Hwf. cbn [negb].
    unfold is_wellformed in Hwf. bool_hyps. by rewrite H.
Qed.

(** The client-minted check accepts exactly the well-formed ULIDs whose
    embedded clock is within the 120 s skew bound, and names the reason
    otherwise. *)
Theorem check_client_minted_spec id now :
  match check_client_minted id now with
  | Ok _ => exists ts, timestamp_ms id = Some ts /\ Z.abs (ts - now) <= MAX_CLIENT_SKEW_MS
  | Err NotUlid => is_wellformed id = false
  | Err Skewed => exists ts, timestamp_ms id = Some ts /\ MAX_CLIENT_SKEW_MS < Z.abs (ts - now)
  end.
Proof.
  unfold check_client_minted. destruct (timestamp_ms id) as [ts|] eqn:Ets; cbn [ok_or res_bind].
  - destruct (MAX_CLIENT_SKEW_MS <? Z.abs (ts - now)) eqn:E; bool_hyps; eauto.
  - destruct (is_wellformed id) eqn:Ewf; [|done].
    by apply wellformed_decodes in Ewf.
Qed.
