(* ===== verification/IrcMessage.v ===== *)
(** * The IRC wire format

    Models [freeq-sdk/src/irc.rs] and [freeq-server/src/irc.rs]: IRCv3 message
    tags, the line parser and the two printers. The two crates carry the same
    parser and tag codec and different [Display] implementations (the SDK
    strips CR, LF and NUL, the server does not).

    Strings are byte strings. Every character the code tests for is ASCII, and
    no byte of a multi-byte UTF-8 character is, so a byte loop and a [char] loop
    make the same decisions. *)

From stdpp Require Import base gmap strings list.
From Stdlib Require Import ZArith Lia Ascii String Btauto.
From S2P Require Import Prelude.
Open Scope Z_scope.

Record Message := mkMessage {
  tags : gmap string string;
  prefix : option string;
  command : string;
  params : list string
}.

(** ** The tag codec *)

Definition BACKSLASH : ascii := "\".

(** [unescape_tag_value] *)
Fixpoint unescape_tag_value (s : string) : string :=
  match s with
  | EmptyString => ""
  | String c r =>
      if Ascii.eqb c BACKSLASH then
        match r with
        | EmptyString => String BACKSLASH ""
        | String d r' =>
            if Ascii.eqb d ":" then String ";" (unescape_tag_value r')
            else if Ascii.eqb d "s" then String " " (unescape_tag_value r')
            else if Ascii.eqb d BACKSLASH then String BACKSLASH (unescape_tag_value r')
            else if Ascii.eqb d "r" then String CR (unescape_tag_value r')
            else if Ascii.eqb d "n" then String LF (unescape_tag_value r')
            else String BACKSLASH (String d (unescape_tag_value r'))
        end
      else String c (unescape_tag_value r)
  end.

(** What one character contributes to an escaped value. *)
Definition escape_char (c : ascii) : string :=
  if Ascii.eqb c ";" then "\:"
  else if Ascii.eqb c " " then "\s"
  else if Ascii.eqb c BACKSLASH then "\\"
  else if Ascii.eqb c CR then "\r"
  else if Ascii.eqb c LF then "\n"
  else String c "".

(** [escape_tag_value] *)
Fixpoint escape_tag_value (s : string) : string :=
  match s with
  | EmptyString => ""
  | String c r => escape_char c +:+ escape_tag_value r
  end.

(** One iteration of [parse_tags]' loop. *)
Definition parse_tag_pair (m : gmap string string) (pair : string) : gmap string string :=
  if is_empty pair then m
  else match split_once "=" pair with
       | Some (key, value) => <[key := unescape_tag_value value]> m
       | None => <[pair := ""]> m
       end.

(** [parse_tags] *)
Definition parse_tags (tag_str : string) : gmap string string :=
  foldl parse_tag_pair ∅ (str_split ";" tag_str).

(** ** The parser *)

Definition is_crlf (c : ascii) : bool := Ascii.eqb c CR || Ascii.eqb c LF.

(** [line.trim_end_matches(['\r', '\n'])] *)
Fixpoint trim_crlf (s : string) : string :=
  match s with
  | EmptyString => ""
  | String c r =>
      let r' := trim_crlf r in
      if is_crlf c && is_empty r' then "" else String c r'
  end.

(** The [while !rest.is_empty()] loop that collects parameters. Each round
    consumes at least one byte, so [length rest] rounds are enough
    ([params_loop_fuel] below). *)
Fixpoint params_loop (fuel : nat) (rest : string) : list string :=
  match fuel with
  | O => []
  | S n =>
      if is_empty rest then []
      else match strip_prefix ":" rest with
           | Some trailing => [trailing]
           | None =>
               match split_once " " rest with
               | Some (p, rest') => p :: params_loop n rest'
               | None => [rest]
               end
           end
  end.

Definition parse_params (rest : string) : list string :=
  params_loop (String.length rest) rest.

(** The command and its parameters, once tags and prefix are off the line. *)
Definition parse_command (rest : string) : string * list string :=
  match split_once " " rest with
  | Some (cmd, rest') => (str_map ascii_upper cmd, parse_params rest')
  | None => (str_map ascii_upper rest, [])
  end.

(** Tags: [@key=value;key2=value2 ], and what follows them. *)
Definition take_tags (line : string) : option (gmap string string * string) :=
  match strip_prefix "@" line with
  | Some r =>
      match split_once " " r with
      | Some (tag_str, rest) => Some (parse_tags tag_str, rest)
      | None => None
      end
  | None => Some (∅, line)
  end.

(** Prefix: [:server ] or [:nick!user@host ], and what follows it. *)
Definition take_prefix (rest : string) : option (option string * string) :=
  match strip_prefix ":" rest with
  | Some r =>
      match split_once " " r with
      | Some (pfx, rest) => Some (Some pfx, rest)
      | None => None
      end
  | None => Some (None, rest)
  end.

(** [Message::parse] (the same function in both crates). *)
Definition parse (line : string) : option Message :=
  let line := trim_crlf line in
  if is_empty line then None
  else
    '(tags, rest) ← take_tags line;
    '(prefix, rest) ← take_prefix rest;
    let '(command, params) := parse_command rest in
    Some (mkMessage tags prefix command params).

Definition new (command : string) (params : list string) : Message :=
  mkMessage ∅ None command params.

Definition with_tags (tags : gmap string string) (command : string) (params : list string) : Message :=
  mkMessage tags None command params.

Definition from_server (server command : string) (params : list string) : Message :=
  mkMessage ∅ (Some server) command params.

(** ** The printers *)

Definition is_unsafe (c : ascii) : bool :=
  Ascii.eqb c CR || Ascii.eqb c LF || Ascii.eqb c NUL.

(** [chars().filter(|c| *c != '\r' && *c != '\n' && *c != '\0')] *)
Definition sanitize (s : string) : string := str_filter (fun c => negb (is_unsafe c)) s.

Definition fmt_tag (kv : string * string) : string :=
  if is_empty kv.2 then kv.1 else kv.1 +:+ "=" +:+ escape_tag_value kv.2.

(** A parameter that only the trailing position can carry. *)
Definition needs_trailing (p : string) : bool :=
  str_contains " " p || starts_with_char ":" p || is_empty p.

(** The SDK's parameter loop, from position [i] on; [p :: rest] is
    [self.params[i..]]. *)
Fixpoint sdk_fmt_params (ps : list string) : string :=
  match ps with
  | [] => ""
  | p :: rest =>
      let safe := sanitize p in
      let is_last := match rest with [] => true | _ => false end in
      if is_last && needs_trailing safe then " :" +:+ safe
      else if negb is_last && str_contains " " safe then
        " :" +:+ str_join " " (sanitize <$> p :: rest)
      else " " +:+ safe +:+ sdk_fmt_params rest
  end.

Fixpoint server_fmt_params (ps : list string) : string :=
  match ps with
  | [] => ""
  | p :: rest =>
      let is_last := match rest with [] => true | _ => false end in
      if is_last && needs_trailing p then " :" +:+ p
      else " " +:+ p +:+ server_fmt_params rest
  end.

Section Display.
Context `{HO : !HashOrder}.

Definition fmt_tags (m : gmap string string) : string :=
  match hash_iter m with
  | [] => ""
  | l => "@" +:+ str_join ";" (fmt_tag <$> l) +:+ " "
  end.

(** [impl fmt::Display for Message], SDK. *)
Definition sdk_display (m : Message) : string :=
  fmt_tags (tags m)
  +:+ (match prefix m with Some p => ":" +:+ sanitize p +:+ " " | None => "" end)
  +:+ command m
  +:+ sdk_fmt_params (params m).

(** [impl fmt::Display for Message], server. *)
Definition server_display (m : Message) : string :=
  fmt_tags (tags m)
  +:+ (match prefix m with Some p => ":" +:+ p +:+ " " | None => "" end)
  +:+ command m
  +:+ server_fmt_params (params m).
End Display.

(** The server's [Message::parse]: the same text as the SDK's. *)
Definition server_parse : string -> option Message := parse.

(** ** Tag values survive the wire *)

Lemma unescape_escape_char c s :
  unescape_tag_value (escape_char c +:+ s) = String c (unescape_tag_value s).
Proof.
  unfold escape_char.
  destruct (Ascii.eqb c ";") eqn:E1; [by bool_hyps; subst|].
  destruct (Ascii.eqb c " ") eqn:E2; [by bool_hyps; subst|].
  destruct (Ascii.eqb c BACKSLASH) eqn:E3; [by bool_hyps; subst|].
  destruct (Ascii.eqb c CR) eqn:E4; [by bool_hyps; subst|].
  destruct (Ascii.eqb c LF) eqn:E5; [by bool_hyps; subst|].
  cbn [String.append unescape_tag_value]. by rewrite E3.
Qed.

Lemma unescape_escape_value s : unescape_tag_value (escape_tag_value s) = s.
Proof.
  induction s as [|c s IH]; [done|]. cbn [escape_tag_value].
  by rewrite unescape_escape_char, IH.
Qed.

(** An escaped value has none of the characters that structure a tag list. *)
Lemma escape_clean c s :
  In c [";"%char; " "%char; CR; LF] -> str_contains c (escape_tag_value s) = false.
Proof.
  intros Hc. induction s as [|d s IH]; [done|].
  cbn [escape_tag_value]. rewrite str_contains_app, IH, orb_false_r.
  unfold escape_char.
  destruct (Ascii.eqb d ";") eqn:E1; [by repeat destruct Hc as [<-|Hc]|].
  destruct (Ascii.eqb d " ") eqn:E2; [by repeat destruct Hc as [<-|Hc]|].
  destruct (Ascii.eqb d BACKSLASH) eqn:E3; [by repeat destruct Hc as [<-|Hc]|].
  destruct (Ascii.eqb d CR) eqn:E4; [by repeat destruct Hc as [<-|Hc]|].
  destruct (Ascii.eqb d LF) eqn:E5; [by repeat destruct Hc as [<-|Hc]|].
  unfold str_contains. simpl. rewrite orb_false_r, Ascii.eqb_sym.
  by repeat destruct Hc as [<-|Hc].
Qed.

(** Escaping then unescaping a tag value is the identity, and an escaped
    value contains no [;], no space, no CR and no LF, so it can neither end its
    tag, end the tag list nor end the line. *)
Theorem tag_value_roundtrip s :
  unescape_tag_value (escape_tag_value s) = s
  /\ Forall (fun c => str_contains c (escape_tag_value s) = false)
       [";"%char; " "%char; CR; LF].
Proof.
  split; [apply unescape_escape_value|].
  apply List.Forall_forall. intros c Hc. by apply escape_clean.
Qed.

(** ** The parameter loop terminates within its fuel *)

Lemma split_once_length c s a b :
  split_once c s = Some (a, b) -> (String.length b < String.length s)%nat.
Proof. intros [-> _]%split_once_some. rewrite append_length. simpl. lia. Qed.

Lemma params_loop_fuel n m rest :
  (String.length rest <= n)%nat -> (String.length rest <= m)%nat ->
  params_loop n rest = params_loop m rest.
Proof.
  revert m rest; induction n as [|n IH]; intros [|m] rest Hn Hm; simpl.
  - done.
  - by destruct rest; [|simpl in *; lia].
  - by destruct rest; [|simpl in *; lia].
  - destruct (is_empty rest); [done|]. destruct (strip_prefix ":" rest); [done|].
    destruct (split_once " " rest) as [[p r]|] eqn:E; [|done].
    apply split_once_length in E. f_equal. apply IH; lia.
Qed.

(** One round of the loop on the rest of the line and the parameters so far; no
    rest once the loop is left. *)
Inductive params_step : option string * list string -> option string * list string -> Prop :=
  | ps_done ps : params_step (Some ""%string, ps) (None, ps)
  | ps_trailing rest t ps :
      is_empty rest = false -> strip_prefix ":" rest = Some t -> params_step (Some rest, ps) (None, ps ++ [t])
  | ps_param rest p rest' ps :
      is_empty rest = false -> strip_prefix ":" rest = None -> split_once " " rest = Some (p, rest') ->
      params_step (Some rest, ps) (Some rest', ps ++ [p])
  | ps_last rest ps :
      is_empty rest = false -> strip_prefix ":" rest = None -> split_once " " rest = None ->
      params_step (Some rest, ps) (None, ps ++ [rest]).

Lemma params_step_runs n : forall rest ps, (String.length rest <= n)%nat ->
  exists k, (k <= S n)%nat /\ nsteps params_step k (Some rest, ps) (None, ps ++ params_loop n rest).
Proof.
  induction n as [|n IH]; intros rest ps Hn.
  - destruct rest; [|simpl in Hn; lia]. exists 1%nat. split; [lia|]. simpl. rewrite app_nil_r. apply nsteps_once. constructor.
  - simpl. destruct (is_empty rest) eqn:Ee.
    { destruct rest; [|done]. exists 1%nat. split; [lia|]. rewrite app_nil_r. apply nsteps_once. constructor. }
    destruct (strip_prefix ":" rest) as [t|] eqn:Et; [exists 1%nat; split; [lia|]; apply nsteps_once; by constructor|].
    destruct (split_once " " rest) as [[p r]|] eqn:Es; [|exists 1%nat; split; [lia|]; apply nsteps_once; by constructor].
    pose proof (split_once_length _ _ _ _ Es). destruct (IH r (ps ++ [p]) ltac:(lia)) as (k & Hk & Hr). exists (S k). split; [lia|].
    rewrite <-app_assoc in Hr. eapply nsteps_l; [by eapply ps_param|exact Hr].
Qed.

Lemma params_step_shortens st st' :
  params_step st st' -> exists rest, st.1 = Some rest /\ forall r', st'.1 = Some r' -> (String.length r' < String.length rest)%nat.
Proof.
  intros [ps|rest t ps He Ht|rest p r ps He Ht Hs|rest ps He Ht Hs]; simpl; eexists; (split; [reflexivity|]); intros r' [=]; subst.
  by eapply split_once_length.
Qed.

Lemma params_step_sn n : forall st,
  match st.1 with Some rest => (String.length rest < n)%nat | None => True end -> sn params_step st.
Proof.
  induction n as [|n IH]; intros st Hn; constructor; intros st' Hs; apply params_step_shortens in Hs as (rest & E & Hl);
    rewrite E in Hn; [lia|].
  apply IH. destruct (st'.1) as [r'|]; [|done]. specialize (Hl r' eq_refl). lia.
Qed.

(** C36: the loop over a line's parameters has no infinite run: it is left after at
    most one round more than the line has bytes, with the parameters
    [parse_params] gives. *)
Theorem params_loop_terminates (rest : string) :
  sn params_step (Some rest, []) /\
  exists k, (k <= S (String.length rest))%nat /\ nsteps params_step k (Some rest, []) (None, parse_params rest).
Proof. split; [apply (params_step_sn (S (String.length rest))); simpl; lia|]. by apply (params_step_runs (String.length rest) rest []). Qed.

Lemma strip_char_none c d s :
  starts_with_char c (String d s) = false -> strip_prefix (String c "") (String d s) = None.
Proof. unfold strip_prefix. simpl. intros H. by rewrite Ascii.eqb_sym, H. Qed.

Lemma strip_char_some c s : strip_prefix (String c "") (String c s) = Some s.
Proof. unfold strip_prefix. by rewrite Ascii.eqb_refl. Qed.

Lemma parse_params_cons p r :
  str_contains " " p = false -> starts_with_char ":" p = false ->
  parse_params (p +:+ String " " r) = p :: parse_params r.
Proof.
  intros Hsp Hc. unfold parse_params at 1. rewrite append_length. simpl String.length.
  rewrite Nat.add_succ_r. cbn [params_loop].
  assert (is_empty (p +:+ String " " r) = false) as -> by (by destruct p).
  assert (strip_prefix ":" (p +:+ String " " r) = None) as ->.
  { destruct p as [|c p]; [done|]. by apply strip_char_none. }
  rewrite split_once_app by done. f_equal. apply params_loop_fuel; lia.
Qed.

Lemma parse_params_last p : needs_trailing p = false -> parse_params p = [p].
Proof.
  unfold needs_trailing. intros H. bool_hyps. destruct p as [|c p]; [done|].
  unfold parse_params. cbn [String.length params_loop is_empty].
  rewrite strip_char_none by done. by rewrite split_once_none.
Qed.

Lemma parse_params_trailing p : parse_params (String ":" p) = [p].
Proof. done. Qed.

(** ** Printable messages *)

Definition clean (s : string) : bool := negb (str_any is_unsafe s).

Fixpoint wf_params (ps : list string) : bool :=
  match ps with
  | [] => true
  | [p] => clean p
  | p :: rest =>
      negb (str_contains " " p) && negb (starts_with_char ":" p) && clean p && wf_params rest
  end.

Definition wf_command (c : string) : bool :=
  negb (is_empty c) && negb (str_contains " " c) && clean c
  && str_all (fun b => negb (is_ascii_lowercase b)) c
  && negb (starts_with_char ":" c) && negb (starts_with_char "@" c).

Definition wf_key (k : string) : bool :=
  negb (is_empty k) && negb (str_contains ";" k) && negb (str_contains "=" k)
  && negb (str_contains " " k).

Definition wf_prefix (p : option string) : bool :=
  match p with Some p => negb (str_contains " " p) && clean p | None => true end.

(** What a message must satisfy for a line to carry it: the fields fit the
    grammar. Tag values are unrestricted. *)
Definition wf_message (m : Message) : Prop :=
  wf_prefix (prefix m) = true /\ wf_command (command m) = true
  /\ wf_params (params m) = true
  /\ map_Forall (fun k _ => wf_key k = true) (tags m).

Lemma clean_sanitize s : clean s = true -> sanitize s = s.
Proof.
  unfold clean, sanitize. intros H. bool_hyps. induction s as [|c s IH]; [done|].
  simpl in *. bool_hyps. rewrite H. simpl. by rewrite IH.
Qed.

Lemma clean_crlf s : clean s = true -> str_any is_crlf s = false.
Proof.
  unfold clean. intros H. bool_hyps. induction s as [|c s IH]; [done|].
  cbn [str_any] in *. apply orb_false_iff in H as [H Hs]. rewrite IH by done.
  unfold is_unsafe in H. unfold is_crlf. by apply orb_false_iff in H as [-> _].
Qed.

Lemma clean_app s t : clean (s +:+ t) = clean s && clean t.
Proof. unfold clean. by rewrite str_any_app, negb_orb. Qed.

(** On well-formed parameters the two printers agree. *)
Lemma fmt_params_agree ps : wf_params ps = true -> sdk_fmt_params ps = server_fmt_params ps.
Proof.
  induction ps as [|p [|q ps] IH]; intros H; [done| |].
  - simpl in H. simpl. rewrite clean_sanitize by done. by destruct (needs_trailing p).
  - cbn [wf_params] in H. bool_hyps. cbn [sdk_fmt_params server_fmt_params andb negb].
    rewrite clean_sanitize, H by done. cbn [andb]. f_equal. f_equal. by apply IH.
Qed.

(** A printed parameter list starts with a space and parses back. *)
Lemma fmt_params_parse ps :
  ps <> [] -> wf_params ps = true ->
  exists body, server_fmt_params ps = String " " body /\ parse_params body = ps
               /\ clean body = true.
Proof.
  induction ps as [|p [|q ps] IH]; intros Hne H; [done| |].
  - simpl in *. destruct (needs_trailing p) eqn:E.
    + exists (String ":" p). by rewrite parse_params_trailing.
    + exists p. rewrite append_nil_r. by rewrite parse_params_last.
  - cbn [wf_params] in H. bool_hyps.
    destruct IH as (body & Hb & Hp & Hc); [done|done|].
    exists (p +:+ String " " body). cbn [server_fmt_params andb]. split_and!.
    + cbn [server_fmt_params] in Hb. rewrite Hb. done.
    + rewrite parse_params_cons by done. by rewrite Hp.
    + rewrite clean_app, H1. done.
Qed.

Lemma upper_fixed s : str_all (fun b => negb (is_ascii_lowercase b)) s = true -> str_map ascii_upper s = s.
Proof.
  induction s as [|c s IH]; [done|]. simpl. intros H. bool_hyps.
  assert (ascii_upper c = c) as -> by (unfold ascii_upper; by rewrite H). by rewrite IH.
Qed.

(** The command part of a printed line parses back. *)
Lemma parse_command_fmt c ps :
  wf_command c = true -> wf_params ps = true ->
  parse_command (c +:+ server_fmt_params ps) = (c, ps)
  /\ clean (c +:+ server_fmt_params ps) = true.
Proof.
  intros Hc Hp. unfold wf_command in Hc. bool_hyps. unfold parse_command.
  destruct ps as [|p ps].
  - simpl. rewrite append_nil_r, split_once_none by done. split; [|done]. f_equal. by apply upper_fixed.
  - destruct (fmt_params_parse (p :: ps)) as (body & -> & Hb & Hcl); [done..|].
    rewrite split_once_app by done. rewrite Hb. split; [f_equal; by apply upper_fixed|].
    rewrite clean_app. by rewrite H3.
Qed.

Lemma trim_crlf_id a b : b <> ""%string -> str_any is_crlf b = false -> trim_crlf (a +:+ b) = (a +:+ b).
Proof.
  intros Hne Hb.
  assert (trim_crlf b = b) as Ht.
  { clear a. induction b as [|c b IH]; [done|]. simpl in *. bool_hyps.
    rewrite H. cbn [andb]. destruct b as [|d b]; [done|]. by rewrite IH. }
  induction a as [|c a IH]; [done|]. cbn [String.append trim_crlf]. rewrite IH.
  destruct a; [destruct b; [done|]|]; by rewrite andb_false_r.
Qed.

(** A line terminator does not change what a line parses to. *)
Definition CRLF : string := String CR (String LF "").

Lemma trim_crlf_terminated s : trim_crlf (s +:+ CRLF) = trim_crlf s.
Proof. induction s as [|c s IH]; [done|]. cbn [String.append trim_crlf]. by rewrite IH. Qed.

Lemma parse_terminated s : parse (s +:+ CRLF) = parse s.
Proof. unfold parse. by rewrite trim_crlf_terminated. Qed.

(** ** Tags *)

Lemma fmt_tag_pair m k v :
  wf_key k = true -> parse_tag_pair m (fmt_tag (k, v)) = <[k := v]> m.
Proof.
  unfold wf_key. intros H. bool_hyps. unfold fmt_tag, parse_tag_pair. cbn [fst snd].
  destruct (is_empty v) eqn:Ev.
  - rewrite H, split_once_none by done. by destruct v.
  - assert (is_empty (k +:+ "=" +:+ escape_tag_value v) = false) as -> by (by destruct k).
    cbn [String.append]. rewrite split_once_app by done. by rewrite unescape_escape_value.
Qed.

Lemma fmt_tag_clean c k v :
  In c [";"%char; " "%char] -> str_contains c k = false -> str_contains c (fmt_tag (k, v)) = false.
Proof.
  intros Hc Hk. unfold fmt_tag. cbn [fst snd]. destruct (is_empty v); [done|].
  rewrite str_contains_app, Hk. cbn [String.append orb]. unfold str_contains at 1. cbn [str_any].
  rewrite orb_false_iff. split; [by repeat destruct Hc as [<-|Hc]|].
  apply escape_clean. simpl in *. tauto.
Qed.

Lemma parse_tags_pairs (l : list (string * string)) m :
  Forall (fun kv => wf_key kv.1 = true) l ->
  foldl parse_tag_pair m (fmt_tag <$> l) = foldl (fun m kv => <[kv.1 := kv.2]> m) m l.
Proof.
  revert m; induction l as [|[k v] l IH]; intros m H; [done|].
  apply Forall_cons in H as [Hk H]. simpl. rewrite fmt_tag_pair by done. by apply IH.
Qed.

Lemma foldl_insert_map (l : list (string * string)) :
  foldl (fun m kv => <[kv.1 := kv.2]> m) ∅ l = (list_to_map (reverse l) : gmap string string).
Proof.
  induction l as [|[k v] l IH] using rev_ind; [done|].
  rewrite foldl_app, reverse_app. simpl. by rewrite IH.
Qed.

Section Roundtrip.
Context `{HO : !HashOrder}.

Lemma hash_iter_map (m : gmap string string) : list_to_map (reverse (hash_iter m)) = m.
Proof.
  rewrite <- (list_to_map_to_list m) at 2. apply list_to_map_proper.
  - rewrite reverse_Permutation, hash_iter_perm. apply NoDup_fst_map_to_list.
  - by rewrite reverse_Permutation, hash_iter_perm.
Qed.

Lemma hash_iter_Forall {A} (P : string -> A -> Prop) (m : gmap string A) :
  map_Forall P m -> Forall (fun kv => P kv.1 kv.2) (hash_iter m).
Proof.
  intros H. rewrite hash_iter_perm. apply map_Forall_to_list in H.
  eapply Forall_impl; [done|]. by intros [].
Qed.

(** Printed tags are read back, whatever order the map iterates in. *)
Lemma take_tags_fmt m rest :
  map_Forall (fun k _ => wf_key k = true) m ->
  (m = ∅ -> strip_prefix "@" rest = None) ->
  take_tags (fmt_tags m +:+ rest) = Some (m, rest).
Proof.
  intros Hk Hrest. pose proof (hash_iter_Forall _ m Hk) as HF.
  pose proof (hash_iter_map m) as Hm. unfold fmt_tags, take_tags.
  destruct (hash_iter m) as [|kv l] eqn:El.
  { simpl in Hm. cbn [String.append]. rewrite Hrest by done. by rewrite <- Hm. }
  cbn [String.append]. rewrite strip_char_some, append_assoc. cbn [String.append].
  rewrite split_once_app.
  - f_equal. f_equal. unfold parse_tags. rewrite str_split_join; [|done|].
    + rewrite parse_tags_pairs, foldl_insert_map by done. done.
    + rewrite Forall_fmap. eapply Forall_impl; [exact HF|]. intros [k v] Hw.
      unfold wf_key in Hw. bool_hyps. apply fmt_tag_clean; [simpl; tauto|done].
  - apply str_join_contains; [done|]. rewrite Forall_fmap.
    eapply Forall_impl; [exact HF|]. intros [k v] Hw.
    unfold wf_key in Hw. bool_hyps. apply fmt_tag_clean; [simpl; tauto|done].
Qed.

Lemma take_prefix_fmt p rest :
  wf_prefix p = true -> strip_prefix ":" rest = None ->
  take_prefix ((match p with Some p => ":" +:+ p +:+ " " | None => "" end) +:+ rest)
  = Some (p, rest).
Proof.
  intros Hp Hr. unfold take_prefix. destruct p as [p|]; cbn [String.append].
  - rewrite strip_char_some, append_assoc. cbn [String.append]. simpl in Hp. bool_hyps.
    by rewrite split_once_app.
  - by rewrite Hr.
Qed.

Lemma displays_agree m : wf_message m -> sdk_display m = server_display m.
Proof.
  intros (Hp & Hc & Hps & Hk). unfold sdk_display, server_display.
  rewrite fmt_params_agree by done. do 2 f_equal.
  destruct (prefix m); [|done]. simpl in Hp. bool_hyps. by rewrite clean_sanitize.
Qed.

Lemma server_display_parse m : wf_message m -> parse (server_display m) = Some m.
Proof.
  intros (Hp & Hc & Hps & Hk).
  destruct (parse_command_fmt _ _ Hc Hps) as [Hparse Hclean].
  unfold wf_command in Hc. bool_hyps.
  set (body := command m +:+ server_fmt_params (params m)) in *.
  assert (body <> ""%string) as Hne by (unfold body; by destruct (command m)).
  set (pfx := match prefix m with Some p => ":" +:+ p +:+ " " | None => "" end) in *.
  assert (server_display m = (fmt_tags (tags m) +:+ pfx +:+ body)) as -> by done.
  unfold parse. rewrite <- append_assoc, trim_crlf_id, append_assoc by eauto using clean_crlf.
  assert (is_empty (fmt_tags (tags m) +:+ pfx +:+ body) = false) as ->.
  { destruct (fmt_tags (tags m)), pfx; [by destruct body|done..]. }
  assert (strip_prefix ":" body = None) as Hb.
  { unfold body. destruct (command m); [done|]. by apply strip_char_none. }
  rewrite take_tags_fmt; [|done|].
  - cbn [mbind option_bind]. unfold pfx. rewrite take_prefix_fmt by done.
    cbn [mbind option_bind]. rewrite Hparse. by destruct m.
  - intros _. unfold pfx. destruct (prefix m); [done|]. unfold body.
    destruct (command m); [done|]. by apply strip_char_none.
Qed.

End Roundtrip.

Definition sample_message : Message :=
  mkMessage (<["msgid" := "a b;c\"]> (<["+draft/reply" := ""]> ∅)) (Some "alice!~u@host")
    "PRIVMSG" ["#chan"; ":check this out"].


(** ** One message, one line *)

Lemma no_crlf_iff s : str_any is_crlf s = str_contains CR s || str_contains LF s.
Proof.
  unfold str_contains. induction s as [|c s IH]; [done|]. cbn [str_any].
  rewrite IH. unfold is_crlf. rewrite (Ascii.eqb_sym c CR), (Ascii.eqb_sym c LF). btauto.
Qed.

Lemma sanitize_clean s : clean (sanitize s) = true.
Proof.
  unfold clean, sanitize. induction s as [|c s IH]; [done|]. cbn [str_filter].
  destruct (is_unsafe c) eqn:E; cbn [negb]; [done|]. cbn [str_any]. by rewrite E.
Qed.

Lemma join_no_crlf sep l :
  str_any is_crlf sep = false -> Forall (fun x => str_any is_crlf x = false) l ->
  str_any is_crlf (str_join sep l) = false.
Proof.
  intros Hsep. induction l as [|x l IH]; [done|]. intros [Hx Hl]%Forall_cons.
  destruct l as [|y l]; [done|]. by rewrite str_join_cons, !str_any_app, Hx, Hsep, IH.
Qed.

Lemma sdk_fmt_params_no_crlf ps : str_any is_crlf (sdk_fmt_params ps) = false.
Proof.
  assert (forall p, str_any is_crlf (sanitize p) = false) as Hs
    by (intros; apply clean_crlf, sanitize_clean).
  induction ps as [|p ps IH]; [done|]. cbn [sdk_fmt_params].
  destruct (_ && needs_trailing _); [by rewrite str_any_app, Hs|].
  destruct (_ && str_contains _ _).
  - rewrite str_any_app. apply join_no_crlf; [done|]. apply Forall_fmap, Forall_true. apply Hs.
  - by rewrite !str_any_app, Hs, IH.
Qed.

Lemma fmt_tag_no_crlf kv : str_any is_crlf kv.1 = false -> str_any is_crlf (fmt_tag kv) = false.
Proof.
  intros H. unfold fmt_tag. destruct (is_empty kv.2); [done|].
  rewrite !str_any_app, H, (no_crlf_iff (escape_tag_value _)). cbn [orb].
  rewrite !escape_clean; [done|simpl; tauto..].
Qed.

(** The SDK's printer writes one line. If the command and the tag names
    carry no CR or LF, no content of the tag values, of the prefix or of the
    parameters puts one in the output: a message cannot smuggle a second
    protocol line, however it was built and in whatever order its tags print. *)
Theorem sdk_display_single_line `{HO : !HashOrder} m :
  str_any is_crlf (command m) = false ->
  map_Forall (fun k _ => str_any is_crlf k = false) (tags m) ->
  str_any is_crlf (sdk_display m) = false.
Proof.
  intros Hc Hk. unfold sdk_display. rewrite !str_any_app, Hc, sdk_fmt_params_no_crlf.
  assert (str_any is_crlf (fmt_tags (tags m)) = false) as ->.
  { apply (hash_iter_Forall (fun k _ => str_any is_crlf k = false)) in Hk. unfold fmt_tags.
    destruct (hash_iter (tags m)) as [|kv l]; [done|].
    rewrite !str_any_app, join_no_crlf; [done|done|].
    apply Forall_fmap. eapply Forall_impl; [exact Hk|]. apply fmt_tag_no_crlf. }
  destruct (prefix m) as [p|]; [|done].
  rewrite !str_any_app, (clean_crlf (sanitize p)); [done|]. apply sanitize_clean.
Qed.

Definition hostile_message : Message :=
  mkMessage ∅ None "PRIVMSG" ["#chan"; String "a" (String CR (String LF "QUIT"))].

Lemma sdk_display_single_line_witness :
  let _ := map_order in str_any is_crlf (sdk_display hostile_message) = false.
Proof.
  apply (sdk_display_single_line (HO := map_order)); [done|apply map_Forall_empty].
Defined.

(** The server's printer does not strip: the same message prints as two lines. *)
Lemma server_display_two_lines :
  let _ := map_order in str_any is_crlf (server_display hostile_message) = true.
Proof. vm_compute. reflexivity. Qed.
