(* ===== verification/ActTransitions.v ===== *)
(** * The task lifecycle

    Models [freeq-sdk/src/act_transitions.rs] (which move on a task is legal,
    from which state, by whom) over the rules table of
    [spec/act-transitions.json], and the way an accepted move changes a live
    task ([materialize_act] of [freeq-server/src/db.rs]).

    The checker is a function of a rules table [sp]; [shipped] is the table the
    binary embeds. Theorems that hold for every table quantify over [sp]. *)

From stdpp Require Import base gmap strings list sorting.
From Stdlib Require Import ZArith Lia Ascii String.
From S2P Require Import Prelude Ulid.
Open Scope Z_scope.
Open Scope rust_scope.

Definition DEADLINE_TOLERANCE_MS : Z := 120000.

Inductive Refusal :=
| UnknownKind
| UnknownVerb
| TerminalTask
| IllegalStep
| WrongSender
| DeadlinePassed
| ClientConfirm
| ReplacesNotOpener
| ReplacesMalformed
| ReplacesNotTerminal
| MissingRequirement (field : string)
| AcceptsNotABid.

Definition Refusal_code (r : Refusal) : string :=
  match r with
  | UnknownKind => "unknown-kind"
  | UnknownVerb => "unknown-verb"
  | TerminalTask => "terminal-task"
  | IllegalStep => "illegal-step"
  | WrongSender => "wrong-sender"
  | DeadlinePassed => "deadline-passed"
  | ClientConfirm => "client-confirm"
  | ReplacesNotOpener => "replaces-not-opener"
  | ReplacesMalformed => "replaces-malformed"
  | ReplacesNotTerminal => "replaces-not-terminal"
  | MissingRequirement _ => "missing-requirement"
  | AcceptsNotABid => "accepts-not-a-bid"
  end.

(** ** The rules file *)

Inductive FromStates :=
| One (s : string)
| Many (states : list string).

(** How a row spells [assignee_from]. *)
Inductive AssigneeFrom :=
| FromField (tag : string)
| FromAuthorOf (tag : string).

Record Transition := mkTransition {
  tr_verb : string;
  tr_from : FromStates;
  tr_to : string;
  tr_who : string;
  tr_before_deadline : bool;
  tr_before_bid_deadline : bool;
  tr_assignee_from : option AssigneeFrom;
  tr_requires : list string
}.

Record Opens := mkOpens {
  op_verb : string;
  op_directed : option string;
  op_open : string
}.

Record Kind := mkKind {
  k_opens : Opens;
  k_terminal : list string;
  k_transitions : list Transition
}.

Record Confirmation := mkConfirmation { cf_verb : string; cf_subject : string }.

Record Spec := mkSpec {
  sp_kinds : gmap string Kind;
  sp_confirmation : Confirmation;
  sp_revival_tag : string;
  sp_refusals : gmap string string
}.

Definition str_mem (s : string) (l : list string) : bool := existsb (String.eqb s) l.

Definition ANY_NONTERMINAL : string := "*nonterminal".

(** [FromStates::states] *)
Definition from_states (f : FromStates) : list string :=
  match f with
  | One s => if String.eqb s ANY_NONTERMINAL then [] else [s]
  | Many states => states
  end.

(** [FromStates::matches] *)
Definition from_matches (f : FromStates) (state : string) (k : Kind) : bool :=
  match f with
  | One s =>
      if String.eqb s ANY_NONTERMINAL then negb (str_mem state (k_terminal k))
      else String.eqb s state
  | Many states => str_mem state states
  end.

(** [FromStates::is_exactly] *)
Definition from_is_exactly (f : FromStates) (state : string) : bool :=
  match f with
  | One s => negb (String.eqb s ANY_NONTERMINAL) && String.eqb s state
  | Many [s] => String.eqb s state
  | Many _ => false
  end.

(** ** What is checked *)

Record Task := mkTask {
  task_kind : string;
  task_state : string;
  task_offerer : string;
  task_offeree : option string;
  task_assignee : option string;
  task_deadline : option Z;
  task_bid_deadline : option Z
}.

Record Event := mkEvent {
  ev_verb : string;
  ev_msgid : string;
  ev_accepts : option string;
  ev_fields : list string
}.

(** [accepted_bid] holds the author of the bid the event names. *)
Record Sender := mkSender {
  snd_did : string;
  snd_is_system : bool;
  snd_accepted_bid : option string
}.

Inductive Predecessor := PUnknown | PLive | PFinished.

Inductive AssigneeSource :=
| Actor
| Field (tag : string)
| AuthorOf (tag : string).

Definition BID_VERB : string := "bid".
Definition REVIEW_TIMEOUT_VERB : string := "auto-accept".

(** [check_revival] *)
Definition check_revival (opens : bool) (named : string) (p : Predecessor) : result unit Refusal :=
  if negb opens then Err ReplacesNotOpener
  else if negb (is_event_id named) then Err ReplacesMalformed
  else match p with
       | PLive => Err ReplacesNotTerminal
       | PUnknown | PFinished => Ok tt
       end.

Section Checker.
Variable sp : Spec.

Definition describe (r : Refusal) : string :=
  default "refused" (sp_refusals sp !! Refusal_code r).

Definition initial_state (kind : string) (directed : bool) : option string :=
  k ← sp_kinds sp !! kind;
  if directed then op_directed (k_opens k) else Some (op_open (k_opens k)).

Definition opening_verb (kind : string) : option string :=
  (fun k => op_verb (k_opens k)) <$> sp_kinds sp !! kind.

Definition is_confirmation (verb : string) : bool :=
  String.eqb verb (cf_verb (sp_confirmation sp)).

Definition is_ruling (verb : string) : bool :=
  is_confirmation verb
  || existsb (fun nk => existsb (fun t => String.eqb (tr_verb t) verb
                                          && String.eqb (tr_who t) "system")
                                (k_transitions nk.2))
             (map_to_list (sp_kinds sp)).

Definition knows_kind (kind : string) : bool := bool_decide (is_Some (sp_kinds sp !! kind)).

Definition has_verb (k : Kind) (verb : string) : bool :=
  existsb (fun t => String.eqb (tr_verb t) verb) (k_transitions k).

Definition knows_verb (kind verb : string) : bool :=
  match sp_kinds sp !! kind with Some k => has_verb k verb | None => false end.

Definition rows_of (k : Kind) (verb : string) : list Transition :=
  List.filter (fun t => String.eqb (tr_verb t) verb) (k_transitions k).

Definition is_additive (kind verb : string) : option bool :=
  k ← sp_kinds sp !! kind;
  match rows_of k verb with
  | [] => None
  | rows => Some (forallb (fun t => from_is_exactly (tr_from t) (tr_to t)) rows)
  end.

Definition is_terminal (kind state : string) : bool :=
  match sp_kinds sp !! kind with Some k => str_mem state (k_terminal k) | None => false end.

Definition check_open (kind verb : string) (directed names_task : bool) : result string Refusal :=
  if is_confirmation verb then Err ClientConfirm
  else
    let? k := ok_or (sp_kinds sp !! kind) UnknownKind in
    if negb (String.eqb (op_verb (k_opens k)) verb) then
      Err (if has_verb k verb then IllegalStep else UnknownVerb)
    else if names_task then Err IllegalStep
    else if directed then ok_or (op_directed (k_opens k)) IllegalStep
    else Ok (op_open (k_opens k)).

Definition assignee_source (kind verb from_state : string) : AssigneeSource :=
  match sp_kinds sp !! kind with
  | None => Actor
  | Some k =>
      match List.find (fun t => String.eqb (tr_verb t) verb && from_matches (tr_from t) from_state k)
                      (k_transitions k) with
      | Some t =>
          match tr_assignee_from t with
          | Some (FromField f) => Field f
          | Some (FromAuthorOf f) => AuthorOf f
          | None => Actor
          end
      | None => Actor
      end
  end.

(** The role test: [Err WrongSender] unless the sender holds the row's role. *)
Definition holds_role (who : string) (t : Task) (s : Sender) : bool :=
  if String.eqb who "offerer" then String.eqb (snd_did s) (task_offerer t)
  else if String.eqb who "offeree" then
    match task_offeree t with Some d => String.eqb d (snd_did s) | None => false end
  else if String.eqb who "assignee" then
    match task_assignee t with Some d => String.eqb d (snd_did s) | None => false end
  else if String.eqb who "system" then snd_is_system s
  else String.eqb who "anyone".

(** One round of the deadline loop. *)
Definition check_deadline (deadline : Z) (msgid : string) : result unit Refusal :=
  let limit := sat_i64 (sat_i64 (deadline * 1000) + DEADLINE_TOLERANCE_MS) in
  let? minted := ok_or (event_time_ms msgid) DeadlinePassed in
  if limit <? u64_as_i64 minted then Err DeadlinePassed else Ok tt.

Fixpoint check_deadlines (ds : list (option Z)) (msgid : string) : result unit Refusal :=
  match ds with
  | [] => Ok tt
  | None :: r => check_deadlines r msgid
  | Some d :: r => let? _ := check_deadline d msgid in check_deadlines r msgid
  end.

Definition row_deadlines (row : Transition) (t : Task) : list (option Z) :=
  [ if tr_before_deadline row then task_deadline t else None;
    if tr_before_bid_deadline row then task_bid_deadline t else None ].

Definition takes_bid (row : Transition) : bool :=
  match tr_assignee_from row with Some (FromAuthorOf _) => true | _ => false end.

Definition check (task : Task) (event : Event) (sender : Sender) : result string Refusal :=
  if is_confirmation (ev_verb event) then Err ClientConfirm
  else
    let? kind := ok_or (sp_kinds sp !! task_kind task) UnknownKind in
    let rows := rows_of kind (ev_verb event) in
    match rows with [] => Err UnknownVerb | _ =>
    if str_mem (task_state task) (k_terminal kind) then Err TerminalTask
    else
      let? row := ok_or (List.find (fun t => from_matches (tr_from t) (task_state task) kind) rows)
                        IllegalStep in
      match List.find (fun f => negb (str_mem f (ev_fields event))) (tr_requires row) with
      | Some missing => Err (MissingRequirement missing)
      | None =>
          if takes_bid row
             && (negb (is_some (ev_accepts event)) || negb (is_some (snd_accepted_bid sender)))
          then Err AcceptsNotABid
          else if negb (holds_role (tr_who row) task sender) then Err WrongSender
          else
            let? _ := check_deadlines (row_deadlines row task) (ev_msgid event) in
            Ok (tr_to row)
      end
    end.

(** ** What an accepted move does to the live task

    [materialize_act]: a terminal state removes the row; otherwise the state
    moves, and a task entering ["assigned"] with no assignee gets the one the
    rules name. [field] reads the event's act fields, [named] is the author of
    the bid the event names. *)
Definition assignee_for (task : Task) (event : Event) (sender : Sender)
    (field : string -> option string) : option string :=
  match assignee_source (task_kind task) (ev_verb event) (task_state task) with
  | Actor => Some (snd_did sender)
  | AuthorOf _ => snd_accepted_bid sender
  | Field name => field name
  end.

Definition advance (task : Task) (event : Event) (sender : Sender)
    (field : string -> option string) (landed : string) : Task :=
  {| task_kind := task_kind task;
     task_state := landed;
     task_offerer := task_offerer task;
     task_offeree := task_offeree task;
     task_assignee :=
       match task_assignee task with
       | None => if String.eqb landed "assigned" then assignee_for task event sender field else None
       | Some a => Some a
       end;
     task_deadline := task_deadline task;
     task_bid_deadline := task_bid_deadline task |}.

Definition materialize_act (task : Task) (event : Event) (sender : Sender)
    (field : string -> option string) (landed : string) : option Task :=
  if is_terminal (task_kind task) landed then None
  else Some (advance task event sender field landed).
End Checker.

(** [review_timeout_states]: every state a review-timeout row moves a task out
    of, sorted and deduplicated. *)
Fixpoint dedup_adjacent (l : list string) : list string :=
  match l with
  | x :: ((y :: _) as r) => if String.eqb x y then dedup_adjacent r else x :: dedup_adjacent r
  | _ => l
  end.

Definition review_timeout_states (sp : Spec) : list string :=
  dedup_adjacent (merge_sort str_le
    (flat_map (fun nk => flat_map (fun t => from_states (tr_from t))
                           (rows_of nk.2 REVIEW_TIMEOUT_VERB))
              (map_to_list (sp_kinds sp)))).

(** ** The embedded table: [spec/act-transitions.json] *)

Definition row (verb : string) (from : FromStates) (to who : string) : Transition :=
  mkTransition verb from to who false false None [].

Definition handoff : Kind := {|
  k_opens := mkOpens "offer" (Some "offered") "open";
  k_terminal := ["completed"; "failed"; "cancelled"; "declined"; "expired"];
  k_transitions := [
    mkTransition "accept" (One "offered") "assigned" "offeree" true false None [];
    row "decline" (One "offered") "declined" "offeree";
    mkTransition "claim" (One "open") "assigned" "anyone" true false None [];
    row "progress" (One "assigned") "assigned" "assignee";
    row "complete" (One "assigned") "completed" "assignee";
    row "fail" (One "assigned") "failed" "assignee";
    row "cancel" (Many ["offered"; "assigned"; "open"]) "cancelled" "offerer";
    row "expire" (One "*nonterminal") "expired" "system" ] |}.

Definition bounty : Kind := {|
  k_opens := mkOpens "offer" None "open";
  k_terminal := ["accepted"; "forfeited"; "cancelled"; "expired"];
  k_transitions := [
    mkTransition "bid" (One "open") "open" "anyone" false true None [];
    mkTransition "award" (One "open") "assigned" "offerer" true false
      (Some (FromAuthorOf "act-accepts")) ["act-accepts"];
    row "progress" (One "assigned") "assigned" "assignee";
    row "submit" (One "assigned") "under_review" "assignee";
    row "revise" (One "under_review") "assigned" "offerer";
    row "accept-work" (One "under_review") "accepted" "offerer";
    row "forfeit" (Many ["assigned"; "under_review"]) "forfeited" "assignee";
    row "auto-accept" (One "under_review") "accepted" "system";
    row "cancel" (Many ["open"; "assigned"]) "cancelled" "offerer";
    row "expire" (One "*nonterminal") "expired" "system" ] |}.

Definition refusal_sentences : gmap string string := list_to_map [
  ("unknown-kind", "The kind is not in this file. Adding a kind means updating this file first.");
  ("unknown-verb", "The kind lists no transition with this verb.");
  ("terminal-task", "The task is finished. A later event never un-applies an earlier one.");
  ("illegal-step", "The verb is not legal from the task's current state.");
  ("wrong-sender", "The sender does not hold the role this transition requires.");
  ("deadline-passed", "The event was minted after the offer's deadline, beyond the clock tolerance.");
  ("client-confirm", "A confirmation is the home's record of an event it filed, never a sender's step.");
  ("replaces-not-opener", "The revival relation belongs to an opener. A step on an action names no other.");
  ("replaces-malformed", "The value does not name an action. An action id is a 26-character ULID.");
  ("replaces-not-terminal", "The action it replaces is not finished.");
  ("missing-requirement", "The transition requires a field the event does not carry.");
  ("accepts-not-a-bid", "The award names an event that is not a bid on this action.")].

Definition shipped : Spec := {|
  sp_kinds := <["handoff" := handoff]> (<["bounty" := bounty]> ∅);
  sp_confirmation := mkConfirmation "confirm" "act-subject";
  sp_revival_tag := "act-replaces";
  sp_refusals := refusal_sentences |}.

Example review_timeout_states_shipped : review_timeout_states shipped = ["under_review"%string].
Proof. vm_compute. reflexivity. Qed.

(** ** The declarative reading of the table *)

Section Legality.
Variable sp : Spec.

(** The row that governs a move: the first of the kind with this verb that
    covers the task's state. *)
Definition governs (k : Kind) (t : Task) (e : Event) (r : Transition) : Prop :=
  exists pre post, k_transitions k = pre ++ r :: post
  /\ tr_verb r = ev_verb e /\ from_matches (tr_from r) (task_state t) k = true
  /\ Forall (fun q => tr_verb q = ev_verb e ->
                      from_matches (tr_from q) (task_state t) k = false) pre.

(** The sender holds the role the row names; a role outside the five known
    ones is held by nobody. *)
Definition role_held (who : string) (t : Task) (s : Sender) : Prop :=
  (who = "offerer" /\ snd_did s = task_offerer t)
  \/ (who = "offeree" /\ task_offeree t = Some (snd_did s))
  \/ (who = "assignee" /\ task_assignee t = Some (snd_did s))
  \/ (who = "system" /\ snd_is_system s = true)
  \/ who = "anyone".

(** Minted no later than the deadline plus the tolerance, in milliseconds,
    by the id's own clock. *)
Definition in_time (d : Z) (msgid : string) : Prop :=
  exists ms, event_time_ms msgid = Some ms
  /\ u64_as_i64 ms <= sat_i64 (sat_i64 (d * 1000) + DEADLINE_TOLERANCE_MS).

Definition well_formed_move (r : Transition) (e : Event) (s : Sender) : Prop :=
  (forall f, In f (tr_requires r) -> In f (ev_fields e))
  /\ (takes_bid r = true -> is_Some (ev_accepts e) /\ is_Some (snd_accepted_bid s)).

Definition timely (r : Transition) (t : Task) (e : Event) : Prop :=
  (tr_before_deadline r = true -> forall d, task_deadline t = Some d -> in_time d (ev_msgid e))
  /\ (tr_before_bid_deadline r = true ->
      forall d, task_bid_deadline t = Some d -> in_time d (ev_msgid e)).

Definition legal (t : Task) (e : Event) (s : Sender) (to : string) : Prop :=
  ev_verb e <> cf_verb (sp_confirmation sp)
  /\ exists k r, sp_kinds sp !! task_kind t = Some k
     /\ ~ In (task_state t) (k_terminal k)
     /\ governs k t e r /\ well_formed_move r e s /\ role_held (tr_who r) t s
     /\ timely r t e /\ to = tr_to r.

(** What each refusal says about the event it answers. *)
Definition cause (t : Task) (e : Event) (s : Sender) (why : Refusal) : Prop :=
  match why with
  | ClientConfirm => ev_verb e = cf_verb (sp_confirmation sp)
  | UnknownKind => sp_kinds sp !! task_kind t = None
  | UnknownVerb => exists k, sp_kinds sp !! task_kind t = Some k
      /\ Forall (fun r => tr_verb r <> ev_verb e) (k_transitions k)
  | TerminalTask => exists k, sp_kinds sp !! task_kind t = Some k /\ In (task_state t) (k_terminal k)
  | IllegalStep => exists k, sp_kinds sp !! task_kind t = Some k
      /\ ~ In (task_state t) (k_terminal k)
      /\ Exists (fun r => tr_verb r = ev_verb e) (k_transitions k)
      /\ Forall (fun r => tr_verb r = ev_verb e ->
                          from_matches (tr_from r) (task_state t) k = false) (k_transitions k)
  | MissingRequirement f => exists k r, sp_kinds sp !! task_kind t = Some k /\ governs k t e r
      /\ In f (tr_requires r) /\ ~ In f (ev_fields e)
  | AcceptsNotABid => exists k r, sp_kinds sp !! task_kind t = Some k /\ governs k t e r
      /\ takes_bid r = true /\ (ev_accepts e = None \/ snd_accepted_bid s = None)
  | WrongSender => exists k r, sp_kinds sp !! task_kind t = Some k /\ governs k t e r
      /\ well_formed_move r e s /\ ~ role_held (tr_who r) t s
  | DeadlinePassed => exists k r, sp_kinds sp !! task_kind t = Some k /\ governs k t e r
      /\ well_formed_move r e s /\ role_held (tr_who r) t s /\ ~ timely r t e
  | ReplacesNotOpener | ReplacesMalformed | ReplacesNotTerminal => False
  end.
End Legality.

(** ** The code's tests and their readings *)

Lemma str_mem_In s l : str_mem s l = true <-> In s l.
Proof.
  unfold str_mem. rewrite existsb_exists. split.
  - intros (x & Hx & Heq). bool_hyps. by subst.
  - intros H. exists s. by rewrite String.eqb_refl.
Qed.

Lemma str_mem_not_In s l : str_mem s l = false <-> ~ In s l.
Proof. rewrite <- str_mem_In. by destruct (str_mem s l). Qed.

Lemma find_filter_some {A} (v p : A -> bool) l r :
  List.find p (List.filter v l) = Some r <->
  exists pre post, l = pre ++ r :: post /\ v r = true /\ p r = true
                   /\ Forall (fun q => v q = true -> p q = false) pre.
Proof.
  split.
  - induction l as [|x l IH]; [done|]. simpl. destruct (v x) eqn:Ev; simpl.
    + destruct (p x) eqn:Ep.
      * intros [= <-]. exists [], l. by repeat constructor.
      * intros (pre & post & -> & Hv & Hp & HF)%IH. exists (x :: pre), post. by repeat constructor.
    + intros (pre & post & -> & Hv & Hp & HF)%IH. exists (x :: pre), post.
      split_and!; [done..|]. constructor; [congruence|done].
  - intros (pre & post & -> & Hv & Hp & HF). induction HF as [|q pre Hq HF IH]; simpl.
    + by rewrite Hv; simpl; rewrite Hp.
    + destruct (v q) eqn:Ev; simpl; [by rewrite Hq|done].
Qed.

Lemma find_filter_none {A} (v p : A -> bool) l :
  List.find p (List.filter v l) = None <-> Forall (fun q => v q = true -> p q = false) l.
Proof.
  induction l as [|x l IH]; simpl; [by split|].
  rewrite Forall_cons, <- IH. destruct (v x) eqn:Ev; simpl.
  - destruct (p x) eqn:Ep; split; [done|intros [? _]; naive_solver|naive_solver|naive_solver].
  - naive_solver.
Qed.

Lemma governs_find k t e r :
  governs k t e r <->
  List.find (fun q => from_matches (tr_from q) (task_state t) k) (rows_of k (ev_verb e)) = Some r.
Proof.
  unfold rows_of. rewrite find_filter_some. unfold governs.
  split; intros (pre & post & Hl & Hv & Hm & HF); exists pre, post;
    (split_and!; [done| |done|]).
  - by apply String.eqb_eq.
  - eapply Forall_impl; [exact HF|]. simpl. intros q Hq Hqv. by apply Hq, String.eqb_eq.
  - by apply String.eqb_eq.
  - eapply Forall_impl; [exact HF|]. simpl. intros q Hq Hqv. by apply Hq, String.eqb_eq.
Qed.

Lemma governs_det k t e r1 r2 : governs k t e r1 -> governs k t e r2 -> r1 = r2.
Proof. rewrite !governs_find. congruence. Qed.

Lemma holds_role_spec who t s : holds_role who t s = true <-> role_held who t s.
Proof.
  unfold holds_role, role_held.
  destruct (String.eqb_spec who "offerer") as [->|?]; [rewrite String.eqb_eq; naive_solver|].
  destruct (String.eqb_spec who "offeree") as [->|?];
    [destruct (task_offeree t); [rewrite String.eqb_eq|]; naive_solver|].
  destruct (String.eqb_spec who "assignee") as [->|?];
    [destruct (task_assignee t); [rewrite String.eqb_eq|]; naive_solver|].
  destruct (String.eqb_spec who "system") as [->|?]; [naive_solver|].
  rewrite String.eqb_eq. naive_solver.
Qed.

Lemma requires_spec r e :
  List.find (fun f => negb (str_mem f (ev_fields e))) (tr_requires r) = None
  <-> forall f, In f (tr_requires r) -> In f (ev_fields e).
Proof.
  split.
  - intros H f Hf. pose proof (find_none _ _ H f Hf) as Hn. simpl in Hn.
    apply negb_false_iff in Hn. by apply str_mem_In.
  - intros H. destruct (List.find _ _) as [f|] eqn:E; [|done].
    apply find_some in E as [Hf Hn]. bool_hyps. apply str_mem_not_In in Hn. naive_solver.
Qed.

Lemma bid_spec r e s :
  (takes_bid r && (negb (is_some (ev_accepts e)) || negb (is_some (snd_accepted_bid s)))) = false
  <-> (takes_bid r = true -> is_Some (ev_accepts e) /\ is_Some (snd_accepted_bid s)).
Proof.
  destruct (takes_bid r), (ev_accepts e), (snd_accepted_bid s); simpl; split; intros H;
    try done; try (intros; split; by eexists); by destruct (H eq_refl) as [[] []] || done.
Qed.

Lemma check_deadline_spec d msgid :
  (check_deadline d msgid = Ok tt <-> in_time d msgid)
  /\ (check_deadline d msgid = Ok tt \/ check_deadline d msgid = Err DeadlinePassed).
Proof.
  unfold check_deadline, in_time.
  destruct (event_time_ms msgid) as [ms|]; cbn [ok_or res_bind].
  - destruct (_ <? _) eqn:E; bool_hyps; split; [|by right| |by left]; split; try done.
    + intros (ms' & [= <-] & Hle). lia.
    + intros _. exists ms. split; [done|lia].
  - split; [|by right]. split; [done|]. by intros (? & ? & ?).
Qed.

Lemma check_deadlines_spec r t e :
  (check_deadlines (row_deadlines r t) (ev_msgid e) = Ok tt <-> timely r t e)
  /\ (check_deadlines (row_deadlines r t) (ev_msgid e) = Ok tt
      \/ check_deadlines (row_deadlines r t) (ev_msgid e) = Err DeadlinePassed).
Proof.
  unfold row_deadlines, timely.
  assert (forall (b : bool) (o : option Z), (if b then o else None) = None ->
            b = true -> forall d, o = Some d -> in_time d (ev_msgid e)) as Hskip
    by (intros [] [] ??; naive_solver).
  assert (forall (b : bool) (o : option Z) d, (if b then o else None) = Some d ->
            (in_time d (ev_msgid e) <-> (b = true -> forall d', o = Some d' -> in_time d' (ev_msgid e))))
    as Htake by (intros [] [] ??; naive_solver).
  destruct (if tr_before_deadline r then _ else _) as [d1|] eqn:E1;
  destruct (if tr_before_bid_deadline r then _ else _) as [d2|] eqn:E2;
    cbn [check_deadlines res_bind].
  - rewrite <- (Htake _ _ _ E1), <- (Htake _ _ _ E2).
    destruct (check_deadline_spec d1 (ev_msgid e)) as [<- [->| ->]],
             (check_deadline_spec d2 (ev_msgid e)) as [<- [->| ->]]; naive_solver.
  - rewrite <- (Htake _ _ _ E1). pose proof (Hskip _ _ E2).
    destruct (check_deadline_spec d1 (ev_msgid e)) as [<- [->| ->]]; naive_solver.
  - rewrite <- (Htake _ _ _ E2). pose proof (Hskip _ _ E1).
    destruct (check_deadline_spec d2 (ev_msgid e)) as [<- [->| ->]]; naive_solver.
  - pose proof (Hskip _ _ E1). pose proof (Hskip _ _ E2). naive_solver.
Qed.

(** ** The checker decides exactly the declared rules *)

Lemma rows_nil k verb :
  rows_of k verb = [] -> Forall (fun r => tr_verb r <> verb) (k_transitions k).
Proof.
  unfold rows_of. induction (k_transitions k) as [|r l IH]; simpl; [constructor|].
  destruct (String.eqb_spec (tr_verb r) verb); [done|]. constructor; auto.
Qed.

Lemma rows_cons k verb r l :
  rows_of k verb = r :: l -> Exists (fun q => tr_verb q = verb) (k_transitions k).
Proof.
  intros H. apply Exists_exists. exists r.
  assert (In r (rows_of k verb)) as Hin by (rewrite H; by left).
  apply filter_In in Hin as [Hin Hv]. split; [by apply list_elem_of_In|by apply String.eqb_eq].
Qed.

Lemma check_cause sp t e s :
  match check sp t e s with
  | Ok to => legal sp t e s to
  | Err why => cause sp t e s why
  end.
Proof.
  unfold check, is_confirmation.
  destruct (String.eqb_spec (ev_verb e) (cf_verb (sp_confirmation sp))) as [Ec|Ec]; [done|].
  destruct (sp_kinds sp !! task_kind t) as [k|] eqn:Ek; cbn [ok_or res_bind]; [|done].
  destruct (rows_of k (ev_verb e)) as [|r0 rows] eqn:Er.
  { exists k. split; [done|]. by apply rows_nil. }
  rewrite <- Er.
  destruct (str_mem (task_state t) (k_terminal k)) eqn:Et.
  { exists k. split; [done|]. by apply str_mem_In. }
  apply str_mem_not_In in Et.
  destruct (List.find _ (rows_of k (ev_verb e))) as [r|] eqn:Ef; cbn [ok_or res_bind].
  2:{ exists k. split_and!; [done..|by eapply rows_cons|].
      unfold rows_of in Ef. apply find_filter_none in Ef.
      eapply Forall_impl; [exact Ef|]. simpl. intros q Hq Hv. by apply Hq, String.eqb_eq. }
  apply governs_find in Ef.
  destruct (List.find _ (tr_requires r)) as [f|] eqn:Eq.
  { apply find_some in Eq as [Hf Hn]. bool_hyps. apply str_mem_not_In in Hn. by exists k, r. }
  rewrite requires_spec in Eq.
  destruct (takes_bid r && _) eqn:Eb.
  { apply andb_true_iff in Eb as [Hb Hn]. exists k, r. split_and!; [done..|].
    destruct (ev_accepts e), (snd_accepted_bid s); naive_solver. }
  rewrite bid_spec in Eb. assert (well_formed_move r e s) as Hwf by done.
  destruct (holds_role (tr_who r) t s) eqn:Eh; cbn [negb].
  2:{ exists k, r. split_and!; [done..|]. by rewrite <- holds_role_spec, Eh. }
  apply holds_role_spec in Eh.
  destruct (check_deadlines_spec r t e) as [Ht [Hd|Hd]]; rewrite Hd in *; cbn [res_bind].
  - split; [done|]. exists k, r. split_and!; try done; by apply Ht.
  - exists k, r. split_and!; try done; by rewrite <- Ht.
Qed.

Lemma cause_not_legal sp t e s why to : cause sp t e s why -> ~ legal sp t e s to.
Proof.
  intros Hc (Hnc & k & r & Hk & Hnt & Hg & Hwf & Hr & Ht & _).
  pose proof Hg as (pre & post & Hl & Hv & Hm & _).
  assert (forall k' r', sp_kinds sp !! task_kind t = Some k' -> governs k' t e r' -> r' = r) as Huniq.
  { intros k' r' Hk' Hg'. assert (k' = k) as -> by congruence. by eapply governs_det. }
  destruct why; simpl in Hc; try done.
  - congruence.
  - destruct Hc as (k' & Hk' & HF). simplify_eq. rewrite Hl in HF.
    apply Forall_app in HF as [_ [? _]%Forall_cons]. done.
  - destruct Hc as (k' & Hk' & ?). by simplify_eq.
  - destruct Hc as (k' & Hk' & _ & _ & HF). simplify_eq. rewrite Hl in HF.
    apply Forall_app in HF as [_ [Hf _]%Forall_cons]. rewrite Hf in Hm; done.
  - destruct Hc as (k' & r' & Hk' & Hg' & ? & ?). by rewrite (Huniq k' r') in *.
  - destruct Hc as (k' & r' & Hk' & Hg' & ? & ? & ?). by rewrite (Huniq k' r') in *.
  - destruct Hc as (k' & r' & Hk' & Hg' & ? & ?). rewrite (Huniq k' r') in * by done.
    destruct Hwf. naive_solver.
  - destruct Hc as (k' & r' & Hk' & Hg' & ? & ?). rewrite (Huniq k' r') in * by done.
    destruct Hwf as [_ Hb]. destruct Hb as [[? Ha] [? Hs]]; naive_solver.
Qed.

(** C4: the lifecycle checker decides exactly the rules that were written down.
    For every rules table, task, event and sender: the answer is [Ok to] iff
    the governing row declares the move legal for this sender (role held, every
    required field present, named bid resolved, minted inside each deadline
    that bounds it), and every refusal names a cause that really holds. *)
Theorem check_decides_legality sp t e s :
  (forall to, check sp t e s = Ok to <-> legal sp t e s to)
  /\ (forall why, check sp t e s = Err why -> cause sp t e s why).
Proof.
  pose proof (check_cause sp t e s) as H.
  split; [intros to; split|intros why Hw; by rewrite Hw in H].
  - intros Hok. by rewrite Hok in H.
  - intros Hl. destruct (check sp t e s) as [to'|why] eqn:E; [|by eapply cause_not_legal in H].
    f_equal. destruct Hl as (_ & k & r & Hk & _ & Hg & _ & _ & _ & ->).
    destruct H as (_ & k' & r' & Hk' & _ & Hg' & _ & _ & _ & ->).
    simplify_eq. by rewrite (governs_det _ _ _ _ _ Hg Hg').
Qed.

(** ** The life of a task under the shipped table *)

(** A task as its opener creates it ([check_open], the INSERT of
    [materialize_act]): the sender becomes the offerer, nobody is assigned. *)
Definition opened_task (sp : Spec) (verb : string) (t : Task) : Prop :=
  check_open sp (task_kind t) verb (is_some (task_offeree t)) false = Ok (task_state t)
  /\ task_assignee t = None.

Definition act_step (sp : Spec) (t t' : Task) : Prop :=
  exists e s field to, check sp t e s = Ok to /\ t' = advance sp t e s field to.

Inductive reachable (sp : Spec) : Task -> Prop :=
| reach_open verb t : opened_task sp verb t -> reachable sp t
| reach_step t t' : reachable sp t -> act_step sp t t' -> reachable sp t'.

(** One accepted move of a shipped kind: the row it was made under. *)
Inductive shipped_row (t : Task) (e : Event) (s : Sender) (to : string) : Kind -> Prop :=
| shipped_row_intro k r :
    shipped.(sp_kinds) !! task_kind t = Some k -> In r (k_transitions k) ->
    tr_verb r = ev_verb e -> from_matches (tr_from r) (task_state t) k = true ->
    ~ In (task_state t) (k_terminal k) ->
    well_formed_move r e s -> role_held (tr_who r) t s -> to = tr_to r ->
    shipped_row t e s to k.

Lemma shipped_check_row t e s to : check shipped t e s = Ok to -> exists k, shipped_row t e s to k.
Proof.
  intros H. pose proof (check_cause shipped t e s) as Hc. rewrite H in Hc.
  destruct Hc as (_ & k & r & Hk & Hnt & (pre & post & Hl & Hv & Hm & _) & Hwf & Hr & _ & ->).
  exists k. econstructor; eauto. rewrite Hl. apply in_elt.
Qed.

Lemma shipped_kinds n k :
  shipped.(sp_kinds) !! n = Some k -> (n = "handoff" /\ k = handoff) \/ (n = "bounty" /\ k = bounty).
Proof.
  simpl. rewrite lookup_insert_Some, lookup_insert_Some, lookup_empty. naive_solver.
Qed.

Lemma from_one_inv x state k :
  from_matches (One x) state k = true -> String.eqb x ANY_NONTERMINAL = false -> state = x.
Proof. simpl. intros H E. rewrite E in H. by apply String.eqb_eq in H. Qed.

Lemma from_many_inv l state k : from_matches (Many l) state k = true -> In state l.
Proof. apply str_mem_In. Qed.

(** Case analysis on the row behind an accepted move: eighteen concrete rows,
    each with the state it was made from. *)
Ltac shipped_rows H :=
  let k := fresh "k" in let r := fresh "r" in let Hk := fresh "Hk" in
  let Hin := fresh "Hin" in let Hv := fresh "Hverb" in let Hm := fresh "Hfrom" in
  let Hnt := fresh "Hnt" in let Hwf := fresh "Hwf" in let Hr := fresh "Hrole" in
  let Hto := fresh "Hlands" in
  apply shipped_check_row in H as [k [? r Hk Hin Hv Hm Hnt Hwf Hr Hto]];
  apply shipped_kinds in Hk as [[? ->]|[? ->]];
  cbn [k_transitions handoff bounty] in Hin;
  repeat (destruct Hin as [<-|Hin]); try (solve [destruct Hin]);
  cbn [tr_verb tr_from tr_to tr_who row] in Hv, Hm, Hr, Hto; subst;
  first [apply from_one_inv in Hm; [|reflexivity]
        |apply from_many_inv in Hm; cbn [In] in Hm
        |clear Hm].

(** [role_held] for a concrete role. *)
Lemma role_offerer t s : role_held "offerer" t s -> snd_did s = task_offerer t.
Proof. unfold role_held. naive_solver. Qed.
Lemma role_offeree t s : role_held "offeree" t s -> task_offeree t = Some (snd_did s).
Proof. unfold role_held. naive_solver. Qed.
Lemma role_assignee t s : role_held "assignee" t s -> task_assignee t = Some (snd_did s).
Proof. unfold role_held. naive_solver. Qed.
Lemma role_system t s : role_held "system" t s -> snd_is_system s = true.
Proof. unfold role_held. naive_solver. Qed.

(** Who may bring a task where, under the shipped table. *)
Definition authorized (t : Task) (e : Event) (s : Sender) (to : string) : Prop :=
  (In to ["completed"; "failed"; "forfeited"; "under_review"] ->
     task_assignee t = Some (snd_did s))
  /\ (to = "declined" -> task_offeree t = Some (snd_did s) /\ task_state t = "offered")
  /\ (to = "cancelled" -> snd_did s = task_offerer t /\ task_state t <> "under_review")
  /\ (to = "expired" -> snd_is_system s = true)
  /\ (to = "accepted" -> task_state t = "under_review"
        /\ (snd_did s = task_offerer t \/ snd_is_system s = true)).

(** Under the shipped rules every ending is the word of the right party.
    Only the assignee completes, fails, submits or forfeits work; only the
    offeree declines; only the offerer cancels, and never work under review;
    only the server expires; and a bounty is accepted only out of review, by
    its poster or by the server's review clock. *)
Theorem shipped_authority t e s to :
  check shipped t e s = Ok to -> authorized t e s to.
Proof.
  intros H. unfold authorized.
  shipped_rows H; split_and!; intros Hto; try discriminate Hto;
    repeat (destruct Hto as [Hto|Hto]; [try discriminate Hto|]); try (by destruct Hto);
    try (by apply role_assignee); try (by eapply role_system);
    try (split; [by apply role_offeree|done]);
    try (split; [done|left; by apply role_offerer]);
    try (split; [done|right; by eapply role_system]).
  all: split; [by apply role_offerer|intros Hs; rewrite Hs in *; naive_solver].
Qed.

Lemma shipped_authority_witness :
  authorized (mkTask "bounty" "under_review" "did:plc:p" None (Some "did:plc:w") None None)
    (mkEvent "accept-work" "01M16E7TC0BDTAKEN000000000" None [])
    (mkSender "did:plc:p" false None) "accepted".
Proof. apply shipped_authority. vm_compute. reflexivity. Defined.

(** Nobody holds the work, or somebody does; a directed offer is only ever held
    by the party it named. *)
Definition untaken (t : Task) : Prop := task_assignee t = None.
Definition taken (t : Task) : Prop :=
  exists a, task_assignee t = Some a /\ (task_offeree t = None \/ task_offeree t = Some a).

(** What holds of every task from its opening on. *)
Definition handoff_ok (t : Task) : Prop :=
  (task_state t = "offered" /\ untaken t /\ is_Some (task_offeree t))
  \/ (task_state t = "open" /\ untaken t /\ task_offeree t = None)
  \/ (In (task_state t) ["assigned"; "completed"; "failed"] /\ taken t)
  \/ (In (task_state t) ["cancelled"; "declined"; "expired"] /\ (untaken t \/ taken t)).

Definition bounty_ok (t : Task) : Prop :=
  task_offeree t = None
  /\ ((task_state t = "open" /\ untaken t)
      \/ (In (task_state t) ["assigned"; "under_review"; "accepted"; "forfeited"] /\ taken t)
      \/ (In (task_state t) ["cancelled"; "expired"] /\ (untaken t \/ taken t))).

Definition lifecycle_ok (t : Task) : Prop :=
  (task_kind t = "handoff" /\ handoff_ok t) \/ (task_kind t = "bounty" /\ bounty_ok t).

Lemma opened_ok verb t : opened_task shipped verb t -> lifecycle_ok t.
Proof.
  destruct t as [kind state offerer offeree assignee dl bdl].
  unfold opened_task, check_open, lifecycle_ok, handoff_ok, bounty_ok, untaken. simpl.
  destruct (is_confirmation shipped verb); [by intros []|].
  destruct (_ !! kind) as [k|] eqn:Hk; [|by intros []]. cbn [ok_or res_bind].
  apply shipped_kinds in Hk as [[-> ->]|[-> ->]]; simpl;
    (destruct (negb _); [by intros []|]).
  - destruct offeree; simpl; intros [[= <-] ->]; naive_solver.
  - destruct offeree; simpl; [by intros []|]. intros [[= <-] ->]; naive_solver.
Qed.

Lemma award_takes_bid r e s :
  well_formed_move r e s -> takes_bid r = true -> is_Some (snd_accepted_bid s).
Proof. intros [_ H] Hb. by destruct (H Hb). Qed.

(** The accepted moves of each kind, as changes of state and assignee. *)
Lemma advance_ok t e s field to :
  check shipped t e s = Ok to ->
  let t' := advance shipped t e s field to in
  task_kind t' = task_kind t /\ task_offeree t' = task_offeree t /\ task_state t' = to
  /\ (to <> "assigned" -> task_assignee t' = task_assignee t)
  /\ (to = "assigned" -> untaken t -> is_Some (task_assignee t')
       /\ (task_state t = "offered" -> task_assignee t' = task_offeree t))
  /\ (taken t -> taken t').
Proof.
  intros H t'. unfold t', taken, untaken, advance. cbn [task_kind task_offeree task_state task_assignee].
  split_and!; [done..| | |].
  - intros Hne. rewrite (proj2 (String.eqb_neq _ _) Hne). by destruct (task_assignee t).
  - intros -> Hun. rewrite Hun, String.eqb_refl.
    destruct t as [kind state offerer offeree assignee dl bdl].
    destruct e as [verb msgid accepts fields]. cbn [task_assignee task_state task_offeree] in *.
    shipped_rows H; try discriminate Hlands; cbn [task_kind task_state ev_verb] in *; subst.
    + apply role_offeree in Hrole. cbn in *. by rewrite Hrole.
    + cbn. split; [done|intros Hs; by rewrite Hs in *].
    + apply role_assignee in Hrole. by cbn in *.
    + destruct (award_takes_bid _ _ _ Hwf eq_refl) as [b Hb].
      change (assignee_for _ _ _ _ _) with (snd_accepted_bid s). by rewrite Hb.
    + apply role_assignee in Hrole. by cbn in *.
    + by change (assignee_for _ _ _ _ _) with (Some (snd_did s)).
  - intros (a & -> & Ho). by exists a.
Qed.

(** What an accepted move of each kind does, as one of a few shapes. *)
Lemma handoff_move t e s to :
  check shipped t e s = Ok to -> task_kind t = "handoff" ->
  (to = "assigned" /\ In (task_state t) ["offered"; "open"; "assigned"])
  \/ (In to ["completed"; "failed"] /\ task_state t = "assigned")
  \/ In to ["cancelled"; "declined"; "expired"].
Proof.
  intros H Hk. shipped_rows H; try congruence; simpl; auto 10.
Qed.

Lemma bounty_move t e s to :
  check shipped t e s = Ok to -> task_kind t = "bounty" ->
  (to = "open" /\ task_state t = "open")
  \/ (to = "assigned" /\ In (task_state t) ["open"; "assigned"; "under_review"])
  \/ (In to ["under_review"; "accepted"; "forfeited"]
      /\ In (task_state t) ["assigned"; "under_review"])
  \/ In to ["cancelled"; "expired"].
Proof.
  intros H Hk. shipped_rows H; try congruence; simpl in *; auto 10; intuition auto.
Qed.

(** Each invariant says of a state whether the work is taken. *)
Lemma handoff_taken t :
  handoff_ok t -> task_state t = "assigned" -> taken t.
Proof. intros [(->&_)|[(->&_)|[(_&?)|(Hs&_)]]] E; try done. rewrite E in Hs. simpl in Hs. naive_solver. Qed.

Lemma handoff_taken_or_not t : handoff_ok t -> untaken t \/ taken t.
Proof. unfold handoff_ok. intuition auto. Qed.

Lemma bounty_taken t :
  bounty_ok t -> In (task_state t) ["assigned"; "under_review"] -> taken t.
Proof.
  intros [_ [(->&_)|[(_&?)|(Hs&_)]]] E; [|done|]; simpl in *; [naive_solver|].
  destruct E as [E|[E|[]]]; rewrite <- E in Hs; naive_solver.
Qed.

Lemma bounty_taken_or_not t : bounty_ok t -> untaken t \/ taken t.
Proof. unfold bounty_ok. intuition auto. Qed.

Lemma taken_unchanged t t' :
  task_assignee t' = task_assignee t -> task_offeree t' = task_offeree t ->
  (untaken t -> untaken t') /\ (taken t -> taken t').
Proof. unfold untaken, taken. intros -> ->. auto. Qed.

Lemma handoff_step t e s field to :
  check shipped t e s = Ok to -> task_kind t = "handoff" -> handoff_ok t ->
  handoff_ok (advance shipped t e s field to).
Proof.
  intros H Hk Hok. destruct (advance_ok t e s field to H) as (_ & Ho & Hs & Hne & Has & Htk).
  set (t' := advance _ _ _ _ _ _) in *.
  destruct (handoff_move _ _ _ _ H Hk) as [[-> Hf]|[[Hto Hf]|Hto]].
  - right; right; left. rewrite Hs. split; [by left|].
    destruct Hok as [(Hst & Hun & [d Hd])|[(Hst & Hun & Hd)|[[Hst Ht]|[Hst _]]]]; auto.
    + destruct (Has eq_refl Hun) as [_ Hx]. exists d. rewrite Ho, Hx, Hd by done. auto.
    + destruct (Has eq_refl Hun) as [[a Ha] _]. exists a. rewrite Ho. auto.
    + simpl in Hf, Hst. destruct Hf as [Hf|[Hf|[Hf|[]]]]; rewrite <- Hf in Hst; naive_solver.
  - right; right; left. rewrite Hs. pose proof (handoff_taken _ Hok Hf).
    split; [simpl in *; naive_solver|auto].
  - right; right; right. rewrite Hs. split; [done|].
    assert (to <> "assigned") as Hna by (intros ->; simpl in Hto; naive_solver).
    destruct (taken_unchanged t t' (Hne Hna) Ho), (handoff_taken_or_not t Hok); auto.
Qed.

Lemma bounty_step t e s field to :
  check shipped t e s = Ok to -> task_kind t = "bounty" -> bounty_ok t ->
  bounty_ok (advance shipped t e s field to).
Proof.
  intros H Hk Hok. destruct (advance_ok t e s field to H) as (_ & Ho & Hs & Hne & Has & Htk).
  set (t' := advance _ _ _ _ _ _) in *. pose proof Hok as [Hd Hc].
  split; [by rewrite Ho|]. rewrite Hs.
  destruct (bounty_move _ _ _ _ H Hk) as [[-> Hf]|[[-> Hf]|[[Hto Hf]|Hto]]].
  - left. split; [done|]. destruct (taken_unchanged t t' (Hne ltac:(done)) Ho) as [Hu _].
    destruct Hc as [[_ ?]|[[Hst _]|[Hst _]]]; auto; rewrite Hf in Hst; simpl in Hst; naive_solver.
  - right; left. split; [by left|]. destruct Hc as [[_ Hun]|[[_ Ht]|[Hst _]]]; auto.
    + destruct (Has eq_refl Hun) as [[a Ha] _]. exists a. rewrite Ho. auto.
    + simpl in Hf, Hst. destruct Hf as [Hf|[Hf|[Hf|[]]]]; rewrite <- Hf in Hst; naive_solver.
  - right; left. pose proof (bounty_taken _ Hok Hf). split; [simpl in *; naive_solver|auto].
  - right; right. split; [done|].
    assert (to <> "assigned") as Hna by (intros ->; simpl in Hto; naive_solver).
    destruct (taken_unchanged t t' (Hne Hna) Ho), (bounty_taken_or_not t Hok); auto.
Qed.

Lemma lifecycle_step t t' : act_step shipped t t' -> lifecycle_ok t -> lifecycle_ok t'.
Proof.
  intros (e & s & field & to & H & ->) [[Hk Hok]|[Hk Hok]]; [left|right]; split; auto;
    eauto using handoff_step, bounty_step.
Qed.

Lemma reachable_ok t : reachable shipped t -> lifecycle_ok t.
Proof. induction 1; eauto using opened_ok, lifecycle_step. Qed.

(** The lifecycle invariant of the shipped kinds. However a task got where
    it is (any opener, any sequence of accepted moves by anyone), its kind is
    one the table has, its state is one of that kind's, and who holds the work
    agrees with the state: nobody before it is taken, somebody from
    ["assigned"] on, and a directed offer is only ever held by the party it
    named. *)
Theorem shipped_lifecycle_invariant t : reachable shipped t -> lifecycle_ok t.
Proof. apply reachable_ok. Qed.

Definition sample_bounty : Task :=
  mkTask "bounty" "open" "did:plc:p" None None None None.

Lemma shipped_lifecycle_invariant_witness :
  lifecycle_ok (mkTask "bounty" "assigned" "did:plc:p" None (Some "did:plc:w") None None).
Proof.
  apply shipped_lifecycle_invariant. apply reach_step with sample_bounty.
  - apply reach_open with "offer". split; reflexivity.
  - exists (mkEvent "award" "01M16E7TC0BDTAKEN000000000" (Some "01M16E7TC0") ["act-accepts"]),
      (mkSender "did:plc:p" false (Some "did:plc:w")), (fun _ => None), "assigned".
    split; vm_compute; reflexivity.
Defined.

(** ** Every task can be ended, and an ended task never moves *)

Lemma terminal_refused sp t e s to :
  is_terminal sp (task_kind t) (task_state t) = true -> check sp t e s <> Ok to.
Proof.
  unfold is_terminal. intros H Hc. pose proof (check_cause sp t e s) as Hl. rewrite Hc in Hl.
  destruct Hl as (_ & k & r & Hk & Hnt & _). rewrite Hk in H. by apply Hnt, str_mem_In.
Qed.

Lemma expire_accepted t msgid :
  is_Some (shipped.(sp_kinds) !! task_kind t) ->
  is_terminal shipped (task_kind t) (task_state t) = false ->
  check shipped t (mkEvent "expire" msgid None []) (mkSender "" true None) = Ok "expired".
Proof.
  intros [k Hk]. unfold is_terminal, check. rewrite Hk. intros Ht.
  apply shipped_kinds in Hk as [[_ ->]|[_ ->]]; cbn [ok_or res_bind];
    change (is_confirmation _ _) with false; cbn iota;
    match goal with |- context [rows_of ?k ?v] =>
      change (rows_of k v) with [row "expire" (One "*nonterminal") "expired" "system"] end;
    rewrite Ht; cbn [List.find from_matches tr_from row];
    change (String.eqb _ ANY_NONTERMINAL) with true; cbn iota; by rewrite Ht.
Qed.

(** C40: no task is stuck and no ending is undone. Every reachable task is in a
    terminal state, out of which no event by any sender is accepted, or the
    server's [expire] is accepted on it whatever its deadlines and lands it in
    the terminal state ["expired"]. *)
Theorem shipped_no_stuck_task t :
  reachable shipped t ->
  (is_terminal shipped (task_kind t) (task_state t) = true
     /\ forall e s, exists why, check shipped t e s = Err why)
  \/ (forall msgid, check shipped t (mkEvent "expire" msgid None []) (mkSender "" true None)
                    = Ok "expired")
     /\ is_terminal shipped (task_kind t) "expired" = true.
Proof.
  intros Hr. destruct (is_terminal shipped (task_kind t) (task_state t)) eqn:Ht; [left|right].
  - split; [done|]. intros e s. destruct (check shipped t e s) eqn:E; [|eauto].
    exfalso. by eapply terminal_refused.
  - destruct (reachable_ok t Hr) as [[Hk _]|[Hk _]]; (split; [intros msgid; apply expire_accepted; [|done]|]);
      rewrite Hk; vm_compute; eauto.
Qed.

Lemma shipped_no_stuck_task_witness :
  (is_terminal shipped "bounty" "open" = true
     /\ forall e s, exists why, check shipped sample_bounty e s = Err why)
  \/ (forall msgid, check shipped sample_bounty (mkEvent "expire" msgid None []) (mkSender "" true None)
                    = Ok "expired")
     /\ is_terminal shipped "bounty" "expired" = true.
Proof.
  apply (shipped_no_stuck_task sample_bounty). apply reach_open with "offer". split; reflexivity.
Defined.
