(* ===== verification/PolicyEval.v ===== *)
(** * The requirement language of channel policies

    Models [freeq-server/src/policy/eval.rs] over the [Requirement] type of
    [policy/types.rs]: the structural validator a policy passes before it is
    stored and the evaluator the join gate runs. The [&mut u32] node counter is
    passed and returned explicitly; it stops at 65, so it cannot wrap. *)

From stdpp Require Import base gmap strings list sets.
From Stdlib Require Import ZArith Lia String.
From S2P Require Import Prelude.
Open Scope Z_scope.
Open Scope rust_scope.

Inductive Requirement :=
| Open
| Accept (hash : string)
| Present (credential_type : string) (issuer : option string)
| Prove (proof_type : string)
| All (requirements : list Requirement)
| Any (requirements : list Requirement)
| Not (requirement : Requirement).

Record Credential := mkCredential { credential_type : string; issuer : string }.

Record UserEvidence := mkEvidence {
  accepted_hashes : gset string;
  credentials : list Credential;
  proofs : gset string
}.

Inductive EvalResult :=
| Satisfied
| Failed (reason : string)
| Error (reason : string).

Definition is_satisfied (r : EvalResult) : bool :=
  match r with Satisfied => true | _ => false end.

Definition MAX_DEPTH : Z := 8.
Definition MAX_NODES : Z := 64.

(** ** The validator *)

(** The [for r in requirements { .. }] loops, over the recursive call. *)
Section Loops.
Context {A : Type} (call : A -> Z -> result unit string * Z) (ev : A -> Z -> EvalResult * Z).

Fixpoint validate_each (rs : list A) (n : Z) : result unit string * Z :=
  match rs with
  | [] => (Ok tt, n)
  | r :: rs' =>
      match call r n with
      | (Ok _, n') => validate_each rs' n'
      | (Err e, n') => (Err e, n')
      end
  end.

Fixpoint eval_all (rs : list A) (n : Z) : EvalResult * Z :=
  match rs with
  | [] => (Satisfied, n)
  | r :: rs' =>
      match ev r n with
      | (Satisfied, n') => eval_all rs' n'
      | (other, n') => (other, n')
      end
  end.

Fixpoint eval_any (rs : list A) (last_failure : string) (n : Z) : EvalResult * Z :=
  match rs with
  | [] => (Failed ("No alternative satisfied: " +:+ last_failure), n)
  | r :: rs' =>
      match ev r n with
      | (Satisfied, n') => (Satisfied, n')
      | (Failed msg, n') => eval_any rs' msg n'
      | (Error e, n') => (Error e, n')
      end
  end.
End Loops.

Fixpoint validate_inner (req : Requirement) (depth node_count : Z) : result unit string * Z :=
  if MAX_DEPTH <? depth then (Err "Requirement tree exceeds max depth of 8", node_count)
  else
    let node_count := node_count + 1 in
    if MAX_NODES <? node_count then (Err "Requirement tree exceeds max node count of 64", node_count)
    else
      match req with
      | Open | Accept _ | Present _ _ | Prove _ => (Ok tt, node_count)
      | All [] | Any [] => (Err "ALL/ANY must have at least one sub-requirement", node_count)
      | All requirements | Any requirements =>
          validate_each (fun r n => validate_inner r (depth + 1) n) requirements node_count
      | Not requirement => validate_inner requirement (depth + 1) node_count
      end.

Definition validate_structure (req : Requirement) : result unit string := (validate_inner req 0 0).1.

(** ** The evaluator *)

Section Eval.
Variable evidence : UserEvidence.

(** The [any] of the [Present] arm. *)
Definition presents (ct : string) (iss : option string) : bool :=
  existsb (fun c => String.eqb (credential_type c) ct
                    && match iss with None => true | Some i => String.eqb (issuer c) i end)
          (credentials evidence).

Definition missing_credential (ct : string) (iss : option string) : string :=
  match iss with
  | Some i => "Missing credential: " +:+ ct +:+ " from " +:+ i
  | None => "Missing credential: " +:+ ct
  end.

Fixpoint eval_inner (req : Requirement) (depth node_count : Z) : EvalResult * Z :=
  if MAX_DEPTH <? depth then (Error "Max depth 8 exceeded", node_count)
  else
    let node_count := node_count + 1 in
    if MAX_NODES <? node_count then (Error "Max node count 64 exceeded", node_count)
    else
      match req with
      | Open => (Satisfied, node_count)
      | Accept hash =>
          (if bool_decide (hash ∈ accepted_hashes evidence) then Satisfied
           else Failed ("User has not accepted rules hash: " +:+ hash), node_count)
      | Present ct iss =>
          (if presents ct iss then Satisfied else Failed (missing_credential ct iss), node_count)
      | Prove p =>
          (if bool_decide (p ∈ proofs evidence) then Satisfied
           else Failed ("Missing proof: " +:+ p), node_count)
      | All requirements =>
          eval_all (fun r n => eval_inner r (depth + 1) n) requirements node_count
      | Any requirements =>
          eval_any (fun r n => eval_inner r (depth + 1) n) requirements ""%string node_count
      | Not requirement =>
          match eval_inner requirement (depth + 1) node_count with
          | (Satisfied, n) => (Failed "NOT condition: inner requirement was satisfied", n)
          | (Failed _, n) => (Satisfied, n)
          | (Error e, n) => (Error e, n)
          end
      end.

Definition evaluate (req : Requirement) : EvalResult := (eval_inner req 0 0).1.

(** ** The meaning of a requirement

    What the documentation of [Requirement] says, with no limits. *)
Fixpoint holds (req : Requirement) : bool :=
  match req with
  | Open => true
  | Accept hash => bool_decide (hash ∈ accepted_hashes evidence)
  | Present ct iss => presents ct iss
  | Prove p => bool_decide (p ∈ proofs evidence)
  | All rs => forallb holds rs
  | Any rs => existsb holds rs
  | Not r => negb (holds r)
  end.
End Eval.

(** Nodes and edge depth of a tree; every [All]/[Any] has a branch. *)
Fixpoint nodes (req : Requirement) : Z :=
  match req with
  | All rs | Any rs => 1 + foldr (fun r n => nodes r + n) 0 rs
  | Not r => 1 + nodes r
  | _ => 1
  end.

Fixpoint height (req : Requirement) : Z :=
  match req with
  | All rs | Any rs => foldr (fun r h => Z.max (1 + height r) h) 0 rs
  | Not r => 1 + height r
  | _ => 0
  end.

Fixpoint branching (req : Requirement) : bool :=
  match req with
  | All rs | Any rs => negb (bool_decide (rs = [])) && forallb branching rs
  | Not r => branching r
  | _ => true
  end.

Fixpoint negation_free (req : Requirement) : bool :=
  match req with
  | All rs | Any rs => forallb negation_free rs
  | Not _ => false
  | _ => true
  end.

(** ** Induction on requirement trees *)

Section Induction.
Variable P : Requirement -> Prop.
Hypothesis POpen : P Open.
Hypothesis PAccept : forall h, P (Accept h).
Hypothesis PPresent : forall c i, P (Present c i).
Hypothesis PProve : forall p, P (Prove p).
Hypothesis PAll : forall rs, Forall P rs -> P (All rs).
Hypothesis PAny : forall rs, Forall P rs -> P (Any rs).
Hypothesis PNot : forall r, P r -> P (Not r).

Fixpoint requirement_tree_ind (r : Requirement) : P r :=
  let fix each rs : Forall P rs :=
    match rs with
    | [] => Forall_nil_2 P
    | r :: rs' => Forall_cons_2 P r rs' (requirement_tree_ind r) (each rs')
    end in
  match r with
  | Open => POpen
  | Accept h => PAccept h
  | Present c i => PPresent c i
  | Prove p => PProve p
  | All rs => PAll rs (each rs)
  | Any rs => PAny rs (each rs)
  | Not r => PNot r (requirement_tree_ind r)
  end.
End Induction.

Definition nodes_of (rs : list Requirement) : Z := foldr (fun r n => nodes r + n) 0 rs.
Definition height_of (rs : list Requirement) : Z := foldr (fun r h => Z.max (1 + height r) h) 0 rs.

Lemma height_nonneg r : 0 <= height r.
Proof.
  assert (forall rs, 0 <= height_of rs) by (induction rs; simpl; lia).
  induction r using requirement_tree_ind; simpl; try lia; auto.
Qed.

Lemma nodes_pos r : 1 <= nodes r.
Proof.
  assert (forall rs, Forall (fun r => 1 <= nodes r) rs -> 0 <= nodes_of rs)
    by (induction 1; simpl; lia).
  induction r as [| | | |rs IH|rs IH|r IH] using requirement_tree_ind; simpl; try lia;
    specialize (H rs IH); unfold nodes_of in H; lia.
Qed.

Lemma height_of_nonneg rs : 0 <= height_of rs.
Proof. induction rs; simpl; lia. Qed.

Lemma nodes_of_nonneg rs : 0 <= nodes_of rs.
Proof. induction rs as [|r rs IH]; simpl; [lia|]. pose proof (nodes_pos r). lia. Qed.

(** ** The evaluator computes the meaning, or reports that a limit was hit *)

(** What a call at depth [d] with [n] nodes already counted may answer for a
    (sub)tree whose meaning is [b], with [k] nodes and height [h]. *)
Definition answers (b : bool) (k h d n : Z) (out : EvalResult * Z) : Prop :=
  n <= out.2 <= n + k
  /\ match out.1 with
     | Satisfied => b = true
     | Failed _ => b = false
     | Error _ => MAX_DEPTH < d + h \/ MAX_NODES < n + k
     end.

Lemma answers_weaken b k h d n n0 out :
  answers b k h d n out -> n = n0 + 1 -> answers b (1 + k) h d n0 out.
Proof. intros [? H] ->. split; [lia|]. destruct out.1; try done. lia. Qed.

Section Loop_answers.
Variables (ev : UserEvidence) (d : Z).
Let call r n := eval_inner ev r (d + 1) n.
Let answered r := forall n, answers (holds ev r) (nodes r) (height r) (d + 1) n (call r n).

Lemma eval_all_answers rs n :
  Forall answered rs ->
  answers (forallb (holds ev) rs) (nodes_of rs) (height_of rs) d n (eval_all call rs n).
Proof.
  intros HF. unfold answers. revert n; induction HF as [|r rs Hr _ IH]; intros n; simpl;
    [split; [lia|done]|].
  pose proof (nodes_of_nonneg rs). pose proof (height_of_nonneg rs).
  destruct (Hr n) as [Hn Hv]. destruct (call r n) as [[] n1]; simpl in *;
    [|rewrite Hv; split; [lia|done]|split; lia].
  destruct (IH n1) as [? Hs]. rewrite Hv. split; [simpl in *; lia|].
  destruct (eval_all call rs n1).1; try done. lia.
Qed.

Lemma eval_any_answers rs last n :
  Forall answered rs ->
  answers (existsb (holds ev) rs) (nodes_of rs) (height_of rs) d n (eval_any call rs last n).
Proof.
  intros HF. unfold answers. revert n last; induction HF as [|r rs Hr _ IH]; intros n last; simpl;
    [split; [lia|done]|].
  pose proof (nodes_of_nonneg rs). pose proof (height_of_nonneg rs).
  destruct (Hr n) as [Hn Hv]. destruct (call r n) as [[|msg|] n1]; simpl in *;
    [rewrite Hv; split; [lia|done]| |split; lia].
  destruct (IH n1 msg) as [? Hs]. rewrite Hv. split; [simpl in *; lia|].
  destruct (eval_any call rs msg n1).1; try done. lia.
Qed.
End Loop_answers.

Lemma eval_answers ev r d n :
  answers (holds ev r) (nodes r) (height r) d n (eval_inner ev r d n).
Proof.
  revert d n. induction r as [| | | |rs IH|rs IH|r IH] using requirement_tree_ind; intros d n;
    match goal with |- answers _ (nodes ?r) _ _ _ _ =>
      pose proof (nodes_pos r); pose proof (height_nonneg r) end;
    cbn [eval_inner holds];
    (destruct (MAX_DEPTH <? d) eqn:Ed; bool_hyps; [split; cbn [fst snd]; lia|]);
    (destruct (MAX_NODES <? n + 1) eqn:En; bool_hyps; [split; cbn [fst snd]; lia|]).
  - split; simpl; [lia|done].
  - case_bool_decide; split; simpl; (lia || done).
  - destruct (presents ev c i); split; simpl; (lia || done).
  - case_bool_decide; split; simpl; (lia || done).
  - eapply answers_weaken; [apply eval_all_answers|done].
    eapply Forall_impl; [exact IH|]. intros r Hr m. apply Hr.
  - eapply answers_weaken; [apply eval_any_answers|done].
    eapply Forall_impl; [exact IH|]. intros r Hr m. apply Hr.
  - destruct (IH (d + 1) (n + 1)) as [? Hv].
    destruct (eval_inner ev r (d + 1) (n + 1)) as [[] n1]; split; simpl in *;
      try rewrite Hv; (lia || done).
Qed.

Lemma evaluate_sound_lemma ev r :
  match evaluate ev r with
  | Satisfied => holds ev r = true
  | Failed _ => holds ev r = false
  | Error _ => MAX_DEPTH < height r \/ MAX_NODES < nodes r
  end.
Proof. unfold evaluate. apply (eval_answers ev r 0 0). Qed.

(** C5: the join gate's evaluator never lets a wrong answer through. For every
    requirement tree, however large, and any evidence: [Satisfied] only when
    the requirement's meaning holds, [Failed] only when it does not, and
    [Error] only when the tree is deeper than 8 or has more than 64 nodes; in
    particular a limit that is hit under a [Not] is never turned into
    [Satisfied]. *)
Theorem evaluate_sound ev r :
  match evaluate ev r with
  | Satisfied => holds ev r = true
  | Failed _ => holds ev r = false
  | Error _ => MAX_DEPTH < height r \/ MAX_NODES < nodes r
  end.
Proof. apply evaluate_sound_lemma. Qed.

(** ** The validator accepts exactly the trees within the limits *)

Definition fits (r : Requirement) (d n : Z) : Prop :=
  d + height r <= MAX_DEPTH /\ n + nodes r <= MAX_NODES /\ branching r = true.

Definition validated (accepts : Prop) (k n : Z) (out : result unit string * Z) : Prop :=
  (out.1 = Ok tt <-> accepts) /\ (out.1 = Ok tt -> out.2 = n + k).

Lemma validate_each_spec d rs n :
  Forall (fun r => forall n, validated (fits r (d + 1) n) (nodes r) n (validate_inner r (d + 1) n)) rs ->
  d <= MAX_DEPTH -> n <= MAX_NODES ->
  validated (d + height_of rs <= MAX_DEPTH /\ n + nodes_of rs <= MAX_NODES
             /\ forallb branching rs = true) (nodes_of rs) n
    (validate_each (fun r n => validate_inner r (d + 1) n) rs n).
Proof.
  unfold validated, fits. intros HF Hd. revert n. induction HF as [|r rs Hr _ IH]; intros n Hn; simpl.
  { split; [|lia]. split; [intros _; split_and!; (lia || done)|done]. }
  pose proof (nodes_of_nonneg rs). pose proof (height_of_nonneg rs). pose proof (nodes_pos r).
  destruct (Hr n) as [Hv Hk]. destruct (validate_inner r (d + 1) n) as [[[]|e] n1]; simpl in *.
  - specialize (Hk eq_refl) as ->. destruct (proj1 Hv eq_refl) as (? & ? & ->).
    destruct (IH (n + nodes r)) as [Hrs Hks]; [lia|]. rewrite Hrs.
    split; [|intros E; rewrite Hks by (by apply Hrs); lia].
    simpl. split; intros (?&?&?); split_and!; (lia || done).
  - split; [split; [done|]|done]. rewrite andb_true_iff. intros (?&?&?&?). apply Hv. split_and!; (lia || done).
Qed.

Lemma branching_cons r rs :
  branching (All (r :: rs)) = forallb branching (r :: rs)
  /\ branching (Any (r :: rs)) = forallb branching (r :: rs).
Proof. done. Qed.

Lemma validate_spec r d n :
  validated (fits r d n) (nodes r) n (validate_inner r d n).
Proof.
  revert d n. induction r as [| | | |rs IH|rs IH|r IH] using requirement_tree_ind; intros d n;
    unfold validated, fits;
    match goal with |- context [nodes ?r] =>
      pose proof (nodes_pos r); pose proof (height_nonneg r) end;
    cbn [validate_inner];
    (destruct (MAX_DEPTH <? d) eqn:Ed; bool_hyps; [split; [split; [done|lia]|done]|]);
    (destruct (MAX_NODES <? n + 1) eqn:En; bool_hyps; [split; [split; [done|lia]|done]|]).
  1-4: split; [split; [intros _; simpl; split_and!; (lia || done)|done]|simpl; lia].
  1-2: destruct rs as [|r0 rs]; [split; [split; [done|by intros (_&_&[=])]|done]|];
    destruct (validate_each_spec d (r0 :: rs) (n + 1)) as [Hv Hk]; [|lia..|];
    [eapply Forall_impl; [exact IH|]; intros r Hr m; apply Hr|];
    destruct (branching_cons r0 rs) as [HA HN]; rewrite Hv, ?HA, ?HN;
    change (nodes (_ (r0 :: rs))) with (1 + nodes_of (r0 :: rs));
    change (height (_ (r0 :: rs))) with (height_of (r0 :: rs));
    (split; [split; intros (?&?&?); split_and!; (lia || done)
            |intros E; rewrite Hk by (by apply Hv); lia]).
  destruct (IH (d + 1) (n + 1)) as [Hv Hk]. unfold fits in Hv. simpl. rewrite Hv.
  split; [split; intros (?&?&?); split_and!; (lia || done)|].
  intros E. rewrite Hk by (by apply Hv). lia.
Qed.

(** The structural validator accepts a requirement tree iff it is at most
    8 deep, has at most 64 nodes, and no [ALL] or [ANY] in it is empty. *)
Theorem validate_structure_spec r :
  validate_structure r = Ok tt
  <-> height r <= MAX_DEPTH /\ nodes r <= MAX_NODES /\ branching r = true.
Proof. unfold validate_structure. rewrite (proj1 (validate_spec r 0 0)). done. Qed.

(** ** What a stored requirement decides *)

Lemma validated_decides ev r :
  validate_structure r = Ok tt ->
  if holds ev r then evaluate ev r = Satisfied else exists why, evaluate ev r = Failed why.
Proof.
  unfold validate_structure. intros (?&?&?)%(validate_spec r 0 0).
  pose proof (eval_answers ev r 0 0) as [_ H2]. unfold evaluate.
  destruct (eval_inner ev r 0 0).1; rewrite ?H2; eauto. lia.
Qed.

(** Evidence only grows. *)
Definition more_evidence (a b : UserEvidence) : Prop :=
  accepted_hashes a ⊆ accepted_hashes b /\ incl (credentials a) (credentials b)
  /\ proofs a ⊆ proofs b.

Lemma presents_mono a b ct iss :
  more_evidence a b -> presents a ct iss = true -> presents b ct iss = true.
Proof.
  unfold presents. intros (_ & Hi & _). rewrite !existsb_exists. intros (c & Hc & ?).
  exists c. split; [by apply Hi|done].
Qed.

Lemma holds_mono a b r :
  more_evidence a b -> negation_free r = true -> holds a r = true -> holds b r = true.
Proof.
  intros Hm. pose proof Hm as (Ha & _ & Hp).
  induction r as [| | | |rs IH|rs IH|r IH] using requirement_tree_ind; simpl; try done.
  - rewrite !bool_decide_eq_true. set_solver.
  - intros _. by apply presents_mono.
  - rewrite !bool_decide_eq_true. set_solver.
  - rewrite Forall_forall in IH. rewrite !forallb_forall. intros Hn H x Hx.
    apply IH; auto. by apply list_elem_of_In.
  - rewrite Forall_forall in IH. rewrite forallb_forall, !existsb_exists.
    intros Hn (x & Hx & H). exists x. split; [done|]. apply IH; auto. by apply list_elem_of_In.
Qed.

(** A validated requirement is decided, and evidence never hurts. On a tree
    the validator accepted, the evaluator reaches a verdict (never [Error]):
    [Satisfied] exactly when the requirement holds. If the tree has no [NOT],
    whoever passes with some evidence still passes with more of it. *)
Theorem validated_requirement_decided r a b :
  validate_structure r = Ok tt ->
  (evaluate a r = Satisfied <-> holds a r = true)
  /\ (holds a r = false -> exists why, evaluate a r = Failed why)
  /\ (negation_free r = true -> more_evidence a b ->
      evaluate a r = Satisfied -> evaluate b r = Satisfied).
Proof.
  intros Hv. pose proof (validated_decides a r Hv) as Ha. pose proof (validated_decides b r Hv) as Hb.
  split_and!.
  - destruct (holds a r); [done|]. destruct Ha as [why Ha]. rewrite Ha. done.
  - intros E. by rewrite E in Ha.
  - intros Hn Hm Hs. destruct (holds a r) eqn:E.
    + by rewrite (holds_mono a b r Hm Hn E) in Hb.
    + destruct Ha as [why Ha]. congruence.
Qed.

Definition sample_requirement : Requirement :=
  All [Accept "rules-v1"; Any [Present "github_membership" None; Prove "human"]].

Lemma validated_requirement_decided_witness :
  let none := mkEvidence ∅ [] ∅ in
  let some := mkEvidence {["rules-v1"]} [mkCredential "github_membership" "did:web:v"] ∅ in
  (evaluate none sample_requirement = Satisfied <-> holds none sample_requirement = true)
  /\ (holds none sample_requirement = false ->
        exists why, evaluate none sample_requirement = Failed why)
  /\ (negation_free sample_requirement = true -> more_evidence none some ->
      evaluate none sample_requirement = Satisfied -> evaluate some sample_requirement = Satisfied).
Proof. intros none some. apply validated_requirement_decided. vm_compute. reflexivity. Defined.
