(* ===== verification/PolicyStore.v ===== *)
(** * The policy store

    Models [freeq-server/src/policy/store.rs] and the documents of
    [policy/types.rs] it keeps. Each SQLite table is the list of its rows in
    insertion order, with the table's key constraints written out; a JSON
    column is modelled by the document it encodes. The failure of a statement
    is a violated constraint; disk and serialisation failures are not modelled.
    Content hashes and the HMAC are parameters ([PolicyEnv]). *)

From stdpp Require Import base gmap strings list sorting.
From Stdlib Require Import ZArith Lia String SpecFloat.
From S2P Require Import Prelude PolicyEval.
Open Scope Z_scope.
Open Scope rust_scope.

(** ** Documents *)

Inductive BudgetPeriod := PerHour | PerDay | PerWeek | PerTask.

Record BudgetPolicy := mkBudget {
  bp_unit : string;
  bp_max_amount : spec_float;
  bp_period : BudgetPeriod;
  bp_sponsor_did : string;
  bp_warn_threshold : spec_float;
  bp_hard_limit : bool;
  bp_approval_threshold : option spec_float
}.

Record CredentialEndpoint := mkEndpoint {
  ce_issuer : string;
  ce_url : string;
  ce_label : string;
  ce_description : option string
}.

Inductive ValidityModel := JoinTime | Continuous.
Inductive ReceiptEmbedding := Require_ | Allow | Forbid.

Record ChannelLimits := mkLimits { max_members : option Z; max_bots : option Z }.
Record TransparencyConfig := mkTransparency { visibility : string; mmd_seconds : Z }.

Record PolicyDocument := mkPolicy {
  pd_channel_id : string;
  pd_policy_id : option string;
  pd_version : Z;
  pd_effective_at : string;
  pd_previous_policy_hash : option string;
  pd_authority_set_hash : string;
  pd_requirements : Requirement;
  pd_role_requirements : gmap string Requirement;
  pd_validity_model : ValidityModel;
  pd_receipt_embedding : ReceiptEmbedding;
  pd_policy_locations : list string;
  pd_limits : option ChannelLimits;
  pd_transparency : option TransparencyConfig;
  pd_credential_endpoints : gmap string CredentialEndpoint;
  pd_agent_budget : option BudgetPolicy;
  pd_agent_budgets : gmap string BudgetPolicy
}.

Record AuthoritySigner := mkSigner {
  sg_did : string;
  sg_public_key : string;
  sg_label : option string;
  sg_endpoint : option string
}.

Record AuthoritySet := mkAuthoritySet {
  as_hash : option string;
  as_channel_id : string;
  as_signers : list AuthoritySigner;
  as_policy_threshold : Z;
  as_refresh_ttl_seconds : Z;
  as_transparency : option TransparencyConfig;
  as_previous_hash : option string
}.

Record JoinReceipt := mkReceipt {
  jr_channel_id : string;
  jr_policy_id : string;
  jr_join_id : string;
  jr_subject_did : string;
  jr_timestamp : string;
  jr_nonce : string;
  jr_embedded_policy : option PolicyDocument;
  jr_signature : string
}.

Inductive JoinState := JoinPending | JoinConfirmed | JoinFailed | JoinStale.

Record MembershipAttestation := mkAttestation {
  ma_attestation_id : string;
  ma_channel_id : string;
  ma_policy_id : string;
  ma_authority_set_hash : string;
  ma_subject_did : string;
  ma_role : string;
  ma_issued_at : string;
  ma_expires_at : option string;
  ma_join_id : option string;
  ma_signature : string;
  ma_issuer_did : string
}.

Record TransparencyLogEntry := mkLogEntry {
  tl_entry_version : Z;
  tl_channel_id : string;
  tl_policy_id : string;
  tl_attestation_hash : string;
  tl_issued_at : string;
  tl_issuer_authority_id : string
}.

Record StoredCredential := mkStored {
  sc_credential_type : string;
  sc_issuer : string;
  sc_metadata_json : string;
  sc_issued_at : string
}.

Inductive DbError := UniqueViolation (columns : string).
Inductive PolicyError :=
| Database (e : DbError)
| Serialization (msg : string)
| Validation (msg : string).

(** What the store and the engine take from outside: SHA-256 over the canonical
    JSON of a document, HMAC-SHA256 of an attestation, and chrono's RFC 3339
    text. The text reads back, and orders as time does, for the times a
    four-digit year can write (nanoseconds since 1970). *)
Definition last_nanos : Z := 2 ^ 62.

Class PolicyEnv := {
  hash_policy : PolicyDocument -> string;
  hash_authority_set : AuthoritySet -> string;
  hash_attestation : MembershipAttestation -> string;
  hmac_sign : MembershipAttestation -> string -> string;
  sha256_hex : string -> string;
  to_rfc3339 : Z -> string;
  parse_from_rfc3339 : string -> option Z;
  rfc3339_reads_back : forall t, 0 <= t < last_nanos -> parse_from_rfc3339 (to_rfc3339 t) = Some t;
  rfc3339_mono : forall t u, 0 <= t -> t < u -> u < last_nanos -> str_lt (to_rfc3339 t) (to_rfc3339 u)
}.

(** ** Tables *)

(** [membership_attestations.state] *)
Inductive RowState := VALID | INVALID.

Record PolicyRow := mkPolicyRow { pr_policy_id : string; pr_channel : string; pr_version : Z; pr_doc : PolicyDocument }.
Record AuthorityRow := mkAuthorityRow { ar_hash : string; ar_channel : string; ar_doc : AuthoritySet }.
Record ReceiptRow := mkReceiptRow { rr_join_id : string; rr_channel : string; rr_doc : JoinReceipt; rr_state : JoinState }.
Record AttestationRow := mkAttestationRow {
  xr_id : string; xr_channel : string; xr_subject : string; xr_issued_at : string;
  xr_expires_at : option string; xr_doc : MembershipAttestation; xr_hash : string; xr_state : RowState
}.
Record CredentialRow := mkCredentialRow { cr_subject : string; cr_cred : StoredCredential; cr_revoked : bool }.

Record Store := mkStore {
  policies : list PolicyRow;
  authority_sets : list AuthorityRow;
  rules_texts : gmap string string;
  join_receipts : list ReceiptRow;
  membership_attestations : list AttestationRow;
  transparency_log : list (Z * TransparencyLogEntry);
  log_seq : Z;   (* AUTOINCREMENT: never reused *)
  credential_rows : list CredentialRow
}.

Definition empty_store : Store := mkStore [] [] ∅ [] [] [] 0 [].

Definition set_policies (s : Store) x := mkStore x (authority_sets s) (rules_texts s) (join_receipts s)
  (membership_attestations s) (transparency_log s) (log_seq s) (credential_rows s).
Definition set_authority_sets (s : Store) x := mkStore (policies s) x (rules_texts s) (join_receipts s)
  (membership_attestations s) (transparency_log s) (log_seq s) (credential_rows s).
Definition set_rules_texts (s : Store) x := mkStore (policies s) (authority_sets s) x (join_receipts s)
  (membership_attestations s) (transparency_log s) (log_seq s) (credential_rows s).
Definition set_join_receipts (s : Store) x := mkStore (policies s) (authority_sets s) (rules_texts s) x
  (membership_attestations s) (transparency_log s) (log_seq s) (credential_rows s).
Definition set_attestations (s : Store) x := mkStore (policies s) (authority_sets s) (rules_texts s) (join_receipts s)
  x (transparency_log s) (log_seq s) (credential_rows s).
Definition set_log (s : Store) x seq := mkStore (policies s) (authority_sets s) (rules_texts s) (join_receipts s)
  (membership_attestations s) x seq (credential_rows s).
Definition set_credentials (s : Store) x := mkStore (policies s) (authority_sets s) (rules_texts s) (join_receipts s)
  (membership_attestations s) (transparency_log s) (log_seq s) x.

(** An operation answers and leaves a store. *)
Definition M (A : Type) := (result A PolicyError * Store)%type.

Section Store.
Context {CF : CaseFold} {TR : @Trim CF} {SO : SqlOrder} {PE : PolicyEnv}.

Definition canonical_channel_id (channel : string) : string := to_lowercase (trim channel).

(** *** Policy documents *)

Definition with_channel (p : PolicyDocument) (c : string) : PolicyDocument :=
  mkPolicy c (pd_policy_id p) (pd_version p) (pd_effective_at p) (pd_previous_policy_hash p)
    (pd_authority_set_hash p) (pd_requirements p) (pd_role_requirements p) (pd_validity_model p)
    (pd_receipt_embedding p) (pd_policy_locations p) (pd_limits p) (pd_transparency p)
    (pd_credential_endpoints p) (pd_agent_budget p) (pd_agent_budgets p).
Definition with_policy_id (p : PolicyDocument) (i : option string) : PolicyDocument :=
  mkPolicy (pd_channel_id p) i (pd_version p) (pd_effective_at p) (pd_previous_policy_hash p)
    (pd_authority_set_hash p) (pd_requirements p) (pd_role_requirements p) (pd_validity_model p)
    (pd_receipt_embedding p) (pd_policy_locations p) (pd_limits p) (pd_transparency p)
    (pd_credential_endpoints p) (pd_agent_budget p) (pd_agent_budgets p).

Definition store_policy (s : Store) (policy : PolicyDocument) : M PolicyDocument :=
  let policy := with_channel policy (canonical_channel_id (pd_channel_id policy)) in
  let policy := with_policy_id policy None in
  let policy_id := hash_policy policy in
  let policy := with_policy_id policy (Some policy_id) in
  if existsb (fun r => String.eqb (pr_policy_id r) policy_id) (policies s)
  then (Err (Database (UniqueViolation "policies.policy_id")), s)
  else if existsb (fun r => String.eqb (pr_channel r) (pd_channel_id policy)
                            && (pr_version r =? pd_version policy)) (policies s)
  then (Err (Database (UniqueViolation "policies.channel_id, policies.version")), s)
  else (Ok policy,
        set_policies s (policies s ++ [mkPolicyRow policy_id (pd_channel_id policy) (pd_version policy) policy])).

Definition rows_for (s : Store) (channel_id : string) : list PolicyRow :=
  List.filter (fun r => String.eqb (pr_channel r) channel_id) (policies s).

Definition get_current_policy (s : Store) (channel_id : string) : option PolicyDocument :=
  pr_doc <$> head (order_by (fun x y => pr_version y <=? pr_version x)
                            (rows_for s (canonical_channel_id channel_id))).

Definition get_policy_by_hash (s : Store) (policy_id : string) : option PolicyDocument :=
  pr_doc <$> List.find (fun r => String.eqb (pr_policy_id r) policy_id) (policies s).

Definition get_policy_chain (s : Store) (channel_id : string) : list PolicyDocument :=
  map pr_doc (order_by (fun x y => pr_version x <=? pr_version y)
                       (rows_for s (canonical_channel_id channel_id))).

(** *** Authority sets *)

Definition store_authority_set (s : Store) (a : AuthoritySet) : M AuthoritySet :=
  let a := mkAuthoritySet None (canonical_channel_id (as_channel_id a)) (as_signers a)
             (as_policy_threshold a) (as_refresh_ttl_seconds a) (as_transparency a) (as_previous_hash a) in
  let hash := hash_authority_set a in
  let a := mkAuthoritySet (Some hash) (as_channel_id a) (as_signers a)
             (as_policy_threshold a) (as_refresh_ttl_seconds a) (as_transparency a) (as_previous_hash a) in
  if existsb (fun r => String.eqb (ar_hash r) hash) (authority_sets s) then (Ok a, s)
  else (Ok a, set_authority_sets s (authority_sets s ++ [mkAuthorityRow hash (as_channel_id a) a])).

Definition get_authority_set (s : Store) (hash : string) : option AuthoritySet :=
  ar_doc <$> List.find (fun r => String.eqb (ar_hash r) hash) (authority_sets s).

(** *** Rules text: [INSERT OR IGNORE] *)

Definition store_rules_text (s : Store) (hash text : string) : M unit :=
  (Ok tt, set_rules_texts s (match rules_texts s !! hash with
                             | Some _ => rules_texts s
                             | None => <[hash := text]> (rules_texts s)
                             end)).

Definition get_rules_text (s : Store) (hash : string) : option string := rules_texts s !! hash.

(** *** Join receipts: [INSERT OR REPLACE] *)

Definition store_join_receipt (s : Store) (r : JoinReceipt) : M unit :=
  let r := mkReceipt (canonical_channel_id (jr_channel_id r)) (jr_policy_id r) (jr_join_id r)
             (jr_subject_did r) (jr_timestamp r) (jr_nonce r) (jr_embedded_policy r) (jr_signature r) in
  (Ok tt, set_join_receipts s
     (List.filter (fun x => negb (String.eqb (rr_join_id x) (jr_join_id r))) (join_receipts s)
      ++ [mkReceiptRow (jr_join_id r) (jr_channel_id r) r JoinPending])).

Definition update_join_state (s : Store) (join_id : string) (state : JoinState) : M unit :=
  (Ok tt, set_join_receipts s
     (map (fun x => if String.eqb (rr_join_id x) join_id
                    then mkReceiptRow (rr_join_id x) (rr_channel x) (rr_doc x) state else x)
          (join_receipts s))).

Definition get_join_receipt (s : Store) (join_id : string) : option JoinReceipt :=
  rr_doc <$> List.find (fun r => String.eqb (rr_join_id r) join_id) (join_receipts s).

(** *** Membership attestations *)

Definition canonical_attestation (a : MembershipAttestation) : MembershipAttestation :=
  mkAttestation (ma_attestation_id a) (canonical_channel_id (ma_channel_id a)) (ma_policy_id a)
    (ma_authority_set_hash a) (ma_subject_did a) (ma_role a) (ma_issued_at a) (ma_expires_at a)
    (ma_join_id a) (ma_signature a) (ma_issuer_did a).

Definition store_attestation (s : Store) (a : MembershipAttestation) : M unit :=
  let a := canonical_attestation a in
  let hash := hash_attestation a in
  if existsb (fun r => String.eqb (xr_id r) (ma_attestation_id a)) (membership_attestations s)
  then (Err (Database (UniqueViolation "membership_attestations.attestation_id")), s)
  else
    let s := set_attestations s (membership_attestations s
               ++ [mkAttestationRow (ma_attestation_id a) (ma_channel_id a) (ma_subject_did a)
                     (ma_issued_at a) (ma_expires_at a) a hash VALID]) in
    let entry := mkLogEntry 1 (ma_channel_id a) (ma_policy_id a) hash (ma_issued_at a) (ma_issuer_did a) in
    (Ok tt, set_log s (transparency_log s ++ [(log_seq s + 1, entry)]) (log_seq s + 1)).

Definition is_valid (r : AttestationRow) : bool :=
  match xr_state r with VALID => true | INVALID => false end.

Definition attestations_of (s : Store) (channel_id subject_did : string) : list AttestationRow :=
  List.filter (fun r => String.eqb (xr_channel r) channel_id && String.eqb (xr_subject r) subject_did
                        && is_valid r) (membership_attestations s).

Definition get_attestation (s : Store) (channel_id subject_did : string) : option MembershipAttestation :=
  xr_doc <$> head (order_by (fun x y => String.leb (xr_issued_at y) (xr_issued_at x))
                            (attestations_of s (canonical_channel_id channel_id) subject_did)).

Definition get_channel_members (s : Store) (channel_id : string) : list MembershipAttestation :=
  map xr_doc (order_by (fun x y => String.leb (xr_issued_at x) (xr_issued_at y))
    (List.filter (fun r => String.eqb (xr_channel r) (canonical_channel_id channel_id) && is_valid r)
                 (membership_attestations s))).

(** [expires_at IS NOT NULL AND expires_at < ?1], on text. *)
Definition past (now : string) (expires_at : option string) : bool :=
  match expires_at with Some e => String.ltb e now | None => false end.

Definition get_expired_attestations (s : Store) (now : Z) : list MembershipAttestation :=
  map xr_doc (List.filter (fun r => is_valid r && past (to_rfc3339 now) (xr_expires_at r))
                          (membership_attestations s)).

Definition invalidate_attestation (s : Store) (attestation_id : string) : M unit :=
  (Ok tt, set_attestations s
     (map (fun r => if String.eqb (xr_id r) attestation_id
                    then mkAttestationRow (xr_id r) (xr_channel r) (xr_subject r) (xr_issued_at r)
                           (xr_expires_at r) (xr_doc r) (xr_hash r) INVALID
                    else r) (membership_attestations s))).

(** *** Removal: the rows of four tables, and whether any went *)

Definition drop_channel {R} (key : R -> string) (c : string) (l : list R) : list R :=
  List.filter (fun r => negb (String.eqb (key r) c)) l.
Definition count_channel {R} (key : R -> string) (c : string) (l : list R) : Z :=
  Z.of_nat (List.length (List.filter (fun r => String.eqb (key r) c) l)).
Definition log_channel (e : Z * TransparencyLogEntry) : string := tl_channel_id e.2.

Definition remove_channel_policy (s : Store) (channel_id : string) : M bool :=
  let c := canonical_channel_id channel_id in
  let total := count_channel pr_channel c (policies s)
               + count_channel xr_channel c (membership_attestations s)
               + count_channel rr_channel c (join_receipts s)
               + count_channel log_channel c (transparency_log s) in
  (Ok (0 <? total),
   mkStore (drop_channel pr_channel c (policies s)) (authority_sets s) (rules_texts s)
     (drop_channel rr_channel c (join_receipts s))
     (drop_channel xr_channel c (membership_attestations s))
     (drop_channel log_channel c (transparency_log s)) (log_seq s) (credential_rows s)).

Definition list_policy_channels (s : Store) : list string :=
  List.nodup string_dec (map pr_channel (policies s)).

Definition get_log_entries (s : Store) (channel_id : string) (since : option Z) : list TransparencyLogEntry :=
  map snd (order_by (fun x y => x.1 <=? y.1)
    (List.filter (fun e => String.eqb (log_channel e) (canonical_channel_id channel_id)
                           && (default 0 since <? e.1)) (transparency_log s))).

(** *** Credentials: upsert on (subject, type, issuer) *)

Definition same_credential (subject ct iss : string) (r : CredentialRow) : bool :=
  String.eqb (cr_subject r) subject && String.eqb (sc_credential_type (cr_cred r)) ct
  && String.eqb (sc_issuer (cr_cred r)) iss.

Definition store_credential (s : Store) (subject ct iss metadata now : string) : M unit :=
  let fresh := mkCredentialRow subject (mkStored ct iss metadata now) false in
  (Ok tt, set_credentials s
     (if existsb (same_credential subject ct iss) (credential_rows s)
      then map (fun r => if same_credential subject ct iss r then fresh else r) (credential_rows s)
      else credential_rows s ++ [fresh])).

Definition get_credentials (s : Store) (subject : string) : list StoredCredential :=
  map cr_cred (List.filter (fun r => String.eqb (cr_subject r) subject && negb (cr_revoked r))
                           (credential_rows s)).

Definition revoke_credential (s : Store) (subject ct iss : string) : M bool :=
  (Ok (existsb (same_credential subject ct iss) (credential_rows s)),
   set_credentials s
     (map (fun r => if same_credential subject ct iss r
                    then mkCredentialRow (cr_subject r) (cr_cred r) true else r) (credential_rows s))).
End Store.

(** ** The store's invariant *)

Section Invariant.
Context {CF : CaseFold} {TR : @Trim CF} {SO : SqlOrder} {PE : PolicyEnv}.

Lemma canonical_idem c : canonical_channel_id (canonical_channel_id c) = canonical_channel_id c.
Proof. unfold canonical_channel_id. by rewrite trim_to_lowercase, to_lowercase_idem. Qed.

(** Version [i + 1] is the [i]-th document and names the one before it. *)
Definition chained (docs : list PolicyDocument) : Prop :=
  forall i d, docs !! i = Some d ->
    pd_version d = Z.of_nat i + 1
    /\ is_Some (pd_policy_id d)
    /\ pd_previous_policy_hash d
       = match i with O => None | S j => d' ← docs !! j; pd_policy_id d' end.

Lemma chained_nil : chained [].
Proof. by intros []. Qed.

Lemma chained_snoc docs d :
  chained docs -> pd_version d = Z.of_nat (List.length docs) + 1 -> is_Some (pd_policy_id d) ->
  pd_previous_policy_hash d = (d' ← last docs; pd_policy_id d') ->
  chained (docs ++ [d]).
Proof.
  intros Hc Hv Hi Hp i x Hx. apply lookup_app_Some in Hx as [Hx|[Hl Hx]].
  - destruct (Hc i x Hx) as (? & ? & Hprev). split_and!; [done..|]. rewrite Hprev.
    destruct i as [|j]; [done|]. apply lookup_lt_Some in Hx. by rewrite lookup_app_l by lia.
  - apply list_lookup_singleton_Some in Hx as [Hx <-].
    assert (i = List.length docs) as -> by lia. split_and!; [done..|]. rewrite Hp, last_lookup.
    destruct docs as [|d0 docs]; [done|]. simpl List.length. simpl Nat.pred.
    cbn iota. by rewrite lookup_app_l by (simpl; lia).
Qed.

Record row_ok (r : PolicyRow) : Prop := {
  row_channel : pr_channel r = pd_channel_id (pr_doc r);
  row_version : pr_version r = pd_version (pr_doc r);
  row_id : pd_policy_id (pr_doc r) = Some (pr_policy_id r);
  row_valid : validate_structure (pd_requirements (pr_doc r)) = Ok tt
}.

Definition policies_ok (s : Store) : Prop :=
  Forall row_ok (policies s)
  /\ forall c, chained (map pr_doc (rows_for s c)).

Lemma rows_for_ok s c : policies_ok s -> Forall row_ok (rows_for s c).
Proof.
  intros [H _]. rewrite Forall_forall in *. intros r Hr. apply H.
  apply list_elem_of_In, filter_In in Hr as [Hr _]. by apply list_elem_of_In.
Qed.

Lemma rows_increasing s c : policies_ok s -> increasing pr_version (rows_for s c).
Proof.
  intros H. apply indexed_increasing with 1. intros i r Hr.
  pose proof (rows_for_ok s c H) as HF. rewrite Forall_lookup in HF.
  rewrite (row_version _ (HF i r Hr)).
  destruct (proj2 H c i (pr_doc r)) as [-> _]; [|done].
  change (map pr_doc) with (fmap (M:=list) pr_doc). by rewrite list_lookup_fmap, Hr.
Qed.

(** The queries, in terms of the rows as they were inserted. *)
Lemma chain_of_rows s c :
  policies_ok s -> get_policy_chain s c = map pr_doc (rows_for s (canonical_channel_id c)).
Proof. intros H. unfold get_policy_chain. by rewrite order_by_asc by (by apply rows_increasing). Qed.

Lemma current_of_rows s c :
  policies_ok s -> get_current_policy s c = pr_doc <$> last (rows_for s (canonical_channel_id c)).
Proof.
  intros H. unfold get_current_policy. rewrite order_by_desc by (by apply rows_increasing).
  by rewrite head_rev.
Qed.

Lemma rows_for_snoc s r c :
  rows_for (set_policies s (policies s ++ [r])) c
  = rows_for s c ++ (if String.eqb (pr_channel r) c then [r] else []).
Proof. unfold rows_for. simpl. rewrite List.filter_app. simpl. by destruct (_ =? _)%string. Qed.
End Invariant.
