(* ===== verification/PolicyEngine.v ===== *)
(** * The policy engine

    Models [freeq-server/src/policy/engine.rs] over [PolicyStore]: authoring and
    chaining policy versions, the join flow, role evaluation, attestations and
    their expiry. The clock readings and random ids a call draws are arguments
    ([Draws]). *)

From stdpp Require Import base gmap strings list sorting.
From Stdlib Require Import ZArith Lia Ascii String.
From S2P Require Import Prelude PolicyEval PolicyStore.
Open Scope Z_scope.
Open Scope rust_scope.

Inductive JoinResult :=
| Confirmed (attestation : MembershipAttestation) (join_id : string)
| NoPolicy
| Pending (join_id : string) (missing : list string)
| JFailed (reason : string).

(** What one join draws: the clock at each reading, and three random ids. *)
Record Draws := mkDraws {
  dr_check_now : Z;
  dr_receipt_now : Z;
  dr_issue_now : Z;
  dr_join_id : string;
  dr_nonce : string;
  dr_attestation_id : string
}.

Definition hour_nanos : Z := 3600 * 10 ^ 9.

Section Engine.
Context {CF : CaseFold} {TR : @Trim CF} {SO : SqlOrder} {PE : PolicyEnv}.
Variables (authority_did signing_key : string).

(** [let x = op?;] on a store operation: an error keeps the store it left. *)
Definition bind {A B} (m : M A) (k : A -> Store -> M B) : M B :=
  match m with
  | (Ok x, s) => k x s
  | (Err e, s) => (Err e, s)
  end.

(** *** Channel setup *)

Fixpoint validate_roles (roles : list (string * Requirement)) : result unit PolicyError :=
  match roles with
  | [] => Ok tt
  | (role, req) :: rest =>
      match validate_structure req with
      | Err e => Err (Validation ("Role " +:+ role +:+ ": " +:+ e))
      | Ok _ => validate_roles rest
      end
  end.

Definition new_authority_set (channel_id : string) : AuthoritySet :=
  mkAuthoritySet None channel_id
    [mkSigner authority_did ("hmac-sha256:" +:+ sha256_hex signing_key) (Some "Primary authority") None]
    1 3600 (Some (mkTransparency "public" 86400)) None.

Definition create_channel_policy (s : Store) (now : Z) (channel_id : string) (requirements : Requirement)
    (role_requirements : gmap string Requirement) : M (PolicyDocument * AuthoritySet) :=
  let channel_id := canonical_channel_id channel_id in
  match validate_structure requirements with
  | Err e => (Err (Validation e), s)
  | Ok _ =>
  match validate_roles (btree_iter role_requirements) with
  | Err e => (Err e, s)
  | Ok _ =>
      bind (store_authority_set s (new_authority_set channel_id)) (fun auth_set s =>
      let auth_hash := default "" (as_hash auth_set) in
      bind (store_policy s
              (mkPolicy channel_id None 1 (to_rfc3339 now) None auth_hash requirements role_requirements
                 JoinTime Require_ [] None None ∅ None ∅)) (fun policy s =>
      (Ok (policy, auth_set), s)))
  end
  end.

(** The successor of [current] that both update operations store. *)
Definition next_version (current : PolicyDocument) (now : Z) (channel_id : string)
    (requirements : Requirement) (role_requirements : gmap string Requirement)
    (endpoints : gmap string CredentialEndpoint) : PolicyDocument :=
  mkPolicy channel_id None (pd_version current + 1) (to_rfc3339 now) (pd_policy_id current)
    (pd_authority_set_hash current) requirements role_requirements (pd_validity_model current)
    (pd_receipt_embedding current) (pd_policy_locations current) (pd_limits current)
    (pd_transparency current) endpoints (pd_agent_budget current) (pd_agent_budgets current).

Definition update_channel_policy (s : Store) (now : Z) (channel_id : string) (requirements : Requirement)
    (role_requirements : gmap string Requirement) : M PolicyDocument :=
  let channel_id := canonical_channel_id channel_id in
  match validate_structure requirements with
  | Err e => (Err (Validation e), s)
  | Ok _ =>
  match get_current_policy s channel_id with
  | None => (Err (Validation "No existing policy to update"), s)
  | Some current =>
      store_policy s (next_version current now channel_id requirements role_requirements
                        (pd_credential_endpoints current))
  end
  end.

Definition update_channel_policy_with_endpoints (s : Store) (now : Z) (channel_id : string)
    (requirements : Requirement) (role_requirements : gmap string Requirement)
    (credential_endpoints : gmap string CredentialEndpoint) : M PolicyDocument :=
  let channel_id := canonical_channel_id channel_id in
  match validate_structure requirements with
  | Err e => (Err (Validation e), s)
  | Ok _ =>
  match get_current_policy s channel_id with
  | None => (Err (Validation "No existing policy to update"), s)
  | Some current =>
      store_policy s (next_version current now channel_id requirements role_requirements
                        credential_endpoints)
  end
  end.

(** *** Join flow *)

(** The first satisfied role in [role_requirements.iter().rev()]. *)
Definition evaluate_role (policy : PolicyDocument) (evidence : UserEvidence) : string :=
  match List.find (fun nr => is_satisfied (evaluate evidence nr.2))
                  (rev (btree_iter (pd_role_requirements policy))) with
  | Some (role_name, _) => role_name
  | None => "member"
  end.

Definition unsigned (a : MembershipAttestation) (signature : string) : MembershipAttestation :=
  mkAttestation (ma_attestation_id a) (ma_channel_id a) (ma_policy_id a) (ma_authority_set_hash a)
    (ma_subject_did a) (ma_role a) (ma_issued_at a) (ma_expires_at a) (ma_join_id a) signature
    (ma_issuer_did a).

Definition issue_attestation (s : Store) (now : Z) (attestation_id : string)
    (channel_id policy_id authority_set_hash subject_did role : string) (join_id : option string)
    (validity_model : ValidityModel) : M MembershipAttestation :=
  let expires_at := match validity_model with
                    | Continuous => Some (to_rfc3339 (now + hour_nanos))
                    | JoinTime => None
                    end in
  let attestation := mkAttestation attestation_id channel_id policy_id authority_set_hash subject_did role
                       (to_rfc3339 now) expires_at join_id "" authority_did in
  let attestation := unsigned attestation (hmac_sign attestation signing_key) in
  bind (store_attestation s attestation) (fun _ s => (Ok attestation, s)).

(** The early returns for a user who already holds an attestation. *)
Definition still_valid (existing : MembershipAttestation) (policy_id : string) (now : Z) : bool :=
  String.eqb (ma_policy_id existing) policy_id
  && match ma_expires_at existing with
     | Some expires_at =>
         match parse_from_rfc3339 expires_at with
         | Some exp => now <? exp
         | None => false
         end
     | None => true
     end.

Definition embed (policy : PolicyDocument) : option PolicyDocument :=
  match pd_receipt_embedding policy with Require_ => Some policy | _ => None end.

Definition admit_member (s : Store) (dr : Draws) (channel_id subject_did policy_id : string)
    (policy : PolicyDocument) (evidence : UserEvidence) : M JoinResult :=
  let join_id := dr_join_id dr in
  bind (store_join_receipt s
          (mkReceipt channel_id policy_id join_id subject_did (to_rfc3339 (dr_receipt_now dr))
             (dr_nonce dr) (embed policy) "")) (fun _ s =>
  let role := evaluate_role policy evidence in
  bind (issue_attestation s (dr_issue_now dr) (dr_attestation_id dr) channel_id policy_id
          (pd_authority_set_hash policy) subject_did role (Some join_id)
          (pd_validity_model policy)) (fun attestation s =>
  bind (update_join_state s join_id JoinConfirmed) (fun _ s =>
  (Ok (Confirmed attestation join_id), s)))).

Definition process_join (s : Store) (dr : Draws) (channel_id subject_did : string)
    (evidence : UserEvidence) : M JoinResult :=
  let channel_id := canonical_channel_id channel_id in
  match get_current_policy s channel_id with
  | None => (Ok NoPolicy, s)
  | Some policy =>
      let policy_id := default "" (pd_policy_id policy) in
      let reevaluate :=
        match evaluate evidence (pd_requirements policy) with
        | Satisfied => admit_member s dr channel_id subject_did policy_id policy evidence
        | Failed reason => (Ok (JFailed reason), s)
        | Error err => (Ok (JFailed ("Evaluation error: " +:+ err)), s)
        end in
      match get_attestation s channel_id subject_did with
      | Some existing =>
          if still_valid existing policy_id (dr_check_now dr)
          then (Ok (Confirmed existing (default "" (ma_join_id existing))), s)
          else reevaluate
      | None => reevaluate
      end
  end.

(** *** Queries and maintenance *)

Definition check_membership (s : Store) (channel_id subject_did : string) : option MembershipAttestation :=
  get_attestation s (canonical_channel_id channel_id) subject_did.

Definition get_policy (s : Store) (channel_id : string) : option PolicyDocument :=
  get_current_policy s (canonical_channel_id channel_id).

(** [hmac_verify] recomputes the signature and compares. *)
Definition verify_attestation (a : MembershipAttestation) : bool :=
  String.eqb (hmac_sign (unsigned a "") signing_key) (ma_signature a).

Definition remove_policy (s : Store) (channel_id : string) : M bool := remove_channel_policy s channel_id.

Definition get_member_role (s : Store) (channel_id subject_did : string) : option string :=
  ma_role <$> get_attestation s channel_id subject_did.

Definition build_evidence (s : Store) (subject_did : string) (accepted : gset string) : UserEvidence :=
  mkEvidence accepted
    (map (fun c => mkCredential (sc_credential_type c) (sc_issuer c)) (get_credentials s subject_did)) ∅.

Fixpoint invalidate_all (s : Store) (expired : list MembershipAttestation) : Store :=
  match expired with
  | [] => s
  | att :: rest => invalidate_all (invalidate_attestation s (ma_attestation_id att)).2 rest
  end.

Definition revalidate_expired (s : Store) (now : Z) : M Z :=
  let expired := get_expired_attestations s now in
  (Ok (Z.of_nat (List.length expired)), invalidate_all s expired).
End Engine.

(** ** Running the engine *)

Section Run.
Context {CF : CaseFold} {TR : @Trim CF} {SO : SqlOrder} {PE : PolicyEnv}.
Variables (authority_did signing_key : string).

(** Every call that changes the store through the engine. *)
Inductive policy_op :=
| OpCreate (now : Z) (channel_id : string) (req : Requirement) (roles : gmap string Requirement)
| OpUpdate (now : Z) (channel_id : string) (req : Requirement) (roles : gmap string Requirement)
| OpUpdateEndpoints (now : Z) (channel_id : string) (req : Requirement)
    (roles : gmap string Requirement) (endpoints : gmap string CredentialEndpoint)
| OpJoin (dr : Draws) (channel_id subject_did : string) (evidence : UserEvidence)
| OpRemove (channel_id : string)
| OpRevalidate (now : Z)
| OpRulesText (hash text : string)
| OpStoreCredential (subject ct iss metadata now : string)
| OpRevokeCredential (subject ct iss : string).

Definition run_op (s : Store) (op : policy_op) : Store :=
  match op with
  | OpCreate now c req roles => (create_channel_policy authority_did signing_key s now c req roles).2
  | OpUpdate now c req roles => (update_channel_policy s now c req roles).2
  | OpUpdateEndpoints now c req roles eps =>
      (update_channel_policy_with_endpoints s now c req roles eps).2
  | OpJoin dr c did ev => (process_join authority_did signing_key s dr c did ev).2
  | OpRemove c => (remove_policy s c).2
  | OpRevalidate now => (revalidate_expired s now).2
  | OpRulesText h t => (store_rules_text s h t).2
  | OpStoreCredential a b c d e => (store_credential s a b c d e).2
  | OpRevokeCredential a b c => (revoke_credential s a b c).2
  end.

Definition run (ops : list policy_op) : Store := fold_left run_op ops empty_store.

(** ** Policies stay a chain *)

Lemma policies_ok_eq s s' : policies s' = policies s -> policies_ok s -> policies_ok s'.
Proof. unfold policies_ok, rows_for. by intros ->. Qed.

Definition follows (s : Store) (p : PolicyDocument) : Prop :=
  let rows := rows_for s (canonical_channel_id (pd_channel_id p)) in
  pd_version p = Z.of_nat (List.length rows) + 1
  /\ pd_previous_policy_hash p = (d ← last (map pr_doc rows); pd_policy_id d).

Lemma store_policy_ok s p :
  policies_ok s -> follows s p -> validate_structure (pd_requirements p) = Ok tt ->
  policies_ok (store_policy s p).2.
Proof.
  intros Hok [Hv Hp] Hr. unfold store_policy.
  destruct (existsb _ _); [done|]. destruct (existsb _ _); [done|]. cbn [snd].
  split.
  - apply Forall_app. split; [apply Hok|]. repeat constructor. done.
  - intros c. rewrite rows_for_snoc. simpl pr_channel.
    destruct (String.eqb_spec (canonical_channel_id (pd_channel_id p)) c) as [<-|];
      [|rewrite app_nil_r; apply Hok].
    rewrite map_app. simpl. apply chained_snoc; [apply Hok|by rewrite length_map|done|done].
Qed.

(** A first version is stored only where there is none. *)
Lemma store_first_ok s p :
  policies_ok s -> pd_version p = 1 -> pd_previous_policy_hash p = None ->
  validate_structure (pd_requirements p) = Ok tt ->
  policies_ok (store_policy s p).2.
Proof.
  intros Hok Hv Hp Hr.
  destruct (rows_for s (canonical_channel_id (pd_channel_id p))) as [|r rows] eqn:E.
  - apply store_policy_ok; [done| |done]. unfold follows. by rewrite E, Hv, Hp.
  - unfold store_policy. destruct (existsb _ _); [done|].
    replace (existsb _ (policies s)) with true; [done|]. symmetry. apply existsb_exists.
    exists r. assert (In r (rows_for s (canonical_channel_id (pd_channel_id p)))) as Hin
      by (rewrite E; by left).
    apply filter_In in Hin as [Hin Hc]. split; [done|]. apply andb_true_iff. split; [done|].
    pose proof (rows_for_ok s (canonical_channel_id (pd_channel_id p)) Hok) as HF.
    pose proof (proj2 Hok (canonical_channel_id (pd_channel_id p)) O) as Hch.
    rewrite E in HF, Hch. destruct (Hch _ eq_refl) as [Hv1 _]. apply Forall_cons in HF as [[] _].
    apply Z.eqb_eq. simpl. lia.
Qed.

Lemma next_version_follows s current now c req roles eps :
  policies_ok s -> get_current_policy s c = Some current -> canonical_channel_id c = c ->
  follows s (next_version current now c req roles eps).
Proof.
  intros Hok Hc Hcan. rewrite current_of_rows in Hc by done. unfold follows. simpl. rewrite Hcan in *.
  destruct (last (rows_for s c)) as [r|] eqn:El; [|done]. injection Hc as <-.
  apply last_Some in El as [rows E]. pose proof (proj2 Hok c (List.length rows) (pr_doc r)) as Hch.
  rewrite E, map_app in *. cbn [map] in *. rewrite last_snoc. split; [|done].
  destruct Hch as [-> _]; [|rewrite length_app; simpl; lia].
  rewrite lookup_app_r; rewrite length_map; [by rewrite Nat.sub_diag|done].
Qed.

Lemma store_authority_set_frame s a :
  let s' := (store_authority_set s a).2 in
  policies s' = policies s /\ membership_attestations s' = membership_attestations s
  /\ transparency_log s' = transparency_log s.
Proof. unfold store_authority_set. destruct (existsb _ _); done. Qed.

Lemma store_policy_frame s p :
  let s' := (store_policy s p).2 in
  incl (policies s) (policies s') /\ membership_attestations s' = membership_attestations s
  /\ transparency_log s' = transparency_log s.
Proof.
  unfold store_policy. destruct (existsb _ _); [split_and!; auto using incl_refl|].
  destruct (existsb _ _); split_and!; simpl; auto using incl_refl, incl_appl.
Qed.

(** Creating and updating only ever append to the policies. *)
Definition appends (s s' : Store) : Prop :=
  policies_ok s' /\ incl (policies s) (policies s')
  /\ membership_attestations s' = membership_attestations s
  /\ transparency_log s' = transparency_log s.

Lemma create_appends s now c req roles :
  policies_ok s -> appends s (create_channel_policy authority_did signing_key s now c req roles).2.
Proof.
  intros Hok. unfold create_channel_policy, appends.
  destruct (validate_structure req) as [[]|] eqn:Ev; [|auto using incl_refl].
  destruct (validate_roles _); [|auto using incl_refl].
  set (a := new_authority_set _ _ _).
  destruct (store_authority_set_frame s a) as (Hp & Ha & Hl).
  destruct (store_authority_set s a) as [[a'|e] s1] eqn:E; simpl in *;
    [|rewrite Hp; eauto using policies_ok_eq, incl_refl].
  set (p := mkPolicy _ _ _ _ _ _ _ _ _ _ _ _ _ _ _ _).
  destruct (store_policy_frame s1 p) as (Hp' & Ha' & Hl').
  assert (policies_ok (store_policy s1 p).2) as H1
    by (apply store_first_ok; eauto using policies_ok_eq).
  destruct (store_policy s1 p) as [[]]; simpl in *; rewrite <- Hp; split_and!; first [done|congruence].
Qed.

Lemma update_appends s now c req roles eps :
  policies_ok s -> appends s (update_channel_policy_with_endpoints s now c req roles eps).2.
Proof.
  intros Hok. unfold update_channel_policy_with_endpoints, appends.
  destruct (validate_structure req) as [[]|] eqn:Ev; [|auto using incl_refl].
  destruct (get_current_policy s (canonical_channel_id c)) as [cur|] eqn:Ec; [|auto using incl_refl].
  split; [|apply store_policy_frame].
  apply store_policy_ok; [done| |done]. apply next_version_follows; auto using canonical_idem.
Qed.

(** The plain update is the update with the endpoints kept. *)
Lemma update_is_with_endpoints s now c req roles :
  update_channel_policy s now c req roles
  = update_channel_policy_with_endpoints s now c req roles
      (default ∅ (pd_credential_endpoints <$> get_current_policy s (canonical_channel_id c))).
Proof.
  unfold update_channel_policy, update_channel_policy_with_endpoints.
  destruct (validate_structure req); [|done]. by destruct (get_current_policy _ _).
Qed.

(** ** Attestations stay signed, logged and tied to a stored policy *)

Definition row_of (a : MembershipAttestation) (st : RowState) : AttestationRow :=
  mkAttestationRow (ma_attestation_id a) (ma_channel_id a) (ma_subject_did a) (ma_issued_at a)
    (ma_expires_at a) a (hash_attestation a) st.

Definition entry_of (a : MembershipAttestation) : TransparencyLogEntry :=
  mkLogEntry 1 (ma_channel_id a) (ma_policy_id a) (hash_attestation a) (ma_issued_at a) (ma_issuer_did a).

Record attestation_ok (s : Store) (r : AttestationRow) : Prop := {
  att_row : r = row_of (xr_doc r) (xr_state r);
  att_signed : verify_attestation signing_key (xr_doc r) = true;
  att_policy : exists p, In p (policies s) /\ pr_policy_id p = ma_policy_id (xr_doc r)
                         /\ pr_channel p = ma_channel_id (xr_doc r);
  att_logged : exists n, In (n, entry_of (xr_doc r)) (transparency_log s)
}.

Definition attestations_ok (s : Store) : Prop :=
  Forall (attestation_ok s) (membership_attestations s)
  /\ List.NoDup (map xr_id (membership_attestations s)).

Definition engine_ok (s : Store) : Prop := policies_ok s /\ attestations_ok s.

Lemma attestation_ok_grow s s' r :
  incl (policies s) (policies s') -> incl (transparency_log s) (transparency_log s') ->
  attestation_ok s r -> attestation_ok s' r.
Proof.
  intros Hp Hl [H1 H2 (p & ? & ? & ?) (n & ?)]. split; eauto.
Qed.

Lemma appends_ok s s' : engine_ok s -> appends s s' -> engine_ok s'.
Proof.
  intros [_ [Ha Hn]] (Hp & Hi & Hm & Hl). split; [done|]. unfold attestations_ok. rewrite Hm.
  split; [|done]. eapply Forall_impl; [exact Ha|]. intros r Hr. eapply attestation_ok_grow; [done| |done].
  rewrite Hl. apply incl_refl.
Qed.

(** What a satisfied join issues. *)
Definition issued (dr : Draws) (channel_id subject_did policy_id : string) (policy : PolicyDocument)
    (evidence : UserEvidence) : MembershipAttestation :=
  let a := mkAttestation (dr_attestation_id dr) channel_id policy_id (pd_authority_set_hash policy)
             subject_did (evaluate_role policy evidence) (to_rfc3339 (dr_issue_now dr))
             (match pd_validity_model policy with
              | Continuous => Some (to_rfc3339 (dr_issue_now dr + hour_nanos))
              | JoinTime => None
              end) (Some (dr_join_id dr)) "" authority_did in
  unsigned a (hmac_sign a signing_key).

Lemma issued_verifies dr c did pid p ev :
  verify_attestation signing_key (issued dr c did pid p ev) = true.
Proof. apply String.eqb_refl. Qed.

Definition id_used (s : Store) (id : string) : bool :=
  existsb (fun r => String.eqb (xr_id r) id) (membership_attestations s).

Lemma canonical_attestation_id a :
  canonical_channel_id (ma_channel_id a) = ma_channel_id a -> canonical_attestation a = a.
Proof. destruct a. unfold canonical_attestation. simpl. by intros ->. Qed.

Lemma admit_member_spec s dr c did pid p ev :
  canonical_channel_id c = c ->
  let out := admit_member authority_did signing_key s dr c did pid p ev in
  let a := issued dr c did pid p ev in
  policies out.2 = policies s
  /\ if id_used s (dr_attestation_id dr)
     then out.1 = Err (Database (UniqueViolation "membership_attestations.attestation_id"))
          /\ membership_attestations out.2 = membership_attestations s
          /\ transparency_log out.2 = transparency_log s
     else out.1 = Ok (Confirmed a (dr_join_id dr))
          /\ membership_attestations out.2 = membership_attestations s ++ [row_of a VALID]
          /\ transparency_log out.2 = transparency_log s ++ [(log_seq s + 1, entry_of a)].
Proof.
  intros Hc. unfold admit_member, issue_attestation, store_attestation.
  rewrite canonical_attestation_id by done. fold (issued dr c did pid p ev).
  unfold id_used. cbn [store_join_receipt bind membership_attestations set_join_receipts].
  change (ma_attestation_id (unsigned _ _)) with (dr_attestation_id dr).
  by destruct (existsb _ _).
Qed.

(** The two ways past the policy lookup. *)
Definition holds_attestation (s : Store) (now : Z) (c did pid : string) (a : MembershipAttestation) : Prop :=
  get_attestation s c did = Some a /\ still_valid a pid now = true.

Lemma process_join_cases s dr c did ev p :
  get_current_policy s (canonical_channel_id c) = Some p ->
  let c' := canonical_channel_id c in let pid := default "" (pd_policy_id p) in
  let out := process_join authority_did signing_key s dr c did ev in
  (exists a, holds_attestation s (dr_check_now dr) c' did pid a
             /\ out = (Ok (Confirmed a (default "" (ma_join_id a))), s))
  \/ ((~ exists a, holds_attestation s (dr_check_now dr) c' did pid a)
      /\ out = match evaluate ev (pd_requirements p) with
               | Satisfied => admit_member authority_did signing_key s dr c' did pid p ev
               | Failed reason => (Ok (JFailed reason), s)
               | Error err => (Ok (JFailed ("Evaluation error: " +:+ err)), s)
               end).
Proof.
  intros Hp c' pid out. unfold out, process_join, holds_attestation. rewrite Hp.
  destruct (get_attestation s (canonical_channel_id c) did) as [a|] eqn:Ea.
  - destruct (still_valid a (default "" (pd_policy_id p)) (dr_check_now dr)) eqn:Es.
    + left. exists a. done.
    + right. split; [|done]. intros (x & Hx & Hs). unfold c', pid in *. congruence.
  - right. split; [|done]. intros (x & Hx & _). unfold c' in *. congruence.
Qed.

Lemma current_row s c p :
  policies_ok s -> get_current_policy s c = Some p ->
  exists r, In r (policies s) /\ pr_doc r = p /\ pr_channel r = canonical_channel_id c
            /\ pd_policy_id p = Some (pr_policy_id r)
            /\ validate_structure (pd_requirements p) = Ok tt.
Proof.
  intros Hok. rewrite current_of_rows by done. intros (r & Hr & ->)%fmap_Some.
  apply last_Some_elem_of, list_elem_of_In in Hr.
  pose proof (rows_for_ok s (canonical_channel_id c) Hok) as HF. rewrite Forall_forall in HF.
  destruct (HF r) as [? ? ? ?]; [by apply list_elem_of_In|].
  apply filter_In in Hr as [Hin Hc]. apply String.eqb_eq in Hc. eauto 10.
Qed.

Lemma id_unused_NoDup s a st :
  id_used s (ma_attestation_id a) = false -> List.NoDup (map xr_id (membership_attestations s)) ->
  List.NoDup (map xr_id (membership_attestations s ++ [row_of a st])).
Proof.
  intros Hu Hn. rewrite map_app. apply NoDup_ListNoDup, NoDup_app. rewrite !NoDup_ListNoDup.
  split_and!; [done| |constructor; [intros []|constructor]].
  intros x Hx ->%list_elem_of_singleton. apply list_elem_of_In, in_map_iff in Hx as (r & Hr & Hin).
  unfold id_used in Hu. rewrite existsb_false in Hu. apply Hu in Hin.
  simpl in Hr. rewrite Hr, String.eqb_refl in Hin. done.
Qed.

Lemma process_join_ok s dr c did ev :
  engine_ok s -> engine_ok (process_join authority_did signing_key s dr c did ev).2.
Proof.
  intros Hok. pose proof Hok as [Hp [Ha Hn]].
  destruct (get_current_policy s (canonical_channel_id c)) as [p|] eqn:Ec;
    [|unfold process_join; by rewrite Ec].
  destruct (process_join_cases s dr c did ev p Ec) as [(a & _ & ->)|[_ ->]]; [done|].
  destruct (evaluate ev (pd_requirements p)); [|done..].
  destruct (admit_member_spec s dr (canonical_channel_id c) did (default "" (pd_policy_id p)) p ev)
    as [Hpol Hout]; [apply canonical_idem|].
  set (out := admit_member _ _ _ _ _ _ _ _ _) in *. split; [by eapply policies_ok_eq|].
  destruct (id_used s (dr_attestation_id dr)) eqn:Eu; destruct Hout as (_ & Hm & Hl).
  - split; [|by rewrite Hm]. rewrite Hm. eapply Forall_impl; [exact Ha|]. intros r.
    apply attestation_ok_grow; rewrite ?Hpol, ?Hl; apply incl_refl.
  - split; rewrite Hm; [|by apply id_unused_NoDup]. apply Forall_app. split.
    + eapply Forall_impl; [exact Ha|]. intros r.
      apply attestation_ok_grow; rewrite ?Hpol, ?Hl; auto using incl_refl, incl_appl.
    + repeat constructor; [apply issued_verifies| |].
      * destruct (current_row s (canonical_channel_id c) p Hp Ec) as (r & Hr & _ & Hc & Hi & _).
        exists r. rewrite Hpol, Hc, Hi, canonical_idem. done.
      * eexists. rewrite Hl. apply in_app_iff. right. by left.
Qed.

(** ** Removal *)

Lemma rows_for_drop s c d :
  List.filter (fun r => String.eqb (pr_channel r) d) (drop_channel pr_channel c (policies s))
  = if String.eqb d c then [] else rows_for s d.
Proof.
  unfold rows_for, drop_channel. induction (policies s) as [|r l IH]; simpl; [by destruct (d =? c)%string|].
  destruct (String.eqb_spec (pr_channel r) c) as [->|]; simpl.
  - rewrite IH, (String.eqb_sym c d). by destruct (d =? c)%string.
  - rewrite IH. destruct (String.eqb_spec d c) as [->|]; [|done].
    by rewrite (proj2 (String.eqb_neq _ _)).
Qed.

Lemma NoDup_map_filter {A B} (f : A -> B) (q : A -> bool) l :
  List.NoDup (map f l) -> List.NoDup (map f (List.filter q l)).
Proof.
  induction l as [|x l IH]; simpl; [done|]. inversion_clear 1 as [|? ? Hx Hl].
  destruct (q x); simpl; auto. constructor; auto. rewrite in_map_iff in *.
  intros (y & Hy & Hin%filter_In). apply Hx. naive_solver.
Qed.

Lemma remove_ok s c : engine_ok s -> engine_ok (remove_policy s c).2.
Proof.
  intros [[Hr Hch] [Ha Hn]]. unfold remove_policy, remove_channel_policy. cbn [snd].
  set (d := canonical_channel_id c). split; split; simpl.
  - unfold drop_channel. rewrite Forall_forall in *. intros r Hin. apply Hr.
    apply list_elem_of_In, filter_In in Hin as [? _]. by apply list_elem_of_In.
  - intros e. unfold rows_for. simpl. rewrite rows_for_drop.
    destruct (e =? d)%string; [apply chained_nil|apply Hch].
  - rewrite Forall_forall in *. intros r Hin.
    apply list_elem_of_In, filter_In in Hin as [Hin Hc]. apply list_elem_of_In in Hin.
    destruct (Ha r Hin) as [H1 H2 (p & Hp & Hid & Hpc) (n & Hl)].
    rewrite H1 in Hc. simpl in Hc. split; [done|done| |]; simpl.
    + exists p. split; [|done]. apply filter_In. by rewrite Hpc.
    + exists n. apply filter_In. done.
  - by apply NoDup_map_filter.
Qed.

(** ** Expiry *)

Definition invalidated (r : AttestationRow) : AttestationRow :=
  mkAttestationRow (xr_id r) (xr_channel r) (xr_subject r) (xr_issued_at r) (xr_expires_at r)
    (xr_doc r) (xr_hash r) INVALID.

Lemma invalidate_all_spec s l :
  invalidate_all s l
  = set_attestations s
      (map (fun r => if existsb (fun a => String.eqb (xr_id r) (ma_attestation_id a)) l
                     then invalidated r else r) (membership_attestations s)).
Proof.
  revert s; induction l as [|a l IH]; intros s; simpl.
  - rewrite map_id. by destruct s.
  - rewrite IH. unfold set_attestations. simpl. rewrite map_map. f_equal. apply map_ext. intros r.
    destruct (String.eqb_spec (xr_id r) (ma_attestation_id a)); simpl; [|done].
    by destruct (existsb _ l).
Qed.

Lemma revalidate_spec s now :
  attestations_ok s ->
  (revalidate_expired s now).2
  = set_attestations s
      (map (fun r => if is_valid r && past (to_rfc3339 now) (xr_expires_at r) then invalidated r else r)
           (membership_attestations s)).
Proof.
  intros [Ha Hn]. unfold revalidate_expired. cbn [snd]. rewrite invalidate_all_spec. f_equal.
  apply map_ext_in. intros r Hin. unfold get_expired_attestations. rewrite existsb_map.
  set (ex := fun r => is_valid r && past (to_rfc3339 now) (xr_expires_at r)).
  fold (ex r). rewrite Forall_forall in Ha.
  destruct (existsb _ (List.filter ex _)) eqn:Ee; destruct (ex r) eqn:Er; try done; exfalso.
  - apply existsb_exists in Ee as (r' & [Hin' Hex]%filter_In & Hid). apply String.eqb_eq in Hid.
    destruct (Ha r') as [H1 _ _ _]; [by apply list_elem_of_In|].
    assert (xr_id r = xr_id r') as E by (rewrite H1; done).
    assert (r = r') as -> by (eapply NoDup_map_inj; eauto). congruence.
  - rewrite existsb_false in Ee. specialize (Ee r). rewrite filter_In in Ee.
    destruct (Ha r) as [H1 _ _ _]; [by apply list_elem_of_In|].
    assert (xr_id r = ma_attestation_id (xr_doc r)) as E by (rewrite H1; done).
    rewrite E, String.eqb_refl in Ee. by discriminate Ee.
Qed.

Lemma revalidate_ok s now : engine_ok s -> engine_ok (revalidate_expired s now).2.
Proof.
  intros [Hp Ha]. rewrite revalidate_spec by done. destruct Ha as [Ha Hn].
  split; [done|]. split; simpl.
  - apply Forall_map. eapply Forall_impl; [exact Ha|]. intros r [H1 H2 H3 H4].
    simpl. destruct (_ && _); split; auto. unfold invalidated. rewrite H1. done.
  - rewrite map_map. erewrite map_ext; [exact Hn|]. intros r. by destruct (_ && _).
Qed.

Lemma run_op_ok s op : engine_ok s -> engine_ok (run_op s op).
Proof.
  intros H. pose proof H as [Hp _].
  destruct op; simpl run_op.
  - eapply appends_ok, create_appends; eauto.
  - rewrite update_is_with_endpoints. eapply appends_ok, update_appends; eauto.
  - eapply appends_ok, update_appends; eauto.
  - by apply process_join_ok.
  - by apply remove_ok.
  - by apply revalidate_ok.
  - eapply appends_ok; [done|]. split_and!; auto using incl_refl.
  - eapply appends_ok; [done|]. split_and!; auto using incl_refl.
  - eapply appends_ok; [done|]. split_and!; auto using incl_refl.
Qed.

Lemma run_ok ops : engine_ok (run ops).
Proof.
  unfold run. assert (engine_ok empty_store) as H0.
  { split; split; [constructor|intros c; apply chained_nil|constructor|constructor]. }
  revert H0. generalize empty_store. induction ops as [|op ops IH]; intros s H; [done|].
  apply IH. by apply run_op_ok.
Qed.

(** A channel's policies are one hash chain. After any sequence of engine
    calls, for every spelling of every channel name: the stored versions are
    1, 2, .., n with no gap and no fork, each names the content hash of the one
    before it (the first names none), the current policy is the last of them,
    and every one carries a requirement the validator accepted. *)
Theorem policy_chain_invariant ops c :
  let s := run ops in
  chained (get_policy_chain s c)
  /\ get_policy s c = last (get_policy_chain s c)
  /\ Forall (fun d => validate_structure (pd_requirements d) = Ok tt) (get_policy_chain s c).
Proof.
  intros s. destruct (run_ok ops) as [Hp _]. fold s in Hp. unfold get_policy.
  rewrite chain_of_rows, current_of_rows, canonical_idem by done. split_and!.
  - apply Hp.
  - by rewrite <- fmap_last.
  - apply Forall_map. eapply Forall_impl; [by apply rows_for_ok|]. by intros r [].
Qed.

Lemma attestation_found s c did a :
  get_attestation s c did = Some a ->
  exists r, In r (membership_attestations s) /\ xr_doc r = a /\ xr_state r = VALID
            /\ xr_channel r = canonical_channel_id c /\ xr_subject r = did.
Proof.
  unfold get_attestation. intros (r & Hr & ->)%fmap_Some.
  apply head_Some_elem_of in Hr. rewrite order_by_perm in Hr.
  apply list_elem_of_In, filter_In in Hr as [Hin Hq]. unfold is_valid in Hq. exists r.
  destruct (xr_state r); bool_hyps; naive_solver.
Qed.

(** What a confirmed join stands for, after it. *)
Definition admitted (s s' : Store) (c did : string) (ev : UserEvidence) (p : PolicyDocument)
    (a : MembershipAttestation) : Prop :=
  pd_policy_id p = Some (ma_policy_id a)
  /\ ma_channel_id a = canonical_channel_id c /\ ma_subject_did a = did
  /\ verify_attestation signing_key a = true
  /\ (exists n, In (n, entry_of a) (transparency_log s'))
  /\ (holds ev (pd_requirements p) = true \/ (s' = s /\ check_membership s c did = Some a)).

(** C37: the join gate admits exactly those it should. On any store the engine
    built: a confirmed join yields an attestation for this user, this channel
    and the current policy version, whose signature verifies and which is in
    the transparency log, and either the presented evidence satisfies the
    current requirement or the user already held that very attestation; and a
    user without one whose evidence does not satisfy the requirement is refused
    with the store left as it was. *)
Theorem join_gate_sound ops dr c did ev :
  let s := run ops in
  let out := process_join authority_did signing_key s dr c did ev in
  (forall a j, out.1 = Ok (Confirmed a j) ->
     exists p, get_policy s c = Some p /\ admitted s out.2 c did ev p a)
  /\ (forall p, get_policy s c = Some p -> check_membership s c did = None ->
        holds ev (pd_requirements p) = false -> exists why, out = (Ok (JFailed why), s)).
Proof.
  intros s out. destruct (run_ok ops) as [Hp [Ha Hn]]. fold s in Hp, Ha, Hn.
  unfold get_policy, check_membership. split.
  - intros a j. unfold out.
    destruct (get_current_policy s (canonical_channel_id c)) as [p|] eqn:Ec;
      [|unfold process_join; by rewrite Ec].
    intros Ho. exists p. split; [done|].
    destruct (current_row s _ p Hp Ec) as (r & Hr & Hd & Hc & Hi & Hv). rewrite canonical_idem in Hc.
    destruct (process_join_cases s dr c did ev p Ec) as [(x & [Hx Hs] & Ho')|[Hno Ho']];
      rewrite Ho' in Ho |- *.
    + injection Ho as <- _. destruct (attestation_found _ _ _ _ Hx) as (q & Hq & <- & _ & Hqc & Hqd).
      rewrite Forall_forall in Ha. destruct (Ha q) as [H1 H2 _ H4]; [by apply list_elem_of_In|].
      rewrite canonical_idem in Hqc. rewrite H1 in Hqc, Hqd. simpl in Hqc, Hqd.
      unfold still_valid in Hs. bool_hyps. rewrite Hi in *. simpl in *.
      split_and!; try done; [by rewrite Hi, H|]. by right.
    + pose proof (evaluate_sound_lemma ev (pd_requirements p)) as Hev.
      destruct (evaluate ev (pd_requirements p)); [|done..].
      destruct (admit_member_spec s dr (canonical_channel_id c) did (default "" (pd_policy_id p)) p ev)
        as [_ Hout]; [apply canonical_idem|].
      destruct (id_used _ _); destruct Hout as (Hout & Hm & Hl); rewrite Hout in Ho; [done|].
      injection Ho as <- _. split_and!; try done.
      * simpl. by rewrite Hi.
      * apply issued_verifies.
      * eexists. rewrite Hl. apply in_app_iff. right. by left.
      * by left.
  - intros p Ec Hno Hf. unfold out.
    destruct (process_join_cases s dr c did ev p Ec) as [(x & [Hx _] & _)|[_ ->]]; [congruence|].
    destruct (current_row s _ p Hp Ec) as (_ & _ & _ & _ & _ & Hv).
    pose proof (validated_decides ev _ Hv) as Hdec. rewrite Hf in Hdec. destruct Hdec as [why ->]. eauto.
Qed.

(** ** Roles *)

Lemma find_rev_sorted {A} (q : string * A -> bool) l :
  StronglySorted key_le l ->
  match List.find q (rev l) with
  | Some x => In x l /\ q x = true /\ forall y, In y l -> q y = true -> key_le y x
  | None => forall y, In y l -> q y = false
  end.
Proof.
  induction 1 as [|a l _ IH HF]; simpl; [done|]. rewrite find_app_eq.
  destruct (List.find q (rev l)) as [x|] eqn:E.
  - destruct IH as (Hin & Hq & Hmax). split_and!; [by right|done|]. rewrite Forall_forall in HF.
    intros y [<-|Hy]; auto. intros _. apply HF. by apply list_elem_of_In.
  - simpl. destruct (q a) eqn:Ea.
    + split_and!; [by left|done|]. intros y [<-|Hy] Hqy; [|by rewrite IH in Hqy].
      unfold key_le. by destruct (total str_le a.1 a.1).
    + intros y [<-|Hy]; auto.
Qed.

(** The role a join confers. It is ["member"] if no role requirement is
    satisfied; otherwise it is a role whose requirement the evidence satisfies,
    the last such role in the order of role names. A role requirement whose
    evaluation hits a limit confers nothing. *)
Theorem evaluate_role_spec p ev :
  let satisfied r := exists req, pd_role_requirements p !! r = Some req /\ evaluate ev req = Satisfied in
  let role := evaluate_role p ev in
  (satisfied role /\ holds ev <$> pd_role_requirements p !! role = Some true
     /\ forall r, satisfied r -> str_le r role)
  \/ (role = "member" /\ forall r, ~ satisfied r).
Proof.
  intros satisfied role. unfold role, evaluate_role.
  pose proof (find_rev_sorted (fun nr => is_satisfied (evaluate ev nr.2)) _
                (btree_iter_sorted (pd_role_requirements p))) as H.
  assert (forall r, satisfied r ->
    exists req, In (r, req) (btree_iter (pd_role_requirements p)) /\ is_satisfied (evaluate ev req) = true)
    as Hsat by (intros r (req & Hr & He); exists req; by rewrite btree_iter_lookup, He).
  destruct (List.find _ _) as [[r req]|]; [left|right].
  - destruct H as (Hin & Hq & Hmax). rewrite btree_iter_lookup in Hin. simpl in Hq.
    destruct (evaluate ev req) eqn:E; try done.
    pose proof (evaluate_sound_lemma ev req) as Hs. rewrite E in Hs.
    split_and!; [by exists req|by rewrite Hin; simpl; f_equal|].
    intros r' (req' & Hr' & Hs')%Hsat. by apply (Hmax (r', req')).
  - split; [done|]. intros r (req & Hr & Hs)%Hsat. specialize (H (r, req) Hr). simpl in H. congruence.
Qed.

(** ** Removal *)

Lemma attestations_of_drop s c d did :
  attestations_of (remove_policy s c).2 d did
  = if String.eqb d (canonical_channel_id c) then [] else attestations_of s d did.
Proof.
  unfold attestations_of, remove_policy, remove_channel_policy, drop_channel. simpl.
  set (x := canonical_channel_id c).
  induction (membership_attestations s) as [|r l IH]; simpl; [by destruct (d =? x)%string|].
  destruct (String.eqb_spec (xr_channel r) x) as [->|Hne]; simpl.
  - rewrite IH, (String.eqb_sym x d). by destruct (d =? x)%string.
  - rewrite IH. destruct (String.eqb_spec d x) as [->|]; [|done].
    by rewrite (proj2 (String.eqb_neq _ _) Hne).
Qed.

Lemma order_by_nil {A} (le : A -> A -> bool) : order_by le [] = [].
Proof. apply Permutation_nil_r. apply order_by_perm. Qed.

(** Clearing a policy opens the channel and touches no other. On any store:
    afterwards, under every spelling of the name, the channel has no policy and
    no versions, nobody holds an attestation for it and a join needs none;
    every other channel's policy chain, current policy and memberships are what
    they were. *)
Theorem remove_policy_effect s c d did dr ev :
  let s' := (remove_policy s c).2 in
  (canonical_channel_id d = canonical_channel_id c ->
     get_policy s' d = None /\ get_policy_chain s' d = [] /\ check_membership s' d did = None
     /\ process_join authority_did signing_key s' dr d did ev = (Ok NoPolicy, s'))
  /\ (canonical_channel_id d <> canonical_channel_id c ->
     get_policy s' d = get_policy s d /\ get_policy_chain s' d = get_policy_chain s d
     /\ check_membership s' d did = check_membership s d did).
Proof.
  intros s'.
  assert (forall e, rows_for s' e = if String.eqb e (canonical_channel_id c) then [] else rows_for s e) as Hrows.
  { intros e. unfold s', rows_for. simpl. apply rows_for_drop. }
  assert (forall e, attestations_of s' e did
            = if String.eqb e (canonical_channel_id c) then [] else attestations_of s e did) as Hatts
    by (intros e; apply attestations_of_drop).
  clearbody s'.
  unfold process_join, get_policy, check_membership, get_current_policy, get_policy_chain, get_attestation.
  rewrite !canonical_idem, !Hrows, !Hatts. split.
  - intros ->. rewrite String.eqb_refl, !order_by_nil. done.
  - intros Hne. by rewrite (proj2 (String.eqb_neq _ _) Hne).
Qed.

(** ** A new version and the members of the old one *)

Lemma store_policy_Ok s p p' :
  (store_policy s p).1 = Ok p' ->
  exists r, (store_policy s p).2 = set_policies s (policies s ++ [r])
    /\ pr_doc r = p' /\ pr_channel r = canonical_channel_id (pd_channel_id p)
    /\ pd_policy_id p' = Some (pr_policy_id r) /\ pd_requirements p' = pd_requirements p
    /\ forall q, In q (policies s) -> pr_policy_id q <> pr_policy_id r.
Proof.
  unfold store_policy. cbv zeta.
  set (doc := with_policy_id (with_channel _ _) None). set (d := with_policy_id doc (Some (hash_policy doc))).
  destruct (existsb (fun r => String.eqb (pr_policy_id r) _) _) eqn:E1; [done|].
  destruct (existsb (fun r => _ && _) _); [done|]. cbn [fst snd]. intros [= <-].
  exists (mkPolicyRow (hash_policy doc) (pd_channel_id d) (pd_version d) d).
  split_and!; [done..|]. simpl. rewrite existsb_false in E1. intros q Hq. by apply String.eqb_neq, E1.
Qed.

Lemma update_Ok s now c req roles eps p' :
  (update_channel_policy_with_endpoints s now c req roles eps).1 = Ok p' ->
  exists r, (update_channel_policy_with_endpoints s now c req roles eps).2
            = set_policies s (policies s ++ [r])
    /\ pr_doc r = p' /\ pr_channel r = canonical_channel_id c
    /\ pd_policy_id p' = Some (pr_policy_id r) /\ pd_requirements p' = req
    /\ forall q, In q (policies s) -> pr_policy_id q <> pr_policy_id r.
Proof.
  unfold update_channel_policy_with_endpoints. destruct (validate_structure req); [|done].
  destruct (get_current_policy s _) as [cur|]; [|done]. intros H.
  apply store_policy_Ok in H. simpl in H. by rewrite canonical_idem in H.
Qed.

Lemma appended_current s r c :
  policies_ok (set_policies s (policies s ++ [r])) -> pr_channel r = canonical_channel_id c ->
  get_policy (set_policies s (policies s ++ [r])) c = Some (pr_doc r).
Proof.
  intros Hok Hc. unfold get_policy. rewrite current_of_rows, canonical_idem by done.
  by rewrite rows_for_snoc, Hc, String.eqb_refl, last_snoc.
Qed.

(** Publishing a new policy version leaves standing memberships alone. After
    a successful update, the membership query (the one the channel's JOIN
    consults) answers for every user what it answered before, attestations for
    superseded versions included; while the engine's own join flow honours none
    of them: it evaluates the new requirement afresh and refuses every user
    whose evidence does not satisfy it. *)
Theorem policy_update_keeps_membership ops now c req roles eps p' :
  let s := run ops in
  let out := update_channel_policy_with_endpoints s now c req roles eps in
  out.1 = Ok p' ->
  (forall did, check_membership out.2 c did = check_membership s c did)
  /\ (forall dr did ev, holds ev req = false ->
        exists why, process_join authority_did signing_key out.2 dr c did ev = (Ok (JFailed why), out.2)).
Proof.
  intros s out Ho. pose proof (run_ok ops) as Hok. fold s in Hok.
  assert (engine_ok out.2) as Hok' by (eapply appends_ok, update_appends; [done|apply Hok]).
  destruct (update_Ok _ _ _ _ _ _ _ Ho) as (r & Hs & Hd & Hc & Hi & Hr & Hnew).
  fold out in Hs. rewrite Hs in *. clearbody out. split; [done|].
  intros dr did ev Hf.
  pose proof (appended_current s r c (proj1 Hok') Hc) as Hcur. rewrite Hd in Hcur.
  destruct (process_join_cases _ dr c did ev p' Hcur) as [(a & [Ha Hv] & _)|[_ ->]].
  - exfalso. destruct (attestation_found _ _ _ _ Ha) as (q & Hq & <- & _).
    unfold still_valid in Hv. bool_hyps. rewrite Hi in *. simpl in *.
    destruct Hok as [_ [Hall _]]. rewrite Forall_forall in Hall.
    destruct (Hall q) as [_ _ (pr & Hin & Hid & _) _]; [by apply list_elem_of_In|].
    apply (Hnew pr Hin). congruence.
  - destruct (current_row _ _ p' (proj1 Hok') Hcur) as (_ & _ & _ & _ & _ & Hval).
    pose proof (validated_decides ev _ Hval) as Hdec. rewrite Hr, Hf in Hdec.
    rewrite Hr. destruct Hdec as [why ->]. eauto.
Qed.

(** ** Expiry *)

Lemma attestations_of_revalidated s now c did :
  attestations_ok s ->
  attestations_of (revalidate_expired s now).2 c did
  = List.filter (fun r => negb (past (to_rfc3339 now) (xr_expires_at r))) (attestations_of s c did).
Proof.
  intros H. rewrite revalidate_spec by done. unfold attestations_of. simpl. clear H.
  induction (membership_attestations s) as [|r l IH]; simpl; [done|].
  destruct (is_valid r) eqn:Ev, (past (to_rfc3339 now) (xr_expires_at r)) eqn:Ep; simpl;
    rewrite ?Ev, IH, ?andb_true_r, ?andb_false_r; try done;
    destruct (_ && _); simpl; by rewrite ?Ep.
Qed.

(** The expiry sweep ends exactly the memberships that ran out. On any store
    the engine built, the attestations valid after the sweep are those valid
    before it whose expiry is not past, the reported count is the number it
    ended, and no attestation whose expiry time lies before the sweep is
    answered by the membership query any more. *)
Theorem revalidate_expired_exact ops now c did :
  let s := run ops in
  let out := revalidate_expired s now in
  attestations_of out.2 c did
    = List.filter (fun r => negb (past (to_rfc3339 now) (xr_expires_at r))) (attestations_of s c did)
  /\ out.1 = Ok (Z.of_nat (List.length (get_expired_attestations s now)))
  /\ (forall a t, check_membership out.2 c did = Some a -> ma_expires_at a = Some (to_rfc3339 t) ->
        0 <= t -> now < last_nanos -> now <= t).
Proof.
  intros s out. destruct (run_ok ops) as [_ Ha]. fold s in Ha.
  pose proof (attestations_of_revalidated s now (canonical_channel_id c) did Ha) as Hcan.
  split; [by apply attestations_of_revalidated|]. split; [done|].
  intros a t Hq He Ht Hn. unfold check_membership, get_attestation in Hq.
  rewrite canonical_idem in Hq. unfold out in Hq. rewrite Hcan in Hq.
  apply fmap_Some in Hq as (r & Hr & ->). apply head_Some_elem_of in Hr. rewrite order_by_perm in Hr.
  apply list_elem_of_In, filter_In in Hr as [Hr Hp].
  apply filter_In in Hr as [Hin _]. destruct Ha as [Ha _]. rewrite Forall_forall in Ha.
  destruct (Ha r) as [H1 _ _ _]; [by apply list_elem_of_In|].
  rewrite H1 in Hp. simpl in Hp. rewrite He in Hp. simpl in Hp. apply negb_true_iff in Hp.
  destruct (Z.le_gt_cases now t) as [|Hlt]; [done|].
  pose proof (rfc3339_mono t now Ht Hlt Hn) as Hm. unfold str_lt in Hm.
  unfold String.ltb in Hp. by rewrite Hm in Hp.
Qed.
End Run.

(** ** A concrete environment *)

(** Times as 62 binary digits, most significant first. *)
Fixpoint bits (n : nat) (t : Z) : string :=
  match n with
  | O => ""
  | S m => if 2 ^ Z.of_nat m <=? t then String "1"%char (bits m (t - 2 ^ Z.of_nat m)) else String "0"%char (bits m t)
  end.

Fixpoint unbits (s : string) : Z :=
  match s with
  | EmptyString => 0
  | String c r => (if Ascii.eqb c "1"%char then 2 ^ Z.of_nat (String.length r) else 0) + unbits r
  end.

Lemma bits_length n t : String.length (bits n t) = n.
Proof. revert t; induction n as [|n IH]; intros t; simpl; [done|]. destruct (_ <=? _); simpl; by rewrite IH. Qed.

Lemma unbits_bits n t : 0 <= t < 2 ^ Z.of_nat n -> unbits (bits n t) = t.
Proof.
  revert t; induction n as [|n IH]; intros t H; [simpl in *; lia|].
  rewrite Nat2Z.inj_succ, Z.pow_succ_r in H by lia.
  cbn [bits]. destruct (2 ^ Z.of_nat n <=? t) eqn:E; bool_hyps; cbn [unbits].
  - rewrite bits_length, IH by lia. change (Ascii.eqb "1"%char "1"%char) with true. cbn iota. lia.
  - rewrite IH by lia. change (Ascii.eqb "0"%char "1"%char) with false. cbn iota. lia.
Qed.

Lemma bits_mono n t u : 0 <= t -> t < u -> u < 2 ^ Z.of_nat n -> str_lt (bits n t) (bits n u).
Proof.
  revert t u; induction n as [|n IH]; intros t u Ht Htu Hu; [simpl in *; lia|].
  rewrite Nat2Z.inj_succ, Z.pow_succ_r in Hu by lia. cbn [bits].
  destruct (2 ^ Z.of_nat n <=? t) eqn:Et, (2 ^ Z.of_nat n <=? u) eqn:Eu; bool_hyps; try lia.
  - apply str_lt_cons_eq, IH; lia.
  - by apply str_lt_cons_lt.
  - apply str_lt_cons_eq, IH; lia.
Qed.

Definition sample_env : PolicyEnv := {|
  hash_policy := fun d => pd_channel_id d +:+ ":" +:+ bits 8 (pd_version d);
  hash_authority_set := fun a => "set:" +:+ as_channel_id a;
  hash_attestation := fun a => "att:" +:+ ma_attestation_id a;
  hmac_sign := fun a k => k +:+ ma_attestation_id a;
  sha256_hex := fun s => s;
  to_rfc3339 := bits 62;
  parse_from_rfc3339 := fun s => Some (unbits s);
  rfc3339_reads_back := fun t H => f_equal Some (unbits_bits 62 t H);
  rfc3339_mono := bits_mono 62
|}.

(** Rules v1 are accepted by a user; then the channel moves to rules v2. *)
Definition sample_history : list policy_op :=
  [ OpCreate 10 "#Lobby" (Accept "rules-v1") ∅;
    OpJoin (mkDraws 20 20 20 "join-1" "nonce-1" "att-1") "#lobby" "did:plc:u"
      (mkEvidence {["rules-v1"]} [] ∅) ].

Definition sample_policy_v2 : PolicyDocument :=
  mkPolicy "#lobby" (Some "#lobby:00000010") 2 (bits 62 30) (Some "#lobby:00000001") "set:#lobby"
    (Accept "rules-v2") ∅ JoinTime Require_ [] None None ∅ None ∅.

#[local] Existing Instances ascii_fold ascii_trimming merge_order sample_env.

Lemma policy_update_keeps_membership_witness :
  let s := run "did:web:s" "k" sample_history in
  let out := update_channel_policy_with_endpoints s 30 "#LOBBY" (Accept "rules-v2") ∅ ∅ in
  (forall did, check_membership out.2 "#LOBBY" did = check_membership s "#LOBBY" did)
  /\ (forall dr did ev, holds ev (Accept "rules-v2") = false ->
        exists why, process_join "did:web:s" "k" out.2 dr "#LOBBY" did ev = (Ok (JFailed why), out.2)).
Proof.
  pose proof (policy_update_keeps_membership "did:web:s" "k" sample_history 30 "#LOBBY"
                (Accept "rules-v2") ∅ ∅ sample_policy_v2) as H.
  cbv zeta in H |- *. apply H. vm_compute. reflexivity.
Defined.

(** The member admitted under v1 still passes the membership query under v2. *)
Example stale_member_passes_gate :
  let s := run "did:web:s" "k"
             (sample_history ++ [OpUpdateEndpoints 30 "#lobby" (Accept "rules-v2") ∅ ∅]) in
  pd_policy_id <$> get_policy s "#lobby" = Some (Some "#lobby:00000010")
  /\ ma_policy_id <$> check_membership s "#lobby" "did:plc:u" = Some "#lobby:00000001".
Proof. vm_compute. done. Qed.
