(* ===== verification/AvSession.v ===== *)
(** * Voice and video sessions

    Models [freeq-server/src/av.rs]: the [AvSessionManager] that keeps every
    session and the index from a channel to its active session, under the local
    operations (create, join, leave, end), the federated ones and the sweeps.
    The clock and the new session's id are arguments; iteration over a
    [HashMap] follows [HashOrder]. *)

From stdpp Require Import base gmap strings list fin_maps.
From Stdlib Require Import ZArith Lia String.
From S2P Require Import Prelude.
Open Scope Z_scope.
Open Scope rust_scope.

Inductive AvSessionState :=
| Active
| Ended (ended_at : Z) (ended_by : option string).

Inductive ParticipantRole := Host | Speaker | Listener.
Inductive TrackKind := Audio | Video | Screen.
Record TrackInfo := mkTrack { tk_kind : TrackKind; tk_muted : bool }.
Inductive MediaBackendType := IrohLive.

Record AvParticipant := mkParticipant {
  p_did : string;
  p_nick : string;
  p_joined_at : Z;
  p_left_at : option Z;
  p_role : ParticipantRole;
  p_tracks : list TrackInfo;
  p_instance_id : option string
}.

Record AvSession := mkSession {
  s_id : string;
  s_channel : option string;
  s_created_by : string;
  s_created_by_nick : string;
  s_created_at : Z;
  s_state : AvSessionState;
  s_participants : gmap string AvParticipant;
  s_title : option string;
  s_iroh_ticket : option string;
  s_media_backend : MediaBackendType;
  s_recording_enabled : bool;
  s_max_participants : option Z
}.

Definition participant_key (did : string) (instance_id : option string) : string :=
  match instance_id with
  | Some iid => if is_empty iid then did else did +:+ "#" +:+ iid
  | None => did
  end.

Definition av_disconnect_deferred (is_did_user is_last_session : bool) : bool :=
  is_did_user && is_last_session.

Definition should_auto_end (active_count age_secs : Z) (any_slot_claimed : bool) : bool :=
  if active_count =? 0 then true else (7200 <? age_secs) && negb any_slot_claimed.

Definition instance_claimed_by_live_conn (per_conn : gmap string (gset string)) (instance : string) : bool :=
  existsb (fun kv : string * gset string => bool_decide (instance ∈ kv.2)) (map_to_list per_conn).

Record AvSessionManager := mkManager {
  sessions : gmap string AvSession;
  channel_sessions : gmap string string
}.

Definition new_manager : AvSessionManager := mkManager ∅ ∅.

Definition is_active (s : AvSession) : bool :=
  match s_state s with Active => true | Ended _ _ => false end.

Definition present (p : AvParticipant) : bool :=
  match p_left_at p with None => true | Some _ => false end.

(** [participants.values().filter(|p| p.left_at.is_none()).count()] *)
Definition active_count (s : AvSession) : Z :=
  Z.of_nat (List.length (List.filter (fun kv => present kv.2) (map_to_list (s_participants s)))).

Definition with_participants (s : AvSession) (ps : gmap string AvParticipant) : AvSession :=
  mkSession (s_id s) (s_channel s) (s_created_by s) (s_created_by_nick s) (s_created_at s) (s_state s)
    ps (s_title s) (s_iroh_ticket s) (s_media_backend s) (s_recording_enabled s) (s_max_participants s).
Definition with_state (s : AvSession) (st : AvSessionState) : AvSession :=
  mkSession (s_id s) (s_channel s) (s_created_by s) (s_created_by_nick s) (s_created_at s) st
    (s_participants s) (s_title s) (s_iroh_ticket s) (s_media_backend s) (s_recording_enabled s)
    (s_max_participants s).
Definition gone (now : Z) (p : AvParticipant) : AvParticipant :=
  mkParticipant (p_did p) (p_nick p) (p_joined_at p) (Some now) (p_role p) (p_tracks p) (p_instance_id p).
Definition rejoined (now : Z) (nick : string) (p : AvParticipant) : AvParticipant :=
  mkParticipant (p_did p) nick now None (p_role p) (p_tracks p) (p_instance_id p).

Section Manager.
Context {CF : CaseFold} {HO : HashOrder}.

Definition set_session (m : AvSessionManager) (id : string) (s : AvSession) : AvSessionManager :=
  mkManager (<[id := s]> (sessions m)) (channel_sessions m).

Definition end_session_inner (m : AvSessionManager) (now : Z) (session_id : string)
    (ended_by : option string) : AvSessionManager :=
  match sessions m !! session_id with
  | None => m
  | Some s =>
      let s' := with_participants (with_state s (Ended now ended_by))
                  ((fun p => if present p then gone now p else p) <$> s_participants s) in
      mkManager (<[session_id := s']> (sessions m))
        (match s_channel s with
         | Some ch => delete (to_lowercase ch) (channel_sessions m)
         | None => channel_sessions m
         end)
  end.

(** The guard of [create_session]: an occupied channel refuses, a channel whose
    session everyone left is freed first. *)
Definition free_channel (m : AvSessionManager) (now : Z) (channel : option string) (creator_did : string)
    : result AvSessionManager string :=
  match channel with
  | None => Ok m
  | Some ch =>
      match channel_sessions m !! to_lowercase ch with
      | None => Ok m
      | Some existing_id =>
          match sessions m !! existing_id with
          | Some existing =>
              if is_active existing then
                if 0 <? active_count existing
                then Err ("Channel " +:+ ch +:+ " already has an active session: " +:+ existing_id)
                else Ok (end_session_inner m now existing_id (Some creator_did))
              else Ok m
          | None => Ok m
          end
      end
  end.

(** The session both kinds of creation start from. *)
Definition opened (id : string) (channel : option string) (did nick : string) (key : string)
    (instance title iroh_ticket : option string) (now : Z) : AvSession :=
  mkSession id channel did nick now Active
    {[ key := mkParticipant did nick now None Host [] instance ]}
    title iroh_ticket IrohLive false None.

Definition index_channel (m : AvSessionManager) (channel : option string) (id : string) : gmap string string :=
  match channel with
  | Some ch => <[to_lowercase ch := id]> (channel_sessions m)
  | None => channel_sessions m
  end.

Definition create_session (m : AvSessionManager) (now : Z) (id : string) (channel : option string)
    (creator_did creator_nick : string) (title creator_instance_id : option string)
    : result AvSession string * AvSessionManager :=
  match free_channel m now channel creator_did with
  | Err e => (Err e, m)
  | Ok m =>
      let session := opened id channel creator_did creator_nick
                       (participant_key creator_did creator_instance_id) creator_instance_id title None now in
      (Ok session, mkManager (<[id := session]> (sessions m)) (index_channel m channel id))
  end.

Definition full (s : AvSession) : bool :=
  match s_max_participants s with Some max => max <=? active_count s | None => false end.

Definition join_session (m : AvSessionManager) (now : Z) (session_id did nick : string)
    (instance_id : option string) : result AvSession string * AvSessionManager :=
  match sessions m !! session_id with
  | None => (Err ("Session " +:+ session_id +:+ " not found"), m)
  | Some s =>
      if negb (is_active s) then (Err "Session has ended"%string, m)
      else if full s then (Err "Session is full"%string, m)
      else
        let key := participant_key did instance_id in
        let p := match s_participants s !! key with
                 | Some p => rejoined now nick p
                 | None => mkParticipant did nick now None Speaker [] instance_id
                 end in
        let s' := with_participants s (<[key := p]> (s_participants s)) in
        (Ok s', set_session m session_id s')
  end.

(** Which slot a leave marks: the exact one, else the bare DID's. *)
Definition mark_left (s : AvSession) (now : Z) (did : string) (instance_id : option string) : AvSession :=
  let key := participant_key did instance_id in
  match s_participants s !! key with
  | Some p => with_participants s (<[key := gone now p]> (s_participants s))
  | None =>
      match instance_id with
      | Some _ =>
          match s_participants s !! did with
          | Some p => with_participants s (<[did := gone now p]> (s_participants s))
          | None => s
          end
      | None => s
      end
  end.

Definition leave_session (m : AvSessionManager) (now : Z) (session_id did : string)
    (instance_id : option string) : result (AvSession * bool) string * AvSessionManager :=
  match sessions m !! session_id with
  | None => (Err ("Session " +:+ session_id +:+ " not found"), m)
  | Some s =>
      let s' := mark_left s now did instance_id in
      let m := set_session m session_id s' in
      let should_end := active_count s' =? 0 in
      let m := if should_end then end_session_inner m now session_id (Some did) else m in
      match sessions m !! session_id with
      | Some session => (Ok (session, should_end), m)
      | None => (Err "unreachable: the session was just written"%string, m)
      end
  end.

Definition end_session (m : AvSessionManager) (now : Z) (session_id : string) (ended_by : option string)
    : result AvSession string * AvSessionManager :=
  let m := end_session_inner m now session_id ended_by in
  (ok_or (sessions m !! session_id) ("Session " +:+ session_id +:+ " not found"), m).

Definition active_session_for_channel (m : AvSessionManager) (channel : string) : option AvSession :=
  id ← channel_sessions m !! to_lowercase channel;
  s ← sessions m !! id;
  if is_active s then Some s else None.

Definition active_sessions (m : AvSessionManager) : list AvSession :=
  List.filter is_active (map snd (hash_iter (sessions m))).

Definition active_participant_count (m : AvSessionManager) (session_id : string) : Z :=
  default 0 (active_count <$> sessions m !! session_id).

Definition is_host (p : AvParticipant) : bool :=
  match p_role p with Host => true | _ => false end.

Definition can_end_session (m : AvSessionManager) (session_id did : string) : bool :=
  match sessions m !! session_id with
  | Some s => String.eqb (s_created_by s) did
              || default false (is_host <$> s_participants s !! did)
  | None => false
  end.

(** *** Events from federated peers *)

Definition apply_remote_session_created (m : AvSessionManager) (id : string) (channel : option string)
    (did nick : string) (title iroh_ticket : option string) (created_at : Z) : AvSessionManager :=
  match sessions m !! id with
  | Some _ => m
  | None => mkManager (<[id := opened id channel did nick did None title iroh_ticket created_at]> (sessions m))
              (index_channel m channel id)
  end.

Definition apply_remote_session_joined (m : AvSessionManager) (now : Z) (session_id did nick : string)
    : AvSessionManager :=
  match sessions m !! session_id with
  | None => m
  | Some s =>
      let p := match s_participants s !! did with
               | Some p => rejoined now (p_nick p) p
               | None => mkParticipant did nick now None Speaker [] None
               end in
      set_session m session_id (with_participants s (<[did := p]> (s_participants s)))
  end.

Definition apply_remote_session_left (m : AvSessionManager) (now : Z) (session_id did : string)
    : AvSessionManager :=
  match sessions m !! session_id with
  | None => m
  | Some s =>
      set_session m session_id (with_participants s
        (map_imap (fun key p =>
           Some (if present p && (String.eqb key did || String.eqb (p_did p) did) then gone now p else p))
           (s_participants s)))
  end.

Definition apply_remote_session_ended (m : AvSessionManager) (now : Z) (session_id : string)
    (ended_by : option string) : AvSessionManager := end_session_inner m now session_id ended_by.

(** *** Sweeps over every session *)

Definition Left := (string * option string * string * bool)%type.

(** What the loops do with one session in which a slot was marked left: end it
    if nobody remains, and report it. *)
Definition settle (m : AvSessionManager) (now : Z) (session_id did nick : string) (s' : AvSession)
    : AvSessionManager * Left :=
  let m := set_session m session_id s' in
  let should_end := active_count s' =? 0 in
  let m := if should_end then end_session_inner m now session_id (Some did) else m in
  (m, (session_id, s_channel s', nick, should_end)).

(** One round of [leave_for_did_instance]. *)
Definition leave_one_instance (now : Z) (did key : string) (acc : AvSessionManager * list Left)
    (session_id : string) : AvSessionManager * list Left :=
  let '(m, results) := acc in
  match sessions m !! session_id with
  | None => acc
  | Some s =>
      if negb (is_active s) then acc
      else match s_participants s !! key with
           | Some p =>
               if present p then
                 let '(m', r) := settle m now session_id did (p_nick p)
                                   (with_participants s (<[key := gone now p]> (s_participants s))) in
                 (m', results ++ [r])
               else acc
           | None => acc
           end
  end.

Definition leave_for_did_instance (m : AvSessionManager) (now : Z) (did : string)
    (instance_id : option string) : AvSessionManager * list Left :=
  fold_left (leave_one_instance now did (participant_key did instance_id))
            (map fst (hash_iter (sessions m))) (m, []).

(** One round of [leave_all_for_did]; the nick is that of the first slot. *)
Definition leave_one_did (now : Z) (did : string) (acc : AvSessionManager * list Left)
    (session_id : string) : AvSessionManager * list Left :=
  let '(m, results) := acc in
  match sessions m !! session_id with
  | None => acc
  | Some s =>
      if negb (is_active s) then acc
      else
        let theirs p := String.eqb (p_did p) did && present p in
        let nicks := List.filter (fun n => negb (is_empty n))
                       (map (fun kv => p_nick kv.2)
                            (List.filter (fun kv => theirs kv.2) (hash_iter (s_participants s)))) in
        if existsb (fun kv => theirs kv.2) (map_to_list (s_participants s)) then
          let '(m', r) := settle m now session_id did (default ""%string (head nicks))
                            (with_participants s
                               ((fun p => if theirs p then gone now p else p) <$> s_participants s)) in
          (m', results ++ [r])
        else acc
  end.

Definition leave_all_for_did (m : AvSessionManager) (now : Z) (did : string)
    : AvSessionManager * list Left :=
  fold_left (leave_one_did now did) (map fst (hash_iter (sessions m))) (m, []).

(** A slot nobody stands behind. *)
Definition orphan (live : list (string * option string)) (grace_pending : gset string)
    (p : AvParticipant) : bool :=
  match p_instance_id p with
  | Some inst => negb (existsb (fun l => match l.2 with Some i => String.eqb i inst | None => false end) live)
                 && negb (bool_decide (inst ∈ grace_pending))
  | None => negb (existsb (fun l => String.eqb l.1 (p_did p)
                                    && match l.2 with None => true | Some _ => false end) live)
  end.

Definition reap_orphan_slots (m : AvSessionManager) (now : Z) (session_id : string)
    (live : list (string * option string)) (grace_pending : gset string)
    : list string * AvSessionManager :=
  match sessions m !! session_id with
  | None => ([], m)
  | Some s =>
      if negb (is_active s) then ([], m)
      else
        let goes p := present p && orphan live grace_pending p in
        let reaped := omap (fun kv => if goes kv.2 then p_instance_id kv.2 else None)
                           (hash_iter (s_participants s)) in
        (reaped, set_session m session_id (with_participants s
           ((fun p => if goes p then gone now p else p) <$> s_participants s)))
  end.

Definition active_instances (m : AvSessionManager) (session_id : string) : list string :=
  match sessions m !! session_id with
  | Some s => omap (fun kv => if present kv.2 then p_instance_id kv.2 else None)
                   (hash_iter (s_participants s))
  | None => []
  end.

Definition retained (now max_age_secs : Z) (s : AvSession) : bool :=
  match s_state s with
  | Active => true
  | Ended ended_at _ => now - ended_at <? max_age_secs
  end.

Definition prune_ended (m : AvSessionManager) (now max_age_secs : Z) : AvSessionManager :=
  mkManager
    (filter (fun kv => retained now max_age_secs kv.2 = true) (sessions m))
    (channel_sessions m).
End Manager.

(** ** Histories *)

Section Histories.
Context {CF : CaseFold} {HO : HashOrder}.

Inductive av_op :=
| AvCreate (now : Z) (id : string) (channel : option string) (did nick : string)
    (title instance : option string)
| AvJoin (now : Z) (session_id did nick : string) (instance : option string)
| AvLeave (now : Z) (session_id did : string) (instance : option string)
| AvEnd (now : Z) (session_id : string) (ended_by : option string)
| AvRemoteCreated (id : string) (channel : option string) (did nick : string)
    (title ticket : option string) (created_at : Z)
| AvRemoteJoined (now : Z) (session_id did nick : string)
| AvRemoteLeft (now : Z) (session_id did : string)
| AvRemoteEnded (now : Z) (session_id : string) (ended_by : option string)
| AvLeaveInstance (now : Z) (did : string) (instance : option string)
| AvLeaveAll (now : Z) (did : string)
| AvReap (now : Z) (session_id : string) (live : list (string * option string)) (grace : gset string)
| AvPrune (now max_age_secs : Z).

Definition av_apply (m : AvSessionManager) (op : av_op) : AvSessionManager :=
  match op with
  | AvCreate now id ch did nick title inst => (create_session m now id ch did nick title inst).2
  | AvJoin now sid did nick inst => (join_session m now sid did nick inst).2
  | AvLeave now sid did inst => (leave_session m now sid did inst).2
  | AvEnd now sid by_ => (end_session m now sid by_).2
  | AvRemoteCreated id ch did nick title ticket at_ =>
      apply_remote_session_created m id ch did nick title ticket at_
  | AvRemoteJoined now sid did nick => apply_remote_session_joined m now sid did nick
  | AvRemoteLeft now sid did => apply_remote_session_left m now sid did
  | AvRemoteEnded now sid by_ => apply_remote_session_ended m now sid by_
  | AvLeaveInstance now did inst => (leave_for_did_instance m now did inst).1
  | AvLeaveAll now did => (leave_all_for_did m now did).1
  | AvReap now sid live grace => (reap_orphan_slots m now sid live grace).2
  | AvPrune now age => prune_ended m now age
  end.

(** A new session's id is a ULID nobody has. *)
Definition fresh_id (m : AvSessionManager) (op : av_op) : Prop :=
  match op with AvCreate _ id _ _ _ _ _ => sessions m !! id = None | _ => True end.

(** Operations as the channel's own server issues them when nobody acts on a
    session that has already ended, and no peer opens a second one. *)
Definition orderly (m : AvSessionManager) (op : av_op) : Prop :=
  let not_ended sid := forall s, sessions m !! sid = Some s -> is_active s = true in
  match op with
  | AvLeave _ sid _ _ | AvEnd _ sid _ | AvRemoteEnded _ sid _ | AvRemoteJoined _ sid _ _ => not_ended sid
  | AvRemoteCreated _ (Some ch) _ _ _ _ _ => channel_sessions m !! to_lowercase ch = None
  | _ => True
  end.

Inductive av_reachable (rule : AvSessionManager -> av_op -> Prop) : AvSessionManager -> Prop :=
| av_start : av_reachable rule new_manager
| av_next m op : av_reachable rule m -> fresh_id m op -> rule m op -> av_reachable rule (av_apply m op).

(** ** The channel index is sound *)

Definition on_channel (s : AvSession) (c : string) : Prop := to_lowercase <$> s_channel s = Some c.

Definition index_sound (m : AvSessionManager) : Prop :=
  forall c id, channel_sessions m !! c = Some id ->
    exists s, sessions m !! id = Some s /\ is_active s = true /\ on_channel s c.

(** Same session, different roster. *)
Definition same_call (s s' : AvSession) : Prop :=
  s_channel s' = s_channel s /\ s_state s' = s_state s.

Lemma set_session_sound m id s s' :
  sessions m !! id = Some s -> same_call s s' -> index_sound m -> index_sound (set_session m id s').
Proof.
  intros Hs [Hc Hst] H c i Hi. destruct (H c i Hi) as (x & Hx & Ha & Hch). simpl.
  destruct (decide (i = id)) as [->|].
  - rewrite lookup_insert_eq. exists s'. unfold is_active, on_channel in *. rewrite Hc, Hst. naive_solver.
  - rewrite lookup_insert_ne by done. eauto.
Qed.

Lemma end_inner_sound m now id by_ : index_sound m -> index_sound (end_session_inner m now id by_).
Proof.
  intros H c i. unfold end_session_inner. destruct (sessions m !! id) as [s|] eqn:Es; [|apply H].
  simpl. intros Hi.
  assert (channel_sessions m !! c = Some i /\ (forall ch, s_channel s = Some ch -> c <> to_lowercase ch))
    as [Hi' Hne].
  { destruct (s_channel s); [|naive_solver].
    apply lookup_delete_Some in Hi as [? ?]. naive_solver. }
  destruct (H c i Hi') as (x & Hx & Ha & Hch).
  destruct (decide (i = id)) as [->|]; [|rewrite lookup_insert_ne by done; eauto].
  rewrite Es in Hx. injection Hx as <-. unfold on_channel in Hch.
  destruct (s_channel s) as [ch|]; [|done]. injection Hch as <-. by destruct (Hne ch).
Qed.

Lemma index_new_sound m id ch s :
  index_sound m -> sessions m !! id = None -> is_active s = true -> s_channel s = ch ->
  index_sound (mkManager (<[id := s]> (sessions m)) (index_channel m ch id)).
Proof.
  intros H Hf Ha Hc c i. unfold index_channel. simpl.
  assert (channel_sessions m !! c = Some i ->
          exists x, <[id := s]> (sessions m) !! i = Some x /\ is_active x = true /\ on_channel x c) as Hold.
  { intros Hi. destruct (H c i Hi) as (x & Hx & ? & ?). exists x.
    rewrite lookup_insert_ne by congruence. done. }
  destruct ch as [ch|]; [|done]. rewrite lookup_insert_Some. intros [[<- <-]|[_ Hi]]; [|auto].
  exists s. rewrite lookup_insert_eq. unfold on_channel. by rewrite Hc.
Qed.

Lemma free_channel_cases m now ch did m' :
  free_channel m now ch did = Ok m' ->
  m' = m \/ exists id, m' = end_session_inner m now id (Some did).
Proof.
  unfold free_channel. repeat (case_match; try done); intros [= <-]; eauto.
Qed.

Lemma end_inner_lookup m now id by_ i :
  sessions (end_session_inner m now id by_) !! i
  = if decide (i = id) then
      (fun s => with_participants (with_state s (Ended now by_))
                  ((fun p => if present p then gone now p else p) <$> s_participants s))
      <$> sessions m !! id
    else sessions m !! i.
Proof.
  unfold end_session_inner. destruct (sessions m !! id) as [s|] eqn:Es; simpl.
  - destruct (decide (i = id)) as [->|]; [by rewrite lookup_insert_eq|by rewrite lookup_insert_ne].
  - destruct (decide (i = id)) as [->|]; done.
Qed.

Lemma end_inner_fresh m now id by_ i :
  sessions (end_session_inner m now id by_) !! i = None <-> sessions m !! i = None.
Proof. rewrite end_inner_lookup. destruct (decide (i = id)) as [->|]; [|done]. by rewrite fmap_None. Qed.

Lemma settle_sound m now id did nick s s' :
  sessions m !! id = Some s -> same_call s s' -> index_sound m ->
  index_sound (settle m now id did nick s').1.
Proof.
  intros Hs Hc H. unfold settle. simpl.
  pose proof (set_session_sound m id s s' Hs Hc H). destruct (_ =? 0); auto using end_inner_sound.
Qed.

Lemma mark_left_call s now did inst : same_call s (mark_left s now did inst).
Proof. unfold mark_left. repeat case_match; split; done. Qed.

Lemma leave_one_instance_sound now did key acc id :
  index_sound acc.1 -> index_sound (leave_one_instance now did key acc id).1.
Proof.
  destruct acc as [m rs]. unfold leave_one_instance. intros H. simpl in H.
  destruct (sessions m !! id) as [s|] eqn:Es; [|done]. destruct (negb (is_active s)); [done|].
  destruct (s_participants s !! key) as [p|]; [|done]. destruct (present p); [|done].
  match goal with |- context [settle ?m ?n ?i ?d ?k ?x] =>
    pose proof (settle_sound m n i d k s x Es (conj eq_refl eq_refl) H); by destruct (settle m n i d k x)
  end.
Qed.

Lemma leave_one_did_sound now did acc id :
  index_sound acc.1 -> index_sound (leave_one_did now did acc id).1.
Proof.
  destruct acc as [m rs]. unfold leave_one_did. intros H. simpl in H.
  destruct (sessions m !! id) as [s|] eqn:Es; [|done]. destruct (negb (is_active s)); [done|].
  destruct (existsb _ _); [|done].
  match goal with |- context [settle ?m ?n ?i ?d ?k ?x] =>
    pose proof (settle_sound m n i d k s x Es (conj eq_refl eq_refl) H); by destruct (settle m n i d k x)
  end.
Qed.

Lemma leave_session_state m now id did inst :
  (leave_session m now id did inst).2
  = match sessions m !! id with
    | None => m
    | Some s => (settle m now id did "" (mark_left s now did inst)).1
    end.
Proof.
  unfold leave_session, settle. destruct (sessions m !! id) as [s|] eqn:Es; [|done].
  cbv zeta. cbn [fst]. by match goal with |- context [match ?x with Some _ => _ | None => _ end] => destruct x end.
Qed.

Lemma av_apply_sound m op : fresh_id m op -> index_sound m -> index_sound (av_apply m op).
Proof.
  intros Hf H. destruct op; simpl in *.
  - unfold create_session. destruct (free_channel m now channel did) as [m'|] eqn:E; [|done].
    apply index_new_sound; [|..|done|done]; destruct (free_channel_cases _ _ _ _ _ E) as [->|[i ->]];
      auto using end_inner_sound. by apply end_inner_fresh.
  - unfold join_session. destruct (sessions m !! session_id) as [s|] eqn:Es; [|done].
    destruct (negb _); [done|]. destruct (full s); [done|]. simpl. by eapply set_session_sound.
  - rewrite leave_session_state. destruct (sessions m !! session_id) as [s|] eqn:Es; [|done].
    eapply settle_sound; eauto using mark_left_call.
  - by apply end_inner_sound.
  - unfold apply_remote_session_created. destruct (sessions m !! id) eqn:Es; [done|].
    by apply index_new_sound.
  - unfold apply_remote_session_joined. destruct (sessions m !! session_id) as [s|] eqn:Es; [|done].
    by eapply set_session_sound.
  - unfold apply_remote_session_left. destruct (sessions m !! session_id) as [s|] eqn:Es; [|done].
    by eapply set_session_sound.
  - by apply end_inner_sound.
  - unfold leave_for_did_instance. apply (fold_left_inv (fun acc => index_sound acc.1)); [|done].
    intros; by apply leave_one_instance_sound.
  - unfold leave_all_for_did. apply (fold_left_inv (fun acc => index_sound acc.1)); [|done].
    intros; by apply leave_one_did_sound.
  - unfold reap_orphan_slots. destruct (sessions m !! session_id) as [s|] eqn:Es; [|done].
    destruct (negb _); [done|]. simpl. by eapply set_session_sound.
  - intros c i Hi. destruct (H c i Hi) as (s & Hs & Ha & Hc). exists s. split; [|done]. simpl.
    apply map_lookup_filter_Some. split; [done|]. unfold retained, is_active in *. simpl. by destruct (s_state s).
Qed.

(** A channel's call, when the server names one, is a live call of that
    channel. After any history of local operations, peer events and sweeps (new
    sessions taking fresh ids), every entry of the channel index points to a
    stored session that is active and bound to that channel; in particular
    pruning ended sessions never leaves the index dangling. *)
Theorem channel_index_sound m :
  av_reachable (fun _ _ => True) m ->
  index_sound m
  /\ forall ch id, channel_sessions m !! to_lowercase ch = Some id ->
       exists s, active_session_for_channel m ch = Some s /\ sessions m !! id = Some s
                 /\ on_channel s (to_lowercase ch).
Proof.
  intros Hr. assert (index_sound m) as H.
  { induction Hr; [done|]. by apply av_apply_sound. }
  split; [done|]. intros ch id Hi. destruct (H _ _ Hi) as (s & Hs & Ha & Hc). exists s.
  split; [|done]. unfold active_session_for_channel. rewrite Hi. simpl. rewrite Hs. simpl. by rewrite Ha.
Qed.

(** ** One call per channel *)

Definition nobody (s : AvSession) : Prop :=
  forall k p, s_participants s !! k = Some p -> present p = false.

Record calls_ok (m : AvSessionManager) : Prop := {
  ok_sound : index_sound m;
  ok_complete : forall id s c, sessions m !! id = Some s -> is_active s = true -> on_channel s c ->
    channel_sessions m !! c = Some id;
  ok_vacated : forall id s, sessions m !! id = Some s -> is_active s = false -> nobody s
}.

Lemma set_session_ok m id s s' :
  sessions m !! id = Some s -> same_call s s' -> (is_active s = true \/ nobody s') ->
  calls_ok m -> calls_ok (set_session m id s').
Proof.
  intros Hs [Hc Hst] Hn [H1 H2 H3]. split.
  - by eapply set_session_sound.
  - simpl. intros i x c Hi Ha Hx. apply lookup_insert_Some in Hi as [[<- <-]|[_ Hi]]; [|eauto].
    apply (H2 id s); unfold is_active, on_channel in *; by rewrite <- ?Hst, <- ?Hc.
  - simpl. intros i x Hi Ha. apply lookup_insert_Some in Hi as [[<- <-]|[_ Hi]]; [|eauto].
    destruct Hn as [Hn|]; [|done]. unfold is_active in *. rewrite Hst in Ha. congruence.
Qed.

Lemma ended_nobody s now by_ :
  nobody (with_participants (with_state s (Ended now by_))
            ((fun p => if present p then gone now p else p) <$> s_participants s)).
Proof.
  intros k p Hp. simpl in Hp. apply lookup_fmap_Some in Hp as (q & <- & _).
  by destruct (present q) eqn:E.
Qed.

Lemma end_inner_ok m now id by_ :
  (forall s, sessions m !! id = Some s -> is_active s = true) ->
  calls_ok m -> calls_ok (end_session_inner m now id by_).
Proof.
  intros Hact [H1 H2 H3]. split; [by apply end_inner_sound| |].
  - intros i x c. rewrite end_inner_lookup. destruct (decide (i = id)) as [->|Hne].
    + intros (s & _ & ->)%fmap_Some. done.
    + intros Hi Ha Hx. unfold end_session_inner.
      destruct (sessions m !! id) as [s|] eqn:Es; [|by eapply H2]. simpl.
      pose proof (H2 i x c Hi Ha Hx) as Hc. destruct (s_channel s) as [ch|] eqn:Ech; [|done].
      rewrite lookup_delete_ne; [done|]. intros <-. apply Hne.
      assert (channel_sessions m !! to_lowercase ch = Some id) as Hid
        by (apply (H2 id s); auto; unfold on_channel; by rewrite Ech). congruence.
  - intros i x. rewrite end_inner_lookup. destruct (decide (i = id)) as [->|]; [|apply H3].
    intros (s & _ & ->)%fmap_Some _. apply ended_nobody.
Qed.

Lemma settle_ok m now id did nick s s' :
  sessions m !! id = Some s -> is_active s = true -> same_call s s' -> calls_ok m ->
  calls_ok (settle m now id did nick s').1.
Proof.
  intros Hs Ha Hc H. unfold settle. simpl.
  assert (calls_ok (set_session m id s')) as H' by (eapply set_session_ok; eauto).
  destruct (_ =? 0); [|done]. apply end_inner_ok; [|done]. simpl. rewrite lookup_insert_eq.
  intros x [= <-]. destruct Hc as [_ Hst]. unfold is_active in *. by rewrite Hst.
Qed.

Lemma index_new_ok m id ch s :
  calls_ok m -> sessions m !! id = None -> is_active s = true -> s_channel s = ch ->
  (forall c, to_lowercase <$> ch = Some c -> channel_sessions m !! c = None) ->
  calls_ok (mkManager (<[id := s]> (sessions m)) (index_channel m ch id)).
Proof.
  intros [H1 H2 H3] Hf Ha Hc Hfree. split; [by apply index_new_sound| |]; simpl.
  - intros i x c Hi Hax Hx. apply lookup_insert_Some in Hi as [[<- <-]|[Hne Hi]].
    + unfold on_channel in Hx. rewrite Hc in Hx. destruct ch as [ch|]; [|done].
      injection Hx as <-. simpl. by rewrite lookup_insert_eq.
    + pose proof (H2 i x c Hi Hax Hx) as Hcs. unfold index_channel.
      destruct ch as [ch|]; [|done]. rewrite lookup_insert_ne; [done|]. intros <-.
      rewrite (Hfree (to_lowercase ch) eq_refl) in Hcs. done.
  - intros i x Hi Hax. apply lookup_insert_Some in Hi as [[<- <-]|[Hne Hi]]; [congruence|eauto].
Qed.

(** Creating frees the channel: afterwards it has no indexed session. *)
Lemma free_channel_ok m now ch did m' :
  calls_ok m -> free_channel m now ch did = Ok m' ->
  calls_ok m' /\ (forall i, sessions m' !! i = None <-> sessions m !! i = None)
  /\ (forall c, to_lowercase <$> ch = Some c -> channel_sessions m' !! c = None).
Proof.
  intros H. unfold free_channel. destruct ch as [ch|]; [|intros [= <-]; naive_solver].
  destruct (channel_sessions m !! to_lowercase ch) as [id|] eqn:Ei; [|intros [= <-]; naive_solver].
  destruct (ok_sound m H _ _ Ei) as (s & Hs & Ha & Hc). rewrite Hs, Ha.
  destruct (0 <? _); [done|]. intros [= <-]. split_and!.
  - apply end_inner_ok; [|done]. naive_solver.
  - intros i. apply end_inner_fresh.
  - intros c [= <-]. unfold end_session_inner. rewrite Hs. simpl. unfold on_channel in Hc.
    destruct (s_channel s); [|done]. injection Hc as ->. apply lookup_delete_eq.
Qed.

Lemma active_not_ended s : negb (is_active s) = false -> is_active s = true.
Proof. by destruct (is_active s). Qed.

Lemma leave_one_instance_ok now did key acc id :
  calls_ok acc.1 -> calls_ok (leave_one_instance now did key acc id).1.
Proof.
  destruct acc as [m rs]. unfold leave_one_instance. intros H. simpl in H.
  destruct (sessions m !! id) as [s|] eqn:Es; [|done].
  destruct (negb (is_active s)) eqn:Ea; [done|]. apply active_not_ended in Ea.
  destruct (s_participants s !! key) as [p|]; [|done]. destruct (present p); [|done].
  match goal with |- context [settle ?m ?n ?i ?d ?k ?x] =>
    pose proof (settle_ok m n i d k s x Es Ea (conj eq_refl eq_refl) H); by destruct (settle m n i d k x)
  end.
Qed.

Lemma leave_one_did_ok now did acc id :
  calls_ok acc.1 -> calls_ok (leave_one_did now did acc id).1.
Proof.
  destruct acc as [m rs]. unfold leave_one_did. intros H. simpl in H.
  destruct (sessions m !! id) as [s|] eqn:Es; [|done].
  destruct (negb (is_active s)) eqn:Ea; [done|]. apply active_not_ended in Ea.
  destruct (existsb _ _); [|done].
  match goal with |- context [settle ?m ?n ?i ?d ?k ?x] =>
    pose proof (settle_ok m n i d k s x Es Ea (conj eq_refl eq_refl) H); by destruct (settle m n i d k x)
  end.
Qed.

Lemma remote_left_nobody s now did :
  nobody s ->
  nobody (with_participants s (map_imap (fun key p =>
           Some (if present p && (String.eqb key did || String.eqb (p_did p) did) then gone now p else p))
           (s_participants s))).
Proof.
  intros H k p. simpl. rewrite map_lookup_imap. destruct (s_participants s !! k) as [q|] eqn:E; [|done].
  simpl. rewrite (H k q E). simpl. intros [= <-]. by apply (H k).
Qed.

Lemma av_apply_ok m op : fresh_id m op -> orderly m op -> calls_ok m -> calls_ok (av_apply m op).
Proof.
  intros Hf Ho H. destruct op; simpl in *.
  - unfold create_session. destruct (free_channel m now channel did) as [m'|] eqn:E; [|done].
    destruct (free_channel_ok _ _ _ _ _ H E) as (Hok & Hfr & Hc).
    apply index_new_ok; auto. by apply Hfr.
  - unfold join_session. destruct (sessions m !! session_id) as [s|] eqn:Es; [|done].
    destruct (negb _) eqn:Ea; [done|]. apply active_not_ended in Ea.
    destruct (full s); [done|]. simpl. eapply set_session_ok; eauto. done.
  - rewrite leave_session_state. destruct (sessions m !! session_id) as [s|] eqn:Es; [|done].
    eapply settle_ok; eauto using mark_left_call.
  - by apply end_inner_ok.
  - unfold apply_remote_session_created. destruct (sessions m !! id) eqn:Es; [done|].
    apply index_new_ok; auto. destruct channel; [|done]. by intros c [= <-].
  - unfold apply_remote_session_joined. destruct (sessions m !! session_id) as [s|] eqn:Es; [|done].
    eapply set_session_ok; eauto. done.
  - unfold apply_remote_session_left. destruct (sessions m !! session_id) as [s|] eqn:Es; [|done].
    eapply set_session_ok; eauto; [done|]. destruct (is_active s) eqn:Ea; [by left|right].
    apply remote_left_nobody. by eapply ok_vacated.
  - by apply end_inner_ok.
  - unfold leave_for_did_instance. apply (fold_left_inv (fun acc => calls_ok acc.1)); [|done].
    intros; by apply leave_one_instance_ok.
  - unfold leave_all_for_did. apply (fold_left_inv (fun acc => calls_ok acc.1)); [|done].
    intros; by apply leave_one_did_ok.
  - unfold reap_orphan_slots. destruct (sessions m !! session_id) as [s|] eqn:Es; [|done].
    destruct (negb _) eqn:Ea; [done|]. apply active_not_ended in Ea.
    simpl. eapply set_session_ok; eauto. done.
  - split; [by apply (av_apply_sound m (AvPrune now max_age_secs)), ok_sound| |]; simpl;
      intros i x; [intros c|]; rewrite map_lookup_filter_Some; intros [Hi _]; by eapply H.
Qed.

Lemma start_ok : calls_ok new_manager.
Proof. split; [by intros c i|by intros i x c|by intros i x]. Qed.

(** At most one call per channel. As long as nobody acts on a session that
    has already ended and no peer opens a second one on an occupied channel
    ([orderly]), two active sessions of one channel are the same session, it is
    the one the server answers for that channel, and nobody is listed as still
    present in an ended session. *)
Theorem one_call_per_channel m :
  av_reachable orderly m ->
  (forall id1 id2 s1 s2 c, sessions m !! id1 = Some s1 -> sessions m !! id2 = Some s2 ->
     is_active s1 = true -> is_active s2 = true -> on_channel s1 c -> on_channel s2 c -> id1 = id2)
  /\ (forall id s ch, sessions m !! id = Some s -> is_active s = true -> s_channel s = Some ch ->
       active_session_for_channel m ch = Some s)
  /\ (forall id s, sessions m !! id = Some s -> is_active s = false -> nobody s).
Proof.
  intros Hr. assert (calls_ok m) as [H1 H2 H3].
  { induction Hr; [apply start_ok|by apply av_apply_ok]. }
  split_and!; [| |done].
  - intros id1 id2 s1 s2 c Hs1 Hs2 Ha1 Ha2 Hc1 Hc2.
    pose proof (H2 _ _ _ Hs1 Ha1 Hc1). pose proof (H2 _ _ _ Hs2 Ha2 Hc2). congruence.
  - intros id s ch Hs Ha Hc. unfold active_session_for_channel.
    rewrite (H2 id s (to_lowercase ch) Hs Ha) by (unfold on_channel; by rewrite Hc).
    simpl. rewrite Hs. simpl. by rewrite Ha.
Qed.

(** Leaving a call that is already over takes the channel away from its
    successor. If a stored session has ended and nobody is present in it, a
    leave on it by anyone at all (a participant or not) succeeds, ends it again
    and drops the channel's index entry, whatever session that entry names:
    the channel's current call is then no longer answered for it, and a second
    call can be opened beside it. *)
Theorem leave_ended_session_unindexes m now id s did inst ch :
  sessions m !! id = Some s -> is_active s = false -> nobody s -> s_channel s = Some ch ->
  let out := leave_session m now id did inst in
  is_ok out.1 = true /\ channel_sessions out.2 = delete (to_lowercase ch) (channel_sessions m)
  /\ active_session_for_channel out.2 ch = None.
Proof.
  intros Hs Ha Hn Hch out.
  assert (active_count (mark_left s now did inst) = 0) as Hz.
  { unfold active_count. replace (List.filter _ _) with (@nil (string * AvParticipant)); [done|].
    symmetry. apply list_filter_nil. intros [k p] Hin. apply list_elem_of_In, elem_of_map_to_list in Hin.
    simpl. unfold mark_left in Hin. repeat case_match; simpl in Hin;
      try (apply lookup_insert_Some in Hin as [[_ <-]|[_ Hin]]; [done|]); by eapply Hn. }
  assert (channel_sessions out.2 = delete (to_lowercase ch) (channel_sessions m)) as Hidx.
  { unfold out. rewrite leave_session_state, Hs. unfold settle, end_session_inner. rewrite Hz. simpl.
    rewrite lookup_insert_eq. simpl. destruct (mark_left_call s now did inst) as [Hcc _].
    by rewrite Hcc, Hch. }
  split_and!; [|done|].
  - unfold out, leave_session. rewrite Hs, Hz. simpl. unfold end_session_inner. simpl.
    rewrite lookup_insert_eq. simpl. by rewrite lookup_insert_eq.
  - unfold active_session_for_channel. by rewrite Hidx, lookup_delete_eq.
Qed.

(** ** A dropped device leaves exactly its own slots *)

(** The slot a dropped device holds in a session, if it is a live call it is in. *)
Definition held_slot (key : string) (s : AvSession) : option AvParticipant :=
  if is_active s then p ← s_participants s !! key; if present p then Some p else None else None.

Definition vacate (now : Z) (key : string) (s : AvSession) (p : AvParticipant) : AvSession :=
  with_participants s (<[key := gone now p]> (s_participants s)).

Definition ended (now : Z) (by_ : option string) (s : AvSession) : AvSession :=
  with_participants (with_state s (Ended now by_))
    ((fun p => if present p then gone now p else p) <$> s_participants s).

(** What becomes of each session, and what is reported of it. *)
Definition departed (now : Z) (did key : string) (s : AvSession) : AvSession :=
  match held_slot key s with
  | None => s
  | Some p => let s' := vacate now key s p in
              if active_count s' =? 0 then ended now (Some did) s' else s'
  end.

Definition departure (now : Z) (key : string) (id : string) (s : AvSession) : option Left :=
  p ← held_slot key s;
  Some (id, s_channel s, p_nick p, active_count (vacate now key s p) =? 0).

Lemma leave_one_instance_spec now did key m rs id s :
  sessions m !! id = Some s ->
  let out := leave_one_instance now did key (m, rs) id in
  sessions out.1 = <[id := departed now did key s]> (sessions m)
  /\ out.2 = rs ++ option_list (departure now key id s).
Proof.
  intros Hs. unfold leave_one_instance, departed, departure, held_slot. rewrite Hs.
  destruct (is_active s); simpl; [|by rewrite insert_id, app_nil_r].
  destruct (s_participants s !! key) as [p|] eqn:Ep; simpl; [|by rewrite insert_id, app_nil_r].
  destruct (present p); simpl; [|by rewrite insert_id, app_nil_r].
  split; [|done]. fold (vacate now key s p). destruct (_ =? 0); [|done].
  unfold end_session_inner. simpl. rewrite lookup_insert_eq. simpl. by rewrite insert_insert_eq.
Qed.

Lemma leave_loop_spec now did key l m rs :
  List.NoDup l -> (forall id, In id l -> is_Some (sessions m !! id)) ->
  let out := fold_left (leave_one_instance now did key) l (m, rs) in
  (forall id, sessions out.1 !! id
     = if decide (id ∈ l) then departed now did key <$> sessions m !! id else sessions m !! id)
  /\ out.2 = rs ++ flat_map (fun id => default [] ((fun s => option_list (departure now key id s))
                                                  <$> sessions m !! id)) l.
Proof.
  revert m rs; induction l as [|id l IH]; intros m rs Hnd Hdom.
  { cbn [fold_left fst snd flat_map]. split; [|by rewrite app_nil_r]. intros i. by rewrite decide_False by set_solver. }
  inversion_clear Hnd as [|? ? Hid Hl]. destruct (Hdom id) as [s Hs]; [by left|].
  cbn [fold_left]. destruct (leave_one_instance_spec now did key m rs id s Hs) as [Hm1 Hr1].
  destruct (leave_one_instance now did key (m, rs) id) as [m1 rs1]. simpl in Hm1, Hr1.
  assert (forall i, i <> id -> sessions m1 !! i = sessions m !! i) as Hother
    by (intros i Hi; by rewrite Hm1, lookup_insert_ne by done).
  destruct (IH m1 rs1 Hl) as [Hses Hres].
  { intros i Hi. rewrite Hother by congruence. apply Hdom. by right. }
  split.
  - intros i. rewrite Hses. destruct (decide (i ∈ l)) as [Hin|Hin];
      destruct (decide (i ∈ id :: l)) as [Hin'|Hin']; rewrite list_elem_of_In in Hin, Hin';
      simpl in Hin'; try tauto.
    + by rewrite Hother by congruence.
    + destruct Hin' as [->|?]; [|tauto]. by rewrite Hm1, lookup_insert_eq, Hs.
    + apply Hother. naive_solver.
  - rewrite Hres, Hr1, <- app_assoc. f_equal. simpl. rewrite Hs. simpl. f_equal.
    apply flat_map_ext_in. intros i Hi. by rewrite Hother by congruence.
Qed.

Lemma hash_keys {A} (m : gmap string A) :
  List.NoDup (map fst (hash_iter m)) /\ forall k, In k (map fst (hash_iter m)) <-> is_Some (m !! k).
Proof.
  split.
  - apply NoDup_ListNoDup. change (map fst) with (fmap (M := list) (@fst string A)).
    rewrite hash_iter_perm. apply NoDup_fst_map_to_list.
  - intros k. rewrite in_map_iff. split.
    + intros ([k' x] & <- & Hin). apply list_elem_of_In in Hin. rewrite hash_iter_perm in Hin.
      apply elem_of_map_to_list in Hin. eauto.
    + intros [x Hx]. exists (k, x). split; [done|]. apply list_elem_of_In. rewrite hash_iter_perm.
      by apply elem_of_map_to_list.
Qed.

(** A dropped device leaves the calls it was in, and only those. Whatever
    order the server visits the sessions in: every session becomes what
    [departed] says of it alone (its own slot marked left in each live call it
    was present in, the call ended iff nobody else remained; every other
    session and slot untouched), and the report lists exactly those calls. *)
Theorem leave_for_did_instance_exact m now did inst :
  let key := participant_key did inst in
  let out := leave_for_did_instance m now did inst in
  (forall id, sessions out.1 !! id = departed now did key <$> sessions m !! id)
  /\ (forall r, In r out.2 <->
        exists id s, sessions m !! id = Some s /\ departure now key id s = Some r).
Proof.
  intros key out. destruct (hash_keys (sessions m)) as [Hnd Hkeys].
  destruct (leave_loop_spec now did key (map fst (hash_iter (sessions m))) m [] Hnd) as [Hs Hr];
    [intros id; apply Hkeys|].
  split.
  - intros id. unfold out, leave_for_did_instance. fold key. rewrite Hs.
    match goal with |- context [decide ?P] => destruct (decide P) as [|Hn]; [done|] end.
    rewrite list_elem_of_In, Hkeys in Hn.
    destruct (sessions m !! id); [destruct Hn; eauto|done].
  - intros r. unfold out, leave_for_did_instance. fold key. rewrite Hr. simpl. rewrite in_flat_map. split.
    + intros (id & Hid & Hin). apply Hkeys in Hid as [s Hsi]. rewrite Hsi in Hin. simpl in Hin.
      exists id, s. split; [done|]. destruct (departure now key id s); simpl in Hin; naive_solver.
    + intros (id & s & Hsi & Hd). exists id. rewrite Hkeys, Hsi. simpl. rewrite Hd. simpl. eauto.
Qed.

(** ** The reaper takes only true orphans *)

(** The phantom-slot reaper. In a live call each slot stays exactly as it
    was unless it was present and is an orphan (no live connection stands
    behind it and no grace is pending for its device), in which case it is
    marked left; a device that is live, or whose grace is pending, keeps its
    slot and is never among the reaped, whatever DID its connection carries;
    and the reaped instances are exactly those of the slots taken. *)
Theorem reaper_takes_only_orphans m now id s live grace :
  sessions m !! id = Some s -> is_active s = true ->
  let goes p := present p && orphan live grace p in
  let out := reap_orphan_slots m now id live grace in
  sessions out.2 = <[id := with_participants s
                       ((fun p => if goes p then gone now p else p) <$> s_participants s)]> (sessions m)
  /\ channel_sessions out.2 = channel_sessions m
  /\ (forall i, In i out.1 <-> exists k p, s_participants s !! k = Some p /\ goes p = true
                                           /\ p_instance_id p = Some i)
  /\ (forall i d, (In (d, Some i) live \/ i ∈ grace) -> ~ In i out.1).
Proof.
  intros Hs Ha goes out. unfold out, reap_orphan_slots. rewrite Hs, Ha. cbn [negb fst snd].
  assert (forall i, In i (omap (fun kv => if goes kv.2 then p_instance_id kv.2 else None)
                               (hash_iter (s_participants s)))
          <-> exists k p, s_participants s !! k = Some p /\ goes p = true /\ p_instance_id p = Some i)
    as Hin.
  { intros i. rewrite <- list_elem_of_In, list_elem_of_omap. split.
    - intros ([k p] & Hk & Hp). rewrite hash_iter_perm, elem_of_map_to_list in Hk. simpl in Hp.
      destruct (goes p) eqn:Eg; naive_solver.
    - intros (k & p & Hk & Hg & Hp). exists (k, p). simpl. rewrite Hg.
      by rewrite hash_iter_perm, elem_of_map_to_list. }
  split_and!; [done|done|done|].
  intros i d Hlive Hr. apply Hin in Hr as (k & p & _ & Hg & Hp). unfold goes, orphan in Hg.
  rewrite Hp in Hg. bool_hyps. rewrite existsb_false in *.
  destruct Hlive as [Hl|Hl]; [|by rewrite bool_decide_eq_true_2 in *].
  match goal with H : forall x, In x live -> _ |- _ => specialize (H _ Hl); simpl in H end.
  by rewrite String.eqb_refl in *.
Qed.
End Histories.

(** ** Examples *)

#[local] Existing Instances ascii_fold map_order.

Definition sample_call : AvSessionManager :=
  av_apply new_manager (AvCreate 100 "01A" (Some "#Lobby") "did:plc:a" "ann" None (Some "d1")).

Lemma channel_index_sound_witness :
  index_sound sample_call
  /\ forall ch id, channel_sessions sample_call !! to_lowercase ch = Some id ->
       exists s, active_session_for_channel sample_call ch = Some s /\ sessions sample_call !! id = Some s
                 /\ on_channel s (to_lowercase ch).
Proof. apply channel_index_sound. apply av_next; [apply av_start|reflexivity|exact I]. Defined.

Lemma one_call_per_channel_witness :
  (forall id1 id2 s1 s2 c, sessions sample_call !! id1 = Some s1 -> sessions sample_call !! id2 = Some s2 ->
     is_active s1 = true -> is_active s2 = true -> on_channel s1 c -> on_channel s2 c -> id1 = id2)
  /\ (forall id s ch, sessions sample_call !! id = Some s -> is_active s = true -> s_channel s = Some ch ->
       active_session_for_channel sample_call ch = Some s)
  /\ (forall id s, sessions sample_call !! id = Some s -> is_active s = false -> nobody s).
Proof. apply one_call_per_channel. apply av_next; [apply av_start|reflexivity|exact I]. Defined.

(** Ann's call ends when she leaves; Bob opens the next one. *)
Definition sample_successor : AvSessionManager :=
  av_apply (av_apply sample_call (AvLeave 110 "01A" "did:plc:a" (Some "d1")))
           (AvCreate 120 "01B" (Some "#lobby") "did:plc:b" "bob" None None).

Definition sample_ended : AvSession :=
  ended 110 (Some "did:plc:a")
    (mkSession "01A" (Some "#Lobby") "did:plc:a" "ann" 100 Active
       {[ "did:plc:a#d1" := mkParticipant "did:plc:a" "ann" 100 (Some 110) Host [] (Some "d1") ]}
       None None IrohLive false None).

Lemma leave_ended_session_unindexes_witness :
  let out := leave_session sample_successor 130 "01A" "did:plc:x" None in
  is_ok out.1 = true
  /\ channel_sessions out.2 = delete (to_lowercase "#Lobby") (channel_sessions sample_successor)
  /\ active_session_for_channel out.2 "#Lobby" = None.
Proof.
  apply (leave_ended_session_unindexes sample_successor 130 "01A" sample_ended "did:plc:x" None "#Lobby").
  - vm_compute. reflexivity.
  - reflexivity.
  - apply ended_nobody.
  - reflexivity.
Defined.

(** After a stranger leaves the ended call, a third can be opened beside Bob's. *)
Example two_calls_in_one_channel :
  let m := av_apply (av_apply sample_successor (AvLeave 130 "01A" "did:plc:x" None))
             (AvCreate 140 "01C" (Some "#lobby") "did:plc:c" "cat" None None) in
  map s_id (active_sessions m) = ["01C"; "01B"] \/ map s_id (active_sessions m) = ["01B"; "01C"].
Proof. vm_compute. auto. Qed.

Lemma reaper_takes_only_orphans_witness :
  let goes p := present p && orphan [("", Some "d1")] ∅ p in
  let s := opened "01A" (Some "#Lobby") "did:plc:a" "ann" "did:plc:a#d1" (Some "d1") None None 100 in
  let out := reap_orphan_slots sample_call 150 "01A" [("", Some "d1")] ∅ in
  sessions out.2 = <[ "01A" := with_participants s
                       ((fun p => if goes p then gone 150 p else p) <$> s_participants s)]> (sessions sample_call)
  /\ channel_sessions out.2 = channel_sessions sample_call
  /\ (forall i, In i out.1 <-> exists k p, s_participants s !! k = Some p /\ goes p = true
                                           /\ p_instance_id p = Some i)
  /\ (forall i d, (In (d, Some i) [("", Some "d1")] \/ i ∈ (∅ : gset string)) -> ~ In i out.1).
Proof.
  exact (reaper_takes_only_orphans sample_call 150 "01A"
           (opened "01A" (Some "#Lobby") "did:plc:a" "ann" "did:plc:a#d1" (Some "d1") None None 100)
           [("", Some "d1")] ∅ eq_refl eq_refl).
Defined.
