(* ===== verification/Multiline.v ===== *)
(** * Multiline messages

    Models [freeq-server/src/connection/draft_multiline.rs]: the inbound BATCH
    state machine, the assembly of a closed batch into one message and the
    frames relayed to each kind of receiver; and, from
    [connection/mod.rs], the PRIVMSG/NOTICE/BATCH arms of the command loop and
    the rate-limit exemption. [open_batches] is a map from (session, batch id);
    what a handler sends or hands on is a list of effects. *)

From stdpp Require Import base gmap strings list fin_maps.
From Stdlib Require Import ZArith Lia Ascii String.
From S2P Require Import Prelude IrcMessage.
Open Scope Z_scope.

Definition MAX_BYTES : Z := 40000.
Definition MAX_LINES : Z := 100.
Definition MAX_CONCURRENT_BATCHES_PER_SESSION : Z := 5.

(** [s.len()] *)
Definition len (s : string) : Z := Z.of_nat (String.length s).

Record BatchLine := mkLine { bl_body : string; bl_concat_to_previous : bool; bl_command : string }.

Record OpenBatch := mkBatch {
  ob_batch_id : string;
  ob_batch_type : string;
  ob_target : string;
  ob_opener_tags : gmap string string;
  ob_lines : list BatchLine;
  ob_byte_count : Z;
  ob_first_command : option string
}.

Definition no_lines (b : OpenBatch) : bool := match ob_lines b with [] => true | _ => false end.

Definition cost_of_appending (b : OpenBatch) (body : string) (concat_to_previous : bool) : Z :=
  if no_lines b || concat_to_previous then len body else len body + 1.

Inductive BatchError :=
| Invalid (reason : string)
| MaxBytes
| MaxLines
| InvalidTarget (batch_target line_target : string).

(** [state.open_batches] *)
Notation Batches := (gmap (string * string) OpenBatch).

Definition count_session_open_batches (open : Batches) (session_id : string) : Z :=
  Z.of_nat (List.length (List.filter (fun kv => String.eqb kv.1.1 session_id) (map_to_list open))).

Definition handle_batch_open (open : Batches) (session_id batch_id batch_type target : string)
    (opener_tags : gmap string string) : result unit BatchError * Batches :=
  if is_empty batch_id then (Err (Invalid "empty batch id"), open)
  else if negb (String.eqb batch_type "draft/multiline") then (Err (Invalid "unknown batch type"), open)
  else if is_empty target then (Err (Invalid "missing batch target"), open)
  else
    match open !! (session_id, batch_id) with
    | Some _ => (Err (Invalid "batch id already open"), open)
    | None =>
        if MAX_CONCURRENT_BATCHES_PER_SESSION <=? count_session_open_batches open session_id
        then (Err (Invalid "too many concurrent batches"), open)
        else (Ok tt, <[(session_id, batch_id) :=
                         mkBatch batch_id batch_type target opener_tags [] 0 None]> open)
    end.

Inductive RouteOutcome :=
| Absorbed
| NotInBatch
| RouteError (e : BatchError).

(** The first line pins the batch to PRIVMSG or to NOTICE. *)
Definition mixes (b : OpenBatch) (command : string) : bool :=
  match ob_first_command b with Some seen => negb (String.eqb seen command) | None => false end.

Definition pin_command (b : OpenBatch) (command : string) : OpenBatch :=
  mkBatch (ob_batch_id b) (ob_batch_type b) (ob_target b) (ob_opener_tags b) (ob_lines b)
    (ob_byte_count b)
    (match ob_first_command b with Some c => Some c | None => Some command end).

Definition push_line (b : OpenBatch) (l : BatchLine) (cost : Z) : OpenBatch :=
  mkBatch (ob_batch_id b) (ob_batch_type b) (ob_target b) (ob_opener_tags b) (ob_lines b ++ [l])
    (ob_byte_count b + cost) (ob_first_command b).

Definition try_route_to_batch (open : Batches) (session_id : string) (msg_tags : gmap string string)
    (command target body : string) (concat_to_previous : bool) : RouteOutcome * Batches :=
  match msg_tags !! "batch" with
  | None => (NotInBatch, open)
  | Some batch_id =>
      let key := (session_id, batch_id) in
      match open !! key with
      | None => (NotInBatch, open)
      | Some entry =>
          if negb (String.eqb target (ob_target entry))
          then (RouteError (InvalidTarget (ob_target entry) target), open)
          else
            if mixes entry command
            then (RouteError (Invalid "cannot mix PRIVMSG and NOTICE in a draft/multiline batch"), open)
            else
              let entry := pin_command entry command in
              let open := <[key := entry]> open in
              if concat_to_previous && is_empty body
              then (RouteError (Invalid "cannot send a blank line with the multiline concat tag"), open)
              else if no_lines entry && concat_to_previous
              then (RouteError (Invalid "first line cannot carry draft/multiline-concat"), open)
              else
                let cost := cost_of_appending entry body concat_to_previous in
                if MAX_BYTES <? ob_byte_count entry + cost then (RouteError MaxBytes, open)
                else if MAX_LINES <? Z.of_nat (List.length (ob_lines entry)) + 1
                then (RouteError MaxLines, open)
                else (Absorbed,
                      <[key := push_line entry (mkLine body concat_to_previous command) cost]> open)
      end
  end.

Definition handle_batch_close (open : Batches) (session_id batch_id : string)
    : result OpenBatch BatchError * Batches :=
  let key := (session_id, batch_id) in
  match open !! key with
  | None => (Err (Invalid "unknown batch id"), open)
  | Some batch =>
      let all_blank := forallb (fun l => is_empty (bl_body l)) (ob_lines batch) in
      (if negb (no_lines batch) && all_blank
       then Err (Invalid "batch consists entirely of blank lines") else Ok batch,
       delete key open)
  end.

(** [retain(|(sid, _), _| sid != session_id)], when a session goes away. *)
Definition drop_session (open : Batches) (session_id : string) : Batches :=
  filter (fun kv => String.eqb kv.1.1 session_id = false) open.

(** [assemble_body] from the [i]-th line on, after [out]. *)
Fixpoint assemble_lines (first : bool) (lines : list BatchLine) : string :=
  match lines with
  | [] => ""
  | l :: rest =>
      (if first || bl_concat_to_previous l then "" else String LF "")
      +:+ bl_body l +:+ assemble_lines false rest
  end.

Definition assemble_body (b : OpenBatch) : string := assemble_lines true (ob_lines b).

(** ** What a handler does beyond its state *)

Inductive Effect :=
| Send (line : string)
| Privmsg (command target text : string) (tags : gmap string string)
| Assembled (command target body : string) (tags : gmap string string) (lines : list BatchLine)
| Panic.

Section Handlers.
Context {CF : CaseFold} {HO : HashOrder}.
Variable server_name : string.

Definition send_fail (code : string) (extra_args : list string) (human_reason : string) : Effect :=
  Send (server_display (from_server server_name "FAIL"
          (["BATCH"; code] ++ extra_args ++ [human_reason])) +:+ CRLF).

Definition send_batch_error (err : BatchError) : Effect :=
  match err with
  | MaxBytes => send_fail "MULTILINE_MAX_BYTES" ["40000"] "Multiline batch byte limit exceeded"
  | MaxLines => send_fail "MULTILINE_MAX_LINES" ["100"] "Multiline batch line limit exceeded"
  | InvalidTarget bt lt => send_fail "MULTILINE_INVALID_TARGET" [bt; lt] "Invalid multiline target"
  | Invalid reason => send_fail "MULTILINE_INVALID" [] reason
  end.

Definition dispatch_assembled_batch (b : OpenBatch) : Effect :=
  Assembled (default "PRIVMSG" (ob_first_command b)) (ob_target b) (assemble_body b)
    (ob_opener_tags b) (ob_lines b).

(** [reference.split_at(1)] on a non-empty string: it panics unless the second
    byte starts a character. *)
Definition is_continuation (c : ascii) : bool := (128 <=? byte c) && (byte c <? 192).

Definition split_at_1 (s : string) : option (ascii * string) :=
  match s with
  | EmptyString => None
  | String c r =>
      match r with
      | String d _ => if is_continuation d then None else Some (c, r)
      | EmptyString => Some (c, r)
      end
  end.

Definition nth_param (m : Message) (i : nat) : string := default "" (params m !! i).

Definition handle_batch_command (open : Batches) (session_id : string) (msg : Message)
    : Batches * list Effect :=
  match params msg !! 0%nat with
  | Some ((String _ _) as reference) =>
      match split_at_1 reference with
      | None => (open, [Panic])
      | Some (sign, batch_id) =>
          if Ascii.eqb sign "+" then
            let opener_tags := delete "batch" (tags msg) in
            match handle_batch_open open session_id batch_id (nth_param msg 1) (nth_param msg 2) opener_tags with
            | (Ok _, open') => (open', [])
            | (Err e, open') => (open', [send_batch_error e])
            end
          else if Ascii.eqb sign "-" then
            match handle_batch_close open session_id batch_id with
            | (Ok closed, open') => (open', [dispatch_assembled_batch closed])
            | (Err e, open') => (open', [send_batch_error e])
            end
          else (open, [send_fail "MULTILINE_INVALID" [] "BATCH reference-tag must start with + or -"])
      end
  | _ => (open, [send_fail "MULTILINE_INVALID" [] "BATCH reference-tag required"])
  end.

Definition normalize_channel (name : string) : string := to_lowercase name.

Definition route_target (target : string) : string :=
  if starts_with_char "#" target || starts_with_char "&" target then normalize_channel target else target.

(** The PRIVMSG/NOTICE and BATCH arms of the loop, for a registered client. *)
Definition handle_line (open : Batches) (session_id : string) (msg : Message) : Batches * list Effect :=
  if String.eqb (command msg) "PRIVMSG" || String.eqb (command msg) "NOTICE" then
    match params msg !! 0%nat, params msg !! 1%nat with
    | Some target, Some text =>
        let target := route_target target in
        let concat := bool_decide (is_Some (tags msg !! "draft/multiline-concat")) in
        match try_route_to_batch open session_id (tags msg) (command msg) target text concat with
        | (Absorbed, open') => (open', [])
        | (RouteError err, open') => (open', [send_batch_error err])
        | (NotInBatch, open') => (open', [Privmsg (command msg) target text (tags msg)])
        end
    | _, _ => (open, [])
    end
  else if String.eqb (command msg) "BATCH" then handle_batch_command open session_id msg
  else (open, []).

(** ** Rate-limit exemption *)

Definition batch_open_rate_exempt (open : Batches) (cap_batch cap_multiline : gset string)
    (session_id : string) (msg : Message) (batch_id : string) : bool :=
  negb (is_empty batch_id)
  && match params msg !! 1%nat with Some t => String.eqb t "draft/multiline" | None => false end
  && match params msg !! 2%nat with Some t => negb (is_empty t) | None => false end
  && bool_decide (session_id ∈ cap_batch) && bool_decide (session_id ∈ cap_multiline)
  && negb (bool_decide (is_Some (open !! (session_id, batch_id))))
  && (count_session_open_batches open session_id <? MAX_CONCURRENT_BATCHES_PER_SESSION).

Definition batch_rate_exempt (open : Batches) (cap_batch cap_multiline : gset string)
    (session_id : string) (msg : Message) : bool :=
  match params msg !! 0%nat with
  | None => false
  | Some reference =>
      match strip_prefix "+" reference with
      | Some batch_id => batch_open_rate_exempt open cap_batch cap_multiline session_id msg batch_id
      | None =>
          match strip_prefix "-" reference with
          | Some batch_id =>
              negb (is_empty batch_id)
              && match open !! (session_id, batch_id) with
                 | Some b => String.eqb (ob_batch_type b) "draft/multiline"
                 | None => false
                 end
          | None => false
          end
      end
  end.

Definition chunk_rate_exempt (open : Batches) (session_id : string) (msg : Message) : bool :=
  match tags msg !! "batch", params msg !! 0%nat, params msg !! 1%nat with
  | Some batch_id, Some target, Some _ =>
      match open !! (session_id, batch_id) with
      | Some b => String.eqb (ob_batch_type b) "draft/multiline"
                  && String.eqb (ob_target b) (route_target target) && negb (mixes b (command msg))
      | None => false
      end
  | _, _, _ => false
  end.

Definition rate_exempt (open : Batches) (cap_batch cap_multiline : gset string) (session_id : string)
    (msg : Message) : bool :=
  if String.eqb (command msg) "BATCH" then batch_rate_exempt open cap_batch cap_multiline session_id msg
  else if String.eqb (command msg) "PRIVMSG" || String.eqb (command msg) "NOTICE"
  then chunk_rate_exempt open session_id msg
  else false.

(** ** Outbound frames *)

Record ReceiverCaps := mkCaps {
  has_tags : bool; has_time : bool; has_multiline : bool; wants_account : bool;
  sender_did : option string
}.

Record RelayContext := mkRelay {
  rc_hostmask : string; rc_command : string; rc_target : string; rc_msgid : string;
  rc_time_tag : string; rc_opener_tags : gmap string string; rc_batch_id : string;
  rc_lines : list BatchLine
}.

Definition build_plain_fallback_frames (ctx : RelayContext) : list string :=
  map (fun l => ":" +:+ rc_hostmask ctx +:+ " " +:+ rc_command ctx +:+ " " +:+ rc_target ctx
                +:+ " :" +:+ bl_body l +:+ CRLF) (rc_lines ctx).

(** The tags of the frame that carries the message's metadata. *)
Definition carrier_tags (ctx : RelayContext) (caps : ReceiverCaps) : gmap string string :=
  let t := <["msgid" := rc_msgid ctx]> (rc_opener_tags ctx) in
  let t := if has_time caps then <["time" := rc_time_tag ctx]> t else t in
  match sender_did caps with
  | Some did => if wants_account caps then <["account" := did]> t else t
  | None => t
  end.

Definition opener_frame (ctx : RelayContext) (caps : ReceiverCaps) : Message :=
  mkMessage (carrier_tags ctx caps) (Some (rc_hostmask ctx)) "BATCH"
    ["+" +:+ rc_batch_id ctx; "draft/multiline"; rc_target ctx].

Definition line_frame (ctx : RelayContext) (l : BatchLine) : Message :=
  mkMessage (let t := <["batch" := rc_batch_id ctx]> ∅ in
             if bl_concat_to_previous l then <["draft/multiline-concat" := ""]> t else t)
    (Some (rc_hostmask ctx)) (rc_command ctx) [rc_target ctx; bl_body l].

Definition build_capable_frames (ctx : RelayContext) (caps : ReceiverCaps) : list string :=
  (server_display (opener_frame ctx caps) +:+ CRLF)
  :: map (fun l => server_display (line_frame ctx l) +:+ CRLF) (rc_lines ctx)
  ++ ["BATCH -" +:+ rc_batch_id ctx +:+ CRLF].

Definition fallback_frame (ctx : RelayContext) (tags : gmap string string) (l : BatchLine) : string :=
  server_display (mkMessage tags (Some (rc_hostmask ctx)) (rc_command ctx) [rc_target ctx; bl_body l]) +:+ CRLF.

Definition build_tagged_fallback_frames (ctx : RelayContext) (caps : ReceiverCaps) : list string :=
  match rc_lines ctx with
  | [] => []
  | l :: rest => fallback_frame ctx (carrier_tags ctx caps) l :: map (fallback_frame ctx ∅) rest
  end.

Definition build_outbound_multiline_frames (ctx : RelayContext) (caps : ReceiverCaps) : list string :=
  if negb (has_tags caps) then build_plain_fallback_frames ctx
  else if has_multiline caps then build_capable_frames ctx caps
  else build_tagged_fallback_frames ctx caps.
End Handlers.

(** ** What every open batch satisfies *)

Record lines_ok (first_command : option string) (lines : list BatchLine) : Prop := {
  lo_bytes : len (assemble_lines true lines) <= MAX_BYTES;
  lo_count : Z.of_nat (List.length lines) <= MAX_LINES;
  lo_command : Forall (fun l => first_command = Some (bl_command l)) lines;
  lo_head : forall l, head lines = Some l -> bl_concat_to_previous l = false;
  lo_concat : Forall (fun l => bl_concat_to_previous l = true -> is_empty (bl_body l) = false) lines
}.

Record batch_ok (b : OpenBatch) : Prop := {
  bo_lines : lines_ok (ob_first_command b) (ob_lines b);
  bo_count : ob_byte_count b = len (assemble_body b);
  bo_target : is_empty (ob_target b) = false;
  bo_type : ob_batch_type b = "draft/multiline"
}.

Definition open_ok (open : Batches) : Prop :=
  map_Forall (fun k b => ob_batch_id b = k.2 /\ batch_ok b) open
  /\ forall sid, count_session_open_batches open sid <= MAX_CONCURRENT_BATCHES_PER_SESSION.

Lemma len_app s t : len (s +:+ t) = len s + len t.
Proof. unfold len. rewrite append_length. lia. Qed.

Lemma assemble_false_snoc lines l :
  assemble_lines false (lines ++ [l])
  = (assemble_lines false lines +:+ assemble_lines false [l]).
Proof.
  induction lines as [|x lines IH]; [done|]. cbn [assemble_lines app]. rewrite IH.
  by rewrite !append_assoc.
Qed.

Lemma assemble_snoc lines l :
  assemble_lines true (lines ++ [l])
  = (assemble_lines true lines
     +:+ (if match lines with [] => true | _ => false end || bl_concat_to_previous l then "" else String LF "")
     +:+ bl_body l).
Proof.
  destruct lines as [|x lines]; [simpl; by rewrite append_nil_r|].
  cbn [app assemble_lines orb]. rewrite assemble_false_snoc. cbn [assemble_lines orb].
  by rewrite append_nil_r, !append_assoc.
Qed.

(** The running byte count is the length of the assembled body. *)
Lemma push_bytes b body c cmd :
  ob_byte_count b = len (assemble_body b) ->
  ob_byte_count b + cost_of_appending b body c
  = len (assemble_lines true (ob_lines b ++ [mkLine body c cmd])).
Proof.
  intros H. rewrite assemble_snoc, !len_app. rewrite H. unfold assemble_body, cost_of_appending, no_lines.
  simpl. destruct (match ob_lines b with [] => true | _ => false end || c); unfold len; simpl; lia.
Qed.

Lemma push_lines_ok b body c cmd :
  batch_ok b -> ob_first_command b = Some cmd ->
  (c && is_empty body) = false -> (no_lines b && c) = false ->
  ob_byte_count b + cost_of_appending b body c <= MAX_BYTES ->
  Z.of_nat (List.length (ob_lines b)) + 1 <= MAX_LINES ->
  batch_ok (push_line b (mkLine body c cmd) (cost_of_appending b body c)).
Proof.
  intros [[H1 H2 H3 H4 H5] Hb Ht Hty] Hcmd Hblank Hfirst Hbytes Hcount.
  pose proof (push_bytes b body c cmd Hb) as Hpb.
  split; [|exact Hpb|done|done]. split; simpl.
  - by rewrite <- Hpb.
  - rewrite length_app. simpl. lia.
  - apply Forall_app. split; [done|]. by repeat constructor.
  - intros l. unfold no_lines in Hfirst. destruct (ob_lines b); simpl; [|apply H4].
    intros [= <-]. by destruct c.
  - apply Forall_app. split; [done|]. repeat constructor. simpl. by intros ->.
Qed.

Lemma pin_ok b command : batch_ok b -> mixes b command = false ->
  batch_ok (pin_command b command) /\ ob_first_command (pin_command b command) = Some command.
Proof.
  intros [[H1 H2 H3 H4 H5] Hb Ht Hty] Hm. unfold mixes, pin_command in *. destruct b as [? ? ? ? lines ? fc].
  simpl in *. destruct fc as [c|].
  - bool_hyps. by subst.
  - split; [|done]. split; [|done..]. split; simpl; try done.
    destruct lines; [constructor|]. apply Forall_cons in H3 as [? _]. done.
Qed.

(** ** The per-session count *)

Lemma count_insert_fresh open sid id b s :
  open !! (sid, id) = None ->
  count_session_open_batches (<[(sid, id) := b]> open) s
  = count_session_open_batches open s + if String.eqb sid s then 1 else 0.
Proof.
  intros Hf. unfold count_session_open_batches.
  pose proof (map_to_list_insert open (sid, id) b Hf) as HP.
  apply (filter_Permutation_List (fun kv => String.eqb kv.1.1 s)), Permutation_length in HP.
  rewrite HP. simpl. destruct (sid =? s)%string; simpl; lia.
Qed.

Lemma count_deleted open sid id b b' s :
  open !! (sid, id) = Some b ->
  count_session_open_batches open s
    = count_session_open_batches (delete (sid, id) open) s + (if String.eqb sid s then 1 else 0)
  /\ count_session_open_batches (<[(sid, id) := b']> open) s = count_session_open_batches open s.
Proof.
  intros Hk. pose proof (lookup_delete_eq open (sid, id)) as Hd.
  pose proof (count_insert_fresh (delete (sid, id) open) sid id b s Hd) as H1.
  pose proof (count_insert_fresh (delete (sid, id) open) sid id b' s Hd) as H2.
  rewrite insert_delete_id in H1 by done. rewrite insert_delete_eq in H2. lia.
Qed.

Lemma count_delete open k s :
  count_session_open_batches (delete k open) s <= count_session_open_batches open s.
Proof.
  destruct (open !! k) as [b|] eqn:Hk; [|by rewrite delete_id]. destruct k as [sid id].
  destruct (count_deleted open sid id b b s Hk) as [-> _]. destruct (sid =? s)%string; lia.
Qed.

Lemma count_drop open sid s :
  count_session_open_batches (drop_session open sid) s <= count_session_open_batches open s.
Proof.
  unfold drop_session. induction open as [|[i j] b m Hf IH] using map_ind.
  { by rewrite map_filter_empty. }
  rewrite (count_insert_fresh m i j b s Hf).
  destruct (i =? sid)%string eqn:E.
  - rewrite map_filter_insert_False by (simpl; congruence). rewrite delete_id by done.
    destruct (i =? s)%string; lia.
  - rewrite map_filter_insert_True by done. rewrite count_insert_fresh; [lia|].
    apply map_lookup_filter_None. by left.
Qed.

(** ** Every history of lines and disconnects keeps the limits *)

Inductive client_event :=
| ELine (session_id : string) (msg : Message)
| EDisconnect (session_id : string).

Section Histories.
Context {CF : CaseFold} {HO : HashOrder}.
Variable server_name : string.

Definition on_event (open : Batches) (e : client_event) : Batches :=
  match e with
  | ELine sid msg => (handle_line server_name open sid msg).1
  | EDisconnect sid => drop_session open sid
  end.

Definition after_events (events : list client_event) : Batches := fold_left on_event events ∅.

Lemma replace_ok open sid id b b' :
  open_ok open -> open !! (sid, id) = Some b -> ob_batch_id b' = ob_batch_id b -> batch_ok b' ->
  open_ok (<[(sid, id) := b']> open).
Proof.
  intros [H Hc] Hk Hid Hb. split.
  - apply map_Forall_insert_2; [|done]. split; [|done]. rewrite Hid. by apply (H _ _ Hk).
  - intros s. destruct (count_deleted open sid id b b' s Hk) as [_ ->]. apply Hc.
Qed.

Lemma open_batch_ok open sid id ty target tg :
  open_ok open -> open_ok (handle_batch_open open sid id ty target tg).2.
Proof.
  intros Hok. pose proof Hok as [H Hc]. unfold handle_batch_open.
  destruct (is_empty id); [done|]. destruct (negb (ty =? _)%string) eqn:Ety; [done|].
  destruct (is_empty target) eqn:Et; [done|]. destruct (open !! (sid, id)) eqn:Ek; [done|].
  destruct (_ <=? _) eqn:En; [done|]. bool_hyps. subst ty. split; simpl.
  - apply map_Forall_insert_2; [|done]. split; [done|]. split; [|done..].
    by split.
  - intros s. rewrite count_insert_fresh by done. destruct (String.eqb_spec sid s) as [<-|]; [lia|].
    specialize (Hc s). lia.
Qed.

Lemma route_ok open sid tg cmd target body c :
  open_ok open -> open_ok (try_route_to_batch open sid tg cmd target body c).2.
Proof.
  intros Hok. pose proof Hok as [H Hc]. unfold try_route_to_batch.
  destruct (tg !! "batch") as [id|]; [|done]. destruct (open !! (sid, id)) as [b|] eqn:Ek; [|done].
  destruct (negb _); [done|]. destruct (mixes b cmd) eqn:Em; [done|].
  destruct (H _ _ Ek) as [Hid Hb]. destruct (pin_ok b cmd Hb Em) as [Hpin Hcmd].
  assert (open_ok (<[(sid, id) := pin_command b cmd]> open)) as Hok' by (by eapply replace_ok).
  destruct (c && is_empty body) eqn:E1; [done|].
  destruct (no_lines (pin_command b cmd) && c) eqn:E2; [done|].
  destruct (MAX_BYTES <? _) eqn:E3; [done|]. destruct (MAX_LINES <? _) eqn:E4; [done|]. bool_hyps.
  cbn [snd]. rewrite insert_insert_eq. eapply replace_ok; [done|exact Ek|done|].
  by apply push_lines_ok; try lia.
Qed.

Lemma close_ok open sid id : open_ok open -> open_ok (handle_batch_close open sid id).2.
Proof.
  intros Hok. pose proof Hok as [H Hc]. unfold handle_batch_close. destruct (open !! (sid, id)); [|done].
  cbn [snd]. split; [by apply map_Forall_delete|].
  intros s. pose proof (count_delete open (sid, id) s). specialize (Hc s). lia.
Qed.

Lemma on_event_ok open e : open_ok open -> open_ok (on_event open e).
Proof.
  intros Hok. destruct e as [sid msg|sid]; simpl.
  - unfold handle_line. destruct (_ || _).
    + destruct (params msg !! 0%nat) as [t|]; [|done]. destruct (params msg !! 1%nat) as [x|]; [|done].
      pose proof (route_ok open sid (tags msg) (command msg) (route_target t) x
                    (bool_decide (is_Some (tags msg !! "draft/multiline-concat"))) Hok) as Hr.
      by destruct (try_route_to_batch _ _ _ _ _ _ _) as [[] ?].
    + destruct (_ =? _)%string; [|done]. unfold handle_batch_command.
      destruct (params msg !! 0%nat) as [[|ch r]|]; [done| |done].
      destruct (split_at_1 _) as [[sign id]|]; [|done]. destruct (Ascii.eqb sign "+").
      * pose proof (open_batch_ok open sid id (nth_param msg 1) (nth_param msg 2) (delete "batch" (tags msg)) Hok).
        by destruct (handle_batch_open _ _ _ _ _ _) as [[] ?].
      * destruct (Ascii.eqb sign "-"); [|done]. pose proof (close_ok open sid id Hok).
        by destruct (handle_batch_close _ _ _) as [[] ?].
  - destruct Hok as [H Hc]. split.
    + intros k b Hk. apply map_lookup_filter_Some in Hk as [Hk _]. by apply H.
    + intros s. pose proof (count_drop open sid s). specialize (Hc s). lia.
Qed.

Lemma after_events_ok events : open_ok (after_events events).
Proof.
  unfold after_events. apply fold_left_inv; [apply on_event_ok|]. split; [apply map_Forall_empty|].
  intros s. unfold count_session_open_batches. by rewrite map_to_list_empty.
Qed.

(** C34: the limits of multiline batches hold whatever clients send. After any
    interleaving of lines and disconnects of any number of sessions: a session
    has at most 5 batches open; each open batch holds at most 100 lines, its
    running byte count is the exact length of the message it would assemble to
    and that is at most 40,000 bytes, all its lines are of one command, and no
    line that joins its predecessor is blank or first. A message handed on by
    the next line is the assembly of its lines, within the same limits, and is
    not made of blank lines only (it may have none). *)
Theorem multiline_limits events sid msg :
  let open := after_events events in
  open_ok open
  /\ forall cmd target body tg lines,
       In (Assembled cmd target body tg lines) (handle_line server_name open sid msg).2 ->
       body = assemble_lines true lines /\ lines_ok (Some cmd) lines /\ is_empty target = false
       /\ (lines = [] \/ Exists (fun l => is_empty (bl_body l) = false) lines).
Proof.
  intros open. pose proof (after_events_ok events) as Hok. fold open in Hok. split; [done|].
  intros cmd target body tg lines. unfold handle_line. destruct (_ || _).
  { destruct (params msg !! 0%nat) as [t|]; [|done]. destruct (params msg !! 1%nat) as [x|]; [|done].
    destruct (try_route_to_batch _ _ _ _ _ _ _) as [[| |[]] ?]; simpl; naive_solver. }
  destruct (_ =? _)%string; [|done]. unfold handle_batch_command.
  destruct (params msg !! 0%nat) as [[|ch r]|]; [simpl; naive_solver| |simpl; naive_solver].
  destruct (split_at_1 _) as [[sign id]|]; [|simpl; naive_solver]. destruct (Ascii.eqb sign "+").
  { destruct (handle_batch_open _ _ _ _ _ _) as [[|[]] ?]; simpl; naive_solver. }
  destruct (Ascii.eqb sign "-"); [|simpl; naive_solver]. unfold handle_batch_close.
  destruct (open !! (sid, id)) as [b|] eqn:Ek; [|simpl; naive_solver].
  destruct (proj1 Hok _ _ Ek) as [_ [Hl Hc Ht Hty]].
  destruct (negb (no_lines b) && _) eqn:Eb; simpl; [naive_solver|]. intros [[= <- <- <- <- <-]|[]].
  split_and!; [done| |done|].
  - destruct (ob_first_command b); [done|]. destruct Hl as [H1 H2 H3 H4 H5]. split; try done.
    destruct (ob_lines b); [constructor|]. by apply Forall_cons in H3 as [? _].
  - unfold no_lines in Eb. destruct (ob_lines b) as [|l ls] eqn:El; [by left|right].
    apply andb_false_iff in Eb as [Eb|Eb]; [done|].
    by apply forallb_false_Exists in Eb.
Qed.

(** ** A relayed batch reads back as the message that was sent *)

(** A receiver that runs the same line loop over the frames it gets. *)
Definition ingest (sid : string) (acc : Batches * list Effect) (frame : string) : Batches * list Effect :=
  match parse frame with
  | Some msg => let '(open', effs) := handle_line server_name acc.1 sid msg in (open', acc.2 ++ effs)
  | None => acc
  end.

(** What the wire needs of the fixed parts of a relay. *)
Record relay_ok (ctx : RelayContext) : Prop := {
  rl_host : wf_prefix (Some (rc_hostmask ctx)) = true;
  rl_command : rc_command ctx = "PRIVMSG" \/ rc_command ctx = "NOTICE";
  rl_target : is_empty (rc_target ctx) = false /\ str_contains " " (rc_target ctx) = false
              /\ starts_with_char ":" (rc_target ctx) = false /\ clean (rc_target ctx) = true
              /\ route_target (rc_target ctx) = rc_target ctx;
  rl_id : is_empty (rc_batch_id ctx) = false /\ str_contains " " (rc_batch_id ctx) = false
          /\ clean (rc_batch_id ctx) = true
          /\ match rc_batch_id ctx with String c _ => is_continuation c = false | _ => True end;
  rl_lines : lines_ok (Some (rc_command ctx)) (rc_lines ctx)
             /\ Forall (fun l => clean (bl_body l) = true) (rc_lines ctx)
             /\ Exists (fun l => is_empty (bl_body l) = false) (rc_lines ctx);
  rl_tags : map_Forall (fun k _ => wf_key k = true) (rc_opener_tags ctx)
}.

Definition partial (ctx : RelayContext) (tg : gmap string string) (lines : list BatchLine) : OpenBatch :=
  mkBatch (rc_batch_id ctx) "draft/multiline" (rc_target ctx) tg lines
    (len (assemble_lines true lines)) (match lines with [] => None | _ => Some (rc_command ctx) end).

Lemma assemble_false_len_mono pre post :
  len (assemble_lines false pre) <= len (assemble_lines false (pre ++ post)).
Proof.
  induction pre as [|x pre IH]; cbn [assemble_lines app]; [unfold len; simpl; lia|].
  rewrite !len_app. lia.
Qed.

Lemma assemble_len_mono pre post :
  len (assemble_lines true pre) <= len (assemble_lines true (pre ++ post)).
Proof.
  destruct pre as [|x pre]; cbn [assemble_lines app orb]; [unfold len; simpl; lia|].
  rewrite !len_app. pose proof (assemble_false_len_mono pre post). lia.
Qed.

(** One line of the relay extends the partial batch by that line. *)
Lemma route_line ctx tg open sid pre l post :
  relay_ok ctx -> rc_lines ctx = pre ++ l :: post ->
  open !! (sid, rc_batch_id ctx) = Some (partial ctx tg pre) ->
  handle_line server_name open sid (line_frame ctx l)
  = (<[(sid, rc_batch_id ctx) := partial ctx tg (pre ++ [l])]> open, []).
Proof.
  intros [_ Hcmd (Ht1 & _ & _ & _ & Hrt) _ ([H1 H2 H3 H4 H5] & _) _] Hl Hk.
  unfold handle_line. cbn [command params line_frame tags].
  replace (_ || _) with true by (by destruct Hcmd as [-> | ->]). cbn [lookup list_lookup].
  rewrite Hrt. unfold try_route_to_batch.
  assert ((tags (line_frame ctx l)) !! "batch" = Some (rc_batch_id ctx)) as Hbt.
  { simpl. destruct (bl_concat_to_previous l); [rewrite lookup_insert_ne by done|]; by rewrite lookup_insert_eq. }
  assert (bool_decide (is_Some ((tags (line_frame ctx l)) !! "draft/multiline-concat"))
          = bl_concat_to_previous l) as Hcc.
  { simpl. destruct (bl_concat_to_previous l).
    - rewrite lookup_insert_eq. by apply bool_decide_eq_true_2.
    - rewrite lookup_insert_ne, lookup_empty by done. apply bool_decide_eq_false_2. by intros []. }
  cbn [tags line_frame] in Hbt, Hcc. rewrite Hbt, Hcc, Hk. cbn [partial ob_target]. rewrite String.eqb_refl.
  rewrite Hl in H1, H2, H3, H4, H5. cbn [negb].
  assert (mixes (partial ctx tg pre) (rc_command ctx) = false) as ->.
  { unfold mixes. simpl. destruct pre; [done|]. by rewrite String.eqb_refl. }
  assert (pin_command (partial ctx tg pre) (rc_command ctx)
          = mkBatch (rc_batch_id ctx) "draft/multiline" (rc_target ctx) tg pre
              (len (assemble_lines true pre)) (Some (rc_command ctx))) as ->
    by (unfold pin_command; simpl; by destruct pre).
  set (e := mkBatch _ _ _ _ _ _ _).
  assert (l = mkLine (bl_body l) (bl_concat_to_previous l) (rc_command ctx)) as El.
  { apply Forall_app in H3 as [_ [Hc _]%Forall_cons]. injection Hc as ->. by destruct l. }
  assert (bl_concat_to_previous l && is_empty (bl_body l) = false) as ->.
  { apply Forall_app in H5 as [_ [Hb _]%Forall_cons]. destruct (bl_concat_to_previous l); auto. }
  assert (no_lines e && bl_concat_to_previous l = false) as ->.
  { unfold e, no_lines. simpl. destruct pre; [|done]. simpl in *. by apply H4. }
  assert (ob_byte_count e + cost_of_appending e (bl_body l) (bl_concat_to_previous l)
          = len (assemble_lines true (pre ++ [l]))) as Hcost by (rewrite El at 3; by apply push_bytes).
  rewrite Hcost.
  pose proof (assemble_len_mono (pre ++ [l]) post) as Hmono. rewrite <- app_assoc in Hmono. simpl in Hmono.
  rewrite (proj2 (Z.ltb_ge _ _)) by lia.
  rewrite length_app in H2. simpl in H2. simpl List.length at 1.
  rewrite (proj2 (Z.ltb_ge _ _)) by (simpl; lia).
  rewrite insert_insert_eq. unfold push_line. rewrite Hcost, <- El. unfold partial. simpl.
  by destruct pre.
Qed.

Lemma line_frame_wf ctx l :
  relay_ok ctx -> clean (bl_body l) = true -> wf_message (line_frame ctx l).
Proof.
  intros [Hh Hcmd (Ht1 & Ht2 & Ht3 & Ht4 & _) _ _ _] Hb. split_and!; [done| | |].
  - simpl. by destruct Hcmd as [-> | ->].
  - simpl. by rewrite Ht2, Ht3, Ht4, Hb.
  - simpl. assert (map_Forall (fun k _ => wf_key k = true) ({["batch" := rc_batch_id ctx]} : gmap string string))
      as Hb0 by (by apply map_Forall_singleton).
    destruct (bl_concat_to_previous l); [|done]. by apply map_Forall_insert_2.
Qed.

Lemma ingest_lines ctx tg sid pre post open :
  relay_ok ctx -> rc_lines ctx = pre ++ post ->
  open !! (sid, rc_batch_id ctx) = Some (partial ctx tg pre) ->
  fold_left (ingest sid) (map (fun l => server_display (line_frame ctx l) +:+ CRLF) post) (open, [])
  = (<[(sid, rc_batch_id ctx) := partial ctx tg (pre ++ post)]> open, []).
Proof.
  intros Hctx. revert pre open; induction post as [|l post IH]; intros pre open Hl Hk.
  { simpl. by rewrite app_nil_r, insert_id. }
  cbn [map fold_left]. unfold ingest at 2. rewrite parse_terminated, server_display_parse.
  - cbn [fst snd]. rewrite (route_line ctx tg open sid pre l post) by done. cbn [app].
    rewrite (IH (pre ++ [l])); [|by rewrite <- app_assoc|by rewrite lookup_insert_eq].
    by rewrite <- app_assoc, insert_insert_eq.
  - apply line_frame_wf; [done|]. destruct Hctx as [_ _ _ _ (_ & HF & _) _].
    rewrite Hl in HF. by apply Forall_app in HF as [_ [? _]%Forall_cons].
Qed.

Lemma carrier_tags_wf ctx caps :
  map_Forall (fun k _ => wf_key k = true) (rc_opener_tags ctx) ->
  map_Forall (fun k _ => wf_key k = true) (carrier_tags ctx caps).
Proof.
  intros H. unfold carrier_tags.
  assert (map_Forall (fun k _ => wf_key k = true) (<["msgid" := rc_msgid ctx]> (rc_opener_tags ctx))) as H1
    by (by apply map_Forall_insert_2).
  destruct (has_time caps), (sender_did caps) as [d|], (wants_account caps);
    repeat (apply map_Forall_insert_2; [done|]); done.
Qed.

Lemma batch_reference sign ctx :
  relay_ok ctx -> split_at_1 (String sign (rc_batch_id ctx)) = Some (sign, rc_batch_id ctx).
Proof.
  intros [_ _ _ (He & _ & _ & Hc) _ _]. unfold split_at_1. destruct (rc_batch_id ctx) as [|c r]; [done|].
  by rewrite Hc.
Qed.

Lemma ingest_opener ctx caps sid open :
  relay_ok ctx -> open !! (sid, rc_batch_id ctx) = None ->
  count_session_open_batches open sid < MAX_CONCURRENT_BATCHES_PER_SESSION ->
  ingest sid (open, []) (server_display (opener_frame ctx caps) +:+ CRLF)
  = (<[(sid, rc_batch_id ctx) := partial ctx (delete "batch" (carrier_tags ctx caps)) []]> open, []).
Proof.
  intros Hctx Hk Hn. pose proof Hctx as [Hh _ (Ht1 & Ht2 & Ht3 & Ht4 & _) (Hi1 & Hi2 & Hi3 & _) _ Htg].
  unfold ingest. rewrite parse_terminated, server_display_parse.
  - cbn [fst snd]. unfold handle_line. cbn [command opener_frame].
    change (_ || _) with false. change (String.eqb "BATCH" "BATCH") with true. cbn iota.
    unfold handle_batch_command. cbn [params opener_frame lookup list_lookup String.append].
    rewrite batch_reference by done. change (Ascii.eqb "+" "+") with true. cbn iota.
    change (nth_param (opener_frame ctx caps) 1) with "draft/multiline"%string.
    change (nth_param (opener_frame ctx caps) 2) with (rc_target ctx).
    unfold handle_batch_open. rewrite Hi1, Ht1, Hk. cbn [negb].
    change (String.eqb "draft/multiline" "draft/multiline") with true. cbn [negb].
    by rewrite (proj2 (Z.leb_gt _ _)) by done.
  - split_and!; [done|done| |by apply carrier_tags_wf]. cbn [params opener_frame wf_params String.append].
    rewrite Ht4. unfold clean, str_contains in *. cbn [str_any]. bool_hyps. rewrite Hi2, Hi3. done.
Qed.

Lemma closer_frame ctx :
  relay_ok ctx ->
  parse ("BATCH -" +:+ rc_batch_id ctx +:+ CRLF)
  = Some (new "BATCH" [String "-" (rc_batch_id ctx)]).
Proof.
  intros [_ _ _ (Hi1 & Hi2 & Hi3 & _) _ _].
  assert (("BATCH -" +:+ rc_batch_id ctx +:+ CRLF)
          = (server_display (new "BATCH" [String "-" (rc_batch_id ctx)]) +:+ CRLF)) as ->.
  { unfold server_display, fmt_tags. simpl tags.
    assert (hash_iter (∅ : gmap string string) = []) as ->.
    { apply Permutation_nil_r. by rewrite hash_iter_perm, map_to_list_empty. }
    cbn [prefix new command params server_fmt_params andb].
    assert (needs_trailing (String "-" (rc_batch_id ctx)) = false) as ->.
    { unfold needs_trailing, str_contains in *. cbn [str_any]. by rewrite Hi2. }
    cbn [String.append]. by rewrite append_nil_r. }
  rewrite parse_terminated. apply server_display_parse. split_and!; [done|done| |apply map_Forall_empty].
  cbn [params new wf_params]. unfold clean in *. cbn [str_any]. bool_hyps. by rewrite Hi3.
Qed.

(** A relayed multiline message arrives as it was sent. For a receiver that
    negotiated multiline, the frames the server writes (whatever order its tag
    maps print in), parsed and fed to the same batch state machine on a session
    with room for it, hand on exactly one message: same command, same target,
    same body byte for byte, same line structure, with the carrier's tags; and
    leave no batch open. *)
Theorem capable_relay_roundtrip ctx caps sid open :
  relay_ok ctx -> open !! (sid, rc_batch_id ctx) = None ->
  count_session_open_batches open sid < MAX_CONCURRENT_BATCHES_PER_SESSION ->
  fold_left (ingest sid) (build_capable_frames ctx caps) (open, [])
  = (open, [Assembled (rc_command ctx) (rc_target ctx) (assemble_lines true (rc_lines ctx))
              (delete "batch" (carrier_tags ctx caps)) (rc_lines ctx)]).
Proof.
  intros Hctx Hk Hn. pose proof Hctx as [_ _ _ _ (_ & _ & Hex) _].
  unfold build_capable_frames. cbn [fold_left]. rewrite ingest_opener by done.
  rewrite fold_left_app, (ingest_lines ctx (delete "batch" (carrier_tags ctx caps)) sid [] (rc_lines ctx)); [|done|done|by rewrite lookup_insert_eq].
  rewrite insert_insert_eq. cbn [fold_left app]. unfold ingest. rewrite closer_frame by done.
  cbn [fst snd]. unfold handle_line. cbn [command new].
  change (_ || _) with false. change (String.eqb "BATCH" "BATCH") with true. cbn iota.
  unfold handle_batch_command. cbn [params new lookup list_lookup].
  rewrite batch_reference by done. change (Ascii.eqb "-" "+") with false.
  change (Ascii.eqb "-" "-") with true. cbn iota.
  unfold handle_batch_close. rewrite lookup_insert_eq. cbn [partial ob_lines].
  assert (forallb (fun l => is_empty (bl_body l)) (rc_lines ctx) = false) as ->.
  { apply not_true_is_false. rewrite forallb_forall. intros HF. apply Exists_exists in Hex as (l & Hl & He).
    rewrite (HF l) in He; [done|by apply list_elem_of_In]. }
  rewrite andb_false_r, delete_insert_id by done. cbn [app]. unfold dispatch_assembled_batch, assemble_body.
  simpl. do 3 f_equal. destruct (rc_lines ctx); [by inversion Hex|done].
Qed.

(** ** The rate-limit exemption buys nothing but batch traffic *)

Lemma strip_char_inv c s r : strip_prefix (String c "") s = Some r -> s = String c r.
Proof.
  unfold strip_prefix. destruct s as [|d s]; [done|].
  destruct (Ascii.eqb c d) eqn:E; [|done]. bool_hyps. by intros [= <-]; subst.
Qed.

(** What the flood limiter lets through for free stays inside a batch. A
    line the exemption covers is never delivered as a message of its own
    (handed to the ordinary PRIVMSG path): it is absorbed by its open batch or
    refused. An exempt opener (with an ASCII batch id) is accepted by the very
    check the exemption anticipates: it opens its batch and draws no error. *)
Theorem rate_exempt_is_batch_traffic open cb cm sid msg :
  rate_exempt open cb cm sid msg = true ->
  (forall c t x tg, ~ In (Privmsg c t x tg) (handle_line server_name open sid msg).2)
  /\ (forall id, command msg = "BATCH" -> params msg !! 0%nat = Some (String "+" id) ->
        str_all (fun b => byte b <? 128) id = true ->
        (handle_line server_name open sid msg).2 = []
        /\ is_Some ((handle_line server_name open sid msg).1 !! (sid, id))).
Proof.
  unfold rate_exempt, handle_line.
  destruct (String.eqb_spec (command msg) "BATCH") as [Hc|Hc].
  - rewrite Hc. change (_ || _) with false. cbn iota. intros Hex. split.
    + intros c t x tg. unfold handle_batch_command.
      destruct (params msg !! 0%nat) as [[|ch r]|]; [simpl; naive_solver| |simpl; naive_solver].
      destruct (split_at_1 _) as [[sign id]|]; [|simpl; naive_solver]. destruct (Ascii.eqb sign "+").
      { destruct (handle_batch_open _ _ _ _ _ _) as [[|[]] ?]; simpl; naive_solver. }
      destruct (Ascii.eqb sign "-"); [|simpl; naive_solver].
      destruct (handle_batch_close _ _ _) as [[|[]] ?]; simpl; naive_solver.
    + intros id _ Hp Hascii. unfold batch_rate_exempt in Hex. rewrite Hp, strip_char_some in Hex.
      unfold batch_open_rate_exempt in Hex. bool_hyps. unfold handle_batch_command. rewrite Hp.
      assert (split_at_1 (String "+" id) = Some ("+"%char, id)) as ->.
      { unfold split_at_1, is_continuation. destruct id as [|d id]; [done|]. simpl in Hascii. bool_hyps.
        by rewrite (proj2 (Z.leb_gt _ _)). }
      change (Ascii.eqb "+" "+") with true. cbn iota. unfold handle_batch_open, nth_param.
      destruct (params msg !! 1%nat) as [ty|]; [|done]. destruct (params msg !! 2%nat) as [tgt|]; [|done].
      bool_hyps. subst ty. simpl default.
      match goal with H : is_empty id = false |- _ => rewrite H end.
      match goal with H : is_empty tgt = false |- _ => rewrite H end.
      change (String.eqb "draft/multiline" "draft/multiline") with true. cbn [negb].
      match goal with H : bool_decide (is_Some (open !! _)) = false |- _ =>
        apply bool_decide_eq_false in H; destruct (open !! (sid, id)) eqn:Eo; [destruct H; eauto|] end.
      rewrite (proj2 (Z.leb_gt _ _)) by done. simpl. rewrite lookup_insert_eq. eauto.
  - destruct (_ || _) eqn:Hcmd; [|done]. intros Hex. split; [|done].
    intros c t x tg. unfold chunk_rate_exempt in Hex.
    destruct (tags msg !! "batch") as [id|] eqn:Eb; [|done].
    destruct (params msg !! 0%nat) as [t0|]; [|done]. destruct (params msg !! 1%nat) as [x0|]; [|done].
    destruct (open !! (sid, id)) as [b|] eqn:Eo; [|done].
    assert (forall cmd tgt body cc,
      match (try_route_to_batch open sid (tags msg) cmd tgt body cc).1 with NotInBatch => False | _ => True end)
      as Hnot.
    { intros. unfold try_route_to_batch. rewrite Eb, Eo.
      repeat (match goal with |- context [if ?q then _ else _] => destruct q end; [done|]). done. }
    specialize (Hnot (command msg) (route_target t0) x0
                  (bool_decide (is_Some (tags msg !! "draft/multiline-concat")))).
    destruct (try_route_to_batch _ _ _ _ _ _ _) as [[| |[]] ?]; simpl; naive_solver.
Qed.

(** ** Two defects *)

(** A batch for a channel spelled with capitals takes no line. The opener
    keeps the channel's name as typed while every PRIVMSG or NOTICE to a channel
    is compared by its lower-cased name, so on such a batch no line, however
    its target is spelled, is ever absorbed: each draws an error and the batch
    stays as it was. *)
Theorem mixed_case_batch_takes_no_line open sid id b msg :
  open !! (sid, id) = Some b -> tags msg !! "batch" = Some id ->
  starts_with_char "#" (ob_target b) || starts_with_char "&" (ob_target b) = true ->
  to_lowercase (ob_target b) <> ob_target b ->
  command msg = "PRIVMSG" \/ command msg = "NOTICE" ->
  (2 <= List.length (params msg))%nat ->
  exists t, handle_line server_name open sid msg
            = (open, [send_batch_error server_name (InvalidTarget (ob_target b) t)]).
Proof.
  intros Hk Hb Hch Hlow Hcmd Hlen. unfold handle_line.
  replace (_ || _) with true by (by destruct Hcmd as [-> | ->]).
  destruct (params msg) as [|t [|x rest]]; [simpl in Hlen; lia..|]. cbn [lookup list_lookup].
  exists (route_target t). unfold try_route_to_batch. rewrite Hb, Hk.
  assert (String.eqb (route_target t) (ob_target b) = false) as ->; [|done].
  apply String.eqb_neq. intros E. unfold route_target, normalize_channel in E.
  destruct (starts_with_char "#" t || starts_with_char "&" t) eqn:Et;
    [apply Hlow; by rewrite <- E, to_lowercase_idem|congruence].
Qed.

(** A batch with no lines is not refused. Opening a batch and closing it at
    once hands on an empty PRIVMSG to its target, although the closing
    handler's contract says that a batch with no lines is rejected. *)
Theorem empty_batch_is_dispatched open sid id target tg :
  handle_batch_open open sid id "draft/multiline" target tg
    = (Ok tt, <[(sid, id) := mkBatch id "draft/multiline" target tg [] 0 None]> open) ->
  exists b, handle_batch_close (handle_batch_open open sid id "draft/multiline" target tg).2 sid id
            = (Ok b, delete (sid, id) open)
            /\ dispatch_assembled_batch b = Assembled "PRIVMSG" target "" tg [].
Proof.
  intros ->. cbn [snd]. unfold handle_batch_close. rewrite lookup_insert_eq. cbn [no_lines ob_lines negb andb].
  rewrite delete_insert_eq. eauto.
Qed.
End Histories.

(** ** Examples *)

#[local] Existing Instances ascii_fold map_order.

Definition sample_relay : RelayContext :=
  mkRelay "ann!~u@host" "PRIVMSG" "#lobby" "01M16E7TC0" "2026-01-01T00:00:00Z"
    {["+freeq.at/mime" := "text/x; y"]} "b1"
    [mkLine "hello" false "PRIVMSG"; mkLine "" false "PRIVMSG"; mkLine " world" true "PRIVMSG"].

Lemma sample_relay_ok : relay_ok sample_relay.
Proof.
  split; [done|by left|done|done| |by apply map_Forall_singleton].
  split_and!; [split|..]; try (vm_compute; done); repeat constructor; try done.
  simpl. by intros l [= <-].
Qed.

Lemma capable_relay_roundtrip_witness :
  let caps := mkCaps true true true true (Some "did:plc:a") in
  fold_left (ingest "irc.example" "s1") (build_capable_frames sample_relay caps) (∅, [])
  = (∅, [Assembled "PRIVMSG" "#lobby" (assemble_lines true (rc_lines sample_relay))
           (delete "batch" (carrier_tags sample_relay caps)) (rc_lines sample_relay)]).
Proof.
  intros caps. apply (capable_relay_roundtrip "irc.example" sample_relay caps "s1" ∅).
  - apply sample_relay_ok.
  - apply lookup_empty.
  - vm_compute. reflexivity.
Defined.

Lemma rate_exempt_is_batch_traffic_witness :
  let msg := new "BATCH" ["+b1"; "draft/multiline"; "#lobby"] in
  (forall c t x tg, ~ In (Privmsg c t x tg) (handle_line "irc.example" ∅ "s1" msg).2)
  /\ (forall id, command msg = "BATCH" -> params msg !! 0%nat = Some (String "+" id) ->
        str_all (fun b => byte b <? 128) id = true ->
        (handle_line "irc.example" ∅ "s1" msg).2 = []
        /\ is_Some ((handle_line "irc.example" ∅ "s1" msg).1 !! ("s1", id))).
Proof.
  intros msg. apply (rate_exempt_is_batch_traffic "irc.example" ∅ {["s1"]} {["s1"]}).
  vm_compute. reflexivity.
Defined.

Definition capital_batch : OpenBatch := mkBatch "b1" "draft/multiline" "#Lobby" ∅ [] 0 None.

Lemma mixed_case_batch_takes_no_line_witness :
  exists t, handle_line "irc.example" {[("s1", "b1") := capital_batch]} "s1"
              (with_tags {["batch" := "b1"]} "PRIVMSG" ["#Lobby"; "hello"])
            = ({[("s1", "b1") := capital_batch]}, [send_batch_error "irc.example" (InvalidTarget "#Lobby" t)]).
Proof.
  apply (mixed_case_batch_takes_no_line "irc.example" {[("s1", "b1") := capital_batch]} "s1" "b1" capital_batch).
  - apply lookup_singleton_eq.
  - apply lookup_singleton_eq.
  - reflexivity.
  - vm_compute. discriminate.
  - by left.
  - simpl. lia.
Defined.

Lemma empty_batch_is_dispatched_witness :
  exists b, handle_batch_close (handle_batch_open ∅ "s1" "b1" "draft/multiline" "#lobby" ∅).2 "s1" "b1"
            = (Ok b, delete ("s1", "b1") ∅)
            /\ dispatch_assembled_batch b = Assembled "PRIVMSG" "#lobby" "" ∅ [].
Proof. apply empty_batch_is_dispatched. vm_compute. reflexivity. Defined.

(** A reference tag that opens with a two-byte character splits inside it. *)
Example non_ascii_reference_panics :
  (handle_batch_command "irc.example" ∅ "s1" (new "BATCH" [String "195" (String "169" "")])).2 = [Panic].
Proof. reflexivity. Qed.
