(* ===== verification/RelayQueue.v ===== *)
(** * Queues of relayed events waiting for a key

    Models [freeq-server/src/held_relay.rs] ([HeldQueue]: relayed edits and
    mutations) and, from [freeq-server/src/act_relay.rs], [DeferQueue]
    (relayed task events), [RouteQueue], [retry_backoff] and [reads_orphaned].
    The two key queues have the same structure, which is the [Queue] record
    over an item type; [QItem] is what the queue reads of an item. Instants are
    milliseconds.

    The proofs share one account of a queue ([accounted], [bounded],
    [exact_counts]); an operation either makes room for one arrival
    ([room_made]) or takes items out ([taken_out]). *)

From stdpp Require Import base gmap strings list sorting fin_maps.
From Stdlib Require Import ZArith Lia String.
From S2P Require Import Prelude ActTransitions.
Open Scope Z_scope.

(** ** Items and queues *)

Class QItem (E : Type) := {
  it_origin : E -> string;
  it_signer : E -> string;
  it_kid : E -> string;
  it_seq : E -> Z;
  it_stamp : Z -> E -> E;
  it_stamp_seq : forall n e, it_seq (it_stamp n e) = n;
  it_stamp_origin : forall n e, it_origin (it_stamp n e) = it_origin e;
  it_stamp_signer : forall n e, it_signer (it_stamp n e) = it_signer e;
  it_stamp_kid : forall n e, it_kid (it_stamp n e) = it_kid e
}.

Record KeyRetry := mkRetry { kr_waiting : Z; kr_attempts : Z; kr_next_attempt : Z }.

Notation Key := (string * string * string)%type.

Record Queue (E : Type) := mkQueue {
  by_origin : gmap string (list E);
  retries : gmap Key KeyRetry;
  total : Z;
  next_seq : Z;
  max_per_origin : Z;
  max_total : Z
}.
Arguments mkQueue {E}.
Arguments by_origin {E}.
Arguments retries {E}.
Arguments total {E}.
Arguments next_seq {E}.
Arguments max_per_origin {E}.
Arguments max_total {E}.

Definition FIRST_RETRY : Z := 30000.
Definition MAX_RETRY : Z := 600000.
Definition HOLD_LIMIT : Z := 60000.

(** [1u32 << attempts.min(5)], saturating, capped. *)
Definition retry_backoff (attempts : Z) : Z :=
  Z.min (FIRST_RETRY * Z.shiftl 1 (Z.min attempts 5)) MAX_RETRY.

Definition reads_orphaned (sp : Spec) (origin kind state : string) (home_out_of_contact : bool) : bool :=
  negb (is_empty origin) && home_out_of_contact && negb (is_terminal sp kind state).

Definition new_queue {E} (per_origin tot : Z) : Queue E :=
  mkQueue ∅ ∅ 0 0 (Z.max per_origin 1) (Z.max tot 1).

Section Queue.
Context {E : Type} {QI : QItem E}.

Definition key_of (e : E) : Key := (it_origin e, it_signer e, it_kid e).

Definition with_buckets (q : Queue E) (m : gmap string (list E)) : Queue E :=
  mkQueue m (retries q) (total q) (next_seq q) (max_per_origin q) (max_total q).

Definition bucket (q : Queue E) (o : string) : list E := default [] (by_origin q !! o).

(** The first half of [hold] and [park]: stamp, append, count. *)
Definition enqueue (q : Queue E) (now : Z) (item : E) : Queue E :=
  let item := it_stamp (next_seq q) item in
  let o := it_origin item in
  mkQueue (<[o := bucket q o ++ [item]]> (by_origin q))
    (<[key_of item := match retries q !! key_of item with
                      | Some r => mkRetry (kr_waiting r + 1) (kr_attempts r) (kr_next_attempt r)
                      | None => mkRetry 1 0 (now + FIRST_RETRY)
                      end]> (retries q))
    (total q + 1) (next_seq q + 1) (max_per_origin q) (max_total q).

(** One waiting item fewer for a key; the last one removes its entry. *)
Definition dec_retry (rs : gmap Key KeyRetry) (k : Key) : gmap Key KeyRetry :=
  match rs !! k with
  | Some r => if kr_waiting r - 1 =? 0 then delete k rs
              else <[k := mkRetry (kr_waiting r - 1) (kr_attempts r) (kr_next_attempt r)]> rs
  | None => rs
  end.

(** [forget], and the accounting half of [note_dropped]. *)
Definition forget (q : Queue E) (e : E) : Queue E :=
  mkQueue (by_origin q) (dec_retry (retries q) (key_of e)) (total q - 1) (next_seq q)
    (max_per_origin q) (max_total q).

(** [queue.remove(at)] *)
Definition take_at (q : Queue E) (o : string) (at_ : nat) : option (E * Queue E) :=
  e ← bucket q o !! at_;
  Some (e, with_buckets q (<[o := base.delete at_ (bucket q o)]> (by_origin q))).

(** A [while] loop that gives up one victim per round. Each round removes an
    item, so as many rounds as there are items are enough. *)
Fixpoint shed (fuel : nat) (over : Queue E -> bool) (victim : Queue E -> option (string * nat))
    (q : Queue E) : Queue E * list E :=
  match fuel with
  | O => (q, [])
  | S n =>
      if over q then
        match victim q with
        | Some (o, at_) =>
            match take_at q o at_ with
            | Some (e, q') => let '(q'', dropped) := shed n over victim (forget q' e) in (q'', e :: dropped)
            | None => (q, [])
            end
        | None => (q, [])
        end
      else (q, [])
  end.

Definition over_origin (o : string) (q : Queue E) : bool :=
  max_per_origin q <? Z.of_nat (List.length (bucket q o)).
Definition over_total (q : Queue E) : bool := max_total q <? total q.

(** [by_origin.retain(|_, q| !q.is_empty())] *)
Definition retain_nonempty (m : gmap string (list E)) : gmap string (list E) :=
  filter (fun kv => kv.2 <> []) m.

(** The second half of [hold] and [park]: the loop under the origin's ceiling,
    the loop under the total, then the empty queues go. *)
Definition make_room (o : string) (own_victim any_victim : Queue E -> option (string * nat))
    (q : Queue E) : Queue E * list E :=
  let fuel := Z.to_nat (total q) in
  let '(q, d1) := shed fuel (over_origin o) own_victim q in
  let '(q, d2) := shed fuel over_total any_victim q in
  (with_buckets q (retain_nonempty (by_origin q)), d1 ++ d2).

(** The smaller of two [(seq, origin)] candidates, as Rust orders tuples. *)
Definition older (a b : Z * string * nat) : Z * string * nat :=
  if a.1.1 <? b.1.1 then a
  else if b.1.1 <? a.1.1 then b
  else if String.leb a.1.2 b.1.2 then a else b.

Fixpoint oldest (l : list (Z * string * nat)) : option (Z * string * nat) :=
  match l with
  | [] => None
  | c :: r => match oldest r with Some d => Some (older c d) | None => Some c end
  end.

(** Position of the first item that satisfies [p]. *)
Fixpoint position (p : E -> bool) (l : list E) : option nat :=
  match l with
  | [] => None
  | e :: r => if p e then Some O else S <$> position p r
  end.

(** Each origin's first qualifying item, and where it is; [min] over them does
    not depend on the order the origins come in. *)
Definition candidates (p : E -> bool) (q : Queue E) : list (Z * string * nat) :=
  omap (fun ol : string * list E =>
          i ← position p ol.2; e ← ol.2 !! i; Some (it_seq e, ol.1, i))
       (map_to_list (by_origin q)).

Definition oldest_candidate (p : E -> bool) (q : Queue E) : option (string * nat) :=
  (fun c => (c.1.2, c.2)) <$> oldest (candidates p q).

(** Taking every item [wanted] picks, in order of arrival. *)
Definition seq_le (a b : E) : Prop := it_seq a <= it_seq b.
#[export] Instance seq_le_dec : RelDecision seq_le.
Proof. intros a b. unfold seq_le. apply _. Defined.

Definition picked {HO : HashOrder} (wanted : E -> bool) (q : Queue E) : list E :=
  merge_sort seq_le (flat_map (fun ol => List.filter wanted ol.2) (hash_iter (by_origin q))).

Definition kept (wanted : E -> bool) (m : gmap string (list E)) : gmap string (list E) :=
  retain_nonempty ((fun l => List.filter (fun e => negb (wanted e)) l) <$> m).

(** [retries_due]: ask again for every usable key whose time has come. The
    keys come in the map's order, on which nothing depends. *)
Definition due (now : Z) (k : Key) (r : KeyRetry) : bool :=
  negb (is_empty k.1.2) && negb (is_empty k.2) && (kr_next_attempt r <=? now).

Definition retries_due (q : Queue E) (now : Z) : list Key * Queue E :=
  (map fst (List.filter (fun kr => due now kr.1 kr.2) (map_to_list (retries q))),
   mkQueue (by_origin q)
     (map_imap (fun k r => Some (if due now k r
                                 then mkRetry (kr_waiting r) (kr_attempts r + 1)
                                        (now + retry_backoff (kr_attempts r + 1))
                                 else r)) (retries q))
     (total q) (next_seq q) (max_per_origin q) (max_total q)).
End Queue.

(** ** Held edits and mutations *)

Section Held.
Context {Msg : Type} {HO : HashOrder}.

Record HeldRelay := mkHeld {
  hr_message : Msg;
  hr_peer : string;
  hr_origin : string;
  hr_origin_name : string;
  hr_at : Z;
  hr_signer : string;
  hr_kid : string;
  hr_held_at : Z;
  hr_seq : Z
}.

#[export] Instance held_item : QItem HeldRelay := {
  it_origin := hr_origin; it_signer := hr_signer; it_kid := hr_kid; it_seq := hr_seq;
  it_stamp := fun n h => mkHeld (hr_message h) (hr_peer h) (hr_origin h) (hr_origin_name h) (hr_at h)
                           (hr_signer h) (hr_kid h) (hr_held_at h) n;
  it_stamp_seq := fun n e => eq_refl; it_stamp_origin := fun n e => eq_refl;
  it_stamp_signer := fun n e => eq_refl; it_stamp_kid := fun n e => eq_refl
}.

Definition front (o : string) (q : Queue HeldRelay) : option (string * nat) :=
  match bucket q o with [] => None | _ => Some (o, O) end.

(** [oldest_origin]: every queue's first item is a candidate. *)
Definition oldest_front (q : Queue HeldRelay) : option (string * nat) :=
  oldest_candidate (fun _ => true) q.

Definition hold (q : Queue HeldRelay) (item : HeldRelay) : Queue HeldRelay * list HeldRelay :=
  let o := hr_origin item in
  make_room o (front o) oldest_front (enqueue q (hr_held_at item) item).

Definition signed_by (did kid : string) (e : HeldRelay) : bool :=
  String.eqb (hr_signer e) did && String.eqb (hr_kid e) kid.

Definition held_take_for_signer (q : Queue HeldRelay) (did kid : string) : list HeldRelay * Queue HeldRelay :=
  let taken := picked (signed_by did kid) q in
  (taken,
   mkQueue (kept (signed_by did kid) (by_origin q))
     (filter (fun kr => negb (String.eqb kr.1.1.2 did) || negb (String.eqb kr.1.2 kid) = true) (retries q))
     (total q - Z.of_nat (List.length taken)) (next_seq q) (max_per_origin q) (max_total q)).

Definition expired (now : Z) (e : HeldRelay) : bool := HOLD_LIMIT <=? Z.max 0 (now - hr_held_at e).

(** The prefix of a queue [while front().is_some_and(..) { pop_front }] takes. *)
Fixpoint expired_prefix (now : Z) (l : list HeldRelay) : list HeldRelay * list HeldRelay :=
  match l with
  | e :: r => if expired now e then let '(a, b) := expired_prefix now r in (e :: a, b) else ([], l)
  | [] => ([], [])
  end.

Definition held_expire (q : Queue HeldRelay) (now : Z) : list HeldRelay * Queue HeldRelay :=
  let gone := flat_map (fun ol => (expired_prefix now ol.2).1) (hash_iter (by_origin q)) in
  let q := with_buckets q (retain_nonempty ((fun l => (expired_prefix now l).2) <$> by_origin q)) in
  (merge_sort seq_le gone, fold_left forget gone q).
End Held.
Arguments HeldRelay : clear implicits.

(** ** Deferred task events *)

Definition CLIENT_TAG_PREFIX : string := "+freeq.at/".
Definition TAG_PREFIX : string := "freeq.at/".

Definition stripped_name (tag_name : string) : string :=
  match strip_prefix CLIENT_TAG_PREFIX tag_name with
  | Some r => r
  | None => default tag_name (strip_prefix TAG_PREFIX tag_name)
  end.

Definition is_act_tag (name : string) : bool :=
  let s := stripped_name name in String.eqb s "act" || starts_with "act-" s.

Record ParkedEvent := mkParked {
  pk_tags : gmap string string;
  pk_target : string;
  pk_from : string;
  pk_peer_account : option string;
  pk_origin : string;
  pk_peer : string;
  pk_peer_declared_act : bool;
  pk_event_id : string;
  pk_signer : string;
  pk_kid : string;
  pk_waiting_on : option string;
  pk_awaiting_task_since : option Z;
  pk_quiet : bool;
  pk_stamped_origin : option string;
  pk_replayed_at : option Z;
  pk_for_referee : bool;
  pk_seq : Z
}.

#[export] Instance parked_item : QItem ParkedEvent := {
  it_origin := pk_origin; it_signer := pk_signer; it_kid := pk_kid; it_seq := pk_seq;
  it_stamp := fun n p => mkParked (pk_tags p) (pk_target p) (pk_from p) (pk_peer_account p) (pk_origin p)
    (pk_peer p) (pk_peer_declared_act p) (pk_event_id p) (pk_signer p) (pk_kid p) (pk_waiting_on p)
    (pk_awaiting_task_since p) (pk_quiet p) (pk_stamped_origin p) (pk_replayed_at p) (pk_for_referee p) n;
  it_stamp_seq := fun n e => eq_refl; it_stamp_origin := fun n e => eq_refl;
  it_stamp_signer := fun n e => eq_refl; it_stamp_kid := fun n e => eq_refl
}.

Section Defer.
Context {HO : HashOrder}.
Variable sp : Spec.

(** What [parse_event] reads: the event's id and its act fields; the task is
    [act-id], or the event's own id. *)
Definition read_tag (acc : option string * gmap string string) (nv : string * string)
    : option string * gmap string string :=
  let '(event_id, fields) := acc in
  let s := stripped_name nv.1 in
  if String.eqb s "eventid" then (Some nv.2, fields)
  else if existsb (String.eqb s) ["from"; "account"; "sig"; "time"] then acc
  else if String.eqb s "msgid" && negb (is_some event_id) then (Some nv.2, fields)
  else if is_act_tag nv.1 then (event_id, <[s := nv.2]> fields)
  else acc.

Definition task_of (tags : gmap string string) : option string :=
  let '(event_id, fields) := fold_left read_tag (hash_iter tags) (None, ∅) in
  if bool_decide (fields = ∅) then None
  else id ← event_id; Some (default id (fields !! "act-id")).

Definition is_receipt (tags : gmap string string) : bool :=
  match tags !! "+freeq.at/act-verb" with
  | Some verb => is_confirmation sp verb
  | None => match tags !! "act-verb" with Some verb => is_confirmation sp verb | None => false end
  end.

Definition receipt (e : ParkedEvent) : bool := is_receipt (pk_tags e).

Record DeferQueue := mkDefer {
  dq : Queue ParkedEvent;
  judging : gmap string (string * Z)
}.

Definition evict_oldest_from (q : Queue ParkedEvent) (o : string) (receipts_too : bool)
    : option (string * nat) :=
  match position (fun e => negb (receipt e)) (bucket q o) with
  | Some i => Some (o, i)
  | None => if receipts_too then match bucket q o with [] => None | _ => Some (o, O) end else None
  end.

Definition oldest_origin (q : Queue ParkedEvent) (receipts_too : bool) : option string :=
  fst <$> oldest_candidate (fun e => receipts_too || negb (receipt e)) q.

Definition evict_oldest_anywhere (q : Queue ParkedEvent) (receipts_too : bool) : option (string * nat) :=
  o ← (match oldest_origin q false with
       | Some o => Some o
       | None => if receipts_too then oldest_origin q true else None
       end);
  evict_oldest_from q o receipts_too.

Definition take_arrival (q : Queue ParkedEvent) (o : string) (arrival : Z) : option (string * nat) :=
  i ← position (fun e => pk_seq e =? arrival) (bucket q o); Some (o, i).

Definition or_arrival (o : string) (arrival : Z)
    (f : Queue ParkedEvent -> option (string * nat)) (q : Queue ParkedEvent) : option (string * nat) :=
  match f q with Some v => Some v | None => take_arrival q o arrival end.

Definition park (d : DeferQueue) (now : Z) (event : ParkedEvent) : DeferQueue * list ParkedEvent :=
  let arrival := next_seq (dq d) in
  let too := receipt event in
  let o := pk_origin event in
  let '(q, dropped) :=
    make_room o (or_arrival o arrival (fun q => evict_oldest_from q o too))
                (or_arrival o arrival (fun q => evict_oldest_anywhere q too))
                (enqueue (dq d) now event) in
  (mkDefer q (judging d), dropped).

Definition take_matching (d : DeferQueue) (wanted : ParkedEvent -> bool) : list ParkedEvent * DeferQueue :=
  let taken := picked wanted (dq d) in
  let q := with_buckets (dq d) (kept wanted (by_origin (dq d))) in
  (taken, mkDefer (fold_left forget taken q) (judging d)).

Definition take_overdue_task_waits (d : DeferQueue) (now limit : Z) : list ParkedEvent * DeferQueue :=
  take_matching d (fun e => match pk_awaiting_task_since e with
                            | Some since => limit <=? Z.max 0 (now - since) | None => false end).

Definition take_for_subject (d : DeferQueue) (subject : string) : list ParkedEvent * DeferQueue :=
  take_matching d (fun e => match pk_waiting_on e with Some s => String.eqb s subject | None => false end).

Definition u64_max : Z := 2 ^ 64 - 1.

(** [max_by_key(|(seq, _)| *seq)]: the last of the greatest. *)
Fixpoint newest (l : list (Z * string)) : option (Z * string) :=
  match l with
  | [] => None
  | c :: r => match newest r with Some d => Some (if d.1 <? c.1 then c else d) | None => Some c end
  end.

Definition held_for_referee (d : DeferQueue) (act_id except : string) : option string :=
  let before := match judging d !! except with Some ts => ts.2 | None => u64_max end in
  let queued := omap (fun e =>
      if pk_for_referee e && negb (String.eqb (pk_event_id e) except) && (pk_seq e <? before)
         && match task_of (pk_tags e) with Some t => String.eqb t act_id | None => false end
      then Some (pk_seq e, pk_event_id e) else None)
    (flat_map snd (hash_iter (by_origin (dq d)))) in
  let judged := omap (fun ij : string * (string * Z) =>
      if String.eqb ij.2.1 act_id && negb (String.eqb ij.1 except) && (ij.2.2 <? before)
      then Some (ij.2.2, ij.1) else None) (hash_iter (judging d)) in
  snd <$> newest (queued ++ judged).

Definition judged (d : DeferQueue) (event_id : string) (release : bool) : list ParkedEvent * DeferQueue :=
  let d := mkDefer (dq d) (delete event_id (judging d)) in
  if release then take_for_subject d event_id else ([], d).

Definition is_held_for_referee (d : DeferQueue) (event_id : string) : bool :=
  existsb (fun e => pk_for_referee e && String.eqb (pk_event_id e) event_id)
          (flat_map snd (hash_iter (by_origin (dq d)))).

Definition mark_judging (j : gmap string (string * Z)) (e : ParkedEvent) : gmap string (string * Z) :=
  if pk_for_referee e then
    match task_of (pk_tags e) with Some task => <[pk_event_id e := (task, pk_seq e)]> j | None => j end
  else j.

Definition drop_key (q : Queue ParkedEvent) (did kid : string) : Queue ParkedEvent :=
  mkQueue (by_origin q)
    (filter (fun kr => negb (String.eqb kr.1.1.2 did) || negb (String.eqb kr.1.2 kid) = true) (retries q))
    (total q) (next_seq q) (max_per_origin q) (max_total q).

Definition defer_take_for_signer (d : DeferQueue) (did kid : string) : list ParkedEvent * DeferQueue :=
  let '(taken, d) := take_matching d (fun e =>
    match pk_waiting_on e with None => true | Some _ => false end
    && String.eqb (pk_signer e) did && String.eqb (pk_kid e) kid) in
  (taken, mkDefer (drop_key (dq d) did kid) (fold_left mark_judging taken (judging d))).
End Defer.

(** ** Transitions on their way to the task's home *)

Section Route.
Context {Msg : Type}.

Record PendingRoute := mkRoute {
  rt_act_id : string; rt_event_id : string; rt_home : string; rt_message : Msg;
  rt_attempts : Z; rt_next_attempt : Z; rt_seq : Z
}.

Record RouteQueue := mkRoutes { by_event : gmap string PendingRoute; rq_next_seq : Z; rq_max : Z }.

Definition new_routes (max : Z) : RouteQueue := mkRoutes ∅ 0 (Z.max max 1).

Definition stamp_route (n : Z) (r : PendingRoute) : PendingRoute :=
  mkRoute (rt_act_id r) (rt_event_id r) (rt_home r) (rt_message r) (rt_attempts r) (rt_next_attempt r) n.

Definition route_le (a b : string * PendingRoute) : Prop := rt_seq a.2 <= rt_seq b.2.
#[export] Instance route_le_dec : RelDecision route_le.
Proof. intros a b. unfold route_le. apply _. Defined.

(** [while len > max]: drop the route parked longest ago. *)
Fixpoint shed_routes (fuel : nat) (max : Z) (m : gmap string PendingRoute) : gmap string PendingRoute :=
  match fuel with
  | O => m
  | S n =>
      if max <? Z.of_nat (size m) then
        match head (merge_sort route_le (map_to_list m)) with
        | Some (_, r) => shed_routes n max (delete (rt_event_id r) m)
        | None => m
        end
      else m
  end.

Definition route_park (q : RouteQueue) (route : PendingRoute) : RouteQueue :=
  let r := stamp_route (rq_next_seq q) route in
  let m := <[rt_event_id r := r]> (by_event q) in
  mkRoutes (shed_routes (size m) (rq_max q) m) (rq_next_seq q + 1) (rq_max q).

(** [take_due]: the due routes by event id, each removed, then sorted by their
    (distinct) park order. *)
Definition take_due (q : RouteQueue) (now : Z) : list PendingRoute * RouteQueue :=
  let due_ids := map (fun kr => rt_event_id kr.2)
                   (List.filter (fun kr => rt_next_attempt kr.2 <=? now) (map_to_list (by_event q))) in
  (map snd (merge_sort route_le (omap (fun i => (fun r => (i, r)) <$> by_event q !! i) due_ids)),
   mkRoutes (foldr delete (by_event q) due_ids) (rq_next_seq q) (rq_max q)).
End Route.
Arguments PendingRoute : clear implicits.
Arguments RouteQueue : clear implicits.

(** ** What a queue holds *)

Section Accounts.
Context {E : Type} {QI : QItem E}.

Definition items_of (m : gmap string (list E)) : list E := flat_map snd (map_to_list m).
Definition items (q : Queue E) : list E := items_of (by_origin q).

(** How many items wait for a key, and how many its retry entry counts. *)
Definition waits (k : Key) (l : list E) : Z :=
  Z.of_nat (List.length (List.filter (fun e => bool_decide (key_of e = k)) l)).
Definition counted (rs : gmap Key KeyRetry) (k : Key) : Z :=
  match rs !! k with Some r => kr_waiting r | None => 0 end.

Definition live_counts (rs : gmap Key KeyRetry) : Prop :=
  forall k r, rs !! k = Some r -> 0 < kr_waiting r /\ 0 <= kr_attempts r.

(** The accounts every operation keeps, also between the steps of one. *)
Record accounted (q : Queue E) : Prop := mkAccounted {
  ac_total : total q = Z.of_nat (List.length (items q));
  ac_filed : forall o l, by_origin q !! o = Some l -> Forall (fun e => it_origin e = o) l;
  ac_order : forall o l, by_origin q !! o = Some l -> increasing it_seq l;
  ac_seq : Forall (fun e => it_seq e < next_seq q) (items q);
  ac_distinct : List.NoDup (map it_seq (items q));
  ac_live : live_counts (retries q);
  ac_ceilings : 1 <= max_per_origin q /\ 1 <= max_total q
}.

(** What holds between operations: no empty queue is kept and neither ceiling
    is passed. *)
Record bounded (q : Queue E) : Prop := mkBounded {
  bd_nonempty : forall o, by_origin q !! o <> Some [];
  bd_origin : forall o, Z.of_nat (List.length (bucket q o)) <= max_per_origin q;
  bd_total : total q <= max_total q
}.

(** Every retry entry counts exactly the items that wait for its key. *)
Definition exact_counts (q : Queue E) : Prop :=
  forall k, counted (retries q) k = waits k (items q).

Lemma items_bucket m o : items_of m ≡ₚ default [] (m !! o) ++ items_of (delete o m).
Proof.
  unfold items_of. destruct (m !! o) as [l|] eqn:Hl; simpl.
  - rewrite <- (insert_delete_id m o l Hl) at 1. rewrite map_to_list_insert by apply lookup_delete_eq. done.
  - by rewrite delete_id.
Qed.

Lemma items_insert m o l : items_of (<[o := l]> m) ≡ₚ l ++ items_of (delete o m).
Proof.
  rewrite (items_bucket _ o), lookup_insert_eq, delete_insert_eq. done.
Qed.

Lemma items_retain m : items_of (retain_nonempty m) ≡ₚ items_of m.
Proof.
  unfold retain_nonempty. induction m as [|o l m Ho IH] using map_ind; [done|].
  rewrite (items_insert m), delete_id by done. destruct l as [|e l].
  - rewrite map_filter_insert_False by (intros H; by apply H). by rewrite delete_id.
  - rewrite map_filter_insert_True by done. rewrite items_insert, delete_id, IH; [done|].
    apply map_lookup_filter_None. left. done.
Qed.

Lemma items_fmap (f : list E -> list E) (m : gmap string (list E)) : items_of (f <$> m) = flat_map (fun ol => f ol.2) (map_to_list m).
Proof.
  unfold items_of. rewrite map_to_list_fmap.
  induction (map_to_list m) as [|[o l] r IH]; simpl; [done|]. by f_equal.
Qed.

Lemma flat_map_filter (p : E -> bool) (l : list (string * list E)) :
  flat_map (fun ol => List.filter p ol.2) l = List.filter p (flat_map snd l).
Proof. induction l as [|[o b] l IH]; simpl; [done|]. by rewrite IH, List.filter_app. Qed.

Lemma elem_items m e : In e (items_of m) <-> exists o l, m !! o = Some l /\ In e l.
Proof.
  unfold items_of. rewrite in_flat_map. split.
  - intros ([o l] & Hol & He). apply list_elem_of_In, elem_of_map_to_list in Hol. eauto.
  - intros (o & l & Hol & He). exists (o, l). split; [|done].
    by apply list_elem_of_In, elem_of_map_to_list.
Qed.

Lemma waits_perm k l1 l2 : l1 ≡ₚ l2 -> waits k l1 = waits k l2.
Proof. intros H. unfold waits. by rewrite (Permutation_length (filter_Permutation_List _ _ _ H)). Qed.

Lemma waits_cons k e l : waits k (e :: l) = waits k l + if bool_decide (key_of e = k) then 1 else 0.
Proof. unfold waits. simpl. destruct (bool_decide _); simpl; lia. Qed.

Lemma waits_nonneg k l : 0 <= waits k l.
Proof. unfold waits. lia. Qed.

Lemma counted_dec rs k k' :
  live_counts rs -> 0 < counted rs k' ->
  counted (dec_retry rs k') k = counted rs k - if bool_decide (k' = k) then 1 else 0.
Proof.
  intros Hl Hp. unfold counted, dec_retry in *. destruct (rs !! k') as [r|] eqn:Hr; [|lia].
  case_bool_decide as Hk; [subst k'; rewrite Hr|];
    destruct (kr_waiting r - 1 =? 0) eqn:Hz; bool_hyps;
    rewrite ?lookup_delete_eq, ?lookup_insert_eq, ?lookup_delete_ne, ?lookup_insert_ne by done; simpl; lia.
Qed.

Lemma live_dec rs k : live_counts rs -> live_counts (dec_retry rs k).
Proof.
  intros Hl k' r. unfold dec_retry. destruct (rs !! k) as [r0|] eqn:Hr; [|by apply Hl].
  destruct (kr_waiting r0 - 1 =? 0) eqn:Hz; bool_hyps.
  - rewrite lookup_delete_Some. intros [_ H]. eauto.
  - rewrite lookup_insert_Some. intros [[<- <-]|[_ H]]; [|by eauto]. specialize (Hl _ _ Hr). simpl. lia.
Qed.

Lemma bucket_insert (q : Queue E) o l rs t n o' :
  bucket (mkQueue (<[o := l]> (by_origin q)) rs t n (max_per_origin q) (max_total q)) o'
  = if bool_decide (o' = o) then l else bucket q o'.
Proof.
  unfold bucket; simpl. case_bool_decide as H; [subst; by rewrite lookup_insert_eq|].
  by rewrite lookup_insert_ne.
Qed.

Lemma bucket_facts (q : Queue E) o :
  accounted q ->
  Forall (fun e => it_origin e = o) (bucket q o) /\ increasing it_seq (bucket q o) /\
  forall e, In e (bucket q o) -> In e (items q).
Proof.
  intros A. unfold bucket. destruct (by_origin q !! o) as [l|] eqn:Hl; simpl.
  - split_and!; [by eapply ac_filed|by eapply ac_order|]. intros e He. apply elem_items. eauto.
  - split_and!; [done|constructor|done].
Qed.

Lemma items_of_bucket (q : Queue E) o : items q ≡ₚ bucket q o ++ items_of (delete o (by_origin q)).
Proof. apply items_bucket. Qed.

Lemma increasing_snoc l (e : E) :
  increasing it_seq l -> Forall (fun x => it_seq x < it_seq e) l -> increasing it_seq (l ++ [e]).
Proof.
  intros Hl HF. apply StronglySorted_app_2; [|done|by repeat constructor].
  intros x y Hx Hy. apply list_elem_of_singleton in Hy as ->. rewrite Forall_forall in HF. auto.
Qed.

Lemma increasing_sublist (l l' : list E) : l' `sublist_of` l -> increasing it_seq l -> increasing it_seq l'.
Proof.
  intros Hs. induction Hs as [|x l1 l2 Hs IH|x l1 l2 Hs IH]; intros Hl; [done| |];
    inversion_clear Hl as [|? ? Hl2 HF]; auto.
  constructor; [by apply IH|]. rewrite Forall_forall in HF |- *. intros y Hy. apply HF.
  by eapply elem_of_sublist.
Qed.

Lemma new_queue_accounted per_origin tot :
  accounted (new_queue per_origin tot : Queue E) /\ bounded (new_queue per_origin tot : Queue E).
Proof.
  split; split; simpl; try done; try lia; try (intros; by simplify_map_eq); try constructor.
  intros o. unfold bucket; simpl. rewrite lookup_empty. simpl. lia.
Qed.

(** Appending the stamped item. *)
Lemma enqueue_items q now e : items (enqueue q now e) ≡ₚ it_stamp (next_seq q) e :: items q.
Proof.
  unfold items at 1, enqueue; cbn -[items]. rewrite items_insert, (items_of_bucket q (it_origin (it_stamp (next_seq q) e))).
  rewrite <- app_assoc. simpl. symmetry. apply Permutation_middle.
Qed.

Lemma enqueue_accounted q now e : accounted q -> accounted (enqueue q now e).
Proof.
  intros A. pose proof (enqueue_items q now e) as P.
  destruct (bucket_facts q (it_origin (it_stamp (next_seq q) e)) A) as (Hf & Ho & Hi).
  pose proof (ac_seq _ A) as Hs. rewrite Forall_forall in Hs.
  split.
  - rewrite P. simpl. rewrite (ac_total _ A). lia.
  - intros o l. simpl. rewrite lookup_insert_Some. intros [[<- <-]|[_ H]]; [|by eapply ac_filed].
    apply Forall_app; split; [done|by repeat constructor].
  - intros o l. simpl. rewrite lookup_insert_Some. intros [[<- <-]|[_ H]]; [|by eapply ac_order].
    apply increasing_snoc; [done|]. apply Forall_forall. intros x Hx. rewrite it_stamp_seq.
    apply Hs, list_elem_of_In, Hi, list_elem_of_In, Hx.
  - rewrite P. constructor; [rewrite it_stamp_seq; simpl; lia|]. apply Forall_forall. intros x Hx.
    specialize (Hs x Hx). simpl. lia.
  - rewrite P. simpl. constructor; [|apply ac_distinct, A]. rewrite it_stamp_seq, in_map_iff.
    intros (x & Hx & Hin). apply list_elem_of_In in Hin. specialize (Hs x Hin). lia.
  - intros k r. simpl. rewrite lookup_insert_Some. intros [[<- <-]|[_ H]]; [|by eapply ac_live].
    case_match eqn:Hr; simpl; [|lia]. pose proof (ac_live _ A _ _ Hr). lia.
  - apply (ac_ceilings _ A).
Qed.

Lemma enqueue_exact q now e : exact_counts q -> exact_counts (enqueue q now e).
Proof.
  intros X k. rewrite (waits_perm _ _ _ (enqueue_items q now e)), waits_cons, <- X.
  unfold counted, enqueue; simpl. case_bool_decide as H.
  - rewrite <- H, lookup_insert_eq. case_match; simpl; lia.
  - rewrite lookup_insert_ne by done. lia.
Qed.

(** Taking one item out and accounting for it. *)
Lemma take_at_inv (q : Queue E) o i e q1 :
  take_at q o i = Some (e, q1) ->
  bucket q o !! i = Some e /\
  q1 = with_buckets q (<[o := base.delete i (bucket q o)]> (by_origin q)).
Proof. unfold take_at. destruct (bucket q o !! i); simpl; intros; by simplify_eq. Qed.

Lemma remove_items (q : Queue E) o i e q1 :
  take_at q o i = Some (e, q1) -> items q ≡ₚ e :: items (forget q1 e).
Proof.
  intros [He ->]%take_at_inv. unfold items at 2; simpl. rewrite items_insert, (items_of_bucket q o).
  rewrite (delete_Permutation _ _ _ He) at 1. done.
Qed.

Lemma remove_accounted (q : Queue E) o i e q1 :
  accounted q -> take_at q o i = Some (e, q1) -> accounted (forget q1 e).
Proof.
  intros A T. pose proof (remove_items _ _ _ _ _ T) as P.
  apply take_at_inv in T as [He ->].
  destruct (bucket_facts q o A) as (Hf & Ho & _).
  assert (HS : base.delete i (bucket q o) `sublist_of` bucket q o) by apply sublist_delete.
  split.
  - simpl. rewrite (ac_total _ A), P. simpl. lia.
  - intros o' l. simpl. rewrite lookup_insert_Some. intros [[<- <-]|[_ H]]; [|by eapply ac_filed].
    by eapply Forall_delete.
  - intros o' l. simpl. rewrite lookup_insert_Some. intros [[<- <-]|[_ H]]; [|by eapply ac_order].
    by eapply increasing_sublist.
  - pose proof (ac_seq _ A) as Hs. rewrite P in Hs. by inversion_clear Hs.
  - pose proof (ac_distinct _ A) as Hd. rewrite P in Hd. by inversion_clear Hd.
  - simpl. apply live_dec, ac_live, A.
  - apply (ac_ceilings _ A).
Qed.

Lemma forget_exact (q : Queue E) e l :
  live_counts (retries q) -> (forall k, counted (retries q) k = waits k (e :: l)) ->
  forall k, counted (retries (forget q e)) k = waits k l.
Proof.
  intros A X k. simpl. rewrite counted_dec; [|done|].
  - rewrite X, waits_cons. lia.
  - rewrite X, waits_cons, bool_decide_true by done. pose proof (waits_nonneg (key_of e) l). lia.
Qed.

Lemma remove_exact (q : Queue E) o i e q1 :
  accounted q -> take_at q o i = Some (e, q1) -> exact_counts q -> exact_counts (forget q1 e).
Proof.
  intros A T X k. pose proof (remove_items _ _ _ _ _ T) as P. apply take_at_inv in T as [_ ->].
  apply forget_exact; [apply (ac_live _ A)|]. intros k'. simpl.
  rewrite <- (waits_perm _ _ _ P). apply X.
Qed.

Lemma remove_bucket (q : Queue E) o i e q1 o' :
  take_at q o i = Some (e, q1) ->
  bucket (forget q1 e) o' = if bool_decide (o' = o) then base.delete i (bucket q o) else bucket q o'.
Proof. intros [_ ->]%take_at_inv. apply (bucket_insert q). Qed.

(** *** Making room for one arrival *)

Definition victim_of (q : Queue E) (v : option (string * nat)) : list E :=
  match v with Some (o, i) => option_list (bucket q o !! i) | None => [] end.

Definition yields (q : Queue E) (v : option (string * nat)) : Prop :=
  match v with Some (o, i) => is_Some (bucket q o !! i) | None => False end.

Lemma shed_idle n over v (q : Queue E) : over q = false -> shed n over v q = (q, []).
Proof. intros H. destruct n; simpl; [done|]. by rewrite H. Qed.

Lemma shed_one n over v (q : Queue E) :
  (0 < n)%nat -> over q = true -> yields q (v q) ->
  (forall o i e q1, v q = Some (o, i) -> take_at q o i = Some (e, q1) -> over (forget q1 e) = false) ->
  exists o i e q1, v q = Some (o, i) /\ take_at q o i = Some (e, q1) /\
    shed n over v q = (forget q1 e, victim_of q (v q)).
Proof.
  intros Hn Ho Hy Hlast. destruct n as [|n]; [lia|]. simpl. rewrite Ho. unfold yields, victim_of in *.
  destruct (v q) as [[o i]|] eqn:Hv; [|done]. destruct Hy as [e He].
  assert (T : take_at q o i = Some (e, with_buckets q (<[o := base.delete i (bucket q o)]> (by_origin q)))).
  { unfold take_at. by rewrite He. }
  rewrite T, He. do 4 eexists. split_and!; [done..|]. rewrite shed_idle by eauto. done.
Qed.

Lemma retain_bucket (q : Queue E) o :
  bucket (with_buckets q (retain_nonempty (by_origin q))) o = bucket q o.
Proof.
  unfold bucket, retain_nonempty; simpl. rewrite map_lookup_filter.
  by destruct (by_origin q !! o) as [[|e l]|].
Qed.

Lemma retain_accounted q : accounted q -> accounted (with_buckets q (retain_nonempty (by_origin q))).
Proof.
  intros A. assert (P : items (with_buckets q (retain_nonempty (by_origin q))) ≡ₚ items q) by apply items_retain.
  split; try rewrite P; try apply A;
    intros o l Hl; simpl in Hl; unfold retain_nonempty in Hl; apply map_lookup_filter_Some in Hl as [Hl _];
    [by eapply ac_filed|by eapply ac_order].
Qed.

Lemma retain_exact q : exact_counts q -> exact_counts (with_buckets q (retain_nonempty (by_origin q))).
Proof. intros X k. rewrite (waits_perm _ _ (items q)); [apply X|apply items_retain]. Qed.

Lemma retain_bounded q :
  (forall o, Z.of_nat (List.length (bucket q o)) <= max_per_origin q) -> total q <= max_total q ->
  bounded (with_buckets q (retain_nonempty (by_origin q))).
Proof.
  intros Ho Ht. split; [| |done].
  - intros o Hl. simpl in Hl. unfold retain_nonempty in Hl. apply map_lookup_filter_Some in Hl as [_ Hl]. by apply Hl.
  - intros o. rewrite retain_bucket. apply Ho.
Qed.

Record room_made (q q' : Queue E) (dropped : list E) : Prop := mkRoom {
  rm_accounted : accounted q';
  rm_bounded : bounded q';
  rm_items : items q ≡ₚ dropped ++ items q';
  rm_exact : exact_counts q -> exact_counts q';
  rm_next : next_seq q' = next_seq q;
  rm_ceilings : max_per_origin q' = max_per_origin q /\ max_total q' = max_total q
}.

(** One arrival past a ceiling. *)
Record one_over (o : string) (q : Queue E) : Prop := mkOver {
  ov_accounted : accounted q;
  ov_others : forall o', o' <> o -> Z.of_nat (List.length (bucket q o')) <= max_per_origin q;
  ov_own : Z.of_nat (List.length (bucket q o)) <= max_per_origin q + 1;
  ov_total : total q <= max_total q + 1
}.

Lemma room_unchanged q :
  accounted q -> (forall o, Z.of_nat (List.length (bucket q o)) <= max_per_origin q) ->
  total q <= max_total q ->
  room_made q (with_buckets q (retain_nonempty (by_origin q))) [].
Proof.
  intros A Ho Ht. split; [by apply retain_accounted|by apply retain_bounded| |by apply retain_exact|done|done].
  symmetry. apply items_retain.
Qed.

Lemma room_removed q o i e q1 :
  accounted q -> take_at q o i = Some (e, q1) ->
  (forall o', Z.of_nat (List.length (bucket (forget q1 e) o')) <= max_per_origin q) ->
  total q <= max_total q + 1 ->
  room_made q (with_buckets (forget q1 e) (retain_nonempty (by_origin (forget q1 e)))) [e].
Proof.
  intros A T Ho Ht. pose proof (remove_accounted _ _ _ _ _ A T) as A'.
  pose proof (remove_items _ _ _ _ _ T) as P. pose proof (take_at_inv _ _ _ _ _ T) as [_ E1].
  assert (H : room_made (forget q1 e) (with_buckets (forget q1 e) (retain_nonempty (by_origin (forget q1 e)))) []).
  { apply room_unchanged; [done| |]; subst q1; simpl in *; [done|lia]. }
  destruct H as [R1 R2 R3 R4 R5 R6]. split; [done|done| | | |]; subst q1; simpl in *; [|by eauto using remove_exact|done..].
  rewrite P. simpl. by f_equiv.
Qed.

Lemma removed_length q o i e q1 o' :
  take_at q o i = Some (e, q1) ->
  Z.of_nat (List.length (bucket (forget q1 e) o'))
  = Z.of_nat (List.length (bucket q o')) - if bool_decide (o' = o) then 1 else 0.
Proof.
  intros T. rewrite (remove_bucket _ _ _ _ _ _ T). pose proof (take_at_inv _ _ _ _ _ T) as [He _].
  case_bool_decide; [subst|lia]. rewrite length_delete by eauto. apply lookup_lt_Some in He. lia.
Qed.

Lemma make_room_spec q o v1 v2 :
  one_over o q ->
  (over_origin o q = true -> exists i, v1 q = Some (o, i) /\ is_Some (bucket q o !! i)) ->
  (over_origin o q = false -> over_total q = true -> yields q (v2 q)) ->
  room_made q (make_room o v1 v2 q).1 (make_room o v1 v2 q).2 /\
  (make_room o v1 v2 q).2
  = if over_origin o q then victim_of q (v1 q) else if over_total q then victim_of q (v2 q) else [].
Proof.
  intros [A Hoth Hown Htot] H1 H2. unfold make_room.
  assert (Hfuel : over_origin o q = true \/ over_total q = true -> (0 < Z.to_nat (total q))%nat).
  { pose proof (ac_ceilings _ A) as [? ?]. pose proof (items_of_bucket q o) as P.
    apply Permutation_length in P. rewrite length_app in P. pose proof (ac_total _ A) as Hac.
    unfold over_origin, over_total. intros [Hov|Hov]; bool_hyps; lia. }
  destruct (over_origin o q) eqn:Ho.
  - destruct (H1 eq_refl) as (i & Hv & Hi).
    destruct (shed_one (Z.to_nat (total q)) (over_origin o) v1 q) as (o' & i' & e & q1 & Hv' & T & ->);
      [by auto|done|by rewrite Hv| |].
    { intros o' i' e q1 Hv' T. rewrite Hv in Hv'; injection Hv' as <- <-. pose proof (removed_length _ _ _ _ _ o T) as HL.
      pose proof (take_at_inv _ _ _ _ _ T) as [_ ->]. rewrite bool_decide_true in HL by done.
      unfold over_origin in *. apply Z.ltb_ge. rewrite HL. simpl. lia. }
    rewrite Hv in Hv'; injection Hv' as <- <-. pose proof (take_at_inv _ _ _ _ _ T) as [He E1].
    rewrite shed_idle by (subst q1; unfold over_total; simpl; apply Z.ltb_ge; lia). simpl.
    rewrite Hv. simpl. rewrite He. simpl. split; [|done]. eapply room_removed; [done..| |done].
    intros o'. rewrite (removed_length _ _ _ _ _ _ T). case_bool_decide; [subst; lia|].
    specialize (Hoth o' ltac:(done)). lia.
  - assert (Hall : forall o', Z.of_nat (List.length (bucket q o')) <= max_per_origin q).
    { intros o'. destruct (decide (o' = o)) as [->|Hne]; [|by auto]. unfold over_origin in Ho. bool_hyps. lia. }
    rewrite (shed_idle _ (over_origin o)) by done. destruct (over_total q) eqn:Ht.
    + destruct (shed_one (Z.to_nat (total q)) over_total v2 q) as (o' & i' & e & q1 & Hv' & T & ->);
        [by auto|done|by auto| |].
      { intros o' i' e q1 Hv' T. pose proof (take_at_inv _ _ _ _ _ T) as [_ ->].
        unfold over_total; simpl. apply Z.ltb_ge. lia. }
      pose proof (take_at_inv _ _ _ _ _ T) as [He E1]. simpl. rewrite Hv'. simpl. rewrite He. simpl.
      split; [|done]. eapply room_removed; [done..| |done].
      intros o''. rewrite (removed_length _ _ _ _ _ _ T). specialize (Hall o''). case_bool_decide; lia.
    + rewrite shed_idle by done. simpl. split; [|done]. unfold over_total in Ht. bool_hyps.
      by apply room_unchanged.
Qed.

Lemma enqueue_one_over q now e :
  accounted q -> bounded q -> one_over (it_origin e) (enqueue q now e).
Proof.
  intros A B. assert (HB : forall o, Z.of_nat (List.length (bucket (enqueue q now e) o))
      = Z.of_nat (List.length (bucket q o)) + if bool_decide (o = it_origin e) then 1 else 0).
  { intros o. unfold enqueue. rewrite bucket_insert, it_stamp_origin.
    case_bool_decide; [subst|lia]. rewrite length_app. simpl. lia. }
  split; [by apply enqueue_accounted| | |].
  - intros o' Ho. rewrite HB, bool_decide_false by done. pose proof (bd_origin _ B o'). simpl. lia.
  - rewrite HB, bool_decide_true by done. pose proof (bd_origin _ B (it_origin e)). simpl. lia.
  - pose proof (bd_total _ B). simpl. lia.
Qed.

Lemma over_origin_enqueue (q : Queue E) now e :
  over_origin (it_origin e) (enqueue q now e)
  = (max_per_origin q <=? Z.of_nat (List.length (bucket q (it_origin e)))).
Proof.
  unfold over_origin, enqueue. rewrite bucket_insert, it_stamp_origin, bool_decide_true by done.
  rewrite length_app. simpl. apply eq_true_iff_eq. rewrite Z.ltb_lt, Z.leb_le. lia.
Qed.

Lemma in_bucket (q : Queue E) o e :
  accounted q -> In e (bucket q o) <-> In e (items q) /\ it_origin e = o.
Proof.
  intros A. destruct (bucket_facts q o A) as (HF & _ & HI). rewrite Forall_forall in HF. split.
  - intros H. split; [auto|]. by apply HF, list_elem_of_In.
  - intros [(o' & l & Hl & He)%elem_items <-]. pose proof (ac_filed _ A _ _ Hl) as HF'.
    rewrite Forall_forall in HF'. apply list_elem_of_In in He as He'. apply HF' in He'. rewrite He'.
    unfold bucket. by rewrite Hl.
Qed.

(** *** The oldest candidate *)

Lemma oldest_spec l :
  match oldest l with
  | Some c => In c l /\ forall c', In c' l -> c.1.1 <= c'.1.1
  | None => l = []
  end.
Proof.
  induction l as [|c l IH]; simpl; [done|]. destruct (oldest l) as [d|].
  - destruct IH as [Hd Hm].
    assert (HO : (older c d = c \/ older c d = d) /\ (older c d).1.1 <= c.1.1 /\ (older c d).1.1 <= d.1.1).
    { unfold older. repeat case_match; bool_hyps; split_and!; auto; lia. }
    destruct HO as ([Hc|Hc] & H1 & H2); split; rewrite Hc in *; auto.
    + intros c' [->|H]; [lia|]. specialize (Hm _ H). lia.
    + intros c' [->|H]; [lia|]. specialize (Hm _ H). lia.
  - subst l. split; [by left|]. intros c' [->|[]]. lia.
Qed.

Lemma position_spec (p : E -> bool) l :
  match position p l with
  | Some i => exists e, l !! i = Some e /\ p e = true /\
                forall j e', l !! j = Some e' -> p e' = true -> (i <= j)%nat
  | None => forall e, In e l -> p e = false
  end.
Proof.
  induction l as [|x l IH]; simpl; [done|]. destruct (p x) eqn:Hx.
  - exists x. split_and!; [done..|lia].
  - destruct (position p l) as [i|]; simpl.
    + destruct IH as (e & He & Hp & Hm). exists e. split_and!; [done..|].
      intros [|j] e' Hj Hp'; simpl in Hj; [congruence|]. specialize (Hm j e' Hj Hp'). lia.
    + intros e [->|He]; auto.
Qed.

Lemma increasing_lookup (l : list E) i j x y :
  increasing it_seq l -> l !! i = Some x -> l !! j = Some y -> (i <= j)%nat -> it_seq x <= it_seq y.
Proof.
  intros Hl; revert i j; induction Hl as [|a l _ IH HF]; intros [|i] [|j]; simpl; intros Hx Hy Hij;
    simplify_eq; [lia| |lia|by apply (IH i j); [..|lia]].
  rewrite Forall_forall in HF. apply list_elem_of_lookup_2 in Hy. specialize (HF _ Hy). lia.
Qed.

Lemma in_candidates p (q : Queue E) s o i :
  In (s, o, i) (candidates p q) <->
  exists e, position p (bucket q o) = Some i /\ bucket q o !! i = Some e /\ it_seq e = s.
Proof.
  unfold candidates. rewrite <- list_elem_of_In, list_elem_of_omap. split.
  - intros ([o' l] & Hol & He). apply elem_of_map_to_list in Hol. simpl in He.
    destruct (position p l) as [j|] eqn:Hp; [|done]. simpl in He.
    destruct (l !! j) as [e|] eqn:Hj; [|done]. simpl in He. injection He as <- <- <-.
    exists e. unfold bucket. rewrite Hol. done.
  - intros (e & Hp & He & <-). unfold bucket in *.
    destruct (by_origin q !! o) as [l|] eqn:Hl; [|done]. exists (o, l).
    split; [by apply elem_of_map_to_list|]. simpl in *. rewrite Hp. simpl. by rewrite He.
Qed.

Lemma oldest_candidate_spec p q :
  accounted q ->
  match oldest_candidate p q with
  | Some (o, i) => exists e, position p (bucket q o) = Some i /\ bucket q o !! i = Some e /\ p e = true /\
                     forall e', In e' (items q) -> p e' = true -> it_seq e <= it_seq e'
  | None => forall e, In e (items q) -> p e = false
  end.
Proof.
  intros A. unfold oldest_candidate. pose proof (oldest_spec (candidates p q)) as HO.
  assert (HB : forall e', In e' (items q) -> exists j, bucket q (it_origin e') !! j = Some e').
  { intros e' (o & l & Hl & He)%elem_items. pose proof (ac_filed _ A _ _ Hl) as HF.
    rewrite Forall_forall in HF. apply list_elem_of_In in He. rewrite (HF _ He). unfold bucket. rewrite Hl.
    by apply list_elem_of_lookup in He. }
  destruct (oldest (candidates p q)) as [[[s o] i]|]; simpl.
  - destruct HO as [Hin Hm]. apply in_candidates in Hin as (e & Hp & He & <-).
    pose proof (position_spec p (bucket q o)) as HP. rewrite Hp in HP. destruct HP as (e0 & He0 & Hpe & _).
    rewrite He in He0; injection He0 as <-. exists e. split_and!; [done..|].
    intros e' Hin' Hp'. destruct (HB e' Hin') as [j Hj].
    pose proof (position_spec p (bucket q (it_origin e'))) as HP.
    destruct (position p (bucket q (it_origin e'))) as [j'|] eqn:Hpos.
    + destruct HP as (x & Hx & _ & Hmin). specialize (Hm (it_seq x, it_origin e', j')). simpl in Hm.
      destruct (bucket_facts q (it_origin e') A) as (_ & Ho & _).
      pose proof (increasing_lookup _ _ _ _ _ Ho Hx Hj (Hmin _ _ Hj Hp')).
      specialize (Hm ltac:(apply in_candidates; eauto)). lia.
    + apply list_elem_of_lookup_2, list_elem_of_In in Hj. rewrite (HP _ Hj) in Hp'. done.
  - intros e He. destruct (HB e He) as [j Hj]. pose proof (position_spec p (bucket q (it_origin e))) as HP.
    destruct (position p (bucket q (it_origin e))) as [i|] eqn:Hpos.
    + destruct HP as (x & Hx & _). exfalso.
      assert (Hin : In (it_seq x, it_origin e, i) (candidates p q)) by (apply in_candidates; eauto).
      by rewrite HO in Hin.
    + apply HP. by apply list_elem_of_lookup_2, list_elem_of_In in Hj.
Qed.

(** *** Taking items out *)

Record taken_out (q q' : Queue E) (taken : list E) : Prop := mkTaken {
  to_items : items q ≡ₚ taken ++ items q';
  to_lookup : forall o l, by_origin q' !! o = Some l ->
    l <> [] /\ exists l0, by_origin q !! o = Some l0 /\ l `sublist_of` l0;
  to_total : total q' = total q - Z.of_nat (List.length taken);
  to_live : live_counts (retries q) -> live_counts (retries q');
  to_next : next_seq q' = next_seq q;
  to_ceilings : max_per_origin q' = max_per_origin q /\ max_total q' = max_total q
}.

Lemma taken_out_accounted q q' t : accounted q -> taken_out q q' t -> accounted q'.
Proof.
  intros A [P L T V N [C1 C2]]. pose proof (ac_seq _ A) as Hs. pose proof (ac_distinct _ A) as Hd.
  rewrite P in Hs, Hd. apply Forall_app in Hs as [_ Hs]. rewrite map_app in Hd. apply NoDup_app_remove_l in Hd.
  split; [| | |by rewrite N|done|by apply V, ac_live|rewrite C1, C2; apply ac_ceilings, A].
  - rewrite T, (ac_total _ A), P, length_app. lia.
  - intros o l Hl. destruct (L _ _ Hl) as (_ & l0 & Hl0 & Hsub). pose proof (ac_filed _ A _ _ Hl0) as HF.
    rewrite Forall_forall in HF |- *. intros x Hx. apply HF. by eapply elem_of_sublist.
  - intros o l Hl. destruct (L _ _ Hl) as (_ & l0 & Hl0 & Hsub).
    eapply increasing_sublist; [done|]. by eapply ac_order.
Qed.

Lemma taken_out_bounded q q' t : bounded q -> taken_out q q' t -> bounded q'.
Proof.
  intros B [P L T V N [C1 C2]]. split.
  - intros o Hl. by destruct (L _ _ Hl).
  - intros o. rewrite C1. unfold bucket. destruct (by_origin q' !! o) as [l|] eqn:Hl; simpl.
    + destruct (L _ _ Hl) as (_ & l0 & Hl0 & Hsub). apply sublist_length in Hsub.
      pose proof (bd_origin _ B o) as HB. unfold bucket in HB. rewrite Hl0 in HB. simpl in HB. lia.
    + pose proof (bd_origin _ B o). lia.
  - rewrite T, C2. pose proof (bd_total _ B). lia.
Qed.

Lemma fold_forget_frame l (q : Queue E) :
  let q' := fold_left forget l q in
  by_origin q' = by_origin q /\ total q' = total q - Z.of_nat (List.length l) /\
  next_seq q' = next_seq q /\ max_per_origin q' = max_per_origin q /\ max_total q' = max_total q /\
  (live_counts (retries q) -> live_counts (retries q')).
Proof.
  revert q; induction l as [|e l IH]; intros q; cbn [fold_left]; cbv zeta in *.
  - simpl. split_and!; auto; lia.
  - destruct (IH (forget q e)) as (-> & -> & -> & -> & -> & HL). simpl in *. split_and!; auto; [lia|].
    intros H. by apply HL, live_dec.
Qed.

Lemma fold_forget_exact l r (q : Queue E) :
  live_counts (retries q) -> (forall k, counted (retries q) k = waits k (l ++ r)) ->
  forall k, counted (retries (fold_left forget l q)) k = waits k r.
Proof.
  revert q; induction l as [|e l IH]; intros q L X; simpl; [done|].
  apply IH; [by apply live_dec|]. by apply forget_exact.
Qed.

Lemma filter_sublist_bool (p : E -> bool) l : List.filter p l `sublist_of` l.
Proof. induction l as [|x l IH]; simpl; [constructor|]. destruct (p x); by constructor. Qed.

Lemma kept_items (wanted : E -> bool) m : items_of (kept wanted m) ≡ₚ List.filter (fun e => negb (wanted e)) (items_of m).
Proof. unfold kept. by rewrite items_retain, items_fmap, flat_map_filter. Qed.

Lemma kept_lookup (wanted : E -> bool) m o l :
  kept wanted m !! o = Some l ->
  l <> [] /\ exists l0, m !! o = Some l0 /\ l = List.filter (fun e => negb (wanted e)) l0.
Proof.
  unfold kept, retain_nonempty. intros [Hl Hn]%map_lookup_filter_Some. split; [done|].
  rewrite lookup_fmap in Hl. destruct (m !! o) as [l0|]; simplify_eq/=. eauto.
Qed.

Lemma filter_split (p : E -> bool) l : l ≡ₚ List.filter p l ++ List.filter (fun e => negb (p e)) l.
Proof.
  induction l as [|x l IH]; simpl; [done|]. destruct (p x); simpl; [by f_equiv|].
  rewrite IH at 1. apply Permutation_middle.
Qed.

Context {HO : HashOrder}.

Lemma hash_items (m : gmap string (list E)) : flat_map snd (hash_iter m) ≡ₚ items_of m.
Proof. unfold items_of. by rewrite (hash_iter_perm m). Qed.

Lemma picked_perm wanted q : picked wanted q ≡ₚ List.filter wanted (items q).
Proof.
  unfold picked. rewrite merge_sort_Permutation, flat_map_filter.
  apply filter_Permutation_List, hash_items.
Qed.

#[local] Instance seq_le_trans : Transitive (@seq_le E QI).
Proof. intros x y z. unfold seq_le. lia. Qed.
#[local] Instance seq_le_total : Total (@seq_le E QI).
Proof. intros x y. unfold seq_le. lia. Qed.

Lemma sorted_increasing l : StronglySorted seq_le l -> List.NoDup (map it_seq l) -> increasing it_seq l.
Proof.
  induction 1 as [|x l _ IH HF]; simpl; intros Hd; [constructor|]. inversion_clear Hd as [|? ? Hx Hd'].
  constructor; [by apply IH|]. rewrite Forall_forall in HF |- *. intros y Hy. specialize (HF y Hy).
  unfold seq_le in HF. assert (it_seq x <> it_seq y); [|lia]. intros Heq. apply Hx. rewrite Heq.
  by apply in_map, list_elem_of_In.
Qed.

(** Sorting some of a queue's items gives them in the order of arrival. *)
Lemma sort_taken_increasing q t r :
  accounted q -> items q ≡ₚ t ++ r -> increasing it_seq (merge_sort seq_le t).
Proof.
  intros A P. apply sorted_increasing; [by apply StronglySorted_merge_sort; apply _|].
  rewrite merge_sort_Permutation. pose proof (ac_distinct _ A) as Hd. rewrite P, map_app in Hd.
  by apply NoDup_app_remove_r in Hd.
Qed.

Lemma picked_increasing wanted q : accounted q -> increasing it_seq (picked wanted q).
Proof.
  intros A. eapply (sort_taken_increasing q _ (List.filter (fun e => negb (wanted e)) (items q)) A).
  rewrite flat_map_filter, <- (filter_Permutation_List _ _ _ (symmetry (hash_items (by_origin q)))).
  apply filter_split.
Qed.

(** *** Asking for keys again *)

Lemma retry_backoff_bounds n : 0 <= n -> FIRST_RETRY <= retry_backoff n <= MAX_RETRY.
Proof.
  intros Hn. unfold retry_backoff, FIRST_RETRY, MAX_RETRY. rewrite Z.shiftl_mul_pow2 by lia.
  assert (1 <= 2 ^ Z.min n 5) by (change 1 with (2 ^ 0); apply Z.pow_le_mono_r; lia). lia.
Qed.

Lemma retries_due_lookup (q : Queue E) now k :
  retries (retries_due q now).2 !! k
  = (fun r => if due now k r
              then mkRetry (kr_waiting r) (kr_attempts r + 1) (now + retry_backoff (kr_attempts r + 1))
              else r) <$> retries q !! k.
Proof. simpl. rewrite map_lookup_imap. by destruct (retries q !! k). Qed.

Lemma in_retries_due (q : Queue E) now k :
  In k (retries_due q now).1 <-> exists r, retries q !! k = Some r /\ due now k r = true.
Proof.
  simpl. rewrite in_map_iff. split.
  - intros ([k' r] & <- & Hin). apply filter_In in Hin as [Hin Hd].
    apply list_elem_of_In, elem_of_map_to_list in Hin. eauto.
  - intros (r & Hr & Hd). exists (k, r). split; [done|]. apply filter_In. split; [|done].
    by apply list_elem_of_In, elem_of_map_to_list.
Qed.

Lemma retries_due_live (q : Queue E) now : live_counts (retries q) -> live_counts (retries (retries_due q now).2).
Proof.
  intros L k r. rewrite retries_due_lookup, fmap_Some. intros (r0 & Hr & ->). specialize (L _ _ Hr).
  destruct (due now k r0); simpl; lia.
Qed.

Lemma retries_due_accounted q now : accounted q -> accounted (retries_due q now).2.
Proof. intros A. split; [apply A..| |apply A]. apply retries_due_live, ac_live, A. Qed.

Lemma retries_due_exact q now : exact_counts q -> exact_counts (retries_due q now).2.
Proof.
  intros X k. change (items (retries_due q now).2) with (items q).
  rewrite <- X. unfold counted. rewrite retries_due_lookup. destruct (retries q !! k) as [r|]; [|done].
  simpl. by destruct (due now k r).
Qed.
End Accounts.

#[export] Hint Resolve enqueue_accounted enqueue_exact retries_due_accounted retries_due_exact
  taken_out_accounted taken_out_bounded rm_accounted rm_bounded : freeq.

(** ** The held queue *)

Section HeldProofs.
Context {Msg : Type} {HO : HashOrder}.
Notation HQ := (Queue (HeldRelay Msg)).

Inductive held_op :=
  | HHold (item : HeldRelay Msg)
  | HTake (did kid : string)
  | HExpire (now : Z)
  | HRetry (now : Z).

Definition held_step (q : HQ) (op : held_op) : HQ :=
  match op with
  | HHold item => (hold q item).1
  | HTake did kid => (held_take_for_signer q did kid).2
  | HExpire now => (held_expire q now).2
  | HRetry now => (retries_due q now).2
  end.

Definition held_run (per_origin tot : Z) (ops : list held_op) : HQ :=
  fold_left held_step ops (new_queue per_origin tot).

Definition held_ok (q : HQ) : Prop := accounted q /\ bounded q /\ exact_counts q.

Lemma new_queue_ok per_origin tot : held_ok (new_queue per_origin tot).
Proof. destruct (@new_queue_accounted (HeldRelay Msg) _ per_origin tot). split_and!; done. Qed.

Lemma front_yields o (q : HQ) :
  1 <= max_per_origin q -> over_origin o q = true ->
  exists i, front o q = Some (o, i) /\ is_Some (bucket q o !! i).
Proof.
  unfold over_origin, front. intros H1 H. bool_hyps. destruct (bucket q o) eqn:Hb; simpl in *; [lia|].
  exists O. split; [done|]. by eexists.
Qed.

Lemma total_over_items (q : HQ) :
  accounted q -> over_total q = true -> exists e, In e (items q).
Proof.
  intros A. unfold over_total. intros H. bool_hyps. pose proof (ac_ceilings _ A). rewrite (ac_total _ A) in *.
  destruct (items q) as [|e l]; simpl in *; [lia|]. exists e. by left.
Qed.

Lemma oldest_front_yields (q : HQ) :
  accounted q -> over_total q = true -> yields q (oldest_front q).
Proof.
  intros A H. destruct (total_over_items q A H) as [e He]. unfold oldest_front.
  pose proof (oldest_candidate_spec (fun _ => true) q A) as HC.
  destruct (oldest_candidate _ q) as [[o i]|]; [|by specialize (HC e He)].
  destruct HC as (x & _ & Hx & _). simpl. eauto.
Qed.

(** What [hold] leaves, and what it gives up. *)
Lemma hold_spec (q : HQ) item :
  accounted q -> bounded q ->
  let q1 := enqueue q (hr_held_at item) item in let o := hr_origin item in
  room_made q1 (hold q item).1 (hold q item).2 /\
  (hold q item).2 = if over_origin o q1 then victim_of q1 (front o q1)
                    else if over_total q1 then victim_of q1 (oldest_front q1) else [].
Proof.
  intros A B q1 o. pose proof (enqueue_one_over q (hr_held_at item) item A B) as H.
  pose proof (ov_accounted _ _ H) as A1. unfold hold. apply make_room_spec; [done| |].
  - apply front_yields, ac_ceilings, A1.
  - intros _. by apply oldest_front_yields.
Qed.

Lemma held_take_out (q : HQ) did kid :
  taken_out q (held_take_for_signer q did kid).2 (held_take_for_signer q did kid).1.
Proof.
  split; simpl; [| |done| |done|done].
  - unfold items at 2; simpl. rewrite kept_items, picked_perm. apply filter_split.
  - intros o l Hl. apply kept_lookup in Hl as (Hn & l0 & Hl0 & ->). split; [done|]. exists l0.
    split; [done|apply filter_sublist_bool].
  - intros L k r Hr. apply map_lookup_filter_Some in Hr as [Hr _]. eauto.
Qed.

Lemma held_take_exact (q : HQ) did kid :
  exact_counts q -> exact_counts (held_take_for_signer q did kid).2.
Proof.
  intros X k. unfold items; simpl. rewrite (waits_perm _ _ _ (kept_items _ _)). fold (items q).
  assert (HW : waits k (List.filter (fun e => negb (signed_by did kid e)) (items q))
               = if String.eqb k.1.2 did && String.eqb k.2 kid then 0 else waits k (items q)).
  { unfold waits. destruct k as [[o s] i]; simpl. induction (items q) as [|e l IH]; simpl; [by case_match|].
    unfold signed_by at 1. case_bool_decide as Hk; [unfold key_of in Hk; simpl in Hk; injection Hk as <- <- <-|];
    destruct (String.eqb (hr_signer e) did) eqn:E1, (String.eqb (hr_kid e) kid) eqn:E2; simpl;
      rewrite ?E1, ?E2 in *; simpl in *; rewrite ?bool_decide_true, ?bool_decide_false by done; simpl; try done;
      repeat case_match; lia. }
  rewrite HW, <- X. unfold counted. rewrite map_lookup_filter.
  destruct (retries q !! k) as [r|]; simpl; [|by case_match].
  destruct (String.eqb k.1.2 did), (String.eqb k.2 kid); done.
Qed.

Lemma expired_prefix_app now (l : list (HeldRelay Msg)) :
  l = (expired_prefix now l).1 ++ (expired_prefix now l).2.
Proof.
  induction l as [|e l IH]; simpl; [done|]. destruct (expired now e); [|done].
  destruct (expired_prefix now l); simpl in *. by f_equal.
Qed.

Lemma flat_map_split {A B} (f g : A -> list B) l :
  flat_map (fun x => f x ++ g x) l ≡ₚ flat_map f l ++ flat_map g l.
Proof. induction l as [|x l IH]; simpl; [done|]. rewrite IH. solve_Permutation. Qed.

Notation gone q now := (flat_map (fun ol : string * list (HeldRelay Msg) => (expired_prefix now ol.2).1)
                          (hash_iter (by_origin q))).

Lemma expire_items (q : HQ) now :
  items q ≡ₚ gone q now ++ items_of ((fun l => (expired_prefix now l).2) <$> by_origin q).
Proof.
  rewrite items_fmap, (hash_iter_perm (by_origin q)). rewrite <- flat_map_split. unfold items, items_of.
  erewrite flat_map_ext; [done|]. intros ol. simpl. apply expired_prefix_app.
Qed.

Lemma held_expire_out (q : HQ) now : taken_out q (held_expire q now).2 (gone q now).
Proof.
  set (q1 := with_buckets q (retain_nonempty ((fun l => (expired_prefix now l).2) <$> by_origin q))).
  assert (HX : (held_expire q now).2 = fold_left forget (gone q now) q1) by done.
  rewrite HX. destruct (fold_forget_frame (gone q now) q1) as (HB & HT & HN & HP & HM & HL).
  split; [| |done|done|done|done].
  - rewrite (expire_items q now). unfold items. rewrite HB. unfold q1; simpl. by rewrite items_retain.
  - intros o l. rewrite HB. unfold q1; simpl. unfold retain_nonempty. intros [Hl Hn]%map_lookup_filter_Some.
    split; [done|]. rewrite lookup_fmap in Hl. destruct (by_origin q !! o) as [l0|]; simplify_eq/=.
    exists l0. split; [done|]. rewrite (expired_prefix_app now l0) at 2. by apply sublist_inserts_l.
Qed.

Lemma held_expire_exact (q : HQ) now :
  accounted q -> exact_counts q -> exact_counts (held_expire q now).2.
Proof.
  intros A X. pose proof (to_items _ _ _ (held_expire_out q now)) as P. unfold exact_counts.
  apply (fold_forget_exact (gone q now)); [apply (ac_live _ A)|].
  intros k. simpl. rewrite <- (waits_perm _ _ _ P). apply X.
Qed.

Lemma held_step_ok q op : held_ok q -> held_ok (held_step q op).
Proof.
  intros (A & B & X). destruct op as [item|did kid|now|now]; cbn [held_step].
  - destruct (hold_spec q item A B) as [R _]. split_and!; eauto with freeq. apply (rm_exact _ _ _ R). eauto with freeq.
  - pose proof (held_take_out q did kid) as T. split_and!; eauto using held_take_exact with freeq.
  - pose proof (held_expire_out q now) as T. split_and!; eauto using held_expire_exact with freeq.
  - split_and!; [by eauto with freeq|by split; apply B|by eauto with freeq].
Qed.

Lemma held_run_ok per_origin tot ops : held_ok (held_run per_origin tot ops).
Proof. unfold held_run. apply fold_left_inv; [intros; by apply held_step_ok|apply new_queue_ok]. Qed.

Lemma held_run_ceilings per_origin tot ops :
  max_per_origin (held_run per_origin tot ops) = Z.max per_origin 1 /\
  max_total (held_run per_origin tot ops) = Z.max tot 1.
Proof.
  apply (fold_left_inv (fun q => held_ok q /\ max_per_origin q = Z.max per_origin 1 /\ max_total q = Z.max tot 1)).
  - intros q op (K & H1 & H2). split; [by apply held_step_ok|]. destruct K as (A & B & _).
    destruct op as [item|did kid|now|now]; cbn [held_step]; [|done| |done].
    + destruct (rm_ceilings _ _ _ (proj1 (hold_spec q item A B))) as [-> ->]. done.
    + destruct (to_ceilings _ _ _ (held_expire_out q now)) as [-> ->]. done.
  - split; [apply new_queue_ok|done].
Qed.

(** C39: whatever is held, released, expired and asked for, in whatever order,
    the queue's accounts are right: its total is the number of items waiting
    and within the ceiling, every peer's queue is within its share, holds only
    that peer's items, is in hold order and is dropped when empty, and each
    retry entry counts exactly the items waiting for its key. *)
Theorem held_queue_invariant (per_origin tot : Z) (ops : list held_op) :
  let q := held_run per_origin tot ops in
  total q = Z.of_nat (List.length (items q)) /\ total q <= Z.max tot 1 /\
  (forall o l, by_origin q !! o = Some l ->
     l <> [] /\ Z.of_nat (List.length l) <= Z.max per_origin 1 /\
     Forall (fun e => hr_origin e = o) l /\ increasing hr_seq l) /\
  (forall k, counted (retries q) k = waits k (items q)) /\
  (forall k r, retries q !! k = Some r -> 0 < kr_waiting r).
Proof.
  intros q. destruct (held_run_ok per_origin tot ops) as (A & B & X).
  destruct (held_run_ceilings per_origin tot ops) as [<- <-]. fold q in A, B, X |- *.
  split_and!; [apply A|apply B| |apply X|intros k r H; by eapply (ac_live _ A)].
  intros o l Hl. pose proof (bd_origin _ B o) as HL. unfold bucket in HL. rewrite Hl in HL.
  split_and!; [|done|by apply (ac_filed _ A)|by eapply (ac_order _ A)].
  intros ->. by apply (bd_nonempty _ B o).
Qed.

(** The head of a full share is that peer's oldest item. *)
Lemma front_oldest (q : HQ) o e l :
  accounted q -> bucket q o = e :: l ->
  In e (items q) /\ hr_origin e = o /\
  forall e', In e' (items q) -> hr_origin e' = o -> hr_seq e <= hr_seq e'.
Proof.
  intros A Hq. assert (He : In e (bucket q o)) by (rewrite Hq; by left).
  pose proof He as [Hi Heo]%in_bucket; [|done]. split_and!; [done..|].
  intros e' Hi' Ho'. assert (He' : In e' (bucket q o)) by by apply in_bucket.
  destruct (bucket_facts q o A) as (_ & Hord & _). rewrite Hq in Hord, He'. inversion_clear Hord as [|? ? _ HF].
  rewrite Forall_forall in HF. destruct He' as [->|He']; [lia|]. apply list_elem_of_In in He'.
  specialize (HF _ He'). simpl in HF. lia.
Qed.

(** The oldest item of a queue that just took one in was there before. *)
Lemma oldest_after_enqueue (q : HQ) now item :
  accounted q -> items q <> [] ->
  let q1 := enqueue q now item in
  exists e, victim_of q1 (oldest_front q1) = [e] /\ In e (items q) /\
    forall e', In e' (items q) -> hr_seq e <= hr_seq e'.
Proof.
  intros A HN q1. assert (A1 : accounted q1) by by apply enqueue_accounted.
  pose proof (oldest_candidate_spec (fun _ => true) q1 A1) as HC.
  assert (HI : forall e, In e (items q1) <-> In e (it_stamp (next_seq q) item :: items q)).
  { intros e. unfold q1. by rewrite <- !list_elem_of_In, enqueue_items. }
  destruct (items q) as [|e0 l] eqn:Hq; [done|]. assert (He0 : In e0 (items q1)) by (apply HI; simpl; auto).
  unfold oldest_front. destruct (oldest_candidate _ q1) as [[o' i]|]; simpl; [|by specialize (HC e0 He0)].
  destruct HC as (e & _ & He & _ & Hm). rewrite He. exists e. split; [done|].
  assert (Hin : In e (items q1)).
  { apply (in_bucket q1 o'); [done|]. by eapply list_elem_of_In, list_elem_of_lookup_2. }
  apply HI in Hin as [He1|Hin].
  - pose proof (ac_seq _ A) as Hs. rewrite Hq in Hs. inversion_clear Hs as [|? ? Hs0 _].
    specialize (Hm e0 He0 eq_refl). rewrite <- He1 in Hm. simpl in Hm, Hs0. lia.
  - split; [done|]. intros e' He'. apply Hm; [|done]. apply HI. by right.
Qed.

(** Holding an item gives up at most one, never the item that arrived:
    nothing when both ceilings leave room, the sending peer's oldest item when
    that peer's share is full, and otherwise the oldest item of all. Nothing
    else is lost. *)
Theorem hold_gives_up_the_oldest (per_origin tot : Z) (ops : list held_op) (item : HeldRelay Msg) :
  let q := held_run per_origin tot ops in
  let '(q', dropped) := hold q item in
  let own := Z.of_nat (List.length (bucket q (hr_origin item))) in
  it_stamp (next_seq q) item :: items q ≡ₚ dropped ++ items q' /\
  match dropped with
  | [] => own < max_per_origin q /\ total q < max_total q
  | [e] => In e (items q) /\
           (if max_per_origin q <=? own
            then hr_origin e = hr_origin item /\
                 forall e', In e' (items q) -> hr_origin e' = hr_origin item -> hr_seq e <= hr_seq e'
            else total q = max_total q /\ forall e', In e' (items q) -> hr_seq e <= hr_seq e')
  | _ => False
  end.
Proof.
  intros q. destruct (held_run_ok per_origin tot ops) as (A & B & _). fold q in A, B.
  destruct (hold_spec q item A B) as [R D]. destruct (hold q item) as [q' d]; simpl in R, D.
  split; [rewrite <- (rm_items _ _ _ R); symmetry; apply enqueue_items|]. subst d.
  set (o := hr_origin item) in *. set (q1 := enqueue q (hr_held_at item) item) in *.
  assert (Hb : bucket q1 o = bucket q o ++ [it_stamp (next_seq q) item]).
  { unfold q1, enqueue. rewrite bucket_insert. by rewrite bool_decide_true. }
  pose proof (over_origin_enqueue q (hr_held_at item) item) as Ho. simpl it_origin in Ho. fold q1 o in Ho.
  pose proof (ac_ceilings _ A) as [? ?]. pose proof (bd_total _ B).
  rewrite Ho. destruct (max_per_origin q <=? _) eqn:Hc; bool_hyps.
  - unfold front. destruct (bucket q o) as [|e l] eqn:Hq; [simpl in *; lia|]. rewrite Hb. simpl. rewrite Hb.
    by apply front_oldest with (l := l).
  - change (over_total q1) with (max_total q <? total q + 1).
    destruct (max_total q <? total q + 1) eqn:Ht; bool_hyps; [|lia].
    destruct (oldest_after_enqueue q (hr_held_at item) item A) as (e & Hv & Hi & Hm); [|fold q1 in Hv; rewrite Hv].
    { intros Hn. rewrite (ac_total _ A), Hn in *. simpl in *. lia. }
    split_and!; [done|lia|done].
Qed.

(** A key's arrival releases exactly the items its signer signed with it,
    in the order they were held; every other item stays where it was, and only
    that key is no longer asked for. *)
Theorem release_by_key_exact (per_origin tot : Z) (ops : list held_op) (did kid : string) :
  let q := held_run per_origin tot ops in
  let '(taken, q') := held_take_for_signer q did kid in
  taken ≡ₚ List.filter (signed_by did kid) (items q) /\ increasing hr_seq taken /\
  (forall o, bucket q' o = List.filter (fun e => negb (signed_by did kid e)) (bucket q o)) /\
  forall k, retries q' !! k = if String.eqb k.1.2 did && String.eqb k.2 kid then None else retries q !! k.
Proof.
  intros q. destruct (held_run_ok per_origin tot ops) as (A & _ & _). fold q in A. unfold held_take_for_signer.
  split_and!; [apply picked_perm|exact (picked_increasing _ q A)| |].
  - intros o. unfold bucket; simpl. unfold kept, retain_nonempty. rewrite map_lookup_filter, lookup_fmap.
    destruct (by_origin q !! o) as [l|]; simpl; [|done].
    by destruct (List.filter (fun e => negb (signed_by did kid e)) l) eqn:Hf.
  - intros k. simpl. rewrite map_lookup_filter. destruct (retries q !! k); simpl; [|by case_match].
    by destruct (String.eqb k.1.2 did), (String.eqb k.2 kid).
Qed.

(** Items are held at the time the clock shows, and the clock does not go
    back ([Instant::now()]). *)
Fixpoint clocked (now : Z) (ops : list held_op) : Prop :=
  match ops with
  | [] => True
  | HHold item :: ops => now <= hr_held_at item /\ clocked (hr_held_at item) ops
  | _ :: ops => clocked now ops
  end.

Definition punctual (now : Z) (q : HQ) : Prop :=
  forall e, In e (items q) -> hr_held_at e <= now /\
    forall e', In e' (items q) -> hr_seq e < hr_seq e' -> hr_held_at e <= hr_held_at e'.

Lemma punctual_subset now q q' : (forall e, In e (items q') -> In e (items q)) -> punctual now q -> punctual now q'.
Proof. intros H P e He. destruct (P e (H _ He)). split; auto. Qed.

Lemma perm_subset (q q' : HQ) t : items q ≡ₚ t ++ items q' -> forall e, In e (items q') -> In e (items q).
Proof. intros P e He. apply list_elem_of_In. rewrite P, elem_of_app, !list_elem_of_In. auto. Qed.

Lemma enqueue_punctual now q item :
  accounted q -> punctual now q -> now <= hr_held_at item ->
  punctual (hr_held_at item) (enqueue q (hr_held_at item) item).
Proof.
  intros A P Hn. pose proof (ac_seq _ A) as Hs. rewrite Forall_forall in Hs.
  assert (HI : forall e, In e (items (enqueue q (hr_held_at item) item)) ->
                 e = it_stamp (next_seq q) item \/ In e (items q) /\ hr_seq e < next_seq q).
  { intros e. rewrite <- list_elem_of_In, enqueue_items. intros [->|He]%elem_of_cons; [by left|].
    right. split; [by apply list_elem_of_In|by apply (Hs e)]. }
  intros e [->|[He Hse]]%HI.
  - split; [simpl; lia|]. intros e' [->|[He' Hs']]%HI; simpl; lia.
  - destruct (P e He) as [H1 H2]. split; [lia|]. intros e' [->|[He' Hs']]%HI; simpl; [lia|]. auto.
Qed.

Lemma held_run_punctual per_origin tot ops :
  clocked 0 ops -> exists now, punctual now (held_run per_origin tot ops).
Proof.
  unfold held_run. assert (HG : forall ops c q, held_ok q -> punctual c q -> clocked c ops ->
      exists now, punctual now (fold_left held_step ops q)).
  { clear. induction ops as [|op ops IH]; intros c q K P C; [by exists c|]. cbn [fold_left].
    pose proof (held_step_ok q op K) as K'. destruct K as (A & B & _).
    destruct op as [item|did kid|now|now]; simpl in C; cbn [held_step] in *.
    - destruct C as [C1 C2]. apply (IH (hr_held_at item)); [done| |done].
      eapply punctual_subset; [|by apply (enqueue_punctual c)].
      eapply perm_subset, rm_items, (hold_spec q item A B).
    - apply (IH c); [done| |done]. eapply punctual_subset, P. eapply perm_subset, to_items, held_take_out.
    - apply (IH c); [done| |done]. eapply punctual_subset, P. eapply perm_subset, to_items, held_expire_out.
    - by apply (IH c). }
  apply HG; [apply new_queue_ok|]. by intros e He.
Qed.

Lemma expired_prefix_filter now l :
  StronglySorted (fun a b : HeldRelay Msg => hr_held_at a <= hr_held_at b) l ->
  expired_prefix now l = (List.filter (expired now) l, List.filter (fun e => negb (expired now e)) l).
Proof.
  induction 1 as [|e l HS IH HF]; simpl; [done|]. destruct (expired now e) eqn:He; simpl; [by rewrite IH|].
  assert (HN : forall x, In x l -> expired now x = false).
  { intros x Hx. rewrite Forall_forall in HF. specialize (HF x ltac:(by apply list_elem_of_In)).
    unfold expired, HOLD_LIMIT in *. bool_hyps. apply Z.leb_gt. lia. }
  rewrite list_filter_nil by done. f_equal. f_equal. clear -HN. induction l as [|x l IH]; simpl; [done|].
  rewrite (HN x) by by left. simpl. f_equal. apply IH. intros y Hy. apply HN. by right.
Qed.

Lemma punctual_bucket c q o l :
  accounted q -> punctual c q -> by_origin q !! o = Some l ->
  StronglySorted (fun a b => hr_held_at a <= hr_held_at b) l.
Proof.
  intros A P Hl. pose proof (ac_order _ A _ _ Hl) as HO'.
  assert (HI : forall e, In e l -> In e (items q)) by (intros e He; apply elem_items; eauto). clear Hl A.
  induction HO' as [|e l _ IH HF]; [constructor|]. constructor; [apply IH; intros; apply HI; by right|].
  rewrite Forall_forall in HF |- *. intros x Hx. destruct (P e) as [_ P2]; [apply HI; by left|].
  apply P2; [apply HI; right; by apply list_elem_of_In|by apply HF].
Qed.

(** As items are held at the time a clock shows that does not go back, a
    sweep takes exactly the items that have waited for the limit, oldest first,
    and keeps exactly the others: testing only the head of each peer's queue
    misses none. *)
Theorem expire_exact (per_origin tot now : Z) (ops : list held_op) :
  clocked 0 ops ->
  let q := held_run per_origin tot ops in
  let '(gone, q') := held_expire q now in
  gone ≡ₚ List.filter (expired now) (items q) /\ increasing hr_seq gone /\
  items q' ≡ₚ List.filter (fun e => negb (expired now e)) (items q).
Proof.
  intros C q. destruct (held_run_punctual per_origin tot ops C) as [c P]. fold q in P.
  destruct (held_run_ok per_origin tot ops) as (A & _ & _). fold q in A.
  pose proof (to_items _ _ _ (held_expire_out q now)) as T.
  assert (HG : gone q now ≡ₚ List.filter (expired now) (items q)).
  { unfold items, items_of. rewrite <- flat_map_filter, (hash_iter_perm (by_origin q)).
    erewrite flat_map_ext_in; [done|]. intros [o l] Hol. simpl.
    apply list_elem_of_In, elem_of_map_to_list in Hol.
    by rewrite (expired_prefix_filter now l (punctual_bucket _ _ _ _ A P Hol)). }
  cbn [held_expire]. split_and!; [by rewrite merge_sort_Permutation|exact (sort_taken_increasing q _ _ A T)|].
  apply (Permutation_app_inv_l (gone q now)). etrans; [symmetry; exact T|].
  rewrite HG. apply filter_split.
Qed.
End HeldProofs.

Definition sample_held (origin : string) (at_ : Z) : HeldRelay unit :=
  mkHeld tt origin origin "name" 0 "did:plc:a" "k1" at_ 0.
Definition sample_ops : list held_op :=
  [HHold (sample_held "p" 0); HHold (sample_held "q" 50000); HHold (sample_held "p" 59000)].

Lemma expire_exact_witness :
  clocked 0 sample_ops /\
  (let q := @held_run unit map_order 10 10 sample_ops in
   let '(gone, q') := @held_expire unit map_order q 61000 in
   gone ≡ₚ List.filter (expired 61000) (items q) /\ increasing hr_seq gone /\
   items q' ≡ₚ List.filter (fun e => negb (expired 61000 e)) (items q)).
Proof.
  assert (C : clocked 0 sample_ops) by (simpl; lia). split; [exact C|].
  exact (@expire_exact unit map_order 10 10 61000 sample_ops C).
Defined.

(** ** The defer queue *)

Section DeferProofs.
Context {HO : HashOrder}.
Variable sp : Spec.
Notation PQ := (Queue ParkedEvent).

Inductive defer_op :=
  | DPark (now : Z) (event : ParkedEvent)
  | DOverdue (now limit : Z)
  | DSubject (subject : string)
  | DJudged (event_id : string) (release : bool)
  | DSigner (did kid : string)
  | DRetry (now : Z).

Definition defer_step (d : DeferQueue) (op : defer_op) : DeferQueue :=
  match op with
  | DPark now event => (park sp d now event).1
  | DOverdue now limit => (take_overdue_task_waits d now limit).2
  | DSubject subject => (take_for_subject d subject).2
  | DJudged event_id release => (judged d event_id release).2
  | DSigner did kid => (defer_take_for_signer d did kid).2
  | DRetry now => mkDefer (retries_due (dq d) now).2 (judging d)
  end.

Definition defer_run (per_origin tot : Z) (ops : list defer_op) : DeferQueue :=
  fold_left defer_step ops (mkDefer (new_queue per_origin tot) ∅).

(** The event a full queue gives up: its oldest that is not a receipt, or its
    oldest when it holds nothing but receipts. *)
Definition first_to_go (pool : list ParkedEvent) (e : ParkedEvent) : Prop :=
  In e pool /\
  if existsb (fun x => negb (receipt sp x)) pool
  then receipt sp e = false /\ forall x, In x pool -> receipt sp x = false -> pk_seq e <= pk_seq x
  else forall x, In x pool -> pk_seq e <= pk_seq x.

Lemma existsb_in {A} (f : A -> bool) l x : In x l -> f x = true -> existsb f l = true.
Proof. intros H1 H2. apply existsb_exists. eauto. Qed.

Lemma evict_from_spec (q : PQ) o too :
  accounted q -> bucket q o <> [] ->
  (too = false -> exists x, In x (bucket q o) /\ receipt sp x = false) ->
  exists i e, evict_oldest_from sp q o too = Some (o, i) /\ bucket q o !! i = Some e /\
    first_to_go (bucket q o) e.
Proof.
  intros A HN HT. unfold evict_oldest_from, first_to_go. destruct (bucket_facts q o A) as (_ & Ho & _).
  pose proof (position_spec (fun e => negb (receipt sp e)) (bucket q o)) as HP.
  destruct (position _ (bucket q o)) as [i|].
  - destruct HP as (e & He & Hr & Hm). exists i, e. split_and!; [done|done|by eapply list_elem_of_In, list_elem_of_lookup_2|].
    rewrite (existsb_in _ _ e); [|by eapply list_elem_of_In, list_elem_of_lookup_2|done].
    bool_hyps. split; [done|]. intros x Hx Hrx. apply list_elem_of_In, list_elem_of_lookup in Hx as [j Hj].
    eapply (increasing_lookup _ _ _ _ _ Ho He Hj), (Hm _ _ Hj). by rewrite Hrx.
  - destruct too; [|destruct HT as (x & Hx & Hr); [done|]; specialize (HP x Hx); by rewrite Hr in HP].
    destruct (bucket q o) as [|e l] eqn:Hb; [done|]. exists O, e. split_and!; [done|by rewrite ?Hb|by left|].
    replace (existsb _ (e :: l)) with false by (symmetry; by apply existsb_false).
    intros x Hx. apply list_elem_of_In, list_elem_of_lookup in Hx as [j Hj].
    refine (increasing_lookup _ O j _ _ Ho eq_refl Hj _). lia.
Qed.

Lemma evict_any_spec (q : PQ) too :
  accounted q -> items q <> [] ->
  (too = false -> exists x, In x (items q) /\ receipt sp x = false) ->
  exists o i e, evict_oldest_anywhere sp q too = Some (o, i) /\ bucket q o !! i = Some e /\
    first_to_go (items q) e.
Proof.
  intros A HN HT. unfold evict_oldest_anywhere, oldest_origin, first_to_go.
  pose proof (oldest_candidate_spec (fun e => false || negb (receipt sp e)) q A) as HC.
  assert (HB : forall o i e, bucket q o !! i = Some e -> In e (items q)).
  { intros o i e He. destruct (bucket_facts q o A) as (_ & _ & HI).
    eapply HI, list_elem_of_In, list_elem_of_lookup_2, He. }
  destruct (oldest_candidate _ q) as [[o i]|].
  - destruct HC as (e & Hp & He & Hr & Hm). simpl in *. unfold evict_oldest_from. rewrite Hp. exists o, i, e.
    split_and!; [done..|by eauto|]. rewrite (existsb_in _ _ e); [|by eauto|done]. bool_hyps. split; [done|].
    intros x Hx Hrx. apply Hm; [done|]. by rewrite Hrx.
  - simpl in HC. destruct too; [|destruct HT as (x & Hx & Hr); [done|]; specialize (HC x Hx); by rewrite Hr in HC].
    pose proof (oldest_candidate_spec (fun e => true || negb (receipt sp e)) q A) as HC'.
    destruct (oldest_candidate _ q) as [[o i]|].
    + destruct HC' as (e & Hp & He & _ & Hm). simpl in *. unfold evict_oldest_from.
      assert (HP : position (fun e => negb (receipt sp e)) (bucket q o) = None).
      { pose proof (position_spec (fun e => negb (receipt sp e)) (bucket q o)) as HP.
        destruct (position (fun e => negb (receipt sp e)) (bucket q o)); [|done]. destruct HP as (x & Hx & Hr & _).
        by rewrite (HC x (HB _ _ _ Hx)) in Hr. }
      rewrite HP. destruct (bucket q o) as [|e' l] eqn:Hb; [done|]. simpl in Hp. injection Hp as <-.
      exists o, O, e. rewrite Hb. split_and!; [done..|by eapply (HB o O); rewrite Hb|].
      replace (existsb _ (items q)) with false by (symmetry; by apply existsb_false).
      intros x Hx. by apply Hm.
    + destruct (items q) as [|x l] eqn:Hq; [done|]. by specialize (HC' x (or_introl eq_refl)).
Qed.

Definition stamped (d : DeferQueue) (event : ParkedEvent) : ParkedEvent := it_stamp (next_seq (dq d)) event.

(** [is_receipt] reads the tags, which stamping leaves alone. *)
Lemma receipt_stamped d event : receipt sp (stamped d event) = receipt sp event.
Proof. done. Qed.

Lemma arrival_in_bucket (d : DeferQueue) now event :
  In (stamped d event) (bucket (enqueue (dq d) now event) (pk_origin event)).
Proof.
  unfold enqueue. rewrite bucket_insert, bool_decide_true by done. apply in_app_iff. right. by left.
Qed.

Lemma park_spec (d : DeferQueue) now event :
  accounted (dq d) -> bounded (dq d) ->
  let q1 := enqueue (dq d) now event in let o := pk_origin event in
  let '(d', dropped) := park sp d now event in
  room_made q1 (dq d') dropped /\
  match dropped with
  | [] => over_origin o q1 = false /\ over_total q1 = false
  | [e] => first_to_go (if over_origin o q1 then bucket q1 o else items q1) e /\
           (over_origin o q1 = true \/ over_total q1 = true)
  | _ => False
  end.
Proof.
  intros A B q1 o. pose proof (enqueue_one_over (dq d) now event A B) as H.
  pose proof (ov_accounted _ _ H) as A1. pose proof (arrival_in_bucket d now event) as Hin. fold q1 o in Hin, A1, H.
  assert (Hit : In (stamped d event) (items q1)) by (by apply (bucket_facts q1 o A1)).
  destruct (evict_from_spec q1 o (receipt sp event) A1) as (i & e & He & Hi & Hf).
  { intros Hn. by rewrite Hn in Hin. } { intros Hr. exists (stamped d event). by rewrite receipt_stamped. }
  destruct (evict_any_spec q1 (receipt sp event) A1) as (o' & i' & e' & He' & Hi' & Hf').
  { intros Hn. by rewrite Hn in Hit. } { intros Hr. exists (stamped d event). by rewrite receipt_stamped. }
  unfold park. fold q1. fold o. set (v1 := or_arrival o _ (fun q => evict_oldest_from sp q o _)).
  set (v2 := or_arrival o _ (fun q => evict_oldest_anywhere sp q _)).
  assert (V1 : v1 q1 = Some (o, i)) by (unfold v1, or_arrival; by rewrite He).
  assert (V2 : v2 q1 = Some (o', i')) by (unfold v2, or_arrival; by rewrite He').
  destruct (make_room_spec q1 o v1 v2 H) as [R D]; [intros _; by eauto|intros _ _; rewrite V2; simpl; by eauto|].
  destruct (make_room o v1 v2 q1) as [q' dropped]; simpl in R, D |- *. split; [done|].
  rewrite V1, V2 in D. simpl in D. rewrite Hi, Hi' in D. subst dropped. simpl.
  destruct (over_origin o q1); [by auto|]. destruct (over_total q1); auto.
Qed.

Lemma take_matching_out (d : DeferQueue) wanted :
  taken_out (dq d) (dq (take_matching d wanted).2) (take_matching d wanted).1.
Proof.
  unfold take_matching; cbn [fst snd dq].
  destruct (fold_forget_frame (picked wanted (dq d)) (with_buckets (dq d) (kept wanted (by_origin (dq d)))))
    as (HB & HT & HN & HP & HM & HL).
  split; [| |done|done|done|done].
  - unfold items at 2. rewrite HB. simpl. rewrite kept_items, picked_perm. apply filter_split.
  - intros o l. rewrite HB. simpl. intros (Hn & l0 & Hl0 & ->)%kept_lookup. split; [done|]. exists l0.
    split; [done|apply filter_sublist_bool].
Qed.

Definition defer_ok (per_origin tot : Z) (d : DeferQueue) : Prop :=
  accounted (dq d) /\ bounded (dq d) /\
  max_per_origin (dq d) = Z.max per_origin 1 /\ max_total (dq d) = Z.max tot 1.

Lemma take_matching_ok per_origin tot d wanted :
  defer_ok per_origin tot d -> defer_ok per_origin tot (take_matching d wanted).2.
Proof.
  intros (A & B & C1 & C2). pose proof (take_matching_out d wanted) as T.
  destruct (to_ceilings _ _ _ T) as [T1 T2]. unfold defer_ok. rewrite T1, T2.
  split_and!; eauto with freeq.
Qed.

Lemma drop_key_ok per_origin tot d did kid j :
  defer_ok per_origin tot d -> defer_ok per_origin tot (mkDefer (drop_key (dq d) did kid) j).
Proof.
  intros (A & B & C1 & C2). split_and!; [|by split; apply B|done..]. split; [apply A..| |apply A].
  intros k r. simpl. intros [Hr _]%map_lookup_filter_Some. by eapply (ac_live _ A).
Qed.

Lemma defer_step_ok per_origin tot d op :
  defer_ok per_origin tot d -> defer_ok per_origin tot (defer_step d op).
Proof.
  intros K. destruct op as [now event|now limit|subject|event_id release|did kid|now]; cbn [defer_step].
  - destruct K as (A & B & C1 & C2). pose proof (park_spec d now event A B) as HP.
    destruct (park sp d now event) as [d' dropped]. destruct HP as [R _].
    destruct (rm_ceilings _ _ _ R) as [T1 T2]. unfold defer_ok; simpl. rewrite T1, T2. split_and!; [apply R..|done|done].
  - by apply take_matching_ok.
  - by apply take_matching_ok.
  - unfold judged. destruct release; [by apply take_matching_ok|done].
  - unfold defer_take_for_signer.
    pose proof (take_matching_ok per_origin tot d (fun e => match pk_waiting_on e with None => true | Some _ => false end
      && String.eqb (pk_signer e) did && String.eqb (pk_kid e) kid) K) as K'.
    destruct (take_matching d _) as [taken d']. by apply drop_key_ok.
  - destruct K as (A & B & C1 & C2). split_and!; [by apply retries_due_accounted|by split; apply B|done..].
Qed.

Lemma defer_run_ok per_origin tot ops : defer_ok per_origin tot (defer_run per_origin tot ops).
Proof.
  unfold defer_run. apply fold_left_inv; [intros; by apply defer_step_ok|].
  destruct (@new_queue_accounted ParkedEvent _ per_origin tot) as [A B]. done.
Qed.

(** Whatever task events are parked, released, judged, timed out and
    asked about, in whatever order, the total is the number of events parked
    and stays within the ceiling, every peer's share stays within its own, holds
    only that peer's events in the order they were parked, and no two parked
    events have the same place in that order. *)
Theorem defer_queue_invariant (per_origin tot : Z) (ops : list defer_op) :
  let q := dq (defer_run per_origin tot ops) in
  total q = Z.of_nat (List.length (items q)) /\ total q <= Z.max tot 1 /\
  (forall o l, by_origin q !! o = Some l ->
     l <> [] /\ Z.of_nat (List.length l) <= Z.max per_origin 1 /\
     Forall (fun e => pk_origin e = o) l /\ increasing pk_seq l) /\
  List.NoDup (map pk_seq (items q)).
Proof.
  intros q. destruct (defer_run_ok per_origin tot ops) as (A & B & C1 & C2). fold q in A, B, C1, C2.
  rewrite <- C1, <- C2. split_and!; [apply A|apply B| |apply A].
  intros o l Hl. pose proof (bd_origin _ B o) as HL. unfold bucket in HL. rewrite Hl in HL.
  split_and!; [|done|by apply (ac_filed _ A)|by eapply (ac_order _ A)].
  intros ->. by apply (bd_nonempty _ B o).
Qed.

Lemma first_to_go_ext p1 p2 e :
  (forall x, In x p1 <-> In x p2) -> first_to_go p1 e -> first_to_go p2 e.
Proof.
  intros HI [Hin HM]. split; [by apply HI|].
  replace (existsb (fun x => negb (receipt sp x)) p2) with (existsb (fun x => negb (receipt sp x)) p1).
  2:{ apply eq_true_iff_eq. rewrite !existsb_exists. by setoid_rewrite HI. }
  destruct (existsb _ p1); [destruct HM as [H1 H2]; split; [done|]|]; intros x Hx; [apply H2|apply HM]; by apply HI.
Qed.

(** A receipt goes only when everything it competes with is a receipt. *)
Lemma first_to_go_receipt pool e x :
  first_to_go pool e -> receipt sp e = true -> In x pool -> receipt sp x = true.
Proof.
  intros [_ HM] Hr Hx. destruct (receipt sp x) eqn:Hrx; [done|].
  rewrite (existsb_in _ pool x) in HM; [|done|by rewrite Hrx]. destruct HM. congruence.
Qed.

(** An arriving receipt outlives anything parked before it. *)
Lemma first_to_go_not_newest pool e a b :
  first_to_go pool e -> In b pool -> receipt sp a = true -> pk_seq b < pk_seq a -> e <> a.
Proof.
  intros [_ HM] Hb Hr Hs ->. destruct (existsb _ pool); [destruct HM; congruence|]. specialize (HM b Hb). lia.
Qed.

(** What competes for room: the peer's own events when its share is full, all
    events when the total is. *)
Definition competing (d : DeferQueue) (event : ParkedEvent) : list ParkedEvent :=
  let o := pk_origin event in
  let all := stamped d event :: items (dq d) in
  if max_per_origin (dq d) <=? Z.of_nat (List.length (bucket (dq d) o))
  then List.filter (fun e => String.eqb (pk_origin e) o) all else all.

Lemma in_competing (d : DeferQueue) now event x :
  accounted (dq d) ->
  let q1 := enqueue (dq d) now event in
  In x (if over_origin (pk_origin event) q1 then bucket q1 (pk_origin event) else items q1)
  <-> In x (competing d event).
Proof.
  intros A q1. assert (A1 : accounted q1) by by apply enqueue_accounted.
  assert (HI : In x (items q1) <-> In x (stamped d event :: items (dq d))).
  { unfold q1. by rewrite <- !list_elem_of_In, enqueue_items. }
  unfold competing. change (pk_origin event) with (it_origin event) at 1 3. unfold q1 at 1.
  rewrite over_origin_enqueue. simpl it_origin. destruct (_ <=? _); [|done].
  rewrite in_bucket, filter_In, String.eqb_eq by done. by rewrite HI.
Qed.

(** A full share or a full queue already holds an event older than the arrival. *)
Lemma competing_older (d : DeferQueue) event :
  accounted (dq d) ->
  max_per_origin (dq d) <= Z.of_nat (List.length (bucket (dq d) (pk_origin event))) \/
    max_total (dq d) <= total (dq d) ->
  exists b, In b (competing d event) /\ pk_seq b < next_seq (dq d).
Proof.
  intros A H. pose proof (ac_ceilings _ A) as [C1 C2]. pose proof (ac_seq _ A) as Hs. rewrite Forall_forall in Hs.
  assert (HX : exists b, In b (items (dq d)) /\ In b (competing d event)).
  { unfold competing. destruct (_ <=? _) eqn:Ho; bool_hyps.
    - destruct (bucket (dq d) (pk_origin event)) as [|b l] eqn:Hb; simpl in Ho; [lia|].
      assert (Hin : In b (bucket (dq d) (pk_origin event))) by (rewrite Hb; by left).
      apply in_bucket in Hin as [Hi Hbo]; [|done]. exists b. split; [done|]. apply filter_In.
      split; [by right|]. by apply String.eqb_eq.
    - destruct H as [H|H]; [lia|]. rewrite (ac_total _ A) in H.
      destruct (items (dq d)) as [|b l] eqn:Hb; simpl in H; [lia|]. exists b. simpl. auto. }
  destruct HX as (b & Hi & Hc). exists b. split; [done|]. by apply (Hs b), list_elem_of_In.
Qed.

(** Parking an event loses at most one event, the one that should go:
    among the events that compete for the full share or the full queue, the
    oldest that is not a receipt, or the oldest when all are receipts. So a
    receipt is given up only for an arriving receipt and only when nothing
    else could go, and an arriving receipt is always parked. *)
Theorem park_protects_receipts (per_origin tot now : Z) (ops : list defer_op) (event : ParkedEvent) :
  let d := defer_run per_origin tot ops in
  let '(d', dropped) := park sp d now event in
  stamped d event :: items (dq d) ≡ₚ dropped ++ items (dq d') /\
  match dropped with
  | [] => True
  | [e] => first_to_go (competing d event) e /\
           (receipt sp e = true ->
              receipt sp event = true /\ forall x, In x (competing d event) -> receipt sp x = true) /\
           (receipt sp event = true -> e <> stamped d event)
  | _ => False
  end.
Proof.
  intros d. destruct (defer_run_ok per_origin tot ops) as (A & B & _). fold d in A, B.
  pose proof (park_spec d now event A B) as HP. destruct (park sp d now event) as [d' dropped].
  destruct HP as [R HD]. split; [rewrite <- (rm_items _ _ _ R); symmetry; apply enqueue_items|].
  destruct dropped as [|e [|? ?]]; [done| |done]. destruct HD as [HF Hov].
  apply (first_to_go_ext _ (competing d event)) in HF; [|intros x; by apply in_competing].
  assert (Harr : In (stamped d event) (competing d event)).
  { apply (in_competing d now); [done|]. pose proof (arrival_in_bucket d now event) as Hin.
    destruct (over_origin _ _); [done|]. apply (in_bucket _ (pk_origin event)) in Hin as [? _]; [done|].
    by apply enqueue_accounted. }
  split_and!; [done| |].
  - intros Hr. split; [|intros x; by apply (first_to_go_receipt _ e)].
    rewrite <- (receipt_stamped d). by apply (first_to_go_receipt (competing d event) e).
  - intros Hr. destruct (competing_older d event A) as (b & Hb & Hs).
    { destruct Hov as [Ho|Ho]; [left|right; unfold over_total in Ho; simpl in Ho; bool_hyps; lia].
      change (pk_origin event) with (it_origin event) in Ho. rewrite over_origin_enqueue in Ho. by bool_hyps. }
    by apply (first_to_go_not_newest (competing d event) e _ b).
Qed.
End DeferProofs.

(** ** The route queue *)

Section RouteProofs.
Context {Msg : Type}.
Notation RQ := (RouteQueue Msg).

Inductive route_op := RPark (route : PendingRoute Msg) | RDue (now : Z).

Definition route_step (q : RQ) (op : route_op) : RQ :=
  match op with RPark route => route_park q route | RDue now => (take_due q now).2 end.

Definition route_run (max : Z) (ops : list route_op) : RQ := fold_left route_step ops (new_routes max).

Record routes_ok (q : RQ) : Prop := mkRoutesOk {
  ro_key : forall k r, by_event q !! k = Some r -> rt_event_id r = k /\ rt_seq r < rq_next_seq q;
  ro_distinct : forall k1 k2 r1 r2, by_event q !! k1 = Some r1 -> by_event q !! k2 = Some r2 ->
    rt_seq r1 = rt_seq r2 -> k1 = k2;
  ro_size : Z.of_nat (size (by_event q)) <= rq_max q;
  ro_max : 1 <= rq_max q
}.

#[local] Instance route_le_trans : Transitive (@route_le Msg).
Proof. intros x y z. unfold route_le. lia. Qed.
#[local] Instance route_le_total : Total (@route_le Msg).
Proof. intros x y. unfold route_le. lia. Qed.

Lemma first_route (m : gmap string (PendingRoute Msg)) :
  m <> ∅ -> exists k r, head (merge_sort route_le (map_to_list m)) = Some (k, r) /\ m !! k = Some r /\
    forall k' r', m !! k' = Some r' -> rt_seq r <= rt_seq r'.
Proof.
  intros Hm. pose proof (merge_sort_Permutation route_le (map_to_list m)) as P.
  pose proof (StronglySorted_merge_sort route_le (map_to_list m)) as HS.
  destruct (merge_sort route_le (map_to_list m)) as [|[k r] l].
  - apply Permutation_nil, map_to_list_empty_iff in P. done.
  - exists k, r. assert (HI : forall k' r', (k', r') ∈ (k, r) :: l <-> m !! k' = Some r').
    { intros k' r'. by rewrite P, elem_of_map_to_list. }
    split_and!; [done|by apply HI; left|]. intros k' r' [[= -> ->]|Hin]%HI%elem_of_cons; [lia|].
    inversion_clear HS as [|? ? _ HF]. rewrite Forall_forall in HF. apply (HF _ Hin).
Qed.

(** What [park] leaves of the routes: everything, or everything but the route
    parked longest ago. *)
Lemma shed_routes_one (m : gmap string (PendingRoute Msg)) (max : Z) :
  1 <= max -> Z.of_nat (size m) <= max + 1 ->
  (forall k r, m !! k = Some r -> rt_event_id r = k) ->
  (Z.of_nat (size m) <= max /\ shed_routes (size m) max m = m) \/
  exists k r, m !! k = Some r /\ (forall k' r', m !! k' = Some r' -> rt_seq r <= rt_seq r') /\
    Z.of_nat (size m) = max + 1 /\ shed_routes (size m) max m = delete k m.
Proof.
  intros H1 HS HK. destruct (size m) as [|n] eqn:Hsz; [left; split; [lia|done]|]. cbn [shed_routes]. rewrite Hsz.
  destruct (max <? Z.of_nat (S n)) eqn:Ho; bool_hyps; [right|left; split; [lia|done]].
  destruct (first_route m) as (k & r & -> & Hk & Hmin); [intros ->; by rewrite map_size_empty in Hsz|].
  exists k, r. split_and!; [done..|lia|]. rewrite (HK _ _ Hk).
  destruct n as [|n]; [done|]. cbn [shed_routes]. rewrite map_size_delete_Some by eauto. rewrite Hsz.
  replace (max <? _) with false; [done|]. symmetry. apply Z.ltb_ge. simpl. lia.
Qed.

Lemma route_insert_size (q : RQ) r :
  routes_ok q -> Z.of_nat (size (<[rt_event_id r := r]> (by_event q))) <= rq_max q + 1.
Proof. intros K. rewrite map_size_insert. pose proof (ro_size _ K). case_match; unfold id; lia. Qed.

Lemma route_insert_keys (q : RQ) r k x :
  routes_ok q -> <[rt_event_id r := r]> (by_event q) !! k = Some x -> rt_event_id x = k.
Proof.
  intros K. rewrite lookup_insert_Some. intros [[<- <-]|[_ H]]; [done|]. by apply (ro_key _ K).
Qed.

Lemma route_sub_ok (q : RQ) (m : gmap string (PendingRoute Msg)) :
  routes_ok q -> m ⊆ by_event q -> routes_ok (mkRoutes m (rq_next_seq q) (rq_max q)).
Proof.
  intros K HS. split; simpl.
  - intros k r H. apply (ro_key _ K). by eapply lookup_weaken.
  - intros k1 k2 r1 r2 H1 H2. apply (ro_distinct _ K); by eapply lookup_weaken.
  - pose proof (ro_size _ K). apply map_subseteq_size in HS. lia.
  - apply K.
Qed.

Lemma route_park_spec (q : RQ) route :
  routes_ok q ->
  let r := stamp_route (rq_next_seq q) route in
  let m := <[rt_event_id route := r]> (by_event q) in
  by_event (route_park q route) = m /\ Z.of_nat (size m) <= rq_max q \/
  exists k x, m !! k = Some x /\ k <> rt_event_id route /\
    (forall k' x', m !! k' = Some x' -> rt_seq x <= rt_seq x') /\
    Z.of_nat (size m) = rq_max q + 1 /\ by_event (route_park q route) = delete k m.
Proof.
  intros K r m. destruct (shed_routes_one m (rq_max q)) as [[H1 H2]|(k & x & Hk & Hmin & Hs & He)].
  - apply K.
  - by apply (route_insert_size q r).
  - intros k x. by apply (route_insert_keys q r).
  - left. done.
  - right. exists k, x. split_and!; [done| |done|done|done]. intros ->.
    unfold m in Hk. rewrite lookup_insert_eq in Hk. injection Hk as <-.
    assert (HE : exists k' x', k' <> rt_event_id route /\ by_event q !! k' = Some x').
    { pose proof (ro_max _ K). unfold m in Hs. rewrite map_size_insert in Hs.
      destruct (by_event q !! rt_event_id route) eqn:Hq; unfold id in Hs.
      - pose proof (ro_size _ K). lia.
      - destruct (map_size_ne_0_lookup_1 (by_event q)) as (k' & x' & Hx'); [lia|]. exists k', x'.
        split; [congruence|done]. }
    destruct HE as (k' & x' & Hne & Hx'). specialize (Hmin k' x').
    unfold m in Hmin. rewrite lookup_insert_ne in Hmin by done. specialize (Hmin Hx').
    pose proof (ro_key _ K _ _ Hx') as [_ Hlt]. simpl in Hmin. lia.
Qed.

Lemma route_park_ok (q : RQ) route : routes_ok q -> routes_ok (route_park q route).
Proof.
  intros K. set (r := stamp_route (rq_next_seq q) route). set (m := <[rt_event_id route := r]> (by_event q)).
  assert (HL : by_event (route_park q route) ⊆ m /\ Z.of_nat (size (by_event (route_park q route))) <= rq_max q).
  { destruct (route_park_spec q route K) as [[-> H]|(k & x & Hk & _ & _ & Hs & ->)]; [done|].
    split; [apply delete_subseteq|]. rewrite map_size_delete_Some by eauto. rewrite <- Nat.sub_1_r. unfold m, r in *. pose proof (ro_max _ K). lia. }
  destruct HL as [HL HS].
  assert (Hm : forall k x, m !! k = Some x ->
      k = rt_event_id route /\ x = r \/ by_event q !! k = Some x /\ rt_event_id x = k /\ rt_seq x < rq_next_seq q).
  { intros k x. unfold m. rewrite lookup_insert_Some. intros [[<- <-]|[_ H]]; [by left|right].
    split; [done|]. by apply (ro_key _ K). }
  split; [| |done|apply K].
  - intros k x Hx. destruct (Hm k x) as [[-> ->]|(Hq & He & Hs)]; [by eapply lookup_weaken|simpl; split; [done|lia]|].
    simpl. split; [done|lia].
  - intros k1 k2 x1 x2 H1 H2 Hseq.
    destruct (Hm k1 x1) as [[-> ->]|(Hq1 & He1 & Hs1)]; [by eapply lookup_weaken| |];
    (destruct (Hm k2 x2) as [[-> ->]|(Hq2 & He2 & Hs2)]; [by eapply lookup_weaken| |]); simpl in Hseq;
      [done|lia|lia|by eapply (ro_distinct _ K)].
Qed.

Definition route_due (now : Z) (r : PendingRoute Msg) : bool := rt_next_attempt r <=? now.
Notation due_ids q now := (map (fun kr : string * PendingRoute Msg => rt_event_id kr.2)
   (List.filter (fun kr => rt_next_attempt kr.2 <=? now) (map_to_list (by_event q)))).

Lemma in_due_ids (q : RQ) now k :
  routes_ok q -> In k (due_ids q now) <-> exists r, by_event q !! k = Some r /\ route_due now r = true.
Proof.
  intros K. rewrite in_map_iff. split.
  - intros ([k' r] & <- & [Hin Hd]%filter_In). apply list_elem_of_In, elem_of_map_to_list in Hin. simpl in *.
    destruct (ro_key _ K _ _ Hin) as [-> _]. eauto.
  - intros (r & Hr & Hd). exists (k, r). split; [by apply (ro_key _ K _ _ Hr)|].
    apply filter_In. split; [by apply list_elem_of_In, elem_of_map_to_list|done].
Qed.

Lemma lookup_foldr_delete {A} (ids : list string) (m : gmap string A) k :
  foldr delete m ids !! k = if bool_decide (k ∈ ids) then None else m !! k.
Proof.
  induction ids as [|i ids IH]; [done|]. cbn [foldr]. destruct (decide (i = k)) as [->|Hne].
  - rewrite lookup_delete_eq, bool_decide_true by by left. done.
  - rewrite lookup_delete_ne, IH by done. erewrite (bool_decide_ext (k ∈ ids)); [done|].
    rewrite elem_of_cons. naive_solver.
Qed.

Lemma take_due_lookup (q : RQ) now k :
  routes_ok q ->
  by_event (take_due q now).2 !! k
  = match by_event q !! k with Some r => if route_due now r then None else Some r | None => None end.
Proof.
  intros K. simpl. rewrite lookup_foldr_delete. case_bool_decide as Hin.
  - apply list_elem_of_In, (in_due_ids q now k K) in Hin as (r & -> & ->). done.
  - destruct (by_event q !! k) as [r|] eqn:Hr; [|done]. destruct (route_due now r) eqn:Hd; [|done].
    exfalso. apply Hin, list_elem_of_In, in_due_ids; eauto.
Qed.

Lemma route_run_ok max ops : routes_ok (route_run max ops) /\ rq_max (route_run max ops) = Z.max max 1.
Proof.
  unfold route_run. apply fold_left_inv.
  - intros q [route|now] [K HM]; cbn [route_step]; [split; [by apply route_park_ok|done]|].
    split; [|done]. apply (route_sub_ok q); [done|]. apply map_subseteq_spec. intros k r.
    pose proof (take_due_lookup q now k K) as HT. simpl in HT |- *. rewrite HT.
    destruct (by_event q !! k) as [x|]; [|done]. by destruct (route_due now x).
  - split; [|done]. split; simpl; try (intros; by simplify_map_eq); [|lia]. rewrite map_size_empty. lia.
Qed.

(** A route that is parked is on file under its event, whatever was
    waiting for that event before, and at most one other route is given up:
    none while the queue is within its ceiling, and then the one parked longest
    ago. *)
Theorem route_park_keeps_newest (max : Z) (ops : list route_op) (route : PendingRoute Msg) :
  let q := route_run max ops in
  let q' := route_park q route in
  let m := <[rt_event_id route := stamp_route (rq_next_seq q) route]> (by_event q) in
  Z.of_nat (size (by_event q')) <= Z.max max 1 /\
  by_event q' !! rt_event_id route = Some (stamp_route (rq_next_seq q) route) /\
  forall k, by_event q' !! k = m !! k \/
    (Z.of_nat (size m) = Z.max max 1 + 1 /\ by_event q' !! k = None /\
     exists r, by_event q !! k = Some r /\
       forall k' r', by_event q !! k' = Some r' -> rt_seq r <= rt_seq r').
Proof.
  intros q q' m. destruct (route_run_ok max ops) as [K HM]. fold q in K, HM. rewrite <- HM.
  pose proof (ro_size _ (route_park_ok q route K)) as HS.
  destruct (route_park_spec q route K) as [[He Hs]|(k0 & x & Hk & Hne & Hmin & Hs & He)]; fold m q' in He, Hs, HS |- *.
  - split_and!; [exact HS| |]; rewrite He; [by apply lookup_insert_eq|by auto].
  - fold m in Hk, Hmin. split_and!; [exact HS| |]; rewrite He.
    + rewrite lookup_delete_ne by done. apply lookup_insert_eq.
    + intros k. destruct (decide (k = k0)) as [->|Hk0]; [right|left; by rewrite lookup_delete_ne].
      unfold m in Hk. rewrite lookup_insert_ne in Hk by done.
      split_and!; [done|apply lookup_delete_eq|]. exists x. split; [done|]. intros k' r' Hr'.
      destruct (decide (k' = rt_event_id route)) as [->|Hk'];
        [|apply (Hmin k'); unfold m; by rewrite lookup_insert_ne].
      specialize (Hmin (rt_event_id route) (stamp_route (rq_next_seq q) route)).
      unfold m in *. rewrite map_size_insert, Hr' in Hs. unfold id in Hs. pose proof (ro_size _ K). lia.
Qed.

(** A sweep takes out exactly the routes that are due, in the order they
    were parked, and leaves every other route as it was. *)
Theorem take_due_exact (max now : Z) (ops : list route_op) :
  let q := route_run max ops in
  let '(taken, q') := take_due q now in
  (forall r, In r taken <-> by_event q !! rt_event_id r = Some r /\ route_due now r = true) /\
  StronglySorted (fun a b => rt_seq a <= rt_seq b) taken /\
  forall k, by_event q' !! k
    = match by_event q !! k with Some r => if route_due now r then None else Some r | None => None end.
Proof.
  intros q. destruct (route_run_ok max ops) as [K _]. fold q in K. unfold take_due.
  set (l := omap _ _). split_and!; [| |by intros k; apply take_due_lookup].
  - intros r. rewrite in_map_iff. assert (HL : forall k x, In (k, x) (merge_sort route_le l) <->
      In k (due_ids q now) /\ by_event q !! k = Some x).
    { intros k x. rewrite <- list_elem_of_In, merge_sort_Permutation. unfold l. rewrite list_elem_of_omap.
      setoid_rewrite list_elem_of_In. split.
      - intros (i & Hi & H). destruct (by_event q !! i) eqn:E; simplify_eq/=. done.
      - intros [Hi H]. exists k. split; [done|]. by rewrite H. }
    split.
    + intros ([k x] & <- & [Hi Hx]%HL). apply in_due_ids in Hi as (x' & Hx' & Hd); [|done]. simplify_eq/=.
      destruct (ro_key _ K _ _ Hx') as [-> _]. done.
    + intros [Hr Hd]. exists (rt_event_id r, r). split; [done|]. apply HL. split; [|done].
      apply in_due_ids; eauto.
  - pose proof (StronglySorted_merge_sort route_le l) as HS. induction HS as [|x t _ IH HF]; simpl; constructor; [done|].
    clear -HF. induction HF; simpl; constructor; auto.
Qed.
End RouteProofs.

(** ** The schedule of key requests *)

Section RetryProofs.
Context {E : Type} {QI : QItem E}.

(** A sweep asks for exactly the keys that can be asked for and whose time
    has come, and, however often sweeps run, a key asked for is not asked for
    again before thirty seconds have passed; its next request is at most ten
    minutes away. *)
Theorem asked_keys_are_spaced (q : Queue E) (now now' : Z) (k : Key) :
  accounted q ->
  let '(asked, q') := retries_due q now in
  (In k asked <-> exists r, retries q !! k = Some r /\ k.1.2 <> ""%string /\ k.2 <> ""%string /\
                    kr_next_attempt r <= now) /\
  (In k asked -> now' < now + FIRST_RETRY -> ~ In k (retries_due q' now').1) /\
  (In k asked -> now + MAX_RETRY <= now' -> In k (retries_due q' now').1).
Proof.
  intros A. destruct (retries_due q now) as [asked q'] eqn:HR.
  pose proof (in_retries_due q now k) as HA. pose proof (retries_due_lookup q now k) as HL. rewrite HR in HA, HL.
  simpl fst in HA. simpl snd in HL.
  assert (HE : forall s, negb (is_empty s) = true <-> s <> ""%string) by (intros [|? ?]; simpl; split; congruence).
  assert (HD : forall n r, due n k r = true <-> k.1.2 <> ""%string /\ k.2 <> ""%string /\ kr_next_attempt r <= n).
  { intros n r. unfold due. rewrite !andb_true_iff, !HE, Z.leb_le. tauto. }
  split; [rewrite HA; by setoid_rewrite HD|].
  assert (HN : In k asked -> exists r, retries q' !! k = Some r /\ k.1.2 <> ""%string /\ k.2 <> ""%string /\
                 now + FIRST_RETRY <= kr_next_attempt r <= now + MAX_RETRY).
  { intros (r & Hr & Hd)%HA. rewrite Hr in HL. simpl in HL. rewrite Hd in HL. apply HD in Hd as (H1 & H2 & _).
    eexists. split_and!; [exact HL|done|done|simpl|simpl]; pose proof (ac_live _ A _ _ Hr);
      pose proof (retry_backoff_bounds (kr_attempts r + 1)); lia. }
  split; intros (r & Hr & H1 & H2 & H3)%HN Ht.
  - intros (r' & Hr' & Hd)%in_retries_due. apply HD in Hd as (_ & _ & Hd). simplify_eq. lia.
  - apply in_retries_due. exists r. split; [done|]. apply HD. split_and!; [done..|lia].
Qed.
End RetryProofs.

Lemma asked_keys_are_spaced_witness :
  let q := @held_run unit map_order 10 10 sample_ops in
  let k := ("p", "did:plc:a", "k1")%string in
  accounted q /\ In k (retries_due q 40000).1 /\ ~ In k (retries_due (retries_due q 40000).2 69999).1.
Proof.
  cbv zeta. assert (A : accounted (@held_run unit map_order 10 10 sample_ops)) by apply held_run_ok.
  assert (HI : In ("p", "did:plc:a", "k1")%string (retries_due (@held_run unit map_order 10 10 sample_ops) 40000).1)
    by (vm_compute; auto).
  split; [exact A|]. split; [exact HI|].
  destruct (asked_keys_are_spaced (@held_run unit map_order 10 10 sample_ops) 40000 69999
              ("p", "did:plc:a", "k1")%string A) as (_ & H & _).
  apply H; [exact HI|unfold FIRST_RETRY; lia].
Defined.
