(* ===== verification/NickMap.v ===== *)
(** * Nicknames

    Models [NickMap], [bind_identity] and [bind_identity_with_fallback] of
    [freeq-server/src/server.rs] and the NICK arm of the command loop of
    [connection/mod.rs]. [Names] is the part of [SharedState] they share: who
    is connected under which nick, and which identity owns which nick. *)

From stdpp Require Import base gmap strings list fin_maps.
From Stdlib Require Import ZArith Lia String Ascii.
From S2P Require Import Prelude.
Open Scope Z_scope.

(** ** The map *)

Record NickMap := mkNickMap {
  nick_to_sid : gmap string string;   (* lower-case nick to primary session *)
  sid_to_nick : gmap string string    (* session to display nick *)
}.

Definition no_nicks : NickMap := mkNickMap ∅ ∅.

Section Map.
Context {CF : CaseFold} {HO : HashOrder}.

Definition nm_insert (m : NickMap) (display_nick session_id : string) : NickMap :=
  let lower := to_lowercase display_nick in
  let primaries :=
    match sid_to_nick m !! session_id with
    | Some old_nick =>
        let old_lower := to_lowercase old_nick in
        if negb (String.eqb old_lower lower)
           && bool_decide (nick_to_sid m !! old_lower = Some session_id)
        then delete old_lower (nick_to_sid m) else nick_to_sid m
    | None => nick_to_sid m
    end in
  mkNickMap (<[lower := session_id]> primaries)
            (<[session_id := display_nick]> (delete session_id (sid_to_nick m))).

Definition get_session (m : NickMap) (nick : string) : option string := nick_to_sid m !! to_lowercase nick.
Definition get_nick (m : NickMap) (session_id : string) : option string := sid_to_nick m !! session_id.
Definition contains_nick (m : NickMap) (nick : string) : bool := is_some (get_session m nick).

Definition remove_by_nick (m : NickMap) (nick : string) : option string * NickMap :=
  let lower := to_lowercase nick in
  (nick_to_sid m !! lower,
   mkNickMap (delete lower (nick_to_sid m))
             (filter (fun sn => to_lowercase sn.2 <> lower) (sid_to_nick m))).

Definition remove_by_session (m : NickMap) (session_id : string) : option string * NickMap :=
  match sid_to_nick m !! session_id with
  | None => (None, m)
  | Some nick =>
      let lower := to_lowercase nick in
      let rest := delete session_id (sid_to_nick m) in
      (Some nick,
       if bool_decide (nick_to_sid m !! lower = Some session_id) then
         let n2s := delete lower (nick_to_sid m) in
         mkNickMap
           (match List.find (fun sn => String.eqb (to_lowercase sn.2) lower) (hash_iter rest) with
            | Some (other, _) => <[lower := other]> n2s
            | None => n2s
            end) rest
       else mkNickMap (nick_to_sid m) rest)
  end.

Definition nick_belongs_to (m : NickMap) (nick session_id : string) : bool :=
  bool_decide (get_session m nick = Some session_id).
End Map.

(** ** Identities *)

Record Names := mkNames {
  nick_to_session : NickMap;
  nick_owners : gmap string string;    (* lower-case nick to DID *)
  did_nicks : gmap string string;      (* DID to lower-case nick *)
  session_dids : gmap string string
}.

Inductive BindOutcome := Bound | ConflictOwnedByOther (owner_did : string).

Section Identity.
Context {CF : CaseFold}.

Definition with_owners (s : Names) (owners nicks : gmap string string) : Names :=
  mkNames (nick_to_session s) owners nicks (session_dids s).

(** The nick the identity held before, unless it is this one, is released. *)
Definition release_previous (s : Names) (did nick_lower : string) : gmap string string :=
  match did_nicks s !! did with
  | Some prev =>
      if negb (String.eqb prev nick_lower) && bool_decide (nick_owners s !! prev = Some did)
      then delete prev (nick_owners s) else nick_owners s
  | None => nick_owners s
  end.

Definition bind_identity (s : Names) (did nick : string) : BindOutcome * Names :=
  let nick_lower := to_lowercase nick in
  let bound := (Bound, with_owners s (<[nick_lower := did]> (release_previous s did nick_lower))
                                     (<[did := nick_lower]> (did_nicks s))) in
  match nick_owners s !! nick_lower with
  | Some existing => if String.eqb existing did then bound else (ConflictOwnedByOther existing, s)
  | None => bound
  end.

Definition MAX_NICK : Z := 64.

(** [rsplit(':').next()]: what follows the last colon. *)
Fixpoint after_last_colon (s : string) : string :=
  match s with
  | EmptyString => ""
  | String c r => if str_contains ":" r then after_last_colon r
                  else if Ascii.eqb c ":" then r else s
  end.

Definition ident_of (did : string) : string :=
  str_map ascii_lower (str_filter is_ascii_alphanumeric (after_last_colon did)).

(** [chars().take(n)]: a byte 10xxxxxx continues the character before it. *)
Definition continues (c : ascii) : bool := Z.land (byte c) 192 =? 128.
Fixpoint take_chars (n : nat) (s : string) : string :=
  match s with
  | EmptyString => ""
  | String c r =>
      if continues c then String c (take_chars n r)
      else match n with O => "" | S m => String c (take_chars m r) end
  end.

(** [chars()]: each character as the string of its bytes. *)
Fixpoint str_chars (s : string) : list string :=
  match s with
  | EmptyString => []
  | String c r =>
      match str_chars r with
      | String d t :: rest => if continues d then String c (String d t) :: rest
                              else String c "" :: String d t :: rest
      | l => String c "" :: l
      end
  end.

Definition derived_nick (requested_lower ident : string) (frag_len : Z) : string :=
  let base_budget := Z.max 0 (MAX_NICK - (1 + frag_len)) in
  (take_chars (Z.to_nat base_budget) requested_lower +:+ "-" +:+ str_take (Z.to_nat frag_len) ident).

(** The loop over fragment lengths; [None] when it runs out or the identity has
    no usable character. *)
Fixpoint try_fragments (s : Names) (did requested_lower ident last : string) (lens : list Z)
    : option string * Names :=
  match lens with
  | [] => (None, s)
  | raw_len :: lens =>
      let frag_len := Z.min raw_len (Z.of_nat (String.length ident)) in
      if frag_len =? 0 then (None, s)
      else
        let derived := derived_nick requested_lower ident frag_len in
        if String.eqb derived last then try_fragments s did requested_lower ident last lens
        else match bind_identity s did derived with
             | (Bound, s') => (Some derived, s')
             | (ConflictOwnedByOther _, s') => try_fragments s' did requested_lower ident derived lens
             end
  end.

(** [guest] is the nick with a random number the last resort draws. *)
Definition bind_identity_with_fallback (s : Names) (did requested guest : string) : string * Names :=
  let requested_lower := to_lowercase requested in
  match bind_identity s did requested_lower with
  | (Bound, s') => (requested_lower, s')
  | (ConflictOwnedByOther _, s') =>
      let ident := ident_of did in
      match try_fragments s' did requested_lower ident ""
              [8; 12; 16; 24; Z.of_nat (String.length ident)] with
      | (Some derived, s'') => (derived, s'')
      | (None, s'') => (guest, (bind_identity s'' did guest).2)
      end
  end.
End Identity.

(** ** The NICK command *)

Inductive ActorClass := Human | Agent | ExternalAgent.
#[export] Instance actor_class_eq_dec : EqDecision ActorClass.
Proof. solve_decision. Defined.

Definition actor_class_name (a : ActorClass) : string :=
  match a with Human => "human" | Agent => "agent" | ExternalAgent => "external_agent" end.

(** The fields of a connection the commands here read. *)
Record Connection := mkConn {
  c_nick : option string;
  c_user : option string;
  c_realname : option string;
  c_authenticated_did : option string;
  c_registered : bool;
  c_cap_negotiating : bool;
  c_sasl_in_progress : bool;
  c_is_oper : bool;
  c_actor_class : ActorClass
}.

Definition nick_or_star (c : Connection) : string := default "*"%string (c_nick c).

Definition cloak_for_did (did : option string) : string :=
  match did with
  | None => "freeq/guest"
  | Some did =>
      let short := default did (strip_prefix "did:" did) in
      match split_once ":" short with
      | Some (method, id) => "freeq/" +:+ method +:+ "/" +:+ str_take 8 id
      | None => "freeq/did"
      end
  end.

Definition hostmask (c : Connection) : string :=
  default "*"%string (c_nick c) +:+ "!" +:+ default "~u"%string (c_user c) +:+ "@"
  +:+ cloak_for_did (c_authenticated_did c).

Definition set_nick (c : Connection) (nick : string) : Connection :=
  mkConn (Some nick) (c_user c) (c_realname c) (c_authenticated_did c) (c_registered c)
    (c_cap_negotiating c) (c_sasl_in_progress c) (c_is_oper c) (c_actor_class c).

(** [char::is_control]: U+0000 to U+001F, U+007F, and U+0080 to U+009F, which
    UTF-8 writes as C2 80 to C2 9F. *)
Fixpoint has_control (s : string) : bool :=
  match s with
  | EmptyString => false
  | String c r =>
      (byte c <? 32) || (byte c =? 127)
      || ((byte c =? 194) && match r with
                             | String d _ => (128 <=? byte d) && (byte d <=? 159)
                             | EmptyString => false
                             end)
      || has_control r
  end.

Definition forbidden_in_nick (c : ascii) : bool :=
  existsb (Ascii.eqb c) [" "; NUL; CR; LF; ","; "*"; "?"; "!"; "@"; "#"; "&"; ":"]%char.

Definition valid_nick (nick : string) : bool :=
  negb (is_empty nick) && (Z.of_nat (String.length nick) <=? 64)
  && negb (has_control nick) && negb (str_any forbidden_in_nick nick).

Inductive NickEffect :=
  | NReply (code : string) (params : list string)
  | NLine (line : string)                                  (* to the client itself *)
  | NAnnounce (line : string)                              (* to every channel it is in *)
  | NPeers (old new : string)                              (* S2sMessage::NickChange *)
  | NTryRegister.                                          (* try_complete_registration *)

Section Nick.
Context {CF : CaseFold}.

Definition negotiating (c : Connection) : bool := c_cap_negotiating c || c_sasl_in_progress c.

Definition announce_nick (c : Connection) (old_nick : option string) (nick : string) : list NickEffect :=
  if c_registered c then
    let mask := match old_nick with
                | Some old => old +:+ "!~" +:+ default "u"%string (c_user c) +:+ "@"
                              +:+ cloak_for_did (c_authenticated_did c)
                | None => hostmask c
                end in
    let line := ":" +:+ mask +:+ " NICK :" +:+ nick +:+ String CR (String LF "") in
    [NLine line; NAnnounce line]
    ++ match old_nick with Some old => [NPeers old nick] | None => [] end
  else [NTryRegister].

Definition handle_nick (s : Names) (c : Connection) (session_id nick : string)
    : Names * Connection * list NickEffect :=
  if negb (valid_nick nick) then (s, c, [NReply "432" [nick_or_star c; nick; "Erroneous Nickname"%string]])
  else
    let in_use_by_session := get_session (nick_to_session s) nick in
    let in_use := is_some in_use_by_session in
    let in_use_by_self := bool_decide (in_use_by_session = Some session_id) in
    let in_use_by_same_did :=
      in_use_by_self
      || match in_use_by_session with
         | Some sid => match session_dids s !! sid, c_authenticated_did c with
                       | Some other, Some my => String.eqb other my
                       | _, _ => false
                       end
         | None => false
         end in
    let owner_did := nick_owners s !! to_lowercase nick in
    let nick_stolen :=
      if negotiating c then false
      else match owner_did with
           | Some owner => match c_authenticated_did c with
                           | Some my => negb (String.eqb my owner)
                           | None => true
                           end
           | None => false
           end in
    if in_use && negb in_use_by_same_did && negb in_use_by_self then
      if negotiating c && is_some owner_did
      then (s, set_nick c nick, [])
      else (s, c, [NReply "433" [nick_or_star c; nick; "Nickname is already in use"%string]])
    else if in_use && in_use_by_same_did && negb in_use_by_self then (s, set_nick c nick, [])
    else if nick_stolen
    then (s, c, [NReply "433" [nick_or_star c; nick; "Nickname is registered to another identity"%string]])
    else
      let old_nick := c_nick c in
      let nicks := match old_nick with
                   | Some old => (remove_by_nick (nick_to_session s) old).2
                   | None => nick_to_session s
                   end in
      let s' := mkNames (nm_insert nicks nick session_id) (nick_owners s) (did_nicks s) (session_dids s) in
      let c' := set_nick c nick in
      (s', c', announce_nick c' old_nick nick).
End Nick.

(** ** The map is sound *)

Section MapProofs.
Context {CF : CaseFold} {HO : HashOrder}.

(** A nick's primary session holds that nick. *)
Definition primary_sound (m : NickMap) : Prop :=
  forall k s, nick_to_sid m !! k = Some s -> exists n, sid_to_nick m !! s = Some n /\ to_lowercase n = k.

Lemma insert_sound m d s : primary_sound m -> primary_sound (nm_insert m d s).
Proof.
  intros H k s'. unfold nm_insert; simpl. rewrite lookup_insert_Some. intros [[<- <-]|[Hk Hp]].
  - exists d. by rewrite lookup_insert_eq.
  - assert (Hm : nick_to_sid m !! k = Some s' /\ s' <> s).
    { destruct (sid_to_nick m !! s) as [old|] eqn:Ho.
      - destruct (decide (s' = s)) as [->|Hne].
        + exfalso. destruct (String.eqb (to_lowercase old) (to_lowercase d)) eqn:E; simpl in Hp.
          * destruct (H _ _ Hp) as (n & Hn & <-). bool_hyps. congruence.
          * case_bool_decide as Hb; [|destruct (H _ _ Hp) as (n & Hn & <-); congruence].
            apply lookup_delete_Some in Hp as [Hne Hp]. destruct (H _ _ Hp) as (n & Hn & <-). congruence.
        + split; [|done]. case_match; [|done]. by apply lookup_delete_Some in Hp as [_ Hp].
      - split; [done|]. intros ->. destruct (H _ _ Hp) as (n & Hn & _). congruence. }
    destruct Hm as [Hm Hne]. destruct (H _ _ Hm) as (n & Hn & He). exists n.
    by rewrite lookup_insert_ne, lookup_delete_ne by done.
Qed.

Lemma remove_nick_sound m n : primary_sound m -> primary_sound (remove_by_nick m n).2.
Proof.
  intros H k s. simpl. rewrite lookup_delete_Some. intros [Hk Hs]. destruct (H _ _ Hs) as (x & Hx & He).
  exists x. split; [|done]. apply map_lookup_filter_Some. split; [done|]. simpl. congruence.
Qed.

Lemma find_sibling (m : gmap string string) lower :
  match List.find (fun sn : string * string => String.eqb (to_lowercase sn.2) lower) (hash_iter m) with
  | Some (s, n) => m !! s = Some n /\ to_lowercase n = lower
  | None => forall s n, m !! s = Some n -> to_lowercase n <> lower
  end.
Proof.
  destruct (List.find _ _) as [[s n]|] eqn:Hf.
  - apply find_some in Hf as [Hin He]. bool_hyps. split; [|done].
    by rewrite <- list_elem_of_In, (hash_iter_perm m), elem_of_map_to_list in Hin.
  - intros s n Hs He. pose proof (find_none _ _ Hf (s, n)) as HN. simpl in HN.
    rewrite <- list_elem_of_In, (hash_iter_perm m), elem_of_map_to_list in HN. specialize (HN Hs). by bool_hyps.
Qed.

Lemma remove_session_sound m s : primary_sound m -> primary_sound (remove_by_session m s).2.
Proof.
  intros H. unfold remove_by_session. destruct (sid_to_nick m !! s) as [n|] eqn:Hn; [|done].
  pose proof (find_sibling (delete s (sid_to_nick m)) (to_lowercase n)) as HF.
  assert (HK : forall k s', k <> to_lowercase n \/ nick_to_sid m !! to_lowercase n <> Some s ->
             nick_to_sid m !! k = Some s' -> exists x, delete s (sid_to_nick m) !! s' = Some x /\ to_lowercase x = k).
  { intros k s' Hc Hs. destruct (H _ _ Hs) as (x & Hx & He). exists x. rewrite lookup_delete_ne; [done|].
    intros ->. assert (x = n) as -> by congruence. rewrite He in *. destruct Hc; congruence. }
  case_bool_decide as Hb; simpl; [|intros k s' Hs; simpl in Hs; eauto].
  intros k s'. destruct (List.find _ _) as [[o x]|]; simpl.
  - rewrite lookup_insert_Some. intros [[<- <-]|[Hne Hs]]; [destruct HF; eauto|].
    apply lookup_delete_Some in Hs as [_ Hs]. eauto.
  - intros [Hne Hs]%lookup_delete_Some. eauto.
Qed.

(** A session that was dropped holds no nick, and no nick leads to it. *)
Lemma remove_session_nick m s : get_nick (remove_by_session m s).2 s = None.
Proof.
  unfold remove_by_session, get_nick. destruct (sid_to_nick m !! s) as [n|] eqn:Hn; [|done].
  case_match; cbn; by rewrite lookup_delete_eq.
Qed.
Lemma unheld_unreachable m s : primary_sound m -> get_nick m s = None -> forall k, nick_to_sid m !! k <> Some s.
Proof. intros H Hn k Hk. destruct (H _ _ Hk) as (x & Hx & _). unfold get_nick in Hn. congruence. Qed.

Inductive nm_op := NmInsert (display_nick session_id : string) | NmDropNick (nick : string)
  | NmDropSession (session_id : string).

Definition nm_step (m : NickMap) (op : nm_op) : NickMap :=
  match op with
  | NmInsert d s => nm_insert m d s
  | NmDropNick n => (remove_by_nick m n).2
  | NmDropSession s => (remove_by_session m s).2
  end.

Definition nm_run (ops : list nm_op) : NickMap := fold_left nm_step ops no_nicks.

Lemma nm_run_sound ops : primary_sound (nm_run ops).
Proof.
  unfold nm_run. apply fold_left_inv; [|intros k s Hs; simpl in Hs; by rewrite lookup_empty in Hs].
  intros m [d s|n|s] H; [by apply insert_sound|by apply remove_nick_sound|by apply remove_session_sound].
Qed.

(** After any sequence of operations a nick resolves, under any spelling,
    only to a session that holds it; and dropping one session leaves every
    other session's nick in place and reachable, so a second device takes over
    the nick of the one that left. *)
Theorem nick_map_sound (ops : list nm_op) (sid : string) :
  let m := nm_run ops in
  let m' := (remove_by_session m sid).2 in
  (forall nick s, get_session m nick = Some s ->
     exists n, get_nick m s = Some n /\ to_lowercase n = to_lowercase nick) /\
  (forall nick, get_session m' nick <> Some sid) /\
  forall s n, s <> sid -> get_nick m s = Some n ->
    get_nick m' s = Some n /\ (is_Some (get_session m n) -> is_Some (get_session m' n)).
Proof.
  intros m m'. pose proof (nm_run_sound ops) as H. fold m in H.
  pose proof (remove_session_sound m sid H) as H'. fold m' in H'.
  assert (HG : forall s, s <> sid -> sid_to_nick m' !! s = sid_to_nick m !! s).
  { intros s Hs. unfold m', remove_by_session. destruct (sid_to_nick m !! sid) as [x|]; [|done]. cbn.
    case_match; cbn; by rewrite lookup_delete_ne. }
  split_and!; [by intros nick s Hs; apply H| |].
  - intros nick. apply (unheld_unreachable m' sid H'), remove_session_nick.
  - intros s n Hs Hn. unfold get_nick in *. rewrite HG by done. split; [done|].
    intros [p Hp]. unfold get_session, m', remove_by_session in *.
    destruct (sid_to_nick m !! sid) as [x|] eqn:Hx; [|by eauto]. cbn.
    pose proof (find_sibling (delete sid (sid_to_nick m)) (to_lowercase x)) as HF.
    case_bool_decide as Hb; cbn; [|by eauto].
    destruct (decide (to_lowercase n = to_lowercase x)) as [He|He].
    + destruct (List.find _ _) as [[o y]|]; [rewrite He, lookup_insert_eq; by eauto|].
      exfalso. apply (HF s n); [by rewrite lookup_delete_ne|done].
    + destruct (List.find _ _) as [[o y]|]; rewrite ?lookup_insert_ne, lookup_delete_ne by done; by eauto.
Qed.
End MapProofs.

(** ** Ownership of nicks *)

Section IdentityProofs.
Context {CF : CaseFold}.

(** The two directions of the ownership record agree. *)
Definition owners_agree (s : Names) : Prop :=
  forall n d, nick_owners s !! n = Some d <-> did_nicks s !! d = Some n.

Lemma bind_identity_spec s did nick :
  owners_agree s ->
  let '(o, s') := bind_identity s did nick in
  owners_agree s' /\
  (forall n d, d <> did -> nick_owners s' !! n = Some d <-> nick_owners s !! n = Some d) /\
  match o with
  | Bound => nick_owners s' !! to_lowercase nick = Some did
  | ConflictOwnedByOther owner => s' = s /\ nick_owners s !! to_lowercase nick = Some owner /\ owner <> did
  end.
Proof.
  intros A. unfold bind_identity. set (nl := to_lowercase nick).
  assert (HR : forall n, release_previous s did nl !! n
      = if bool_decide (nick_owners s !! n = Some did /\ n <> nl) then None else nick_owners s !! n).
  { intros n. unfold release_previous. destruct (did_nicks s !! did) as [p|] eqn:Hp.
    - assert (Ho : nick_owners s !! p = Some did) by by apply A. rewrite (bool_decide_true (_ = _)) by done.
      rewrite andb_true_r. destruct (String.eqb p nl) eqn:E; bool_hyps; simpl.
      + subst p. rewrite bool_decide_false; [done|]. intros [Hn Hne]. apply A in Hn. congruence.
      + destruct (decide (n = p)) as [->|Hnp].
        * rewrite lookup_delete_eq, bool_decide_true; done.
        * rewrite lookup_delete_ne, bool_decide_false by (done || intros [Hn _]; apply A in Hn; congruence). done.
    - rewrite bool_decide_false; [done|]. intros [Hn _]. apply A in Hn. congruence. }
  assert (HB : (forall d, nick_owners s !! nl = Some d -> d = did) ->
     let s' := with_owners s (<[nl := did]> (release_previous s did nl)) (<[did := nl]> (did_nicks s)) in
     owners_agree s' /\ (forall n d, d <> did -> nick_owners s' !! n = Some d <-> nick_owners s !! n = Some d) /\
     nick_owners s' !! nl = Some did).
  { intros Hf s'.
    assert (HL : forall n d, nick_owners s' !! n = Some d <-> (n = nl /\ d = did) \/ (d <> did /\ nick_owners s !! n = Some d)).
    { intros n d. unfold s'; simpl. rewrite lookup_insert_Some, HR. case_bool_decide as Hb; split.
      - intros [[<- <-]|[_ H]]; [by left|done].
      - intros [[-> ->]|[Hd H]]; [by left|]. destruct Hb; congruence.
      - intros [[<- <-]|[Hn H]]; [by left|right]. split; [|done]. intros ->. apply Hb. done.
      - intros [[-> ->]|[Hd H]]; [by left|]. right. split; [|done]. intros <-. apply Hd, Hf, H. }
    split_and!; [| |unfold s'; simpl; apply lookup_insert_eq].
    - intros n d. rewrite HL. unfold s'; simpl. rewrite lookup_insert_Some. rewrite (A n d). naive_solver.
    - intros n d Hd. rewrite HL. naive_solver. }
  destruct (nick_owners s !! nl) as [e|] eqn:He.
  - destruct (String.eqb e did) eqn:E; bool_hyps; [apply HB; naive_solver|]. split_and!; done.
  - apply HB. naive_solver.
Qed.

Lemma try_fragments_spec did req ident lens : forall s last,
  owners_agree s ->
  let '(o, s') := try_fragments s did req ident last lens in
  owners_agree s' /\
  (forall n d, d <> did -> nick_owners s' !! n = Some d <-> nick_owners s !! n = Some d) /\
  match o with Some r => nick_owners s' !! to_lowercase r = Some did | None => s' = s end.
Proof.
  induction lens as [|l lens IH]; intros s last A; simpl; [by split_and!|].
  destruct (_ =? 0); [by split_and!|]. destruct (String.eqb _ last); [by apply IH|].
  pose proof (bind_identity_spec s did (derived_nick req ident (Z.min l (Z.of_nat (String.length ident)))) A) as HB.
  destruct (bind_identity _ _ _) as [[|o] s']; [done|]. destruct HB as (_ & _ & -> & _). by apply IH.
Qed.

(** Naming an identity never takes a nick from another one, keeps the two
    directions of the ownership record in agreement, and leaves the identity
    owning the nick it is told it has; the one exception is a random guest
    nick that already belongs to somebody else, which changes nothing. *)
Theorem bind_identity_with_fallback_spec (s : Names) (did requested guest : string) :
  owners_agree s ->
  let '(nick, s') := bind_identity_with_fallback s did requested guest in
  owners_agree s' /\
  (forall n d, d <> did -> nick_owners s' !! n = Some d <-> nick_owners s !! n = Some d) /\
  (nick_owners s' !! to_lowercase nick = Some did \/
   nick = guest /\ s' = s /\ exists d, d <> did /\ nick_owners s !! to_lowercase guest = Some d).
Proof.
  intros A. unfold bind_identity_with_fallback.
  pose proof (bind_identity_spec s did (to_lowercase requested) A) as HB.
  destruct (bind_identity s did (to_lowercase requested)) as [[|o] s1].
  - destruct HB as (A1 & HO & HN). split_and!; [done..|]. by left.
  - destruct HB as (_ & _ & -> & _). set (lens := [8; 12; 16; 24; _]).
    pose proof (try_fragments_spec did (to_lowercase requested) (ident_of did) lens s "" A) as HT.
    destruct (try_fragments _ _ _ _ _ _) as [[r|] s2]; [destruct HT as (A2 & HO & HN); split_and!; [done..|by left]|].
    destruct HT as (_ & _ & ->). pose proof (bind_identity_spec s did guest A) as HG.
    destruct (bind_identity s did guest) as [[|o'] s3]; destruct HG as (A3 & HO & HN); split_and!; try done; [by left|].
    destruct HN as (-> & HN & Hne). right. eauto.
Qed.
End IdentityProofs.

(** An identity that asks for a nick another one owns gets the nick with a
    piece of its own identifier. *)
Lemma bind_identity_with_fallback_spec_witness :
  let s := mkNames no_nicks {["ana" := "did:plc:1"]} {["did:plc:1" := "ana"]} ∅ in
  @bind_identity_with_fallback ascii_fold s "did:plc:abc" "Ana" "Guest9" =
    ("ana-abc", mkNames no_nicks {["ana" := "did:plc:1"; "ana-abc" := "did:plc:abc"]}
                  {["did:plc:1" := "ana"; "did:plc:abc" := "ana-abc"]} ∅)%string /\
  @owners_agree (@bind_identity_with_fallback ascii_fold s "did:plc:abc" "Ana" "Guest9").2.
Proof.
  split; [vm_compute; reflexivity|].
  refine (proj1 (@bind_identity_with_fallback_spec ascii_fold
    (mkNames no_nicks {["ana" := "did:plc:1"]} {["did:plc:1" := "ana"]} ∅) "did:plc:abc" "Ana" "Guest9" _)).
  intros n d. simpl. rewrite !lookup_singleton_Some. naive_solver.
Defined.

(** ** What NICK does to the nicks of others *)

Section NickProofs.
Context {CF : CaseFold}.

(** Outside negotiation, NICK takes a nick only when no other identity
    owns it and no session of another identity holds it. *)
Theorem nick_respects_owner (s : Names) (c : Connection) (session_id nick : string) :
  negotiating c = false ->
  let '(s', c', _) := handle_nick s c session_id nick in
  c_nick c' <> c_nick c ->
  valid_nick nick = true /\ c_nick c' = Some nick /\
  (forall sid, get_session (nick_to_session s) nick = Some sid ->
     sid = session_id \/
     exists d, session_dids s !! sid = Some d /\ c_authenticated_did c = Some d) /\
  (s' <> s -> forall owner, nick_owners s !! to_lowercase nick = Some owner ->
     c_authenticated_did c = Some owner).
Proof.
  intros Hn. unfold handle_nick. rewrite Hn. simpl.
  destruct (valid_nick nick); simpl; [|done].
  destruct (get_session (nick_to_session s) nick) as [sid|] eqn:Hs; simpl; [case_bool_decide as Hb|]; simpl.
  2: destruct (session_dids s !! sid) as [o|] eqn:Hd; simpl; [|done];
     destruct (c_authenticated_did c) as [my|] eqn:Hm; simpl; [|done];
     destruct (String.eqb o my) eqn:E; simpl; [|done]; bool_hyps; naive_solver.
  all: destruct (nick_owners s !! to_lowercase nick) as [o|] eqn:Ho; simpl; [|naive_solver];
    destruct (c_authenticated_did c) as [my|] eqn:Hm; simpl; [|done];
    destruct (String.eqb my o) eqn:E; simpl; [|done]; bool_hyps; naive_solver.
Qed.

(** During CAP or SASL negotiation a client can name a nick that somebody
    else holds; it is only remembered. But a second NICK, to a free nick,
    releases the remembered nick as if the client had held it, and the session
    that does hold it can no longer be reached by it, nor has a nick. *)
Theorem nick_during_negotiation_evicts_owner (s : Names) (c : Connection)
    (me sid victim free_nick owner : string) (n : string) :
  negotiating c = true -> c_nick c = None ->
  valid_nick victim = true -> valid_nick free_nick = true ->
  to_lowercase victim <> to_lowercase free_nick ->
  get_session (nick_to_session s) victim = Some sid -> sid <> me ->
  get_nick (nick_to_session s) sid = Some n -> to_lowercase n = to_lowercase victim ->
  session_dids s !! me = None -> c_authenticated_did c = None ->
  nick_owners s !! to_lowercase victim = Some owner ->
  get_session (nick_to_session s) free_nick = None ->
  let '(s1, c1, e1) := handle_nick s c me victim in
  let '(s2, _, _) := handle_nick s1 c1 me free_nick in
  s1 = s /\ e1 = [] /\
  get_session (nick_to_session s2) victim = None /\ get_nick (nick_to_session s2) sid = None.
Proof.
  intros Hneg Hc Hv Hf Hne Hs Hsid Hn Hl Hd Ha Ho Hfree. unfold handle_nick at 1.
  rewrite Hv, Hs, Ho, Hneg, Ha. simpl. rewrite bool_decide_false by congruence. simpl.
  replace (match session_dids s !! sid with Some _ | _ => false end) with false by by destruct (session_dids s !! sid).
  simpl. unfold handle_nick. rewrite Hf, Hfree. simpl.
  replace (negotiating (set_nick c victim)) with true by done. simpl.
  split_and!; try done.
  - unfold get_session, nm_insert; simpl. rewrite lookup_insert_ne by done.
    assert (Hx : forall m : gmap string string, m !! to_lowercase victim = None ->
        forall k, delete k m !! to_lowercase victim = None)
      by (intros m Hm k; apply lookup_delete_None; auto).
    repeat case_match; first [apply lookup_delete_eq | apply Hx, lookup_delete_eq].
  - unfold get_nick, nm_insert; simpl. rewrite lookup_insert_ne, lookup_delete_ne by done.
    apply map_lookup_filter_None. right. intros x Hx. simpl. unfold get_nick in Hn.
    rewrite Hn in Hx. injection Hx as <-. rewrite Hl. auto.
Qed.
End NickProofs.

(** A guest in the middle of CAP negotiation knocks out the session of
    did:plc:1, connected as Ana. *)
Definition ana_online : Names :=
  mkNames (@nm_insert ascii_fold no_nicks "Ana" "s1") {["ana" := "did:plc:1"]} {["did:plc:1" := "ana"]}
    {["s1" := "did:plc:1"]}.
Definition newcomer : Connection := mkConn None None None None false true false false Human.

Definition second_device : Connection :=
  mkConn (Some "bob") (Some "bob") None (Some "did:plc:1") true false false false Human.

Lemma nick_respects_owner_witness :
  let '(s', c', _) := @handle_nick ascii_fold ana_online second_device "s2" "ana" in
  s' = ana_online /\ c_nick c' = Some "ana"%string.
Proof.
  assert (E : @handle_nick ascii_fold ana_online second_device "s2" "ana"
              = (ana_online, set_nick second_device "ana", [])) by (vm_compute; reflexivity).
  pose proof (@nick_respects_owner ascii_fold ana_online second_device "s2" "ana" eq_refl) as H.
  rewrite E in H. destruct H as (_ & Hc & _); [discriminate|]. rewrite E. split; [reflexivity|exact Hc].
Defined.

Lemma nick_during_negotiation_evicts_owner_witness :
  let '(s1, c1, _) := @handle_nick ascii_fold ana_online newcomer "s2" "ANA" in
  let '(s2, _, _) := @handle_nick ascii_fold s1 c1 "s2" "zed" in
  @get_session ascii_fold (nick_to_session ana_online) "ana" = Some "s1"%string /\
  @get_session ascii_fold (nick_to_session s2) "ana" = None.
Proof.
  pose proof (@nick_during_negotiation_evicts_owner ascii_fold ana_online newcomer "s2" "s1" "ANA" "zed"
    "did:plc:1" "Ana" eq_refl eq_refl eq_refl eq_refl ltac:(vm_compute; discriminate) eq_refl
    ltac:(discriminate) eq_refl eq_refl eq_refl eq_refl eq_refl eq_refl) as H.
  destruct (handle_nick ana_online newcomer "s2" "ANA") as [[s1 c1] e1].
  destruct (handle_nick s1 c1 "s2" "zed") as [[s2 c2] e2].
  destruct H as (_ & _ & H & _). split; [vm_compute; reflexivity|exact H].
Defined.

(** A client with two devices that changes its nick on one of them leaves the
    other without a nick. *)
Example second_device_loses_nick :
  let s := mkNames (@nm_insert ascii_fold (@nm_insert ascii_fold no_nicks "Ana" "s1") "Ana" "s2") ∅ ∅ ∅ in
  let c := mkConn (Some "Ana") (Some "ana") None None true false false false Human in
  let '(s', _, _) := @handle_nick ascii_fold s c "s2" "zed" in
  get_nick (nick_to_session s) "s1" = Some "Ana"%string /\ get_nick (nick_to_session s') "s1" = None.
Proof. by vm_compute. Qed.
