(* ===== verification/RoomTables.v ===== *)
(** * The tables of instant rooms

    Models the room tables of [freeq-server/src/migrations/017_rooms.rs] and the
    statements of [freeq-server/src/db.rs] on them. A table is a map from its
    primary or unique key to the row. Times are Unix seconds below [2^63], the
    range in which the code's casts between [u64] and [i64] are the identity. *)

From stdpp Require Import base gmap strings list fin_maps.
From Stdlib Require Import ZArith Lia String.
From S2P Require Import Prelude.
Open Scope Z_scope.

Record RoomRow := mkRoomRow {
  rm_channel : string;
  rm_founder_did : string;
  rm_created_at : Z;
  rm_last_activity : Z;
  rm_expires_at : Z;
  rm_warned_at : option Z
}.

Record InviteRow := mkInviteRow {
  iv_channel : string;
  iv_created_by : string;
  iv_created_at : Z;
  iv_expires_at : Z;
  iv_max_uses : option Z;
  iv_uses : Z;
  iv_revoked_at : option Z
}.

Record MemberRow := mkMemberRow { mr_joined_at : Z; mr_removed_at : option Z }.

Record RoomDb := mkRoomDb {
  rooms : gmap string RoomRow;                       (* by channel *)
  room_invites : gmap string InviteRow;              (* by token hash, UNIQUE *)
  room_members : gmap (string * string) MemberRow    (* by channel and DID *)
}.

Definition empty_room_db : RoomDb := mkRoomDb ∅ ∅ ∅.

Section Tables.
Context {CF : CaseFold} {SO : SqlOrder}.

Definition with_rooms (db : RoomDb) x := mkRoomDb x (room_invites db) (room_members db).
Definition with_invites (db : RoomDb) x := mkRoomDb (rooms db) x (room_members db).
Definition with_members (db : RoomDb) x := mkRoomDb (rooms db) (room_invites db) x.

(** ** Rooms *)

(** [None]: the channel already has a row. *)
Definition create_room (db : RoomDb) (channel founder_did : string) (now expires_at : Z) : option RoomDb :=
  let key := to_lowercase channel in
  match rooms db !! key with
  | Some _ => None
  | None => Some (with_rooms db (<[key := mkRoomRow key founder_did now now expires_at None]> (rooms db)))
  end.

Definition get_room (db : RoomDb) (channel : string) : option RoomRow := rooms db !! to_lowercase channel.

Definition list_rooms (db : RoomDb) : list RoomRow :=
  order_by (fun x y => rm_created_at x <=? rm_created_at y) (snd <$> map_to_list (rooms db)).

(** The right-hand sides of the UPDATE read the row as it was. *)
Definition touched (at_ expires_at : Z) (r : RoomRow) : RoomRow :=
  mkRoomRow (rm_channel r) (rm_founder_did r) (rm_created_at r)
    (Z.max (rm_last_activity r) at_) (Z.max (rm_expires_at r) expires_at)
    (if rm_expires_at r <? expires_at then None else rm_warned_at r).
Definition touch_room (db : RoomDb) (channel : string) (at_ expires_at : Z) : RoomDb :=
  with_rooms db (alter (touched at_ expires_at) (to_lowercase channel) (rooms db)).

Definition warned (now : Z) (r : RoomRow) : RoomRow :=
  mkRoomRow (rm_channel r) (rm_founder_did r) (rm_created_at r) (rm_last_activity r) (rm_expires_at r) (Some now).
Definition set_room_warned (db : RoomDb) (channel : string) (now : Z) : RoomDb :=
  with_rooms db (alter (warned now) (to_lowercase channel) (rooms db)).

Definition db_delete_room (db : RoomDb) (channel : string) : RoomDb :=
  let key := to_lowercase channel in
  mkRoomDb (delete key (rooms db))
    (filter (fun r => iv_channel r.2 <> key) (room_invites db))
    (filter (fun r => r.1.1 <> key) (room_members db)).

Definition rooms_founded_since (db : RoomDb) (did : string) (since : Z) : Z :=
  Z.of_nat (List.length (List.filter (fun r => String.eqb (rm_founder_did r.2) did && (since <=? rm_created_at r.2))
    (map_to_list (rooms db)))).

(** ** Invites *)

(** [None]: an invite with this hash exists. *)
Definition add_room_invite (db : RoomDb) (channel token_hash created_by : string) (now expires_at : Z)
    (max_uses : option Z) : option RoomDb :=
  match room_invites db !! token_hash with
  | Some _ => None
  | None => Some (with_invites db (<[token_hash :=
      mkInviteRow (to_lowercase channel) created_by now expires_at max_uses 0 None]> (room_invites db)))
  end.

Definition usable (r : InviteRow) (channel : string) (now : Z) : bool :=
  String.eqb (iv_channel r) (to_lowercase channel)
  && negb (is_some (iv_revoked_at r))
  && (now <? iv_expires_at r)
  && match iv_max_uses r with None => true | Some m => iv_uses r <? m end.

Definition used (r : InviteRow) : InviteRow :=
  mkInviteRow (iv_channel r) (iv_created_by r) (iv_created_at r) (iv_expires_at r) (iv_max_uses r)
    (iv_uses r + 1) (iv_revoked_at r).

(** The hash is unique, so the UPDATE changes one row or none. *)
Definition consume_room_invite (db : RoomDb) (channel token_hash : string) (now : Z) : bool * RoomDb :=
  match room_invites db !! token_hash with
  | Some r => if usable r channel now
              then (true, with_invites db (<[token_hash := used r]> (room_invites db)))
              else (false, db)
  | None => (false, db)
  end.

Definition live_in (key : string) (r : InviteRow) : bool :=
  String.eqb (iv_channel r) key && negb (is_some (iv_revoked_at r)).
Definition revoked (key : string) (now : Z) (r : InviteRow) : InviteRow :=
  if live_in key r then
    mkInviteRow (iv_channel r) (iv_created_by r) (iv_created_at r) (iv_expires_at r) (iv_max_uses r)
      (iv_uses r) (Some now)
  else r.
Definition revoke_room_invites (db : RoomDb) (channel : string) (now : Z) : Z * RoomDb :=
  let key := to_lowercase channel in
  (Z.of_nat (List.length (List.filter (fun r => live_in key r.2) (map_to_list (room_invites db)))),
   with_invites db (revoked key now <$> room_invites db)).

(** ** The roster *)

Definition upsert_room_member (db : RoomDb) (channel did : string) (now : Z) : RoomDb :=
  let key := (to_lowercase channel, did) in
  with_members db (<[key :=
    match room_members db !! key with
    | Some r => mkMemberRow (match mr_removed_at r with None => mr_joined_at r | Some _ => now end) None
    | None => mkMemberRow now None
    end]> (room_members db)).

Definition active (r : MemberRow) : bool := negb (is_some (mr_removed_at r)).
Definition is_room_member (db : RoomDb) (channel did : string) : bool :=
  match room_members db !! (to_lowercase channel, did) with Some r => active r | None => false end.

Definition remove_room_member (db : RoomDb) (channel did : string) (now : Z) : bool * RoomDb :=
  let key := (to_lowercase channel, did) in
  match room_members db !! key with
  | Some r => if active r
              then (true, with_members db (<[key := mkMemberRow (mr_joined_at r) (Some now)]> (room_members db)))
              else (false, db)
  | None => (false, db)
  end.

Definition room_member_count (db : RoomDb) (channel : string) : Z :=
  Z.of_nat (List.length (List.filter (fun r => String.eqb r.1.1 (to_lowercase channel) && active r.2)
    (map_to_list (room_members db)))).

(** ** What an invite admits *)

Inductive invite_op :=
  | IAdd (channel token_hash created_by : string) (now expires_at : Z) (max_uses : option Z)
  | IConsume (channel token_hash : string) (now : Z)
  | IRevoke (channel : string) (now : Z).

(** A run and the channel and time of each admission by the token. *)
Definition invite_step (token : string) (st : RoomDb * list (string * Z)) (op : invite_op)
    : RoomDb * list (string * Z) :=
  let '(db, wins) := st in
  match op with
  | IAdd c h by_ now exp m => (default db (add_room_invite db c h by_ now exp m), wins)
  | IConsume c h now =>
      let '(won, db') := consume_room_invite db c h now in
      (db', if won && String.eqb h token then wins ++ [(to_lowercase c, now)] else wins)
  | IRevoke c now => ((revoke_room_invites db c now).2, wins)
  end.
Definition invite_run (token : string) (db : RoomDb) (ops : list invite_op) : RoomDb * list (string * Z) :=
  fold_left (invite_step token) ops (db, []).

(** What the row of a token records of its admissions. *)
Definition accounted (token c : string) (expires_at : Z) (max_uses : option Z)
    (st : RoomDb * list (string * Z)) : Prop :=
  exists r, room_invites st.1 !! token = Some r /\
    iv_channel r = c /\ iv_expires_at r = expires_at /\ iv_max_uses r = max_uses /\
    iv_uses r = Z.of_nat (List.length st.2) /\
    Forall (fun w => w.1 = c /\ w.2 < expires_at) st.2 /\
    forall m, max_uses = Some m -> 0 <= m -> Z.of_nat (List.length st.2) <= m.

Lemma invite_step_accounted token c e m st op :
  accounted token c e m st -> accounted token c e m (invite_step token st op).
Proof.
  destruct st as [db wins], op as [c' h by_ now e' m'|c' h now|c' now]; intros (r & Hr & Hc & He & Hm & Hu & HF & Hb); simpl in *.
  - unfold add_room_invite. destruct (room_invites db !! h) eqn:Hh; simpl; [by exists r|].
    exists r. simpl. rewrite lookup_insert_ne by congruence. done.
  - unfold consume_room_invite. destruct (room_invites db !! h) as [q|] eqn:Hh; [|by exists r].
    destruct (usable q c' now) eqn:Hus; [|by exists r]. simpl.
    destruct (String.eqb h token) eqn:Eh; bool_hyps; [subst h|exists r; simpl; by rewrite lookup_insert_ne].
    assert (q = r) as -> by congruence. unfold usable in Hus. bool_hyps.
    exists (used r). simpl. rewrite lookup_insert_eq, length_app. simpl. split_and!; try done; [lia| |].
    + apply Forall_app. split; [done|]. repeat constructor; simpl; [congruence|lia].
    + intros n -> Hn. rewrite Hm in *. bool_hyps. lia.
  - exists (revoked (to_lowercase c') now r). simpl. rewrite lookup_fmap, Hr. split; [done|].
    unfold revoked. destruct (live_in _ r); by split_and!.
Qed.

Lemma invite_run_dead token db ops r :
  room_invites db !! token = Some r -> iv_revoked_at r <> None -> (invite_run token db ops).2 = [].
Proof.
  intros Hr Hd. set (P := fun st : RoomDb * list (string * Z) =>
    st.2 = [] /\ exists r, room_invites st.1 !! token = Some r /\ iv_revoked_at r <> None).
  cut (P (invite_run token db ops)); [by intros []|]. unfold invite_run.
  apply fold_left_inv; [|split; eauto].
  clear r Hr Hd. intros [db' wins] op [Hw (r & Hr & Hd)]. simpl in *. subst wins.
  destruct op as [c' h by_ now e' m'|c' h now|c' now]; simpl.
  - split; [done|]. unfold add_room_invite. destruct (room_invites db' !! h) eqn:Hh; simpl; [eauto|].
    exists r. simpl. by rewrite lookup_insert_ne by congruence.
  - unfold consume_room_invite. destruct (room_invites db' !! h) as [q|] eqn:Hh; [|by split; eauto].
    destruct (usable q c' now) eqn:Hus; [|by split; eauto]. simpl.
    destruct (String.eqb h token) eqn:Eh; bool_hyps.
    + subst h. assert (q = r) as -> by congruence. unfold usable in Hus. destruct (iv_revoked_at r); [|done].
      by rewrite andb_false_r in Hus.
    + split; [done|]. exists r. simpl. by rewrite lookup_insert_ne.
  - split; [done|]. exists (revoked (to_lowercase c') now r). simpl. rewrite lookup_fmap, Hr. split; [done|].
    unfold revoked. by destruct (live_in _ r).
Qed.

(** An invite admits at most as many joins as its cap, each before it
    expires and to the room it was minted for; and once the room's invites are
    revoked it admits none, whatever else happens. *)
Theorem invite_admissions_bounded (db db1 : RoomDb) (c token by_ : string) (now expires_at : Z)
    (max_uses : option Z) (ops later : list invite_op) (t : Z) :
  add_room_invite db c token by_ now expires_at max_uses = Some db1 ->
  let '(db2, wins) := invite_run token db1 ops in
  Forall (fun w => w.1 = to_lowercase c /\ w.2 < expires_at) wins /\
  (forall m, max_uses = Some m -> 0 <= m -> Z.of_nat (List.length wins) <= m) /\
  (invite_run token (revoke_room_invites db2 c t).2 later).2 = [].
Proof.
  intros Ha. assert (HA : accounted token (to_lowercase c) expires_at max_uses (invite_run token db1 ops)).
  { unfold invite_run. apply fold_left_inv; [intros; by apply invite_step_accounted|].
    unfold add_room_invite in Ha. destruct (room_invites db !! token); [done|]. injection Ha as <-.
    eexists. simpl. rewrite lookup_insert_eq. split_and!; done. }
  destruct (invite_run token db1 ops) as [db2 wins]. destruct HA as (r & Hr & Hc & _ & _ & _ & HF & Hb).
  split_and!; try done. simpl in *. eapply invite_run_dead.
  - simpl. by rewrite lookup_fmap, Hr.
  - unfold revoked, live_in. rewrite Hc, String.eqb_refl. destruct (iv_revoked_at r) eqn:E; simpl; [by rewrite E|done].
Qed.

(** A late flush of an old timestamp never shortens a room's life, whatever
    the order of the flushes. *)
Lemma touch_room_monotone db c at_ e r :
  get_room db c = Some r ->
  exists r', get_room (touch_room db c at_ e) c = Some r' /\
    rm_expires_at r <= rm_expires_at r' /\ rm_last_activity r <= rm_last_activity r' /\
    e <= rm_expires_at r' /\ (rm_warned_at r' = None \/ rm_expires_at r' = rm_expires_at r).
Proof.
  unfold get_room, touch_room; simpl. intros Hr. rewrite lookup_alter_eq, Hr. eexists; split; [done|]. simpl.
  split_and!; try lia. destruct (Z.ltb_spec (rm_expires_at r) e); [by left|right; lia].
Qed.
End Tables.

(** Three joins race for an invite with two uses. *)
Lemma invite_admissions_bounded_witness :
  let ops := [IConsume "#R" "h" 5; IConsume "#r" "h" 6; IConsume "#r" "h" 7] in
  exists db1, @add_room_invite ascii_fold empty_room_db "#r" "h" "did:a" 1 100 (Some 2) = Some db1 /\
    (@invite_run ascii_fold "h" db1 ops).2 = [("#r"%string, 5); ("#r"%string, 6)] /\
    Z.of_nat (List.length (@invite_run ascii_fold "h" db1 ops).2) <= 2.
Proof.
  eexists. split; [vm_compute; reflexivity|]. split; [vm_compute; reflexivity|].
  pose proof (@invite_admissions_bounded ascii_fold empty_room_db _ "#r" "h" "did:a" 1 100 (Some 2)
    [IConsume "#R" "h" 5; IConsume "#r" "h" 6; IConsume "#r" "h" 7] [] 0 eq_refl) as H.
  destruct (invite_run _ _ _) as [db2 wins]. destruct H as (_ & H & _). apply H; [reflexivity|lia].
Defined.
