(* ===== verification/S2sMessage.v ===== *)
(** * Messages between servers

    The message type of [freeq-server/src/s2s.rs]. The fields [event_id] and
    [origin] that most variants share are those of [S2sEvent]; the rest is the
    body. A body a handler broadcasts is given its id and origin by the link. *)

From stdpp Require Import base gmap strings list.
From Stdlib Require Import ZArith String Ascii.
From S2P Require Import Prelude.
Open Scope Z_scope.

Record MultilineLine := mkMLine { ml_body : string; ml_concat : bool }.

Record ReplayedEvent := mkReplayed {
  re_event_id : string;
  re_canonical : string;
  re_signature : option string;
  re_kind : string;
  re_venue : string;
  re_actor_did : option string;
  re_subject : option string;
  re_emoji : option string;
  re_origin : string;
  re_timestamp : Z
}.

Record SyncNick := mkSyncNick {
  sn_nick : string;
  sn_is_op : bool;
  sn_did : option string;
  sn_actor_class : option string
}.

Record ChannelInfo := mkChannelInfo {
  ci_name : string;
  ci_topic : option string;
  ci_nicks : list string;
  ci_nick_info : list SyncNick;
  ci_founder_did : option string;
  ci_did_ops : list string;
  ci_created_at : Z;
  ci_topic_locked : bool;
  ci_invite_only : bool;
  ci_no_ext_msg : bool;
  ci_moderated : bool;
  ci_key : option string;
  ci_bans : list string;
  ci_invites : list string;
  ci_invite_exceptions : list string
}.

Inductive S2sMessage :=
  | Hello (peer_id server_name : string) (protocol_version : Z) (trust_level : option string)
      (capabilities : list string)
  | HelloAck (peer_id : string) (accepted : bool) (trust_level : option string)
  | Signed (payload signature signer : string)
  | KeyRotation (old_id new_id : string) (timestamp : Z) (signature : string)
  | Privmsg (from target text : string) (msgid sig account recipient_did replaces_msgid : option string)
      (tags : gmap string string) (multiline_lines : option (list MultilineLine))
  | Pin (channel msgid pinned_by : string) (pinned_by_did : option string) (adding : bool)
  | Tagmsg (from target : string) (tags : gmap string string) (account : option string)
  | Join (nick channel : string) (did handle : option string) (is_op : bool) (actor_class : option string)
  | ChannelCreated (channel : string) (founder_did : option string) (did_ops : list string) (created_at : Z)
  | Part (nick channel : string)
  | Quit (nick reason : string)
  | NickChange (old new : string)
  | Topic (channel topic set_by : string) (set_by_did : option string)
  | Mode (channel mode : string) (arg : option string) (set_by : string) (set_by_did : option string)
  | ActRoute (act_id act_event_id : string) (tags : gmap string string) (target from : string)
      (account : option string)
  | SyncRequest
  | CatchupRequest (peer_id : string) (since_ts limit : Z)
  | CatchupEvents (events : list ReplayedEvent) (more : bool)
  | SyncResponse (server_id : string) (channels : list ChannelInfo)
  | CrdtSync (data : string)
  | Kick (nick channel by_ : string) (by_did : option string) (reason : string)
  | Ban (channel mask set_by : string) (set_by_did : option string) (adding : bool)
  | InviteException (channel mask set_by : string) (set_by_did : option string) (adding : bool)
  | PolicySync (channel : string) (policy_json authority_set_json : option string)
  | Invite (channel invitee invited_by : string) (invited_by_did : option string)
  | AvSessionCreated (session_id channel created_by_did created_by_nick : string)
      (title iroh_ticket : option string)
  | AvSessionJoined (session_id did nick : string)
  | AvSessionLeft (session_id did : string)
  | AvSessionEnded (session_id : string) (ended_by : option string)
  | PeerDisconnected (peer_id : string).

(** The channel a message is about, if it is about one. *)
Definition channel_name (m : S2sMessage) : option string :=
  match m with
  | Pin c _ _ _ _ | Join _ c _ _ _ _ | ChannelCreated c _ _ _ | Part _ c | Topic c _ _ _
  | Mode c _ _ _ _ | Kick _ c _ _ _ | Ban c _ _ _ _ | InviteException c _ _ _ _
  | PolicySync c _ _ | Invite c _ _ _ | AvSessionCreated _ c _ _ _ _ => Some c
  | Privmsg _ target _ _ _ _ _ _ _ _ | Tagmsg _ target _ _ =>
      if starts_with_char "#"%char target then Some target else None
  | _ => None
  end.
