(* ===== verification/Channel.v ===== *)
(** * Channels

    The state of a channel and of the part of the server the channel commands
    work on, from [freeq-server/src/server.rs], with the mask matching, the
    broadcast helpers and the nick resolution of
    [freeq-server/src/connection/helpers.rs]. *)

From stdpp Require Import base gmap strings list fin_maps.
From Stdlib Require Import ZArith Lia String Ascii.
From S2P Require Import Prelude NickMap RoomTables S2sMessage.
Open Scope string_scope.
Open Scope list_scope.
Open Scope Z_scope.

(** ** Data *)

Record RemoteMember := mkRemote {
  rm_origin : string;
  rm_did : option string;
  rm_handle : option string;
  rm_is_op : bool;
  rm_actor_class : option string
}.

Record BanEntry := mkBan { mask : string; set_by : string; set_at : Z }.
(** The list of +I entries has a type of its own with the same fields. *)
Definition InviteExceptionEntry : Type := BanEntry.

Record TopicInfo := mkTopic { tp_text : string; tp_set_by : string; tp_set_at : Z }.
Record PinnedMessage := mkPin { pin_msgid : string; pinned_by : string; pinned_at : Z }.

(** The message history is left out: no operation here changes it. *)
Record ChannelState := mkChannel {
  members : gset string;
  remote_members : gmap string RemoteMember;
  ops : gset string;
  halfops : gset string;
  voiced : gset string;
  founder_did : option string;
  did_ops : gset string;
  created_at : Z;
  bans : list BanEntry;
  invite_only : bool;
  invites : gset string;
  invite_exceptions : list InviteExceptionEntry;
  topic : option TopicInfo;
  topic_locked : bool;
  no_ext_msg : bool;
  moderated : bool;
  encrypted_only : bool;
  key : option string;
  pins : list PinnedMessage;
  media_space_key : option string;
  room : bool
}.

Definition default_channel : ChannelState :=
  mkChannel ∅ ∅ ∅ ∅ ∅ None ∅ 0 [] false ∅ [] None false false false false None [] None false.

(** ** Field updates *)

Definition set_members x (c : ChannelState) := mkChannel x (remote_members c) (ops c) (halfops c) (voiced c)
  (founder_did c) (did_ops c) (created_at c) (bans c) (invite_only c) (invites c) (invite_exceptions c) (topic c)
  (topic_locked c) (no_ext_msg c) (moderated c) (encrypted_only c) (key c) (pins c) (media_space_key c) (room c).
Definition set_remote x (c : ChannelState) := mkChannel (members c) x (ops c) (halfops c) (voiced c)
  (founder_did c) (did_ops c) (created_at c) (bans c) (invite_only c) (invites c) (invite_exceptions c) (topic c)
  (topic_locked c) (no_ext_msg c) (moderated c) (encrypted_only c) (key c) (pins c) (media_space_key c) (room c).
Definition set_ops x (c : ChannelState) := mkChannel (members c) (remote_members c) x (halfops c) (voiced c)
  (founder_did c) (did_ops c) (created_at c) (bans c) (invite_only c) (invites c) (invite_exceptions c) (topic c)
  (topic_locked c) (no_ext_msg c) (moderated c) (encrypted_only c) (key c) (pins c) (media_space_key c) (room c).
Definition set_halfops x (c : ChannelState) := mkChannel (members c) (remote_members c) (ops c) x (voiced c)
  (founder_did c) (did_ops c) (created_at c) (bans c) (invite_only c) (invites c) (invite_exceptions c) (topic c)
  (topic_locked c) (no_ext_msg c) (moderated c) (encrypted_only c) (key c) (pins c) (media_space_key c) (room c).
Definition set_voiced x (c : ChannelState) := mkChannel (members c) (remote_members c) (ops c) (halfops c) x
  (founder_did c) (did_ops c) (created_at c) (bans c) (invite_only c) (invites c) (invite_exceptions c) (topic c)
  (topic_locked c) (no_ext_msg c) (moderated c) (encrypted_only c) (key c) (pins c) (media_space_key c) (room c).
Definition set_founder x (c : ChannelState) := mkChannel (members c) (remote_members c) (ops c) (halfops c)
  (voiced c) x (did_ops c) (created_at c) (bans c) (invite_only c) (invites c) (invite_exceptions c) (topic c)
  (topic_locked c) (no_ext_msg c) (moderated c) (encrypted_only c) (key c) (pins c) (media_space_key c) (room c).
Definition set_did_ops x (c : ChannelState) := mkChannel (members c) (remote_members c) (ops c) (halfops c)
  (voiced c) (founder_did c) x (created_at c) (bans c) (invite_only c) (invites c) (invite_exceptions c) (topic c)
  (topic_locked c) (no_ext_msg c) (moderated c) (encrypted_only c) (key c) (pins c) (media_space_key c) (room c).
Definition set_created x (c : ChannelState) := mkChannel (members c) (remote_members c) (ops c) (halfops c)
  (voiced c) (founder_did c) (did_ops c) x (bans c) (invite_only c) (invites c) (invite_exceptions c) (topic c)
  (topic_locked c) (no_ext_msg c) (moderated c) (encrypted_only c) (key c) (pins c) (media_space_key c) (room c).
Definition set_bans x (c : ChannelState) := mkChannel (members c) (remote_members c) (ops c) (halfops c)
  (voiced c) (founder_did c) (did_ops c) (created_at c) x (invite_only c) (invites c) (invite_exceptions c)
  (topic c) (topic_locked c) (no_ext_msg c) (moderated c) (encrypted_only c) (key c) (pins c) (media_space_key c)
  (room c).
Definition set_invite_only x (c : ChannelState) := mkChannel (members c) (remote_members c) (ops c) (halfops c)
  (voiced c) (founder_did c) (did_ops c) (created_at c) (bans c) x (invites c) (invite_exceptions c)
  (topic c) (topic_locked c) (no_ext_msg c) (moderated c) (encrypted_only c) (key c) (pins c) (media_space_key c)
  (room c).
Definition set_invites x (c : ChannelState) := mkChannel (members c) (remote_members c) (ops c) (halfops c)
  (voiced c) (founder_did c) (did_ops c) (created_at c) (bans c) (invite_only c) x (invite_exceptions c)
  (topic c) (topic_locked c) (no_ext_msg c) (moderated c) (encrypted_only c) (key c) (pins c) (media_space_key c)
  (room c).
Definition set_exceptions x (c : ChannelState) := mkChannel (members c) (remote_members c) (ops c) (halfops c)
  (voiced c) (founder_did c) (did_ops c) (created_at c) (bans c) (invite_only c) (invites c) x
  (topic c) (topic_locked c) (no_ext_msg c) (moderated c) (encrypted_only c) (key c) (pins c) (media_space_key c)
  (room c).
Definition set_topic x (c : ChannelState) := mkChannel (members c) (remote_members c) (ops c) (halfops c)
  (voiced c) (founder_did c) (did_ops c) (created_at c) (bans c) (invite_only c) (invites c) (invite_exceptions c)
  x (topic_locked c) (no_ext_msg c) (moderated c) (encrypted_only c) (key c) (pins c) (media_space_key c) (room c).
Definition set_topic_locked x (c : ChannelState) := mkChannel (members c) (remote_members c) (ops c) (halfops c)
  (voiced c) (founder_did c) (did_ops c) (created_at c) (bans c) (invite_only c) (invites c) (invite_exceptions c)
  (topic c) x (no_ext_msg c) (moderated c) (encrypted_only c) (key c) (pins c) (media_space_key c) (room c).
Definition set_no_ext_msg x (c : ChannelState) := mkChannel (members c) (remote_members c) (ops c) (halfops c)
  (voiced c) (founder_did c) (did_ops c) (created_at c) (bans c) (invite_only c) (invites c) (invite_exceptions c)
  (topic c) (topic_locked c) x (moderated c) (encrypted_only c) (key c) (pins c) (media_space_key c) (room c).
Definition set_moderated x (c : ChannelState) := mkChannel (members c) (remote_members c) (ops c) (halfops c)
  (voiced c) (founder_did c) (did_ops c) (created_at c) (bans c) (invite_only c) (invites c) (invite_exceptions c)
  (topic c) (topic_locked c) (no_ext_msg c) x (encrypted_only c) (key c) (pins c) (media_space_key c) (room c).
Definition set_encrypted x (c : ChannelState) := mkChannel (members c) (remote_members c) (ops c) (halfops c)
  (voiced c) (founder_did c) (did_ops c) (created_at c) (bans c) (invite_only c) (invites c) (invite_exceptions c)
  (topic c) (topic_locked c) (no_ext_msg c) (moderated c) x (key c) (pins c) (media_space_key c) (room c).
Definition set_key x (c : ChannelState) := mkChannel (members c) (remote_members c) (ops c) (halfops c)
  (voiced c) (founder_did c) (did_ops c) (created_at c) (bans c) (invite_only c) (invites c) (invite_exceptions c)
  (topic c) (topic_locked c) (no_ext_msg c) (moderated c) (encrypted_only c) x (pins c) (media_space_key c) (room c).

Definition set_pins x (c : ChannelState) := mkChannel (members c) (remote_members c) (ops c) (halfops c)
  (voiced c) (founder_did c) (did_ops c) (created_at c) (bans c) (invite_only c) (invites c) (invite_exceptions c)
  (topic c) (topic_locked c) (no_ext_msg c) (moderated c) (encrypted_only c) (key c) x (media_space_key c) (room c).

(** ** Masks *)

Section Masks.
Context {CF : CaseFold} {HO : HashOrder}.

Fixpoint wildcard_match_inner (pattern : string) : string -> bool :=
  match pattern with
  | EmptyString => is_empty
  | String p rest =>
      if Ascii.eqb p "*"%char then
        fix star (text : string) : bool :=
          wildcard_match_inner rest text
          || match text with String _ text' => star text' | EmptyString => false end
      else fun text =>
        match text with
        | String t text' => (Ascii.eqb p "?"%char || Ascii.eqb p t) && wildcard_match_inner rest text'
        | EmptyString => false
        end
  end.

Definition wildcard_match (pattern text : string) : bool :=
  wildcard_match_inner (to_lowercase pattern) (to_lowercase text).

Definition ban_matches (b : BanEntry) (hostmask : string) (did : option string) : bool :=
  if starts_with "did:" (mask b) then bool_decide (did = Some (mask b))
  else wildcard_match (mask b) hostmask.

Definition is_banned (ch : ChannelState) (hostmask : string) (did : option string) : bool :=
  existsb (fun b => ban_matches b hostmask did) (bans ch).

Definition is_invite_excepted (ch : ChannelState) (hostmask : string) (did : option string) : bool :=
  existsb (fun e => ban_matches e hostmask did) (invite_exceptions ch).

Definition invite_nick_token (nick : string) : string := "nick:" +:+ to_lowercase nick.

Definition is_mode_restricted (ch : ChannelState) : bool :=
  invite_only ch || is_some (key ch) || encrypted_only ch.

(** ** Remote members *)

Definition same_nick (lower : string) (kv : string * RemoteMember) : bool :=
  String.eqb (to_lowercase kv.1) lower.

Definition remote_entry (ch : ChannelState) (nick : string) : option (string * RemoteMember) :=
  List.find (same_nick (to_lowercase nick)) (hash_iter (remote_members ch)).
Definition remote_member (ch : ChannelState) (nick : string) : option RemoteMember :=
  snd <$> remote_entry ch nick.
Definition has_remote_member (ch : ChannelState) (nick : string) : bool :=
  existsb (same_nick (to_lowercase nick)) (hash_iter (remote_members ch)).
(** The update a caller makes through [remote_member_mut]. *)
Definition modify_remote_member (f : RemoteMember -> RemoteMember) (nick : string) (ch : ChannelState)
    : ChannelState :=
  match remote_entry ch nick with
  | Some (k, rm) => set_remote (<[k := f rm]> (remote_members ch)) ch
  | None => ch
  end.
Definition remove_remote_member (nick : string) (ch : ChannelState) : ChannelState :=
  match remote_entry ch nick with
  | Some (k, _) => set_remote (delete k (remote_members ch)) ch
  | None => ch
  end.

Definition has_authority (ch : ChannelState) (did : string) : bool :=
  bool_decide (founder_did ch = Some did) || bool_decide (did ∈ did_ops ch).
Definition is_room_authority : ChannelState -> string -> bool := has_authority.
Definition is_authority (ch : ChannelState) (did : option string) : bool :=
  match did with Some d => has_authority ch d | None => false end.
End Masks.

(** ** The server *)

(** What a delegation certificate says: a projection of its JSON. *)
Record Declaration := mkDeclaration {
  dc_verified : option bool;
  dc_bot_did : option string;
  dc_creator_did : option string
}.

Record Server := mkServer {
  channels : gmap string ChannelState;
  names : Names;
  did_sessions : gmap string (gset string);
  connections : gset string;
  server_opers : gset string;
  session_handles : gmap string string;
  session_actor_class : gmap string ActorClass;
  cap_extended_join : gset string;
  cap_message_tags : gset string;
  cap_multi_prefix : gset string;
  provenance_declarations : gmap string Declaration;
  room_names : gset string;
  room_activity : gmap string Z;
  room_db : option RoomDb;
  s2s_manager : bool;                (* a manager exists *)
  server_name : string;
  room_idle_secs : Z;
  room_unclaimed_secs : Z
}.

Definition set_channels x (s : Server) := mkServer x (names s) (did_sessions s) (connections s) (server_opers s)
  (session_handles s) (session_actor_class s) (cap_extended_join s) (cap_message_tags s) (cap_multi_prefix s)
  (provenance_declarations s) (room_names s) (room_activity s) (room_db s) (s2s_manager s) (server_name s)
  (room_idle_secs s) (room_unclaimed_secs s).
Definition set_room_names x (s : Server) := mkServer (channels s) (names s) (did_sessions s) (connections s)
  (server_opers s) (session_handles s) (session_actor_class s) (cap_extended_join s) (cap_message_tags s)
  (cap_multi_prefix s) (provenance_declarations s) x (room_activity s) (room_db s) (s2s_manager s) (server_name s)
  (room_idle_secs s) (room_unclaimed_secs s).
Definition set_room_activity x (s : Server) := mkServer (channels s) (names s) (did_sessions s) (connections s)
  (server_opers s) (session_handles s) (session_actor_class s) (cap_extended_join s) (cap_message_tags s)
  (cap_multi_prefix s) (provenance_declarations s) (room_names s) x (room_db s) (s2s_manager s) (server_name s)
  (room_idle_secs s) (room_unclaimed_secs s).
Definition set_room_db x (s : Server) := mkServer (channels s) (names s) (did_sessions s) (connections s)
  (server_opers s) (session_handles s) (session_actor_class s) (cap_extended_join s) (cap_message_tags s)
  (cap_multi_prefix s) (provenance_declarations s) (room_names s) (room_activity s) x (s2s_manager s) (server_name s)
  (room_idle_secs s) (room_unclaimed_secs s).

(** [channels.get_mut(name)]: nothing happens when there is no such channel. *)
Definition update_channel (name : string) (f : ChannelState -> ChannelState) (s : Server) : Server :=
  set_channels (alter f name (channels s)) s.

(** [with_db] on the room tables. *)
Definition update_room_db (f : RoomDb -> RoomDb) (s : Server) : Server :=
  set_room_db (f <$> room_db s) s.

Definition nicks (s : Server) : NickMap := nick_to_session (names s).
Definition did_of_session (s : Server) (session_id : string) : option string :=
  session_dids (names s) !! session_id.

(** ** Effects *)

Inductive DbOp :=
  | SaveChannel (channel : string) (ch : ChannelState)
  | AddBan (channel : string) (b : BanEntry)
  | RemoveBan (channel mask : string)
  | AddInviteException (channel : string) (e : InviteExceptionEntry)
  | RemoveInviteException (channel mask : string)
  | AddInvite (channel token inviter : string)
  | RemoveInvite (channel token : string)
  | ClearInvites (channel : string)
  | AddUserChannel (did channel : string)
  | RemoveUserChannel (did channel : string)
  | StorePin (channel msgid by_ : string) (now : Z)
  | RemovePin (channel msgid : string)
  | DeleteChannelRows (channel : string).    (* channel, messages, keys, pins, auto-join rows, events *)

Inductive CrdtOp :=
  | CrdtSetFounder (channel did : string)
  | CrdtGrantOp (channel did : string) (granter : option string)
  | CrdtRevokeOp (channel did : string)
  | CrdtSetTopic (channel text set_by : string) (did : option string)
  | CrdtBroadcastSync.

Inductive Effect :=
  | Reply (session code : string) (params : list string)    (* a numeric of the server's own *)
  | Line (session line : string)                            (* a line to one session *)
  | Peers (m : S2sMessage)                                  (* queued for every peer *)
  | Db (op : DbOp)
  | Crdt (op : CrdtOp)
  | ReplayHistory (session channel : string)
  | AvNotice (session channel : string).                    (* a call is going on *)

Definition CRLF : string := String CR (String LF "").

Section Helpers.
Context {CF : CaseFold} {HO : HashOrder}.

Definition set_iter (x : gset string) : list string := fst <$> hash_iter (gset_to_gmap tt x).

(** [try_send] to those that are connected. *)
Definition send_to (s : Server) (sessions : list string) (line : string) : list Effect :=
  map (fun sid => Line sid line) (List.filter (fun sid => bool_decide (sid ∈ connections s)) sessions).

Definition broadcast_to_channel (s : Server) (channel line : string) : list Effect :=
  match channels s !! channel with
  | Some ch => send_to s (set_iter (members ch)) line
  | None => []
  end.

Definition s2s_broadcast (s : Server) (m : S2sMessage) : list Effect :=
  match channel_name m with
  | Some c => if bool_decide (to_lowercase c ∈ room_names s) then []
              else if s2s_manager s then [Peers m] else []
  | None => if s2s_manager s then [Peers m] else []
  end.

Definition s2s_broadcast_mode (s : Server) (c : Connection) (channel mode : string) (arg : option string)
    : list Effect :=
  s2s_broadcast s (Mode channel mode arg (nick_or_star c) (c_authenticated_did c)).

Definition make_standard_join (hostmask channel : string) : string := ":" +:+ hostmask +:+ " JOIN " +:+ channel +:+ CRLF.
Definition make_extended_join (hostmask channel : string) (did : option string) (realname : string) : string :=
  ":" +:+ hostmask +:+ " JOIN " +:+ channel +:+ " " +:+ default "*" did +:+ " :" +:+ realname +:+ CRLF.
Definition make_extended_join_with_class (hostmask channel : string) (did : option string) (realname : string)
    (a : ActorClass) : string :=
  if bool_decide (a = Human) then make_extended_join hostmask channel did realname
  else "@+freeq.at/actor-class=" +:+ actor_class_name a +:+ " " +:+ make_extended_join hostmask channel did realname.

Inductive ChannelTarget := TLocal (session_id : string) | TRemote (rm : RemoteMember) | TNotPresent.

Definition resolve_channel_target (s : Server) (channel target_nick : string) : ChannelTarget :=
  let remote := match channels s !! channel ≫= fun ch => remote_member ch target_nick with
                | Some rm => TRemote rm
                | None => TNotPresent
                end in
  match get_session (nicks s) target_nick with
  | Some sid =>
      if match channels s !! channel with Some ch => bool_decide (sid ∈ members ch) | None => false end
      then TLocal sid else remote
  | None => remote
  end.

Inductive NetworkTarget := NLocal (session_id : string) | NRemote (rm : RemoteMember) | NUnknown.

Fixpoint first_remote (l : list (string * ChannelState)) (nick : string) : option RemoteMember :=
  match l with
  | [] => None
  | (_, ch) :: rest => match remote_member ch nick with Some rm => Some rm | None => first_remote rest nick end
  end.

Definition resolve_network_target (s : Server) (target_nick : string) : NetworkTarget :=
  match get_session (nicks s) target_nick with
  | Some sid => NLocal sid
  | None => match first_remote (hash_iter (channels s)) target_nick with
            | Some rm => NRemote rm
            | None => NUnknown
            end
  end.

Definition live_sibling_still_member (s : Server) (did channel session_id : string) : bool :=
  match channels s !! channel with
  | Some ch =>
      existsb (fun sid => negb (String.eqb sid session_id) && bool_decide (sid ∈ members ch)
                          && bool_decide (sid ∈ connections s))
        (set_iter (default ∅ (did_sessions s !! did)))
  | None => false
  end.

Definition verified_owner (s : Server) (agent_did : string) : option string :=
  match provenance_declarations s !! agent_did with
  | Some cert =>
      if bool_decide (dc_verified cert = Some true) && bool_decide (dc_bot_did cert = Some agent_did)
      then dc_creator_did cert else None
  | None => None
  end.

Definition remove_session (session_id : string) (ch : ChannelState) : ChannelState :=
  set_halfops (halfops ch ∖ {[session_id]}) (set_voiced (voiced ch ∖ {[session_id]})
    (set_ops (ops ch ∖ {[session_id]}) (set_members (members ch ∖ {[session_id]}) ch))).

Definition worth_keeping (ch : ChannelState) : bool :=
  negb (bool_decide (members ch = ∅)) || negb (bool_decide (remote_members ch = ∅))
  || is_some (founder_did ch) || is_some (topic ch) || negb (bool_decide (bans ch = [])).

Definition cleanup_channel_membership (s : Server) (session_id : string) : Server :=
  set_channels (filter (fun nc => worth_keeping nc.2 = true) (remove_session session_id <$> channels s)) s.

Fixpoint folded_membership (sessions : list string) (ops voiced : gset string) (founder : option string)
    (did_ops : gset string) (dids : gmap string string) : bool * bool :=
  match sessions with
  | [] => (false, false)
  | sid :: rest =>
      let '(o, v) := folded_membership rest ops voiced founder did_ops dids in
      (bool_decide (sid ∈ ops)
       || match dids !! sid with
          | Some did => bool_decide (founder = Some did) || bool_decide (did ∈ did_ops)
          | None => false
          end || o,
       bool_decide (sid ∈ voiced) || v)
  end.
End Helpers.

(** ** Masks are globs *)

(** What a pattern means: a star is any string, a question mark any byte. *)
Inductive glob : string -> string -> Prop :=
  | glob_nil : glob "" ""
  | glob_star p s t : glob p t -> glob (String "*" p) (s +:+ t)
  | glob_any a p t : glob p t -> glob (String "?" p) (String a t)
  | glob_same a p t : a <> "*"%char -> glob p t -> glob (String a p) (String a t).

Lemma glob_star_inv p t :
  glob (String "*" p) t <-> glob p t \/ exists a t', t = String a t' /\ glob (String "*" p) t'.
Proof.
  split.
  - inversion 1 as [|? s u Hu| |? ? ? Hn]; subst; [|done].
    destruct s as [|a s]; [by left|right]. exists a, (s +:+ u). split; [done|by constructor].
  - intros [H|(a & t' & -> & H)]; [by apply (glob_star p "")|].
    inversion H as [|? s u Hu| |? ? ? Hn]; subst; [|done]. by apply (glob_star p (String a s)).
Qed.

Lemma wildcard_star p t :
  wildcard_match_inner (String "*" p) t =
  wildcard_match_inner p t || match t with String _ t' => wildcard_match_inner (String "*" p) t' | EmptyString => false end.
Proof. by destruct t. Qed.

Lemma wildcard_glob p t : wildcard_match_inner p t = true <-> glob p t.
Proof.
  revert t; induction p as [|a p IH]; intros t.
  - destruct t; simpl; split; try done; [constructor|inversion 1].
  - destruct (Ascii.eqb a "*") eqn:Ea; bool_hyps; [subst a|].
    + induction t as [|b t IHt]; rewrite wildcard_star, glob_star_inv.
      * rewrite orb_false_r, IH. naive_solver.
      * rewrite orb_true_iff, IH, IHt. naive_solver.
    + simpl. rewrite (proj2 (Ascii.eqb_neq a "*") Ea). destruct t as [|b t]; [split; [done|inversion 1; by subst]|].
      rewrite andb_true_iff, orb_true_iff, !Ascii.eqb_eq, IH. split.
      * intros [[-> | ->] H]; by constructor.
      * inversion 1; subst; auto. done.
Qed.

(** A ban that names a DID catches exactly that identity, however the user
    is called; any other ban catches exactly the users whose hostmask its
    pattern describes, without regard to case. *)
Theorem is_banned_spec {CF : CaseFold} (ch : ChannelState) (host : string) (did : option string) :
  is_banned ch host did = true <->
  exists b, In b (bans ch) /\
    if starts_with "did:" (mask b) then did = Some (mask b)
    else glob (to_lowercase (mask b)) (to_lowercase host).
Proof.
  unfold is_banned. rewrite existsb_exists. unfold ban_matches, wildcard_match.
  split; intros (b & Hb & H); exists b; (split; [done|]); destruct (starts_with "did:" (mask b)).
  - by apply bool_decide_eq_true in H.
  - by apply wildcard_glob.
  - by apply bool_decide_eq_true.
  - by apply wildcard_glob.
Qed.
