(* ===== verification/Rooms.v ===== *)
(** * Instant rooms

    Models [freeq-server/src/rooms.rs]: activity, removal and banning of
    members, deletion, the sweeper, and the room endpoints of
    [freeq-server/src/web.rs]. [iso] stands for the date format of the notices
    ([chrono]) and [token_hash] for SHA-256 in hexadecimal; a clock reading is
    the argument [now], a random token or name an argument too. *)

From stdpp Require Import base gmap strings list fin_maps.
From Stdlib Require Import ZArith Lia String Ascii.
From S2P Require Import Prelude NickMap RoomTables S2sMessage Channel.
Open Scope string_scope.
Open Scope list_scope.
Open Scope Z_scope.

Definition WARN_BEFORE_SECS : Z := 86400.
Definition EXPIRED_KICK_REASON : string := "Room expired".

Definition u64_max : Z := 2 ^ 64 - 1.
Definition sat_add_u64 (x y : Z) : Z := Z.min u64_max (x + y).
Definition sat_sub_u64 (x y : Z) : Z := Z.max 0 (x - y).

(** [s.trim_start_matches(c)] *)
Fixpoint trim_start_char (c : ascii) (s : string) : string :=
  match s with
  | String d r => if Ascii.eqb d c then trim_start_char c r else s
  | EmptyString => ""
  end.

Section Rooms.
Context {CF : CaseFold} {TR : @Trim CF} {HO : HashOrder} {SO : SqlOrder}
  (token_hash : string -> string) (iso : Z -> string).

Definition admission_notice (channel : string) (expires_at : Z) : string :=
  channel +:+ " is an end-to-end encrypted room. A member will seal the room key to you; "
  +:+ "until then you can't read or send. Expires " +:+ iso expires_at +:+ ".".

(** ** Activity *)

Definition bump_activity (s : Server) (channel : string) (now : Z) : Server :=
  let k := to_lowercase channel in
  let entry := default 0 (room_activity s !! k) in
  set_room_activity (<[k := if entry <? now then now else entry]> (room_activity s)) s.

Definition flush_activity (s : Server) : Server :=
  let pending := hash_iter (room_activity s) in
  update_room_db (fun db => fold_left (fun db ca => touch_room db ca.1 ca.2 (sat_add_u64 ca.2 (room_idle_secs s)))
                              pending db)
    (set_room_activity ∅ s).

Definition touch_now (s : Server) (channel : string) (now : Z) : option Z * Server :=
  let expires_at := sat_add_u64 now (room_idle_secs s) in
  let s' := update_room_db (fun db => touch_room db channel now expires_at) s in
  (room_db s' ≫= fun db => rm_expires_at <$> get_room db channel, s').

(** ** Removing members *)

Definition with_nicks (s : Server) (sessions : list string) : list (string * string) :=
  omap (fun sid => (fun n => (sid, n)) <$> get_nick (nicks s) sid) sessions.

Definition notice_members (s : Server) (channel body : string) : list Effect :=
  match channels s !! channel with
  | Some ch =>
      flat_map (fun sn => send_to s [sn.1] (":" +:+ server_name s +:+ " NOTICE " +:+ sn.2 +:+ " :" +:+ body +:+ CRLF))
        (with_nicks s (set_iter (members ch)))
  | None => []
  end.

Definition kick_sessions (s : Server) (channel : string) (sessions : list string) (reason : string)
    : list string * Server * list Effect :=
  match channels s !! channel with
  | None => ([], s, [])
  | Some ch =>
      let present := List.filter (fun sid => bool_decide (sid ∈ members ch)) sessions in
      let audience := set_iter (members ch) in
      match present with
      | [] => ([], s, [])
      | _ =>
          let kicked := with_nicks s present in
          let s' := update_channel channel (fun c => fold_left (fun c sid => remove_session sid c) present c) s in
          (map snd kicked, s',
           flat_map (fun sn => send_to s audience
             (":" +:+ server_name s +:+ " KICK " +:+ channel +:+ " " +:+ sn.2 +:+ " :" +:+ reason +:+ CRLF)) kicked
           ++ map (fun did => Db (RemoveUserChannel did channel)) (omap (did_of_session s) present))
      end
  end.

Definition kick_did (s : Server) (channel did reason : string) : list string * Server * list Effect :=
  kick_sessions s channel (set_iter (default ∅ (did_sessions s !! did))) reason.

Definition has_mask (m : string) (l : list BanEntry) : bool := existsb (fun b => String.eqb (mask b) m) l.

Definition ban_did (s : Server) (channel did set_by_ : string) (now : Z) : bool * Server * list Effect :=
  match channels s !! channel with
  | None => (false, s, [])
  | Some ch =>
      if has_mask did (bans ch) then (false, s, [])
      else
        let ban := mkBan did set_by_ now in
        (true, update_channel channel (fun c => set_bans (bans c ++ [ban]) c) s,
         Db (AddBan channel ban)
         :: send_to s (set_iter (members ch)) (":" +:+ server_name s +:+ " MODE " +:+ channel +:+ " +b " +:+ did +:+ CRLF))
  end.

(** ** Deletion and the sweeper *)

Definition delete_room (s : Server) (channel reason : string) : Server * list Effect :=
  let channel := to_lowercase channel in
  let everyone := match channels s !! channel with Some ch => set_iter (members ch) | None => [] end in
  let '(_, s1, e1) := kick_sessions s channel everyone reason in
  let s2 := set_room_activity (delete channel (room_activity s1))
              (set_room_names (room_names s1 ∖ {[channel]}) (set_channels (delete channel (channels s1)) s1)) in
  (update_room_db (fun db => db_delete_room db channel) s2,
   e1 ++ match room_db s with Some _ => [Db (DeleteChannelRows channel)] | None => [] end).

Record SweepReport := mkSweepReport { swept_deleted : list string; swept_warned : list string }.

Definition room_due (s : Server) (r : RoomRow) (now : Z) : bool :=
  let members := match room_db s with Some db => room_member_count db (rm_channel r) | None => 0 end in
  ((members <? 2) && (sat_add_u64 (rm_created_at r) (room_unclaimed_secs s) <? now)) || (rm_expires_at r <? now).

Definition warn_text (r : RoomRow) : string :=
  rm_channel r +:+ " expires " +:+ iso (rm_expires_at r)
  +:+ " unless someone speaks or a member calls POST /api/v1/rooms/"
  +:+ trim_start_char "#"%char (rm_channel r) +:+ "/keep.".

Definition sweep_room (now : Z) (acc : SweepReport * Server * list Effect) (r : RoomRow)
    : SweepReport * Server * list Effect :=
  let '(rep, s, es) := acc in
  if room_due s r now then
    let '(s', e) := delete_room s (rm_channel r) EXPIRED_KICK_REASON in
    (mkSweepReport (swept_deleted rep ++ [rm_channel r]) (swept_warned rep), s', es ++ e)
  else if negb (is_some (rm_warned_at r)) && (sat_sub_u64 (rm_expires_at r) now <? WARN_BEFORE_SECS) then
    (mkSweepReport (swept_deleted rep) (swept_warned rep ++ [rm_channel r]),
     update_room_db (fun db => set_room_warned db (rm_channel r) now) s,
     es ++ notice_members s (rm_channel r) (warn_text r))
  else acc.

Definition sweep_once (s : Server) (now : Z) : SweepReport * Server * list Effect :=
  let s1 := flush_activity s in
  let rooms := match room_db s1 with Some db => list_rooms db | None => [] end in
  fold_left (sweep_room now) rooms (mkSweepReport [] [], s1, []).

(** ** The REST endpoints

    [caller] is the DID of the bearer session, [rate_ok] the answer of the
    per-address limiter, and a field of the request body an argument. *)

Inductive HttpReply :=
  | HErr (status : Z) (text : string)
  | HOk (status : Z) (fields : list (string * string)) (times : list (string * Z)).

Definition room_key (name : string) : string := "#" +:+ to_lowercase (trim_start_char "#"%char name).

(** Whether the caller has authority and is on the roster; [None] for what is
    not a room. *)
Definition room_lookup (s : Server) (channel caller : string) : option (bool * bool) :=
  match channels s !! channel with
  | Some ch => if room ch
               then Some (is_room_authority ch caller,
                          match room_db s with Some db => is_room_member db channel caller | None => false end)
               else None
  | None => None
  end.

Definition INVITE_TTL_DEFAULT_SECS : Z := 7 * 86400.
Definition INVITE_TTL_MAX_SECS : Z := 30 * 86400.
Definition ROOMS_PER_FOUNDER_PER_DAY : Z := 20.

Definition invite_ttl_from (invite_ttl_secs : option Z) : Z :=
  Z.min (match invite_ttl_secs with Some t => if 0 <? t then t else INVITE_TTL_DEFAULT_SECS
                                  | None => INVITE_TTL_DEFAULT_SECS end) INVITE_TTL_MAX_SECS.

Definition mint_invite (s : Server) (channel created_by token : string) (ttl_secs : Z) (max_uses : option Z) (now : Z)
    : option Z * Server :=
  let expires_at := sat_add_u64 now ttl_secs in
  match room_db s ≫= fun db => add_room_invite db channel (token_hash token) created_by now expires_at max_uses with
  | Some db => (Some expires_at, set_room_db (Some db) s)
  | None => (None, s)
  end.

(** The candidates are the random names drawn, of which 64 are tried;
    [row_exists] asks the table of channels. *)
Definition name_taken (s : Server) (row_exists : string -> bool) (name : string) : bool :=
  is_some (channels s !! name)
  || match room_db s with Some db => row_exists name || is_some (get_room db name) | None => false end.
Definition generate_room_name (s : Server) (row_exists : string -> bool) (candidates : list string) : option string :=
  List.find (fun n => negb (name_taken s row_exists n)) (take 64 candidates).

Definition new_room (caller : string) (topic_text : option string) (now : Z) : ChannelState :=
  mkChannel ∅ ∅ ∅ ∅ ∅ (Some caller) {[caller]} now [] true ∅ []
    ((fun t => mkTopic t caller now) <$> topic_text) true true false true None [] None true.

Definition room_topic (t : option string) : option string :=
  match trim <$> t with
  | Some t => if is_empty t then None else Some (take_chars 390 t)
  | None => None
  end.

Definition file_room (s : Server) (channel caller : string) (ch : ChannelState) (now : Z) : option RoomDb :=
  room_db s ≫= fun db =>
  create_room db channel caller now (sat_add_u64 now (room_idle_secs s)) ≫= fun db' =>
  Some (upsert_room_member db' channel caller now).

Definition api_create_room (s : Server) (rate_ok : bool) (caller : option string) (topic_text : option string)
    (invite_ttl_secs : option Z) (row_exists : string -> bool) (candidates : list string) (token : string) (now : Z)
    : HttpReply * Server * list Effect :=
  if negb rate_ok then (HErr 429 "Rate limit exceeded", s, [])
  else match caller, room_db s with
  | None, _ => (HErr 401 "Bearer session required", s, [])
  | _, None => (HErr 503 "Rooms need persistence; this server runs without a database", s, [])
  | Some caller, Some db =>
      if ROOMS_PER_FOUNDER_PER_DAY <=? rooms_founded_since db caller (sat_sub_u64 now 86400)
      then (HErr 429 "Room limit reached: 20 rooms per founder per 24 hours", s, [])
      else match generate_room_name s row_exists candidates with
      | None => (HErr 500 "Could not find a free room name", s, [])
      | Some channel =>
          let ch := new_room caller (room_topic topic_text) now in
          match file_room s channel caller ch now with
          | None => (HErr 500 "Could not file the room", set_room_names (room_names s ∖ {[channel]}) s,
                     [Db (SaveChannel channel ch)])
          | Some db' =>
              let s1 := set_room_db (Some db') (set_room_names ({[channel]} ∪ room_names s)
                          (set_channels (<[channel := ch]> (channels s)) s)) in
              let '(exp, s2) := mint_invite s1 channel caller token (invite_ttl_from invite_ttl_secs) None now in
              (match exp with
               | None => HErr 500 "Could not mint the invite"
               | Some e => HOk 201 [("channel", channel); ("invite", token); ("founder_did", caller)]
                             [("invite_expires_at", e); ("created_at", now);
                              ("expires_at", sat_add_u64 now (room_idle_secs s))]
               end, s2, [Db (SaveChannel channel ch)])
          end
      end
  end.

(** The rule the endpoints below share: a caller, a room, and a right. *)
Definition with_room {A} (s : Server) (caller : option string) (name : string)
    (allowed : bool * bool -> bool) (forbidden : string) (refuse : HttpReply -> A)
    (k : string -> string -> A) : A :=
  match caller with
  | None => refuse (HErr 401 "Bearer session required")
  | Some caller =>
      let channel := room_key name in
      match room_lookup s channel caller with
      | None => refuse (HErr 404 "Unknown room")
      | Some rights => if allowed rights then k caller channel else refuse (HErr 403 forbidden)
      end
  end.

Definition max_uses_from (max_uses : option Z) : option Z :=
  match max_uses with Some n => if 0 <? n then Some (Z.min n (2 ^ 32 - 1)) else None | None => None end.

Definition api_room_invite (s : Server) (rate_ok : bool) (caller : option string) (name : string)
    (invite_ttl_secs max_uses : option Z) (token : string) (now : Z) : HttpReply * Server * list Effect :=
  if negb rate_ok then (HErr 429 "Rate limit exceeded", s, [])
  else with_room s caller name fst "Only the room founder or a DID-op may mint invites" (fun r => (r, s, []))
    (fun caller channel =>
       let '(exp, s1) := mint_invite s channel caller token (invite_ttl_from invite_ttl_secs) (max_uses_from max_uses) now in
       (match exp with
        | None => HErr 500 "Could not mint the invite"
        | Some e => HOk 201 [("invite", token)] [("invite_expires_at", e)]
        end, s1, [])).

Definition api_room_revoke_invites (s : Server) (caller : option string) (name : string) (now : Z)
    : HttpReply * Server * list Effect :=
  with_room s caller name fst "Only the room founder or a DID-op may revoke invites" (fun r => (r, s, []))
    (fun _ channel =>
       match room_db s with
       | Some db => let '(n, db') := revoke_room_invites db channel now in
                    (HOk 200 [] [("revoked", n)], set_room_db (Some db') s, [])
       | None => (HOk 200 [] [("revoked", 0)], s, [])
       end).

Definition api_room_keep (s : Server) (caller : option string) (name : string) (now : Z)
    : HttpReply * Server * list Effect :=
  with_room s caller name (fun r => r.1 || r.2) "Not a member of this room" (fun r => (r, s, []))
    (fun _ channel =>
       let '(t, s1) := touch_now s channel now in
       (match t with Some e => HOk 200 [] [("expires_at", e)] | None => HErr 404 "Unknown room" end, s1, [])).

Definition api_room_remove_member (s : Server) (caller : option string) (name did : string) (now : Z)
    : HttpReply * Server * list Effect :=
  with_room s caller name fst "Only the room founder or a DID-op may remove members" (fun r => (r, s, []))
    (fun caller channel =>
       if bool_decide (channels s !! channel ≫= founder_did = Some did)
       then (HErr 400 "The founder cannot be removed", s, [])
       else
         let s1 := update_room_db (fun db => (remove_room_member db channel did now).2) s in
         let '(_, s2, e2) := ban_did s1 channel did caller now in
         let '(_, s3, e3) := kick_did s2 channel did "Removed from room" in
         (HOk 200 [("removed", did)] [], s3, e2 ++ e3)).
End Rooms.
