(* ===== verification/ChannelOps.v ===== *)
(** * The channel commands

    Models JOIN, PART, MODE, KICK, INVITE, TOPIC, NAMES and LIST of
    [freeq-server/src/connection/channel.rs]: each handler takes the server and
    the connection it runs for and returns the server it leaves behind and its
    effects in order. [token_hash] stands for SHA-256 in hexadecimal; the
    policy engine is reached through [PolicyGate]. Plugin hooks, which only
    observe, are left out. *)

From stdpp Require Import base gmap strings list fin_maps pretty.
From Stdlib Require Import ZArith Lia String Ascii.
From S2P Require Import Prelude PolicyStore PolicyEngine NickMap RoomTables S2sMessage Channel Rooms.
Open Scope string_scope.
Open Scope list_scope.
Open Scope Z_scope.

(** What the commands ask of the policy engine. *)
Record PolicyGate := mkGate {
  gate_policy : string -> result (option PolicyDocument) PolicyError;
  gate_membership : string -> string -> result (option MembershipAttestation) PolicyError
}.

Definition policy_of (gate : option PolicyGate) (channel : string) : option PolicyDocument :=
  match gate with
  | Some g => match gate_policy g channel with Ok p => p | Err _ => None end
  | None => None
  end.

(** The gate a policy store in good order answers. *)
Definition engine_gate {CF : CaseFold} {TR : @Trim CF} {SO : SqlOrder} (st : Store) : PolicyGate :=
  mkGate (fun channel => Ok (get_policy st channel)) (fun channel did => Ok (check_membership st channel did)).

Section Commands.
Context {CF : CaseFold} {TR : @Trim CF} {HO : HashOrder} {SO : SqlOrder}
  (token_hash : string -> string) (iso : Z -> string).

(** ** Who sees a channel *)

Definition channel_is_discoverable (gate : option PolicyGate) (name : string) (ch : ChannelState) : bool :=
  negb (is_mode_restricted ch) && negb (is_some (policy_of gate name)).
Definition channel_visible_to (gate : option PolicyGate) (name : string) (ch : ChannelState) (session_id : string) : bool :=
  channel_is_discoverable gate name ch || bool_decide (session_id ∈ members ch).

(** One entry per nick, whatever the number of sessions. *)
Fixpoint one_per_nick {A} (seen : gset string) (l : list (string * A)) : list (string * A) :=
  match l with
  | [] => []
  | (n, x) :: rest =>
      if bool_decide (to_lowercase n ∈ seen) then one_per_nick seen rest
      else (n, x) :: one_per_nick ({[to_lowercase n]} ∪ seen) rest
  end.

Definition actor_classes (s : Server) (ch : ChannelState) : list (string * string) :=
  omap (fun sid => match session_actor_class s !! sid with
                   | Some a => if bool_decide (a = Human) then None
                               else (fun n => (n, actor_class_name a)) <$> get_nick (nicks s) sid
                   | None => None
                   end) (set_iter (members ch))
  ++ omap (fun nr : string * RemoteMember =>
             match rm_actor_class nr.2 with
             | Some a => if String.eqb a "human" then None else Some (nr.1, a)
             | None => None
             end) (hash_iter (remote_members ch)).

Definition line_budget (server nick channel : string) : Z :=
  Z.max 1 (sat_sub_u64 512 (1 + Z.of_nat (String.length server) + 1 + 3 + 1 + Z.of_nat (String.length nick) + 1
                            + Z.of_nat (String.length channel) + 2 + 2)).

(** [cur] is the line being filled. *)
Fixpoint chunk_loop (budget : Z) (cur : string) (entries : list string) : list string :=
  match entries with
  | [] => if is_empty cur then [] else [cur]
  | e :: rest =>
      let added := if is_empty cur then Z.of_nat (String.length e)
                   else Z.of_nat (String.length cur) + 1 + Z.of_nat (String.length e) in
      if negb (is_empty cur) && (budget <? added) then cur :: chunk_loop budget e rest
      else chunk_loop budget (if is_empty cur then e else cur +:+ " " +:+ e) rest
  end.
Definition chunk_to_line_limit (server nick channel : string) (entries : list string) : list string :=
  chunk_loop (line_budget server nick channel) "" entries.

Definition send_actor_classes (s : Server) (session_id nick channel : string) : list Effect :=
  match channels s !! channel with
  | Some ch =>
      map (fun chunk => Reply session_id "674" [nick; channel; chunk])
        (chunk_to_line_limit (server_name s) nick channel
           (map (fun na => na.1 +:+ "=" +:+ na.2) (one_per_nick ∅ (actor_classes s ch))))
  | None => []
  end.

Definition remote_names (ch : ChannelState) : list string :=
  map (fun nr : string * RemoteMember =>
         (if rm_is_op nr.2 || is_authority ch (rm_did nr.2) then "@" else "") +:+ nr.1)
    (hash_iter (remote_members ch)).

(** The flags of a nick are those of all its sessions together. *)
Fixpoint fold_nick (l : list (string * (bool * bool))) (n : string) (f : bool * bool) : list (string * (bool * bool)) :=
  match l with
  | [] => [(n, f)]
  | (m, g) :: rest =>
      if String.eqb (to_lowercase m) (to_lowercase n) then (m, (g.1 || f.1, g.2 || f.2)) :: rest
      else (m, g) :: fold_nick rest n f
  end.

Definition member_flags (s : Server) (ch : ChannelState) (sid : string) : bool * bool :=
  (bool_decide (sid ∈ ops ch) || is_authority ch (did_of_session s sid), bool_decide (sid ∈ voiced ch)).

Definition name_prefix (multi : bool) (f : bool * bool) : string :=
  if multi then (if f.1 then "@" else "") +:+ (if f.2 then "+" else "")
  else if f.1 then "@" else if f.2 then "+" else "".

Definition folded_names (s : Server) (ch : ChannelState) (multi : bool) : list string :=
  map (fun nf => name_prefix multi nf.2 +:+ nf.1)
    (fold_left (fun l sid => match get_nick (nicks s) sid with
                             | Some n => fold_nick l n (member_flags s ch sid)
                             | None => l
                             end) (set_iter (members ch)) []).

Definition names_replies (session_id nick channel : string) (list_ : list string) : list Effect :=
  [Reply session_id "353" [nick; "="; channel; str_join " " list_];
   Reply session_id "366" [nick; channel; "End of /NAMES list"]].

Definition is_channel_name (channel : string) : bool :=
  starts_with_char "#"%char channel || starts_with_char "&"%char channel.

Definition handle_names (gate : option PolicyGate) (s : Server) (c : Connection) (channel session_id : string)
    : list Effect :=
  let nick := nick_or_star c in
  if negb (is_channel_name channel) then [Reply session_id "403" [nick; channel; "No such channel"]]
  else
    let list_ := match channels s !! channel with
                 | Some ch =>
                     if channel_visible_to gate channel ch session_id
                     then folded_names s ch (bool_decide (session_id ∈ cap_multi_prefix s)) ++ remote_names ch
                     else []
                 | None => []
                 end in
    names_replies session_id nick channel list_ ++ send_actor_classes s session_id nick channel.

Definition handle_list (gate : option PolicyGate) (s : Server) (c : Connection) (session_id : string) : list Effect :=
  let nick := nick_or_star c in
  flat_map (fun nc : string * ChannelState =>
    if channel_visible_to gate nc.1 nc.2 session_id then
      [Reply session_id "322" [nick; nc.1;
         pretty (Z.of_nat (size (members nc.2) + size (remote_members nc.2)));
         match topic nc.2 with Some t => tp_text t | None => "" end]]
    else []) (hash_iter (channels s))
  ++ [Reply session_id "323" [nick; "End of /LIST"]].

(** ** JOIN *)

Definition is_new_channel (s : Server) (channel : string) : bool :=
  match channels s !! channel with
  | None => true
  | Some ch =>
      bool_decide (members ch = ∅) && bool_decide (remote_members ch = ∅) && negb (is_some (founder_did ch))
      && negb (is_some (topic ch)) && bool_decide (ops ch = ∅)
  end.

Definition MAX_CHANNELS_PER_USER : nat := 100.
Definition joined_count (s : Server) (session_id : string) : nat :=
  size (filter (fun nc : string * ChannelState => session_id ∈ members nc.2) (channels s)).

Definition has_invite (ch : ChannelState) (session_id nick : string) (did : option string) : bool :=
  bool_decide (session_id ∈ invites ch)
  || match did with Some d => bool_decide (d ∈ invites ch) | None => false end
  || bool_decide (invite_nick_token nick ∈ invites ch).

Definition session_present (s : Server) (ch : ChannelState) (did : string) : bool :=
  existsb (fun sid => bool_decide (did_of_session s sid = Some did)) (set_iter (members ch)).

Definition delegated (s : Server) (ch : ChannelState) (did : option string) : bool :=
  match did ≫= verified_owner s with
  | Some owner => session_present s ch owner || has_authority ch owner
  | None => false
  end.

Definition spend_invite (session_id nick : string) (did : option string) (ch : ChannelState) : ChannelState :=
  set_invites ((invites ch ∖ {[session_id]} ∖ match did with Some d => {[d]} | None => ∅ end)
               ∖ {[invite_nick_token nick]}) ch.

Inductive Admission :=
  | AlreadyIn
  | Refused (s : Server) (e : list Effect)
  | Passed (s : Server) (e : list Effect) (room_admitted : bool).

Definition room_admission (s : Server) (c : Connection) (channel : string) (supplied_key : option string)
    (session_id : string) (now : Z) : bool * Server * list Effect :=
  let nick := nick_or_star c in
  match c_authenticated_did c with
  | None => (false, s, [Reply session_id "477" [nick; channel; "Cannot join room (identity required)"]])
  | Some did =>
      let '(by_token, s1) :=
        match supplied_key, room_db s with
        | Some token, Some db =>
            let '(ok, db') := consume_room_invite db channel (token_hash token) now in
            if ok then (true, set_room_db (Some (upsert_room_member db' channel did now)) s) else (false, s)
        | _, _ => (false, s)
        end in
      if by_token then (true, s1, [])
      else if match room_db s1 with Some db => is_room_member db channel did | None => false end
      then (true, s1, [])
      else (false, s1, [Reply session_id "473" [nick; channel; "Cannot join room (invite required)"]])
  end.

Definition check_room (s : Server) (c : Connection) (ch : ChannelState) (channel : string)
    (supplied_key : option string) (session_id : string) (now : Z) : Admission :=
  let nick := nick_or_star c in
  let did := c_authenticated_did c in
  if is_authority ch did then Passed s [] true
  else if is_banned ch (hostmask c) did
  then Refused s [Reply session_id "474" [nick; channel; "Cannot join channel (+b)"]]
  else let '(ok, s', e) := room_admission s c channel supplied_key session_id now in
       if ok then Passed s' e true else Refused s' e.

Definition check_channel (s : Server) (c : Connection) (ch : ChannelState) (channel : string)
    (supplied_key : option string) (session_id : string) : Admission :=
  let nick := nick_or_star c in
  let did := c_authenticated_did c in
  if is_authority ch did then Passed s [] false
  else if match key ch with Some k => negb (bool_decide (supplied_key = Some k)) | None => false end
  then Refused s [Reply session_id "475" [nick; channel; "Cannot join channel (+k)"]]
  else if is_banned ch (hostmask c) did
  then Refused s [Reply session_id "474" [nick; channel; "Cannot join channel (+b)"]]
  else if invite_only ch then
    if has_invite ch session_id nick did then
      Passed (update_channel channel (spend_invite session_id nick did) s)
        (match did with Some d => [Db (RemoveInvite channel d)] | None => [] end
         ++ [Db (RemoveInvite channel (invite_nick_token nick))]) false
    else if is_invite_excepted ch (hostmask c) did || delegated s ch did then Passed s [] false
    else Refused s [Reply session_id "473" [nick; channel; "Cannot join channel (+i)"]]
  else Passed s [] false.

Definition check_admission (s : Server) (c : Connection) (channel : string) (supplied_key : option string)
    (session_id : string) (now : Z) : Admission :=
  if is_new_channel s channel then Passed s [] false
  else match channels s !! channel with
       | None => Passed s [] false
       | Some ch =>
           if bool_decide (session_id ∈ members ch) then AlreadyIn
           else if room ch then check_room s c ch channel supplied_key session_id now
           else check_channel s c ch channel supplied_key session_id
       end.

Definition policy_bypass (s : Server) (channel did : string) : bool :=
  match channels s !! str_map ascii_lower channel with Some ch => has_authority ch did | None => false end.

(** [Err text]: refused; [Ok role]: the role the policy gives, if any. A failed
    lookup of the attestation lets the user in. *)
Definition policy_check (gate : option PolicyGate) (s : Server) (channel : string) (did : option string)
    : result (option string) string :=
  match gate, policy_of gate channel with
  | Some g, Some _ =>
      match did with
      | Some d =>
          if policy_bypass s channel d then Ok (Some "op")
          else match gate_membership g channel d with
               | Ok (Some a) => Ok (Some (ma_role a))
               | Ok None => Err "This channel requires policy acceptance — use POLICY <channel> ACCEPT"
               | Err _ => Ok None
               end
      | None => Err "This channel requires authentication — sign in to join"
      end
  | _, _ => Ok None
  end.

Definition found_channel (session_id : string) (did : option string) (now : Z) (ch : ChannelState) : ChannelState :=
  let ch1 := set_created now ch in
  let ch2 := match did with
             | Some d => set_did_ops ({[d]} ∪ did_ops ch1) (set_founder (Some d) ch1)
             | None => ch1
             end in
  set_topic_locked true (set_no_ext_msg true (set_ops ({[session_id]} ∪ ops ch2) ch2)).

(** [ch] already lists the session among its members. *)
Definition auto_op (gate : option PolicyGate) (channel session_id : string) (did : option string) (ch : ChannelState)
    : ChannelState :=
  let has_any_ops := negb (bool_decide (ops ch = ∅))
                     || existsb (fun nr : string * RemoteMember => rm_is_op nr.2) (hash_iter (remote_members ch)) in
  let has_policy_roles := match policy_of gate channel with
                          | Some p => (0 <? size (pd_role_requirements p))%nat
                          | None => false
                          end in
  let is_truly_empty := (size (members ch) =? 1)%nat && bool_decide (remote_members ch = ∅)
                        && negb has_any_ops && negb has_policy_roles in
  if is_authority ch did || is_truly_empty then set_ops ({[session_id]} ∪ ops ch) ch else ch.

Definition enter (gate : option PolicyGate) (is_new : bool) (channel session_id : string) (did : option string)
    (now : Z) (entry : option ChannelState) : option ChannelState :=
  let ch := default default_channel entry in
  let ch1 := set_members ({[session_id]} ∪ members ch) ch in
  Some (if is_new then found_channel session_id did now ch1 else auto_op gate channel session_id did ch1).

Definition grant_role (role : string) (session_id : string) (did : option string) (ch : ChannelState) : ChannelState :=
  if existsb (String.eqb role) ["op"; "admin"; "owner"] then
    let ch1 := set_ops ({[session_id]} ∪ ops ch) ch in
    match did with Some d => set_did_ops ({[d]} ∪ did_ops ch1) ch1 | None => ch1 end
  else if existsb (String.eqb role) ["moderator"; "halfop"] then set_halfops ({[session_id]} ∪ halfops ch) ch
  else if existsb (String.eqb role) ["voice"; "voiced"; "speaker"] then set_voiced ({[session_id]} ∪ voiced ch) ch
  else ch.

Definition auto_modes_for (is_op is_halfop is_voiced : bool) : list string :=
  (if is_op then ["o"] else []) ++ (if is_halfop then ["h"] else []) ++ (if is_voiced then ["v"] else []).

Definition announce_join (s : Server) (c : Connection) (channel session_id : string) : list Effect :=
  let nick := nick_or_star c in
  let realname := default nick (c_realname c) in
  let did := c_authenticated_did c in
  match channels s !! channel with
  | None => []
  | Some ch =>
      let members_ := set_iter (members ch) in
      flat_map (fun m =>
        send_to s [m]
          (if bool_decide (m ∈ cap_extended_join s) then
             if bool_decide (m ∈ cap_message_tags s)
             then make_extended_join_with_class (hostmask c) channel did realname (c_actor_class c)
             else make_extended_join (hostmask c) channel did realname
           else make_standard_join (hostmask c) channel)) members_
      ++ flat_map (fun mode =>
           send_to s members_ (":" +:+ server_name s +:+ " MODE " +:+ channel +:+ " +" +:+ mode +:+ " " +:+ nick +:+ CRLF))
         (auto_modes_for (bool_decide (session_id ∈ ops ch)) (bool_decide (session_id ∈ halfops ch))
            (bool_decide (session_id ∈ voiced ch)))
  end.

Definition tell_peers_join (s : Server) (c : Connection) (channel session_id : string) (is_new : bool) : list Effect :=
  let ch := channels s !! channel in
  s2s_broadcast s (Join (nick_or_star c) channel (c_authenticated_did c) (session_handles s !! session_id)
    (match ch with Some ch => bool_decide (session_id ∈ ops ch) | None => false end)
    (actor_class_name <$> session_actor_class s !! session_id))
  ++ match ch with
     | Some ch => if is_new then s2s_broadcast s (ChannelCreated channel (founder_did ch) (set_iter (did_ops ch)) (created_at ch))
                  else []
     | None => []
     end.

Definition topic_replies (session_id nick channel : string) (t : TopicInfo) : list Effect :=
  [Reply session_id "332" [nick; channel; tp_text t];
   Reply session_id "333" [nick; channel; tp_set_by t; pretty (tp_set_at t)]].

(** The roster a joiner gets reads each nick's flags off the session that is
    enumerated first. *)
Definition join_names (s : Server) (ch : ChannelState) : list string :=
  map (fun nf => nf.2 +:+ nf.1)
    (one_per_nick ∅ (omap (fun sid => (fun n => (n, if bool_decide (sid ∈ ops ch) then "@"
                                                    else if bool_decide (sid ∈ voiced ch) then "+" else ""))
                                      <$> get_nick (nicks s) sid) (set_iter (members ch))))
  ++ remote_names ch.

Definition welcome (s : Server) (c : Connection) (channel session_id : string) : list Effect :=
  let nick := nick_or_star c in
  let ch := channels s !! channel in
  match ch ≫= topic with Some t => topic_replies session_id nick channel t | None => [] end
  ++ [ReplayHistory session_id channel]
  ++ names_replies session_id nick channel (match ch with Some ch => join_names s ch | None => [] end)
  ++ send_actor_classes s session_id nick channel
  ++ [AvNotice session_id channel].

Definition room_welcome (s : Server) (c : Connection) (channel session_id : string) (now : Z) : Server * list Effect :=
  let '(t, s') := touch_now s channel now in
  let expires_at := default (sat_add_u64 now (room_idle_secs s)) t in
  (s', [Line session_id (":" +:+ server_name s +:+ " NOTICE " +:+ nick_or_star c +:+ " :"
                         +:+ admission_notice iso channel expires_at +:+ CRLF)]).

Definition founding_effects (s : Server) (channel : string) (did : option string) : list Effect :=
  match did with Some d => [Crdt (CrdtSetFounder channel d); Crdt (CrdtGrantOp channel d None)] | None => [] end
  ++ match channels s !! channel with Some ch => [Db (SaveChannel channel ch)] | None => [] end.

(** [now] is the clock; a registered connection has a nick. *)
Definition handle_join (gate : option PolicyGate) (s : Server) (c : Connection) (channel : string)
    (supplied_key : option string) (session_id : string) (now : Z) : Server * list Effect :=
  let nick := nick_or_star c in
  let did := c_authenticated_did c in
  if 64 <? Z.of_nat (String.length channel)
  then (s, [Reply session_id "479" [nick; channel; "Channel name too long (max 64 characters)"]])
  else if negb (c_is_oper c) && (MAX_CHANNELS_PER_USER <=? joined_count s session_id)%nat
  then (s, [Reply session_id "405" [nick; channel; "You have joined too many channels"]])
  else
    let is_new := is_new_channel s channel in
    match check_admission s c channel supplied_key session_id now with
    | AlreadyIn => (s, [])
    | Refused s1 e1 => (s1, e1)
    | Passed s1 e1 room_admitted =>
        match policy_check gate s1 channel did with
        | Err text => (s1, e1 ++ [Reply session_id "477" [nick; channel; text]])
        | Ok role =>
            let s2 := set_channels (partial_alter (enter gate is_new channel session_id did now) channel (channels s1)) s1 in
            let s3 := match role with Some r => update_channel channel (grant_role r session_id did) s2 | None => s2 end in
            let '(s4, e4) := if room_admitted then room_welcome s3 c channel session_id now else (s3, []) in
            (s4, e1 ++ (if is_new then founding_effects s2 channel did else [])
                 ++ announce_join s3 c channel session_id
                 ++ tell_peers_join s3 c channel session_id is_new
                 ++ match did with Some d => [Db (AddUserChannel d channel)] | None => [] end
                 ++ welcome s3 c channel session_id
                 ++ e4)
        end
    end.

(** ** MODE *)

Definition sign (adding : bool) : string := if adding then "+" else "-".

Definition modes_of (ch : ChannelState) : string :=
  "+" +:+ (if no_ext_msg ch then "n" else "") +:+ (if topic_locked ch then "t" else "")
  +:+ (if invite_only ch then "i" else "") +:+ (if moderated ch then "m" else "")
  +:+ (if encrypted_only ch then "E" else "") +:+ (if is_some (key ch) then "k" else "").

(** One letter of the mode string: go on with the next, or stop. *)
Inductive Flow := Next (s : Server) (e : list Effect) | Stop (s : Server) (e : list Effect).

Definition mode_line (c : Connection) (channel adding_mode : string) (arg : option string) : string :=
  ":" +:+ hostmask c +:+ " MODE " +:+ channel +:+ " " +:+ adding_mode
  +:+ match arg with Some a => " " +:+ a | None => "" end +:+ CRLF.

Definition announce_mode (s : Server) (c : Connection) (channel adding_mode : string) (arg : option string)
    : list Effect :=
  broadcast_to_channel s channel (mode_line c channel adding_mode arg)
  ++ s2s_broadcast_mode s c channel adding_mode arg.

Definition toggle (adding : bool) (x : string) (l : gset string) : gset string :=
  if adding then {[x]} ∪ l else l ∖ {[x]}.

Definition toggle_flag (m : string) (adding : bool) (sid : string) (ch : ChannelState) : ChannelState :=
  if String.eqb m "o" then set_ops (toggle adding sid (ops ch)) ch
  else if String.eqb m "h" then set_halfops (toggle adding sid (halfops ch)) ch
  else set_voiced (toggle adding sid (voiced ch)) ch.

(** The founder stays among the persistent operators. *)
Definition is_founder (ch : ChannelState) (did : string) : bool := bool_decide (founder_did ch = Some did).
Definition toggle_did_op (adding : bool) (did : string) (ch : ChannelState) : ChannelState :=
  if negb adding && is_founder ch did then ch else set_did_ops (toggle adding did (did_ops ch)) ch.

Definition crdt_op_change (s : Server) (channel session_id did : string) (adding : bool) : list Effect :=
  [Crdt (if adding then CrdtGrantOp channel did (did_of_session s session_id) else CrdtRevokeOp channel did);
   Crdt CrdtBroadcastSync].

Definition save_channel (s : Server) (channel : string) : list Effect :=
  match channels s !! channel with Some ch => [Db (SaveChannel channel ch)] | None => [] end.

(** +o, +h, +v and their removals, on a member. *)
Definition mode_member (s : Server) (c : Connection) (channel session_id : string) (m : string) (adding : bool)
    (mode_arg : option string) : Flow :=
  let nick := nick_or_star c in
  match mode_arg with
  | None => Stop s [Reply session_id "461" [nick; "MODE"; "Not enough parameters"]]
  | Some target_nick =>
      match resolve_channel_target s channel target_nick with
      | TLocal target =>
          let s1 := update_channel channel (toggle_flag m adding target) s in
          let '(s2, e2) :=
            if String.eqb m "o" then
              match did_of_session s target, channels s1 !! channel with
              | Some did, Some ch =>
                  let s2 := update_channel channel (toggle_did_op adding did) s1 in
                  (s2, (if negb adding && is_founder ch did then []
                        else crdt_op_change s channel session_id did adding)
                       ++ save_channel s2 channel)
              | _, _ => (s1, [])
              end
            else (s1, []) in
          Next s2 (e2 ++ announce_mode s2 c channel (sign adding +:+ m) (Some target_nick))
      | TRemote rm =>
          let s1 :=
            if String.eqb m "o" then
              update_channel channel (fun ch => set_remote (alter (fun r => mkRemote (rm_origin r) (rm_did r)
                (rm_handle r) adding (rm_actor_class r)) target_nick (remote_members ch)) ch) s
            else s in
          let '(s2, e2) :=
            match rm_did rm with
            | Some did =>
                if String.eqb m "o" then
                  let s2 := update_channel channel (toggle_did_op adding did) s1 in
                  (s2, save_channel s2 channel ++ crdt_op_change s channel session_id did adding)
                else (s1, [])
            | None => (s1, [])
            end in
          Next s2 (e2 ++ announce_mode s2 c channel (sign adding +:+ m) (Some target_nick))
      | TNotPresent => Stop s [Reply session_id "441" [nick; target_nick; channel; "They aren't on that channel"]]
      end
  end.

Definition MAX_BANS_PER_CHANNEL : nat := 500.
Definition MAX_INVITE_EXCEPTIONS_PER_CHANNEL : nat := 500.

Definition list_masks (session_id nick channel code : string) (l : list BanEntry) : list Effect :=
  map (fun b => Reply session_id code [nick; channel; mask b; set_by b; pretty (set_at b)]) l.

(** +b and +I: with no argument the list is shown. [None] as the new state:
    the list is full. *)
Definition add_mask (cap : nat) (b : BanEntry) (l : list BanEntry) : option (list BanEntry) :=
  if (cap <=? List.length l)%nat then None
  else Some (if has_mask (mask b) l then l else l ++ [b]).
Definition drop_mask (m : string) (l : list BanEntry) : list BanEntry :=
  List.filter (fun b => negb (String.eqb (mask b) m)) l.

Definition mode_ban (s : Server) (c : Connection) (channel session_id : string) (adding : bool)
    (mode_arg : option string) (now : Z) : Flow :=
  let nick := nick_or_star c in
  match mode_arg with
  | None =>
      if adding then
        Stop s (match channels s !! channel with
                | Some ch => list_masks session_id nick channel "367" (bans ch)
                | None => []
                end ++ [Reply session_id "368" [nick; channel; "End of channel ban list"]])
      else Stop s []
  | Some arg =>
      let m := trim arg in
      if is_empty m then Stop s []
      else
        let entry := mkBan m (hostmask c) now in
        let tell s' e := Next s' (e ++ broadcast_to_channel s' channel (mode_line c channel (sign adding +:+ "b") (Some m))
                                   ++ s2s_broadcast s' (Ban channel m nick (c_authenticated_did c) adding)) in
        if adding then
          match channels s !! channel with
          | Some ch =>
              match add_mask MAX_BANS_PER_CHANNEL entry (bans ch) with
              | None => Stop s [Reply session_id "478" [nick; channel; "Channel ban list is full"]]
              | Some l => tell (update_channel channel (set_bans l) s)
                            (if has_mask m (bans ch) then [] else [Db (AddBan channel entry)])
              end
          | None => tell s []
          end
        else tell (update_channel channel (fun ch => set_bans (drop_mask m (bans ch)) ch) s) [Db (RemoveBan channel m)]
  end.

Definition mode_exception (s : Server) (c : Connection) (channel session_id : string) (adding : bool)
    (mode_arg : option string) (now : Z) : Flow :=
  let nick := nick_or_star c in
  match mode_arg with
  | None =>
      if adding then
        Stop s (match channels s !! channel with
                | Some ch => list_masks session_id nick channel "346" (invite_exceptions ch)
                | None => []
                end ++ [Reply session_id "347" [nick; channel; "End of channel invite list"]])
      else Stop s []
  | Some arg =>
      let m := trim arg in
      if is_empty m then Stop s []
      else
        let entry := mkBan m (hostmask c) now in
        let tell s' e := Next s' (e ++ broadcast_to_channel s' channel (mode_line c channel (sign adding +:+ "I") (Some m))
                                   ++ s2s_broadcast s' (InviteException channel m nick (c_authenticated_did c) adding)) in
        if adding then
          match channels s !! channel with
          | Some ch =>
              match add_mask MAX_INVITE_EXCEPTIONS_PER_CHANNEL entry (invite_exceptions ch) with
              | None => Stop s [Reply session_id "478" [nick; channel; "Channel invite-exception list is full"]]
              | Some l => tell (update_channel channel (set_exceptions l) s)
                            (if has_mask m (invite_exceptions ch) then [] else [Db (AddInviteException channel entry)])
              end
          | None => tell s []
          end
        else tell (update_channel channel (fun ch => set_exceptions (drop_mask m (invite_exceptions ch)) ch) s)
               [Db (RemoveInviteException channel m)]
  end.

(** A room is +iE: taking either off is refused. *)
Definition refuse_room_mode_removal (s : Server) (channel nick session_id : string) : option (list Effect) :=
  match channels s !! channel with
  | Some ch => if room ch then Some [Reply session_id "477" [nick; channel; "Rooms are always +iE"]] else None
  | None => None
  end.

(** A mode that is a flag of the channel. *)
Definition mode_flag (s : Server) (c : Connection) (channel m : string) (adding : bool)
    (set_flag : bool -> ChannelState -> ChannelState) : Flow :=
  let s1 := update_channel channel (set_flag adding) s in
  Next s1 (save_channel s1 channel ++ announce_mode s1 c channel (sign adding +:+ m) None).

Definition set_invite_mode (adding : bool) (ch : ChannelState) : ChannelState :=
  let ch1 := set_invite_only adding ch in if adding then ch1 else set_invites ∅ ch1.

Definition mode_invite_only (s : Server) (c : Connection) (channel : string) (adding : bool) : Flow :=
  let s1 := update_channel channel (set_invite_mode adding) s in
  Next s1 ((if adding then [] else match channels s !! channel with Some _ => [Db (ClearInvites channel)] | None => [] end)
           ++ save_channel s1 channel ++ announce_mode s1 c channel (sign adding +:+ "i") None).

Definition mode_key (s : Server) (c : Connection) (channel session_id : string) (adding : bool)
    (mode_arg : option string) : Flow :=
  if adding then
    match mode_arg with
    | None => Stop s [Reply session_id "461" [nick_or_star c; "MODE"; "Not enough parameters"]]
    | Some k =>
        let s1 := update_channel channel (set_key (Some k)) s in
        Next s1 (save_channel s1 channel ++ announce_mode s1 c channel "+k" (Some k))
    end
  else
    let old_key := channels s !! channel ≫= key in
    let s1 := update_channel channel (set_key None) s in
    Next s1 (save_channel s1 channel
             ++ match old_key with Some k => announce_mode s1 c channel "-k" (Some k) | None => [] end).

Definition mode_char (s : Server) (c : Connection) (channel session_id : string) (adding : bool)
    (mode_arg : option string) (now : Z) (m : string) : Flow :=
  let nick := nick_or_star c in
  if existsb (String.eqb m) ["o"; "h"; "v"] then mode_member s c channel session_id m adding mode_arg
  else if String.eqb m "b" then mode_ban s c channel session_id adding mode_arg now
  else if String.eqb m "I" then mode_exception s c channel session_id adding mode_arg now
  else if String.eqb m "i" then
    match (if adding then None else refuse_room_mode_removal s channel nick session_id) with
    | Some e => Next s e
    | None => mode_invite_only s c channel adding
    end
  else if String.eqb m "t" then mode_flag s c channel m adding set_topic_locked
  else if String.eqb m "k" then mode_key s c channel session_id adding mode_arg
  else if String.eqb m "n" then mode_flag s c channel m adding set_no_ext_msg
  else if String.eqb m "m" then mode_flag s c channel m adding set_moderated
  else if String.eqb m "E" then
    match (if adding then None else refuse_room_mode_removal s channel nick session_id) with
    | Some e => Next s e
    | None => mode_flag s c channel m adding set_encrypted
    end
  else Next s [Reply session_id "472" [nick; m; "is unknown mode char to me"]].

Fixpoint mode_loop (s : Server) (c : Connection) (channel session_id : string) (adding : bool)
    (mode_arg : option string) (now : Z) (ms : list string) : Server * list Effect :=
  match ms with
  | [] => (s, [])
  | m :: rest =>
      if String.eqb m "+" then mode_loop s c channel session_id true mode_arg now rest
      else if String.eqb m "-" then mode_loop s c channel session_id false mode_arg now rest
      else match mode_char s c channel session_id adding mode_arg now m with
           | Stop s' e => (s', e)
           | Next s' e =>
               let '(s'', e') := mode_loop s' c channel session_id adding mode_arg now rest in (s'', e ++ e')
           end
  end.

Definition in_channel (s : Server) (channel session_id : string) : bool :=
  match channels s !! channel with Some ch => bool_decide (session_id ∈ members ch) | None => false end.
Definition is_op (s : Server) (channel session_id : string) : bool :=
  match channels s !! channel with Some ch => bool_decide (session_id ∈ ops ch) | None => false end.
Definition is_halfop (s : Server) (channel session_id : string) : bool :=
  match channels s !! channel with Some ch => bool_decide (session_id ∈ halfops ch) | None => false end.
Definition is_server_oper (s : Server) (session_id : string) : bool := bool_decide (session_id ∈ server_opers s).

Definition not_on_channel (session_id nick channel : string) : Effect :=
  Reply session_id "442" [nick; channel; "You're not on that channel"].
Definition not_operator (session_id nick channel text : string) : Effect :=
  Reply session_id "482" [nick; channel; text].

Definition restricted_mode (m : ascii) : bool :=
  existsb (Ascii.eqb m) ["o"; "h"; "m"; "t"; "i"; "k"; "n"; "E"]%char.

Definition handle_mode (s : Server) (c : Connection) (channel : string) (mode_str mode_arg : option string)
    (session_id : string) (now : Z) : Server * list Effect :=
  let nick := nick_or_star c in
  let op := is_op s channel session_id in
  let halfop := is_halfop s channel session_id in
  let oper := is_server_oper s session_id in
  if negb (in_channel s channel session_id) then (s, [not_on_channel session_id nick channel])
  else match mode_str with
       | None =>
           (s, [Reply session_id "324"
                  [nick; channel; match channels s !! channel with Some ch => modes_of ch | None => "+" end]])
       | Some modes =>
           if negb op && negb halfop && negb oper
           then (s, [not_operator session_id nick channel "You're not channel operator"])
           else if halfop && negb op && negb oper && str_any restricted_mode modes
           then (s, [not_operator session_id nick channel "Moderators can only set +v/-v"])
           else mode_loop s c channel session_id true mode_arg now (str_chars modes)
       end.

(** ** KICK *)

Definition kick_line (c : Connection) (channel target_nick reason : string) : string :=
  ":" +:+ hostmask c +:+ " KICK " +:+ channel +:+ " " +:+ target_nick +:+ " :" +:+ reason +:+ CRLF.

(** What follows the removal of a member known by an identity. *)
Definition forget_kicked (s : Server) (c : Connection) (channel target did : string) (is_room : bool) (now : Z)
    : Server * list Effect :=
  let '(s1, e1) :=
    if is_room then
      let s1 := update_room_db (fun db => (remove_room_member db channel did now).2) s in
      let '(_, s2, e2) := ban_did s1 channel did (default (nick_or_star c) (c_authenticated_did c)) now in (s2, e2)
    else (s, []) in
  (s1, e1 ++ if live_sibling_still_member s1 did channel target then [] else [Db (RemoveUserChannel did channel)]).

Definition kick_local (s : Server) (c : Connection) (channel target_nick reason session_id target : string) (now : Z)
    : Server * list Effect :=
  let victim_did := did_of_session s target in
  let is_room := match channels s !! channel with Some ch => room ch | None => false end in
  let room_founder := channels s !! channel ≫= founder_did in
  if is_room && is_some victim_did && bool_decide (victim_did = room_founder)
  then (s, [not_operator session_id (nick_or_star c) channel "Cannot kick the room founder"])
  else
    let s1 := update_channel channel (remove_session target) s in
    let '(s2, e2) := match victim_did with
                     | Some did => forget_kicked s1 c channel target did is_room now
                     | None => (s1, [])
                     end in
    (s2, broadcast_to_channel s channel (kick_line c channel target_nick reason) ++ e2).

Definition handle_kick (s : Server) (c : Connection) (channel target_nick reason session_id : string) (now : Z)
    : Server * list Effect :=
  let nick := nick_or_star c in
  let op := is_op s channel session_id in
  let halfop := is_halfop s channel session_id in
  let oper := is_server_oper s session_id in
  let target_is_protected :=
    match get_session (nicks s) target_nick with
    | Some sid => is_op s channel sid || is_halfop s channel sid
    | None => false
    end in
  if negb (in_channel s channel session_id) then (s, [not_on_channel session_id nick channel])
  else if negb op && negb halfop && negb oper
  then (s, [not_operator session_id nick channel "You're not channel operator"])
  else if halfop && negb op && negb oper && target_is_protected
  then (s, [not_operator session_id nick channel "Cannot kick a channel operator or moderator"])
  else match resolve_channel_target s channel target_nick with
       | TLocal target => kick_local s c channel target_nick reason session_id target now
       | TRemote _ =>
           let s1 := update_channel channel (remove_remote_member target_nick) s in
           (s1, broadcast_to_channel s channel (kick_line c channel target_nick reason)
                ++ s2s_broadcast s1 (Kick target_nick channel nick (c_authenticated_did c) reason))
       | TNotPresent => (s, [Reply session_id "441" [nick; target_nick; channel; "They aren't on that channel"]])
       end.

(** ** INVITE *)

Definition MAX_INVITES : nat := 500.

Definition add_invites (l : list string) (ch : ChannelState) : ChannelState :=
  set_invites (list_to_set l ∪ invites ch) ch.

Definition invite_peers (s : Server) (c : Connection) (channel invitee : string) : list Effect :=
  s2s_broadcast s (Invite channel invitee (nick_or_star c) (c_authenticated_did c)).

Definition handle_invite (s : Server) (c : Connection) (target_nick channel session_id : string)
    : Server * list Effect :=
  let nick := nick_or_star c in
  let is_invite_only := match channels s !! channel with Some ch => invite_only ch | None => false end in
  if negb (in_channel s channel session_id) then (s, [not_on_channel session_id nick channel])
  else if is_invite_only && negb (is_op s channel session_id) && negb (is_server_oper s session_id)
  then (s, [not_operator session_id nick channel "You're not channel operator"])
  else match resolve_network_target s target_nick with
       | NLocal target =>
           let did := did_of_session s target in
           let s1 := update_channel channel
             (fun ch => if (size (invites ch) <? MAX_INVITES)%nat
                        then add_invites (target :: match did with Some d => [d] | None => [] end) ch else ch) s in
           let invitee := default (invite_nick_token target_nick) did in
           (s1, [Db (AddInvite channel invitee (default nick (did_of_session s session_id)));
                 Reply session_id "341" [nick; target_nick; channel]]
                ++ send_to s1 [target] (":" +:+ hostmask c +:+ " INVITE " +:+ target_nick +:+ " " +:+ channel +:+ CRLF)
                ++ invite_peers s1 c channel invitee)
       | NRemote rm =>
           let s1 := update_channel channel
             (add_invites (invite_nick_token target_nick :: match rm_did rm with Some d => [d] | None => [] end)) s in
           (s1, Reply session_id "341" [nick; target_nick; channel]
                :: invite_peers s1 c channel (default (invite_nick_token target_nick) (rm_did rm)))
       | NUnknown => (s, [Reply session_id "401" [nick; target_nick; "No such nick"]])
       end.

(** ** TOPIC *)

Definition handle_topic (s : Server) (c : Connection) (channel : string) (new_topic : option string)
    (session_id : string) (now : Z) : Server * list Effect :=
  let nick := nick_or_star c in
  if negb (in_channel s channel session_id) then (s, [not_on_channel session_id nick channel])
  else match new_topic with
       | Some text =>
           let locked := match channels s !! channel with Some ch => topic_locked ch | None => false end in
           if 512 <? Z.of_nat (String.length text)
           then (s, [Reply session_id "FAIL" ["TOPIC"; "TOO_LONG"; "Topic too long (max 512 characters)"]])
           else if locked && negb (is_op s channel session_id) && negb (is_server_oper s session_id)
           then (s, [not_operator session_id nick channel "You're not channel operator"])
           else
             let s1 := update_channel channel (set_topic (Some (mkTopic text (hostmask c) now))) s in
             (s1, Crdt (CrdtSetTopic channel text nick (did_of_session s session_id))
                  :: save_channel s1 channel
                  ++ broadcast_to_channel s1 channel (":" +:+ hostmask c +:+ " TOPIC " +:+ channel +:+ " :" +:+ text +:+ CRLF)
                  ++ s2s_broadcast s1 (Topic channel text nick (c_authenticated_did c)))
       | None =>
           (s, match channels s !! channel with
               | Some ch => match topic ch with
                            | Some t => topic_replies session_id nick channel t
                            | None => [Reply session_id "331" [nick; channel; "No topic is set"]]
                            end
               | None => []
               end)
       end.

(** ** PART *)

Definition drop_member (session_id : string) (ch : ChannelState) : ChannelState :=
  set_members (members ch ∖ {[session_id]}) ch.

Definition handle_part (s : Server) (c : Connection) (channel session_id : string) : Server * list Effect :=
  let nick := nick_or_star c in
  if negb (in_channel s channel session_id) then (s, [not_on_channel session_id nick channel])
  else
    let part_msg := ":" +:+ hostmask c +:+ " PART " +:+ channel +:+ CRLF in
    let still s := match c_authenticated_did c with
                   | Some did => live_sibling_still_member s did channel session_id
                   | None => false
                   end in
    let s1 := update_channel channel (drop_member session_id) s in
    (s1, (if still s then [Line session_id part_msg] else broadcast_to_channel s channel part_msg)
         ++ match c_authenticated_did c with
            | Some did => if still s1 then [] else [Db (RemoveUserChannel did channel)]
            | None => []
            end
         ++ if still s then [] else s2s_broadcast s1 (Part nick channel)).
End Commands.
