(* ===== verification/Pins.v ===== *)
(** * Pinned messages

    The PIN and UNPIN commands of [freeq-server/src/connection/mod.rs] and the
    list of pins a channel keeps, newest first. [root_msgid] is the database's
    answer to which message an id is a revision of. *)

From stdpp Require Import base gmap strings list fin_maps.
From Stdlib Require Import ZArith Lia String Ascii.
From S2P Require Import Prelude IrcMessage NickMap RoomTables S2sMessage Channel ChannelOps.
Open Scope string_scope.
Open Scope list_scope.
Open Scope Z_scope.

Definition MAX_PINS : nat := 50.

Definition is_pinned (msgid : string) (l : list PinnedMessage) : bool :=
  existsb (fun p => String.eqb (pin_msgid p) msgid) l.
Definition add_pin (p : PinnedMessage) (l : list PinnedMessage) : list PinnedMessage := take MAX_PINS (p :: l).
Definition drop_pin (msgid : string) (l : list PinnedMessage) : list PinnedMessage :=
  List.filter (fun p => negb (String.eqb (pin_msgid p) msgid)) l.

Definition SOH : string := String "001" "".
Definition action_text (action : string) : string := SOH +:+ "ACTION " +:+ action +:+ " a message" +:+ SOH.

Section Pins.
Context {CF : CaseFold} {HO : HashOrder}.

Definition pin_notice (tag nick host channel msgid action : string) : string :=
  "@" +:+ tag +:+ "=" +:+ escape_tag_value msgid +:+ " :" +:+ nick +:+ "!~u@" +:+ host +:+ " NOTICE " +:+ channel
  +:+ " :" +:+ action_text action +:+ CRLF.

Definition handle_pin (root_msgid : string -> string) (s : Server) (c : Connection) (is_pin : bool)
    (channel msgid session_id : string) (now : Z) : Server * list Effect :=
  let nick := nick_or_star c in
  let op := match channels s !! channel with Some ch => bool_decide (session_id ∈ ops ch) | None => false end in
  if negb op && negb (bool_decide (session_id ∈ server_opers s))
  then (s, [Reply session_id "482" [nick; channel; "You're not channel operator"]])
  else
    let msgid := root_msgid msgid in
    match channels s !! channel with
    | None => (s, [])
    | Some ch =>
        if is_pin then
          if is_pinned msgid (pins ch)
          then (s, [Reply session_id "NOTICE" [nick; "Message " +:+ msgid +:+ " is already pinned in " +:+ channel]])
          else
            let ch' := set_pins (add_pin (mkPin msgid nick now) (pins ch)) ch in
            let s' := update_channel channel (fun _ => ch') s in
            (s', [Db (SaveChannel channel ch'); Db (StorePin channel msgid nick now)]
                 ++ broadcast_to_channel s' channel (pin_notice "+freeq.at/pin" nick "host" channel msgid "pinned")
                 ++ s2s_broadcast s' (Pin channel msgid nick (c_authenticated_did c) true))
        else if is_pinned msgid (pins ch) then
          let s' := update_channel channel (fun ch => set_pins (drop_pin msgid (pins ch)) ch) s in
          (s', [Db (RemovePin channel msgid)]
               ++ broadcast_to_channel s' channel (pin_notice "+freeq.at/unpin" nick "host" channel msgid "unpinned")
               ++ s2s_broadcast s' (Pin channel msgid nick (c_authenticated_did c) false))
        else (s, [Reply session_id "NOTICE" [nick; "Message " +:+ msgid +:+ " is not pinned in " +:+ channel]])
    end.
End Pins.

(** ** The list *)

Record pins_ok (l : list PinnedMessage) : Prop := {
  pins_distinct : NoDup (pin_msgid <$> l);
  pins_bounded : (List.length l <= MAX_PINS)%nat
}.

Lemma no_pins_ok : pins_ok [].
Proof. split; [constructor|unfold MAX_PINS; simpl; lia]. Qed.

Lemma is_pinned_spec msgid l : is_pinned msgid l = true <-> msgid ∈ (pin_msgid <$> l).
Proof.
  unfold is_pinned. rewrite existsb_exists, list_elem_of_fmap. split.
  - intros (p & Hp & E). apply String.eqb_eq in E. exists p. by rewrite list_elem_of_In.
  - intros (p & -> & Hp). exists p. rewrite <- list_elem_of_In. split; [done|apply String.eqb_refl].
Qed.

Lemma add_pin_ok p l : is_pinned (pin_msgid p) l = false -> pins_ok l -> pins_ok (add_pin p l).
Proof.
  intros Hp [Hd Hb]. unfold add_pin. split.
  - rewrite fmap_take. eapply sublist_NoDup; [|apply sublist_take].
    cbn [fmap list_fmap]. constructor; [|done]. intros H. apply is_pinned_spec in H. congruence.
  - rewrite length_take. lia.
Qed.

Lemma drop_pin_ok msgid l : pins_ok l -> pins_ok (drop_pin msgid l).
Proof.
  intros [Hd Hb]. assert (drop_pin msgid l `sublist_of` l) as Hs.
  { unfold drop_pin. induction l as [|p l IH]; simpl; [done|].
    apply NoDup_cons in Hd as [_ Hd]. simpl in Hb. specialize (IH Hd ltac:(lia)).
    destruct (String.eqb _ _); simpl; by constructor. }
  split; [by eapply sublist_NoDup, fmap_sublist, Hs|].
  apply sublist_length in Hs. unfold MAX_PINS in *. lia.
Qed.
