(* ===== verification/ChannelInv.v ===== *)
(** * What every channel command keeps true

    The invariant of the channels over every sequence of local commands of
    [ChannelOps] and [Rooms], and what the commands say to peers. *)

From stdpp Require Import base gmap strings list fin_maps.
From Stdlib Require Import ZArith Lia String Ascii.
From S2P Require Import Prelude PolicyStore NickMap RoomTables S2sMessage Channel Rooms ChannelOps Pins.
Open Scope string_scope.
Open Scope list_scope.
Open Scope Z_scope.

Record channel_ok (ch : ChannelState) : Prop := {
  founder_has_op : forall d, founder_did ch = Some d -> d ∈ did_ops ch;
  room_is_locked : room ch = true -> invite_only ch = true /\ encrypted_only ch = true;
  bans_distinct : NoDup (mask <$> bans ch);
  exceptions_distinct : NoDup (mask <$> invite_exceptions ch);
  bans_bounded : room ch = false -> (List.length (bans ch) <= MAX_BANS_PER_CHANNEL)%nat;
  exceptions_bounded : (List.length (invite_exceptions ch) <= MAX_INVITE_EXCEPTIONS_PER_CHANNEL)%nat;
  pins_in_order : pins_ok (pins ch)
}.

(** The rooms are listed where the broadcast looks. *)
Record server_ok (s : Server) : Prop := {
  all_channels_ok : forall n ch, channels s !! n = Some ch -> channel_ok ch;
  rooms_listed : forall n ch, channels s !! n = Some ch -> room ch = true -> n ∈ room_names s
}.

(** A change of a channel that keeps it well formed and its kind. *)
Definition keeps (f : ChannelState -> ChannelState) : Prop :=
  forall ch, channel_ok ch -> channel_ok (f ch) /\ room (f ch) = room ch.

(** Nothing of the effects tells a peer about a room. *)
Definition quiet (rooms : gset string) `{CaseFold} (e : Effect) : Prop :=
  match e with
  | Peers m => forall c, channel_name m = Some c -> to_lowercase c ∉ rooms
  | _ => True
  end.

Definition step_ok `{CaseFold} (s : Server) (r : Server * list Effect) : Prop :=
  server_ok r.1 /\ room_names r.1 = room_names s /\ Forall (quiet (room_names s)) r.2.

Create HintDb chan.

Section Keeps.
Context {CF : CaseFold} {TR : @Trim CF} {HO : HashOrder} {SO : SqlOrder}.

Lemma default_channel_ok : channel_ok default_channel.
Proof. split; simpl; intros; try done; try apply no_pins_ok; try constructor; lia. Qed.

Lemma keeps_id : keeps (fun ch => ch).
Proof. by intros ch. Qed.

Lemma keeps_comp f g : keeps f -> keeps g -> keeps (fun ch => f (g ch)).
Proof. intros Hf Hg ch Hc. destruct (Hg ch Hc) as [H1 <-]. by apply Hf. Qed.

Lemma keeps_if (b : ChannelState -> bool) f g : keeps f -> keeps g -> keeps (fun ch => if b ch then f ch else g ch).
Proof. intros Hf Hg ch Hc. destruct (b ch); auto. Qed.

(** Fields the invariant does not mention. *)
Lemma keeps_frame (f : ChannelState -> ChannelState) :
  (forall ch, founder_did (f ch) = founder_did ch /\ did_ops (f ch) = did_ops ch /\ room (f ch) = room ch /\
     (invite_only (f ch) = invite_only ch) /\ (encrypted_only (f ch) = encrypted_only ch) /\
     bans (f ch) = bans ch /\ invite_exceptions (f ch) = invite_exceptions ch /\ pins (f ch) = pins ch) -> keeps f.
Proof.
  intros H ch []. destruct (H ch) as (E1 & E2 & E3 & E4 & E5 & E6 & E7 & E8).
  split; [split; rewrite ?E1, ?E2, ?E3, ?E4, ?E5, ?E6, ?E7, ?E8; auto|done].
Qed.

Lemma keeps_did_ops (g : ChannelState -> gset string) :
  (forall ch d, founder_did ch = Some d -> d ∈ did_ops ch -> d ∈ g ch) -> keeps (fun ch => set_did_ops (g ch) ch).
Proof. intros H ch []. split; [split; simpl; eauto|done]. Qed.

Lemma keeps_toggle_did_op adding did : keeps (toggle_did_op adding did).
Proof.
  intros ch Hc. unfold toggle_did_op. destruct (negb adding && is_founder ch did) eqn:E; [done|].
  destruct Hc. split; [split; simpl; auto|done]. intros d Hd. specialize (founder_has_op0 d Hd).
  unfold toggle. destruct adding; [set_solver|]. unfold is_founder in E. simpl in E.
  apply bool_decide_eq_false in E. set_solver.
Qed.

Lemma keeps_add_invites l : keeps (add_invites l).
Proof. by apply keeps_frame. Qed.
Lemma keeps_remove_session sid : keeps (remove_session sid).
Proof. by apply keeps_frame. Qed.
Lemma keeps_drop_member sid : keeps (drop_member sid).
Proof. by apply keeps_frame. Qed.
Lemma keeps_spend sid nick did : keeps (spend_invite sid nick did).
Proof. by apply keeps_frame. Qed.
Lemma keeps_toggle_flag m adding sid : keeps (toggle_flag m adding sid).
Proof. apply keeps_frame. intros ch. unfold toggle_flag. by repeat case_match. Qed.
Lemma keeps_remote (g : ChannelState -> gmap string RemoteMember) : keeps (fun ch => set_remote (g ch) ch).
Proof. by apply keeps_frame. Qed.
Lemma keeps_remove_remote nick : keeps (remove_remote_member nick).
Proof. apply keeps_frame. intros ch. unfold remove_remote_member. by destruct (remote_entry ch nick) as [[]|]. Qed.
Lemma keeps_topic t : keeps (set_topic t).
Proof. by apply keeps_frame. Qed.
Lemma keeps_topic_locked b : keeps (set_topic_locked b).
Proof. by apply keeps_frame. Qed.
Lemma keeps_no_ext b : keeps (set_no_ext_msg b).
Proof. by apply keeps_frame. Qed.
Lemma keeps_moderated b : keeps (set_moderated b).
Proof. by apply keeps_frame. Qed.
Lemma keeps_key k : keeps (set_key k).
Proof. by apply keeps_frame. Qed.

Lemma keeps_fold (f : string -> ChannelState -> ChannelState) l :
  (forall x, keeps (f x)) -> keeps (fun ch => fold_left (fun c x => f x c) l ch).
Proof.
  intros H. induction l as [|x l IH]; simpl; [apply keeps_id|].
  intros ch Hc. destruct (H x ch Hc) as [H1 <-]. by apply IH.
Qed.

Lemma has_mask_false m l : has_mask m l = false <-> m ∉ (mask <$> l).
Proof.
  unfold has_mask. rewrite existsb_false. split.
  - intros H (b & -> & Hb)%list_elem_of_fmap. specialize (H b). rewrite <- list_elem_of_In, String.eqb_refl in H.
    by specialize (H Hb).
  - intros H b Hb. apply String.eqb_neq. intros <-. apply H, list_elem_of_fmap. exists b.
    by rewrite list_elem_of_In.
Qed.

Lemma drop_mask_sublist m l : drop_mask m l `sublist_of` l.
Proof.
  induction l as [|b l IH]; simpl; [done|]. destruct (negb _); [by apply sublist_skip|by apply sublist_cons].
Qed.

Lemma drop_mask_NoDup m l : NoDup (mask <$> l) -> NoDup (mask <$> drop_mask m l).
Proof. intros H. eapply sublist_NoDup; [exact H|]. apply fmap_sublist, drop_mask_sublist. Qed.

Lemma drop_mask_length m l : (List.length (drop_mask m l) <= List.length l)%nat.
Proof. apply sublist_length, drop_mask_sublist. Qed.

Lemma snoc_mask_NoDup b l : has_mask (mask b) l = false -> NoDup (mask <$> l) -> NoDup (mask <$> l ++ [b]).
Proof.
  rewrite has_mask_false, fmap_app. intros Hb Hl. apply NoDup_app. split_and!; [done| |apply NoDup_singleton].
  intros x Hx ->%list_elem_of_singleton. done.
Qed.

Lemma add_mask_ok cap b l l' :
  add_mask cap b l = Some l' -> NoDup (mask <$> l) -> NoDup (mask <$> l') /\ (List.length l <= cap -> List.length l' <= cap)%nat.
Proof.
  unfold add_mask. destruct (cap <=? List.length l)%nat eqn:Ec; [done|]. bool_hyps. intros [= <-] Hl.
  destruct (has_mask (mask b) l) eqn:Eh; [done|]. split; [by apply snoc_mask_NoDup|]. rewrite length_app. simpl. lia.
Qed.

Lemma keeps_drop_ban m : keeps (fun ch => set_bans (drop_mask m (bans ch)) ch).
Proof.
  intros ch []. split; [split; simpl; auto using drop_mask_NoDup|done].
  intros Hr. etrans; [apply drop_mask_length|auto].
Qed.
Lemma keeps_drop_pin m : keeps (fun ch => set_pins (drop_pin m (pins ch)) ch).
Proof. intros ch []. split; [split; simpl; auto using drop_pin_ok|done]. Qed.

Lemma keeps_drop_exception m : keeps (fun ch => set_exceptions (drop_mask m (invite_exceptions ch)) ch).
Proof.
  intros ch []. split; [split; simpl; auto using drop_mask_NoDup|done].
  etrans; [apply drop_mask_length|auto].
Qed.

Lemma keeps_founding sid did now ch :
  channel_ok ch -> founder_did ch = None -> channel_ok (found_channel sid did now ch) /\ room (found_channel sid did now ch) = room ch.
Proof.
  intros [] Hf. unfold found_channel. destruct did as [d|]; split; try done; split; simpl; auto.
  intros d' [= ->]. set_solver.
Qed.

Lemma keeps_auto_op gate channel sid did : keeps (auto_op gate channel sid did).
Proof. apply keeps_frame. intros ch. unfold auto_op. by case_match. Qed.

Lemma keeps_grant role sid did : keeps (grant_role role sid did).
Proof.
  unfold grant_role. intros ch Hc. destruct (existsb _ _).
  - destruct Hc. destruct did; (split; [split; simpl; auto|done]). intros. set_solver.
  - destruct (existsb _ _); [|destruct (existsb _ _)]; [by apply (keeps_frame (set_halfops _))|by apply (keeps_frame (set_voiced _))|done].
Qed.

Lemma keeps_invite_mode adding ch :
  channel_ok ch -> (adding = false -> room ch = false) ->
  channel_ok (set_invite_mode adding ch) /\ room (set_invite_mode adding ch) = room ch.
Proof.
  intros [] Hr. destruct adding; split; try done; split; simpl; auto; intros Hx.
  - by destruct (room_is_locked0 Hx).
  - by rewrite Hr in Hx.
Qed.

Lemma keeps_encrypted adding ch :
  channel_ok ch -> (adding = false -> room ch = false) ->
  channel_ok (set_encrypted adding ch) /\ room (set_encrypted adding ch) = room ch.
Proof.
  intros [] Hr. split; [|done]. split; simpl; auto. intros Hx. destruct (room_is_locked0 Hx). split; [done|].
  destruct adding; [done|]. by rewrite Hr in Hx.
Qed.
End Keeps.

#[export] Hint Resolve keeps_id keeps_toggle_did_op keeps_add_invites keeps_remove_session keeps_drop_member
  keeps_spend keeps_toggle_flag keeps_remote keeps_remove_remote keeps_topic keeps_topic_locked keeps_no_ext
  keeps_moderated keeps_key keeps_drop_ban keeps_drop_pin keeps_drop_exception keeps_auto_op keeps_grant : chan.

(** ** Servers *)

Section Server.
Context {CF : CaseFold} {TR : @Trim CF} {HO : HashOrder} {SO : SqlOrder}.

Lemma update_at_ok n f s :
  server_ok s ->
  (forall ch, channels s !! n = Some ch -> channel_ok ch -> channel_ok (f ch) /\ room (f ch) = room ch) ->
  server_ok (update_channel n f s).
Proof.
  intros [H1 H2] Hf. split; simpl; intros k ch.
  - rewrite lookup_alter_Some. intros [(-> & ch' & Hc & ->)|[_ Hc]]; [|eauto]. by apply Hf; eauto.
  - rewrite lookup_alter_Some. intros [(-> & ch' & Hc & ->)|[_ Hc]]; [|eauto].
    destruct (Hf ch' Hc (H1 _ _ Hc)) as [_ ->]. eauto.
Qed.

Lemma update_ok n f s : server_ok s -> keeps f -> server_ok (update_channel n f s).
Proof. intros Hs Hf. apply update_at_ok; auto. Qed.

Lemma room_db_ok db s : server_ok s -> server_ok (set_room_db db s).
Proof. by intros []. Qed.

Lemma quiet_send R s l line : Forall (quiet R) (send_to s l line).
Proof. unfold send_to. rewrite Forall_forall. intros e He. apply list_elem_of_In, in_map_iff in He as (x & <- & _). done. Qed.

Lemma quiet_broadcast R s ch line : Forall (quiet R) (broadcast_to_channel s ch line).
Proof. unfold broadcast_to_channel. destruct (channels s !! ch); [apply quiet_send|constructor]. Qed.

Lemma quiet_s2s R s m : room_names s = R -> Forall (quiet R) (s2s_broadcast s m).
Proof.
  intros <-. unfold s2s_broadcast. destruct (channel_name m) as [c|] eqn:Ec.
  - case_bool_decide; [constructor|]. destruct (s2s_manager s); repeat constructor. simpl. intros c'. by rewrite Ec; intros [= <-].
  - destruct (s2s_manager s); repeat constructor. simpl. intros c'. by rewrite Ec.
Qed.

Lemma quiet_announce R s c ch m a : room_names s = R -> Forall (quiet R) (announce_mode s c ch m a).
Proof. intros H. unfold announce_mode. apply Forall_app_2; [apply quiet_broadcast|by apply quiet_s2s]. Qed.

Lemma quiet_save R s ch : Forall (quiet R) (save_channel s ch).
Proof. unfold save_channel. destruct (channels s !! ch); repeat constructor. Qed.

Lemma quiet_map {A} R (f : A -> Effect) l : (forall x, quiet R (f x)) -> Forall (quiet R) (map f l).
Proof. intros H. induction l; simpl; constructor; auto. Qed.

Lemma quiet_flat_map {A} R (f : A -> list Effect) l : (forall x, Forall (quiet R) (f x)) -> Forall (quiet R) (flat_map f l).
Proof. intros H. induction l; simpl; [constructor|apply Forall_app_2; auto]. Qed.

Lemma quiet_actor_classes R s sid nick ch : Forall (quiet R) (send_actor_classes s sid nick ch).
Proof. unfold send_actor_classes. destruct (channels s !! ch); [by apply quiet_map|constructor]. Qed.
End Server.

#[export] Hint Resolve update_ok room_db_ok : chan.

(** Goals on lists of effects. *)
Ltac quiet_tac :=
  repeat match goal with
  | |- Forall _ (_ ++ _) => apply Forall_app_2
  | |- Forall _ (_ :: _) => constructor
  | |- Forall _ [] => constructor
  | |- quiet _ _ => exact I
  | |- Forall _ (send_to _ _ _) => apply quiet_send
  | |- Forall _ (broadcast_to_channel _ _ _) => apply quiet_broadcast
  | |- Forall _ (announce_mode _ _ _ _ _) => apply quiet_announce
  | |- Forall _ (s2s_broadcast _ _) => apply quiet_s2s
  | |- Forall _ (invite_peers _ _ _ _) => apply quiet_s2s
  | |- Forall _ (save_channel _ _) => apply quiet_save
  | |- Forall _ (crdt_op_change _ _ _ _ _) => unfold crdt_op_change
  | |- Forall _ (list_masks _ _ _ _ _) => unfold list_masks
  | |- Forall _ (topic_replies _ _ _ _) => unfold topic_replies
  | |- Forall _ (names_replies _ _ _ _) => unfold names_replies
  | |- Forall _ (send_actor_classes _ _ _ _) => apply quiet_actor_classes
  | |- Forall _ (map _ _) => apply quiet_map; intros ?
  | |- Forall _ (flat_map _ _) => apply quiet_flat_map; intros ?
  | |- Forall _ (match ?x with _ => _ end) => destruct x
  | |- room_names _ = room_names _ => reflexivity
  end.

Ltac step_tac := split; [|split]; simpl; [eauto 8 with chan|reflexivity|quiet_tac].

Section Steps.
Context {CF : CaseFold} {TR : @Trim CF} {HO : HashOrder} {SO : SqlOrder}
  (token_hash : string -> string) (iso : Z -> string).

Lemma step_refuse s e : server_ok s -> Forall (quiet (room_names s)) e -> step_ok s (s, e).
Proof. intros. by split; [|split]. Qed.

Lemma step_trans s r1 r2 e :
  step_ok s r1 -> step_ok r1.1 r2 -> e = r1.2 ++ r2.2 -> step_ok s (r2.1, e).
Proof.
  intros (H1 & E1 & F1) (H2 & E2 & F2) ->. split; [|split]; simpl; [done|congruence|].
  rewrite E1 in F2. by apply Forall_app_2.
Qed.

Definition flow_ok (s : Server) (f : Flow) : Prop :=
  match f with Next s' e | Stop s' e => step_ok s (s', e) end.

Lemma mode_member_ok s c channel sid m adding arg :
  server_ok s -> flow_ok s (mode_member s c channel sid m adding arg).
Proof.
  intros H. unfold mode_member. destruct arg as [n|]; [|by step_tac].
  destruct (resolve_channel_target s channel n) as [t|rm|]; [| |by step_tac].
  - destruct (String.eqb m "o"); [|by step_tac].
    destruct (did_of_session s t) as [d|]; [|by step_tac].
    destruct (channels _ !! channel) as [ch|]; [|by step_tac]. step_tac.
  - destruct (rm_did rm) as [d|]; destruct (String.eqb m "o"); step_tac.
Qed.

Lemma mode_ban_ok s c channel sid adding arg now :
  server_ok s -> flow_ok s (mode_ban s c channel sid adding arg now).
Proof.
  intros H. unfold mode_ban. destruct arg as [a|]; [|destruct adding; step_tac].
  destruct (is_empty (trim a)); [by step_tac|]. destruct adding; [|by step_tac].
  destruct (channels s !! channel) as [ch|] eqn:Hc; [|by step_tac].
  destruct (add_mask _ _ _) as [l|] eqn:Ha; [|by step_tac].
  split; [|split]; simpl; [|reflexivity|quiet_tac].
  apply update_at_ok; [done|]. intros ch' Hc' []. assert (ch' = ch) as -> by congruence.
  destruct (add_mask_ok _ _ _ _ Ha) as [HN HL]; [done|]. split; [split; simpl; auto|done].
Qed.

Lemma mode_exception_ok s c channel sid adding arg now :
  server_ok s -> flow_ok s (mode_exception s c channel sid adding arg now).
Proof.
  intros H. unfold mode_exception. destruct arg as [a|]; [|destruct adding; step_tac].
  destruct (is_empty (trim a)); [by step_tac|]. destruct adding; [|by step_tac].
  destruct (channels s !! channel) as [ch|] eqn:Hc; [|by step_tac].
  destruct (add_mask _ _ _) as [l|] eqn:Ha; [|by step_tac].
  split; [|split]; simpl; [|reflexivity|quiet_tac].
  apply update_at_ok; [done|]. intros ch' Hc' []. assert (ch' = ch) as -> by congruence.
  destruct (add_mask_ok _ _ _ _ Ha) as [HN HL]; [done|]. split; [split; simpl; auto|done].
Qed.

(** The refusal is what keeps a room locked. *)
Lemma not_refused s channel nick sid (adding : bool) :
  (if adding then None else refuse_room_mode_removal s channel nick sid) = None ->
  forall ch, channels s !! channel = Some ch -> adding = false -> room ch = false.
Proof.
  intros Hr ch Hc ->. unfold refuse_room_mode_removal in Hr. rewrite Hc in Hr. by destruct (room ch).
Qed.

Lemma mode_char_ok s c channel sid adding arg now m :
  server_ok s -> flow_ok s (mode_char s c channel sid adding arg now m).
Proof.
  intros H. unfold mode_char.
  destruct (existsb _ _); [by apply mode_member_ok|].
  destruct (String.eqb m "b"); [by apply mode_ban_ok|].
  destruct (String.eqb m "I"); [by apply mode_exception_ok|].
  destruct (String.eqb m "i").
  { destruct (if adding then None else _) as [e|] eqn:Hr.
    - destruct adding; [done|]. unfold refuse_room_mode_removal in Hr. repeat case_match; simplify_eq. step_tac.
    - split; [|split]; simpl; [|reflexivity|quiet_tac]. apply update_at_ok; [done|]. intros ch Hc Hok.
      apply keeps_invite_mode; [done|]. by eapply not_refused. }
  destruct (String.eqb m "t"); [unfold mode_flag; step_tac|].
  destruct (String.eqb m "k"); [unfold mode_key; repeat case_match; step_tac|].
  destruct (String.eqb m "n"); [unfold mode_flag; step_tac|].
  destruct (String.eqb m "m"); [unfold mode_flag; step_tac|].
  destruct (String.eqb m "E"); [|by step_tac].
  destruct (if adding then None else _) as [e|] eqn:Hr.
  - destruct adding; [done|]. unfold refuse_room_mode_removal in Hr. repeat case_match; simplify_eq. step_tac.
  - split; [|split]; simpl; [|reflexivity|quiet_tac]. apply update_at_ok; [done|]. intros ch Hc Hok.
    apply keeps_encrypted; [done|]. by eapply not_refused.
Qed.

Lemma mode_loop_ok c channel sid arg now ms : forall s adding,
  server_ok s -> step_ok s (mode_loop s c channel sid adding arg now ms).
Proof.
  induction ms as [|m ms IH]; intros s adding H; simpl; [by step_tac|].
  destruct (String.eqb m "+"); [by apply IH|]. destruct (String.eqb m "-"); [by apply IH|].
  pose proof (mode_char_ok s c channel sid adding arg now m H) as Hm.
  destruct (mode_char _ _ _ _ _ _ _ _) as [s' e|s' e]; [|done].
  pose proof (IH s' adding (proj1 Hm)) as Hl. destruct (mode_loop _ _ _ _ _ _ _ _) as [s'' e'].
  by apply (step_trans s (s', e) (s'', e')).
Qed.

Lemma handle_mode_ok s c channel ms arg sid now :
  server_ok s -> step_ok s (handle_mode s c channel ms arg sid now).
Proof.
  intros H. unfold handle_mode. destruct (negb (in_channel _ _ _)); [by step_tac|]. destruct ms as [ms|]; [|by step_tac].
  destruct (_ && _ && _); [by step_tac|]. destruct (_ && _ && _ && _); [by step_tac|]. by apply mode_loop_ok.
Qed.

Lemma ban_did_ok s channel did by_ now :
  server_ok s -> (forall ch, channels s !! channel = Some ch -> room ch = true) ->
  step_ok s (let '(_, s', e) := ban_did s channel did by_ now in (s', e)).
Proof.
  intros H Hr. unfold ban_did. destruct (channels s !! channel) as [ch|] eqn:Hc; [|by step_tac].
  destruct (has_mask did (bans ch)) eqn:Hm; [by step_tac|].
  split; [|split]; simpl; [|reflexivity|quiet_tac]. apply update_at_ok; [done|].
  intros ch' Hc' []. assert (ch' = ch) as -> by congruence. split; [|done].
  split; simpl; auto; [by apply snoc_mask_NoDup|]. intros Hx. by rewrite Hr in Hx.
Qed.

Lemma kick_sessions_ok s channel l reason :
  server_ok s -> step_ok s (let '(_, s', e) := kick_sessions s channel l reason in (s', e)).
Proof.
  intros H. unfold kick_sessions. destruct (channels s !! channel) as [ch|]; [|by step_tac].
  destruct (List.filter _ l) as [|x present]; [by step_tac|].
  split; [|split]; simpl; [|reflexivity|quiet_tac]. apply update_ok; [done|].
  apply (keeps_fold remove_session (x :: present)). intros y. apply keeps_remove_session.
Qed.

Lemma forget_kicked_ok s c channel target did is_room now :
  server_ok s -> (is_room = true -> forall ch, channels s !! channel = Some ch -> room ch = true) ->
  step_ok s (forget_kicked s c channel target did is_room now).
Proof.
  intros H Hr. unfold forget_kicked. destruct is_room.
  - pose proof (ban_did_ok (update_room_db (fun db => (remove_room_member db channel did now).2) s) channel did
      (default (nick_or_star c) (c_authenticated_did c)) now (room_db_ok _ _ H) (Hr eq_refl)) as Hb.
    destruct (ban_did _ _ _ _ _) as [[b s'] e]. destruct Hb as (H1 & E1 & F1).
    split; [|split]; simpl; [done..|]. apply Forall_app_2; [done|quiet_tac].
  - step_tac.
Qed.

Lemma kick_local_ok s c channel n reason sid target now :
  server_ok s -> step_ok s (kick_local s c channel n reason sid target now).
Proof.
  intros H. unfold kick_local. destruct (_ && _ && _); [by step_tac|].
  assert (H1 : server_ok (update_channel channel (remove_session target) s)) by eauto with chan.
  destruct (did_of_session s target) as [did|]; [|by step_tac].
  pose proof (forget_kicked_ok (update_channel channel (remove_session target) s) c channel target did
    (match channels s !! channel with Some ch => room ch | None => false end) now H1) as Hf.
  destruct (forget_kicked _ _ _ _ _ _ _) as [s' e]. destruct Hf as (H2 & E2 & F2).
  - intros Hr ch. simpl. rewrite lookup_alter_eq. intros (x & Hx & ->)%fmap_Some. rewrite Hx in Hr. done.
  - split; [|split]; simpl; [done..|]. apply Forall_app_2; [quiet_tac|done].
Qed.

Lemma handle_kick_ok s c channel n reason sid now :
  server_ok s -> step_ok s (handle_kick s c channel n reason sid now).
Proof.
  intros H. unfold handle_kick. destruct (negb (in_channel _ _ _)); [by step_tac|].
  destruct (_ && _ && _); [by step_tac|]. destruct (_ && _ && _ && _); [by step_tac|].
  destruct (resolve_channel_target s channel n); [by apply kick_local_ok|by step_tac|by step_tac].
Qed.

Lemma handle_invite_ok s c n channel sid : server_ok s -> step_ok s (handle_invite s c n channel sid).
Proof.
  intros H. unfold handle_invite. destruct (negb (in_channel _ _ _)); [by step_tac|].
  destruct (_ && _ && _); [by step_tac|]. destruct (resolve_network_target s n); [|by step_tac|by step_tac].
  split; [|split]; simpl; [|reflexivity|quiet_tac]. apply update_ok; [done|]. apply keeps_if; auto with chan.
Qed.

Lemma handle_topic_ok s c channel t sid now : server_ok s -> step_ok s (handle_topic s c channel t sid now).
Proof.
  intros H. unfold handle_topic. destruct (negb (in_channel _ _ _)); [by step_tac|].
  destruct t as [t|]; [|destruct (channels s !! channel) as [ch|]; [destruct (topic ch)|]; by step_tac].
  destruct (_ <? _); [by step_tac|]. destruct (_ && _ && _); [by step_tac|]. step_tac.
Qed.

Lemma handle_part_ok s c channel sid : server_ok s -> step_ok s (handle_part s c channel sid).
Proof. intros H. unfold handle_part. destruct (negb (in_channel _ _ _)); step_tac. Qed.

Lemma handle_pin_ok root s c (is_pin : bool) channel msgid sid now :
  server_ok s -> step_ok s (handle_pin root s c is_pin channel msgid sid now).
Proof.
  intros H. unfold handle_pin. destruct (negb _ && negb _); [by step_tac|].
  destruct (channels s !! channel) as [ch|] eqn:Hc; [|by step_tac].
  pose proof (all_channels_ok s H _ _ Hc) as Ho.
  destruct is_pin; destruct (is_pinned _ _) eqn:Hp; try by step_tac.
  split; [|split]; simpl; [|reflexivity|quiet_tac].
  apply update_at_ok; [done|]. intros ch0 Hc0. simplify_eq. destruct Ho.
  split; [split; simpl; auto using add_pin_ok|done].
Qed.

Definition admission_ok (s : Server) (a : Admission) : Prop :=
  match a with AlreadyIn => True | Refused s' e | Passed s' e _ => step_ok s (s', e) end.

Lemma room_admission_ok s c channel k sid now :
  server_ok s -> step_ok s (let '(_, s', e) := room_admission token_hash s c channel k sid now in (s', e)).
Proof.
  intros H. unfold room_admission. destruct (c_authenticated_did c) as [d|]; [|by step_tac].
  destruct k as [k|]; destruct (room_db s) as [db|] eqn:Hdb; simpl; rewrite ?Hdb;
    try (destruct (consume_room_invite _ _ _ _) as [[] db']; simpl; rewrite ?Hdb);
    try (destruct (is_room_member _ _ _)); step_tac.
Qed.

Lemma check_admission_ok s c channel k sid now :
  server_ok s -> admission_ok s (check_admission token_hash s c channel k sid now).
Proof.
  intros H. unfold check_admission. destruct (is_new_channel s channel); [by step_tac|].
  destruct (channels s !! channel) as [ch|]; [|by step_tac]. case_bool_decide; [done|]. destruct (room ch).
  - unfold check_room. destruct (is_authority _ _); [by step_tac|]. destruct (is_banned _ _ _); [by step_tac|].
    pose proof (room_admission_ok s c channel k sid now H) as Hr.
    by destruct (room_admission _ _ _ _ _ _ _) as [[[] s'] e].
  - unfold check_channel. destruct (is_authority _ _); [by step_tac|]. 
    destruct (match key ch with Some k0 => negb (bool_decide (k = Some k0)) | None => false end); [by step_tac|].
    destruct (is_banned _ _ _); [by step_tac|]. destruct (invite_only ch); [|by step_tac].
    destruct (has_invite _ _ _ _); [by step_tac|]. destruct (_ || _); step_tac.
Qed.

Lemma enter_ok gate s s1 channel sid did now :
  server_ok s1 -> is_new_channel s channel = true -> channels s1 = channels s ->
  server_ok (set_channels (partial_alter (enter gate true channel sid did now) channel (channels s1)) s1).
Proof.
  intros [H1 H2] Hn Ec.
  assert (HF : forall ch, channels s !! channel = Some ch -> founder_did ch = None).
  { intros ch Hc. unfold is_new_channel in Hn. rewrite Hc in Hn. bool_hyps. by destruct (founder_did ch). }
  set (ch0 := default default_channel (channels s1 !! channel)).
  assert (HE : channel_ok ch0 /\ founder_did ch0 = None).
  { unfold ch0. destruct (channels s1 !! channel) as [ch|] eqn:Hc; simpl; [|split; [apply default_channel_ok|done]].
    split; [eauto|]. apply HF. by rewrite <- Ec. }
  assert (HR : room ch0 = true -> channel ∈ room_names s1).
  { unfold ch0. destruct (channels s1 !! channel) as [ch|] eqn:Hc; simpl; [|done]. eauto. }
  destruct HE as [HE HN].
  destruct (keeps_founding sid did now (set_members ({[sid]} ∪ members ch0) ch0)) as [K1 K2];
    [by apply (keeps_frame (set_members _))|done|].
  split; simpl; intros n ch.
  all: destruct (decide (n = channel)) as [->|Hne]; [rewrite lookup_partial_alter_eq|rewrite lookup_partial_alter_ne by done; eauto].
  all: unfold enter; fold ch0; intros [= <-]; rewrite ?K2; done.
Qed.

Lemma join_old_ok gate s1 channel sid did now :
  server_ok s1 ->
  server_ok (set_channels (partial_alter (enter gate false channel sid did now) channel (channels s1)) s1).
Proof.
  intros [H1 H2]. set (ch0 := default default_channel (channels s1 !! channel)).
  assert (HE : channel_ok ch0).
  { unfold ch0. destruct (channels s1 !! channel) as [ch|] eqn:Hc; simpl; [eauto|apply default_channel_ok]. }
  assert (HR : room ch0 = true -> channel ∈ room_names s1).
  { unfold ch0. destruct (channels s1 !! channel) as [ch|] eqn:Hc; simpl; [|done]. eauto. }
  assert (K : channel_ok (set_members ({[sid]} ∪ members ch0) ch0)) by by apply (keeps_frame (set_members _)).
  destruct (keeps_auto_op gate channel sid did _ K) as [K1 K2].
  split; simpl; intros n ch.
  all: destruct (decide (n = channel)) as [->|Hne]; [rewrite lookup_partial_alter_eq|rewrite lookup_partial_alter_ne by done; eauto].
  all: unfold enter; fold ch0; intros [= <-]; rewrite ?K2; done.
Qed.

Lemma admission_new s c channel k sid now :
  is_new_channel s channel = true -> check_admission token_hash s c channel k sid now = Passed s [] false.
Proof. intros H. unfold check_admission. by rewrite H. Qed.

Lemma handle_join_ok gate s c channel k sid now :
  server_ok s -> step_ok s (handle_join token_hash iso gate s c channel k sid now).
Proof.
  intros H. unfold handle_join. destruct (_ <? _); [by step_tac|]. destruct (_ && _); [by step_tac|].
  pose proof (check_admission_ok s c channel k sid now H) as Ha.
  destruct (check_admission _ _ _ _ _ _ _) as [|s1 e1|s1 e1 room] eqn:Hadm; [by step_tac|done|].
  destruct Ha as (H1 & E1 & F1). simpl in *.
  destruct (policy_check gate s1 channel (c_authenticated_did c)) as [role|text];
    [|split; [|split]; simpl; [done..|apply Forall_app_2; [done|quiet_tac]]].
  set (s2 := set_channels _ s1).
  assert (H2 : server_ok s2).
  { unfold s2. destruct (is_new_channel s channel) eqn:Hn; [|by apply join_old_ok].
    rewrite (admission_new s c channel k sid now Hn) in Hadm. injection Hadm as <- <- <-.
    by eapply enter_ok. }
  set (s3 := match role with Some r => _ | None => s2 end).
  assert (H3 : server_ok s3 /\ room_names s3 = room_names s).
  { unfold s3. destruct role; split; try done; eauto with chan. }
  destruct H3 as [H3 E3].
  assert (HE : forall e4, Forall (quiet (room_names s)) e4 -> Forall (quiet (room_names s))
    (e1 ++ (if is_new_channel s channel then founding_effects s2 channel (c_authenticated_did c) else [])
     ++ announce_join s3 c channel sid ++ tell_peers_join s3 c channel sid (is_new_channel s channel)
     ++ match c_authenticated_did c with Some d => [Db (AddUserChannel d channel)] | None => [] end
     ++ welcome s3 c channel sid ++ e4)).
  { intros e4 F4. apply Forall_app_2; [done|].
    unfold founding_effects, announce_join, tell_peers_join, welcome, names_replies, topic_replies.
    quiet_tac; done. }
  destruct room; [|split; [|split]; simpl; [done..|apply HE; constructor]].
  unfold room_welcome. destruct (touch_now s3 channel now) as [t s4] eqn:Ht.
  unfold touch_now in Ht. injection Ht as _ <-.
  split; [|split]; simpl; [by apply room_db_ok|done|apply HE; quiet_tac].
Qed.

Lemma cleanup_ok s sid : server_ok s -> step_ok s (cleanup_channel_membership s sid, []).
Proof.
  intros [H1 H2]. split; [|split]; simpl; [|reflexivity|quiet_tac]. split; simpl; intros n ch.
  all: rewrite map_lookup_filter_Some, lookup_fmap; intros [(x & Hx & ->)%fmap_Some _].
  - by apply keeps_remove_session; eauto.
  - simpl. eauto.
Qed.
End Steps.

(** ** Every sequence of commands *)

Section Run.
Context {CF : CaseFold} {TR : @Trim CF} {HO : HashOrder} {SO : SqlOrder}
  (token_hash : string -> string) (iso : Z -> string).

(** What a command may do: rooms come and go, but no other effect differs. *)
Definition run_ok (s : Server) (r : Server * list Effect) : Prop :=
  server_ok r.1 /\ Forall (quiet (room_names s)) r.2.

Lemma step_run s r : step_ok s r -> run_ok s r.
Proof. by intros (? & _ & ?). Qed.

Lemma kick_sessions_quiet R s channel l reason : Forall (quiet R) (kick_sessions s channel l reason).2.
Proof.
  unfold kick_sessions. destruct (channels s !! channel); [|constructor].
  destruct (List.filter _ l); simpl; quiet_tac.
Qed.

Lemma delete_room_ok R s channel reason :
  server_ok s -> server_ok (delete_room s channel reason).1 /\ Forall (quiet R) (delete_room s channel reason).2.
Proof.
  intros H. unfold delete_room. 
  set (l := match channels s !! to_lowercase channel with Some ch => set_iter (members ch) | None => [] end).
  pose proof (kick_sessions_ok s (to_lowercase channel) l reason H) as Hk.
  pose proof (kick_sessions_quiet R s (to_lowercase channel) l reason) as HQ.
  destruct (kick_sessions _ _ _ _) as [[ns s1] e1]. destruct Hk as ([H1 H2] & E1 & F1). simpl in *.
  split; [|quiet_tac; done].
  split; simpl; intros n ch; rewrite lookup_delete_Some; intros [Hn Hc]; [eauto|]. intros Hr.
  apply elem_of_difference. split; [eauto|]. set_solver.
Qed.

Lemma sweep_ok s now : server_ok s -> run_ok s (let '(_, s', e) := sweep_once iso s now in (s', e)).
Proof.
  intros H. unfold sweep_once. set (s1 := flush_activity s).
  assert (H1 : server_ok s1) by by destruct H.
  set (P := fun acc : SweepReport * Server * list Effect => server_ok acc.1.2 /\ Forall (quiet (room_names s)) acc.2).
  cut (P (fold_left (sweep_room iso now) (match room_db s1 with Some db => list_rooms db | None => [] end)
            (mkSweepReport [] [], s1, []))).
  { by destruct (fold_left _ _ _) as [[rep s'] e]. }
  apply fold_left_inv; [|split; [done|constructor]].
  intros [[rep s'] e] r [Hs HF]. simpl in *. unfold sweep_room. destruct (room_due s' r now).
  - destruct (delete_room_ok (room_names s) s' (rm_channel r) EXPIRED_KICK_REASON Hs) as [H2 F2].
    destruct (delete_room _ _ _) as [s2 e2]. split; [done|]. by apply Forall_app_2.
  - destruct (_ && _); [|done]. split; [by apply room_db_ok|]. simpl. apply Forall_app_2; [done|].
    unfold notice_members. quiet_tac.
Qed.

Lemma mint_ok s channel by_ token ttl m now : server_ok s -> server_ok (mint_invite token_hash s channel by_ token ttl m now).2.
Proof. intros H. unfold mint_invite. case_match; [by apply room_db_ok|done]. Qed.

Lemma create_room_ok s rate caller t ttl row names token now :
  server_ok s -> run_ok s (let '(_, s', e) := api_create_room token_hash s rate caller t ttl row names token now in (s', e)).
Proof.
  intros H. unfold api_create_room. destruct (negb rate); [by split; [done|constructor]|].
  destruct caller as [caller|]; [|by split; [done|constructor]].
  destruct (room_db s) as [db|]; [|by split; [done|constructor]].
  destruct (_ <=? _); [by split; [done|constructor]|].
  destruct (generate_room_name s row names) as [channel|] eqn:Hg; [|by split; [done|constructor]].
  apply find_some in Hg as [_ Hg]. unfold name_taken in Hg. bool_hyps.
  destruct (channels s !! channel) as [|] eqn:Hc; [done|]. destruct H as [A1 A2].
  destruct (file_room _ _ _ _ _) as [db'|].
  - set (s1 := set_room_db _ _).
    assert (Hs : server_ok s1).
    { split; simpl; intros n ch; rewrite lookup_insert_Some; intros [[<- <-]|[Hn Hch]]; eauto; [|set_solver..].
      split; simpl; intros; try done; try apply no_pins_ok; try constructor; try (lia || set_solver). }
    pose proof (mint_ok s1 channel caller token (invite_ttl_from ttl) None now Hs) as HM.
    destruct (mint_invite _ _ _ _ _ _ _ _) as [exp s2]. split; [done|repeat constructor].
  - split; [|repeat constructor]. split; simpl; intros n ch Hn; [eauto|]. intros Hr.
    apply elem_of_difference. split; [eauto|]. intros ->%elem_of_singleton. congruence.
Qed.

Lemma with_room_ok s caller name allowed text (k : string -> string -> HttpReply * Server * list Effect) :
  server_ok s ->
  (forall caller channel ch, channels s !! channel = Some ch -> room ch = true ->
     run_ok s (let '(_, s', e) := k caller channel in (s', e))) ->
  run_ok s (let '(_, s', e) := with_room s caller name allowed text (fun r => (r, s, [])) k in (s', e)).
Proof.
  intros H Hk. unfold with_room, room_lookup. destruct caller as [caller|]; [|by split; [done|constructor]].
  destruct (channels s !! room_key name) as [ch|] eqn:Hc; [|by split; [done|constructor]].
  destruct (room ch) eqn:Hr; [|by split; [done|constructor]].
  destruct (allowed _); [by eapply Hk|by split; [done|constructor]].
Qed.

Lemma remove_member_ok s caller name did now :
  server_ok s -> run_ok s (let '(_, s', e) := api_room_remove_member s caller name did now in (s', e)).
Proof.
  intros H. apply with_room_ok; [done|]. clear caller. intros caller channel ch Hc Hr.
  case_bool_decide; [by split; [done|constructor]|].
  set (s1 := update_room_db _ s). cbv zeta.
  pose proof (ban_did_ok s1 channel did caller now (room_db_ok _ _ H)) as Hb.
  destruct (ban_did s1 channel did caller now) as [[b s2] e2]. destruct Hb as (H2 & E2 & F2).
  { intros ch'. simpl. congruence. }
  pose proof (kick_sessions_ok s2 channel (set_iter (default ∅ (did_sessions s2 !! did))) "Removed from room" H2) as Hk.
  unfold kick_did. destruct (kick_sessions _ _ _ _) as [[ns s3] e3]. destruct Hk as (H3 & E3 & F3). simpl in *.
  split; [done|]. simpl. apply Forall_app_2; [done|]. by rewrite E2 in F3.
Qed.

(** The commands of users, of the sweeper and of the room endpoints. *)
Inductive command :=
  | CJoin (gate : option PolicyGate) (c : Connection) (channel : string) (key : option string) (sid : string) (now : Z)
  | CPart (c : Connection) (channel sid : string)
  | CMode (c : Connection) (channel : string) (modes arg : option string) (sid : string) (now : Z)
  | CKick (c : Connection) (channel nick reason sid : string) (now : Z)
  | CInvite (c : Connection) (nick channel sid : string)
  | CTopic (c : Connection) (channel : string) (text : option string) (sid : string) (now : Z)
  | CPin (root_msgid : string -> string) (c : Connection) (is_pin : bool) (channel msgid sid : string) (now : Z)
  | CDisconnect (sid : string)
  | CSweep (now : Z)
  | CCreateRoom (rate_ok : bool) (caller topic : option string) (ttl : option Z) (row_exists : string -> bool)
      (candidates : list string) (token : string) (now : Z)
  | CRoomInvite (rate_ok : bool) (caller : option string) (name : string) (ttl uses : option Z) (token : string) (now : Z)
  | CRevokeInvites (caller : option string) (name : string) (now : Z)
  | CKeepRoom (caller : option string) (name : string) (now : Z)
  | CRemoveMember (caller : option string) (name did : string) (now : Z).

Definition run_command (s : Server) (cmd : command) : Server * list Effect :=
  match cmd with
  | CJoin gate c ch k sid now => handle_join token_hash iso gate s c ch k sid now
  | CPart c ch sid => handle_part s c ch sid
  | CMode c ch ms a sid now => handle_mode s c ch ms a sid now
  | CKick c ch n r sid now => handle_kick s c ch n r sid now
  | CInvite c n ch sid => handle_invite s c n ch sid
  | CTopic c ch t sid now => handle_topic s c ch t sid now
  | CPin root c p ch m sid now => handle_pin root s c p ch m sid now
  | CDisconnect sid => (cleanup_channel_membership s sid, [])
  | CSweep now => let '(_, s', e) := sweep_once iso s now in (s', e)
  | CCreateRoom r c t ttl row names token now =>
      let '(_, s', e) := api_create_room token_hash s r c t ttl row names token now in (s', e)
  | CRoomInvite r c n ttl u token now =>
      let '(_, s', e) := api_room_invite token_hash s r c n ttl u token now in (s', e)
  | CRevokeInvites c n now => let '(_, s', e) := api_room_revoke_invites s c n now in (s', e)
  | CKeepRoom c n now => let '(_, s', e) := api_room_keep s c n now in (s', e)
  | CRemoveMember c n did now => let '(_, s', e) := api_room_remove_member s c n did now in (s', e)
  end.

Lemma run_command_ok s cmd : server_ok s -> run_ok s (run_command s cmd).
Proof.
  intros H. destruct cmd; simpl.
  - by apply step_run, handle_join_ok.
  - by apply step_run, handle_part_ok.
  - by apply step_run, handle_mode_ok.
  - by apply step_run, handle_kick_ok.
  - by apply step_run, handle_invite_ok.
  - by apply step_run, handle_topic_ok.
  - by apply step_run, handle_pin_ok.
  - by apply step_run, cleanup_ok.
  - by apply sweep_ok.
  - by apply create_room_ok.
  - unfold api_room_invite. destruct (negb rate_ok); [by split; [done|constructor]|].
    apply with_room_ok; [done|]. intros cl channel ch Hc Hr.
    pose proof (mint_ok s channel cl token (invite_ttl_from ttl) (max_uses_from uses) now H) as HM.
    destruct (mint_invite _ _ _ _ _ _ _ _). split; [done|constructor].
  - apply with_room_ok; [done|]. intros cl channel ch Hc Hr.
    destruct (room_db s); [|by split; [done|constructor]].
    destruct (revoke_room_invites _ _ _). split; [by apply room_db_ok|constructor].
  - apply with_room_ok; [done|]. intros cl channel ch Hc Hr.
    destruct (touch_now s channel now) as [t s1] eqn:Ht. unfold touch_now in Ht. injection Ht as _ <-.
    split; [by apply room_db_ok|constructor].
  - by apply remove_member_ok.
Qed.

(** The states the commands reach from a server with no channel. *)
Inductive reachable (s0 : Server) : Server -> Prop :=
  | reach_start : reachable s0 s0
  | reach_step s cmd : reachable s0 s -> reachable s0 (run_command s cmd).1.

Lemma reachable_server_ok s0 s : channels s0 = ∅ -> reachable s0 s -> server_ok s.
Proof.
  intros H0. induction 1 as [|s cmd _ IH]; [|by apply run_command_ok].
  split; intros n ch; by rewrite H0, lookup_empty.
Qed.

(** Whatever clients, the sweeper and the room endpoints do, a channel's
    founder stays one of its persistent operators; a room stays +i and +E; the
    masks of a ban or exception list are distinct and there are at most 500
    (the bans of a room, which removals add, excepted);
    its pins are at most 50 and distinct. *)
Theorem channels_stay_well_formed (s0 s : Server) (n : string) (ch : ChannelState) :
  channels s0 = ∅ -> reachable s0 s -> channels s !! n = Some ch -> channel_ok ch.
Proof. intros H0 Hr Hc. by eapply all_channels_ok; [eapply reachable_server_ok|]. Qed.

End Run.

(** ** Concrete runs *)

Definition hash_of (t : string) : string := "h(" +:+ t +:+ ")".
Definition no_date (_ : Z) : string := "soon".

Definition empty_server : Server :=
  mkServer ∅ (mkNames no_nicks ∅ ∅ (<["s1" := "did:plc:ana"]> (<["s2" := "did:plc:bob"]> ∅)))
    (<["did:plc:ana" := {["s1"]}]> (<["did:plc:bob" := {["s2"]}]> ∅)) {["s1"; "s2"; "s3"]} ∅ ∅ ∅ ∅ ∅ ∅ ∅ ∅ ∅
    (Some empty_room_db) true "freeq.test" 100 10.

Definition ana : Connection :=
  mkConn (Some "ana") (Some "a") None (Some "did:plc:ana") true false false false Human.
Definition bob : Connection :=
  mkConn (Some "bob") (Some "b") None (Some "did:plc:bob") true false false false Human.

Definition run_ascii : Server -> command -> Server * list Effect :=
  @run_command ascii_fold ascii_trimming map_order merge_order hash_of no_date.

Definition ana_joins : command := CJoin None ana "#cats" None "s1" 5.

Lemma channels_stay_well_formed_witness :
  exists ch, channels (run_ascii empty_server ana_joins).1 !! "#cats" = Some ch /\
    founder_did ch = Some "did:plc:ana" /\ "did:plc:ana" ∈ did_ops ch.
Proof.
  destruct (channels (run_ascii empty_server ana_joins).1 !! "#cats") as [ch|] eqn:Hch; [|by vm_compute in Hch].
  assert (Hf : founder_did ch = Some "did:plc:ana").
  { pose proof (f_equal (fun o => o ≫= founder_did) Hch) as H. simpl in H. rewrite <- H. vm_compute. reflexivity. }
  exists ch. split; [reflexivity|]. split; [exact Hf|].
  refine (founder_has_op _ (@channels_stay_well_formed ascii_fold ascii_trimming map_order merge_order hash_of no_date
    empty_server (run_ascii empty_server ana_joins).1 "#cats" ch eq_refl _ Hch) "did:plc:ana" Hf).
  apply reach_step, reach_start.
Defined.

Definition open_room : command :=
  CCreateRoom true (Some "did:plc:ana") None None (fun _ => false) ["#r-blue-sky-fox"] "tok" 5.
Definition ana_enters : command := CJoin None ana "#r-blue-sky-fox" None "s1" 6.

