(* ===== verification/ChannelSpec.v ===== *)
(** * Who may do what in a channel

    The rules the commands of [ChannelOps] enforce, stated declaratively and
    proved of the handlers, and runs that show where they fall short of what
    the comments say. *)

From stdpp Require Import base gmap strings list fin_maps.
From Stdlib Require Import ZArith Lia String Ascii.
From S2P Require Import Prelude PolicyStore PolicyEngine NickMap RoomTables S2sMessage Channel Rooms ChannelOps ChannelInv.
Open Scope string_scope.
Open Scope list_scope.
Open Scope Z_scope.
Set Default Proof Using "Type".

(** ** Admission *)

Section Membership.
Context {CF : CaseFold} {TR : @Trim CF} {HO : HashOrder} {SO : SqlOrder}.

Lemma enter_members gate new channel sid did now o :
  exists ch, enter gate new channel sid did now o = Some ch /\
    members ch = {[sid]} ∪ match o with Some x => members x | None => ∅ end.
Proof.
  unfold enter. eexists; split; [done|]. destruct new.
  - unfold found_channel. destruct did, o; reflexivity.
  - unfold auto_op. destruct (_ || _), o; reflexivity.
Qed.

Lemma grant_role_members r sid did ch : members (grant_role r sid did ch) = members ch.
Proof. unfold grant_role. destruct (existsb _ _); [by destruct did|]. destruct (existsb _ _); [done|]. by destruct (existsb _ _). Qed.

(** The membership of the server a JOIN that goes through leaves behind. *)
Lemma join_members gate s1 new channel sid did now role n x :
  let s2 := set_channels (partial_alter (enter gate new channel sid did now) channel (channels s1)) s1 in
  let s3 := match role with Some r => update_channel channel (grant_role r sid did) s2 | None => s2 end in
  in_channel s3 n x = in_channel s1 n x || bool_decide (n = channel /\ x = sid).
Proof.
  intros s2 s3.
  assert (E : in_channel s3 n x = in_channel s2 n x).
  { unfold s3. destruct role as [r|]; [|done]. unfold in_channel, update_channel; simpl.
    destruct (decide (n = channel)) as [->|Hne]; [rewrite lookup_alter_eq|by rewrite lookup_alter_ne].
    unfold s2; simpl. destruct (partial_alter _ _ _ !! channel); simpl; [by rewrite grant_role_members|done]. }
  rewrite E. unfold in_channel, s2; simpl. destruct (decide (n = channel)) as [->|Hne].
  - rewrite lookup_partial_alter_eq. destruct (enter_members gate new channel sid did now (channels s1 !! channel)) as (ch & -> & Hm).
    rewrite Hm. destruct (channels s1 !! channel); repeat case_bool_decide; simpl; try done; set_solver.
  - rewrite lookup_partial_alter_ne by done. rewrite (bool_decide_false (_ /\ _)) by naive_solver. by rewrite orb_false_r.
Qed.

End Membership.

Section Admission.
Context {CF : CaseFold} {TR : @Trim CF} {HO : HashOrder} {SO : SqlOrder} (token_hash : string -> string).

(** A room: an identity on the roster, or one that holds a live invite. *)
Definition may_enter_room (s : Server) (c : Connection) (channel : string) (supplied : option string) (now : Z) : Prop :=
  exists d db, c_authenticated_did c = Some d /\ room_db s = Some db /\
    (is_room_member db channel d = true \/
     exists token r, supplied = Some token /\ room_invites db !! token_hash token = Some r /\ usable r channel now = true).

Definition may_enter (s : Server) (c : Connection) (ch : ChannelState) (channel : string)
    (supplied : option string) (sid : string) (now : Z) : Prop :=
  let did := c_authenticated_did c in
  is_authority ch did = true \/
  is_banned ch (hostmask c) did = false /\
  if room ch then may_enter_room s c channel supplied now
  else (forall k, key ch = Some k -> supplied = Some k) /\
       (invite_only ch = true ->
        has_invite ch sid (nick_or_star c) did = true \/ is_invite_excepted ch (hostmask c) did = true \/
        delegated s ch did = true).

Definition policy_allows (gate : option PolicyGate) (s : Server) (channel : string) (did : option string) : Prop :=
  policy_of gate channel = None \/
  exists g d, gate = Some g /\ did = Some d /\
    (policy_bypass s channel d = true \/ gate_membership g channel d <> Ok None).

Lemma room_admission_spec s c channel k sid now :
  (room_admission token_hash s c channel k sid now).1.1 = true <-> may_enter_room s c channel k now.
Proof.
  unfold room_admission, may_enter_room. destruct (c_authenticated_did c) as [d|]; simpl; [|split; [done|intros (?&?&?&?)]; done].
  destruct (room_db s) as [db|] eqn:Hdb; [|split; [by destruct k; simpl; rewrite Hdb|intros (?&?&?&?&?); done]].
  assert (HX : forall d' db', Some d = Some d' -> Some db = Some db' -> d' = d /\ db' = db) by naive_solver.
  destruct k as [k|]; simpl; [unfold consume_room_invite; destruct (room_invites db !! token_hash k) as [r|] eqn:Hr;
    [destruct (usable r channel now) eqn:Hu|]; simpl|]; rewrite ?Hdb.
  { split; [intros _|done]. exists d, db. split_and!; [done..|]. right. eauto. }
  all: destruct (is_room_member db channel d) eqn:Hm; simpl;
    [split; [intros _; exists d, db; auto|done]|split; [done|]].
  all: intros (d' & db' & E1 & E2 & H); destruct (HX _ _ E1 E2) as [-> ->]; destruct H as [H|(t & q & E & H1 & H2)];
    [congruence|]; simplify_eq; congruence.
Qed.

Definition passed (a : Admission) : bool := match a with Passed _ _ _ => true | _ => false end.
Definition admission_server (s : Server) (a : Admission) : Server :=
  match a with AlreadyIn => s | Refused s' _ | Passed s' _ _ => s' end.

Lemma check_admission_spec s c channel k sid now ch :
  is_new_channel s channel = false -> channels s !! channel = Some ch -> sid ∉ members ch ->
  passed (check_admission token_hash s c channel k sid now) = true <-> may_enter s c ch channel k sid now.
Proof.
  intros Hn Hc Hm. unfold check_admission, may_enter. rewrite Hn, Hc, bool_decide_false by done. destruct (room ch).
  - unfold check_room. destruct (is_authority _ _); [split; [by left|done]|].
    destruct (is_banned _ _ _); [split; [done|naive_solver]|]. rewrite <- (room_admission_spec s c channel k sid now).
    destruct (room_admission _ _ _ _ _ _ _) as [[[] ?] ?]; simpl; naive_solver.
  - unfold check_channel. destruct (is_authority _ _); [split; [by left|done]|].
    destruct (key ch) as [k0|].
    + case_bool_decide as Hk; simpl; [|split; [done|naive_solver]].
      destruct (is_banned _ _ _); [split; [done|naive_solver]|]. destruct (invite_only ch); [|simpl; naive_solver].
      destruct (has_invite _ _ _ _); [simpl; naive_solver|].
      destruct (is_invite_excepted _ _ _), (delegated _ _ _); simpl; naive_solver.
    + destruct (is_banned _ _ _); [split; [done|naive_solver]|]. destruct (invite_only ch); [|simpl; naive_solver].
      destruct (has_invite _ _ _ _); [simpl; naive_solver|].
      destruct (is_invite_excepted _ _ _), (delegated _ _ _); simpl; naive_solver.
Qed.

(** Deciding on admission changes no membership and no authority. *)
Definition same_standing (s s' : Server) : Prop :=
  forall n, match channels s !! n, channels s' !! n with
            | Some a, Some b => members a = members b /\ founder_did a = founder_did b /\ did_ops a = did_ops b /\
                                ops a = ops b /\ remote_members a = remote_members b
            | None, None => True
            | _, _ => False
            end.

Lemma same_standing_refl s : same_standing s s.
Proof. intros n. by destruct (channels s !! n). Qed.

Lemma same_standing_eq s s' : channels s' = channels s -> same_standing s s'.
Proof. intros E n. rewrite E. by destruct (channels s !! n). Qed.

Lemma spend_standing s channel sid nick did : same_standing s (update_channel channel (spend_invite sid nick did) s).
Proof.
  intros n. simpl. destruct (decide (n = channel)) as [->|Hne].
  - rewrite lookup_alter_eq. by destruct (channels s !! channel).
  - rewrite lookup_alter_ne by done. by destruct (channels s !! n).
Qed.

Lemma check_admission_standing s c channel k sid now :
  same_standing s (admission_server s (check_admission token_hash s c channel k sid now)).
Proof.
  unfold check_admission. destruct (is_new_channel s channel); [apply same_standing_refl|].
  destruct (channels s !! channel) as [ch|]; [|apply same_standing_refl].
  case_bool_decide; [apply same_standing_refl|]. destruct (room ch).
  - unfold check_room. destruct (is_authority _ _); [apply same_standing_refl|].
    destruct (is_banned _ _ _); [apply same_standing_refl|].
    assert (E : channels (room_admission token_hash s c channel k sid now).1.2 = channels s).
    { unfold room_admission. destruct (c_authenticated_did c); [|done].
      destruct k as [k|]; destruct (room_db s) as [db|] eqn:Hdb; simpl; rewrite ?Hdb;
        try (destruct (consume_room_invite _ _ _ _) as [[] db']; simpl; rewrite ?Hdb);
        try (destruct (is_room_member _ _ _)); done. }
    destruct (room_admission _ _ _ _ _ _ _) as [[[] s'] e]; by apply same_standing_eq.
  - unfold check_channel. repeat case_match; simplify_eq; simpl; apply same_standing_refl || apply spend_standing.
Qed.

Lemma policy_check_spec gate s channel did :
  is_ok (policy_check gate s channel did) = true <-> policy_allows gate s channel did.
Proof.
  unfold policy_check, policy_allows. destruct gate as [g|]; [|split; [by left|done]].
  destruct (policy_of (Some g) channel) as [p|]; [|split; [by left|done]].
  destruct did as [d|]; [|split; [done|intros [?|(g' & d' & _ & ? & _)]; done]].
  destruct (policy_bypass s channel d) eqn:Ha; [split; [right; exists g, d; auto|done]|].
  destruct (gate_membership g channel d) as [[a|]|] eqn:Hg; simpl.
  1, 3: split; [intros _; right; exists g, d; split_and!; [done..|]; right; by rewrite Hg|done].
  split; [done|]. intros [?|(g' & d' & E1 & E2 & [H|H])]; simplify_eq; congruence.
Qed.

Lemma policy_allows_standing gate s s' channel did :
  same_standing s s' -> policy_allows gate s' channel did <-> policy_allows gate s channel did.
Proof.
  intros H. unfold policy_allows, policy_bypass, has_authority. specialize (H (str_map ascii_lower channel)).
  destruct (channels s !! _), (channels s' !! _); try done. destruct H as (_ & -> & -> & _). done.
Qed.

Context (iso : Z -> string).

Lemma join_admission_iff gate (s : Server) (c : Connection) (channel : string) (k : option string) (sid : string) (now : Z) :
  in_channel s channel sid = false ->
  let s' := (handle_join token_hash iso gate s c channel k sid now).1 in
  (in_channel s' channel sid = true <->
   Z.of_nat (String.length channel) <= 64 /\
   (c_is_oper c = true \/ (joined_count s sid < MAX_CHANNELS_PER_USER)%nat) /\
   (is_new_channel s channel = true \/
    exists ch, channels s !! channel = Some ch /\ may_enter s c ch channel k sid now) /\
   policy_allows gate s channel (c_authenticated_did c)) /\
  forall n x, (n, x) <> (channel, sid) -> in_channel s' n x = in_channel s n x.
Proof.
  intros Hin s'. unfold s', handle_join. clear s'.
  destruct (Z.ltb_spec 64 (Z.of_nat (String.length channel))) as [Hl|Hl]; [simpl; rewrite Hin; split; [split; [done|lia]|done]|].
  assert (HC : negb (c_is_oper c) && (MAX_CHANNELS_PER_USER <=? joined_count s sid)%nat = false <->
               c_is_oper c = true \/ (joined_count s sid < MAX_CHANNELS_PER_USER)%nat).
  { destruct (c_is_oper c); cbn [negb andb]; [split; [by left|done]|]. rewrite Nat.leb_gt. split; [by right|by intros [|]]. }
  destruct (negb (c_is_oper c) && _) eqn:Hcnt; [simpl; rewrite Hin; split; [split; [done|]|done]; intros (_ & H & _); apply HC in H; done|].
  pose proof (proj1 HC eq_refl) as Hlim.
  pose proof (check_admission_standing s c channel k sid now) as HS.
  assert (HP : passed (check_admission token_hash s c channel k sid now) = true <->
    is_new_channel s channel = true \/ exists ch, channels s !! channel = Some ch /\ may_enter s c ch channel k sid now).
  { destruct (is_new_channel s channel) eqn:Hn; [rewrite (admission_new _ s c channel k sid now Hn); naive_solver|].
    destruct (channels s !! channel) as [ch|] eqn:Hch; [|unfold is_new_channel in Hn; by rewrite Hch in Hn].
    rewrite (check_admission_spec s c channel k sid now ch Hn Hch).
    - split; [eauto|]. intros [?|(x & [= <-] & ?)]; done.
    - unfold in_channel in Hin. rewrite Hch in Hin. by apply bool_decide_eq_false in Hin. }
  assert (HI : forall n x, in_channel (admission_server s (check_admission token_hash s c channel k sid now)) n x = in_channel s n x).
  { intros n x. unfold in_channel. specialize (HS n). destruct (channels s !! n), (channels _ !! n); try done.
    destruct HS as [-> _]. done. }
  destruct (check_admission _ _ _ _ _ _ _) as [|s1 e1|s1 e1 rm]; simpl in *.
  - rewrite Hin. split; [split; [done|]; intros (_ & _ & H & _); by apply HP in H|done].
  - rewrite HI, Hin. split; [split; [done|]; intros (_ & _ & H & _); by apply HP in H|intros; apply HI].
  - pose proof (policy_check_spec gate s1 channel (c_authenticated_did c)) as HPC.
    rewrite (policy_allows_standing gate s s1) in HPC by done.
    destruct (policy_check gate s1 channel (c_authenticated_did c)) as [role|text]; simpl in *.
    + set (s3 := match role with Some r => _ | None => _ end).
      assert (HJ : forall n x, in_channel s3 n x = in_channel s n x || bool_decide (n = channel /\ x = sid)).
      { intros n x. unfold s3. rewrite <- (HI n x). apply join_members. }
      assert (HW : forall s4 e4, (if rm then room_welcome iso s3 c channel sid now else (s3, [])) = (s4, e4) ->
                   forall n x, in_channel s4 n x = in_channel s n x || bool_decide (n = channel /\ x = sid)).
      { intros s4 e4 E n x. rewrite <- HJ. destruct rm; [unfold room_welcome, touch_now in E|]; by injection E as <- _. }
      destruct (if rm then _ else _) as [s4 e4]. specialize (HW s4 e4 eq_refl). simpl.
      split; [rewrite HW, bool_decide_true, orb_true_r by done; split; [intros _|done]|].
      * split_and!; [done..|by apply HP|by apply HPC].
      * intros n x Hne. rewrite HW, bool_decide_false, orb_false_r by naive_solver. done.
    + rewrite HI, Hin. split; [split; [done|]; intros (_ & _ & _ & H); by apply HPC in H|intros; apply HI].
Qed.
(** C1: JOIN admits a newcomer exactly under the rules. The name is short
    enough, the limit of channels is not reached, the channel is new or the
    user may enter it (an authority of the channel always may; others must not
    be banned, and then need the key and, when it is +i, an invitation, an
    exception or a delegation; a room asks for a roster entry or a live invite
    instead), and the policy has no objection. Nobody else's membership, and no
    other channel's, changes. *)
Theorem join_admission gate (s : Server) (c : Connection) (channel : string) (k : option string) (sid : string) (now : Z) :
  in_channel s channel sid = false ->
  let s' := (handle_join token_hash iso gate s c channel k sid now).1 in
  (in_channel s' channel sid = true <->
   Z.of_nat (String.length channel) <= 64 /\
   (c_is_oper c = true \/ (joined_count s sid < MAX_CHANNELS_PER_USER)%nat) /\
   (is_new_channel s channel = true \/
    exists ch, channels s !! channel = Some ch /\ may_enter s c ch channel k sid now) /\
   policy_allows gate s channel (c_authenticated_did c)) /\
  forall n x, (n, x) <> (channel, sid) -> in_channel s' n x = in_channel s n x.
Proof. apply join_admission_iff. Qed.

(** The gate and the policy engine together. On a server whose policy store
    the engine built, whoever joins a channel that has a policy is an authority
    of it or holds an attestation for it that is on file and not invalidated. *)
Theorem join_holds_attestation (st : Store) (s : Server) (c : Connection) (channel : string)
    (k : option string) (sid : string) (now : Z) :
  in_channel s channel sid = false ->
  in_channel (handle_join token_hash iso (Some (engine_gate st)) s c channel k sid now).1 channel sid = true ->
  get_policy st channel <> None ->
  exists d, c_authenticated_did c = Some d /\
    (policy_bypass s channel d = true \/
     exists r, In r (membership_attestations st) /\ xr_state r = VALID /\
       xr_channel r = canonical_channel_id channel /\ xr_subject r = d).
Proof.
  intros Hout Hin Hp. apply join_admission_iff in Hin as (_ & _ & _ & HP); [|done].
  destruct HP as [HP|(g & d & [= <-] & Hd & H)]; [done|]. exists d. split; [done|].
  destruct H as [H|H]; [by left|right]. simpl in H. unfold check_membership in H.
  destruct (get_attestation st (canonical_channel_id channel) d) as [a|] eqn:Ha; [|done].
  apply attestation_found in Ha as (r & Hr & _ & Hv & Hc & Hs). exists r. split_and!; try done.
  rewrite Hc. apply canonical_idem.
Qed.
End Admission.

(** ** MODE *)

Section ModeAuthority.
Context {CF : CaseFold} {TR : @Trim CF} {HO : HashOrder} {SO : SqlOrder}.

(** A change of one channel, of a kind. *)
Definition changes (P : ChannelState -> ChannelState -> Prop) (channel : string) (s s' : Server) : Prop :=
  exists f, (forall ch, P ch (f ch)) /\ s' = update_channel channel f s.

Lemma update_id n s : update_channel n (fun ch => ch) s = s.
Proof. unfold update_channel. rewrite alter_id by done. by destruct s. Qed.

Lemma update_update n f g s : update_channel n f (update_channel n g s) = update_channel n (fun ch => f (g ch)) s.
Proof. unfold update_channel; simpl. by rewrite alter_alter_eq. Qed.

Lemma changes_refl P n s : (forall ch, P ch ch) -> changes P n s s.
Proof. intros H. exists (fun ch => ch). by rewrite update_id. Qed.

Lemma changes_trans P n s1 s2 s3 :
  (forall a b c, P a b -> P b c -> P a c) -> changes P n s1 s2 -> changes P n s2 s3 -> changes P n s1 s3.
Proof.
  intros HT (f & Hf & ->) (g & Hg & ->). exists (fun ch => g (f ch)). rewrite update_update. split; [|done]. eauto.
Qed.

Lemma changes_update (P : ChannelState -> ChannelState -> Prop) n f s :
  (forall ch, P ch (f ch)) -> changes P n s (update_channel n f s).
Proof. intros H. by exists f. Qed.

(** All a moderator may touch: voices, bans and invite exceptions. *)
Definition moderation (a b : ChannelState) : Prop :=
  exists v l e, b = set_exceptions e (set_bans l (set_voiced v a)).

Lemma moderation_refl a : moderation a a.
Proof. exists (voiced a), (bans a), (invite_exceptions a). by destruct a. Qed.
Lemma moderation_trans a b c : moderation a b -> moderation b c -> moderation a c.
Proof. intros (v & l & e & ->) (v' & l' & e' & ->). by exists v', l', e'. Qed.
Lemma moderation_bans l a : moderation a (set_bans l a).
Proof. exists (voiced a), l, (invite_exceptions a). by destruct a. Qed.
Lemma moderation_exceptions e a : moderation a (set_exceptions e a).
Proof. exists (voiced a), (bans a), e. by destruct a. Qed.
Lemma moderation_voice adding sid a : moderation a (toggle_flag "v" adding sid a).
Proof. exists (toggle adding sid (voiced a)), (bans a), (invite_exceptions a). by destruct a. Qed.

Definition flow_server (f : Flow) : Server := match f with Next s _ | Stop s _ => s end.

Definition anything (_ _ : ChannelState) : Prop := True.

Lemma mode_char_changes s c channel sid adding arg now m :
  changes anything channel s (flow_server (mode_char s c channel sid adding arg now m)).
Proof.
  unfold mode_char, mode_member, mode_ban, mode_exception, mode_invite_only, mode_key, mode_flag.
  repeat case_match; simplify_eq; simpl; rewrite ?update_update;
    try (by apply changes_refl); by apply changes_update.
Qed.

Lemma mode_char_moderation s c channel sid adding arg now m :
  forallb (fun r => negb (String.eqb m r)) ["o"; "h"; "m"; "t"; "i"; "k"; "n"; "E"] = true ->
  changes moderation channel s (flow_server (mode_char s c channel sid adding arg now m)).
Proof.
  simpl. intros H. bool_hyps. unfold mode_char. simpl.
  repeat match goal with Hx : m <> _ |- _ => rewrite (proj2 (String.eqb_neq _ _) Hx); clear Hx end. simpl.
  destruct (String.eqb m "v") eqn:Ev; bool_hyps; simpl.
  - subst m. unfold mode_member. destruct arg as [n|]; [|apply changes_refl, moderation_refl].
    destruct (resolve_channel_target s channel n) as [t|rm|]; simpl; [| |apply changes_refl, moderation_refl].
    + apply changes_update. intros. apply moderation_voice.
    + destruct (rm_did rm); apply changes_refl, moderation_refl.
  - destruct (String.eqb m "b"); [|destruct (String.eqb m "I"); [|apply changes_refl, moderation_refl]];
      unfold mode_ban, mode_exception; repeat case_match; simplify_eq; simpl;
      try (by apply changes_refl, moderation_refl); apply changes_update; intros ch;
      apply moderation_bans || apply moderation_exceptions.
Qed.

Lemma mode_loop_changes (P : ChannelState -> ChannelState -> Prop) (Q : string -> Prop) c channel sid arg now ms :
  (forall a, P a a) -> (forall a b d, P a b -> P b d -> P a d) ->
  (forall s adding m, Q m -> changes P channel s (flow_server (mode_char s c channel sid adding arg now m))) ->
  Forall Q ms -> forall s adding, changes P channel s (mode_loop s c channel sid adding arg now ms).1.
Proof.
  intros HR HT HM. induction 1 as [|m ms Hm _ IH]; intros s adding; simpl; [by apply changes_refl|].
  destruct (String.eqb m "+"); [apply IH|]. destruct (String.eqb m "-"); [apply IH|].
  pose proof (HM s adding m Hm) as HC. destruct (mode_char _ _ _ _ _ _ _ _) as [s' e|s' e]; [|done].
  specialize (IH s' adding). destruct (mode_loop _ _ _ _ _ _ _ _) as [s'' e']. by eapply changes_trans.
Qed.

Lemma str_chars_any p s x : In x (str_chars s) -> str_any p x = true -> str_any p s = true.
Proof.
  revert x; induction s as [|c s IH]; simpl; intros x; [done|].
  destruct (str_chars s) as [|[|d t] rest]; simpl.
  - intros [<-|[]]. simpl. by rewrite orb_false_r; intros ->.
  - intros [<-|[<-|Hx]] Hp; [simpl in Hp; by rewrite orb_false_r in Hp; rewrite Hp|done|].
    rewrite (IH x) by (by right || done). by rewrite orb_true_r.
  - destruct (continues d); intros [<-|Hx] Hp.
    + simpl in Hp. apply orb_true_iff in Hp as [Hp|Hp]; [by rewrite Hp|].
      rewrite (IH (String d t)) by (by left || done). by rewrite orb_true_r.
    + rewrite (IH x) by (by right || done). by rewrite orb_true_r.
    + simpl in Hp. rewrite orb_false_r in Hp. by rewrite Hp.
    + rewrite (IH x) by done. by rewrite orb_true_r.
Qed.

Lemma unrestricted_chars ms :
  str_any restricted_mode ms = false ->
  Forall (fun m => forallb (fun r => negb (String.eqb m r)) ["o"; "h"; "m"; "t"; "i"; "k"; "n"; "E"] = true) (str_chars ms).
Proof.
  intros H. apply Forall_forall. intros m Hm%list_elem_of_In.
  destruct (forallb _ _) eqn:E; [done|]. exfalso. apply forallb_false_Exists, Exists_exists in E as (r & Hr & Heq).
  apply negb_false_iff, String.eqb_eq in Heq. subst r.
  assert (Hp : str_any restricted_mode m = true).
  { repeat (apply elem_of_cons in Hr as [->|Hr]; [reflexivity|]). by apply not_elem_of_nil in Hr. }
  rewrite (str_chars_any _ _ _ Hm Hp) in H. done.
Qed.

(** C6: MODE changes at most the channel it names, and only for a member who
    is an operator or moderator of it or a server operator; a moderator who is
    neither of the other two changes nothing but voices, bans and invite
    exceptions, whatever the mode string. *)
Theorem mode_authority (s : Server) (c : Connection) (channel : string) (ms arg : option string) (sid : string) (now : Z) :
  let s' := (handle_mode s c channel ms arg sid now).1 in
  changes anything channel s s' /\
  (s' <> s -> in_channel s channel sid = true /\
     (is_op s channel sid = true \/ is_halfop s channel sid = true \/ is_server_oper s sid = true)) /\
  (is_op s channel sid = false -> is_server_oper s sid = false -> changes moderation channel s s').
Proof.
  intros s'. unfold s', handle_mode. clear s'.
  assert (HR : changes anything channel s s) by by apply changes_refl.
  assert (HM : changes moderation channel s s) by apply changes_refl, moderation_refl.
  destruct (in_channel s channel sid); simpl; [|done]. destruct ms as [ms|]; simpl; [|done].
  destruct (is_op s channel sid) eqn:Ho, (is_halfop s channel sid) eqn:Hh, (is_server_oper s sid) eqn:Hs; simpl; try done.
  all: try (split; [apply (mode_loop_changes anything (fun _ => True)); try done;
                    [intros; apply mode_char_changes|by apply Forall_forall]|split; [auto|done]]).
  destruct (str_any restricted_mode ms) eqn:Hr; [done|]. split; [|split; [auto|intros _ _]].
  - apply (mode_loop_changes anything (fun _ => True)); try done; [intros; apply mode_char_changes|by apply Forall_forall].
  - eapply (mode_loop_changes moderation); [apply moderation_refl|apply moderation_trans| |by apply unrestricted_chars].
    intros. by apply mode_char_moderation.
Qed.
End ModeAuthority.

(** ** KICK *)

Section KickAuthority.
Context {CF : CaseFold} {TR : @Trim CF} {HO : HashOrder} {SO : SqlOrder}.

Lemma in_channel_update s n f m x :
  in_channel (update_channel n f s) m x =
  if decide (m = n) then match channels s !! n with Some ch => bool_decide (x ∈ members (f ch)) | None => false end
  else in_channel s m x.
Proof.
  unfold in_channel; simpl. destruct (decide (m = n)) as [->|Hne]; [rewrite lookup_alter_eq|by rewrite lookup_alter_ne].
  by destruct (channels s !! n).
Qed.

Lemma in_channel_same s n f m x :
  (forall ch, members (f ch) = members ch) -> in_channel (update_channel n f s) m x = in_channel s m x.
Proof.
  intros H. rewrite in_channel_update. unfold in_channel. destruct (decide (m = n)) as [->|]; [|done].
  destruct (channels s !! n); [|done]. by rewrite H.
Qed.

Lemma in_channel_removed s n sid m x :
  in_channel (update_channel n (remove_session sid) s) m x
  = in_channel s m x && negb (bool_decide (m = n /\ x = sid)).
Proof.
  rewrite in_channel_update. unfold in_channel. destruct (decide (m = n)) as [->|].
  - destruct (channels s !! n); [|done]. simpl. repeat case_bool_decide; simpl; try done; set_solver.
  - rewrite (bool_decide_false (_ /\ _)) by naive_solver. by rewrite andb_true_r.
Qed.

Lemma ban_did_members s n did by_ now m x :
  in_channel (ban_did s n did by_ now).1.2 m x = in_channel s m x.
Proof.
  unfold ban_did. destruct (channels s !! n) as [ch|]; [|done]. destruct (has_mask _ _); [done|]. simpl.
  by apply in_channel_same.
Qed.

Lemma forget_kicked_members s c n target did is_room now m x :
  in_channel (forget_kicked s c n target did is_room now).1 m x = in_channel s m x.
Proof.
  unfold forget_kicked. destruct is_room; [|done].
  pose proof (ban_did_members (update_room_db (fun db => (remove_room_member db n did now).2) s) n did
    (default (nick_or_star c) (c_authenticated_did c)) now m x) as H.
  by destruct (ban_did _ _ _ _ _) as [[b s'] e].
Qed.

Lemma kick_local_members s c n nick reason sid target now m x :
  in_channel (kick_local s c n nick reason sid target now).1 m x = in_channel s m x \/
  in_channel (kick_local s c n nick reason sid target now).1 m x
    = in_channel s m x && negb (bool_decide (m = n /\ x = target)).
Proof.
  unfold kick_local. destruct (_ && _ && _); [by left|right].
  destruct (did_of_session s target) as [d|]; [|apply in_channel_removed].
  match goal with |- context [forget_kicked ?a ?b ?e ?f ?g ?h ?i] =>
    pose proof (forget_kicked_members a b e f g h i m x) as H; destruct (forget_kicked a b e f g h i) as [s' e'] end.
  simpl in *. rewrite H. apply in_channel_removed.
Qed.

Lemma resolved_local s channel nick target :
  resolve_channel_target s channel nick = TLocal target ->
  get_session (nicks s) nick = Some target /\ in_channel s channel target = true.
Proof.
  unfold resolve_channel_target, in_channel. destruct (get_session _ _) as [t|]; [|by repeat case_match].
  destruct (channels s !! channel) as [ch|]; simpl; [|done].
  case_bool_decide as Hb; [|by repeat case_match]. intros [= ->]. by rewrite bool_decide_true.
Qed.

(** The only session a KICK can take out of a channel is the one the named
    nick belongs to, out of the named channel, and the kicker is a member of it
    who is an operator there or on the server, or else a moderator, whose
    victim is neither. *)
Theorem kick_authority (s : Server) (c : Connection) (channel nick reason sid : string) (now : Z) (n x : string) :
  in_channel s n x = true ->
  in_channel (handle_kick s c channel nick reason sid now).1 n x = false ->
  n = channel /\ get_session (nicks s) nick = Some x /\ in_channel s channel sid = true /\
  (is_op s channel sid = true \/ is_server_oper s sid = true \/
   is_halfop s channel sid = true /\ is_op s channel x = false /\ is_halfop s channel x = false).
Proof.
  intros Hin. unfold handle_kick. destruct (in_channel s channel sid) eqn:Hc; simpl; [|congruence].
  destruct (_ && _ && _) eqn:Hp; simpl; [congruence|]. destruct (_ && _ && _ && _) eqn:Hq; simpl; [congruence|].
  destruct (resolve_channel_target s channel nick) as [target|rm|] eqn:Ht; simpl; [|rewrite in_channel_same; [congruence|]|congruence].
  - destruct (resolved_local _ _ _ _ Ht) as [Hs _]. rewrite Hs in *.
    destruct (kick_local_members s c channel nick reason sid target now n x) as [H|H]; rewrite H, Hin; [done|].
    simpl. intros Hb. apply negb_false_iff, bool_decide_eq_true in Hb as [-> ->]. split_and!; try done.
    destruct (is_op s channel sid); [by left|]. destruct (is_server_oper s sid); [by right; left|].
    destruct (is_halfop s channel sid); [|done]. simpl in Hq. apply orb_false_iff in Hq as [? ?]. by right; right.
  - intros ch. unfold remove_remote_member. by destruct (remote_entry ch nick) as [[]|].
Qed.

Lemma banned_after_kick s c channel nick reason sid target now ch d :
  channels s !! channel = Some ch -> room ch = true ->
  did_of_session s target = Some d -> founder_did ch <> Some d -> starts_with "did:" d = true ->
  let s' := (kick_local s c channel nick reason sid target now).1 in
  (forall x, in_channel s' channel x = in_channel s channel x && negb (bool_decide (x = target))) /\
  (forall db, room_db s' = Some db -> is_room_member db channel d = false) /\
  exists ch', channels s' !! channel = Some ch' /\ room ch' = true /\ founder_did ch' = founder_did ch /\
    did_ops ch' = did_ops ch /\ forall host, is_banned ch' host (Some d) = true.
Proof.
  intros Hc Hr Hd Hf Hp s'. unfold s', kick_local. clear s'. rewrite Hc, Hd. simpl. rewrite Hr. simpl.
  rewrite bool_decide_false by congruence. unfold forget_kicked.
  set (s1 := update_room_db _ _).
  assert (Hc1 : channels s1 !! channel = Some (remove_session target ch)) by (simpl; by rewrite lookup_alter_eq, Hc).
  assert (HR : forall db, room_db s1 = Some db -> is_room_member db channel d = false).
  { simpl. intros db (db0 & Hdb & ->)%fmap_Some. unfold remove_room_member, is_room_member.
    destruct (room_members db0 !! _) as [r|] eqn:Hm; simpl; [|by rewrite Hm].
    destruct (active r) eqn:Ha; simpl; [by rewrite lookup_insert_eq|by rewrite Hm, Ha]. }
  assert (HBD : forall l, has_mask d l = true -> forall host, existsb (fun b => ban_matches b host (Some d)) l = true).
  { unfold has_mask. intros l (b & Hb & He)%existsb_exists host. bool_hyps. apply existsb_exists. exists b. split; [done|].
    unfold ban_matches. rewrite He, Hp. by apply bool_decide_true. }
  assert (HI : forall x, in_channel s1 channel x = in_channel s channel x && negb (bool_decide (x = target))).
  { intros x. unfold in_channel. rewrite Hc1, Hc. simpl. repeat case_bool_decide; simpl; try done; set_solver. }
  unfold ban_did. rewrite Hc1. destruct (has_mask d (bans (remove_session target ch))) eqn:Hm; simpl.
  - split; [exact HI|]. split; [exact HR|]. exists (remove_session target ch). split_and!; try done. by apply HBD.
  - split.
    { intros x. rewrite <- HI. apply (in_channel_same s1 channel (fun c0 => set_bans _ c0)). done. }
    split; [exact HR|]. eexists. rewrite !lookup_alter_eq, Hc. simpl. split; [reflexivity|]. split_and!; try done.
    intros host. apply HBD. unfold has_mask. apply existsb_exists.
    eexists. split; [apply in_app_iff; right; by left|]. simpl. apply String.eqb_refl.
Qed.

Context (token_hash : string -> string) (iso : Z -> string).

Lemma refused_join_members gate s c channel k sid now n x :
  passed (check_admission token_hash s c channel k sid now) = false ->
  in_channel (handle_join token_hash iso gate s c channel k sid now).1 n x = in_channel s n x.
Proof.
  intros H. unfold handle_join. destruct (_ <? _); [done|]. destruct (_ && _); [done|].
  pose proof (check_admission_standing token_hash s c channel k sid now n) as HS.
  destruct (check_admission _ _ _ _ _ _ _) as [|s1 e1|s1 e1 r]; [done| |done]. simpl in *. unfold in_channel.
  destruct (channels s !! n), (channels s1 !! n); try done. by destruct HS as [-> _].
Qed.

(** A kick from a room sticks. The victim is off the roster, and no JOIN of
    its identity gets in again, whatever invite it holds and from whatever
    device, unless the identity has authority over the room. *)
Theorem room_kick_sticks (s : Server) (c : Connection) (channel nick reason sid target : string) (now : Z)
    (ch : ChannelState) (d f : string) :
  channels s !! channel = Some ch -> room ch = true ->
  in_channel s channel sid = true -> is_op s channel sid = true ->
  resolve_channel_target s channel nick = TLocal target -> did_of_session s target = Some d ->
  founder_did ch = Some f -> f <> d -> d ∉ did_ops ch -> starts_with "did:" d = true ->
  let s' := (handle_kick s c channel nick reason sid now).1 in
  in_channel s' channel target = false /\
  (forall db, room_db s' = Some db -> is_room_member db channel d = false) /\
  forall gate c2 k sid2 now2, c_authenticated_did c2 = Some d ->
    in_channel (handle_join token_hash iso gate s' c2 channel k sid2 now2).1 channel sid2 = in_channel s' channel sid2.
Proof.
  intros Hc Hr Hin Hop Ht Hd Hf Hne Hno Hp s'.
  assert (Es : s' = (kick_local s c channel nick reason sid target now).1).
  { unfold s', handle_kick. rewrite Hin, Hop, Ht. simpl. by rewrite !andb_false_r. }
  destruct (banned_after_kick s c channel nick reason sid target now ch d) as (HI & HM & ch' & Hc' & Hr' & Hf' & Ho' & HB);
    try done; [congruence|]. rewrite <- Es in *. split_and!; [rewrite HI, bool_decide_true by done; apply andb_false_r|done|].
  intros gate c2 k sid2 now2 Hd2. destruct (in_channel s' channel sid2) eqn:Hs2.
  - unfold handle_join. destruct (_ <? _); [done|]. destruct (_ && _); [done|].
    unfold check_admission, is_new_channel. rewrite Hc', Hf', Hf. simpl. rewrite andb_false_r. simpl.
    unfold in_channel in Hs2. rewrite Hc' in Hs2. rewrite Hs2. simpl. unfold in_channel. by rewrite Hc'.
  - rewrite refused_join_members; [done|].
    destruct (passed _) eqn:Hpass; [|done]. exfalso.
    apply (check_admission_spec token_hash s' c2 channel k sid2 now2 ch') in Hpass; [|by unfold is_new_channel; rewrite Hc', Hf', Hf; simpl; rewrite andb_false_r|done|].
    + destruct Hpass as [Ha|[Hb _]]; [|by rewrite Hd2, HB in Hb]. rewrite Hd2 in Ha. simpl in Ha.
      unfold has_authority in Ha. apply orb_true_iff in Ha as [Ha|Ha]; apply bool_decide_eq_true in Ha; [congruence|]. by rewrite Ho' in Ha.
    + unfold in_channel in Hs2. rewrite Hc' in Hs2. by apply bool_decide_eq_false in Hs2.
Qed.
End KickAuthority.

(** ** Operators *)

Section Operators.
Context {CF : CaseFold} {TR : @Trim CF} {HO : HashOrder} {SO : SqlOrder}.

(** Nobody is there and nobody would run the channel. *)
Definition deserted (gate : option PolicyGate) (channel : string) (ch : ChannelState) : Prop :=
  members ch = ∅ /\ remote_members ch = ∅ /\ ops ch = ∅ /\
  forall p, policy_of gate channel = Some p -> size (pd_role_requirements p) = 0%nat.

Definition op_role (r : string) : bool := existsb (String.eqb r) ["op"; "admin"; "owner"].

Lemma auto_op_ops gate channel sid did ch x :
  sid ∉ members ch ->
  x ∈ ops (auto_op gate channel sid did (set_members ({[sid]} ∪ members ch) ch)) <->
  x ∈ ops ch \/ x = sid /\ (is_authority ch did = true \/ deserted gate channel ch).
Proof.
  intros Hm. unfold auto_op.
  assert (HA : is_authority (set_members ({[sid]} ∪ members ch) ch) did = is_authority ch did) by done. rewrite HA.
  set (empty := (_ && _ && _ && _)%bool).
  assert (HE : empty = true <-> deserted gate channel ch).
  { unfold empty, deserted. simpl. rewrite size_union, size_singleton by set_solver.
    rewrite !andb_true_iff, Nat.eqb_eq, bool_decide_eq_true, !negb_true_iff, orb_false_iff, negb_false_iff, bool_decide_eq_true.
    split.
    - intros (((Hs & Hr) & Ho & _) & Hp). split_and!; try done; [apply leibniz_equiv, size_empty_iff; lia|].
      intros p Hpol. rewrite Hpol in Hp. apply Nat.ltb_ge in Hp. lia.
    - intros (Hs & Hr & Ho & Hp). split_and!; try done; [rewrite Hs, size_empty; done| |].
      + rewrite Hr. apply existsb_false. intros y Hy. rewrite <- list_elem_of_In, (hash_iter_perm ∅), map_to_list_empty in Hy.
        by apply not_elem_of_nil in Hy.
      + destruct (policy_of gate channel) as [p|]; [|done]. rewrite (Hp p eq_refl). done. }
  destruct (is_authority ch did); simpl; [set_solver|]. destruct empty; simpl; [|naive_solver].
  assert (deserted gate channel ch) by by apply HE. set_solver.
Qed.

Lemma grant_role_ops r sid did ch x :
  x ∈ ops (grant_role r sid did ch) <-> x ∈ ops ch \/ x = sid /\ op_role r = true.
Proof.
  unfold grant_role. fold (op_role r). destruct (op_role r); [destruct did; simpl; set_solver|].
  destruct (existsb _ _); [simpl; naive_solver|]. destruct (existsb _ _); simpl; naive_solver.
Qed.

Lemma is_op_room_db db s n x : is_op (set_room_db db s) n x = is_op s n x.
Proof. done. Qed.

(** The operators of an existing channel after a JOIN that goes through. *)
Lemma join_ops gate s1 channel sid did now role ch x :
  channels s1 !! channel = Some ch -> sid ∉ members ch ->
  let s2 := set_channels (partial_alter (enter gate false channel sid did now) channel (channels s1)) s1 in
  let s3 := match role with Some r => update_channel channel (grant_role r sid did) s2 | None => s2 end in
  is_op s3 channel x = true <->
  x ∈ ops ch \/ x = sid /\ (is_authority ch did = true \/ deserted gate channel ch \/
                            exists r, role = Some r /\ op_role r = true).
Proof.
  intros Hc Hm s2 s3.
  set (ch2 := auto_op gate channel sid did (set_members ({[sid]} ∪ members ch) ch)).
  assert (H2 : channels s2 !! channel = Some ch2) by (unfold s2; simpl; rewrite lookup_partial_alter_eq, Hc; done).
  assert (H3 : exists ch3, channels s3 !! channel = Some ch3 /\
    (x ∈ ops ch3 <-> x ∈ ops ch2 \/ x = sid /\ exists r, role = Some r /\ op_role r = true)).
  { unfold s3. destruct role as [r|]; [|exists ch2; naive_solver].
    exists (grant_role r sid did ch2). simpl. rewrite lookup_alter_eq. unfold s2 in H2; simpl in H2. rewrite H2.
    split; [done|]. rewrite grant_role_ops. naive_solver. }
  destruct H3 as (ch3 & H3 & HO3). unfold is_op. rewrite H3, bool_decide_eq_true, HO3. unfold ch2.
  rewrite auto_op_ops by done. naive_solver.
Qed.

Context (token_hash : string -> string).

Lemma admission_existing s c channel k sid now s1 e1 rm ch :
  check_admission token_hash s c channel k sid now = Passed s1 e1 rm -> channels s !! channel = Some ch ->
  exists ch1, channels s1 !! channel = Some ch1 /\ members ch1 = members ch /\ founder_did ch1 = founder_did ch /\
    did_ops ch1 = did_ops ch /\ ops ch1 = ops ch /\ remote_members ch1 = remote_members ch.
Proof.
  intros Ha Hc. pose proof (check_admission_standing token_hash s c channel k sid now channel) as HS.
  rewrite Ha, Hc in HS. simpl in HS. destruct (channels s1 !! channel) as [ch1|]; [|done]. exists ch1. naive_solver.
Qed.

Context (iso : Z -> string).

(** Joining an existing channel makes the newcomer an operator exactly when
    the session still was one, when its identity is the founder or a persistent
    operator, when the channel is deserted (no member here or elsewhere, no
    operator, no roles set by policy), or when the policy gives it such a role. *)
Theorem join_op_grants gate (s : Server) (c : Connection) (channel : string) (k : option string) (sid : string) (now : Z)
    (ch : ChannelState) :
  channels s !! channel = Some ch -> sid ∉ members ch -> is_new_channel s channel = false ->
  let s' := (handle_join token_hash iso gate s c channel k sid now).1 in
  in_channel s' channel sid = true ->
  is_op s' channel sid = true <->
  sid ∈ ops ch \/ is_authority ch (c_authenticated_did c) = true \/ deserted gate channel ch \/
  exists r, policy_check gate s channel (c_authenticated_did c) = Ok (Some r) /\ op_role r = true.
Proof.
  intros Hc Hm Hn s'. unfold s', handle_join. rewrite Hn.
  assert (Hout : in_channel s channel sid = false) by (unfold in_channel; rewrite Hc; by apply bool_decide_false).
  destruct (_ <? _); [simpl; congruence|]. destruct (_ && _); [simpl; congruence|].
  pose proof (check_admission_standing token_hash s c channel k sid now) as HS.
  destruct (check_admission _ _ _ _ _ _ _) as [|s1 e1|s1 e1 rm] eqn:Ha; [simpl; congruence| |]; simpl in HS.
  { simpl. unfold in_channel in *. specialize (HS channel). rewrite Hc in *. destruct (channels s1 !! channel); [|done].
    destruct HS as [<- _]. congruence. }
  destruct (admission_existing _ _ _ _ _ _ _ _ _ _ Ha Hc) as (ch1 & Hc1 & E1 & E2 & E3 & E4 & E5).
  assert (EP : policy_check gate s1 channel (c_authenticated_did c) = policy_check gate s channel (c_authenticated_did c)).
  { unfold policy_check, policy_bypass, has_authority. specialize (HS (str_map ascii_lower channel)).
    destruct (channels s !! str_map ascii_lower channel), (channels s1 !! str_map ascii_lower channel); try done.
    destruct HS as (_ & -> & -> & _). done. }
  rewrite EP. destruct (policy_check gate s channel _) as [role|text].
  - pose proof (join_ops gate s1 channel sid (c_authenticated_did c) now role ch1 sid Hc1) as HJ.
    rewrite E1, E4 in HJ. specialize (HJ Hm). simpl in HJ.
    assert (HD : deserted gate channel ch1 <-> deserted gate channel ch) by (unfold deserted; by rewrite E1, E4, E5).
    assert (HA : is_authority ch1 (c_authenticated_did c) = is_authority ch (c_authenticated_did c)).
    { unfold is_authority, has_authority. by rewrite E2, E3. }
    rewrite HD, HA in HJ. set (s3 := match role with Some r => _ | None => _ end) in *.
    assert (HW : forall s4 e4, (if rm then room_welcome iso s3 c channel sid now else (s3, [])) = (s4, e4) ->
                 is_op s4 channel sid = is_op s3 channel sid).
    { intros s4 e4 E. destruct rm; [unfold room_welcome, touch_now in E|]; by injection E as <- _. }
    destruct (if rm then _ else _) as [s4 e4]. specialize (HW s4 e4 eq_refl). simpl. intros _. rewrite HW, HJ. naive_solver.
  - simpl. unfold in_channel in *. rewrite Hc in Hout. rewrite Hc1. rewrite E1. congruence.
Qed.

(** PART takes a session out of a channel but leaves it on the list of
    operators: an operator alone in a channel who leaves keeps the next user,
    who finds it empty, from becoming one, and is an operator again on
    return. *)
Theorem part_leaves_stale_op (s : Server) (c : Connection) (channel sid : string) (ch : ChannelState) :
  channels s !! channel = Some ch -> members ch = {[sid]} -> sid ∈ ops ch ->
  let s1 := (handle_part s c channel sid).1 in
  in_channel s1 channel sid = false /\ is_op s1 channel sid = true /\
  forall c2 k sid2 now, sid2 ∉ ops ch -> is_authority ch (c_authenticated_did c2) = false ->
    let s2 := (handle_join token_hash iso None s1 c2 channel k sid2 now).1 in
    in_channel s2 channel sid2 = true -> is_op s2 channel sid2 = false.
Proof.
  intros Hc Hm Ho s1.
  assert (Hc1 : channels s1 !! channel = Some (drop_member sid ch)).
  { unfold s1, handle_part, in_channel. rewrite Hc, Hm, bool_decide_true by set_solver. simpl. by rewrite lookup_alter_eq, Hc. }
  split_and!.
  - unfold in_channel. rewrite Hc1. simpl. apply bool_decide_false. set_solver.
  - unfold is_op. rewrite Hc1. simpl. by apply bool_decide_true.
  - intros c2 k sid2 now Hns Hna. unfold handle_join.
    assert (Hn : is_new_channel s1 channel = false).
    { unfold is_new_channel. rewrite Hc1. simpl. rewrite (bool_decide_false (ops ch = ∅)) by set_solver. by rewrite andb_false_r. }
    assert (Hout : in_channel s1 channel sid2 = false).
    { unfold in_channel. rewrite Hc1. simpl. apply bool_decide_false. rewrite Hm. set_solver. }
    rewrite Hn. destruct (_ <? _); [simpl; congruence|]. destruct (_ && _); [simpl; congruence|].
    destruct (check_admission _ _ _ _ _ _ _) as [|s2 e2|s2 e2 rm] eqn:Ha; [simpl; congruence| |].
    { simpl. pose proof (check_admission_standing token_hash s1 c2 channel k sid2 now channel) as HS.
      rewrite Ha, Hc1 in HS. simpl in HS. unfold in_channel in *. rewrite Hc1 in Hout. destruct (channels s2 !! channel); [|done].
      destruct HS as [<- _]. simpl in Hout. congruence. }
    destruct (admission_existing _ _ _ _ _ _ _ _ _ _ Ha Hc1) as (ch2 & Hc2 & E1 & E2 & E3 & E4 & E5). simpl in *.
    pose proof (join_ops None s2 channel sid2 (c_authenticated_did c2) now None ch2 sid2 Hc2) as HJ. rewrite E1, E4, Hm in HJ.
    specialize (HJ ltac:(set_solver)). simpl in HJ.
    set (s3 := set_channels _ s2) in *.
    assert (HN : is_op s3 channel sid2 = false).
    { destruct (is_op s3 channel sid2); [|done]. exfalso. destruct (proj1 HJ eq_refl) as [?|(_ & [Hx|[Hx|(r & ? & _)]])]; [done| | |done].
      - unfold is_authority, has_authority in Hx, Hna. rewrite E2, E3 in Hx. by rewrite Hna in Hx.
      - destruct Hx as (_ & _ & Hx & _). rewrite E4 in Hx. set_solver. }
    destruct rm; [unfold room_welcome, touch_now; simpl|]; done.
Qed.
End Operators.

(** ** Rosters *)

Section Rosters.
Context {CF : CaseFold} {TR : @Trim CF} {HO : HashOrder} {SO : SqlOrder}.

Lemma chunk_loop_some budget e entries : e <> "" -> chunk_loop budget e entries <> [].
Proof.
  revert e; induction entries as [|x l IH]; intros e He; cbn [chunk_loop]; rewrite (proj2 (is_empty_false e) He); [done|].
  cbn [negb andb]. destruct (budget <? _); [done|]. apply IH. by destruct e.
Qed.

Lemma chunk_loop_join budget cur entries :
  Forall (fun e => e <> "") entries ->
  str_join " " (chunk_loop budget cur entries)
  = (if is_empty cur then str_join " " entries else str_join " " (cur :: entries)).
Proof.
  intros H. revert cur. induction H as [|e entries He Hes IH]; intros cur; [by destruct cur|].
  cbn [chunk_loop]. destruct (is_empty cur) eqn:Ec; cbn [negb andb].
  - rewrite IH. rewrite (proj2 (is_empty_false e) He). done.
  - destruct (budget <? _); cbn [andb].
    + pose proof (chunk_loop_some budget e entries He) as Hne.
      specialize (IH e). rewrite (proj2 (is_empty_false e) He) in IH.
      destruct (chunk_loop budget e entries) as [|y l]; [done|]. rewrite str_join_cons, IH. by rewrite str_join_cons.
    + rewrite IH. assert (is_empty (cur +:+ " " +:+ e) = false) as -> by by destruct cur.
      destruct entries as [|x l]; [done|]. by rewrite !str_join_cons, !append_assoc.
Qed.

Lemma chunk_loop_fits budget all cur entries :
  incl entries all -> (cur = "" \/ In cur all \/ Z.of_nat (String.length cur) <= budget) ->
  Forall (fun l => In l all \/ Z.of_nat (String.length l) <= budget) (chunk_loop budget cur entries).
Proof.
  revert cur. induction entries as [|e entries IH]; intros cur Hi Hc; cbn [chunk_loop].
  - destruct (is_empty cur) eqn:E; [constructor|]. apply is_empty_false in E. constructor; [|constructor]. destruct Hc as [?|[?|?]]; [congruence|auto..].
  - destruct (is_empty cur) eqn:Ec; cbn [negb andb].
    + apply IH; [intros x Hx; apply Hi; by right|]. right; left. apply Hi. by left.
    + apply is_empty_false in Ec. destruct (Z.ltb_spec budget (Z.of_nat (String.length cur) + 1 + Z.of_nat (String.length e))).
      * constructor; [destruct Hc as [?|[?|?]]; [congruence|auto..]|]. apply IH; [intros x Hx; apply Hi; by right|].
        right; left. apply Hi. by left.
      * apply IH; [intros x Hx; apply Hi; by right|]. right; right. rewrite !append_length. simpl. lia.
Qed.

(** The list of agents is cut into lines without losing, reordering or
    splitting an entry, and every line fits in 512 bytes with its envelope
    unless it is a single entry that cannot. *)
Theorem chunk_to_line_limit_spec (server nick channel : string) (entries : list string) :
  Forall (fun e => e <> "") entries ->
  Z.of_nat (String.length server) + Z.of_nat (String.length nick) + Z.of_nat (String.length channel) <= 499 ->
  str_join " " (chunk_to_line_limit server nick channel entries) = str_join " " entries /\
  Forall (fun l => In l entries \/
    Z.of_nat (String.length (":" +:+ server +:+ " 674 " +:+ nick +:+ " " +:+ channel +:+ " :" +:+ l +:+ CRLF)) <= 512)
    (chunk_to_line_limit server nick channel entries).
Proof.
  intros He Hl. unfold chunk_to_line_limit. split; [by rewrite chunk_loop_join|].
  eapply Forall_impl; [apply (chunk_loop_fits _ entries); [apply incl_refl|by left]|].
  intros l [H|H]; [by left|right]. unfold line_budget, sat_sub_u64 in H. rewrite !append_length. simpl. lia.
Qed.

(** NAMES hides the roster of a restricted channel from outsiders, but
    still tells them which agents are in it: whenever an agent is there, the
    reply to a stranger has an empty roster followed by a list of agents. *)
Theorem names_reveals_agents (gate : option PolicyGate) (s : Server) (c : Connection) (channel session_id : string)
    (ch : ChannelState) (sid n : string) (a : ActorClass) :
  channels s !! channel = Some ch -> is_channel_name channel = true ->
  channel_visible_to gate channel ch session_id = false ->
  sid ∈ members ch -> session_actor_class s !! sid = Some a -> a <> Human -> get_nick (nicks s) sid = Some n ->
  In (Reply session_id "353" [nick_or_star c; "="; channel; ""]) (handle_names gate s c channel session_id) /\
  exists agents, In (Reply session_id "674" [nick_or_star c; channel; agents]) (handle_names gate s c channel session_id).
Proof.
  intros Hc Hn Hv Hm Ha Hh Hnick. unfold handle_names. rewrite Hn, Hc, Hv. simpl. split; [by left|].
  assert (HA : (n, actor_class_name a) ∈ actor_classes s ch).
  { unfold actor_classes. apply elem_of_app. left. apply list_elem_of_omap. exists sid. split.
    - unfold set_iter. apply list_elem_of_fmap. exists (sid, tt). split; [done|].
      rewrite (hash_iter_perm (gset_to_gmap tt (members ch))), elem_of_map_to_list. by apply lookup_gset_to_gmap_Some.
    - by rewrite Ha, bool_decide_false, Hnick by done. }
  assert (HO1 : forall l seen, l <> [] -> (forall x, x ∈ l -> to_lowercase x.1 ∉ seen) -> @one_per_nick CF string seen l <> []).
  { intros [|[m x] l] seen Hne Hs; [done|]. simpl. rewrite bool_decide_false; [done|].
    apply (Hs (m, x)). by left. }
  assert (HL : one_per_nick ∅ (actor_classes s ch) <> []).
  { apply HO1; [|set_solver]. intros E. rewrite E in HA. by apply not_elem_of_nil in HA. }
  unfold send_actor_classes. rewrite Hc. destruct (one_per_nick ∅ (actor_classes s ch)) as [|[m x] rest]; [done|].
  set (chunks := chunk_to_line_limit _ _ _ _).
  assert (HC : chunks <> []).
  { unfold chunks, chunk_to_line_limit. apply (chunk_loop_some _ (m +:+ "=" +:+ x)). by destruct m. }
  destruct chunks as [|chunk l]; [done|]. exists chunk. right; right. by left.
Qed.

(** After a disconnection the session is in no channel in any role, and nobody
    else has moved. *)
Lemma disconnect_cleans_up (s : Server) (sid n : string) :
  let s' := cleanup_channel_membership s sid in
  (forall ch, channels s' !! n = Some ch -> sid ∉ members ch /\ sid ∉ ops ch /\ sid ∉ halfops ch /\ sid ∉ voiced ch) /\
  forall x, x <> sid -> in_channel s' n x = in_channel s n x.
Proof.
  intros s'. unfold s', cleanup_channel_membership. split.
  - simpl. intros ch. rewrite map_lookup_filter_Some, lookup_fmap. intros [(c & Hc & ->)%fmap_Some _]. simpl. set_solver.
  - intros x Hx. unfold in_channel; simpl. rewrite map_lookup_filter, lookup_fmap.
    destruct (channels s !! n) as [ch|]; simpl; [|done]. case_guard as Hk; simpl.
    + repeat case_bool_decide; set_solver.
    + case_bool_decide as Hm; [|done]. destruct Hk. unfold worth_keeping. simpl.
      rewrite bool_decide_false; [done|]. set_solver.
Qed.
End Rosters.
