(* ===== verification/ChannelRuns.v ===== *)
(** * Channel commands on concrete servers

    Witnesses for the theorems of [ChannelSpec], and runs that show behaviour
    that departs from a comment in the code. *)

From stdpp Require Import base gmap strings list fin_maps.
From Stdlib Require Import ZArith Lia String Ascii.
From S2P Require Import Prelude PolicyStore NickMap RoomTables S2sMessage Channel Rooms ChannelOps ChannelInv ChannelSpec.
Open Scope string_scope.
Open Scope list_scope.
Open Scope Z_scope.

#[local] Existing Instances ascii_fold ascii_trimming map_order merge_order.

(** Ana on s1 and Bob on s2 have identities; Cat on s3 is a guest; s4 is an
    agent. *)
Definition town : Server :=
  let n2s := nm_insert (nm_insert (nm_insert (nm_insert no_nicks "ana" "s1") "bob" "s2") "cat" "s3") "bot" "s4" in
  mkServer ∅ (mkNames n2s ∅ ∅ (<["s1" := "did:plc:ana"]> (<["s2" := "did:plc:bob"]> ∅)))
    (<["did:plc:ana" := {["s1"]}]> (<["did:plc:bob" := {["s2"]}]> ∅)) {["s1"; "s2"; "s3"; "s4"]} ∅ ∅
    {["s4" := Agent]} ∅ ∅ ∅ ∅ ∅ ∅ (Some empty_room_db) true "freeq.test" 100 10.

Definition guest (nick : string) : Connection := mkConn (Some nick) (Some "u") None None true false false false Human.

Definition join (gate : option PolicyGate) (s : Server) (c : Connection) (channel : string) (k : option string) (sid : string)
    : Server := (handle_join hash_of no_date gate s c channel k sid 5).1.
Definition mode (s : Server) (c : Connection) (channel ms : string) (arg : option string) (sid : string) : Server :=
  (handle_mode s c channel (Some ms) arg sid 6).1.

(** Ana founds #den and locks it; the agent is there too. *)
Definition den : Server :=
  mode (join None (join None town ana "#den" None "s1") (guest "bot") "#den" None "s4") ana "#den" "+i" None "s1".

Definition channel_at (s : Server) (n : string) : ChannelState := default default_channel (channels s !! n).

Lemma channel_at_some s n : is_some (channels s !! n) = true -> channels s !! n = Some (channel_at s n).
Proof. unfold channel_at. by destruct (channels s !! n). Qed.

(** Bob gets into a locked channel on an invitation, which is then spent. *)
Definition den_invited : Server := (handle_invite den ana "bob" "#den" "s1").1.

Lemma join_admission_witness :
  let s' := join None den_invited bob "#den" None "s2" in
  in_channel s' "#den" "s2" = true /\ in_channel s' "#den" "s1" = true /\
  has_invite (channel_at den_invited "#den") "s2" "bob" (Some "did:plc:bob") = true /\
  has_invite (channel_at s' "#den") "s2" "bob" (Some "did:plc:bob") = false /\
  in_channel (join None den bob "#den" None "s2") "#den" "s2" = false.
Proof.
  destruct (join_admission hash_of no_date None den_invited bob "#den" None "s2" 5 ltac:(vm_compute; reflexivity)) as [HA HF].
  split; [vm_compute; reflexivity|].
  split; [refine (eq_trans (HF "#den" "s1" ltac:(discriminate)) _); vm_compute; reflexivity|].
  repeat split; vm_compute; reflexivity.
Defined.

Definition den_moderated : Server :=
  let s := join None den_invited bob "#den" None "s2" in mode s ana "#den" "+h" (Some "bob") "s1".

(** Bob, a moderator, can silence nobody's operator and empties no +i. *)
Example moderator_is_limited :
  mode den_moderated bob "#den" "-i" None "s2" = den_moderated /\
  mode den_moderated bob "#den" "-o" (Some "ana") "s2" = den_moderated /\
  is_op den_moderated "#den" "s1" = true.
Proof. by vm_compute. Qed.

(** A moderator can nevertheless let anyone into a +i channel, with +I, though
    the check says it sets voices only. *)
Example moderator_opens_locked_channel :
  let s := mode den_moderated bob "#den" "+I" (Some "cat!*@*") "s2" in
  is_op s "#den" "s2" = false /\
  in_channel (join None den_moderated (guest "cat") "#den" None "s3") "#den" "s3" = false /\
  in_channel (join None s (guest "cat") "#den" None "s3") "#den" "s3" = true.
Proof. by vm_compute. Qed.

Lemma kick_authority_witness :
  let s' := (handle_kick den_moderated bob "#den" "bot" "out" "s2" 7).1 in
  in_channel s' "#den" "s4" = false /\ is_halfop den_moderated "#den" "s2" = true /\ is_op den_moderated "#den" "s4" = false.
Proof.
  destruct (kick_authority den_moderated bob "#den" "bot" "out" "s2" 7 "#den" "s4") as (_ & _ & _ & H);
    [vm_compute; reflexivity..|].
  destruct H as [H|[H|(H1 & H2 & _)]]; [by vm_compute in H|by vm_compute in H|].
  split; [vm_compute; reflexivity|split; [exact H1|exact H2]].
Defined.

(** Nothing tells other servers of the kick of a local user. *)
Example local_kick_is_not_relayed :
  forall m, ~ In (Peers m) (handle_kick den_moderated bob "#den" "bot" "out" "s2" 7).2.
Proof. intros m. vm_compute. intuition discriminate. Qed.

(** ** Rooms *)

Definition room_name : string := "#r-blue-sky-fox".
Definition with_room_open : Server :=
  let s := (api_create_room hash_of town true (Some "did:plc:ana") None None (fun _ => false) [room_name] "tok" 5).1.2 in
  join None (join None s ana room_name None "s1") bob room_name (Some "tok") "s2".

Lemma room_kick_sticks_witness :
  let s' := (handle_kick with_room_open ana room_name "bob" "bye" "s1" 7).1 in
  in_channel with_room_open room_name "s2" = true /\ in_channel s' room_name "s2" = false /\
  in_channel (join None s' bob room_name (Some "tok") "s2") room_name "s2" = false.
Proof.
  split; [vm_compute; reflexivity|].
  destruct (room_kick_sticks hash_of no_date with_room_open ana room_name "bob" "bye" "s1" "s2" 7
    (channel_at with_room_open room_name) "did:plc:bob" "did:plc:ana") as (H1 & _ & H2);
    [apply channel_at_some; vm_compute; reflexivity|vm_compute; reflexivity..|discriminate
     |vm_compute; intuition discriminate|reflexivity|].
  split; [exact H1|]. unfold join. rewrite (H2 None bob (Some "tok") "s2" 5 eq_refl). exact H1.
Defined.

(** ** Operators *)

Lemma join_op_grants_witness :
  let s' := join None (join None town (guest "cat") "#yard" None "s3") bob "#yard" None "s2" in
  in_channel s' "#yard" "s2" = true /\ is_op s' "#yard" "s2" = false.
Proof.
  split; [vm_compute; reflexivity|]. set (s := join None town (guest "cat") "#yard" None "s3").
  pose proof (join_op_grants hash_of no_date None s bob "#yard" None "s2" 5 (channel_at s "#yard")) as H.
  destruct (is_op (join None s bob "#yard" None "s2") "#yard" "s2") eqn:E; [|reflexivity]. exfalso.
  apply H in E; [|apply channel_at_some; vm_compute; reflexivity|vm_compute; intuition discriminate|vm_compute; reflexivity..].
  destruct E as [E|[E|[(E & _)|(r & E & _)]]]; vm_compute in E; intuition discriminate.
Defined.

Lemma part_leaves_stale_op_witness :
  let s0 := join None town (guest "cat") "#yard" None "s3" in
  let s1 := (handle_part s0 (guest "cat") "#yard" "s3").1 in
  let s2 := join None s1 bob "#yard" None "s2" in
  in_channel s2 "#yard" "s2" = true /\ is_op s2 "#yard" "s2" = false.
Proof.
  split; [vm_compute; reflexivity|].
  set (s0 := join None town (guest "cat") "#yard" None "s3").
  destruct (part_leaves_stale_op hash_of no_date s0 (guest "cat") "#yard" "s3" (channel_at s0 "#yard")) as (_ & _ & H);
    [apply channel_at_some; vm_compute; reflexivity|vm_compute; reflexivity|refine (bool_decide_unpack _ _); vm_compute; exact I|].
  apply (H bob None "s2" 5); [vm_compute; intuition discriminate|vm_compute; reflexivity..].
Defined.

(** A founder loses operator status to -o, though it cannot be de-opped. *)
Example founder_session_is_deopped :
  let s := mode (join None (join None town ana "#den" None "s1") bob "#den" None "s2") ana "#den" "+o" (Some "bob") "s1" in
  let s' := mode s bob "#den" "-o" (Some "ana") "s2" in
  founder_did (channel_at s' "#den") = Some "did:plc:ana" /\ is_op s "#den" "s1" = true /\ is_op s' "#den" "s1" = false /\
  mode s' ana "#den" "+m" None "s1" = s'.
Proof. by vm_compute. Qed.

(** ** Rosters *)

Lemma names_reveals_agents_witness :
  channel_visible_to None "#den" (channel_at den "#den") "s3" = false /\
  handle_names None den (guest "cat") "#den" "s3" =
    [Reply "s3" "353" ["cat"; "="; "#den"; ""]; Reply "s3" "366" ["cat"; "#den"; "End of /NAMES list"];
     Reply "s3" "674" ["cat"; "#den"; "bot=agent"]] /\
  exists agents, In (Reply "s3" "674" ["cat"; "#den"; agents]) (handle_names None den (guest "cat") "#den" "s3").
Proof.
  split; [vm_compute; reflexivity|]. split; [vm_compute; reflexivity|].
  refine (proj2 (names_reveals_agents None den (guest "cat") "#den" "s3" (channel_at den "#den") "s4" "bot" Agent _ _ _ _ _ _ _));
    [apply channel_at_some; vm_compute; reflexivity|vm_compute; reflexivity..|refine (bool_decide_unpack _ _); vm_compute; exact I
     |vm_compute; reflexivity|discriminate|vm_compute; reflexivity].
Defined.

Lemma chunk_to_line_limit_spec_witness :
  str_join " " (chunk_to_line_limit "freeq.test" "cat" "#den" ["bot=agent"; "hal=agent"]) = "bot=agent hal=agent".
Proof.
  refine (proj1 (chunk_to_line_limit_spec "freeq.test" "cat" "#den" ["bot=agent"; "hal=agent"] _ _));
    [repeat constructor; discriminate|vm_compute; discriminate].
Defined.

(** ** An invitation spent for nothing *)

Definition cats_policy : PolicyDocument :=
  mkPolicy "#den" None 1 "2026" None "" PolicyEval.Open ∅ JoinTime Allow [] None None ∅ None ∅.
Definition strict_gate : PolicyGate := mkGate (fun _ => Ok (Some cats_policy)) (fun _ _ => Ok None).

(** The invitation to a channel with a policy is used up by a JOIN the policy
    refuses, though it is to be consumed only by getting in. *)
Example refused_join_spends_invite :
  let s' := join (Some strict_gate) den_invited bob "#den" None "s2" in
  has_invite (channel_at den_invited "#den") "s2" "bob" (Some "did:plc:bob") = true /\
  in_channel s' "#den" "s2" = false /\
  has_invite (channel_at s' "#den") "s2" "bob" (Some "did:plc:bob") = false.
Proof. by vm_compute. Qed.

(** ** The gate on a real store *)

Definition user : Connection := mkConn (Some "u") (Some "u") None (Some "did:plc:u") true false false false Human.
Definition lobby : Server := join None town ana "#lobby" None "s1".

Lemma join_holds_attestation_witness :
  let st := @PolicyEngine.run ascii_fold ascii_trimming merge_order PolicyEngine.sample_env "did:web:s" "k"
              PolicyEngine.sample_history in
  in_channel (join (Some (engine_gate st)) lobby user "#lobby" None "s3") "#lobby" "s3" = true /\
  in_channel (join (Some (engine_gate st)) lobby bob "#lobby" None "s2") "#lobby" "s2" = false /\
  exists r, In r (membership_attestations st) /\ xr_subject r = "did:plc:u" /\ xr_state r = VALID.
Proof.
  split; [vm_compute; reflexivity|]. split; [vm_compute; reflexivity|].
  pose proof (join_holds_attestation hash_of no_date
    (@PolicyEngine.run ascii_fold ascii_trimming merge_order PolicyEngine.sample_env "did:web:s" "k"
       PolicyEngine.sample_history) lobby user "#lobby" None "s3" 5) as H.
  destruct H as (d & [= <-] & [H|(r & H1 & H2 & _ & H3)]);
    [vm_compute; reflexivity|vm_compute; reflexivity|vm_compute; discriminate|by vm_compute in H|].
  exists r. auto.
Defined.
