(* ===== verification/S2sLink.v ===== *)
(** * Links between servers

    Models the parts of [freeq-server/src/s2s.rs] that decide: trust levels,
    capabilities, the duplicate filter, the rule for duplicate links, who is
    sent what; and the gate every inbound event passes at the head of
    [process_s2s_event] of [freeq-server/src/server.rs]. Transport, signatures
    and serialisation are left out. *)

From stdpp Require Import base gmap strings list fin_maps pretty sorting.
From Stdlib Require Import ZArith Lia String Ascii.
From S2P Require Import Prelude Text S2sMessage.
Open Scope string_scope.
Open Scope list_scope.
Open Scope Z_scope.

(** ** Trust and capabilities *)

Inductive TrustLevel := Full | Relay | Readonly.
#[export] Instance trust_eq_dec : EqDecision TrustLevel.
Proof. solve_decision. Defined.

Definition can_relay (t : TrustLevel) : bool := match t with Full | Relay => true | Readonly => false end.
Definition can_admin (t : TrustLevel) : bool := match t with Full => true | _ => false end.

Definition CATCHUP : string := "catchup".
Definition ACT : string := "act".
Definition ACT_ROUTE : string := "act_route".
Definition our_capabilities : list string := [CATCHUP; ACT; ACT_ROUTE].
Definition declared_capabilities (withheld : list string) : list string :=
  List.filter (fun name => negb (existsb (String.eqb name) withheld)) our_capabilities.
Definition peer_supports (peer_caps : list string) (name : string) : bool :=
  existsb (fun c => String.eqb c name || starts_with (name +:+ "=") c) peer_caps.

Section Text.
Context {CF : CaseFold}.

Definition parse_level (s : string) : TrustLevel :=
  let l := to_lowercase s in
  if String.eqb l "relay" then Relay
  else if existsb (String.eqb l) ["readonly"; "read-only"; "ro"] then Readonly
  else Full.

Definition parse_trust_config (entries : list string) : gmap string TrustLevel :=
  fold_left (fun m entry => match split_once ":"%char entry with
                            | Some (id, level) => <[id := parse_level level]> m
                            | None => m
                            end) entries ∅.
End Text.

(** ** Relayed tags and text *)

Definition relay_coordination_tags (full : gmap string string) : gmap string string :=
  let relayed := filter (fun kv : string * string =>
    starts_with "+freeq.at/" kv.1 = true /\ kv.1 <> "+freeq.at/sig") full in
  match full !! "+reply", full !! "+draft/reply" with
  | Some root, _ => <["+reply" := root]> relayed
  | None, Some root => <["+reply" := root]> relayed
  | None, None => relayed
  end.

(** [text.replace('\n', "\\n")] *)
Fixpoint escape_newlines (s : string) : string :=
  match s with
  | EmptyString => ""
  | String c r => if Ascii.eqb c LF then "\n" +:+ escape_newlines r else String c (escape_newlines r)
  end.
Definition encode_privmsg_text_for_s2s (text : string) (tags : gmap string string) : string * gmap string string :=
  if str_contains LF text then (escape_newlines text, <["+freeq.at/multiline" := ""]> tags) else (text, tags).

Definition is_act_tag (name : string) : bool :=
  let stripped := match strip_prefix "+freeq.at/" name with
                  | Some r => r
                  | None => default name (strip_prefix "freeq.at/" name)
                  end in
  String.eqb stripped "act" || starts_with "act-" stripped.
Definition carries_act_tags (tags : gmap string string) : bool :=
  existsb (fun kv => is_act_tag kv.1) (map_to_list tags).

(** ** The duplicate filter *)

Definition DEDUP_CAPACITY : Z := 10000.

Record DedupSet := mkDedup {
  seen : gmap string (gset string);
  order : gmap string (list string);
  high_water : gmap string Z
}.
Definition dedup_new : DedupSet := mkDedup ∅ ∅ ∅.

(** [rsplit_once(c)], the part after the last occurrence. *)
Fixpoint after_last (c : ascii) (s : string) : option string :=
  match s with
  | EmptyString => None
  | String d r => match after_last c r with
                  | Some x => Some x
                  | None => if Ascii.eqb d c then Some r else None
                  end
  end.
Definition parse_counter (event_id : string) : option Z := after_last ":"%char event_id ≫= parse_u64.

(** The ring of one origin. *)
Definition ring_insert (d : DedupSet) (origin event_id : string) : bool * DedupSet :=
  let peer_seen := default ∅ (seen d !! origin) in
  let peer_order := default [] (order d !! origin) in
  if bool_decide (event_id ∈ peer_seen)
  then (false, mkDedup (<[origin := peer_seen]> (seen d)) (<[origin := peer_order]> (order d)) (high_water d))
  else
    let '(peer_seen, peer_order) :=
      match peer_order with
      | oldest :: rest => if DEDUP_CAPACITY <=? Z.of_nat (size peer_seen) then (peer_seen ∖ {[oldest]}, rest)
                          else (peer_seen, peer_order)
      | [] => (peer_seen, peer_order)
      end in
    (true, mkDedup (<[origin := {[event_id]} ∪ peer_seen]> (seen d))
                   (<[origin := peer_order ++ [event_id]]> (order d)) (high_water d)).

Definition check_and_insert (d : DedupSet) (origin event_id : string) : bool * DedupSet :=
  if is_empty event_id then (true, d)
  else match parse_counter event_id with
       | Some counter =>
           let mark := default 0 (high_water d !! origin) in
           if counter <=? mark then (false, mkDedup (seen d) (order d) (<[origin := mark]> (high_water d)))
           else ring_insert (mkDedup (seen d) (order d) (<[origin := counter]> (high_water d))) origin event_id
       | None => ring_insert d origin event_id
       end.

Definition remove_peer (d : DedupSet) (origin : string) : DedupSet :=
  mkDedup (delete origin (seen d)) (delete origin (order d)) (delete origin (high_water d)).

(** ** Contact with peers *)

Record PeerContact := mkContact { pc_started : Z; pc_last : gmap string Z }.
Definition touch_at (p : PeerContact) (peer_id : string) (at_ : Z) : PeerContact :=
  mkContact (pc_started p)
    (<[peer_id := match pc_last p !! peer_id with Some slot => Z.max slot at_ | None => at_ end]> (pc_last p)).
Definition last_contact (p : PeerContact) (peer_id : string) : Z := default (pc_started p) (pc_last p !! peer_id).
Definition out_of_contact (p : PeerContact) (peer_id : string) (ttl now : Z) : bool :=
  negb (ttl =? 0) && (ttl <=? Z.max 0 (now - last_contact p peer_id)).

(** ** The manager *)

Record S2sManager := mkManager {
  server_id : string;
  peers : gset string;                         (* peers with a live link *)
  event_counter : Z;
  dedup : DedupSet;
  trust_config : gmap string TrustLevel;
  authenticated_peers : gset string;
  peer_capabilities : gmap string (list string);
  allowed_peers : list string;
  peer_contact : PeerContact;
  rate_limits : gmap string (Z * Z)            (* S2S_RATE_LIMITS: second and count *)
}.

Definition set_dedup x (m : S2sManager) := mkManager (server_id m) (peers m) (event_counter m) x (trust_config m)
  (authenticated_peers m) (peer_capabilities m) (allowed_peers m) (peer_contact m) (rate_limits m).
Definition set_rates x (m : S2sManager) := mkManager (server_id m) (peers m) (event_counter m) (dedup m)
  (trust_config m) (authenticated_peers m) (peer_capabilities m) (allowed_peers m) (peer_contact m) x.
Definition set_counter x (m : S2sManager) := mkManager (server_id m) (peers m) x (dedup m)
  (trust_config m) (authenticated_peers m) (peer_capabilities m) (allowed_peers m) (peer_contact m) (rate_limits m).

Definition next_event_id (m : S2sManager) : string * S2sManager :=
  (server_id m +:+ ":" +:+ pretty (event_counter m), set_counter (wrap 64 (event_counter m + 1)) m).

Definition is_allowlisted (m : S2sManager) (peer_id : string) : bool :=
  match allowed_peers m with [] => true | l => existsb (fun p => String.eqb p peer_id) l end.
Definition may_relay_to (m : S2sManager) (peer_id : string) : bool :=
  bool_decide (peer_id ∈ peers m) && is_allowlisted m peer_id.
Definition declared_by (m : S2sManager) (peer : string) : list string := default [] (peer_capabilities m !! peer).
Definition get_trust (m : S2sManager) (peer_id : string) : TrustLevel := default Full (trust_config m !! peer_id).

Definition peer_out_of_contact (m : S2sManager) (peer_id : string) (ttl now : Z) : bool :=
  if (ttl =? 0) || bool_decide (peer_id ∈ peers m) then false else out_of_contact (peer_contact m) peer_id ttl now.

Inductive RouteOutcome := Sent | Unreachable | RouteRefused (why : string).

(** [still_up]: the link took the message. *)
Definition send_to_linked_peer (m : S2sManager) (peer : string) (still_up : bool) : RouteOutcome :=
  if negb (bool_decide (peer ∈ peers m)) then Unreachable
  else if negb (may_relay_to m peer) then RouteRefused "this server sends that peer no events"
  else if still_up then Sent else Unreachable.

Definition route_to_home (m : S2sManager) (home : string) (still_up : bool) : RouteOutcome :=
  if negb (bool_decide (home ∈ peers m)) then Unreachable
  else if negb (peer_supports (declared_by m home) ACT_ROUTE)
  then RouteRefused "the peer cannot receive routed transitions"
  else send_to_linked_peer m home still_up.

Definition send_act_to_peer (m : S2sManager) (peer : string) (still_up : bool) : RouteOutcome :=
  if negb (bool_decide (peer ∈ peers m)) then Unreachable
  else if negb (peer_supports (declared_by m peer) ACT)
  then RouteRefused "the peer did not declare the act capability"
  else send_to_linked_peer m peer still_up.

Definition is_act_message (msg : S2sMessage) : bool :=
  match msg with Tagmsg _ _ tags _ => carries_act_tags tags | _ => false end.

Section Broadcast.
Context {HO : HashOrder}.
Definition broadcast_to_peers (m : S2sManager) (msg : S2sMessage) : list (string * S2sMessage) :=
  omap (fun kv => if may_relay_to m kv.1 && (negb (is_act_message msg) || peer_supports (declared_by m kv.1) ACT)
                  then Some (kv.1, msg) else None)
    (hash_iter (gset_to_gmap tt (peers m))).
End Broadcast.

(** ** Duplicate links *)

(** [my_id < peer_id] on byte strings. *)
Definition duplicate_link_wins (my_id peer_id : string) (incoming : bool) : bool :=
  xorb incoming (match String.compare my_id peer_id with Lt => true | _ => false end).

(** ** The gate *)

(** A message with the fields its variant has. *)
Record S2sEvent := mkEvent { event_id : string; origin : string; body : S2sMessage }.

Definition S2S_MAX_EVENTS_PER_SEC : Z := 100.

Definition is_handshake (b : S2sMessage) : bool :=
  match b with Hello _ _ _ _ _ | HelloAck _ _ _ => true | _ => false end.

(** The id and origin the filter reads: variants without them count as empty. *)
Definition dedup_key (e : S2sEvent) : string * string :=
  match body e with
  | CrdtSync _ => ("", origin e)
  | PeerDisconnected _ | CatchupRequest _ _ _ | CatchupEvents _ _ | Hello _ _ _ _ _ | HelloAck _ _ _
  | Signed _ _ _ | KeyRotation _ _ _ _ | SyncRequest | SyncResponse _ _ => ("", "")
  | _ => (event_id e, origin e)
  end.

Definition is_relay_event (b : S2sMessage) : bool :=
  match b with
  | Privmsg _ _ _ _ _ _ _ _ _ _ | Tagmsg _ _ _ _ | ActRoute _ _ _ _ _ _ | Pin _ _ _ _ _ | Join _ _ _ _ _ _
  | Part _ _ | Quit _ _ | NickChange _ _ | Topic _ _ _ _ | Mode _ _ _ _ _ | Kick _ _ _ _ _ | Ban _ _ _ _ _
  | InviteException _ _ _ _ _ | Invite _ _ _ _ | ChannelCreated _ _ _ _ | AvSessionCreated _ _ _ _ _ _
  | AvSessionJoined _ _ _ | AvSessionLeft _ _ | AvSessionEnded _ _ => true
  | _ => false
  end.
Definition is_admin_event (b : S2sMessage) : bool :=
  match b with
  | Mode _ _ _ _ _ | Kick _ _ _ _ _ | Ban _ _ _ _ _ | InviteException _ _ _ _ _ | ChannelCreated _ _ _ _ => true
  | _ => false
  end.
Definition trust_allows (t : TrustLevel) (b : S2sMessage) : bool :=
  match t with
  | Readonly => negb (is_relay_event b)
  | Relay => negb (is_admin_event b)
  | Full => true
  end.

(** Whether the event is within the rate, and the new counters. *)
Definition rate_step (limits : gmap string (Z * Z)) (peer : string) (now : Z) : bool * gmap string (Z * Z) :=
  let entry := default (now, 0) (limits !! peer) in
  if entry.1 =? now then (entry.2 + 1 <=? S2S_MAX_EVENTS_PER_SEC, <[peer := (now, entry.2 + 1)]> limits)
  else (true, <[peer := (now, 1)]> limits).

(** [Some origin]: the event goes on, under that origin. [released] is an event
    that passed before and was held. *)
Definition gate (m : S2sManager) (peer : string) (e : S2sEvent) (released : bool) (now : Z)
    : option string * S2sManager :=
  if negb released && negb (is_handshake (body e)) && negb (bool_decide (peer ∈ authenticated_peers m))
  then (None, m)
  else
    let '(within, limits) := if released then (true, rate_limits m) else rate_step (rate_limits m) peer now in
    let m1 := set_rates limits m in
    if negb within then (None, m1)
    else
      let '(id, org) := dedup_key e in
      if negb (is_empty org) && String.eqb org (server_id m) then (None, m1)
      else
        let '(fresh, d) := if negb released && negb (is_empty id) then check_and_insert (dedup m) org id
                           else (true, dedup m) in
        let m2 := set_dedup d m1 in
        if negb fresh then (None, m2)
        else if negb (released || trust_allows (get_trust m peer) (body e)) then (None, m2)
        else (Some (if is_empty org || String.eqb org peer then org else peer), m2).

(** ** Ids are read back *)

Lemma after_last_app c a b : str_contains c b = false -> after_last c (a +:+ String c b) = Some b.
Proof.
  intros Hb. induction a as [|d a IH]; simpl.
  - assert (HN : after_last c b = None).
    { clear -Hb. unfold str_contains in Hb. induction b as [|d b IH]; simpl in *; [done|]. bool_hyps.
      rewrite IH by done. by rewrite Ascii.eqb_sym, (proj2 (Ascii.eqb_neq _ _)). }
    by rewrite HN, Ascii.eqb_refl.
  - by rewrite IH.
Qed.

Lemma parse_counter_minted name n : 0 <= n < 2 ^ 64 -> parse_counter (name +:+ ":" +:+ pretty n) = Some n.
Proof.
  intros Hn. destruct (pretty_Z_digits n ltac:(lia)) as (Hd & _). unfold parse_counter.
  change (":" +:+ pretty n) with (String ":" (pretty n)).
  rewrite after_last_app by by apply digits_no. by apply parse_u64_pretty.
Qed.

(** The counter of an event id comes back out of it, for every value a
    64-bit counter takes and whatever the name of the server. *)
Theorem event_id_round_trip (m : S2sManager) :
  0 <= event_counter m < 2 ^ 64 -> parse_counter (next_event_id m).1 = Some (event_counter m).
Proof.
  apply parse_counter_minted.
Qed.

(** ** No event twice *)

Definition mark_of (d : DedupSet) (o : string) : Z := default 0 (high_water d !! o).

Lemma ring_insert_marks d o id : high_water (ring_insert d o id).2 = high_water d.
Proof. unfold ring_insert. case_bool_decide; [done|]. destruct (order d !! o) as [[|]|]; simpl; [done|by case_match|done]. Qed.

Lemma check_marks d o id o' :
  mark_of d o' <= mark_of (check_and_insert d o id).2 o' /\
  forall c, parse_counter id = Some c -> (check_and_insert d o id).1 = true ->
    mark_of d o < c /\ mark_of (check_and_insert d o id).2 o = c.
Proof.
  unfold check_and_insert. destruct (is_empty id) eqn:Ei.
  { split; [simpl; lia|]. intros c. destruct id; [by vm_compute|done]. }
  destruct (parse_counter id) as [k|] eqn:Hk.
  - fold (mark_of d o). destruct (Z.leb_spec k (mark_of d o)).
    + split; [|done]. unfold mark_of. simpl. destruct (decide (o' = o)) as [->|]; [rewrite lookup_insert_eq|by rewrite lookup_insert_ne].
      unfold mark_of. simpl. lia.
    + unfold mark_of at 2 4. rewrite !ring_insert_marks. simpl. split.
      * destruct (decide (o' = o)) as [->|]; [rewrite lookup_insert_eq; simpl; lia|rewrite lookup_insert_ne by done; unfold mark_of; lia].
      * intros c [= <-] _. rewrite lookup_insert_eq. done.
  - split; [|done]. unfold mark_of. rewrite ring_insert_marks. lia.
Qed.

(** The accepted events of a run, in order. *)
Fixpoint dedup_run (d : DedupSet) (events : list (string * string)) : list (string * string) * DedupSet :=
  match events with
  | [] => ([], d)
  | (o, id) :: rest =>
      let '(ok, d') := check_and_insert d o id in
      let '(acc, d'') := dedup_run d' rest in
      (if ok then (o, id) :: acc else acc, d'')
  end.

Definition counters_of (o : string) (l : list (string * string)) : list Z :=
  omap (fun p => if String.eqb p.1 o then parse_counter p.2 else None) l.

Lemma dedup_run_increasing o events : forall d,
  StronglySorted Z.lt (counters_of o (dedup_run d events).1) /\
  Forall (fun c => mark_of d o < c) (counters_of o (dedup_run d events).1).
Proof.
  induction events as [|[o' id] rest IH]; intros d; simpl; [split; constructor|].
  destruct (check_marks d o' id o) as [Hm Hc].
  destruct (check_and_insert d o' id) as [ok d']. specialize (IH d'). destruct (dedup_run d' rest) as [acc d'']. simpl in *.
  destruct IH as [IH1 IH2].
  assert (IH3 : Forall (fun c => mark_of d o < c) (counters_of o acc)) by (eapply Forall_impl; [exact IH2|]; simpl; lia).
  destruct ok; [|done]. unfold counters_of in *. simpl. destruct (String.eqb o' o) eqn:Eo; [|done]. bool_hyps. subst o'.
  destruct (parse_counter id) as [c|]; [|done]. destruct (Hc c eq_refl eq_refl) as [H1 H2]. rewrite H2 in IH2.
  split; constructor; done.
Qed.

(** Among the events the filter lets through from one origin, the counters
    strictly increase, whatever else arrives in between and in whatever order;
    so no event with a counter is let through twice, however long ago it
    came. *)
Theorem dedup_no_replay (d : DedupSet) (events : list (string * string)) (o : string) :
  StronglySorted Z.lt (counters_of o (dedup_run d events).1).
Proof. apply dedup_run_increasing. Qed.

(** ** Nothing honest is lost *)

(** What the ring holds is below the mark. *)
Definition ring_below (d : DedupSet) : Prop :=
  forall o id c, id ∈ default ∅ (seen d !! o) -> parse_counter id = Some c -> c <= mark_of d o.

Lemma ring_insert_seen d o id o' x :
  x ∈ default ∅ (seen (ring_insert d o id).2 !! o') -> x ∈ default ∅ (seen d !! o') \/ o' = o /\ x = id.
Proof.
  unfold ring_insert. case_bool_decide; simpl.
  - destruct (decide (o' = o)) as [->|]; [rewrite lookup_insert_eq|rewrite lookup_insert_ne by done]; simpl; auto.
  - destruct (order d !! o) as [[|y l]|]; simpl; [|destruct (_ <=? _)|]; simpl;
      (destruct (decide (o' = o)) as [->|]; [rewrite lookup_insert_eq|rewrite lookup_insert_ne by done]); simpl; set_solver.
Qed.

Lemma ring_below_check d o id : ring_below d -> ring_below (check_and_insert d o id).2.
Proof.
  intros H o' x c. unfold check_and_insert. destruct (is_empty id); [apply H|].
  destruct (parse_counter id) as [k|] eqn:Hk.
  - fold (mark_of d o). destruct (Z.leb_spec k (mark_of d o)); simpl.
    + intros Hx Hc. specialize (H o' x c Hx Hc). unfold mark_of in *. simpl.
      destruct (decide (o' = o)) as [->|]; [by rewrite lookup_insert_eq|by rewrite lookup_insert_ne].
    + intros [Hx|[-> ->]]%ring_insert_seen Hc; unfold mark_of; rewrite ring_insert_marks; simpl.
      * simpl in Hx. specialize (H o' x c Hx Hc). unfold mark_of in *.
        destruct (decide (o' = o)) as [->|]; [rewrite lookup_insert_eq; simpl in *; lia|by rewrite lookup_insert_ne].
      * rewrite lookup_insert_eq. simpl. assert (c = k) by congruence. lia.
  - intros [Hx|[-> ->]]%ring_insert_seen Hc; [|congruence]. specialize (H o' x c Hx Hc).
    unfold mark_of in *. by rewrite ring_insert_marks.
Qed.

Lemma fresh_accepted d o id c :
  ring_below d -> parse_counter id = Some c -> mark_of d o < c ->
  (check_and_insert d o id).1 = true /\ mark_of (check_and_insert d o id).2 o = c.
Proof.
  intros H Hc Hm. assert (H1 : (check_and_insert d o id).1 = true).
  { unfold check_and_insert. destruct (is_empty id) eqn:Ei; [done|]. rewrite Hc. fold (mark_of d o).
    destruct (Z.leb_spec c (mark_of d o)); [lia|]. unfold ring_insert. simpl.
    rewrite bool_decide_false; [destruct (order d !! o) as [[|]|]; simpl; [done|by case_match|done]|].
    intros Hx. specialize (H o id c Hx Hc). lia. }
  split; [done|]. by destruct (check_marks d o id o) as [_ HX]; destruct (HX c Hc H1).
Qed.

(** [k] events of a server, in the order it sends them. *)
Fixpoint minted (k : nat) (m : S2sManager) : list string :=
  match k with O => [] | S k => let '(id, m') := next_event_id m in id :: minted k m' end.

Lemma minted_accepted k : forall m d,
  ring_below d -> 0 <= event_counter m -> event_counter m + Z.of_nat k < 2 ^ 64 -> mark_of d (server_id m) < event_counter m ->
  (dedup_run d (pair (server_id m) <$> minted k m)).1 = pair (server_id m) <$> minted k m.
Proof.
  induction k as [|k IH]; intros m d Hr H0 Hb Hm; [done|].
  cbn [minted]. destruct (next_event_id m) as [id m'] eqn:Hn. cbn [fmap list_fmap dedup_run].
  assert (Hid : parse_counter id = Some (event_counter m)).
  { unfold next_event_id in Hn. injection Hn as <- _. apply parse_counter_minted. lia. }
  destruct (fresh_accepted d (server_id m) id (event_counter m) Hr Hid Hm) as [Hok Hmark].
  pose proof (ring_below_check d (server_id m) id Hr) as Hr'.
  destruct (check_and_insert d (server_id m) id) as [ok d']. simpl in *. subst ok.
  assert (Hm' : server_id m' = server_id m /\ event_counter m' = event_counter m + 1).
  { unfold next_event_id in Hn. injection Hn as _ <-. simpl. split; [done|]. unfold wrap. apply Z.mod_small. lia. }
  destruct Hm' as [Hs Hcn]. specialize (IH m' d' Hr'). rewrite Hs, Hcn in IH.
  specialize (IH ltac:(lia) ltac:(lia) ltac:(rewrite Hmark; lia)).
  destruct (dedup_run d' _) as [acc d'']. simpl in *. by rewrite IH.
Qed.

Lemma ring_below_run events : forall d, ring_below d -> ring_below (dedup_run d events).2.
Proof.
  induction events as [|[o id] rest IH]; intros d Hd; simpl; [done|].
  pose proof (ring_below_check d o id Hd) as H. destruct (check_and_insert d o id) as [ok d'].
  specialize (IH d' H). by destruct (dedup_run d' rest).
Qed.

(** The filter loses nothing a server sends in order: after any history,
    as long as a server's counter is above what was heard of it, every event it
    mints from there on, up to the end of the 64-bit range, is let through. *)
Theorem ordered_events_accepted (history : list (string * string)) (m : S2sManager) (k : nat) :
  let d := (dedup_run dedup_new history).2 in
  0 <= event_counter m -> event_counter m + Z.of_nat k < 2 ^ 64 -> mark_of d (server_id m) < event_counter m ->
  (dedup_run d (pair (server_id m) <$> minted k m)).1 = pair (server_id m) <$> minted k m.
Proof.
  intros d H0 Hb Hm. apply minted_accepted; try done. apply ring_below_run. intros o id c Hx. simpl in Hx.
  rewrite lookup_empty in Hx. set_solver.
Qed.

(** ** The gate *)


(** ** Rates *)

Fixpoint rate_run (limits : gmap string (Z * Z)) (l : list (string * Z)) : list (string * Z) :=
  match l with
  | [] => []
  | (p, now) :: rest =>
      let '(ok, limits') := rate_step limits p now in
      if ok then (p, now) :: rate_run limits' rest else rate_run limits' rest
  end.

Definition count_at (p : string) (t : Z) (l : list (string * Z)) : Z :=
  Z.of_nat (List.length (List.filter (fun x => String.eqb x.1 p && (x.2 =? t)) l)).

Definition rate_left (limits : gmap string (Z * Z)) (p : string) (t : Z) : Z :=
  match limits !! p with Some (t0, n) => if t =? t0 then Z.max 0 (100 - n) else 100 | None => 100 end.

Lemma rate_run_sub limits l : forall x, In x (rate_run limits l) -> In x l.
Proof.
  revert limits; induction l as [|[p now] l IH]; intros limits x; simpl; [done|].
  destruct (rate_step limits p now) as [[] lim]; simpl; naive_solver.
Qed.

Lemma count_at_none p t l : (forall x, In x l -> x.2 <> t) -> count_at p t l = 0.
Proof.
  intros H. unfold count_at. rewrite list_filter_nil; [done|]. intros x Hx. specialize (H x Hx).
  rewrite (proj2 (Z.eqb_neq _ _) H). apply andb_false_r.
Qed.

Lemma count_at_cons p t q s l :
  count_at p t ((q, s) :: l) = (if String.eqb q p && (s =? t) then 1 else 0) + count_at p t l.
Proof. unfold count_at. simpl. destruct (_ && _); simpl; lia. Qed.

Lemma rate_run_bound l : forall limits p t,
  StronglySorted (fun x y => x.2 <= y.2) l ->
  (forall t0 n x, limits !! p = Some (t0, n) -> In x l -> t0 <= x.2) ->
  count_at p t (rate_run limits l) <= rate_left limits p t.
Proof.
  induction l as [|[q s] l IH]; intros limits p t Hs Hl; simpl.
  { unfold count_at, rate_left. simpl. repeat case_match; lia. }
  apply StronglySorted_inv in Hs as [Hs HF]. rewrite Forall_forall in HF.
  assert (HF' : forall x, In x l -> s <= x.2) by (intros x Hx; apply (HF x), list_elem_of_In, Hx).
  set (step := rate_step limits q s).
  assert (HIH : count_at p t (rate_run step.2 l) <= rate_left step.2 p t).
  { apply IH; [done|]. intros t0 n x. unfold step, rate_step. destruct (decide (p = q)) as [->|Hne].
    - destruct (_ =? s); simpl; rewrite lookup_insert_eq; intros [= <- _] Hx; by apply HF'.
    - destruct (_ =? s); simpl; rewrite lookup_insert_ne by done; intros Hp Hx; (eapply Hl; [exact Hp|by right]). }
  assert (Hrest : s <> t -> count_at p t (rate_run step.2 l) = 0 \/ s < t).
  { intros Hne. destruct (Z.lt_ge_cases s t); [by right|left]. apply count_at_none. intros x Hx%rate_run_sub.
    specialize (HF' x Hx). lia. }
  assert (Hq : p <> q -> rate_left step.2 p t = rate_left limits p t).
  { intros Hne. unfold step, rate_step, rate_left. by destruct (_ =? s); simpl; rewrite lookup_insert_ne by done. }
  assert (Hgoal : count_at p t (if step.1 then (q, s) :: rate_run step.2 l else rate_run step.2 l) <= rate_left limits p t).
  { destruct (decide (p = q)) as [->|Hne].
    - revert HIH Hrest. unfold step, rate_step, rate_left, S2S_MAX_EVENTS_PER_SEC.
      destruct (limits !! q) as [[t0 n]|] eqn:Hq0; simpl.
      + specialize (Hl t0 n (q, s) eq_refl (or_introl eq_refl)). simpl in Hl.
        destruct (Z.eqb_spec t0 s) as [->|Hts]; simpl; rewrite lookup_insert_eq;
          [destruct (Z.leb_spec (n + 1) 100)|]; rewrite ?count_at_cons, ?String.eqb_refl; simpl;
          destruct (Z.eqb_spec s t), (Z.eqb_spec t s); try lia; destruct (Z.eqb_spec t t0); try lia.
      + destruct (Z.eqb_spec s s); [|lia]. simpl. rewrite lookup_insert_eq, count_at_cons, String.eqb_refl. simpl.
        destruct (Z.eqb_spec s t), (Z.eqb_spec t s); lia.
    - rewrite <- Hq by done. destruct step.1; [|done]. rewrite count_at_cons.
      rewrite (proj2 (String.eqb_neq q p)) by congruence. simpl. lia. }
  unfold step in Hgoal. by destruct (rate_step limits q s) as [ok lim].
Qed.

(** While the clock does not run backwards, no peer gets more than 100
    events through in any one second, however the events of peers interleave. *)
Theorem rate_limit_holds (l : list (string * Z)) (p : string) (t : Z) :
  StronglySorted (fun x y => x.2 <= y.2) l -> count_at p t (rate_run ∅ l) <= S2S_MAX_EVENTS_PER_SEC.
Proof.
  intros Hs. pose proof (rate_run_bound l ∅ p t Hs) as H. unfold rate_left in H. rewrite lookup_empty in H.
  apply H. done.
Qed.

(** ** Who can silence whom *)

(** The duplicate filter goes by the origin a message claims, and before
    trust is considered. An authenticated peer, even a read-only one, that
    claims another server's name with a high counter makes the gate drop every
    later event of that server with a lower one. *)
Theorem claimed_origin_silences (m : S2sManager) (liar victim id : string) (e : S2sEvent) (c now : Z) :
  liar ∈ authenticated_peers m -> (rate_step (rate_limits m) liar now).1 = true ->
  victim <> "" -> victim <> server_id m -> dedup_key e = (id, victim) -> parse_counter id = Some c ->
  let m1 := (gate m liar e false now).2 in
  forall e2 id2 c2 now2, dedup_key e2 = (id2, victim) -> parse_counter id2 = Some c2 -> c2 <= c ->
    (gate m1 victim e2 false now2).1 = None.
Proof.
  intros Ha Hr Hv Hs Hk Hc m1 e2 id2 c2 now2 Hk2 Hc2 Hle.
  assert (Hid : forall x y, parse_counter x = Some y -> is_empty x = false) by by intros [|? ?] y.
  assert (Hm : c <= mark_of (dedup m1) victim).
  { unfold m1, gate. rewrite (bool_decide_true (liar ∈ _)) by done. rewrite andb_false_r.
    destruct (rate_step (rate_limits m) liar now) as [ok lim]. simpl in Hr. subst ok. cbn [negb]. rewrite Hk.
    rewrite (proj2 (String.eqb_neq _ _) Hs), andb_false_r, (Hid id c Hc). cbn [negb andb].
    assert (HX : c <= mark_of (check_and_insert (dedup m) victim id).2 victim).
    { destruct (check_marks (dedup m) victim id victim) as [H1 H2].
      destruct (check_and_insert (dedup m) victim id) as [[] d] eqn:Ec; simpl in *.
      - destruct (H2 c Hc eq_refl). lia.
      - revert Ec. unfold check_and_insert. rewrite (Hid id c Hc), Hc. fold (mark_of (dedup m) victim).
        destruct (Z.leb_spec c (mark_of (dedup m) victim)); [intros _; lia|].
        intros Ec. assert (Hd : high_water d = <[victim := c]> (high_water (dedup m))).
        { pose proof (ring_insert_marks (mkDedup (seen (dedup m)) (order (dedup m)) (<[victim := c]> (high_water (dedup m)))) victim id) as HH.
          by rewrite Ec in HH. }
        unfold mark_of. rewrite Hd, lookup_insert_eq. simpl. lia. }
    destruct (check_and_insert (dedup m) victim id) as [[] d]; cbn [negb]; [|done]. by destruct (negb _). }
  unfold gate. cbn [negb andb].
  destruct (negb (is_handshake (body e2)) && negb (bool_decide (victim ∈ authenticated_peers m1))); [reflexivity|].
  destruct (rate_step (rate_limits m1) victim now2) as [[] lim]; cbn [negb]; [|reflexivity].
  rewrite Hk2. destruct (negb (is_empty victim) && String.eqb victim (server_id m1)); [reflexivity|].
  rewrite (Hid id2 c2 Hc2). cbn [negb andb].
  assert (HX : (check_and_insert (dedup m1) victim id2).1 = false).
  { unfold check_and_insert. rewrite (Hid id2 c2 Hc2), Hc2. fold (mark_of (dedup m1) victim).
    by destruct (Z.leb_spec c2 (mark_of (dedup m1) victim)); [|lia]. }
  destruct (check_and_insert (dedup m1) victim id2) as [ok d]. simpl in HX. by subst ok.
Qed.

(** ** Duplicate links *)

(** When two servers dial each other at once, both ends keep the same one
    of the two connections. *)
Theorem one_link_survives (a b : string) :
  a <> b ->
  duplicate_link_wins a b false = duplicate_link_wins b a true /\
  duplicate_link_wins b a false = duplicate_link_wins a b true /\
  duplicate_link_wins a b false = negb (duplicate_link_wins b a false).
Proof.
  intros Hne. unfold duplicate_link_wins. rewrite (String.compare_antisym b a).
  destruct (String.compare a b) eqn:E; simpl; [|by split_and!..]. by apply String.compare_eq_iff in E.
Qed.

(** ** Task events go where they are understood *)

Lemma act_events_withheld {HO : HashOrder} (m : S2sManager) (msg : S2sMessage) (p : string) :
  In (p, msg) (broadcast_to_peers m msg) <->
  p ∈ peers m /\ is_allowlisted m p = true /\
  (is_act_message msg = true -> peer_supports (declared_by m p) ACT = true).
Proof.
  unfold broadcast_to_peers. rewrite <- list_elem_of_In, list_elem_of_omap. unfold may_relay_to. split.
  - intros ([q []] & Hq & H). simpl in H. destruct (_ && _ && _) eqn:E; [|done]. injection H as ->. bool_hyps.
    apply bool_decide_eq_true in H. split_and!; try done. intros Ha. rewrite Ha in *. done.
  - intros (H1 & H2 & H3). exists (p, tt). split.
    + rewrite (hash_iter_perm (gset_to_gmap tt (peers m))), elem_of_map_to_list. by apply lookup_gset_to_gmap_Some.
    + simpl. rewrite bool_decide_true, H2 by done. simpl. destruct (is_act_message msg); simpl; [by rewrite H3|done].
Qed.

(** ** What is relayed is one line, and carries no signature *)

Lemma escaped_no_newline text tags : str_contains LF (encode_privmsg_text_for_s2s text tags).1 = false.
Proof.
  unfold encode_privmsg_text_for_s2s. destruct (str_contains LF text) eqn:E; simpl; [|done]. clear E.
  unfold str_contains. induction text as [|c r IH]; simpl; [done|]. destruct (Ascii.eqb c LF) eqn:Ec; simpl; [by rewrite IH|].
  rewrite IH, Ascii.eqb_sym, Ec. done.
Qed.

Lemma relayed_tags_unsigned full : relay_coordination_tags full !! "+freeq.at/sig" = None.
Proof.
  unfold relay_coordination_tags. set (f := filter _ full).
  assert (H : f !! "+freeq.at/sig" = None) by (apply map_lookup_filter_None; right; naive_solver).
  destruct (full !! "+reply"), (full !! "+draft/reply"); rewrite ?lookup_insert_ne by done; done.
Qed.

(** ** Concrete links *)

Definition sample_manager : S2sManager :=
  mkManager "home" {["peer"; "liar"]} 7 dedup_new {["liar" := Readonly]} {["peer"; "liar"]} ∅ [] (mkContact 0 ∅) ∅.
Definition peer_manager : S2sManager :=
  mkManager "peer" {["home"]} 40 dedup_new ∅ {["home"]} ∅ [] (mkContact 0 ∅) ∅.

Lemma event_id_round_trip_witness :
  (next_event_id sample_manager).1 = "home:7" /\ parse_counter (next_event_id sample_manager).1 = Some 7.
Proof. split; [vm_compute; reflexivity|]. apply (event_id_round_trip sample_manager). simpl. lia. Defined.

Lemma ordered_events_accepted_witness :
  (dedup_run (dedup_run dedup_new [("peer", "peer:39"); ("x", "x:900")]).2 [("peer", "peer:40"); ("peer", "peer:41")]).1
  = [("peer", "peer:40"); ("peer", "peer:41")].
Proof.
  refine (ordered_events_accepted [("peer", "peer:39"); ("x", "x:900")] peer_manager 2 _ _ _); vm_compute; done.
Defined.

Lemma rate_limit_holds_witness :
  count_at "peer" 5 (rate_run ∅ (repeat ("peer", 5) 150)) <= S2S_MAX_EVENTS_PER_SEC /\
  count_at "peer" 5 (rate_run ∅ (repeat ("peer", 5) 150)) = 100.
Proof.
  split; [apply (rate_limit_holds (repeat ("peer", 5) 150) "peer" 5)|vm_compute; reflexivity].
  assert (H : forall n, StronglySorted (fun x y : string * Z => x.2 <= y.2) (repeat ("peer", 5) n)).
  { induction n as [|n IH]; simpl; [constructor|]. constructor; [exact IH|].
    apply Forall_forall. intros x Hx%list_elem_of_In%repeat_spec. subst x. simpl. lia. }
  exact (H 150%nat).
Defined.

Definition forged : S2sEvent := mkEvent "peer:99999999999999999" "peer" (Part "nobody" "#x").
Definition honest : S2sEvent := mkEvent "peer:41" "peer" (Part "ana" "#x").

(** A read-only peer's event is dropped, and with it everything the named peer
    sends from then on. *)
Lemma claimed_origin_silences_witness :
  (gate sample_manager "peer" honest false 5).1 = Some "peer" /\
  (gate sample_manager "liar" forged false 5).1 = None /\
  (gate (gate sample_manager "liar" forged false 5).2 "peer" honest false 5).1 = None.
Proof.
  split; [vm_compute; reflexivity|]. split; [vm_compute; reflexivity|].
  refine (claimed_origin_silences sample_manager "liar" "peer" "peer:99999999999999999" forged 99999999999999999 5
    _ _ _ _ _ _ honest "peer:41" 41 5 _ _ _);
    [refine (bool_decide_unpack _ _); vm_compute; exact I|reflexivity|discriminate|discriminate|reflexivity
     |vm_compute; reflexivity|reflexivity|vm_compute; reflexivity|lia].
Defined.

Lemma one_link_survives_witness :
  duplicate_link_wins "a" "b" false = true /\ duplicate_link_wins "a" "b" false = negb (duplicate_link_wins "b" "a" false).
Proof. split; [reflexivity|]. apply (one_link_survives "a" "b"). discriminate. Defined.
