(* ===== verification/Crdt.v ===== *)
(** * The shared document

    [ClusterDoc] of [freeq-server/src/crdt.rs]: what the servers of a cluster
    agree on, kept as flat keys in the root map of an Automerge document. The
    merge of two documents is Automerge's own and not modelled; the reads and
    the writes of one server are. *)

From stdpp Require Import base gmap strings list.
From Stdlib Require Import ZArith Lia String Ascii.
From S2P Require Import Prelude Text.
Open Scope string_scope.
Open Scope list_scope.

(** ** JSON texts *)

(** An object as far as the code looks into one: a field is a string, or is
    there and is something else. *)
Definition fields : Type := gmap string (option string).
Inductive json := JObject (l : fields) | JOther.

(** [serde_json]: an object of strings and nulls that is printed parses back. *)
Class Json := {
  json_text : fields -> string;
  json_parse : string -> option json;
  json_round_trip l : json_parse (json_text l) = Some (JObject l)
}.

(** [v.get(field)?.as_str()?] *)
Definition json_str (field : string) (v : json) : option string :=
  match v with JObject l => default None (l !! field) | JOther => None end.

(** ** The document *)

Module Cluster.

(** What an Automerge value can be, as far as the code looks. *)
Inductive Scalar := Str (s : string) | NotStr.

Definition value_to_string (v : Scalar) : option string :=
  match v with Str s => Some s | NotStr => None end.

Record ClusterDoc := mkDoc {
  doc : gmap string Scalar;
  actor_id : string
}.

Definition new_doc (server_id : string) : ClusterDoc := mkDoc ∅ server_id.
Definition put (key value : string) (d : ClusterDoc) : ClusterDoc := mkDoc (<[key := Str value]> (doc d)) (actor_id d).
Definition remove (key : string) (d : ClusterDoc) : ClusterDoc := mkDoc (delete key (doc d)) (actor_id d).
Definition rekey_actor (new_actor_id : string) (d : ClusterDoc) : ClusterDoc := mkDoc (doc d) new_actor_id.

(** [map_range] walks the keys in order. *)
Definition range_with (prefix : string) (d : ClusterDoc) : list (string * Scalar) :=
  omap (fun kv => rest ← strip_prefix prefix kv.1; Some (rest, kv.2)) (btree_iter (doc d)).

Definition topic_key (channel : string) : string := "topic:" +:+ channel.
Definition topic_by_key (channel : string) : string := "topic_by:" +:+ channel.
Definition ban_key (channel mask : string) : string := "ban:" +:+ channel +:+ ":" +:+ mask.
Definition nick_owner_key (nick : string) : string := "nick_owner:" +:+ nick.
Definition founder_key (channel : string) : string := "founder:" +:+ channel.
Definition did_op_key (channel did : string) : string := "did_op:" +:+ channel +:+ ":" +:+ did.

Section Doc.
Context {J : Json}.

Definition set_topic (channel topic set_by : string) (set_by_did : option string) (origin_peer : string)
    (d : ClusterDoc) : ClusterDoc :=
  let value := <["text" := Some topic]> (<["set_by" := Some set_by]> (<["set_by_did" := set_by_did]>
                 {["origin_peer" := Some origin_peer]})) in
  put (topic_by_key channel) set_by (put (topic_key channel) (json_text value) d).

Definition channel_topic (channel : string) (d : ClusterDoc) : option (string * string) :=
  v ← doc d !! topic_key channel;
  raw ← value_to_string v;
  match json_parse raw with
  | Some parsed =>
      text ← json_str "text" parsed;
      set_by ← json_str "set_by" parsed;
      Some (text, set_by)
  | None =>
      w ← doc d !! topic_by_key channel;
      setter ← value_to_string w;
      Some (raw, setter)
  end.

Definition channel_topic_provenance (channel : string) (d : ClusterDoc) : option json :=
  v ← doc d !! topic_key channel; raw ← value_to_string v; json_parse raw.

Definition add_ban (channel mask set_by : string) (set_by_did : option string) (origin_peer : string)
    (d : ClusterDoc) : ClusterDoc :=
  put (ban_key channel mask)
    (json_text (<["set_by" := Some set_by]> (<["set_by_did" := set_by_did]> {["origin_peer" := Some origin_peer]}))) d.

Definition remove_ban (channel mask : string) (d : ClusterDoc) : ClusterDoc := remove (ban_key channel mask) d.

Definition channel_bans (channel : string) (d : ClusterDoc) : list (string * string) :=
  omap (fun kv => v ← value_to_string kv.2; Some (kv.1, v)) (range_with (ban_key channel "") d).

Definition set_nick_owner (nick did : string) (d : ClusterDoc) : ClusterDoc := put (nick_owner_key nick) did d.
Definition nick_owner (nick : string) (d : ClusterDoc) : option string :=
  v ← doc d !! nick_owner_key nick; value_to_string v.

(** The actor recorded with the founder, where there is a readable record. *)
Definition founder_actor (channel : string) (d : ClusterDoc) : option string :=
  v ← doc d !! founder_key channel;
  existing_str ← value_to_string v;
  existing ← json_parse existing_str;
  Some (default "" (json_str "actor_id" existing)).

Definition founder_value (did actor : string) : fields := <["did" := Some did]> {["actor_id" := Some actor]}.

(** A record is kept unless our actor id is strictly smaller than its own. *)
Definition set_founder (channel did : string) (d : ClusterDoc) : ClusterDoc :=
  let write := put (founder_key channel) (json_text (founder_value did (actor_id d))) d in
  match founder_actor channel d with
  | Some existing_actor => if String.leb existing_actor (actor_id d) then d else write
  | None => write
  end.

Definition founder (channel : string) (d : ClusterDoc) : option string :=
  v ← doc d !! founder_key channel;
  raw ← value_to_string v;
  match json_parse raw with
  | Some parsed => json_str "did" parsed
  | None => Some raw
  end.

Definition grant_op (channel did : string) (granted_by_did : option string) (origin_peer : string)
    (d : ClusterDoc) : ClusterDoc :=
  put (did_op_key channel did)
    (json_text (<["granted_by_did" := granted_by_did]> {["origin_peer" := Some origin_peer]})) d.

Definition revoke_op (channel did : string) (d : ClusterDoc) : ClusterDoc := remove (did_op_key channel did) d.

Definition channel_did_ops (channel : string) (d : ClusterDoc) : list string :=
  fst <$> range_with (did_op_key channel "") d.

Definition did_op_provenance (channel did : string) (d : ClusterDoc) : option json :=
  v ← doc d !! did_op_key channel did; raw ← value_to_string v; json_parse raw.

Definition validate_topic_authority (channel : string) (setter_did : option string) (require_did : bool)
    (d : ClusterDoc) : bool :=
  match setter_did with
  | None => negb require_did
  | Some did =>
      bool_decide (founder channel d = Some did) || existsb (String.eqb did) (channel_did_ops channel d)
  end.

Definition validate_op_grant_authority (channel : string) (granter_did : option string) (require_did : bool)
    (d : ClusterDoc) : bool :=
  match granter_did with
  | None => negb require_did
  | Some did =>
      bool_decide (founder channel d = Some did) || existsb (String.eqb did) (channel_did_ops channel d)
  end.

(** ** Lemmas *)

Lemma range_with_spec prefix d r v :
  (r, v) ∈ range_with prefix d <-> doc d !! (prefix +:+ r) = Some v.
Proof.
  unfold range_with. rewrite list_elem_of_omap. split.
  - intros ([k w] & Hin & H). simpl in H. destruct (strip_prefix prefix k) eqn:E; [|done]. simpl in H.
    injection H as <- <-. apply strip_prefix_some in E as ->. by apply btree_iter_lookup, list_elem_of_In.
  - intros H. exists (prefix +:+ r, v). split; [by apply list_elem_of_In, btree_iter_lookup|]. simpl.
    by rewrite (proj2 (strip_prefix_some prefix (prefix +:+ r) r)).
Qed.

Lemma app_cancel_l (p s t : string) : p +:+ s = p +:+ t -> s = t.
Proof. induction p as [|a p IH]; [done|]. simpl. intros [=]. auto. Qed.

Lemma did_op_key_prefix channel did : did_op_key channel did = did_op_key channel "" +:+ did.
Proof. unfold did_op_key. by rewrite !append_assoc. Qed.

Lemma elem_of_did_ops channel d did :
  did ∈ channel_did_ops channel d <-> is_Some (doc d !! did_op_key channel did).
Proof.
  unfold channel_did_ops. rewrite list_elem_of_fmap, (did_op_key_prefix channel did). split.
  - intros ([r v] & -> & H). apply range_with_spec in H. by exists v.
  - intros [v H]. exists (did, v). split; [done|]. by apply range_with_spec.
Qed.

Lemma founder_put channel did a d : founder channel (put (founder_key channel) (json_text (founder_value did a)) d) = Some did.
Proof.
  unfold founder, put. simpl doc. rewrite lookup_insert_eq. cbn [mbind option_bind value_to_string].
  by rewrite json_round_trip.
Qed.

Lemma founder_actor_put channel did a d :
  founder_actor channel (put (founder_key channel) (json_text (founder_value did a)) d) = Some a.
Proof.
  unfold founder_actor, put. simpl doc. rewrite lookup_insert_eq. cbn [mbind option_bind value_to_string].
  by rewrite json_round_trip.
Qed.

(** ** The founder *)

Inductive doc_op :=
  | DSetTopic (channel topic set_by : string) (did : option string)
  | DAddBan (channel mask set_by : string) (did : option string)
  | DRemoveBan (channel mask : string)
  | DSetNickOwner (nick did : string)
  | DSetFounder (channel did : string)
  | DGrantOp (channel did : string) (granter : option string)
  | DRevokeOp (channel did : string).

Definition doc_step (origin_peer : string) (d : ClusterDoc) (o : doc_op) : ClusterDoc :=
  match o with
  | DSetTopic c t by_ did => set_topic c t by_ did origin_peer d
  | DAddBan c m by_ did => add_ban c m by_ did origin_peer d
  | DRemoveBan c m => remove_ban c m d
  | DSetNickOwner n did => set_nick_owner n did d
  | DSetFounder c did => set_founder c did d
  | DGrantOp c did g => grant_op c did g origin_peer d
  | DRevokeOp c did => revoke_op c did d
  end.

(** The record of a channel's founder, and that it wins against our own id. *)
Definition settled (channel : string) (v : option Scalar) (d : ClusterDoc) : Prop :=
  doc d !! founder_key channel = v /\
  exists a, founder_actor channel d = Some a /\ String.leb a (actor_id d) = true.

Lemma leb_refl (a : string) : String.leb a a = true.
Proof. unfold String.leb. induction a as [|c a IH]; simpl; [done|]. by rewrite ascii_compare_refl. Qed.

Lemma set_founder_settles channel did d :
  let d' := set_founder channel did d in settled channel (doc d' !! founder_key channel) d'.
Proof.
  cbv zeta. split; [done|]. unfold set_founder. destruct (founder_actor channel d) as [a|] eqn:E;
    [destruct (String.leb a (actor_id d)) eqn:L; [by exists a|]|];
    exists (actor_id d); (split; [apply founder_actor_put|apply leb_refl]).
Qed.

Lemma settled_frame channel v d d' :
  settled channel v d -> doc d' !! founder_key channel = doc d !! founder_key channel -> actor_id d' = actor_id d ->
  settled channel v d'.
Proof. intros [H (a & Ha & L)] E Ea. split; [congruence|]. exists a. unfold founder_actor in *. by rewrite E, Ea. Qed.

Lemma doc_step_settled origin_peer channel v d o :
  settled channel v d -> settled channel v (doc_step origin_peer d o).
Proof.
  intros H. destruct o; simpl; try (eapply settled_frame; [exact H| |done]; simpl;
    rewrite ?lookup_insert_ne, ?lookup_delete_ne by discriminate; done).
  unfold set_founder. destruct (decide (channel0 = channel)) as [->|Hn].
  - destruct H as [E (a & Ha & L)]. rewrite Ha, L. split; [done|]. by exists a.
  - assert (founder_key channel0 <> founder_key channel) as Hk by (intros E; by apply Hn, (app_cancel_l "founder:")).
    assert (settled channel v (put (founder_key channel0) (json_text (founder_value did (actor_id d))) d)) as Hp.
    { eapply settled_frame; [exact H| |done]. simpl. by rewrite lookup_insert_ne. }
    destruct (founder_actor channel0 d) as [a|]; [destruct (String.leb a (actor_id d))|]; done.
Qed.

(** Once this server has recorded a founder for a channel, no later write
    of its own changes the record, whatever it writes about this channel or
    others; and a channel nobody has claimed goes to the first claim. *)
Theorem founder_is_stable (origin_peer channel did : string) (d : ClusterDoc) (l : list doc_op) :
  let d1 := set_founder channel did d in
  founder channel (fold_left (doc_step origin_peer) l d1) = founder channel d1 /\
  (founder_actor channel d = None -> founder channel d1 = Some did).
Proof.
  cbv zeta. split; [|intros H; unfold set_founder; rewrite H; apply founder_put].
  destruct (fold_left_inv (settled channel (doc (set_founder channel did d) !! founder_key channel))
    (doc_step origin_peer) l (set_founder channel did d)) as [E _];
    [intros; by apply doc_step_settled|apply set_founder_settles|].
  unfold founder. by rewrite E.
Qed.

(** ** Op DIDs *)

(** A grant is read back, and for channels without a colon in their names by
    that channel only. *)
Lemma grant_op_read channel did g o d :
  did ∈ channel_did_ops channel (grant_op channel did g o d).
Proof. apply elem_of_did_ops. unfold grant_op. simpl. rewrite lookup_insert_eq. by eexists. Qed.

Lemma did_op_key_inj c c' did did' :
  str_contains ":" c = false -> str_contains ":" c' = false ->
  did_op_key c did = did_op_key c' did' -> c = c' /\ did = did'.
Proof.
  intros H H' E%app_cancel_l. pose proof (split_once_app ":"%char c did H) as S1.
  pose proof (split_once_app ":"%char c' did' H') as S2. change (":" +:+ did) with (String ":" did) in E.
  change (":" +:+ did') with (String ":" did') in E. rewrite E in S1. rewrite S2 in S1. by injection S1 as -> ->.
Qed.

Lemma grant_op_exact c c' did did' g o d :
  str_contains ":" c = false -> str_contains ":" c' = false ->
  (did ∈ channel_did_ops c (grant_op c' did' g o d) <-> c = c' /\ did = did' \/ did ∈ channel_did_ops c d).
Proof.
  intros H H'. rewrite !elem_of_did_ops. unfold grant_op. simpl. rewrite lookup_insert_is_Some. split.
  - intros [E|[_ ?]]; [left|by right]. apply did_op_key_inj in E as [-> ->]; auto.
  - intros [[-> ->]|Hs]; [by left|]. destruct (decide (did_op_key c' did' = did_op_key c did)); auto.
Qed.

(** With one, a grant in the longer-named channel is read as a grant in the
    shorter-named one. *)
Lemma grant_op_leaks c rest did g o d :
  (rest +:+ ":" +:+ did) ∈ channel_did_ops c (grant_op (c +:+ ":" +:+ rest) did g o d).
Proof.
  apply elem_of_did_ops. unfold grant_op.
  assert (did_op_key (c +:+ ":" +:+ rest) did = did_op_key c (rest +:+ ":" +:+ did)) as ->
    by (unfold did_op_key; by rewrite !append_assoc).
  unfold put. cbn [doc]. rewrite lookup_insert_eq. by eexists.
Qed.
End Doc.
End Cluster.

(** ** An instance *)

(** Objects written as their number in some enumeration. *)
Definition bit_json : Json.
Proof.
  refine {| json_text l := enum_text l; json_parse s := JObject <$> enum_read s |}.
  intros l. by rewrite enum_read_text.
Defined.

(** A record in the old format, a bare DID, is read as the founder but does not
    stop another claim. *)
Example legacy_founder_is_replaced :
  let d := Cluster.put (Cluster.founder_key "#old") "did:plc:ana" (Cluster.new_doc "b") in
  @Cluster.founder bit_json "#old" d = Some "did:plc:ana" /\
  @Cluster.founder bit_json "#old" (@Cluster.set_founder bit_json "#old" "did:plc:eve" d) = Some "did:plc:eve".
Proof. split; vm_compute; reflexivity. Qed.

Example op_leaks_to_shorter_name :
  @Cluster.channel_did_ops "#a" (@Cluster.grant_op bit_json "#a:b" "did:plc:eve" None "me" (Cluster.new_doc "me"))
  = ["b:did:plc:eve"].
Proof. vm_compute. reflexivity. Qed.
