(* ===== verification/Federation.v ===== *)
(** * What a peer's messages do to channels

    The arms of [process_s2s_event] in [freeq-server/src/server.rs] that change
    channels, and the periodic [reconcile_crdt_to_local]. An arm is reached
    once [S2sLink.gate] has let the message in; [origin] is the origin the gate
    returned. [now] is the clock. *)

From stdpp Require Import base gmap strings list fin_maps.
From Stdlib Require Import ZArith Lia String Ascii.
From S2P Require Import Prelude NickMap RoomTables S2sMessage Channel Rooms ChannelOps Pins S2sLink Crdt.
Open Scope string_scope.
Open Scope list_scope.
Open Scope Z_scope.

Section Federation.
Context {CF : CaseFold} {HO : HashOrder}.

(** ** Helpers *)

Definition wire_unsafe (c : ascii) : bool := Ascii.eqb c CR || Ascii.eqb c LF || Ascii.eqb c NUL.

Definition sanitize_s2s_str (s : string) (max_len : nat) : string :=
  take_chars max_len (str_filter (fun c => negb (wire_unsafe c)) s).

(** The channel a peer's message is about, created with +n and +t when it is
    new to this server. *)
Definition s2s_new_channel : ChannelState := set_topic_locked true (set_no_ext_msg true default_channel).
Definition s2s_channel_entry (s : Server) (channel : string) : ChannelState :=
  default s2s_new_channel (channels s !! channel).

Definition update_entry (channel : string) (f : ChannelState -> ChannelState) (s : Server) : Server :=
  set_channels (<[channel := f (s2s_channel_entry s channel)]> (channels s)) s.

Definition deliver_to_channel (s : Server) (channel line : string) : list Effect :=
  broadcast_to_channel s (to_lowercase channel) line.

Definition remote_is_op (ch : ChannelState) (rm : RemoteMember) : bool := rm_is_op rm || is_authority ch (rm_did rm).

(** The setter by the roster, or by the DID the event carries. *)
Definition setter_authorized (ch : ChannelState) (nick : string) (did : option string) : bool :=
  match remote_member ch nick with Some rm => remote_is_op ch rm | None => false end || is_authority ch did.

Definition member_prefix (ch : ChannelState) (sid : string) : string :=
  if bool_decide (sid ∈ ops ch) then "@"
  else if bool_decide (sid ∈ halfops ch) then "%"
  else if bool_decide (sid ∈ voiced ch) then "+" else "".

Definition send_names_update (s : Server) (channel : string) : list Effect :=
  match channels s !! channel with
  | None => []
  | Some ch =>
      let local := omap (fun sid => n ← get_nick (nicks s) sid; Some (member_prefix ch sid +:+ n))
                     (set_iter (members ch)) in
      let remote := map (fun kv => (if remote_is_op ch kv.2 then "@" else "") +:+ kv.1)
                      (hash_iter (remote_members ch)) in
      let nick_str := str_join " " (local ++ remote) in
      flat_map (fun sid =>
        let member_nick := default "*" (get_nick (nicks s) sid) in
        send_to s [sid]
          (":" +:+ server_name s +:+ " 353 " +:+ member_nick +:+ " = " +:+ channel +:+ " :" +:+ nick_str +:+ CRLF
           +:+ ":" +:+ server_name s +:+ " 366 " +:+ member_nick +:+ " " +:+ channel
           +:+ " :End of /NAMES list" +:+ CRLF))
        (set_iter (members ch))
  end.

(** ** Presence *)

Definition join_refused (ch : ChannelState) (nick : string) (did : option string) : bool :=
  let has_invite := match did with Some d => bool_decide (d ∈ invites ch) | None => false end
                    || bool_decide (invite_nick_token nick ∈ invites ch) in
  (invite_only ch && negb has_invite) || is_banned ch (nick +:+ "!" +:+ nick +:+ "@s2s") did.

Definition did_well_formed (d : string) : bool :=
  (starts_with "did:plc:" d || starts_with "did:web:" d || starts_with "did:key:" d)
  && (12 <=? Z.of_nat (String.length d)) && (Z.of_nat (String.length d) <=? 256).

Definition enter_remote (nick : string) (did handle actor_class : option string) (origin : string)
    (ch : ChannelState) : ChannelState :=
  let after_did := match did with Some d => invites ch ∖ {[d]} | None => invites ch end in
  let rm := mkRemote origin did handle (is_authority ch did) actor_class in
  set_remote (<[nick := rm]> (remote_members ch)) (set_invites (after_did ∖ {[invite_nick_token nick]}) ch).

Definition s2s_join (s : Server) (origin nick channel : string) (did handle actor_class : option string)
    : Server * list Effect :=
  let nick := sanitize_s2s_str nick 64 in
  let channel := to_lowercase (sanitize_s2s_str channel 200) in
  if match channels s !! channel with Some ch => join_refused ch nick did | None => false end then (s, [])
  else if match did with Some d => negb (did_well_formed d) | None => false end then (s, [])
  else
    let s' := update_entry channel (enter_remote nick did handle actor_class origin) s in
    let line := ":" +:+ nick +:+ "!" +:+ nick +:+ "@s2s JOIN " +:+ channel +:+ CRLF in
    let line := match actor_class with
                | Some ac => "@+freeq.at/actor-class=" +:+ ac +:+ " " +:+ line
                | None => line
                end in
    (s', deliver_to_channel s' channel line ++ send_names_update s' channel).

Definition s2s_part (s : Server) (nick channel : string) : Server * list Effect :=
  let channel := to_lowercase channel in
  let s' := update_channel channel (remove_remote_member nick) s in
  (s', deliver_to_channel s' channel (":" +:+ nick +:+ "!" +:+ nick +:+ "@s2s PART " +:+ channel +:+ CRLF)
       ++ send_names_update s' channel).

(** The channels, in the order the map is walked, that satisfy a test. *)
Definition channels_where (p : ChannelState -> bool) (s : Server) : list string :=
  map fst (List.filter (fun kv => p kv.2) (hash_iter (channels s))).

Definition s2s_quit (s : Server) (nick reason : string) : Server * list Effect :=
  let affected := channels_where (fun ch => has_remote_member ch nick) s in
  let s' := set_channels (remove_remote_member nick <$> channels s) s in
  let line := ":" +:+ nick +:+ "!" +:+ nick +:+ "@s2s QUIT :" +:+ reason +:+ CRLF in
  (s', flat_map (fun c => deliver_to_channel s' c line ++ send_names_update s' c) affected).

Definition rename_remote (old new : string) (ch : ChannelState) : ChannelState :=
  match remote_entry ch old with
  | Some (k, rm) => set_remote (<[new := rm]> (delete k (remote_members ch))) ch
  | None => ch
  end.

Definition s2s_nick_change (s : Server) (old new : string) : Server * list Effect :=
  let line := ":" +:+ old +:+ "!remote@s2s NICK :" +:+ new +:+ CRLF in
  let watching : gset string :=
    ⋃ (map (fun kv => if has_remote_member kv.2 old then members kv.2 else ∅) (hash_iter (channels s))) in
  let s' := set_channels (rename_remote old new <$> channels s) s in
  (s', send_to s' (set_iter watching) line).

Definition without_peer (peer : string) (ch : ChannelState) : ChannelState :=
  set_remote (filter (fun kv => rm_origin kv.2 <> peer) (remote_members ch)) ch.

Definition s2s_peer_disconnected (s : Server) (peer : string) : Server * list Effect :=
  let affected := channels_where (fun ch => existsb (fun kv => String.eqb (rm_origin kv.2) peer)
                                                    (hash_iter (remote_members ch))) s in
  let s' := set_channels (without_peer peer <$> channels s) s in
  (s', flat_map (send_names_update s') affected).

(** ** Administration *)

Definition s2s_topic (s : Server) (channel text set_by : string) (set_by_did : option string) (now : Z)
    : Server * list Effect :=
  let channel := to_lowercase (sanitize_s2s_str channel 200) in
  let text := sanitize_s2s_str text 512 in
  let set_by := sanitize_s2s_str set_by 200 in
  if match channels s !! channel with
     | Some ch => topic_locked ch && negb (setter_authorized ch set_by set_by_did)
     | None => false
     end then (s, [])
  else
    let setter_did := ch ← channels s !! channel; rm ← remote_member ch set_by; rm_did rm in
    let s' := update_entry channel (set_topic (Some (mkTopic text set_by now))) s in
    (s', Crdt (CrdtSetTopic channel text set_by setter_did)
         :: deliver_to_channel s' channel (":" +:+ set_by +:+ "!remote@s2s TOPIC " +:+ channel +:+ " :" +:+ text +:+ CRLF)).

(** +o and -o reach the list of op DIDs too, but never take it from the founder. *)
Definition did_op_follows (adding : bool) (did : string) (ch : ChannelState) : ChannelState :=
  if negb adding && bool_decide (founder_did ch = Some did) then ch
  else set_did_ops (toggle adding did (did_ops ch)) ch.

Definition s2s_member_mode (s : Server) (is_o adding : bool) (target : string) (ch : ChannelState) : ChannelState :=
  match get_session (nicks s) target with
  | Some sid =>
      if is_o then
        let ch := set_ops (toggle adding sid (ops ch)) ch in
        match did_of_session s sid with Some did => did_op_follows adding did ch | None => ch end
      else set_voiced (toggle adding sid (voiced ch)) ch
  | None =>
      if is_o then
        let remote_did := rm ← remote_member ch target; rm_did rm in
        let ch := modify_remote_member (fun rm => mkRemote (rm_origin rm) (rm_did rm) (rm_handle rm) adding
                                                    (rm_actor_class rm)) target ch in
        match remote_did with Some did => did_op_follows adding did ch | None => ch end
      else ch
  end.

(** The last character of a mode string; any other than the ones matched on is
    as good as a blank. *)
Fixpoint last_char (s : string) : ascii :=
  match s with
  | EmptyString => " "%char
  | String c EmptyString => c
  | String _ r => last_char r
  end.

Definition s2s_mode_change (s : Server) (mode : string) (arg : option string) (ch : ChannelState) : ChannelState :=
  let adding := starts_with_char "+"%char mode in
  match last_char mode with
  | "t"%char => set_topic_locked adding ch
  | "i"%char => set_invite_only adding ch
  | "n"%char => set_no_ext_msg adding ch
  | "m"%char => set_moderated adding ch
  | "k"%char => set_key (if adding then arg else None) ch
  | "o"%char => match arg with Some target => s2s_member_mode s true adding target ch | None => ch end
  | "v"%char => match arg with Some target => s2s_member_mode s false adding target ch | None => ch end
  | _ => ch
  end.

Definition refused_by (s : Server) (channel nick : string) (did : option string) : bool :=
  match channels s !! channel with Some ch => negb (setter_authorized ch nick did) | None => false end.

Definition s2s_mode (s : Server) (channel mode : string) (arg : option string) (set_by : string)
    (set_by_did : option string) : Server * list Effect :=
  let channel := to_lowercase channel in
  if refused_by s channel set_by set_by_did then (s, [])
  else
    let s' := update_channel channel (s2s_mode_change s mode arg) s in
    let suffix := match arg with Some a => " " +:+ a | None => "" end in
    (s', deliver_to_channel s' channel (":" +:+ set_by +:+ "!remote@s2s MODE " +:+ channel +:+ " " +:+ mode
                                        +:+ suffix +:+ CRLF)).

Definition s2s_kick (s : Server) (nick channel by_ : string) (by_did : option string) (reason : string)
    : Server * list Effect :=
  let channel_key := to_lowercase channel in
  if refused_by s channel_key by_ by_did then (s, [])
  else
    let kick_line := ":" +:+ by_ +:+ "!remote@s2s KICK " +:+ channel +:+ " " +:+ nick +:+ " :" +:+ reason +:+ CRLF in
    match get_session (nicks s) nick with
    | Some sid => (update_channel channel_key (remove_session sid) s, deliver_to_channel s channel_key kick_line)
    | None =>
        let removed := match channels s !! channel_key with Some ch => has_remote_member ch nick | None => false end in
        let s' := update_channel channel_key (remove_remote_member nick) s in
        (s', if removed then deliver_to_channel s' channel_key kick_line else [])
    end.

(** Append a mask that is not there yet. *)
Definition merge_mask (by_ : string) (now : Z) (l : list BanEntry) (m : string) : list BanEntry :=
  if has_mask m l then l else l ++ [mkBan m by_ now].

Definition change_masks (adding : bool) (m by_ : string) (now : Z) (l : list BanEntry) : list BanEntry :=
  if adding then merge_mask by_ now l m else drop_mask m l.

Definition s2s_ban (s : Server) (channel m set_by : string) (set_by_did : option string) (adding : bool) (now : Z)
    : Server * list Effect :=
  let channel_key := to_lowercase channel in
  if refused_by s channel_key set_by set_by_did then (s, [])
  else
    let s' := update_channel channel_key (fun ch => set_bans (change_masks adding m set_by now (bans ch)) ch) s in
    (s', deliver_to_channel s' channel_key
           (":" +:+ set_by +:+ "!remote@s2s MODE " +:+ channel +:+ (if adding then " +b " else " -b ") +:+ m +:+ CRLF)).

Definition s2s_invite_exception (s : Server) (channel m set_by : string) (set_by_did : option string)
    (adding : bool) (now : Z) : Server * list Effect :=
  let channel_key := to_lowercase channel in
  if refused_by s channel_key set_by set_by_did then (s, [])
  else
    let s' := update_channel channel_key
                (fun ch => set_exceptions (change_masks adding m set_by now (invite_exceptions ch)) ch) s in
    (s', deliver_to_channel s' channel_key
           (":" +:+ set_by +:+ "!remote@s2s MODE " +:+ channel +:+ (if adding then " +I " else " -I ") +:+ m +:+ CRLF)).

(** An invitation needs an op on a +i channel and a member on any other. *)
Definition invite_refused (ch : ChannelState) (invited_by : string) (invited_by_did : option string) : bool :=
  if invite_only ch then negb (setter_authorized ch invited_by invited_by_did)
  else negb (is_some (remote_member ch invited_by)).

Definition canonical_invitee (invitee : string) : string :=
  match strip_prefix "nick:" invitee with Some n => invite_nick_token n | None => invitee end.

Definition s2s_invite (s : Server) (channel invitee invited_by : string) (invited_by_did : option string)
    : Server * list Effect :=
  let channel_key := to_lowercase channel in
  if match channels s !! channel_key with Some ch => invite_refused ch invited_by invited_by_did | None => false end
  then (s, [])
  else (update_channel channel_key (fun ch => set_invites (invites ch ∪ {[canonical_invitee invitee]}) ch) s, []).

(** [root_msgid] is the database's answer to which message an id is a revision of. *)
Definition s2s_pin (root_msgid : string -> string) (s : Server) (channel msgid pinned_by : string)
    (pinned_by_did : option string) (adding : bool) (now : Z) : Server * list Effect :=
  let channel := to_lowercase (sanitize_s2s_str channel 200) in
  let msgid := root_msgid (sanitize_s2s_str msgid 100) in
  let pinned_by := sanitize_s2s_str pinned_by 64 in
  if refused_by s channel pinned_by pinned_by_did then (s, [])
  else
    match channels s !! channel with
    | None => (s, [])
    | Some ch =>
        let fresh := negb (is_pinned msgid (pins ch)) in
        let l := if adding then if fresh then add_pin (mkPin msgid pinned_by now) (pins ch) else pins ch
                 else drop_pin msgid (pins ch) in
        let s' := update_channel channel (set_pins l) s in
        let rows := if adding then if fresh then [Db (StorePin channel msgid pinned_by now)] else []
                    else [Db (RemovePin channel msgid)] in
        let notice := pin_notice (if adding then "+freeq.at/pin" else "+freeq.at/unpin") pinned_by "s2s" channel msgid
                        (if adding then "pinned" else "unpinned") in
        (s', rows ++ broadcast_to_channel s' channel notice)
    end.

(** ** Founders and op DIDs a peer tells of *)

Definition adopt_founder (claimed : option string) (ch : ChannelState) : ChannelState :=
  match founder_did ch, claimed with
  | None, Some did => if starts_with "did:" did then set_founder (Some did) ch else ch
  | _, _ => ch
  end.

Definition accept_did_op (require_did : bool) (claimed_founder : option string) (ch : ChannelState) (did : string)
    : ChannelState :=
  let has_authority := is_some claimed_founder || is_some (founder_did ch) || negb (bool_decide (did_ops ch = ∅)) in
  if negb (starts_with "did:" did) then ch
  else if negb has_authority && require_did then ch
  else set_did_ops (did_ops ch ∪ {[did]}) ch.

Definition adopt_authority (require_did : bool) (claimed : option string) (dids : list string) (ch : ChannelState)
    : ChannelState :=
  fold_left (accept_did_op require_did claimed) dids (adopt_founder claimed ch).

(** The members whose DID gives them authority. *)
Definition backed (s : Server) (ch : ChannelState) : gset string :=
  filter (fun sid => is_authority ch (did_of_session s sid) = true) (members ch).

Definition grant_backed (s : Server) (ch : ChannelState) : ChannelState := set_ops (ops ch ∪ backed s ch) ch.

(** Grant, and then revoke what no DID backs, provided that somebody with
    authority has ops. *)
Definition reassess_ops (s : Server) (ch : ChannelState) : ChannelState :=
  let b := backed s ch in
  let granted := grant_backed s ch in
  if negb (bool_decide (b = ∅)) || existsb (fun kv => rm_is_op kv.2) (hash_iter (remote_members ch))
  then set_ops (ops granted ∖ (members ch ∖ b)) granted else granted.

Definition s2s_channel_created (require_did : bool) (s : Server) (channel : string) (claimed : option string)
    (dids : list string) : Server * list Effect :=
  let channel := to_lowercase channel in
  let s' := update_entry channel (fun ch => grant_backed s (adopt_authority require_did claimed dids ch)) s in
  let crdt_founder := match claimed with
                      | Some did => if starts_with "did:" did then [Crdt (CrdtSetFounder channel did)] else []
                      | None => []
                      end in
  let grants := map (fun did => Crdt (CrdtGrantOp channel did claimed)) (List.filter (starts_with "did:") dids) in
  let has_local := negb (bool_decide (members (s2s_channel_entry s channel) = ∅)) in
  (s', crdt_founder ++ grants ++ if has_local then send_names_update s' channel else []).

(** ** Synchronisation *)

Definition sync_nick (s : Server) (ch : ChannelState) (sid : string) : option SyncNick :=
  n ← get_nick (nicks s) sid;
  Some (mkSyncNick n (bool_decide (sid ∈ ops ch)) (did_of_session s sid)
          (actor_class_name <$> session_actor_class s !! sid)).

Definition channel_info (s : Server) (name : string) (ch : ChannelState) : ChannelInfo :=
  mkChannelInfo name (tp_text <$> topic ch) (omap (get_nick (nicks s)) (set_iter (members ch)))
    (omap (sync_nick s ch) (set_iter (members ch))) (founder_did ch) (set_iter (did_ops ch)) (created_at ch)
    (topic_locked ch) (invite_only ch) (no_ext_msg ch) (moderated ch) (key ch) (mask <$> bans ch)
    (set_iter (invites ch)) (mask <$> invite_exceptions ch).

(** Rooms are left out of the answer. *)
Definition sync_response (s : Server) (server_id : string) : S2sMessage :=
  SyncResponse server_id
    (map (fun kv => channel_info s kv.1 kv.2) (List.filter (fun kv => negb (room kv.2)) (hash_iter (channels s)))).

Definition s2s_sync_request (s : Server) (server_id : string) : Server * list Effect :=
  (s, [Peers (sync_response s server_id); Crdt CrdtBroadcastSync]).

Definition MAX_SYNC_CHANNELS : nat := 500.
Definition MAX_SYNC_INVITES : nat := 500.

Definition add_remote (peer : string) (ch : ChannelState) (ni : SyncNick) : ChannelState :=
  set_remote (<[sn_nick ni := mkRemote peer (sn_did ni) None (is_authority ch (sn_did ni)) (sn_actor_class ni)]>
                (remote_members ch)) ch.

(** The detailed roster when there is one, else bare nicks. *)
Definition merge_presence (peer : string) (info : ChannelInfo) (ch : ChannelState) : ChannelState :=
  match ci_nick_info info with
  | [] => fold_left (fun c n => set_remote (<[n := mkRemote peer None None false None]> (remote_members c)) c)
            (ci_nicks info) ch
  | l => fold_left (add_remote peer) l ch
  end.

Definition merge_topic (info : ChannelInfo) (now : Z) (ch : ChannelState) : ChannelState :=
  match topic ch, ci_topic info with
  | None, Some t => set_topic (Some (mkTopic t (default "unknown" (ci_founder_did info)) now)) ch
  | _, _ => ch
  end.

(** Without local members the peer's modes are taken over; with some they can
    only add to the protections there are. *)
Definition merge_modes (info : ChannelInfo) (ch : ChannelState) : ChannelState :=
  if bool_decide (members ch = ∅) then
    set_key (ci_key info) (set_moderated (ci_moderated info) (set_no_ext_msg (ci_no_ext_msg info)
      (set_invite_only (ci_invite_only info) (set_topic_locked (ci_topic_locked info) ch))))
  else
    set_key (match key ch with Some k => Some k | None => ci_key info end)
      (set_moderated (ci_moderated info || moderated ch) (set_no_ext_msg (ci_no_ext_msg info || no_ext_msg ch)
        (set_invite_only (ci_invite_only info || invite_only ch)
          (set_topic_locked (ci_topic_locked info || topic_locked ch) ch)))).

Definition merge_masks (peer : string) (info : ChannelInfo) (now : Z) (ch : ChannelState) : ChannelState :=
  let by_ := "s2s:" +:+ peer in
  let ch := set_bans (fold_left (merge_mask by_ now) (ci_bans info) (bans ch)) ch in
  set_exceptions (fold_left (merge_mask by_ now) (ci_invite_exceptions info) (invite_exceptions ch)) ch.

(** Invitations only from a peer that names the founder we know, up to a limit. *)
Definition merge_invites (info : ChannelInfo) (ch : ChannelState) : ChannelState :=
  if is_some (founder_did ch) && negb (bool_decide (ci_founder_did info = founder_did ch)) then ch
  else
    set_invites
      (fold_left (fun l i => if decide (MAX_SYNC_INVITES <= size l)%nat then l else l ∪ {[i]})
         (ci_invites info) (invites ch)) ch.

Definition merge_channel (require_did : bool) (s : Server) (peer : string) (now : Z) (info : ChannelInfo)
    (ch : ChannelState) : ChannelState :=
  reassess_ops s
    (merge_invites info
      (merge_masks peer info now
        (merge_modes info
          (merge_topic info now
            (merge_presence peer info (adopt_authority require_did (ci_founder_did info) (ci_did_ops info) ch)))))).

(** The topic a snapshot brings to a channel that has none. *)
Definition adopted_topic (info : ChannelInfo) (ch : ChannelState) : option (string * string * string) :=
  match topic ch, ci_topic info with
  | None, Some t => Some (ci_name info, t, default "unknown" (ci_founder_did info))
  | _, _ => None
  end.

(** The channels after the snapshot, the names of those with members here, and
    the topics that were adopted. *)
Fixpoint merge_all (require_did : bool) (peer : string) (now : Z) (infos : list ChannelInfo) (s : Server)
    : Server * list string * list (string * string * string) :=
  match infos with
  | [] => (s, [], [])
  | info :: rest =>
      let ch := s2s_channel_entry s (ci_name info) in
      let s1 := update_entry (ci_name info) (merge_channel require_did s peer now info) s in
      let '(s', updated, topics) := merge_all require_did peer now rest s1 in
      (s', if bool_decide (members ch = ∅) then updated else ci_name info :: updated,
       match adopted_topic info ch with Some t => t :: topics | None => topics end)
  end.

Definition topic_reply (s : Server) (channel : string) : list Effect :=
  match channels s !! channel with
  | Some ch => match topic ch with
               | Some t => send_to s (set_iter (members ch))
                             (":" +:+ server_name s +:+ " 332 * " +:+ channel +:+ " :" +:+ tp_text t +:+ CRLF)
               | None => []
               end
  | None => []
  end.

(** [crdt_topic] is what the shared document has as a channel's topic. *)
Definition s2s_sync_response (require_did : bool) (crdt_topic : string -> option (string * string))
    (s : Server) (peer : string) (infos : list ChannelInfo) (now : Z) : Server * list Effect :=
  let infos := take MAX_SYNC_CHANNELS infos in
  let s1 := set_channels (without_peer peer <$> channels s) s in
  let '(s', updated, topics) := merge_all require_did peer now infos s1 in
  (s', flat_map (fun '(c, t, by_) => if is_some (crdt_topic c) then [] else [Crdt (CrdtSetTopic c t by_ None)]) topics
       ++ flat_map (fun c => send_names_update s' c ++ topic_reply s' c) updated).

(** ** Reconciliation with the shared document *)

Definition reconcile_topic (from_doc : option (string * string)) (now : Z) (ch : ChannelState) : ChannelState :=
  match from_doc with
  | Some (text, setter) =>
      if bool_decide (tp_text <$> topic ch = Some text) then ch
      else set_topic (Some (mkTopic text setter now)) ch
  | None => ch
  end.

Definition reconcile_founder (s : Server) (from_doc : option string) (ch : ChannelState) : ChannelState :=
  match from_doc with
  | Some f => if bool_decide (founder_did ch = Some f) then ch else reassess_ops s (set_founder (Some f) ch)
  | None => ch
  end.

Definition reconcile_did_ops (s : Server) (from_doc : list string) (ch : ChannelState) : ChannelState :=
  match from_doc with
  | [] => ch
  | l => reassess_ops s (set_did_ops (did_ops ch ∪ list_to_set l) ch)
  end.

Section Reconcile.
Context {J : Json}.

Definition reconcile_channel (s : Server) (d : Cluster.ClusterDoc) (now : Z) (name : string) (ch : ChannelState)
    : ChannelState :=
  reconcile_did_ops s (Cluster.channel_did_ops name d)
    (reconcile_founder s (Cluster.founder name d)
      (reconcile_topic (Cluster.channel_topic name d) now ch)).

Definition reconcile_crdt_to_local (s : Server) (d : Cluster.ClusterDoc) (now : Z) : Server :=
  set_channels (map_imap (fun n ch => Some (reconcile_channel s d now n ch)) (channels s)) s.

(** What the handlers' writes do to the document. [origin_peer] is our own id. *)
Definition apply_crdt (origin_peer : string) (d : Cluster.ClusterDoc) (e : Effect) : Cluster.ClusterDoc :=
  match e with
  | Crdt (CrdtSetFounder c did) => Cluster.set_founder c did d
  | Crdt (CrdtGrantOp c did granter) => Cluster.grant_op c did granter origin_peer d
  | Crdt (CrdtRevokeOp c did) => Cluster.revoke_op c did d
  | Crdt (CrdtSetTopic c text by_ did) => Cluster.set_topic c text by_ did origin_peer d
  | _ => d
  end.
End Reconcile.

(** ** One message *)

(** The arms of this file. Chat, tasks, calls, policies, catch-up and the
    handshake have arms of their own. *)
Definition s2s_channel_message (root_msgid : string -> string) (require_did : bool)
    (crdt_topic : string -> option (string * string)) (s : Server) (server_id origin : string) (m : S2sMessage) (now : Z) : Server * list Effect :=
  match m with
  | Join nick channel did handle _ actor_class => s2s_join s origin nick channel did handle actor_class
  | Part nick channel => s2s_part s nick channel
  | Quit nick reason => s2s_quit s nick reason
  | NickChange old new => s2s_nick_change s old new
  | Topic channel text by_ by_did => s2s_topic s channel text by_ by_did now
  | Mode channel mode arg by_ by_did => s2s_mode s channel mode arg by_ by_did
  | Kick nick channel by_ by_did reason => s2s_kick s nick channel by_ by_did reason
  | Ban channel m by_ by_did adding => s2s_ban s channel m by_ by_did adding now
  | InviteException channel m by_ by_did adding => s2s_invite_exception s channel m by_ by_did adding now
  | Invite channel invitee by_ by_did => s2s_invite s channel invitee by_ by_did
  | Pin channel msgid by_ by_did adding => s2s_pin root_msgid s channel msgid by_ by_did adding now
  | ChannelCreated channel claimed dids _ => s2s_channel_created require_did s channel claimed dids
  | SyncRequest => s2s_sync_request s server_id
  | SyncResponse peer infos => s2s_sync_response require_did crdt_topic s peer infos now
  | PeerDisconnected peer => s2s_peer_disconnected s peer
  | _ => (s, [])
  end.

(** A message as it arrives: the gate, and then the arm. *)
Definition process_s2s_event (root_msgid : string -> string) (require_did : bool)
    (crdt_topic : string -> option (string * string)) (mgr : S2sManager) (s : Server) (peer : string) (e : S2sEvent) (now : Z)
    : S2sManager * Server * list Effect :=
  match gate mgr peer e false now with
  | (Some org, mgr') =>
      let '(s', eff) := s2s_channel_message root_msgid require_did crdt_topic s (server_id mgr) org (body e) now in
      (mgr', s', eff)
  | (None, mgr') => (mgr', s, [])
  end.
End Federation.
