(* ===== verification/FederationSpec.v ===== *)
(** * What a peer can and cannot do

    Properties of the handlers of [Federation]. *)

From stdpp Require Import base gmap strings list fin_maps.
From Stdlib Require Import ZArith Lia String Ascii.
From S2P Require Import Prelude NickMap RoomTables S2sMessage Channel Rooms ChannelOps Pins ChannelInv S2sLink Crdt Federation.
Open Scope string_scope.
Open Scope list_scope.
Open Scope Z_scope.
Set Default Proof Using "Type".

(** ** A channel that only gains *)

(** The founder, the op DIDs, the kind and the local members are kept, and a
    remote operator has a DID with authority or was one before. *)
Record grows (ch ch' : ChannelState) : Prop := {
  founder_kept : forall f, founder_did ch = Some f -> founder_did ch' = Some f;
  did_ops_kept : did_ops ch ⊆ did_ops ch';
  room_kept : room ch' = room ch;
  members_kept : members ch' = members ch;
  no_forged_op : forall k rm, remote_members ch' !! k = Some rm -> rm_is_op rm = true ->
    is_authority ch' (rm_did rm) = true \/ exists k0, remote_members ch !! k0 = Some rm
}.

Lemma authority_grows ch ch' d :
  (forall f, founder_did ch = Some f -> founder_did ch' = Some f) -> did_ops ch ⊆ did_ops ch' ->
  is_authority ch d = true -> is_authority ch' d = true.
Proof.
  intros Hf Ho. destruct d as [d|]; [|done]. simpl. unfold has_authority.
  rewrite !orb_true_iff, !bool_decide_eq_true. intros [H|H]; [left; auto|right; set_solver].
Qed.

#[export] Instance grows_preorder : PreOrder grows.
Proof.
  split.
  - intros ch. split; auto. intros k rm H _. right. by exists k.
  - intros a b c [A1 A2 A3 A4 A5] [B1 B2 B3 B4 B5]. split; auto; [set_solver|congruence..|].
    intros k rm H Ho. destruct (B5 k rm H Ho) as [|[k0 H0]]; [by left|].
    destruct (A5 k0 rm H0 Ho) as [Hd|]; [|by right]. left. by eapply authority_grows.
Qed.

(** Fields [grows] does not look at. *)
Lemma grows_frame ch ch' :
  founder_did ch' = founder_did ch -> did_ops ch' = did_ops ch -> room ch' = room ch -> members ch' = members ch ->
  remote_members ch' = remote_members ch -> grows ch ch'.
Proof. intros E1 E2 E3 E4 E5. split; rewrite ?E1, ?E2, ?E3, ?E4, ?E5; auto. intros k rm H _. right. by exists k. Qed.

(** Members that leave, or come under another nick. *)
Lemma grows_remote ch m :
  (forall k rm, m !! k = Some rm -> exists k0, remote_members ch !! k0 = Some rm) -> grows ch (set_remote m ch).
Proof. intros H. split; auto. intros k rm Hk _. right. eauto. Qed.

Create HintDb fed.
#[export] Hint Extern 1 (grows _ _) => reflexivity : fed.

Section Handlers.
Context {CF : CaseFold} {HO : HashOrder}.

Lemma remote_entry_in ch nick k rm : remote_entry ch nick = Some (k, rm) -> remote_members ch !! k = Some rm.
Proof.
  intros H%find_some. destruct H as [H _]. apply list_elem_of_In in H.
  by rewrite hash_iter_perm, elem_of_map_to_list in H.
Qed.

Lemma grows_remove nick ch : grows ch (remove_remote_member nick ch).
Proof.
  unfold remove_remote_member. destruct (remote_entry ch nick) as [[k rm]|]; [|reflexivity].
  apply grows_remote. intros k' rm' [_ H]%lookup_delete_Some. eauto.
Qed.

Lemma grows_rename old new ch : grows ch (rename_remote old new ch).
Proof.
  unfold rename_remote. destruct (remote_entry ch old) as [[k rm]|] eqn:E; [|reflexivity].
  apply remote_entry_in in E. apply grows_remote. intros k' rm' [[_ <-]|[_ [_ H]%lookup_delete_Some]]%lookup_insert_Some; eauto.
Qed.

Lemma grows_without peer ch : grows ch (without_peer peer ch).
Proof. apply grows_remote. intros k rm [H _]%map_lookup_filter_Some. eauto. Qed.

Lemma grows_insert ch k rm :
  (rm_is_op rm = true -> is_authority ch (rm_did rm) = true) -> grows ch (set_remote (<[k := rm]> (remote_members ch)) ch).
Proof.
  intros Hop. split; auto; simpl. intros k' rm' [[_ <-]|[_ H]]%lookup_insert_Some Ho; [left; by apply Hop|right; eauto].
Qed.

Lemma grows_enter nick did handle ac org ch : grows ch (enter_remote nick did handle ac org ch).
Proof.
  unfold enter_remote. match goal with |- grows _ (set_remote _ ?c) => transitivity c end; [by apply grows_frame|].
  by apply (grows_insert (set_invites _ ch)).
Qed.

Lemma grows_adopt claimed ch : grows ch (adopt_founder claimed ch).
Proof.
  unfold adopt_founder. destruct (founder_did ch) eqn:E; [reflexivity|]. destruct claimed as [d|]; [|reflexivity].
  destruct (starts_with _ d); [|reflexivity]. split; auto; simpl; [by rewrite E|]. intros k rm H _. right. by exists k.
Qed.

Lemma grows_accept r claimed ch d : grows ch (accept_did_op r claimed ch d).
Proof.
  unfold accept_did_op. destruct (negb (starts_with _ d)); [reflexivity|]. destruct (_ && r); [reflexivity|].
  split; auto; simpl; [set_solver|]. intros k rm H _. right. by exists k.
Qed.

Lemma grows_fold {A} (f : ChannelState -> A -> ChannelState) l ch :
  (forall c x, grows c (f c x)) -> grows ch (fold_left f l ch).
Proof. intros H. revert ch; induction l as [|x l IH]; intros ch; simpl; [reflexivity|]. etransitivity; [apply H|apply IH]. Qed.

Lemma grows_authority r claimed l ch : grows ch (adopt_authority r claimed l ch).
Proof. etransitivity; [apply grows_adopt|]. apply grows_fold. intros. apply grows_accept. Qed.

Lemma grows_grant s ch : grows ch (grant_backed s ch).
Proof. by apply grows_frame. Qed.

Lemma grows_reassess s ch : grows ch (reassess_ops s ch).
Proof. unfold reassess_ops. destruct (_ || _); by apply grows_frame. Qed.

Lemma grows_presence peer info ch : grows ch (merge_presence peer info ch).
Proof.
  unfold merge_presence. destruct (ci_nick_info info) as [|ni l]; apply grows_fold; intros c x; apply grows_insert; simpl; done.
Qed.

Lemma grows_merge_topic info now ch : grows ch (merge_topic info now ch).
Proof.
  unfold merge_topic. destruct (topic ch); [reflexivity|]. destruct (ci_topic info); [by apply grows_frame|reflexivity].
Qed.

Lemma grows_merge_modes info ch : grows ch (merge_modes info ch).
Proof. unfold merge_modes. destruct (bool_decide _); by apply grows_frame. Qed.

Lemma grows_merge_masks peer info now ch : grows ch (merge_masks peer info now ch).
Proof. by apply grows_frame. Qed.

Lemma grows_merge_invites info ch : grows ch (merge_invites info ch).
Proof. unfold merge_invites. destruct (_ && _); [reflexivity|by apply grows_frame]. Qed.

Lemma grows_merge r s peer now info ch : grows ch (merge_channel r s peer now info ch).
Proof.
  unfold merge_channel. etransitivity; [|apply grows_reassess]. etransitivity; [|apply grows_merge_invites].
  etransitivity; [|apply grows_merge_masks]. etransitivity; [|apply grows_merge_modes].
  etransitivity; [|apply grows_merge_topic]. etransitivity; [|apply grows_presence]. apply grows_authority.
Qed.

(** ** Servers *)

Record server_grows (s s' : Server) : Prop := {
  channels_kept : forall n, is_Some (channels s !! n) -> is_Some (channels s' !! n);
  each_grows : forall n, grows (s2s_channel_entry s n) (s2s_channel_entry s' n)
}.

#[export] Instance server_grows_preorder : PreOrder server_grows.
Proof.
  split.
  - intros s. split; [done|]. intros. reflexivity.
  - intros a b c [A1 A2] [B1 B2]. split; [auto|]. intros n. by transitivity (s2s_channel_entry b n).
Qed.

Lemma server_grows_entry n f s : (forall ch, grows ch (f ch)) -> server_grows s (update_entry n f s).
Proof.
  intros Hf. split.
  - intros k Hk. simpl. destruct (decide (k = n)) as [->|]; [by rewrite lookup_insert_eq|by rewrite lookup_insert_ne].
  - intros k. unfold s2s_channel_entry at 2. simpl. destruct (decide (k = n)) as [->|].
    + rewrite lookup_insert_eq. apply Hf.
    + rewrite lookup_insert_ne by done. reflexivity.
Qed.

Lemma server_grows_fmap f s : (forall ch, grows ch (f ch)) -> server_grows s (set_channels (f <$> channels s) s).
Proof.
  intros Hf. split; intros n; simpl.
  - rewrite lookup_fmap. by intros [ch ->].
  - unfold s2s_channel_entry at 2. simpl. rewrite lookup_fmap. unfold s2s_channel_entry.
    destruct (channels s !! n); simpl; [apply Hf|reflexivity].
Qed.

Lemma server_grows_update n f s : (forall ch, channels s !! n = Some ch -> grows ch (f ch)) -> server_grows s (update_channel n f s).
Proof.
  intros Hf. split; intros k; simpl.
  - intros [ch Hk]. destruct (decide (k = n)) as [->|]; [by rewrite lookup_alter_eq, Hk|by rewrite lookup_alter_ne, Hk].
  - unfold s2s_channel_entry. simpl. destruct (decide (k = n)) as [->|].
    + rewrite lookup_alter_eq. destruct (channels s !! n) eqn:E; simpl; [by apply Hf|reflexivity].
    + rewrite lookup_alter_ne by done. reflexivity.
Qed.

Lemma server_grows_merge_all r peer now infos : forall s, server_grows s (merge_all r peer now infos s).1.1.
Proof.
  induction infos as [|info infos IH]; intros s; simpl; [reflexivity|].
  specialize (IH (update_entry (ci_name info) (merge_channel r s peer now info) s)).
  destruct (merge_all _ _ _ _ _) as [[s' u] t]. simpl in *. etransitivity; [|exact IH].
  apply server_grows_entry. intros. apply grows_merge.
Qed.

Lemma server_grows_sync r t s peer infos now : server_grows s (s2s_sync_response r t s peer infos now).1.
Proof.
  unfold s2s_sync_response. pose proof (server_grows_merge_all r peer now (take MAX_SYNC_CHANNELS infos)
    (set_channels (without_peer peer <$> channels s) s)) as H.
  destruct (merge_all _ _ _ _ _) as [[s' u] tp]. simpl in *. etransitivity; [|exact H].
  apply server_grows_fmap. intros. apply grows_without.
Qed.

(** ** Who may take something away *)

Definition takes_away (m : S2sMessage) : bool :=
  match m with Mode _ _ _ _ _ | Kick _ _ _ _ _ => true | _ => false end.

Lemma message_grows root r t s id org m now :
  takes_away m = false -> server_grows s (s2s_channel_message root r t s id org m now).1.
Proof.
  intros Hm. destruct m; try discriminate Hm; simpl; try reflexivity.
  - unfold s2s_pin. destruct (refused_by _ _ _ _); [reflexivity|].
    destruct (channels s !! _); [|reflexivity]. apply server_grows_update. intros. by apply grows_frame.
  - unfold s2s_join. destruct (match channels s !! _ with Some _ => _ | None => _ end); [reflexivity|].
    destruct (match did with Some _ => _ | None => _ end); [reflexivity|]. apply server_grows_entry. intros. apply grows_enter.
  - apply server_grows_entry. intros. etransitivity; [apply grows_authority|apply grows_grant].
  - apply server_grows_update. intros. apply grows_remove.
  - apply server_grows_fmap. intros. apply grows_remove.
  - apply server_grows_fmap. intros. apply grows_rename.
  - unfold s2s_topic. destruct (match channels s !! _ with Some _ => _ | None => _ end); [reflexivity|].
    apply server_grows_entry. intros. by apply grows_frame.
  - apply server_grows_sync.
  - unfold s2s_ban. destruct (refused_by _ _ _ _); [reflexivity|]. apply server_grows_update. intros. by apply grows_frame.
  - unfold s2s_invite_exception. destruct (refused_by _ _ _ _); [reflexivity|]. apply server_grows_update. intros. by apply grows_frame.
  - unfold s2s_invite. destruct (match channels s !! _ with Some _ => _ | None => _ end); [reflexivity|].
    apply server_grows_update. intros. by apply grows_frame.
  - apply server_grows_fmap. intros. apply grows_without.
Qed.

(** A run of messages, each with its origin and its time. *)
Definition s2s_run (root : string -> string) (r : bool) (t : string -> option (string * string)) (id : string)
    (l : list (string * S2sMessage * Z)) (s : Server) : Server :=
  fold_left (fun s '(org, m, now) => (s2s_channel_message root r t s id org m now).1) l s.

(** C31: no sequence of messages without a MODE or a KICK, from however many
    peers, takes a channel away or changes its founder, removes an operator
    DID, turns a channel into a room or back, or touches the local members; and
    it makes nobody a remote operator whose DID has no authority by our own
    records, whatever the messages claim. *)
Theorem messages_keep_authority (root : string -> string) (r : bool) (t : string -> option (string * string))
    (id : string) (l : list (string * S2sMessage * Z)) (s : Server) :
  Forall (fun x => takes_away x.1.2 = false) l -> server_grows s (s2s_run root r t id l s).
Proof.
  revert s; induction l as [|[[org m] now] l IH]; intros s Hl; [reflexivity|]. apply Forall_cons in Hl as [Hm Hl].
  etransitivity; [by apply (message_grows root r t s id org m now)|by apply IH].
Qed.

(** The channel, the setter and the DID of an administrative message. *)
Definition claimed_setter (m : S2sMessage) : option (string * string * option string) :=
  match m with
  | Mode c _ _ by_ did | Ban c _ by_ did _ | InviteException c _ by_ did _ | Kick _ c by_ did _ =>
      Some (to_lowercase c, by_, did)
  | Pin c _ by_ did _ => Some (to_lowercase (sanitize_s2s_str c 200), sanitize_s2s_str by_ 64, did)
  | Topic c _ by_ did => Some (to_lowercase (sanitize_s2s_str c 200), sanitize_s2s_str by_ 200, did)
  | _ => None
  end.
Definition is_topic (m : S2sMessage) : bool := match m with Topic _ _ _ _ => true | _ => false end.

Lemma refused_by_false s n by_ did :
  refused_by s n by_ did = false <->
  channels s !! n = None \/ exists ch, channels s !! n = Some ch /\ setter_authorized ch by_ did = true.
Proof.
  unfold refused_by. destruct (channels s !! n) as [ch|]; [rewrite negb_false_iff|]; naive_solver.
Qed.

Lemma allowed_change s n by_ did f k :
  refused_by s n by_ did = false -> channels (update_channel n f s) !! k <> channels s !! k ->
  k = n /\ exists ch, channels s !! n = Some ch /\ setter_authorized ch by_ did = true.
Proof.
  intros E%refused_by_false Hk. simpl in Hk. destruct (decide (k = n)) as [->|Hn]; [|by rewrite lookup_alter_ne in Hk].
  split; [done|]. destruct E as [E|]; [|done]. by rewrite lookup_alter_eq, E in Hk.
Qed.

Lemma setter_needs_authority root r t s id org m now n by_ did k :
  claimed_setter m = Some (n, by_, did) ->
  channels (s2s_channel_message root r t s id org m now).1 !! k <> channels s !! k ->
  k = n /\ ((exists ch, channels s !! n = Some ch /\ setter_authorized ch by_ did = true) \/
            is_topic m = true /\ match channels s !! n with Some ch => topic_locked ch = false | None => True end).
Proof.
  intros Hs Hk. destruct m; try discriminate Hs; injection Hs as <- <- <-; cbn [s2s_channel_message] in Hk.
  - unfold s2s_pin in Hk. destruct (refused_by _ _ _ _) eqn:E; [done|].
    destruct (channels s !! to_lowercase _) as [c|] eqn:Ec; [|done].
    eapply allowed_change in Hk as [-> (ch & H1 & H2)]; [|exact E]. split; [done|left]. exists ch. split; congruence.
  - unfold s2s_topic in Hk.
    destruct (decide (k = to_lowercase (sanitize_s2s_str channel 200))) as [->|Hn].
    + split; [done|]. destruct (channels s !! _) as [ch|] eqn:E; [|by right].
      destruct (topic_locked ch) eqn:El; [|by right]. left. exists ch. split; [done|].
      destruct (setter_authorized ch _ _); [done|]. by rewrite <- E in Hk.
    + destruct (match channels s !! _ with Some _ => _ | None => _ end); [done|]. simpl in Hk. by rewrite lookup_insert_ne in Hk.
  - unfold s2s_mode in Hk. destruct (refused_by _ _ _ _) eqn:E; [done|].
    eapply allowed_change in Hk as [-> H]; [|exact E]. auto.
  - unfold s2s_kick in Hk. destruct (refused_by _ _ _ _) eqn:E; [done|].
    destruct (get_session _ nick); eapply allowed_change in Hk as [-> H]; try exact E; auto.
  - unfold s2s_ban in Hk. destruct (refused_by _ _ _ _) eqn:E; [done|].
    eapply allowed_change in Hk as [-> H]; [|exact E]. auto.
  - unfold s2s_invite_exception in Hk. destruct (refused_by _ _ _ _) eqn:E; [done|].
    eapply allowed_change in Hk as [-> H]; [|exact E]. auto.
Qed.

Lemma gate_passes mgr peer e now o mgr' :
  gate mgr peer e false now = (Some o, mgr') ->
  (is_handshake (body e) = true \/ peer ∈ authenticated_peers mgr) /\ trust_allows (get_trust mgr peer) (body e) = true.
Proof.
  unfold gate. cbn [negb andb orb]. destruct (negb (is_handshake (body e)) && _) eqn:E1; [done|].
  destruct (rate_step _ _ _) as [within lim]. destruct within; cbn [negb]; [|done].
  destruct (dedup_key e) as [id org]. destruct (negb (is_empty org) && _); [done|].
  destruct (if negb (is_empty id) then _ else _) as [fresh d]. destruct fresh; cbn [negb]; [|done].
  destruct (trust_allows _ _) eqn:Et; cbn [negb]; [|done]. intros _. split; [|done].
  apply andb_false_iff in E1 as [E1|E1]; apply negb_false_iff in E1; [by left|right; by apply bool_decide_eq_true in E1].
Qed.

(** C2: a MODE, KICK, ban, exception or pin from another server changes only the
    channel it names, only if this server has the channel, only if the peer has
    authenticated with a trust level that allows it, and only if the setter is
    an operator by our roster or the DID it carries has authority by our
    records. A topic can also be set where it is not locked, or where the
    channel is new. *)
Theorem remote_admin_authorized (root : string -> string) (r : bool) (t : string -> option (string * string))
    (mgr : S2sManager) (s : Server) (peer : string) (e : S2sEvent) (now : Z) (n by_ k : string) (did : option string) :
  claimed_setter (body e) = Some (n, by_, did) ->
  channels (process_s2s_event root r t mgr s peer e now).1.2 !! k <> channels s !! k ->
  k = n /\ peer ∈ authenticated_peers mgr /\ get_trust mgr peer <> Readonly /\
  (is_admin_event (body e) = true -> get_trust mgr peer = Full) /\
  ((exists ch, channels s !! n = Some ch /\ setter_authorized ch by_ did = true) \/
   is_topic (body e) = true /\ match channels s !! n with Some ch => topic_locked ch = false | None => True end).
Proof.
  intros Hs Hk. unfold process_s2s_event in Hk. destruct (gate mgr peer e false now) as [[o|] mgr'] eqn:Hg; [|done].
  apply gate_passes in Hg as [Hp Ht].
  pose proof (setter_needs_authority root r t s (server_id mgr) o (body e) now n by_ did k Hs) as H.
  destruct (s2s_channel_message _ _ _ _ _ _ _ _) as [s' eff]. simpl in Hk, H. destruct (H Hk) as [-> H2].
  split; [done|]. destruct Hp as [Hp|Hp]; [by destruct (body e)|]. split; [done|].
  split_and!; [| |done].
  - intros E. rewrite E in Ht. by destruct (body e).
  - intros Ha. destruct (get_trust mgr peer); simpl in Ht; [done|by rewrite Ha in Ht|by destruct (body e)].
Qed.

(** ** What a snapshot keeps *)

Record no_weaker (ch ch' : ChannelState) : Prop := {
  locked_kept : topic_locked ch = true -> topic_locked ch' = true;
  invite_only_kept : invite_only ch = true -> invite_only ch' = true;
  no_ext_kept : no_ext_msg ch = true -> no_ext_msg ch' = true;
  moderated_kept : moderated ch = true -> moderated ch' = true;
  encrypted_kept : encrypted_only ch' = encrypted_only ch;
  key_kept : forall k, key ch = Some k -> key ch' = Some k;
  topic_kept : forall x, topic ch = Some x -> topic ch' = Some x;
  bans_kept : bans ch `prefix_of` bans ch'
}.

#[export] Instance no_weaker_preorder : PreOrder no_weaker.
Proof.
  split; [by split|]. intros a b c [] []. split; auto; [congruence|by etransitivity].
Qed.

Lemma no_weaker_frame ch ch' :
  topic_locked ch' = topic_locked ch -> invite_only ch' = invite_only ch -> no_ext_msg ch' = no_ext_msg ch ->
  moderated ch' = moderated ch -> encrypted_only ch' = encrypted_only ch -> key ch' = key ch -> topic ch' = topic ch ->
  bans ch' = bans ch -> no_weaker ch ch'.
Proof. intros E1 E2 E3 E4 E5 E6 E7 E8. split; rewrite ?E1, ?E2, ?E3, ?E4, ?E5, ?E6, ?E7, ?E8; auto. Qed.

Lemma no_weaker_fold {A} (f : ChannelState -> A -> ChannelState) l ch :
  (forall c x, no_weaker c (f c x)) -> no_weaker ch (fold_left f l ch).
Proof.
  intros H. revert ch; induction l as [|x l IH]; intros ch; simpl; [reflexivity|]. etransitivity; [apply H|apply IH].
Qed.

Lemma no_weaker_authority r claimed l ch : no_weaker ch (adopt_authority r claimed l ch).
Proof.
  unfold adopt_authority. transitivity (adopt_founder claimed ch).
  - unfold adopt_founder. repeat case_match; by apply no_weaker_frame.
  - apply no_weaker_fold. intros c d. unfold accept_did_op. repeat case_match; by apply no_weaker_frame.
Qed.

Lemma no_weaker_presence peer info ch : no_weaker ch (merge_presence peer info ch).
Proof. unfold merge_presence. case_match; apply no_weaker_fold; intros; by apply no_weaker_frame. Qed.

Lemma no_weaker_topic info now ch : no_weaker ch (merge_topic info now ch).
Proof. unfold merge_topic. destruct (topic ch) eqn:E; [reflexivity|]. case_match; [|reflexivity]. split; auto. by rewrite E. Qed.

Lemma no_weaker_modes info ch : members ch <> ∅ -> no_weaker ch (merge_modes info ch).
Proof.
  intros H. unfold merge_modes. rewrite bool_decide_eq_false_2 by done.
  split; simpl; auto using orb_true_intro. by intros k ->.
Qed.

Lemma merge_mask_prefix by_ now m l : l `prefix_of` merge_mask by_ now l m.
Proof. unfold merge_mask. destruct (has_mask m l); [done|by eexists]. Qed.

Lemma merge_masks_prefix by_ now ms : forall l, l `prefix_of` fold_left (merge_mask by_ now) ms l.
Proof. induction ms as [|m ms IH]; intros l; simpl; [done|]. etransitivity; [apply merge_mask_prefix|apply IH]. Qed.

Lemma no_weaker_masks peer info now ch : no_weaker ch (merge_masks peer info now ch).
Proof. split; auto. simpl. apply merge_masks_prefix. Qed.

Lemma no_weaker_invites info ch : no_weaker ch (merge_invites info ch).
Proof. unfold merge_invites. destruct (_ && _); [reflexivity|by apply no_weaker_frame]. Qed.

Lemma no_weaker_reassess s ch : no_weaker ch (reassess_ops s ch).
Proof. unfold reassess_ops. destruct (_ || _); by apply no_weaker_frame. Qed.

Lemma no_weaker_merge r s peer now info ch : members ch <> ∅ -> no_weaker ch (merge_channel r s peer now info ch).
Proof.
  intros Hm. unfold merge_channel. etransitivity; [|apply no_weaker_reassess].
  etransitivity; [|apply no_weaker_invites]. etransitivity; [|apply no_weaker_masks].
  etransitivity; [|apply no_weaker_modes].
  - etransitivity; [|apply no_weaker_topic]. etransitivity; [|apply no_weaker_presence]. apply no_weaker_authority.
  - intros E. apply Hm. rewrite <- E. symmetry. etransitivity; [|exact (members_kept _ _ (grows_authority r (ci_founder_did info) (ci_did_ops info) ch))].
    etransitivity; [|apply (members_kept _ _ (grows_presence peer info _))]. apply (members_kept _ _ (grows_merge_topic info now _)).
Qed.

Lemma entry_update_eq n f s : s2s_channel_entry (update_entry n f s) n = f (s2s_channel_entry s n).
Proof. unfold s2s_channel_entry at 1. simpl. by rewrite lookup_insert_eq. Qed.
Lemma entry_update_ne n f s k : k <> n -> s2s_channel_entry (update_entry n f s) k = s2s_channel_entry s k.
Proof. intros H. unfold s2s_channel_entry at 1. simpl. by rewrite lookup_insert_ne. Qed.
Lemma entry_some s n ch : channels s !! n = Some ch -> s2s_channel_entry s n = ch.
Proof. unfold s2s_channel_entry. by intros ->. Qed.

Lemma merge_all_cons r peer now info infos s :
  (merge_all r peer now (info :: infos) s).1.1 =
  (merge_all r peer now infos (update_entry (ci_name info) (merge_channel r s peer now info) s)).1.1.
Proof. simpl. by destruct (merge_all _ _ _ _ _) as [[]]. Qed.

Lemma sync_state r t s peer infos now :
  (s2s_sync_response r t s peer infos now).1 =
  (merge_all r peer now (take MAX_SYNC_CHANNELS infos) (set_channels (without_peer peer <$> channels s) s)).1.1.
Proof. unfold s2s_sync_response. by destruct (merge_all _ _ _ _ _) as [[]]. Qed.

Lemma merge_all_no_weaker r peer now n infos : forall s,
  members (s2s_channel_entry s n) <> ∅ ->
  no_weaker (s2s_channel_entry s n) (s2s_channel_entry (merge_all r peer now infos s).1.1 n).
Proof.
  induction infos as [|info infos IH]; intros s Hm; [reflexivity|]. rewrite merge_all_cons.
  set (s1 := update_entry _ _ s). assert (no_weaker (s2s_channel_entry s n) (s2s_channel_entry s1 n)) as H1.
  { unfold s1. destruct (decide (n = ci_name info)) as [->|Hn]; [|rewrite entry_update_ne by done; reflexivity].
    rewrite entry_update_eq. by apply no_weaker_merge. }
  etransitivity; [exact H1|]. apply IH.
  enough (members (s2s_channel_entry s1 n) = members (s2s_channel_entry s n)) as -> by done.
  apply members_kept, each_grows, server_grows_entry. intros. apply grows_merge.
Qed.

(** The snapshot of a peer never weakens a channel with local members: no
    protection it has is switched off, its key, its topic and its bans stay,
    and nobody leaves it, whatever the snapshot says of the channel and however
    often. *)
Theorem sync_never_weakens (r : bool) (t : string -> option (string * string)) (s : Server) (peer : string)
    (infos : list ChannelInfo) (now : Z) (n : string) (ch : ChannelState) :
  channels s !! n = Some ch -> members ch <> ∅ ->
  exists ch', channels (s2s_sync_response r t s peer infos now).1 !! n = Some ch' /\
    no_weaker ch ch' /\ members ch' = members ch.
Proof.
  intros Hc Hm. pose proof (server_grows_sync r t s peer infos now) as Hg.
  destruct (channels_kept _ _ Hg n) as [ch' Hc']; [by exists ch|]. exists ch'. split; [done|].
  pose proof (each_grows _ _ Hg n) as Hn. rewrite (entry_some _ _ _ Hc), (entry_some _ _ _ Hc') in Hn.
  split; [|by apply members_kept]. rewrite sync_state in Hc'.
  set (s1 := set_channels (without_peer peer <$> channels s) s) in *.
  assert (channels s1 !! n = Some (without_peer peer ch)) as H1 by (simpl; by rewrite lookup_fmap, Hc).
  pose proof (merge_all_no_weaker r peer now n (take MAX_SYNC_CHANNELS infos) s1) as H2.
  rewrite (entry_some _ _ _ H1), (entry_some _ _ _ Hc') in H2.
  transitivity (without_peer peer ch); [by apply no_weaker_frame|by apply H2].
Qed.

(** ** Presence after a snapshot *)

Definition listed (info : ChannelInfo) : list string :=
  match ci_nick_info info with [] => ci_nicks info | l => map sn_nick l end.

Lemma fold_remote {A} (name : A -> string) (mk : ChannelState -> A -> RemoteMember) peer l ch :
  (forall c x, rm_origin (mk c x) = peer) ->
  let ch' := fold_left (fun c x => set_remote (<[name x := mk c x]> (remote_members c)) c) l ch in
  forall k, if decide (k ∈ map name l)
            then exists rm, remote_members ch' !! k = Some rm /\ rm_origin rm = peer
            else remote_members ch' !! k = remote_members ch !! k.
Proof.
  intros Ho. revert ch; induction l as [|x l IH]; intros ch ch' k; simpl; [done|].
  specialize (IH (set_remote (<[name x := mk ch x]> (remote_members ch)) ch) k). simpl in IH.
  destruct (decide (k ∈ map name l)) as [Hin|Hin].
  - rewrite decide_True by (by apply list_elem_of_further). exact IH.
  - destruct (decide (k ∈ name x :: map name l)) as [Hk|Hk].
    + apply elem_of_cons in Hk as [->|]; [|done]. exists (mk ch x). by rewrite lookup_insert_eq in IH.
    + rewrite lookup_insert_ne in IH; [done|]. intros E. apply Hk. rewrite <- E. apply list_elem_of_here.
Qed.

Lemma presence_spec peer info ch k :
  if decide (k ∈ listed info)
  then exists rm, remote_members (merge_presence peer info ch) !! k = Some rm /\ rm_origin rm = peer
  else remote_members (merge_presence peer info ch) !! k = remote_members ch !! k.
Proof.
  unfold merge_presence, listed. destruct (ci_nick_info info) as [|ni l].
  - pose proof (fold_remote (fun n => n) (fun _ _ => mkRemote peer None None false None) peer (ci_nicks info) ch) as H.
    rewrite map_id in H. by apply H.
  - by apply (fold_remote sn_nick (fun c ni => mkRemote peer (sn_did ni) None (is_authority c (sn_did ni)) (sn_actor_class ni))).
Qed.

Lemma fold_accept_remote r claimed l : forall ch, remote_members (fold_left (accept_did_op r claimed) l ch) = remote_members ch.
Proof. induction l as [|d l IH]; intros ch; simpl; [done|]. rewrite IH. unfold accept_did_op. by repeat case_match. Qed.

Lemma merge_remote r s peer now info ch :
  remote_members (merge_channel r s peer now info ch) =
  remote_members (merge_presence peer info (adopt_authority r (ci_founder_did info) (ci_did_ops info) ch)).
Proof.
  unfold merge_channel. set (c := merge_presence _ _ _). clearbody c.
  unfold reassess_ops, merge_invites, merge_masks, merge_modes, merge_topic, grant_backed.
  repeat (case_match; try done).
Qed.

Lemma adopt_remote r claimed l ch : remote_members (adopt_authority r claimed l ch) = remote_members ch.
Proof. unfold adopt_authority. rewrite fold_accept_remote. unfold adopt_founder. by repeat case_match. Qed.

Lemma merge_all_other r peer now n infos : forall s,
  (forall info, info ∈ infos -> ci_name info <> n) ->
  s2s_channel_entry (merge_all r peer now infos s).1.1 n = s2s_channel_entry s n.
Proof.
  induction infos as [|info infos IH]; intros s H; [done|]. rewrite merge_all_cons, IH.
  - apply entry_update_ne. intros ->. by apply (H info (list_elem_of_here _ _)).
  - intros i Hi. apply H. by apply list_elem_of_further.
Qed.

Lemma merge_all_presence r peer now n k infos info : forall s,
  NoDup (ci_name <$> infos) -> info ∈ infos -> ci_name info = n ->
  let ch' := s2s_channel_entry (merge_all r peer now infos s).1.1 n in
  if decide (k ∈ listed info) then exists rm, remote_members ch' !! k = Some rm /\ rm_origin rm = peer
  else remote_members ch' !! k = remote_members (s2s_channel_entry s n) !! k.
Proof.
  induction infos as [|i infos IH]; intros s Hnd Hin Hn; [by apply not_elem_of_nil in Hin|].
  apply NoDup_cons in Hnd as [Hi Hnd]. cbv zeta. rewrite merge_all_cons. apply elem_of_cons in Hin as [->|Hin].
  - rewrite merge_all_other.
    + rewrite <- Hn, entry_update_eq, merge_remote.
      pose proof (presence_spec peer i (adopt_authority r (ci_founder_did i) (ci_did_ops i) (s2s_channel_entry s (ci_name i))) k) as H.
      by rewrite adopt_remote in H.
    + intros j Hj E. apply Hi, list_elem_of_fmap. exists j. split; [congruence|done].
  - specialize (IH (update_entry (ci_name i) (merge_channel r s peer now i) s) Hnd Hin Hn). cbv zeta in IH.
    rewrite (entry_update_ne (ci_name i)) in IH; [done|]. intros E. apply Hi, list_elem_of_fmap. exists info.
    split; [congruence|done].
Qed.

Lemma elem_of_set_iter x (X : gset string) : x ∈ set_iter X <-> x ∈ X.
Proof.
  unfold set_iter. rewrite list_elem_of_fmap. split.
  - intros ([y []] & -> & H). rewrite hash_iter_perm, elem_of_map_to_list in H. by apply lookup_gset_to_gmap_Some in H as [].
  - intros H. exists (x, tt). split; [done|]. rewrite hash_iter_perm, elem_of_map_to_list.
    by apply lookup_gset_to_gmap_Some.
Qed.

Lemma listed_channel_info a n ch k :
  k ∈ listed (channel_info a n ch) <-> exists sid, sid ∈ members ch /\ get_nick (nicks a) sid = Some k.
Proof.
  assert (listed (channel_info a n ch) = omap (get_nick (nicks a)) (set_iter (members ch))) as ->.
  { unfold listed. cbn [channel_info ci_nick_info ci_nicks].
    assert (map sn_nick (omap (sync_nick a ch) (set_iter (members ch))) = omap (get_nick (nicks a)) (set_iter (members ch))) as E.
    { induction (set_iter (members ch)) as [|sid l IH]; simpl; [done|]. unfold sync_nick at 1.
      destruct (get_nick (nicks a) sid); simpl; [by f_equal|done]. }
    destruct (omap (sync_nick a ch) _); [done|exact E]. }
  rewrite list_elem_of_omap. by setoid_rewrite elem_of_set_iter.
Qed.

Definition channel_infos (a : Server) : list ChannelInfo :=
  map (fun kv => channel_info a kv.1 kv.2) (List.filter (fun kv => negb (room kv.2)) (hash_iter (channels a))).

Lemma elem_of_channel_infos a info :
  info ∈ channel_infos a <-> exists n ch, channels a !! n = Some ch /\ room ch = false /\ info = channel_info a n ch.
Proof.
  unfold channel_infos. rewrite list_elem_of_In, in_map_iff. split.
  - intros ([n ch] & <- & [H Hr]%filter_In). apply list_elem_of_In in H. rewrite hash_iter_perm, elem_of_map_to_list in H.
    exists n, ch. apply negb_true_iff in Hr. done.
  - intros (n & ch & H & Hr & ->). exists (n, ch). split; [done|]. apply filter_In. simpl. rewrite Hr. split; [|done].
    by rewrite <- list_elem_of_In, hash_iter_perm, elem_of_map_to_list.
Qed.

Lemma channel_infos_NoDup a : NoDup (ci_name <$> channel_infos a).
Proof.
  unfold channel_infos. rewrite <- list_fmap_compose. change (NoDup (map fst (List.filter (fun kv => negb (room kv.2)) (hash_iter (channels a))))).
  assert (NoDup (map fst (hash_iter (channels a)))) as H.
  { change (NoDup (fst <$> hash_iter (channels a))). rewrite hash_iter_perm. apply NoDup_fst_map_to_list. }
  induction (hash_iter (channels a)) as [|[n ch] l IH]; [constructor|]. apply NoDup_cons in H as [H1 H2].
  simpl. destruct (negb (room ch)); simpl; [|auto]. constructor; [|auto]. intros Hin. apply H1.
  apply list_elem_of_In, in_map_iff in Hin as ([n' c] & E & [Hc _]%filter_In). apply list_elem_of_In, in_map_iff. eauto.
Qed.

Lemma channel_infos_length a : (List.length (channel_infos a) <= size (channels a))%nat.
Proof.
  unfold channel_infos. rewrite length_map. etransitivity; [apply filter_length_le|].
  by rewrite hash_iter_perm, length_map_to_list.
Qed.

Lemma without_peer_gone peer s n k rm :
  remote_members (s2s_channel_entry (set_channels (without_peer peer <$> channels s) s) n) !! k = Some rm ->
  rm_origin rm <> peer.
Proof.
  unfold s2s_channel_entry. simpl. rewrite lookup_fmap. destruct (channels s !! n); simpl; [|done].
  by intros [_ H]%map_lookup_filter_Some.
Qed.

(** After server [b] takes over the snapshot of server [a], the users [b]
    lists as [a]'s in a channel are exactly the nicks of the members the channel
    has on [a]: nobody is missed, and no user who has gone stays as a ghost;
    and rooms are not in the snapshot. *)
Theorem sync_presence_exact (r : bool) (t : string -> option (string * string)) (a b : Server) (id : string)
    (now : Z) (infos : list ChannelInfo) (n k : string) :
  sync_response a id = SyncResponse id infos -> (size (channels a) <= MAX_SYNC_CHANNELS)%nat ->
  let ch' := s2s_channel_entry (s2s_sync_response r t b id infos now).1 n in
  (exists rm, remote_members ch' !! k = Some rm /\ rm_origin rm = id) <->
  (exists ch sid, channels a !! n = Some ch /\ room ch = false /\ sid ∈ members ch /\ get_nick (nicks a) sid = Some k).
Proof.
  intros [= <-] Hs. fold (channel_infos a). cbv zeta. rewrite sync_state.
  rewrite take_ge by (etransitivity; [apply channel_infos_length|exact Hs]).
  set (s1 := set_channels _ b). assert (Hgone := without_peer_gone id b n k). fold s1 in Hgone.
  assert ((exists ch, channels a !! n = Some ch /\ room ch = false) \/ ~ exists ch, channels a !! n = Some ch /\ room ch = false)
    as [(ch & Hc & Hr)|Hno].
  { destruct (channels a !! n) as [ch|]; [destruct (room ch) eqn:E|].
    - right. intros (c & [= <-] & H). congruence.
    - left. by exists ch.
    - right. by intros (c & ? & _). }
  - assert (channel_info a n ch ∈ channel_infos a) as Hin by (apply elem_of_channel_infos; eauto).
    pose proof (merge_all_presence r id now n k (channel_infos a) _ s1 (channel_infos_NoDup a) Hin eq_refl) as H.
    cbv zeta in H. destruct (decide _) as [Hl|Hl]; rewrite listed_channel_info in Hl.
    + split; [intros _|by intros _]. destruct Hl as (sid & ? & ?). eauto 6.
    + rewrite H. split; [intros (rm & Hk & Ho); by apply Hgone in Hk|].
      intros (ch2 & sid & Hc2 & _ & H1 & H2). simplify_eq. destruct Hl. eauto.
  - rewrite merge_all_other.
    + split; [intros (rm & Hk & Ho); by apply Hgone in Hk|]. intros (ch & sid & Hc & Hr & _). destruct Hno. eauto.
    + intros info (m & ch & Hc & Hr & ->)%elem_of_channel_infos E. simpl in E. subst m. destruct Hno. eauto.
Qed.

(** ** Bounds of a snapshot *)

Lemma merge_all_size r peer now infos : forall s,
  (size (channels (merge_all r peer now infos s).1.1) <= size (channels s) + List.length infos)%nat.
Proof.
  induction infos as [|info infos IH]; intros s; [simpl; lia|]. rewrite merge_all_cons.
  etransitivity; [apply IH|]. cbn [update_entry set_channels channels List.length].
  destruct (channels s !! ci_name info) as [ch|] eqn:E.
  - rewrite map_size_insert_Some by (by eexists). lia.
  - rewrite map_size_insert_None by done. lia.
Qed.

Lemma fold_invites_bounded (l : list string) : forall x : gset string,
  (size (fold_left (fun l i => if decide (MAX_SYNC_INVITES <= size l)%nat then l else l ∪ {[i]}) l x)
   <= Nat.max (size x) MAX_SYNC_INVITES)%nat.
Proof.
  induction l as [|i l IH]; intros x; simpl; [lia|]. etransitivity; [apply IH|].
  destruct (decide _) as [|Hn]; [lia|]. pose proof (size_union_alt x {[i]}) as H.
  assert (size ({[i]} ∖ x) <= 1)%nat as H1.
  { etransitivity; [apply subseteq_size, subseteq_difference_l; reflexivity|]. by rewrite size_singleton. }
  rewrite H. lia.
Qed.

Lemma merge_invites_bounded info ch :
  (size (invites (merge_invites info ch)) <= Nat.max (size (invites ch)) MAX_SYNC_INVITES)%nat.
Proof. unfold merge_invites. destruct (_ && _); [lia|apply fold_invites_bounded]. Qed.

Lemma merge_presence_invites peer info ch : invites (merge_presence peer info ch) = invites ch.
Proof.
  unfold merge_presence. destruct (ci_nick_info info) as [|ni l].
  - revert ch; induction (ci_nicks info) as [|x l IH]; intros ch; simpl; [done|]. by rewrite IH.
  - revert ch; induction (ni :: l) as [|x l' IH]; intros ch; simpl; [done|]. by rewrite IH.
Qed.

Lemma adopt_invites r claimed l ch : invites (adopt_authority r claimed l ch) = invites ch.
Proof.
  unfold adopt_authority. transitivity (invites (adopt_founder claimed ch)); [|unfold adopt_founder; by repeat case_match].
  generalize (adopt_founder claimed ch). induction l as [|d l IH]; intros c; simpl; [done|]. rewrite IH.
  unfold accept_did_op. by repeat case_match.
Qed.

Lemma merge_channel_invites r s peer now info ch :
  (size (invites (merge_channel r s peer now info ch)) <= Nat.max (size (invites ch)) MAX_SYNC_INVITES)%nat.
Proof.
  unfold merge_channel. set (c := merge_masks peer info now _).
  assert (invites c = invites ch) as Hc.
  { unfold c. etransitivity; [|apply (adopt_invites r (ci_founder_did info) (ci_did_ops info))].
    etransitivity; [|apply (merge_presence_invites peer info)]. generalize (merge_presence peer info
      (adopt_authority r (ci_founder_did info) (ci_did_ops info) ch)). intros c0.
    unfold merge_masks, merge_modes, merge_topic. simpl. by repeat case_match. }
  assert (invites (reassess_ops s (merge_invites info c)) = invites (merge_invites info c)) as ->
    by (unfold reassess_ops; by case_match).
  rewrite <- Hc. apply merge_invites_bounded.
Qed.

Lemma merge_all_invites r peer now n infos : forall s,
  (size (invites (s2s_channel_entry (merge_all r peer now infos s).1.1 n))
   <= Nat.max (size (invites (s2s_channel_entry s n))) MAX_SYNC_INVITES)%nat.
Proof.
  induction infos as [|info infos IH]; intros s; [simpl; lia|]. rewrite merge_all_cons. etransitivity; [apply IH|].
  destruct (decide (n = ci_name info)) as [->|Hn]; [|rewrite entry_update_ne by done; lia].
  rewrite entry_update_eq. pose proof (merge_channel_invites r s peer now info (s2s_channel_entry s (ci_name info))). lia.
Qed.

(** However many channels and invitations a snapshot lists, it adds at most
    500 channels to the server, and it leaves no channel with more than 500
    invitations that did not have as many before. *)
Theorem sync_bounded (r : bool) (t : string -> option (string * string)) (s : Server) (peer : string)
    (infos : list ChannelInfo) (now : Z) (n : string) :
  let s' := (s2s_sync_response r t s peer infos now).1 in
  (size (channels s') <= size (channels s) + MAX_SYNC_CHANNELS)%nat /\
  (size (invites (s2s_channel_entry s' n)) <= Nat.max (size (invites (s2s_channel_entry s n))) MAX_SYNC_INVITES)%nat.
Proof.
  cbv zeta. rewrite sync_state. split.
  - etransitivity; [apply merge_all_size|]. simpl. rewrite map_size_fmap, length_take. lia.
  - etransitivity; [apply merge_all_invites|]. unfold s2s_channel_entry. simpl. rewrite lookup_fmap.
    destruct (channels s !! n); done.
Qed.

(** ** What the trust level does not cover *)

Lemma gate_open mgr peer id org m now :
  peer ∈ authenticated_peers mgr -> (rate_step (rate_limits mgr) peer now).1 = true ->
  dedup_key (mkEvent id org m) = ("", "") -> is_relay_event m = false ->
  exists o, (gate mgr peer (mkEvent id org m) false now).1 = Some o.
Proof.
  intros Hp Hr Hk Hm. unfold gate. cbn [negb andb orb body].
  rewrite (bool_decide_eq_true_2 _ Hp), andb_false_r. destruct (rate_step _ _ _) as [within lim]. simpl in Hr. subst within.
  rewrite Hk. cbn [negb is_empty andb]. simpl.
  assert (trust_allows (get_trust mgr peer) m = true) as -> by (destruct (get_trust mgr peer); simpl; [done|by destruct m|by rewrite Hm]).
  by eexists.
Qed.

(** The message that a link has closed is meant to be the server's own, but
    it is accepted from any authenticated peer, read-only ones included, and
    about any other peer: every user of the peer it names disappears. *)
Theorem disconnect_can_be_forged (root : string -> string) (r : bool) (t : string -> option (string * string))
    (mgr : S2sManager) (s : Server) (peer victim id org n k : string) (now : Z) (rm : RemoteMember) :
  peer ∈ authenticated_peers mgr -> (rate_step (rate_limits mgr) peer now).1 = true ->
  let s' := (process_s2s_event root r t mgr s peer (mkEvent id org (PeerDisconnected victim)) now).1.2 in
  remote_members (s2s_channel_entry s' n) !! k = Some rm -> rm_origin rm <> victim.
Proof.
  intros Hp Hr. destruct (gate_open mgr peer id org (PeerDisconnected victim) now Hp Hr eq_refl eq_refl) as [o Ho].
  cbv zeta. unfold process_s2s_event. destruct (gate _ _ _ _ _) as [out mgr']. simpl in Ho. subst out.
  apply without_peer_gone.
Qed.

Lemma accept_fold_adds r claimed d l : forall ch,
  is_some (founder_did ch) = true -> d ∈ l -> starts_with "did:" d = true ->
  d ∈ did_ops (fold_left (accept_did_op r claimed) l ch).
Proof.
  induction l as [|x l IH]; intros ch Hf Hin Hd; [by apply not_elem_of_nil in Hin|]. simpl.
  apply elem_of_cons in Hin as [<-|Hin].
  - apply (did_ops_kept _ _ (grows_fold (accept_did_op r claimed) l _ (grows_accept r claimed))).
    unfold accept_did_op. rewrite Hd, Hf, orb_true_r. simpl. set_solver.
  - apply IH; [|done|done]. destruct (founder_did ch) as [f|] eqn:E; [|done].
    by rewrite (founder_kept _ _ (grows_accept r claimed ch x) f E).
Qed.

Lemma merge_masks_adds by_ now m ms : forall l, m ∈ ms -> m ∈ (mask <$> fold_left (merge_mask by_ now) ms l).
Proof.
  induction ms as [|x ms IH]; intros l Hin; [by apply not_elem_of_nil in Hin|]. simpl.
  apply elem_of_cons in Hin as [<-|Hin]; [|by apply IH].
  assert (m ∈ (mask <$> merge_mask by_ now l m)) as H.
  { unfold merge_mask. destruct (has_mask m l) eqn:E.
    - destruct (decide (m ∈ (mask <$> l))) as [|Hn]; [done|]. apply has_mask_false in Hn. congruence.
    - rewrite fmap_app. apply elem_of_app. right. apply list_elem_of_here. }
  destruct (merge_masks_prefix by_ now ms (merge_mask by_ now l m)) as [l' ->]. rewrite fmap_app. by apply elem_of_app; left.
Qed.

Lemma merge_exceptions r s peer now info ch m :
  m ∈ ci_invite_exceptions info -> m ∈ (mask <$> invite_exceptions (merge_channel r s peer now info ch)).
Proof.
  intros H. unfold merge_channel. set (c := merge_modes _ _).
  assert (invite_exceptions (reassess_ops s (merge_invites info (merge_masks peer info now c)))
          = invite_exceptions (merge_masks peer info now c)) as ->.
  { unfold reassess_ops, merge_invites. destruct (_ || _); destruct (_ && _); done. }
  by apply merge_masks_adds.
Qed.

(** A snapshot is applied whatever the trust level of the peer, and it may
    add to any channel that has a founder, one with members here included: the
    DIDs it lists become operators, and the masks it lists exceptions to
    invite-only. *)
Theorem readonly_snapshot_grants_ops (root : string -> string) (r : bool) (t : string -> option (string * string))
    (mgr : S2sManager) (s : Server) (peer who id org d m : string) (info : ChannelInfo) (now : Z)
    (ch : ChannelState) (f : string) :
  peer ∈ authenticated_peers mgr -> (rate_step (rate_limits mgr) peer now).1 = true ->
  channels s !! ci_name info = Some ch -> founder_did ch = Some f ->
  d ∈ ci_did_ops info -> starts_with "did:" d = true -> m ∈ ci_invite_exceptions info ->
  exists ch', channels (process_s2s_event root r t mgr s peer (mkEvent id org (SyncResponse who [info])) now).1.2
                !! ci_name info = Some ch' /\ d ∈ did_ops ch' /\ m ∈ (mask <$> invite_exceptions ch').
Proof.
  intros Hp Hr Hc Hf Hd Hdid Hm.
  destruct (gate_open mgr peer id org (SyncResponse who [info]) now Hp Hr eq_refl eq_refl) as [o Ho].
  unfold process_s2s_event. destruct (gate _ _ _ _ _) as [out mgr']. simpl in Ho. subst out. cbn [body s2s_channel_message].
  pose proof (sync_state r t s who [info] now) as E. destruct (s2s_sync_response _ _ _ _ _ _) as [s' eff]. simpl in E.
  subst s'. simpl. rewrite lookup_insert_eq. eexists. split; [done|].
  assert (s2s_channel_entry (set_channels (without_peer who <$> channels s) s) (ci_name info) = without_peer who ch) as ->.
  { apply entry_some. simpl. by rewrite lookup_fmap, Hc. }
  split; [|by apply merge_exceptions].
  set (c0 := without_peer who ch). assert (founder_did (adopt_founder (ci_founder_did info) c0) = Some f) as Hf0.
  { by apply (founder_kept _ _ (grows_adopt (ci_founder_did info) c0)). }
  unfold merge_channel. apply (did_ops_kept _ _ (grows_reassess _ _)), (did_ops_kept _ _ (grows_merge_invites _ _)),
    (did_ops_kept _ _ (grows_merge_masks _ _ _ _)), (did_ops_kept _ _ (grows_merge_modes _ _)),
    (did_ops_kept _ _ (grows_merge_topic _ _ _)), (did_ops_kept _ _ (grows_presence _ _ _)).
  apply accept_fold_adds; [by rewrite Hf0|done|done].
Qed.

(** ** A founder through the shared document *)

Section Document.
Context {J : Json}.

Lemma reconcile_entry s d now n ch :
  channels s !! n = Some ch -> s2s_channel_entry (reconcile_crdt_to_local s d now) n = reconcile_channel s d now n ch.
Proof. intros H. apply entry_some. simpl. by rewrite map_lookup_imap, H. Qed.

Lemma reassess_founder s ch : founder_did (reassess_ops s ch) = founder_did ch.
Proof. unfold reassess_ops. by case_match. Qed.

(** Whatever the document says of the founder is what the server has next. *)
Lemma reconcile_founder_did s d now n ch f :
  Cluster.founder n d = Some f -> founder_did (reconcile_channel s d now n ch) = Some f.
Proof.
  intros Hf. unfold reconcile_channel. rewrite Hf.
  assert (forall l c, founder_did c = Some f -> founder_did (reconcile_did_ops s l c) = Some f) as H.
  { intros l c Hc. unfold reconcile_did_ops. destruct l; [done|]. by rewrite reassess_founder. }
  apply H. unfold reconcile_founder. case_bool_decide; [done|]. by rewrite reassess_founder.
Qed.

Lemma apply_lines me l line sids : forall d, fold_left (apply_crdt me) (flat_map (fun sid => send_to l [sid] (line sid)) sids) d = d.
Proof.
  induction sids as [|sid sids IH]; intros d; simpl; [done|]. rewrite fold_left_app, IH.
  unfold send_to. simpl. by destruct (bool_decide _).
Qed.

Lemma apply_names me s channel d : fold_left (apply_crdt me) (send_names_update s channel) d = d.
Proof. unfold send_names_update. destruct (channels s !! channel); [|done]. apply apply_lines. Qed.

(** A claim of another founder for a channel that has one is not taken
    over on arrival, but it is written to the shared document under our own
    id. Where the record there has a larger id, which it has when a server with
    a larger id founded the channel, the next reconciliation makes the claimed
    identity the founder. *)
Theorem rejected_founder_comes_back (r : bool) (s : Server) (d : Cluster.ClusterDoc) (me channel evil f a : string)
    (ch : ChannelState) (now : Z) :
  channels s !! to_lowercase channel = Some ch -> founder_did ch = Some f -> starts_with "did:" evil = true ->
  Cluster.founder_actor (to_lowercase channel) d = Some a -> String.leb a (Cluster.actor_id d) = false ->
  let '(s', eff) := s2s_channel_created r s channel (Some evil) [] in
  let d' := fold_left (apply_crdt me) eff d in
  founder_did (s2s_channel_entry s' (to_lowercase channel)) = Some f /\
  founder_did (s2s_channel_entry (reconcile_crdt_to_local s' d' now) (to_lowercase channel)) = Some evil.
Proof.
  intros Hc Hf He Ha Hl. unfold s2s_channel_created. cbv zeta. rewrite He. cbn [map List.filter app fold_left].
  set (n := to_lowercase channel) in *. set (s' := update_entry n _ s).
  assert (channels s' !! n = Some (grant_backed s (adopt_authority r (Some evil) [] ch))) as Hc'.
  { unfold s'. simpl. by rewrite lookup_insert_eq, (entry_some _ _ _ Hc). }
  split.
  - rewrite (entry_some _ _ _ Hc'). unfold grant_backed, adopt_authority, adopt_founder. simpl. rewrite Hf. done.
  - rewrite (reconcile_entry _ _ _ _ _ Hc'). apply reconcile_founder_did.
    assert (forall l, fold_left (apply_crdt me) l (apply_crdt me d (Crdt (CrdtSetFounder n evil))) = apply_crdt me d (Crdt (CrdtSetFounder n evil)) ->
      Cluster.founder n (fold_left (apply_crdt me) l (apply_crdt me d (Crdt (CrdtSetFounder n evil)))) = Some evil) as H.
    { intros l ->. simpl. unfold Cluster.set_founder. rewrite Ha, Hl. apply Cluster.founder_put. }
    apply H. destruct (negb _); [apply apply_names|done].
Qed.
End Document.
End Handlers.
