(* ===== verification/FederationRuns.v ===== *)
(** * Federation on concrete servers

    The theorems of [FederationSpec] at work on small servers, and runs that
    show behaviour the comments of the code do not lead to expect. *)

From stdpp Require Import base gmap strings list fin_maps.
From Stdlib Require Import ZArith Lia String Ascii.
From S2P Require Import Prelude NickMap RoomTables S2sMessage Channel Rooms ChannelOps Pins ChannelInv S2sLink Crdt Federation FederationSpec.
Open Scope string_scope.
Open Scope list_scope.
Open Scope Z_scope.

#[local] Existing Instances ascii_fold map_order bit_json.

Definition same_id (m : string) : string := m.
Definition no_topics (_ : string) : option (string * string) := None.

(** Ana's invite-only channel, with Rob of another server in it. *)
Definition cats : ChannelState :=
  set_remote {["rob" := mkRemote "peer" (Some "did:plc:rob0") None false None]}
    (set_members {["s1"]} (set_ops {["s1"]} (set_founder (Some "did:plc:ana") (set_did_ops {["did:plc:ana"]}
      (set_invite_only true s2s_new_channel))))).

Definition nicknames : Names :=
  mkNames (nm_insert no_nicks "ana" "s1") ∅ ∅ {["s1" := "did:plc:ana"]}.

Definition cats_server (room_too : bool) : Server :=
  mkServer (if room_too then {["#cats" := cats; "#r-blue-sky-fox" := new_room "did:plc:ana" None 5]} else {["#cats" := cats]})
    nicknames {["did:plc:ana" := {["s1"]}]} {["s1"]} ∅ ∅ ∅ ∅ ∅ ∅ ∅ (if room_too then {["#r-blue-sky-fox"]} else ∅) ∅
    (Some empty_room_db) true "freeq.test" 100 10.

Definition home : Server := cats_server false.

Definition rob_joins : list (string * S2sMessage * Z) :=
  [("peer", Join "Rob2" "#Cats" (Some "did:plc:ana") None true None, 5);
   ("peer", ChannelCreated "#cats" (Some "did:plc:evil") [] 5, 6);
   ("peer", Part "rob" "#cats", 7)].

Lemma messages_keep_authority_witness :
  server_grows home (s2s_run same_id false no_topics "home" rob_joins home) /\
  members (s2s_channel_entry (s2s_run same_id false no_topics "home" rob_joins home) "#cats") = {["s1"]}.
Proof.
  assert (H : server_grows home (s2s_run same_id false no_topics "home" rob_joins home)).
  { apply (messages_keep_authority same_id false no_topics "home" rob_joins home). repeat constructor. }
  split; [exact H|]. exact (members_kept _ _ (each_grows _ _ H "#cats")).
Defined.

(** Ana's mode from another server arrives after she has left its roster. *)
Definition locks : S2sEvent := mkEvent "peer:41" "peer" (Mode "#cats" "+m" None "ana" (Some "did:plc:ana")).

Lemma remote_admin_authorized_witness :
  let s' := (process_s2s_event same_id false no_topics sample_manager home "peer" locks 5).1.2 in
  channels s' !! "#cats" <> channels home !! "#cats" /\
  get_trust sample_manager "peer" = Full /\ setter_authorized cats "ana" (Some "did:plc:ana") = true.
Proof.
  assert (H : channels (process_s2s_event same_id false no_topics sample_manager home "peer" locks 5).1.2 !! "#cats"
              <> channels home !! "#cats") by (vm_compute; discriminate).
  assert (HC : claimed_setter (body locks) = Some ("#cats", "ana", Some "did:plc:ana")) by (vm_compute; reflexivity).
  split; [exact H|].
  destruct (remote_admin_authorized same_id false no_topics sample_manager home "peer" locks 5 "#cats" "ana" "#cats"
    (Some "did:plc:ana") HC H) as (_ & _ & _ & HF & HA).
  split; [exact (HF eq_refl)|]. destruct HA as [(ch & Hc & Ha)|[HA _]]; [|discriminate HA].
  vm_compute in Hc. injection Hc as <-. exact Ha.
Defined.

(** A snapshot that has the channel wide open. *)
Definition open_info : ChannelInfo :=
  mkChannelInfo "#cats" None [] [] None ["did:plc:evil"] 0 false false false false None [] ["did:plc:x"] ["*!*@*"].

Lemma sync_never_weakens_witness :
  exists ch', channels (s2s_sync_response false no_topics home "peer" [open_info] 5).1 !! "#cats" = Some ch' /\
    invite_only ch' = true /\ topic_locked ch' = true /\ members ch' = {["s1"]}.
Proof.
  destruct (sync_never_weakens false no_topics home "peer" [open_info] 5 "#cats" cats eq_refl) as (ch' & Hc & Hw & Hm);
    [vm_compute; discriminate|].
  exists ch'. split; [exact Hc|]. split; [exact (invite_only_kept _ _ Hw eq_refl)|].
  split; [exact (locked_kept _ _ Hw eq_refl)|exact Hm].
Defined.

Definition away : Server := set_channels ∅ home.

Lemma sync_presence_exact_witness :
  match sync_response home "home" with
  | SyncResponse id infos =>
      exists rm, remote_members (s2s_channel_entry (s2s_sync_response false no_topics away id infos 5).1 "#cats") !! "ana"
                 = Some rm /\ rm_origin rm = "home"
  | _ => False
  end.
Proof.
  simpl. eapply (sync_presence_exact false no_topics home away "home" 5 _ "#cats" "ana").
  - reflexivity.
  - vm_compute. lia.
  - exists cats, "s1". split_and!; [reflexivity|reflexivity|refine (bool_decide_unpack _ _); vm_compute; exact I|reflexivity].
Defined.

(** The read-only peer [liar] says that [peer] has gone. *)
Lemma disconnect_can_be_forged_witness :
  get_trust sample_manager "liar" = Readonly /\
  (forall rm, remote_members (s2s_channel_entry
     (process_s2s_event same_id false no_topics sample_manager home "liar" (mkEvent "" "" (PeerDisconnected "peer")) 5).1.2
     "#cats") !! "rob" = Some rm -> rm_origin rm <> "peer") /\
  is_some (remote_members (s2s_channel_entry home "#cats") !! "rob") = true.
Proof.
  split; [reflexivity|]. split; [|reflexivity]. intros rm.
  apply (disconnect_can_be_forged same_id false no_topics sample_manager home "liar" "peer" "" "" "#cats" "rob" 5 rm);
    [refine (bool_decide_unpack _ _); vm_compute; exact I|vm_compute; reflexivity].
Defined.

Lemma readonly_snapshot_grants_ops_witness :
  get_trust sample_manager "liar" = Readonly /\
  exists ch', channels (process_s2s_event same_id false no_topics sample_manager home "liar"
                          (mkEvent "" "" (SyncResponse "liar" [open_info])) 5).1.2 !! "#cats" = Some ch' /\
    "did:plc:evil" ∈ did_ops ch' /\ "*!*@*" ∈ (mask <$> invite_exceptions ch').
Proof.
  split; [reflexivity|].
  apply (readonly_snapshot_grants_ops same_id false no_topics sample_manager home "liar" "liar" "" "" "did:plc:evil" "*!*@*"
    open_info 5 cats "did:plc:ana");
    [refine (bool_decide_unpack _ _); vm_compute; exact I|vm_compute; reflexivity|reflexivity|reflexivity
     |apply list_elem_of_here|reflexivity|apply list_elem_of_here].
Defined.

(** The channel was founded on server "z"; we are server "a". *)
Definition our_doc : Cluster.ClusterDoc :=
  Cluster.rekey_actor "a" (Cluster.set_founder "#cats" "did:plc:ana" (Cluster.new_doc "z")).

Lemma rejected_founder_comes_back_witness :
  let '(s', eff) := s2s_channel_created false home "#cats" (Some "did:plc:evil") [] in
  founder_did (s2s_channel_entry s' "#cats") = Some "did:plc:ana" /\
  founder_did (s2s_channel_entry (reconcile_crdt_to_local s' (fold_left (apply_crdt "a") eff our_doc) 9) "#cats")
  = Some "did:plc:evil".
Proof.
  assert (E : to_lowercase "#cats" = "#cats") by (vm_compute; reflexivity).
  unshelve epose proof (rejected_founder_comes_back false home our_doc "a" "#cats" "did:plc:evil" "did:plc:ana" "z" cats 9
    _ _ _ _ _) as H; try (vm_compute; reflexivity).
  rewrite E in H. exact H.
Defined.

(** ** Further runs *)

(** The end of a link is dropped when its peer has used up its rate. *)
Example disconnect_lost_to_rate_limit :
  let busy := set_rates {["peer" := (5, 100)]} sample_manager in
  channels (process_s2s_event same_id false no_topics busy home "peer" (mkEvent "" "" (PeerDisconnected "peer")) 5).1.2
  = channels home.
Proof. vm_compute. reflexivity. Qed.

(** A reason with a line break reaches clients as two lines. *)
Example kick_reason_injects_a_line :
  (s2s_kick home "rob" "#cats" "ana" (Some "did:plc:ana") ("x" +:+ CRLF +:+ ":freeq.test NOTICE ana :hello")).2
  = [Line "s1" (":ana!remote@s2s KICK #cats rob :x" +:+ CRLF +:+ ":freeq.test NOTICE ana :hello" +:+ CRLF)].
Proof. vm_compute. reflexivity. Qed.

(** A snapshot's channel names are taken as they are, and a local JOIN looks for
    the lower-case one. *)
Example sync_keeps_capitals :
  let info := mkChannelInfo "#Dogs" None ["rex"] [] None [] 0 true false true false None [] [] [] in
  let s' := (s2s_sync_response false no_topics home "peer" [info] 5).1 in
  is_some (channels s' !! "#Dogs") = true /\ channels s' !! "#dogs" = None.
Proof. split; vm_compute; reflexivity. Qed.

(** A room a peer knows the name of: the snapshot makes its DID an operator of
    the room, and the DID can then enter without an invitation. *)
Definition room_info : ChannelInfo :=
  mkChannelInfo "#r-blue-sky-fox" None [] [] None ["did:plc:evil"] 0 true true true false None [] [] [].
Definition eve : Connection := mkConn (Some "eve") (Some "e") None (Some "did:plc:evil") true false false false Human.

Example room_entered_through_a_snapshot :
  let s0 := cats_server true in
  let s1 := (process_s2s_event same_id false no_topics sample_manager s0 "liar"
               (mkEvent "" "" (SyncResponse "liar" [room_info])) 5).1.2 in
  let enters s := match channels (handle_join hash_of no_date None s eve "#r-blue-sky-fox" None "s9" 6).1 !! "#r-blue-sky-fox" with
                  | Some ch => bool_decide ("s9" ∈ members ch)
                  | None => false
                  end in
  enters s0 = false /\ enters s1 = true.
Proof. split; vm_compute; reflexivity. Qed.
