(* ===== verification/SessionLife.v ===== *)
(** * Sessions from sign-in to disconnection

    Models [freeq-server/src/connection/registration.rs] (attaching a session
    to the other devices of its identity, completing a registration) and the
    end of a connection in [connection/mod.rs]: the grace period a signed-in
    user is given before the server says they left. The clock, random numbers
    and what a timer does when it fires are arguments or functions of their
    own; the three tasks the code spawns are [probe_deadline], [grace_expires]
    and the cleanup of calls, which is an effect. *)
From stdpp Require Import base gmap strings list pretty fin_maps.
From Stdlib Require Import ZArith Lia Ascii String.
From S2P Require Import Prelude Text PolicyStore NickMap RoomTables S2sMessage Channel Rooms ChannelOps Pins ChannelInv.
Open Scope string_scope.
Open Scope list_scope.
Open Scope Z_scope.

(** ** State *)

Record Held := mkHeld { h_name : string; h_op : bool; h_voiced : bool; h_halfop : bool }.
Record GhostSession := mkGhost {
  g_nick : string;
  g_hostmask : string;
  g_session_id : string;
  g_channels : list Held;
  g_disconnect_time : Z
}.
Record SpawnedAgent := mkSpawned { sp_child_did : string; sp_nick : string; sp_channel : string; sp_parent_session : string }.

(** The tables a session's life touches beside those of [Server]. The rows of
    [user_channels] are in the order the database returns them; they are there
    when the server has a database. *)
Record Life := mkLife {
  srv : Server;
  ghost_sessions : gmap string GhostSession;
  liveness_probes : gmap string Z;
  session_kill : gset string;
  spawned_agents : gmap string SpawnedAgent;
  user_channels : list (string * string);
  no_guest : bool;
  motd : option (list string)
}.
Definition set_srv (x : Server) (s : Life) : Life :=
  mkLife x (ghost_sessions s) (liveness_probes s) (session_kill s) (spawned_agents s) (user_channels s) (no_guest s) (motd s).
Definition set_ghosts (x : gmap string GhostSession) (s : Life) : Life :=
  mkLife (srv s) x (liveness_probes s) (session_kill s) (spawned_agents s) (user_channels s) (no_guest s) (motd s).
Definition set_probes (x : gmap string Z) (s : Life) : Life :=
  mkLife (srv s) (ghost_sessions s) x (session_kill s) (spawned_agents s) (user_channels s) (no_guest s) (motd s).

Definition with_names (x : Names) (s : Server) : Server :=
  mkServer (channels s) x (did_sessions s) (connections s) (server_opers s) (session_handles s) (session_actor_class s)
    (cap_extended_join s) (cap_message_tags s) (cap_multi_prefix s) (provenance_declarations s) (room_names s)
    (room_activity s) (room_db s) (s2s_manager s) (server_name s) (room_idle_secs s) (room_unclaimed_secs s).
Definition with_did_sessions (x : gmap string (gset string)) (s : Server) : Server :=
  mkServer (channels s) (names s) x (connections s) (server_opers s) (session_handles s) (session_actor_class s)
    (cap_extended_join s) (cap_message_tags s) (cap_multi_prefix s) (provenance_declarations s) (room_names s)
    (room_activity s) (room_db s) (s2s_manager s) (server_name s) (room_idle_secs s) (room_unclaimed_secs s).
Definition with_nicks (x : NickMap) (s : Server) : Server :=
  with_names (mkNames x (nick_owners (names s)) (did_nicks (names s)) (session_dids (names s))) s.

(** The fields of a connection that negotiation and registration use, beside
    those of [Connection]. *)
Record Client := mkClient {
  conn : Connection;
  ghost_channels : option (list string);
  pending_msg_key : option string;
  broker_token : option string;
  caps : gset string;
  sasl_failures : Z;
  dpop_retries : Z;
  sasl_response_buf : string
}.
Definition with_conn (x : Connection) (c : Client) : Client :=
  mkClient x (ghost_channels c) (pending_msg_key c) (broker_token c) (caps c) (sasl_failures c) (dpop_retries c) (sasl_response_buf c).
Definition with_ghost_channels (x : option (list string)) (c : Client) : Client :=
  mkClient (conn c) x (pending_msg_key c) (broker_token c) (caps c) (sasl_failures c) (dpop_retries c) (sasl_response_buf c).
Definition rename (nick : string) (c : Client) : Client := with_conn (set_nick (conn c) nick) c.
Definition set_registered (c : Connection) : Connection :=
  mkConn (c_nick c) (c_user c) (c_realname c) (c_authenticated_did c) true (c_cap_negotiating c) (c_sasl_in_progress c)
    (c_is_oper c) (c_actor_class c).

Inductive LifeEffect :=
  | Wire (e : Effect)
  | Kill (session : string)                                   (* kill.notify_one() *)
  | FileSigningKey (session pubkey : string)                  (* file_session_signing_key *)
  | RecordDespawn (child_did : string)
  | AvDisconnect (did : string) (last : bool)                 (* the calls the session was in *)
  | ProbeTimer (siblings : list string)                       (* probe_deadline, ten seconds on *)
  | GraceTimer (did : string).                                (* grace_expires, thirty seconds on *)

Definition LIVENESS_PROBE_SECS : Z := 10.
Definition QUIT_GRACE_SECS : Z := 30.

(** ** The other devices of an identity *)

Definition mem (x : string) (l : list string) : bool := existsb (String.eqb x) l.

Definition siblings_to_probe (all_for_did : list string) (new_session : string) (exclude : list string) : list string :=
  fold_left (fun out sid => if String.eqb sid new_session || mem sid exclude then out
                            else if mem sid out then out else out ++ [sid]) all_for_did [].

Section Life.
Context {CF : CaseFold} {TR : @Trim CF} {HO : HashOrder}.
Variable token_hash : string -> string.
Variable iso : Z -> string.

(** [session_dids.iter()] filtered by the identity. *)
Definition sessions_of (s : Server) (did : string) : list string :=
  fst <$> List.filter (fun sd : string * string => String.eqb sd.2 did) (hash_iter (session_dids (names s))).

Definition probe_sibling_liveness (s : Life) (siblings : list string) (now : Z) : Life * list LifeEffect :=
  match siblings with
  | [] => (s, [])
  | _ =>
      (set_probes (fold_left (fun p sid => match p !! sid with Some _ => p | None => <[sid := now]> p end) siblings
                     (liveness_probes s)) s,
       map Wire (Channel.send_to (srv s) siblings ("PING :liveness-probe" +:+ CRLF)) ++ [ProbeTimer siblings])
  end.

(** What the spawned task does when the deadline has passed. *)
Definition probe_deadline (s : Life) (siblings : list string) : Life * list LifeEffect :=
  fold_left (fun '(s, e) sid =>
      match liveness_probes s !! sid with
      | None => (s, e)
      | Some _ => (set_probes (delete sid (liveness_probes s)) s,
                   e ++ if bool_decide (sid ∈ session_kill s) then [Kill sid] else [])
      end) siblings (s, []).

(** The PONG handler. *)
Definition handle_pong (s : Life) (session_id : string) : Life := set_probes (delete session_id (liveness_probes s)) s.

(** ** Attaching *)

Definition eq_ignore_case (a b : string) : bool := String.eqb (str_map ascii_lower a) (str_map ascii_lower b).
Definition same_lower (n : option string) (nick : string) : bool :=
  bool_decide (to_lowercase <$> n = Some (to_lowercase nick)).

(** The nick a returning session gets, and the tables after it. [guest] is what
    [bind_identity_with_fallback] falls back on. *)
Definition reclaim_nick (s : Server) (c : Client) (did : string) (g : GhostSession) (guest : string)
    : Server * Client * string :=
  match c_nick (conn c) with
  | Some requested =>
      if negb (eq_ignore_case requested (g_nick g)) then
        let '(assigned, names') := bind_identity_with_fallback (names s) did requested guest in
        let n1 := (remove_by_nick (nick_to_session names') (g_nick g)).2 in
        let n2 := (remove_by_nick n1 requested).2 in
        (with_nicks n2 (with_names names' s), rename assigned c, assigned)
      else if negb (same_lower (Some requested) (g_nick g)) then
        (with_nicks (remove_by_nick (nicks s) requested).2 s, rename (g_nick g) c, g_nick g)
      else (s, c, g_nick g)
  | None => (s, rename (g_nick g) c, g_nick g)
  end.

(** The entry of the old session in a channel becomes the new one's. *)
Definition restore_in (old session_id did : string) (h : Held) (ch : ChannelState) : ChannelState :=
  let ch := remove_session old ch in
  let should_op := h_op h || is_founder ch did || bool_decide (did ∈ did_ops ch) in
  let ch := set_members ({[session_id]} ∪ members ch) ch in
  let ch := if should_op then set_ops ({[session_id]} ∪ ops ch) ch else ch in
  let ch := if h_voiced h then set_voiced ({[session_id]} ∪ voiced ch) ch else ch in
  if h_halfop h then set_halfops ({[session_id]} ∪ halfops ch) ch else ch.
Definition restore_channels (g : GhostSession) (session_id did : string) (s : Server) : Server :=
  fold_left (fun s h => update_channel (to_lowercase (h_name h)) (restore_in (g_session_id g) session_id did h) s)
    (g_channels g) s.

Definition reclaim_ghost (s : Life) (c : Client) (session_id did : string) (g : GhostSession) (guest : string) (now : Z)
    : Life * Client * list LifeEffect :=
  let '(s1, c1, effective_nick) := reclaim_nick (srv s) c did g guest in
  let s2 := with_nicks (nm_insert (nicks s1) effective_nick session_id) s1 in
  let s3 := restore_channels g session_id did s2 in
  let s4 := with_nicks (remove_by_session (nicks s3) (g_session_id g)).2 s3 in
  let zombies := siblings_to_probe (sessions_of s4 did) session_id [g_session_id g] in
  let '(s5, e) := probe_sibling_liveness (set_srv s4 s) zombies now in
  (s5, with_ghost_channels (Some (h_name <$> g_channels g)) c1, e).

(** The first session of an identity claims its nick unless a live session of
    another identity has it, and drops the underscores a collision left. *)
Definition first_session (s : Server) (c : Client) (session_id did : string) : Server * Client :=
  let s1 := match c_nick (conn c) with
            | None => s
            | Some nick =>
                let safe_to_claim :=
                  match get_session (nicks s) nick with
                  | None => true
                  | Some other => match did_of_session s other with
                                  | Some other_did => String.eqb other_did did
                                  | None => true
                                  end
                  end in
                if safe_to_claim then with_nicks (nm_insert (nicks s) nick session_id) s else s
            end in
  match c_nick (conn c) with
  | Some current =>
      if ends_with "_" current then
        let desired := trim_end_char "_" current in
        if contains_nick (nicks s1) desired then (s1, c)
        else (with_nicks (nm_insert (remove_by_nick (nicks s1) current).2 desired session_id) s1, rename desired c)
      else (s1, c)
  | None => (s1, c)
  end.

(** The nick the other devices show. *)
Definition canonical_nick (s : Server) (did : string) : option string :=
  snd <$> List.find (fun sn : string * string => bool_decide (did_of_session s sn.1 = Some did)) (hash_iter (sid_to_nick (nicks s))).

Definition adopt_nick (s : Server) (c : Client) (session_id did : string) : Server * Client :=
  match canonical_nick s did with
  | Some canon =>
      if negb (same_lower (c_nick (conn c)) canon)
      then (with_nicks (nm_insert (remove_by_session (nicks s) session_id).2 canon session_id) s, rename canon c)
      else (with_nicks (nm_insert (nicks s) canon session_id) s, c)
  | None => match c_nick (conn c) with
            | Some nick => (with_nicks (nm_insert (nicks s) nick session_id) s, c)
            | None => (s, c)
            end
  end.

Definition any_in (l : list string) (x : gset string) : bool := existsb (fun sid => bool_decide (sid ∈ x)) l.

Definition join_siblings (existing : list string) (session_id did : string) (ch : ChannelState) : ChannelState :=
  let is_op := any_in existing (ops ch) || is_founder ch did || bool_decide (did ∈ did_ops ch) in
  let is_voiced := any_in existing (voiced ch) in
  let ch := set_members ({[session_id]} ∪ members ch) ch in
  let ch := if is_op then set_ops ({[session_id]} ∪ ops ch) ch else ch in
  if is_voiced then set_voiced ({[session_id]} ∪ voiced ch) ch else ch.

(** What the new device is told about a channel it has been put into. *)
Definition replay_channel (s : Server) (nick did session_id ch_name : string) : list Effect :=
  Line session_id (":" +:+ nick +:+ "!~u@" +:+ cloak_for_did (Some did) +:+ " JOIN " +:+ ch_name +:+ CRLF) ::
  match channels s !! ch_name with
  | Some ch =>
      match topic ch with Some t => [Reply session_id "332" [nick; ch_name; tp_text t]] | None => [] end
      ++ names_replies session_id nick ch_name (folded_names s ch false)
  | None => []
  end.

Definition attach_device (s : Life) (c : Client) (session_id did : string) (existing : list string) (now : Z)
    : Life * Client * list LifeEffect :=
  let '(s1, e1) := probe_sibling_liveness s existing now in
  let '(v, c1) := adopt_nick (srv s1) c session_id did in
  let to_join := fst <$> List.filter (fun nc : string * ChannelState => any_in existing (members nc.2)) (hash_iter (channels v)) in
  let v' := fold_left (fun v n => update_channel n (join_siblings existing session_id did) v) to_join v in
  (set_srv v' s1, c1,
   e1 ++ map Wire (flat_map (replay_channel v' (nick_or_star (conn c1)) did session_id) to_join)).

Definition attach_same_did (s : Life) (c : Client) (session_id guest : string) (now : Z)
    : Life * Client * list LifeEffect :=
  match c_authenticated_did (conn c) with
  | None => (s, c, [])
  | Some did =>
      let v := with_did_sessions (<[did := {[session_id]} ∪ default ∅ (did_sessions (srv s) !! did)]> (did_sessions (srv s))) (srv s) in
      let s1 := set_srv v s in
      match ghost_sessions s !! did with
      | Some g => reclaim_ghost (set_ghosts (delete did (ghost_sessions s)) s1) c session_id did g guest now
      | None =>
          let existing := List.filter (fun sid => bool_decide (sid ∈ connections v))
                            (siblings_to_probe (sessions_of v did) session_id []) in
          match existing with
          | [] => let '(v', c') := first_session v c session_id did in (set_srv v' s1, c', [])
          | _ => attach_device s1 c session_id did existing now
          end
      end
  end.

(** ** Completing a registration *)

(** A nick owned by another identity is given up: [guest] is the name with a
    random number that a client without identity gets. *)
Definition enforce_ownership (s : Server) (c : Client) (session_id guest : string) : Server * Client * list Effect :=
  match c_nick (conn c) with
  | None => (s, c, [])
  | Some nick =>
      let nick_lower := to_lowercase nick in
      match nick_owners (names s) !! nick_lower with
      | None => (s, c, [])
      | Some owner =>
          if bool_decide (c_authenticated_did (conn c) = Some owner) then (s, c, [])
          else match c_authenticated_did (conn c) with
               | Some did =>
                   let '(assigned, names') := bind_identity_with_fallback (names s) did nick_lower guest in
                   let s1 := with_names names' s in
                   (with_nicks (nm_insert (remove_by_nick (nicks s1) nick).2 assigned session_id) s1, rename assigned c,
                    [Reply session_id "NOTICE" ["*"; nick +:+ " is registered to another identity. You are " +:+ assigned
                                                     +:+ " (tied to your account)."]])
               | None =>
                   (with_nicks (nm_insert (remove_by_nick (nicks s) nick).2 guest session_id) s, rename guest c,
                    [Reply session_id "NOTICE" ["*"; "Nick " +:+ nick +:+ " is registered — renamed to " +:+ guest
                                                     +:+ ". Authenticate to reclaim."]])
               end
      end
  end.

Definition send_fail (session_id command code text : string) : Effect := Reply session_id "FAIL" [command; code; text].
Definition close_session (s : Life) (session_id reason : string) : list LifeEffect :=
  map Wire (Channel.send_to (srv s) [session_id] ("ERROR :" +:+ reason +:+ CRLF))
  ++ if bool_decide (session_id ∈ session_kill s) then [Kill session_id] else [].
Definition close_refused (s : Life) (session_id code reason : string) : list LifeEffect :=
  Wire (send_fail session_id "*" code reason) :: close_session s session_id reason.

(** [boot] is the time the server started, as text, and [uptime] the seconds since. *)
Definition ago (uptime : Z) : string :=
  if uptime <? 60 then pretty uptime +:+ "s ago"
  else pretty (uptime / 60) +:+ "m " +:+ pretty (uptime mod 60) +:+ "s ago".
Definition welcome_lines (s : Life) (c : Connection) (session_id boot : string) (uptime : Z) : list Effect :=
  let nick := nick_or_star c in
  let server := server_name (srv s) in
  let auth_info := match c_authenticated_did c with
                   | Some did => " (authenticated as " +:+ did +:+ ")"
                   | None => " (guest)"
                   end in
  [Reply session_id "001" [nick; "Welcome to " +:+ server +:+ ", " +:+ nick +:+ auth_info];
   Reply session_id "002" [nick; "Your host is " +:+ server +:+ ", running freeq 0.1"];
   Reply session_id "003" [nick; "This server was started " +:+ boot];
   Reply session_id "004" [nick; server; "freeq-0.1"; "o"; "o"]]
  ++ match motd s with
     | Some lines =>
         Reply session_id "375" [nick; "- " +:+ server +:+ " Message of the day -"]
         :: map (fun l => Reply session_id "372" [nick; "- " +:+ l]) lines
         ++ [Reply session_id "376" [nick; "End of /MOTD command"]]
     | None => [Reply session_id "422" [nick; "MOTD File is missing"]]
     end
  ++ if uptime <? 300
     then [Line session_id (":" +:+ server +:+ " NOTICE " +:+ nick +:+ " :⚡ Server restarted at " +:+ boot +:+ " ("
                            +:+ ago uptime +:+ ")" +:+ CRLF)]
     else [].

(** What a session that took over from a ghost is told about its channels. *)
Definition replay_ghost_channel (gate : option PolicyGate) (s : Server) (c : Connection) (session_id ch_name : string)
    : list Effect :=
  Line session_id (":" +:+ hostmask c +:+ " JOIN " +:+ ch_name +:+ CRLF)
  :: match channels s !! to_lowercase ch_name ≫= topic with
     | Some t => [Reply session_id "332" [nick_or_star c; ch_name; tp_text t]]
     | None => []
     end
  ++ handle_names gate s c ch_name session_id.

Definition get_user_channels (s : Life) (did : string) : option (list string) :=
  if is_some (room_db (srv s)) then Some (snd <$> List.filter (fun r : string * string => String.eqb r.1 did) (user_channels s))
  else None.

Definition saved_channels (s : Life) (did session_id : string) : list string :=
  let already_in := (fun nc : string * ChannelState => to_lowercase nc.1)
                    <$> List.filter (fun nc : string * ChannelState => bool_decide (session_id ∈ members nc.2)) (hash_iter (channels (srv s))) in
  List.filter (fun ch => negb (mem (to_lowercase ch) already_in)) (default [] (get_user_channels s did)).

Fixpoint rejoin (gate : option PolicyGate) (s : Server) (c : Connection) (session_id : string) (now : Z)
    (chans : list string) : Server * list Effect :=
  match chans with
  | [] => (s, [])
  | ch :: rest =>
      let '(s1, e1) := handle_join token_hash iso gate s c ch None session_id now in
      let '(s2, e2) := rejoin gate s1 c session_id now rest in
      (s2, e1 ++ e2)
  end.

Definition try_complete_registration (gate : option PolicyGate) (s : Life) (c : Client) (session_id guest boot : string)
    (uptime now : Z) : Life * Client * list LifeEffect :=
  if c_registered (conn c) || c_cap_negotiating (conn c) || c_sasl_in_progress (conn c) then (s, c, [])
  else if negb (is_some (c_nick (conn c))) || negb (is_some (c_user (conn c))) then (s, c, [])
  else
    let '(v, c1, e1) := enforce_ownership (srv s) c session_id guest in
    let '(s2, c2, e2) := attach_same_did (set_srv v s) c1 session_id guest now in
    if negb (is_some (c_authenticated_did (conn c2))) && no_guest s2
    then (s2, c2, map Wire e1 ++ e2 ++ close_refused s2 session_id "ACCOUNT_REQUIRED"
                                       "This server requires authentication (guest connections disabled)")
    else
      let cn := set_registered (conn c2) in
      let filed := match pending_msg_key c2 with Some k => [FileSigningKey session_id k] | None => [] end in
      let replays := flat_map (replay_ghost_channel gate (srv s2) cn session_id) (default [] (ghost_channels c2)) in
      let c3 := mkClient cn None None (broker_token c2) (caps c2) (sasl_failures c2) (dpop_retries c2) (sasl_response_buf c2) in
      let '(v3, e3) := match c_authenticated_did cn with
                       | Some did => rejoin gate (srv s2) cn session_id now (saved_channels s2 did session_id)
                       | None => (srv s2, [])
                       end in
      (set_srv v3 s2, c3,
       map Wire e1 ++ e2 ++ filed ++ map Wire (welcome_lines s2 cn session_id boot uptime ++ replays ++ e3)).

(** ** Disconnecting *)

Definition leave_identity (s : Server) (c : Connection) (session_id : string) : bool * Server :=
  match c_authenticated_did c with
  | None => (true, s)
  | Some d =>
      match did_sessions s !! d with
      | None => (true, s)
      | Some l =>
          let l' := l ∖ {[session_id]} in
          if bool_decide (l' = ∅) then (true, with_did_sessions (delete d (did_sessions s)) s)
          else (false, with_did_sessions (<[d := l']> (did_sessions s)) s)
      end
  end.

(** The tables of [Server] and [Life] a session has entries in; the code clears
    as many more, which nothing here reads. *)
Definition forget_session (session_id : string) (s : Server) : Server :=
  mkServer (channels s)
    (mkNames (nick_to_session (names s)) (nick_owners (names s)) (did_nicks (names s)) (delete session_id (session_dids (names s))))
    (did_sessions s) (connections s ∖ {[session_id]}) (server_opers s ∖ {[session_id]}) (delete session_id (session_handles s))
    (delete session_id (session_actor_class s)) (cap_extended_join s ∖ {[session_id]}) (cap_message_tags s ∖ {[session_id]})
    (cap_multi_prefix s ∖ {[session_id]}) (provenance_declarations s) (room_names s) (room_activity s) (room_db s)
    (s2s_manager s) (server_name s) (room_idle_secs s) (room_unclaimed_secs s).
Definition cleanup_session_state (s : Life) (session_id : string) : Life * list LifeEffect :=
  let v := forget_session session_id (srv s) in
  let children := List.filter (fun sa => String.eqb (sp_parent_session sa) session_id) (snd <$> hash_iter (spawned_agents s)) in
  (mkLife v (ghost_sessions s) (delete session_id (liveness_probes s)) (session_kill s ∖ {[session_id]})
     (fold_left (fun m sa => delete (sp_child_did sa) m) children (spawned_agents s))
     (user_channels s) (no_guest s) (motd s),
   flat_map (fun sa => map Wire (broadcast_to_channel v (sp_channel sa)
                                   (":" +:+ sp_nick sa +:+ "!spawn@freeq/spawn QUIT :Parent disconnected" +:+ CRLF))
                       ++ [RecordDespawn (sp_child_did sa)]) children).

Definition broadcast_quit (s : Server) (session_id mask : string) : list Effect :=
  flat_map (fun nc : string * ChannelState =>
    if bool_decide (session_id ∈ members nc.2)
    then Channel.send_to s (set_iter (members nc.2 ∖ {[session_id]})) (":" +:+ mask +:+ " QUIT :Connection closed" +:+ CRLF)
    else []) (hash_iter (channels s)).

(** The channels whose membership the grace period keeps. *)
Definition channels_to_hold (s : Life) (did session_id : string) : list Held :=
  let subscribed := default [] (get_user_channels s did) in
  omap (fun nc : string * ChannelState =>
          if bool_decide (session_id ∈ members nc.2) && (negb (is_some (room_db (srv s))) || mem nc.1 subscribed)
          then Some (mkHeld nc.1 (bool_decide (session_id ∈ ops nc.2)) (bool_decide (session_id ∈ voiced nc.2))
                       (bool_decide (session_id ∈ halfops nc.2)))
          else None) (hash_iter (channels (srv s))).

Definition drop_nick_entry (session_id : string) (s : Life) : Life :=
  set_srv (with_nicks (remove_by_session (nicks (srv s)) session_id).2 (srv s)) s.
Definition drop_membership (session_id : string) (s : Life) : Life :=
  set_srv (cleanup_channel_membership (srv s) session_id) s.

(** Once the read loop of a connection has ended. *)
Definition disconnect (s : Life) (c : Client) (session_id : string) (now : Z) : Life * list LifeEffect :=
  let '(last, v) := leave_identity (srv s) (conn c) session_id in
  let s0 := set_srv v s in
  let av := AvDisconnect (default ("guest:" +:+ nick_or_star (conn c)) (c_authenticated_did (conn c))) last in
  match c_nick (conn c) with
  | Some nick =>
      if last then
        match c_authenticated_did (conn c) with
        | Some did =>
            let held := channels_to_hold s0 did session_id in
            let '(s1, e1) := cleanup_session_state s0 session_id in
            (set_ghosts (<[did := mkGhost nick (hostmask (conn c)) session_id held now]> (ghost_sessions s1)) s1,
             av :: e1 ++ [GraceTimer did])
        | None =>
            let e0 := broadcast_quit (srv s0) session_id (hostmask (conn c)) in
            let s1 := drop_nick_entry session_id s0 in
            let '(s2, e2) := cleanup_session_state s1 session_id in
            (drop_membership session_id s2,
             av :: map Wire (e0 ++ s2s_broadcast (srv s1) (Quit nick "Connection closed")) ++ e2)
        end
      else
        let '(s1, e1) := cleanup_session_state s0 session_id in
        (drop_nick_entry session_id (drop_membership session_id s1), av :: e1)
  | None => let '(s1, e1) := cleanup_session_state s0 session_id in (drop_membership session_id s1, av :: e1)
  end.

(** The grace period of a ghost ends. A ghost that is reclaimed or replaced
    takes its timer with it, so the one that fires is the one on file. *)
Definition grace_expires (s : Life) (did : string) : Life * list LifeEffect :=
  match ghost_sessions s !! did with
  | None => (s, [])
  | Some g =>
      let v := srv s in
      let quit_msg := ":" +:+ g_hostmask g +:+ " QUIT :Connection closed" +:+ CRLF in
      let told := flat_map (fun nc : string * ChannelState => Channel.send_to v (set_iter (members nc.2)) quit_msg) (hash_iter (channels v)) in
      let s1 := set_ghosts (delete did (ghost_sessions s)) s in
      (drop_membership (g_session_id g) (drop_nick_entry (g_session_id g) s1),
       map Wire (told ++ s2s_broadcast v (Quit (g_nick g) "Connection closed")))
  end.

(** The rows of [user_channels] after the writes of a command. *)
Definition store_row (rows : list (string * string)) (e : Effect) : list (string * string) :=
  match e with
  | Db (AddUserChannel did channel) => if bool_decide ((did, channel) ∈ rows) then rows else rows ++ [(did, channel)]
  | Db (RemoveUserChannel did channel) => List.filter (fun r => negb (bool_decide (r = (did, channel)))) rows
  | Db (DeleteChannelRows channel) => List.filter (fun r : string * string => negb (String.eqb r.2 channel)) rows
  | _ => rows
  end.
End Life.
