(* ===== verification/SessionSpec.v ===== *)
(** * What the life of a session guarantees

    Theorems about [SessionLife]: what attaching a device may confer, what a
    disconnection leaves behind, that a reconnection within the grace period
    restores what was held, and where the code departs from that. *)
From stdpp Require Import base gmap strings list pretty fin_maps fin_sets.
From Stdlib Require Import ZArith Lia Ascii String.
From S2P Require Import Prelude Text PolicyStore NickMap RoomTables S2sMessage Channel Rooms ChannelOps Pins ChannelInv SessionLife.
Open Scope string_scope.
Open Scope list_scope.
Open Scope Z_scope.

Lemma mem_spec x l : mem x l = true <-> x ∈ l.
Proof.
  unfold mem. rewrite existsb_exists, list_elem_of_In. split.
  - intros (y & Hy & ->%String.eqb_eq). done.
  - intros H. exists x. by rewrite String.eqb_refl.
Qed.

Lemma any_in_spec l x : any_in l x = true <-> exists y, y ∈ l /\ y ∈ x.
Proof.
  unfold any_in. rewrite existsb_exists. split; intros (y & H1 & H2); exists y.
  - rewrite list_elem_of_In. by apply bool_decide_eq_true in H2.
  - rewrite <-list_elem_of_In. split; [done|]. by apply bool_decide_eq_true.
Qed.

(** The siblings of a new session: every other session of the list that is not
    excluded, once. *)
Lemma siblings_to_probe_spec all new exclude :
  NoDup (siblings_to_probe all new exclude) /\
  forall x, x ∈ siblings_to_probe all new exclude <-> x ∈ all /\ x <> new /\ x ∉ exclude.
Proof.
  unfold siblings_to_probe.
  assert (H : forall l out, NoDup out ->
    NoDup (fold_left (fun out sid => if String.eqb sid new || mem sid exclude then out
                                     else if mem sid out then out else out ++ [sid]) l out) /\
    forall x, x ∈ fold_left (fun out sid => if String.eqb sid new || mem sid exclude then out
                                     else if mem sid out then out else out ++ [sid]) l out <->
              x ∈ out \/ x ∈ l /\ x <> new /\ x ∉ exclude).
  { induction l as [|y l IH]; intros out Hd; simpl.
    - split; [done|]. intros x. set_solver.
    - destruct (String.eqb y new || mem y exclude) eqn:E.
      + destruct (IH out Hd) as [H1 H2]. split; [done|]. intros x. rewrite H2, elem_of_cons.
        apply orb_true_iff in E as [E%String.eqb_eq|E%mem_spec]; naive_solver.
      + apply orb_false_iff in E as [E1%String.eqb_neq E2]. rewrite <-not_true_iff_false, mem_spec in E2.
        destruct (mem y out) eqn:E3.
        * apply mem_spec in E3. destruct (IH out Hd) as [H1 H2]. split; [done|]. intros x. rewrite H2, elem_of_cons. naive_solver.
        * rewrite <-not_true_iff_false, mem_spec in E3. destruct (IH (out ++ [y])) as [H1 H2].
          { apply NoDup_app. split; [done|]. split; [set_solver|apply NoDup_singleton]. }
          split; [done|]. intros x. rewrite H2, elem_of_app, list_elem_of_singleton, elem_of_cons. naive_solver. }
  destruct (H all [] ltac:(constructor)) as [H1 H2]. split; [done|]. intros x. rewrite H2. set_solver.
Qed.

Section Spec.
Context {CF : CaseFold} {TR : @Trim CF} {HO : HashOrder}.

Lemma sessions_of_spec s did x : x ∈ sessions_of s did <-> did_of_session s x = Some did.
Proof.
  unfold sessions_of, did_of_session. rewrite list_elem_of_fmap. split.
  - intros ([y d] & -> & H). rewrite list_elem_of_In, filter_In in H. destruct H as [H E%String.eqb_eq]. simpl in E. subst.
    rewrite <-list_elem_of_In, hash_iter_perm in H. by apply elem_of_map_to_list in H.
  - intros H. exists (x, did). split; [done|]. rewrite list_elem_of_In, filter_In, <-list_elem_of_In, hash_iter_perm.
    split; [by apply elem_of_map_to_list|]. apply String.eqb_refl.
Qed.

(** ** What attaching confers *)

(** Another live session of the identity, or the session it lost, has the flag. *)
Definition held (s : Life) (did sid n : string) (ch : ChannelState) (flag : ChannelState -> gset string) (f : Held -> bool) : Prop :=
  (exists y, y ∈ flag ch /\ y <> sid /\ did_of_session (srv s) y = Some did /\ y ∈ connections (srv s)) \/
  (exists g h, ghost_sessions s !! did = Some g /\ h ∈ g_channels g /\ to_lowercase (h_name h) = n /\ f h = true).

Record gained (s : Life) (did sid n : string) (ch ch' : ChannelState) : Prop := mkGained {
  gained_rest : set_members (members ch) (set_ops (ops ch) (set_voiced (voiced ch) (set_halfops (halfops ch) ch'))) = ch;
  gained_members x : x ∈ members ch' -> x ∈ members ch \/ x = sid /\ held s did sid n ch members (fun _ => true);
  gained_ops x : x ∈ ops ch' -> x ∈ ops ch \/
    x = sid /\ (held s did sid n ch ops h_op \/ founder_did ch = Some did \/ did ∈ did_ops ch);
  gained_voiced x : x ∈ voiced ch' -> x ∈ voiced ch \/ x = sid /\ held s did sid n ch voiced h_voiced;
  gained_halfops x : x ∈ halfops ch' -> x ∈ halfops ch \/ x = sid /\ held s did sid n ch halfops h_halfop
}.

Definition derives (s : Life) (did sid : string) (chs : gmap string ChannelState) : Prop :=
  forall n ch', chs !! n = Some ch' -> exists ch, channels (srv s) !! n = Some ch /\ gained s did sid n ch ch'.

Lemma gained_refl s did sid n ch : gained s did sid n ch ch.
Proof. split; [by destruct ch| | | |]; by left. Qed.

Lemma gained_keeps s did sid n ch ch' : gained s did sid n ch ch' ->
  founder_did ch' = founder_did ch /\ did_ops ch' = did_ops ch.
Proof. intros []. rewrite <-gained_rest0. by destruct ch'. Qed.

Lemma derives_alter s did sid chs k f :
  derives s did sid chs ->
  (forall ch ch', gained s did sid k ch ch' -> gained s did sid k ch (f ch')) -> derives s did sid (alter f k chs).
Proof.
  intros H Hf n ch'. destruct (decide (n = k)) as [->|Hne].
  - rewrite lookup_alter_eq. intros (ch0 & E & ->)%fmap_Some. destruct (H _ _ E) as (ch & Hc & Hg). eauto.
  - rewrite lookup_alter_ne by done. apply H.
Qed.

Lemma restore_gained s did sid g h ch ch' :
  ghost_sessions s !! did = Some g -> h ∈ g_channels g ->
  gained s did sid (to_lowercase (h_name h)) ch ch' ->
  gained s did sid (to_lowercase (h_name h)) ch (restore_in (g_session_id g) sid did h ch').
Proof.
  intros Hg Hh H. destruct (gained_keeps _ _ _ _ _ _ H) as [Ef Ed]. destruct H as [H1 H2 H3 H4 H5].
  assert (Hheld : forall flag f, f h = true -> held s did sid (to_lowercase (h_name h)) ch flag f) by (intros; right; eauto 6).
  split; unfold restore_in.
  - etransitivity; [|exact H1]. clear. destruct ch'. by repeat case_match.
  - intros x. assert (Hm : forall y, y ∈ members ch' ∖ {[g_session_id g]} -> y ∈ members ch') by set_solver.
    repeat case_match; simpl; rewrite elem_of_union, elem_of_singleton; (intros [->|Hx]; [right; split; [done|]; by apply Hheld|by apply H2, Hm]).
  - intros x. destruct (h_op h || is_founder _ did || bool_decide (did ∈ did_ops _)) eqn:E.
    + assert (Hop : h_op h = true \/ founder_did ch = Some did \/ did ∈ did_ops ch).
      { rewrite <-Ef, <-Ed. rewrite !orb_true_iff in E. unfold is_founder in E. destruct E as [[E|E]|E]; [by left| |];
          apply bool_decide_eq_true in E; by auto. }
      intros Hx. assert (Hx' : x = sid \/ x ∈ ops ch') by (revert Hx; repeat case_match; simpl; set_solver).
      destruct Hx' as [->|Hx']; [|by apply H3]. right. split; [done|]. destruct Hop as [Ho|Ho]; [left; by apply Hheld|by right].
    + intros Hx. apply H3. revert Hx. repeat case_match; simpl; set_solver.
  - intros x Hx. assert (Hx' : x = sid /\ h_voiced h = true \/ x ∈ voiced ch') by (revert Hx; repeat case_match; simpl; set_solver).
    destruct Hx' as [[-> Hv]|Hx']; [|by apply H4]. right. split; [done|]. by apply Hheld.
  - intros x Hx. assert (Hx' : x = sid /\ h_halfop h = true \/ x ∈ halfops ch') by (revert Hx; repeat case_match; simpl; set_solver).
    destruct Hx' as [[-> Hv]|Hx']; [|by apply H5]. right. split; [done|]. by apply Hheld.
Qed.

Definition live_siblings (s : Life) (did sid : string) (l : list string) : Prop :=
  forall y, y ∈ l -> y <> sid /\ did_of_session (srv s) y = Some did /\ y ∈ connections (srv s).

Lemma siblings_gained s did sid n existing ch ch' :
  live_siblings s did sid existing -> any_in existing (members ch') = true ->
  gained s did sid n ch ch' -> gained s did sid n ch (join_siblings existing sid did ch').
Proof.
  intros Hl Hm H. destruct (gained_keeps _ _ _ _ _ _ H) as [Ef Ed]. destruct H as [H1 H2 H3 H4 H5].
  assert (Hheld : forall flag f, (forall x, x ∈ flag ch' -> x ∈ flag ch \/ x = sid /\ held s did sid n ch flag f) ->
    any_in existing (flag ch') = true -> held s did sid n ch flag f).
  { intros flag f Hf (y & Hy & Hin)%any_in_spec. destruct (Hl y Hy) as (Hne & Hd & Hc).
    destruct (Hf y Hin) as [Hy'|[-> _]]; [|done]. left. eauto. }
  split; unfold join_siblings.
  - etransitivity; [|exact H1]. clear. destruct ch'. by repeat case_match.
  - intros x Hx. assert (Hx' : x = sid \/ x ∈ members ch') by (revert Hx; repeat case_match; simpl; set_solver).
    destruct Hx' as [->|Hx']; [|by apply H2]. right. split; [done|]. by eapply Hheld.
  - intros x. destruct (any_in existing (ops ch') || is_founder ch' did || bool_decide (did ∈ did_ops ch')) eqn:E.
    + intros Hx. assert (Hx' : x = sid \/ x ∈ ops ch') by (revert Hx; repeat case_match; simpl; set_solver).
      destruct Hx' as [->|Hx']; [|by apply H3]. rewrite !orb_true_iff in E. unfold is_founder in E.
      destruct E as [[E|E%bool_decide_eq_true]|E%bool_decide_eq_true].
      * apply any_in_spec in E as (y & Hy & Hin). destruct (Hl y Hy) as (Hne & Hd & Hc).
        destruct (H3 y Hin) as [Hy'|[-> _]]; [|done]. right. split; [done|]. left. left. eauto.
      * right. rewrite <-Ef. auto.
      * right. rewrite <-Ed. auto.
    + intros Hx. apply H3. revert Hx. repeat case_match; simpl; set_solver.
  - intros x. destruct (any_in existing (voiced ch')) eqn:E.
    + intros Hx. assert (Hx' : x = sid \/ x ∈ voiced ch') by (revert Hx; repeat case_match; simpl; set_solver).
      destruct Hx' as [->|Hx']; [|by apply H4]. right. split; [done|]. by eapply Hheld.
    + intros Hx. apply H4. revert Hx. repeat case_match; simpl; set_solver.
  - intros x Hx. apply H5. revert Hx. repeat case_match; simpl; set_solver.
Qed.

(** The nick of a session is no matter of its channels. *)
Lemma reclaim_nick_channels v c did g guest : channels (reclaim_nick v c did g guest).1.1 = channels v.
Proof. unfold reclaim_nick. by repeat case_match. Qed.
Lemma first_session_channels v c sid did : channels (first_session v c sid did).1 = channels v.
Proof. unfold first_session. by repeat case_match. Qed.
Lemma adopt_nick_channels v c sid did : channels (adopt_nick v c sid did).1 = channels v.
Proof. unfold adopt_nick. by repeat case_match. Qed.
Lemma probe_srv s l now : srv (probe_sibling_liveness s l now).1 = srv s.
Proof. by destruct l. Qed.

(** Folding over the channels of a list. *)
Lemma fold_update_channels {A} (k : A -> string) (f : A -> ChannelState -> ChannelState) l v :
  channels (fold_left (fun v x => update_channel (k x) (f x) v) l v) =
  fold_left (fun chs x => alter (f x) (k x) chs) l (channels v).
Proof. revert v. induction l as [|x l IH]; intros v; simpl; [done|]. by rewrite IH. Qed.

Lemma derives_restore s did sid g v :
  ghost_sessions s !! did = Some g -> derives s did sid (channels v) ->
  derives s did sid (channels (restore_channels g sid did v)).
Proof.
  intros Hg Hv. unfold restore_channels. rewrite (fold_update_channels (fun h => to_lowercase (h_name h))).
  assert (Hall : forall h, h ∈ g_channels g -> h ∈ g_channels g) by done. revert Hall.
  generalize (g_channels g) at 1 3 as l. intros l. revert Hv. generalize (channels v) as chs.
  induction l as [|h l IH]; intros chs Hv Hall; simpl; [done|].
  apply IH; [|set_solver]. apply derives_alter; [done|]. intros ch ch'. apply restore_gained; [done|]. set_solver.
Qed.

Lemma join_siblings_members existing sid did ch : members ch ⊆ members (join_siblings existing sid did ch).
Proof. unfold join_siblings. repeat case_match; simpl; set_solver. Qed.

Lemma any_in_mono l x y : x ⊆ y -> any_in l x = true -> any_in l y = true.
Proof. intros H (z & H1 & H2)%any_in_spec. apply any_in_spec. set_solver. Qed.

Lemma derives_join s did sid existing v l :
  live_siblings s did sid existing -> derives s did sid (channels v) ->
  (forall n, n ∈ l -> forall ch, channels v !! n = Some ch -> any_in existing (members ch) = true) ->
  derives s did sid (channels (fold_left (fun v n => update_channel n (join_siblings existing sid did) v) l v)).
Proof.
  intros Hl. rewrite (fold_update_channels (fun n => n) (fun _ => join_siblings existing sid did)).
  generalize (channels v) as chs. induction l as [|n l IH]; intros chs Hv Hall; simpl; [done|].
  apply IH.
  - intros m ch' Hm. destruct (decide (m = n)) as [->|Hne].
    + rewrite lookup_alter_eq in Hm. apply fmap_Some in Hm as (ch0 & E & ->). destruct (Hv _ _ E) as (ch & Hc & Hg).
      exists ch. split; [done|]. apply siblings_gained; [done| |done]. eapply Hall; [|done]. set_solver.
    + rewrite lookup_alter_ne in Hm by done. by apply Hv.
  - intros m Hm ch'. destruct (decide (m = n)) as [->|Hne].
    + rewrite lookup_alter_eq. intros (ch0 & E & ->)%fmap_Some.
      eapply any_in_mono; [apply join_siblings_members|]. eapply Hall; [|done]. set_solver.
    + rewrite lookup_alter_ne by done. apply Hall. set_solver.
Qed.

Lemma attach_derives s c sid guest now did :
  c_authenticated_did (conn c) = Some did -> derives s did sid (channels (srv (attach_same_did s c sid guest now).1.1)).
Proof.
  intros Hd.
  assert (H0 : derives s did sid (channels (srv s))) by (intros n ch Hn; exists ch; split; [done|apply gained_refl]).
  unfold attach_same_did. rewrite Hd. destruct (ghost_sessions s !! did) as [g|] eqn:Hg.
  - unfold reclaim_ghost. destruct (reclaim_nick _ c did g guest) as [[s1 c1] eff] eqn:E.
    apply (f_equal (fun x => channels x.1.1)) in E. rewrite reclaim_nick_channels in E. simpl in E.
    destruct (probe_sibling_liveness _ _ now) as [s5 e] eqn:Ep. apply (f_equal (fun x => srv x.1)) in Ep.
    rewrite probe_srv in Ep. simpl in Ep. simpl. rewrite <-Ep. simpl. apply derives_restore; [done|]. simpl. by rewrite <-E.
  - set (v := with_did_sessions _ (srv s)). destruct (List.filter _ _) as [|x existing] eqn:Ef.
    + destruct (first_session v c sid did) as [v' c'] eqn:E. apply (f_equal (fun x => channels x.1)) in E.
      rewrite first_session_channels in E. simpl in *. by rewrite <-E.
    + unfold attach_device. destruct (probe_sibling_liveness _ _ now) as [s1 e] eqn:Ep.
      apply (f_equal (fun x => srv x.1)) in Ep. rewrite probe_srv in Ep. simpl in Ep. rewrite <-Ep.
      destruct (adopt_nick v c sid did) as [v1 c1] eqn:E. apply (f_equal (fun x => channels x.1)) in E.
      rewrite adopt_nick_channels in E. simpl in *. apply derives_join.
      * intros y Hy. rewrite <-Ef, list_elem_of_In, filter_In, <-list_elem_of_In in Hy. destruct Hy as [Hy Hc%bool_decide_eq_true].
        apply siblings_to_probe_spec in Hy as (Hy & Hne & _). apply sessions_of_spec in Hy. done.
      * by rewrite <-E.
      * intros n Hn ch Hch. apply list_elem_of_fmap in Hn as ([n' ch0] & -> & Hn).
        rewrite list_elem_of_In, filter_In, <-list_elem_of_In, hash_iter_perm, elem_of_map_to_list in Hn.
        destruct Hn as [Hn Ha]. simpl in Hch. rewrite Hn in Hch. by injection Hch as <-.
Qed.

(** Attaching a session to its identity changes nothing in a channel but its
    own standing there, and what it gains the identity already had: another
    live session of it, or the session it lost, was a member, operator, voiced
    or half-operator there, or the channel lists the identity as an operator. *)
Theorem attach_confers_nothing s c sid guest now did n ch' :
  c_authenticated_did (conn c) = Some did ->
  channels (srv (attach_same_did s c sid guest now).1.1) !! n = Some ch' ->
  exists ch, channels (srv s) !! n = Some ch /\ gained s did sid n ch ch'.
Proof. intros Hd. by apply attach_derives. Qed.

(** ** What a disconnection leaves behind *)

Definition not_in_channels (v : Server) (sid : string) : Prop :=
  forall n ch, channels v !! n = Some ch -> sid ∉ members ch /\ sid ∉ ops ch /\ sid ∉ voiced ch /\ sid ∉ halfops ch.
Definition no_nick (v : Server) (sid : string) : Prop :=
  get_nick (nicks v) sid = None /\ forall k, nick_to_sid (nicks v) !! k <> Some sid.
(** The tables that are cleared at once, on every path. *)
Record logged_off (s : Life) (did : option string) (sid : string) : Prop := {
  off_connection : sid ∉ connections (srv s);
  off_did : did_of_session (srv s) sid = None;
  off_oper : sid ∉ server_opers (srv s);
  off_kill : sid ∉ session_kill s;
  off_probe : liveness_probes s !! sid = None;
  off_identity : forall d, did = Some d -> sid ∉ default ∅ (did_sessions (srv s) !! d)
}.

Lemma leave_identity_spec v c sid last v' :
  leave_identity v c sid = (last, v') ->
  (forall d, c_authenticated_did c = Some d -> sid ∉ default ∅ (did_sessions v' !! d)) /\
  v' = with_did_sessions (did_sessions v') v.
Proof.
  unfold leave_identity. destruct (c_authenticated_did c) as [d|]; [|intros [= <- <-]; by destruct v].
  destruct (did_sessions v !! d) as [l|] eqn:El; [|intros [= <- <-]; split; [intros ? [= <-]; rewrite El; set_solver|by destruct v]].
  case_bool_decide as Hl; intros [= <- <-]; (split; [intros ? [= <-]|done]); simpl.
  - rewrite lookup_delete_eq. set_solver.
  - rewrite lookup_insert_eq. set_solver.
Qed.

Lemma cleanup_logged_off s did sid :
  (forall d, did = Some d -> sid ∉ default ∅ (did_sessions (srv s) !! d)) -> logged_off (cleanup_session_state s sid).1 did sid.
Proof.
  intros H. split; simpl; try set_solver; [|apply lookup_delete_eq].
  unfold did_of_session. simpl. apply lookup_delete_eq.
Qed.

Lemma cleanup_not_in_channels v sid : not_in_channels (cleanup_channel_membership v sid) sid.
Proof.
  intros n ch. simpl. intros [H _]%map_lookup_filter_Some. rewrite lookup_fmap in H. apply fmap_Some in H as (ch0 & _ & ->).
  simpl. set_solver.
Qed.

Lemma dropped_no_nick m v sid : primary_sound m -> nicks v = (remove_by_session m sid).2 -> no_nick v sid.
Proof.
  intros H E. assert (Hn : get_nick (nicks v) sid = None) by (rewrite E; apply remove_session_nick).
  split; [done|]. apply unheld_unreachable; [|done]. rewrite E. by apply remove_session_sound.
Qed.

(** The two tidy-ups leave the cleared tables cleared. *)
Lemma logged_off_ext s s' did sid :
  connections (srv s') = connections (srv s) -> session_dids (names (srv s')) = session_dids (names (srv s)) ->
  server_opers (srv s') = server_opers (srv s) -> session_kill s' = session_kill s ->
  liveness_probes s' = liveness_probes s -> did_sessions (srv s') = did_sessions (srv s) ->
  logged_off s did sid -> logged_off s' did sid.
Proof. intros E1 E2 E3 E4 E5 E6 []. split; rewrite ?E1, ?E3, ?E4, ?E5, ?E6; try done. unfold did_of_session in *. by rewrite E2. Qed.

(** A connection that has ended is out of every table at once, except that a
    signed-in user's last one keeps its channels and nick for the grace period,
    under a ghost of the identity; when that ends these are gone too. *)
Theorem disconnect_leaves_no_trace s c sid now :
  primary_sound (nicks (srv s)) -> (c_nick (conn c) = None -> get_nick (nicks (srv s)) sid = None) ->
  let s1 := (disconnect s c sid now).1 in
  logged_off s1 (c_authenticated_did (conn c)) sid /\
  ((not_in_channels (srv s1) sid /\ no_nick (srv s1) sid) \/
   exists did g, c_authenticated_did (conn c) = Some did /\ ghost_sessions s1 !! did = Some g /\ g_session_id g = sid /\
     let s2 := (grace_expires s1 did).1 in
     not_in_channels (srv s2) sid /\ no_nick (srv s2) sid /\ logged_off s2 (Some did) sid /\ ghost_sessions s2 !! did = None).
Proof.
  intros Hp Hn. unfold disconnect. destruct (leave_identity (srv s) (conn c) sid) as [last v] eqn:El.
  apply leave_identity_spec in El as [Hd Hv].
  assert (Hnv : nicks v = nicks (srv s)) by by rewrite Hv. set (s0 := set_srv v s).
  pose proof (cleanup_logged_off s0 _ sid Hd) as Hoff.
  destruct (c_nick (conn c)) as [nick|] eqn:En; [destruct last; [destruct (c_authenticated_did (conn c)) as [did|] eqn:Ed|]|].
  - destruct (cleanup_session_state s0 sid) as [s1 e1] eqn:Ec. simpl in *. split.
    + eapply logged_off_ext; [..|exact Hoff]; done.
    + right. eexists did, _. split; [done|]. simpl. rewrite lookup_insert_eq. split; [done|]. split; [done|].
      unfold grace_expires. simpl. rewrite lookup_insert_eq. simpl.
      assert (Hn1 : nicks (srv s1) = nicks (srv s)) by (unfold cleanup_session_state in Ec; injection Ec as <- _; by rewrite <-Hnv).
      split; [apply cleanup_not_in_channels|]. split; [|split; [eapply logged_off_ext; [..|exact Hoff]; done|apply lookup_delete_eq]].
      apply (dropped_no_nick (nicks (srv s1))); [by rewrite Hn1|done].
  - assert (Hoff' : logged_off (cleanup_session_state (drop_nick_entry sid s0) sid).1 None sid) by by apply cleanup_logged_off.
    destruct (cleanup_session_state (drop_nick_entry sid s0) sid) as [s2 e2] eqn:Ec. simpl in *. split.
    + eapply logged_off_ext; [..|exact Hoff']; done.
    + left. split; [apply cleanup_not_in_channels|]. unfold cleanup_session_state in Ec. injection Ec as <- _.
      apply (dropped_no_nick (nicks v)); [by rewrite Hnv|done].
  - destruct (cleanup_session_state s0 sid) as [s1 e1] eqn:Ec. simpl in *. split.
    + eapply logged_off_ext; [..|exact Hoff]; done.
    + left. split; [apply cleanup_not_in_channels|]. unfold cleanup_session_state in Ec. injection Ec as <- _.
      apply (dropped_no_nick (nicks v)); [by rewrite Hnv|done].
  - destruct (cleanup_session_state s0 sid) as [s1 e1] eqn:Ec. simpl in *. split.
    + eapply logged_off_ext; [..|exact Hoff]; done.
    + left. split; [apply cleanup_not_in_channels|]. unfold cleanup_session_state in Ec. injection Ec as <- _.
      assert (Hnn : get_nick (nicks (srv s)) sid = None) by auto. rewrite <-Hnv in *.
      split; [exact Hnn|]. by apply (unheld_unreachable (nicks v)).
Qed.

(** ** Coming back within the grace period *)

Lemma fold_alter_other {A} (k : A -> string) (f : A -> ChannelState -> ChannelState) l (chs : gmap string ChannelState) n :
  (forall x, x ∈ l -> k x <> n) -> fold_left (fun chs x => alter (f x) (k x) chs) l chs !! n = chs !! n.
Proof.
  revert chs. induction l as [|x l IH]; intros chs H; simpl; [done|].
  rewrite IH by set_solver. apply lookup_alter_ne. set_solver.
Qed.

Lemma fold_alter_lookup {A} (k : A -> string) (f : A -> ChannelState -> ChannelState) l (chs : gmap string ChannelState) n x :
  NoDup (k <$> l) -> x ∈ l -> k x = n ->
  fold_left (fun chs x => alter (f x) (k x) chs) l chs !! n = f x <$> chs !! n.
Proof.
  revert chs. induction l as [|y l IH]; intros chs Hd Hx Hk; [set_solver|]. simpl in *.
  apply NoDup_cons in Hd as [Hy Hd]. apply elem_of_cons in Hx as [->|Hx].
  - rewrite fold_alter_other; [by rewrite Hk, lookup_alter_eq|]. intros z Hz E. apply Hy. rewrite Hk, <-E. by apply list_elem_of_fmap_2.
  - rewrite IH by done. rewrite lookup_alter_ne; [done|]. intros E. apply Hy. rewrite E, <-Hk. by apply list_elem_of_fmap_2.
Qed.

Lemma restore_channels_lookup g sid did v n h ch :
  NoDup ((fun h => to_lowercase (h_name h)) <$> g_channels g) -> h ∈ g_channels g -> to_lowercase (h_name h) = n ->
  channels v !! n = Some ch ->
  channels (restore_channels g sid did v) !! n = Some (restore_in (g_session_id g) sid did h ch).
Proof.
  intros Hd Hh Hn Hc. unfold restore_channels. rewrite (fold_update_channels (fun h => to_lowercase (h_name h))).
  by rewrite (fold_alter_lookup _ _ _ _ _ h Hd Hh Hn), Hc.
Qed.

Definition names_lower (v : Server) : Prop := forall n ch, channels v !! n = Some ch -> to_lowercase n = n.

Lemma held_names s did sid :
  names_lower (srv s) -> NoDup ((fun h => to_lowercase (h_name h)) <$> channels_to_hold s did sid).
Proof.
  intros Hl. unfold channels_to_hold.
  assert (Hk : NoDup ((hash_iter (channels (srv s))).*1)) by (rewrite hash_iter_perm; apply NoDup_fst_map_to_list).
  assert (Hm : forall nc, nc ∈ hash_iter (channels (srv s)) -> to_lowercase nc.1 = nc.1).
  { intros [n ch]. rewrite hash_iter_perm, elem_of_map_to_list. apply Hl. }
  revert Hk Hm. generalize (hash_iter (channels (srv s))) as l. induction l as [|[n ch] l IH]; intros Hk Hm; simpl; [constructor|].
  apply NoDup_cons in Hk as [Hn Hk]. assert (Hr := IH Hk ltac:(intros nc Hnc; apply Hm; set_solver)).
  destruct (_ && _); [|done]. simpl. constructor; [|done].
  assert (En : to_lowercase n = n) by (apply (Hm (n, ch)); set_solver). rewrite En. intros Hin.
  apply Hn. apply list_elem_of_fmap in Hin as (h & E & Hh). apply list_elem_of_omap in Hh as ([m ch'] & Hm' & Hh).
  destruct (_ && _); [|done]. injection Hh as <-. simpl in E.
  assert (Em : to_lowercase m = m) by (apply (Hm (m, ch')); set_solver). rewrite Em in E. subst.
  by apply (list_elem_of_fmap_2 fst _ (m, ch')).
Qed.

Definition kept (s : Life) (did n : string) : Prop := room_db (srv s) = None \/ (did, n) ∈ user_channels s.

Lemma held_elem s did sid n ch :
  channels (srv s) !! n = Some ch -> sid ∈ members ch -> kept s did n ->
  mkHeld n (bool_decide (sid ∈ ops ch)) (bool_decide (sid ∈ voiced ch)) (bool_decide (sid ∈ halfops ch)) ∈ channels_to_hold s did sid.
Proof.
  intros Hc Hm Hk. unfold channels_to_hold. apply list_elem_of_omap. exists (n, ch).
  split; [by rewrite hash_iter_perm, elem_of_map_to_list|]. simpl. rewrite bool_decide_true by done. simpl.
  assert (E : negb (is_some (room_db (srv s))) || mem n (default [] (get_user_channels s did)) = true); [|by rewrite E].
  unfold get_user_channels. destruct Hk as [->|Hk]; [done|]. destruct (room_db (srv s)); [|done]. simpl. apply mem_spec.
  apply list_elem_of_fmap. exists (did, n). split; [done|]. rewrite list_elem_of_In, filter_In, <-list_elem_of_In.
  split; [done|]. simpl. apply String.eqb_refl.
Qed.

(** The session of a reconnecting user takes the place of the one that was
    lost: same nick, and in every channel the grace period kept, the lost
    session is replaced by the new one with its standing (and the standing the
    channel gives the identity). Nobody is sent a line in between. *)
Theorem reconnect_restores s c c2 old new guest now now' did nick n ch :
  c_nick (conn c) = Some nick -> c_authenticated_did (conn c) = Some did ->
  did_sessions (srv s) !! did = Some {[old]} -> names_lower (srv s) -> spawned_agents s = ∅ ->
  (forall x, did_of_session (srv s) x = Some did -> x = old) ->
  channels (srv s) !! n = Some ch -> old ∈ members ch -> kept s did n ->
  c_nick (conn c2) = Some nick -> c_authenticated_did (conn c2) = Some did ->
  let '(s1, e1) := disconnect s c old now in
  let '(s2, c2', e2) := attach_same_did s1 c2 new guest now' in
  channels (srv s2) !! n = Some (restore_in old new did
    (mkHeld n (bool_decide (old ∈ ops ch)) (bool_decide (old ∈ voiced ch)) (bool_decide (old ∈ halfops ch))) ch) /\
  c_nick (conn c2') = Some nick /\ ghost_sessions s2 !! did = None /\
  forall e, Wire e ∉ e1 ++ e2.
Proof.
  intros Hnick Hdid Hds Hlow Hsp Hsess Hc Hm Hk Hnick2 Hdid2. unfold disconnect, leave_identity. rewrite Hdid, Hds, Hnick.
  rewrite bool_decide_true by set_solver. cbn [cleanup_session_state]. set (s0 := set_srv _ s).
  assert (Hh : channels_to_hold s0 did old = channels_to_hold s did old) by done. rewrite Hh. clear Hh.
  pose proof (held_names s did old Hlow) as Hnd. pose proof (held_elem s did old n ch Hc Hm Hk) as He.
  unfold cleanup_session_state. set (sp := List.filter _ _). assert (Hsp' : sp = []).
  { unfold sp, s0. simpl. rewrite Hsp. pose proof (hash_iter_perm (∅ : gmap string SpawnedAgent)) as Hp.
    rewrite map_to_list_empty in Hp. by apply Permutation_nil_r in Hp as ->. }
  rewrite Hsp'. cbn [flat_map fold_left app]. clear sp Hsp'.
  unfold attach_same_did. rewrite Hdid2. cbn [ghost_sessions set_ghosts set_srv srv]. rewrite lookup_insert_eq.
  unfold reclaim_ghost, reclaim_nick. rewrite Hnick2. cbn [g_nick].
  unfold eq_ignore_case. rewrite String.eqb_refl. cbn [negb]. unfold same_lower. rewrite bool_decide_true by done. cbn [negb].
  set (g := mkGhost _ _ _ _ _). set (v4 := with_nicks _ _).
  assert (Hz : siblings_to_probe (sessions_of v4 did) new [g_session_id g] = []).
  { destruct (siblings_to_probe _ _ _) as [|x l] eqn:E; [done|]. exfalso.
    destruct (siblings_to_probe_spec (sessions_of v4 did) new [g_session_id g]) as [_ Hx]. specialize (Hx x). rewrite E in Hx.
    destruct (proj1 Hx ltac:(set_solver)) as (Hx1 & _ & Hx2). apply sessions_of_spec in Hx1.
    assert (Hdd : did_of_session (srv s) x = Some did).
    { revert Hx1. unfold did_of_session, v4, restore_channels. simpl.
      assert (Hfold : forall l v, session_dids (names (fold_left (fun s h => update_channel (to_lowercase (h_name h))
        (restore_in old new did h) s) l v)) = session_dids (names v)).
      { intros l0. induction l0 as [|h l0 IHl]; intros v; simpl; [done|]. by rewrite IHl. }
      rewrite Hfold. simpl. intros [_ ?]%lookup_delete_Some. done. }
    specialize (Hsess x Hdd). subst x. set_solver. }
  rewrite Hz. cbn [probe_sibling_liveness]. split_and!.
  - simpl. rewrite (restore_channels_lookup g new did _ n _ ch Hnd He); [done|by apply (Hlow n ch)|done].
  - done.
  - simpl. apply lookup_delete_eq.
  - intros e. set_solver.
Qed.

(** ** Liveness probes *)

(** When a probe's deadline passes, exactly the sessions that were probed, have
    not answered since and are still running are told to stop, each once. *)
Theorem probe_deadline_spec s siblings :
  NoDup siblings ->
  (probe_deadline s siblings).2 =
    Kill <$> List.filter (fun sid => is_some (liveness_probes s !! sid) && bool_decide (sid ∈ session_kill s)) siblings /\
  forall sid, liveness_probes (probe_deadline s siblings).1 !! sid =
    if mem sid siblings then None else liveness_probes s !! sid.
Proof.
  intros Hd. unfold probe_deadline.
  assert (H : forall l s e, NoDup l ->
    let r := fold_left (fun '(s, e) sid => match liveness_probes s !! sid with
        | None => (s, e)
        | Some _ => (set_probes (delete sid (liveness_probes s)) s, e ++ if bool_decide (sid ∈ session_kill s) then [Kill sid] else [])
        end) l (s, e) in
    r.2 = e ++ (Kill <$> List.filter (fun sid => is_some (liveness_probes s !! sid) && bool_decide (sid ∈ session_kill s)) l) /\
    forall sid, liveness_probes r.1 !! sid = if mem sid l then None else liveness_probes s !! sid).
  { clear s siblings Hd. induction l as [|x l IH]; intros s e Hd; simpl; [by rewrite app_nil_r|].
    apply NoDup_cons in Hd as [Hx Hd].
    destruct (liveness_probes s !! x) as [t|] eqn:E; simpl.
    - set (s1 := set_probes _ s). destruct (IH s1 (e ++ if bool_decide (x ∈ session_kill s) then [Kill x] else []) Hd) as [H1 H2].
      assert (Hf : List.filter (fun sid => is_some (liveness_probes s1 !! sid) && bool_decide (sid ∈ session_kill s1)) l =
                   List.filter (fun sid => is_some (liveness_probes s !! sid) && bool_decide (sid ∈ session_kill s)) l).
      { apply List.filter_ext_in. intros y Hy. simpl. rewrite lookup_delete_ne; [done|]. intros <-. by apply Hx, list_elem_of_In. }
      rewrite Hf in H1. split.
      + rewrite H1. rewrite <-app_assoc. f_equal. by case_bool_decide.
      + intros sid. rewrite H2. simpl. destruct (String.eqb_spec sid x) as [->|Hne]; simpl.
        * rewrite lookup_delete_eq. by destruct (mem x l).
        * by rewrite lookup_delete_ne by done.
    - destruct (IH s e Hd) as [H1 H2]. split; [done|]. intros sid. rewrite H2.
      destruct (String.eqb_spec sid x) as [->|Hne]; simpl; [|done]. rewrite E. by destruct (mem x l). }
  destruct (H siblings s [] Hd) as [H1 H2]. split; [exact H1|exact H2].
Qed.

(** ** The channels stay well formed *)

Lemma gained_channel_ok s did sid n ch ch' : gained s did sid n ch ch' -> channel_ok ch -> channel_ok ch' /\ room ch' = room ch.
Proof. intros [H _ _ _ _] Hc. rewrite <-H in Hc. destruct Hc. split; [by split|]. by rewrite <-H. Qed.

Lemma server_ok_ext v v' : channels v' = channels v -> room_names v' = room_names v -> server_ok v -> server_ok v'.
Proof. intros E1 E2 []. split; by rewrite E1, ?E2. Qed.

Lemma fold_update_rooms {A} (k : A -> string) (f : A -> ChannelState -> ChannelState) l v :
  room_names (fold_left (fun v x => update_channel (k x) (f x) v) l v) = room_names v.
Proof. revert v. induction l as [|x l IH]; intros v; simpl; [done|]. by rewrite IH. Qed.

Lemma reclaim_nick_rooms v c did g guest : room_names (reclaim_nick v c did g guest).1.1 = room_names v.
Proof. unfold reclaim_nick. by repeat case_match. Qed.
Lemma first_session_rooms v c sid did : room_names (first_session v c sid did).1 = room_names v.
Proof. unfold first_session. by repeat case_match. Qed.
Lemma adopt_nick_rooms v c sid did : room_names (adopt_nick v c sid did).1 = room_names v.
Proof. unfold adopt_nick. by repeat case_match. Qed.

Lemma attach_rooms s c sid guest now : room_names (srv (attach_same_did s c sid guest now).1.1) = room_names (srv s).
Proof.
  unfold attach_same_did. destruct (c_authenticated_did (conn c)) as [did|]; [|done].
  destruct (ghost_sessions s !! did) as [g|].
  - unfold reclaim_ghost. destruct (reclaim_nick _ c did g guest) as [[s1 c1] eff] eqn:E.
    apply (f_equal (fun x => room_names x.1.1)) in E. rewrite reclaim_nick_rooms in E.
    destruct (probe_sibling_liveness _ _ now) as [s5 e] eqn:Ep. apply (f_equal (fun x => srv x.1)) in Ep.
    rewrite probe_srv in Ep. simpl in *. rewrite <-Ep. simpl. unfold restore_channels. by rewrite (fold_update_rooms (fun h => to_lowercase (h_name h))).
  - destruct (List.filter _ _) as [|x existing].
    + destruct (first_session _ c sid did) as [v' c'] eqn:E. apply (f_equal (fun x => room_names x.1)) in E.
      by rewrite first_session_rooms in E.
    + unfold attach_device. destruct (probe_sibling_liveness _ _ now) as [s1 e] eqn:Ep.
      apply (f_equal (fun x => srv x.1)) in Ep. rewrite probe_srv in Ep. simpl in Ep. rewrite <-Ep.
      destruct (adopt_nick _ c sid did) as [v1 c1] eqn:E. apply (f_equal (fun x => room_names x.1)) in E.
      rewrite adopt_nick_rooms in E. simpl in *. by rewrite (fold_update_rooms (fun n => n) (fun _ => join_siblings (x :: existing) sid did)).
Qed.

Lemma attach_ok s c sid guest now : server_ok (srv s) -> server_ok (srv (attach_same_did s c sid guest now).1.1).
Proof.
  intros [H1 H2]. destruct (c_authenticated_did (conn c)) as [did|] eqn:Hd; [|unfold attach_same_did; by rewrite Hd].
  pose proof (attach_derives s c sid guest now did Hd) as HD. split.
  - intros n ch' Hc. destruct (HD _ _ Hc) as (ch & Hch & Hg). by destruct (gained_channel_ok _ _ _ _ _ _ Hg (H1 _ _ Hch)).
  - intros n ch' Hc Hr. rewrite attach_rooms. destruct (HD _ _ Hc) as (ch & Hch & Hg).
    destruct (gained_channel_ok _ _ _ _ _ _ Hg (H1 _ _ Hch)) as [_ E]. apply (H2 n ch Hch). congruence.
Qed.

Lemma enforce_same v c sid guest :
  let v' := (enforce_ownership v c sid guest).1.1 in channels v' = channels v /\ room_names v' = room_names v.
Proof. unfold enforce_ownership. by repeat case_match. Qed.

Lemma cleanup_server_ok v sid : server_ok v -> server_ok (cleanup_channel_membership v sid).
Proof. intros H. by destruct (cleanup_ok v sid H). Qed.

Lemma disconnect_ok s c sid now : server_ok (srv s) -> server_ok (srv (disconnect s c sid now).1).
Proof.
  intros H. unfold disconnect, cleanup_session_state. destruct (leave_identity _ _ _) as [last v] eqn:El.
  apply leave_identity_spec in El as [_ Hv].
  assert (Hc : forall v', channels v' = channels v -> room_names v' = room_names v -> server_ok v').
  { intros v' E1 E2. apply (server_ok_ext (srv s)); [by rewrite E1, Hv|by rewrite E2, Hv|done]. }
  destruct (c_nick (conn c)); [destruct last; [destruct (c_authenticated_did (conn c))|]|]; simpl.
  - by apply Hc.
  - apply cleanup_server_ok. by apply Hc.
  - eapply server_ok_ext; [..|apply cleanup_server_ok, (Hc (forget_session sid v)); done]; done.
  - apply cleanup_server_ok. by apply Hc.
Qed.

(** A connection is accepted: its channel and its kill signal are on file. *)
Definition open_connection (sid : string) (s : Life) : Life :=
  let v := srv s in
  mkLife (mkServer (channels v) (names v) (did_sessions v) ({[sid]} ∪ connections v) (server_opers v) (session_handles v)
            (session_actor_class v) (cap_extended_join v) (cap_message_tags v) (cap_multi_prefix v) (provenance_declarations v)
            (room_names v) (room_activity v) (room_db v) (s2s_manager v) (server_name v) (room_idle_secs v) (room_unclaimed_secs v))
    (ghost_sessions s) (liveness_probes s) ({[sid]} ∪ session_kill s) (spawned_agents s) (user_channels s) (no_guest s) (motd s).

(** ** Where the code departs from what it means to do *)

(** A ghost puts its user back into the channels it was taken in, with the
    rights it had there, whatever was done to it in between: a ban, a kick or a
    removal from a room does not reach the list. *)
Theorem reclaim_overrides_removal s c sid guest now did g h ch :
  c_authenticated_did (conn c) = Some did -> ghost_sessions s !! did = Some g ->
  NoDup ((fun h => to_lowercase (h_name h)) <$> g_channels g) -> h ∈ g_channels g ->
  channels (srv s) !! to_lowercase (h_name h) = Some ch ->
  exists ch', channels (srv (attach_same_did s c sid guest now).1.1) !! to_lowercase (h_name h) = Some ch' /\
    bans ch' = bans ch /\ sid ∈ members ch' /\ (h_op h = true -> sid ∈ ops ch').
Proof.
  intros Hd Hg Hnd Hh Hc. unfold attach_same_did. rewrite Hd, Hg. unfold reclaim_ghost.
  destruct (reclaim_nick _ c did g guest) as [[s1 c1] eff] eqn:E. apply (f_equal (fun x => channels x.1.1)) in E.
  rewrite reclaim_nick_channels in E. destruct (probe_sibling_liveness _ _ now) as [s5 e] eqn:Ep.
  apply (f_equal (fun x => srv x.1)) in Ep. rewrite probe_srv in Ep. simpl in *. rewrite <-Ep. simpl.
  exists (restore_in (g_session_id g) sid did h ch). split; [|split_and!].
  - eapply restore_channels_lookup; [done..|]. simpl. by rewrite <-E.
  - unfold restore_in. by repeat case_match.
  - unfold restore_in. repeat case_match; simpl; set_solver.
  - intros Ho. unfold restore_in. rewrite Ho. simpl. repeat case_match; simpl; set_solver.
Qed.

Lemma remove_by_nick_gone m nick : get_session (remove_by_nick m nick).2 nick = None.
Proof. unfold get_session. simpl. apply lookup_delete_eq. Qed.
Lemma insert_other m nick d sid :
  to_lowercase nick <> to_lowercase d -> get_session m nick = None -> get_session (nm_insert m d sid) nick = None.
Proof.
  intros Hne Hn. unfold get_session, nm_insert in *. simpl. rewrite lookup_insert_ne by done.
  destruct (sid_to_nick m !! sid); [|done]. destruct (_ && _); [|done]. apply lookup_delete_None. by right.
Qed.

(** When a grace period ends the QUIT goes to every connected member of every
    channel, whether or not the user who left was ever in it. *)
Theorem grace_quit_reaches_everyone s did g n ch x :
  ghost_sessions s !! did = Some g -> channels (srv s) !! n = Some ch -> x ∈ members ch -> x ∈ connections (srv s) ->
  In (Wire (Line x (":" +:+ g_hostmask g +:+ " QUIT :Connection closed" +:+ CRLF))) (grace_expires s did).2.
Proof.
  intros Hg Hc Hm Hx. unfold grace_expires. rewrite Hg. simpl. rewrite map_app, in_app_iff. left. apply in_map.
  apply in_flat_map. exists (n, ch). split; [apply list_elem_of_In; by rewrite hash_iter_perm, elem_of_map_to_list|].
  unfold Channel.send_to. simpl.
  apply (in_map (fun sid => Line sid (":" +:+ g_hostmask g +:+ " QUIT :Connection closed" +:+ CRLF)) _ x).
  apply filter_In. split; [|by apply bool_decide_eq_true]. apply list_elem_of_In. unfold set_iter. rewrite hash_iter_perm.
  rewrite list_elem_of_fmap. exists (x, tt). split; [done|]. apply elem_of_map_to_list. by rewrite lookup_gset_to_gmap_Some.
Qed.
End Spec.

(** ** Everything together *)

Section Whole.
Context {CF : CaseFold} {TR : @Trim CF} {HO : HashOrder} {SO : SqlOrder}.
Variable token_hash : string -> string.
Variable iso : Z -> string.

Lemma rejoin_ok gate c sid now l : forall v, server_ok v -> server_ok (rejoin token_hash iso gate v c sid now l).1.
Proof.
  induction l as [|ch l IH]; intros v H; simpl; [done|].
  destruct (handle_join_ok token_hash iso gate v c ch None sid now H) as [H1 _].
  destruct (handle_join _ _ _ _ _ _ _ _ _) as [v1 e1]. simpl in H1. specialize (IH v1 H1).
  by destruct (rejoin _ _ _ v1 _ _ _ _).
Qed.

Lemma register_ok gate s c sid guest boot uptime now :
  server_ok (srv s) -> server_ok (srv (try_complete_registration token_hash iso gate s c sid guest boot uptime now).1.1).
Proof.
  intros H. unfold try_complete_registration. destruct (_ || _ || _); [done|]. destruct (_ || _); [done|].
  destruct (enforce_ownership _ _ _ _) as [[v c1] e1] eqn:E. pose proof (enforce_same (srv s) c sid guest) as HE.
  rewrite E in HE. destruct HE as [E1 E2]. simpl in E1, E2.
  pose proof (attach_ok (set_srv v s) c1 sid guest now (server_ok_ext _ _ E1 E2 H)) as H2.
  destruct (attach_same_did _ _ _ _ _) as [[s2 c2] e2]. simpl in H2. destruct (_ && _); [done|].
  destruct (c_authenticated_did _) as [did|]; [|done].
  pose proof (rejoin_ok gate (set_registered (conn c2)) sid now (saved_channels s2 did sid) (srv s2) H2) as H3.
  destruct (rejoin _ _ _ _ _ _ _ _) as [v3 e3]. exact H3.
Qed.

(** A command, and the rows it writes. *)
Definition run_in_life (s : Life) (cmd : command) : Life :=
  let r := run_command token_hash iso (srv s) cmd in
  mkLife r.1 (ghost_sessions s) (liveness_probes s) (session_kill s) (spawned_agents s)
    (fold_left store_row r.2 (user_channels s)) (no_guest s) (motd s).

(** Everything that happens to the sessions and channels of a server: the
    commands of [ChannelInv], and sessions that come and go. *)
Inductive life_step : Life -> Life -> Prop :=
  | ls_command s cmd : life_step s (run_in_life s cmd)
  | ls_open s sid : life_step s (open_connection sid s)
  | ls_attach s c sid guest now : life_step s (attach_same_did s c sid guest now).1.1
  | ls_register s gate c sid guest boot uptime now :
      life_step s (try_complete_registration token_hash iso gate s c sid guest boot uptime now).1.1
  | ls_disconnect s c sid now : life_step s (disconnect s c sid now).1
  | ls_grace s did : life_step s (grace_expires s did).1
  | ls_probe s l : life_step s (probe_deadline s l).1
  | ls_pong s sid : life_step s (handle_pong s sid).

Lemma probe_deadline_srv s l : srv (probe_deadline s l).1 = srv s.
Proof.
  unfold probe_deadline.
  assert (H : forall l (r : Life * list LifeEffect), srv (fold_left (fun '(s, e) sid => match liveness_probes s !! sid with
        | None => (s, e)
        | Some _ => (set_probes (delete sid (liveness_probes s)) s, e ++ if bool_decide (sid ∈ session_kill s) then [Kill sid] else [])
        end) l r).1 = srv r.1).
  { clear. induction l as [|x l IH]; intros [s e]; simpl; [done|]. rewrite IH. by destruct (liveness_probes s !! x). }
  apply (H l (s, [])).
Qed.

Lemma life_step_ok s s' : life_step s s' -> server_ok (srv s) -> server_ok (srv s').
Proof.
  intros Hs H. destruct Hs.
  - by destruct (run_command_ok token_hash iso (srv s) cmd H) as [H1 _].
  - by apply (server_ok_ext (srv s)).
  - by apply attach_ok.
  - by apply register_ok.
  - by apply disconnect_ok.
  - unfold grace_expires. destruct (ghost_sessions s !! did); [|done]. simpl. apply cleanup_server_ok. by apply (server_ok_ext (srv s)).
  - by rewrite probe_deadline_srv.
  - done.
Qed.

(** C3: over every history of commands, sign-ins, registrations, disconnections,
    grace periods and probes the channels stay well formed, and every room is
    listed where the federation looks before it tells a peer anything. *)
Theorem life_well_formed s0 s n ch :
  channels (srv s0) = ∅ -> rtc life_step s0 s -> channels (srv s) !! n = Some ch ->
  channel_ok ch /\ (room ch = true -> n ∈ room_names (srv s)).
Proof.
  intros H0 Hr Hc. assert (Hok : server_ok (srv s)).
  { clear Hc. assert (H0' : server_ok (srv s0)) by (split; intros m c; by rewrite H0, lookup_empty).
    clear H0. induction Hr as [|x y z Hxy _ IH]; [done|]. by apply IH, (life_step_ok x). }
  destruct Hok. split; [eauto|]. intros Hroom. eauto.
Qed.

(** A client that asked for an owned nick while it negotiated and did not sign
    in is renamed to a guest when it registers; the same step takes the nick
    away from the sessions of its owner, who can no longer be reached by it. *)
Theorem registration_evicts_owner gate s c sid guest boot uptime now nick owner :
  c_registered (conn c) = false -> c_cap_negotiating (conn c) = false -> c_sasl_in_progress (conn c) = false ->
  c_nick (conn c) = Some nick -> is_some (c_user (conn c)) = true -> c_authenticated_did (conn c) = None ->
  nick_owners (names (srv s)) !! to_lowercase nick = Some owner -> to_lowercase guest <> to_lowercase nick ->
  let s' := (try_complete_registration token_hash iso gate s c sid guest boot uptime now).1.1 in
  get_session (nicks (srv s')) nick = None.
Proof.
  intros H1 H2 H3 Hn Hu Hd Ho Hne. unfold try_complete_registration, enforce_ownership.
  rewrite H1, H2, H3, Hn, Hu, Ho, Hd. cbn [orb negb is_some]. rewrite bool_decide_false by done. unfold attach_same_did.
  set (c1 := rename guest c). assert (Hc1 : c_authenticated_did (conn c1) = None) by done. rewrite Hc1. cbn [negb is_some andb].
  assert (Hg : get_session (nm_insert (remove_by_nick (nicks (srv s)) nick).2 guest sid) nick = None)
    by (apply insert_other; [done|apply remove_by_nick_gone]).
  rewrite Hc1. cbn [negb is_some andb]. destruct (no_guest _); [exact Hg|].
  destruct (c_authenticated_did (set_registered (conn c1))) as [x|] eqn:Hc2; [by change (c_authenticated_did (conn c1) = Some x) in Hc2; congruence|exact Hg].
Qed.

End Whole.
