(* ===== verification/SessionRuns.v ===== *)
(** * Sessions that come and go on a concrete server

    Witnesses for the theorems of [SessionSpec], and runs of disconnections,
    reconnections and registrations. *)
From stdpp Require Import base gmap strings list fin_maps.
From Stdlib Require Import ZArith Lia String Ascii.
From S2P Require Import Prelude Text PolicyStore NickMap RoomTables S2sMessage Channel Rooms ChannelOps ChannelInv ChannelRuns SessionLife SessionSpec.
Open Scope string_scope.
Open Scope list_scope.
Open Scope Z_scope.

#[local] Existing Instances ascii_fold ascii_trimming map_order merge_order.

Definition client (c : Connection) : Client := mkClient c None None None ∅ 0 0 "".
Definition life_of (v : Server) (rows : list (string * string)) : Life := mkLife v ∅ ∅ (connections v) ∅ rows false None.

(** Ana founded #den and made Bob an operator; Cat is in #cats only. *)
Definition den_bob : Server :=
  mode (join None (join None (join None town ana "#den" None "s1") bob "#den" None "s2") (guest "cat") "#cats" None "s3")
    ana "#den" "+o" (Some "bob") "s1".
Definition home : Life := life_of den_bob [("did:plc:ana", "#den"); ("did:plc:bob", "#den")].

Definition den_of (s : Life) : ChannelState := channel_at (srv s) "#den".
Definition bob_gone : Life := (disconnect home (client bob) "s2" 10).1.
Definition bob_back (s : Life) : Life * Client * list LifeEffect :=
  attach_same_did (open_connection "s9" s) (client (mkConn (Some "bob") (Some "b") None (Some "did:plc:bob") false false false false Human))
    "s9" "Guest1" 15.

(** Bob's connection drops and he is back within the grace period. *)
Example blip_is_not_seen :
  bool_decide ("s2" ∈ members (den_of bob_gone)) = true /\
  bool_decide ("s9" ∈ members (den_of (bob_back bob_gone).1.1)) = true /\
  bool_decide ("s9" ∈ ops (den_of (bob_back bob_gone).1.1)) = true /\
  bool_decide ("s2" ∈ members (den_of (bob_back bob_gone).1.1)) = false /\
  get_session (nicks (srv (bob_back bob_gone).1.1)) "bob" = Some "s9" /\ (bob_back bob_gone).2 = [].
Proof. vm_compute. repeat split. Qed.

(** Ana kicks and bans him in between: he comes back as an operator. *)
Definition bob_banned : Life :=
  set_srv (mode (handle_kick (srv bob_gone) ana "#den" "bob" "out" "s1" 12).1 ana "#den" "+b" (Some "did:plc:bob") "s1") bob_gone.
Example kicked_and_banned_during_the_grace :
  bool_decide ("s2" ∈ members (den_of bob_banned)) = false /\
  is_banned (den_of bob_banned) "bob!b@host" (Some "did:plc:bob") = true /\
  bool_decide ("s9" ∈ members (den_of (bob_back bob_banned).1.1)) = true /\
  bool_decide ("s9" ∈ ops (den_of (bob_back bob_banned).1.1)) = true.
Proof. vm_compute. repeat split. Qed.

(** The grace period ends: Cat, who shares no channel with Bob, is told. *)
Example cat_is_told :
  existsb (fun e => match e with Wire (Line x _) => String.eqb x "s3" | _ => false end) (grace_expires bob_gone "did:plc:bob").2 = true /\
  bool_decide ("s2" ∈ members (den_of (grace_expires bob_gone "did:plc:bob").1)) = false.
Proof. vm_compute. repeat split. Qed.

(** A client that signs in as one identity and then as another is still on
    file under the first when it is gone, so the first identity's other device
    is not its last session: it leaves without a grace period and without a
    QUIT. *)
Definition as_did (d : string) : Client := client (mkConn (Some "zoe") (Some "z") None (Some d) false false false false Human).
Definition two_identities : Life :=
  let s1 := (attach_same_did (open_connection "t1" home) (as_did "did:plc:zoe") "t1" "Guest1" 20).1.1 in
  let s2 := (attach_same_did s1 (as_did "did:plc:zed") "t1" "Guest1" 21).1.1 in
  (grace_expires (disconnect s2 (as_did "did:plc:zed") "t1" 22).1 "did:plc:zed").1.
Example first_identity_keeps_a_dead_session :
  did_sessions (srv two_identities) !! "did:plc:zoe" = Some {["t1"]} /\ bool_decide ("t1" ∈ connections (srv two_identities)) = false /\
  let s := (attach_same_did (open_connection "t2" two_identities) (as_did "did:plc:zoe") "t2" "Guest1" 30).1.1 in
  let '(s', e) := disconnect s (as_did "did:plc:zoe") "t2" 31 in
  ghost_sessions s' !! "did:plc:zoe" = None /\ e = [AvDisconnect "did:plc:zoe" false].
Proof. vm_compute. repeat split. Qed.

(** ** Witnesses *)

Definition bob_client : Client := client bob.
Definition bob_returns : Client := client (mkConn (Some "bob") (Some "b") None (Some "did:plc:bob") false false false false Human).

Lemma attach_confers_nothing_witness :
  exists ch', channels (srv (bob_back bob_gone).1.1) !! "#den" = Some ch' /\
  exists ch, channels (srv (open_connection "s9" bob_gone)) !! "#den" = Some ch /\
    gained (open_connection "s9" bob_gone) "did:plc:bob" "s9" "#den" ch ch'.
Proof.
  exists (channel_at (srv (bob_back bob_gone).1.1) "#den").
  assert (H : channels (srv (bob_back bob_gone).1.1) !! "#den" = Some (channel_at (srv (bob_back bob_gone).1.1) "#den"))
    by (apply channel_at_some; vm_compute; reflexivity).
  split; [exact H|].
  refine (attach_confers_nothing (open_connection "s9" bob_gone) bob_returns "s9" "Guest1" 15 "did:plc:bob" "#den" _ eq_refl H).
Defined.

Lemma primary_by_run : primary_sound (nicks (srv home)).
Proof.
  assert (E : nicks (srv home) = nm_run [NmInsert "ana" "s1"; NmInsert "bob" "s2"; NmInsert "cat" "s3"; NmInsert "bot" "s4"])
    by (vm_compute; reflexivity).
  rewrite E. apply nm_run_sound.
Qed.

Lemma disconnect_leaves_no_trace_witness :
  bool_decide ("s2" ∈ members (den_of home)) = true /\ logged_off bob_gone (Some "did:plc:bob") "s2" /\
  not_in_channels (srv (grace_expires bob_gone "did:plc:bob").1) "s2".
Proof.
  split; [vm_compute; reflexivity|].
  destruct (disconnect_leaves_no_trace home bob_client "s2" 10 primary_by_run ltac:(discriminate)) as [H1 H2].
  split; [exact H1|]. destruct H2 as [[H2 _]|(did & g & [= <-] & _ & _ & H2 & _)]; [|exact H2].
  exfalso. destruct (channels (srv (disconnect home bob_client "s2" 10).1) !! "#den") as [ch|] eqn:E; [|by vm_compute in E].
  destruct (H2 "#den" ch E) as [H3 _]. apply H3. pose proof (f_equal (fun o => match o with Some c => bool_decide ("s2" ∈ members c) | None => false end) E) as Hb.
  cbv beta iota in Hb. apply (bool_decide_eq_true ("s2" ∈ members ch)). rewrite <-Hb. vm_compute. reflexivity.
Defined.

Lemma names_lower_home : names_lower (srv home).
Proof.
  intros n ch H. assert (HF : Forall (fun nc : string * ChannelState => to_lowercase nc.1 = nc.1) (map_to_list (channels (srv home))))
    by (apply (bool_decide_unpack _); vm_compute; exact I).
  rewrite Forall_forall in HF. apply (HF (n, ch)), elem_of_map_to_list, H.
Qed.

Lemma reconnect_restores_witness :
  let '(s1, e1) := disconnect home bob_client "s2" 10 in
  let '(s2, c2, e2) := attach_same_did s1 bob_returns "s9" "Guest1" 15 in
  is_some (channels (srv s2) !! "#den") = true /\ c_nick (conn c2) = Some "bob" /\ forall e, Wire e ∉ e1 ++ e2.
Proof.
  assert (Hs : forall x, did_of_session (srv home) x = Some "did:plc:bob" -> x = "s2").
  { intros x Hx. assert (HF : Forall (fun sd : string * string => sd.2 = "did:plc:bob" -> sd.1 = "s2") (map_to_list (session_dids (names (srv home)))))
      by (apply (bool_decide_unpack _); vm_compute; exact I).
    rewrite Forall_forall in HF. apply (HF (x, "did:plc:bob")); [apply elem_of_map_to_list, Hx|reflexivity]. }
  pose proof (reconnect_restores home bob_client bob_returns "s2" "s9" "Guest1" 10 15 "did:plc:bob" "bob" "#den" (den_of home)
    eq_refl eq_refl ltac:(vm_compute; reflexivity) names_lower_home eq_refl Hs
    ltac:(apply channel_at_some; vm_compute; reflexivity) ltac:(apply (bool_decide_unpack _); vm_compute; exact I)
    ltac:(right; apply (bool_decide_unpack _); vm_compute; exact I) eq_refl eq_refl) as H.
  destruct (disconnect home bob_client "s2" 10) as [s1 e1]. destruct (attach_same_did s1 bob_returns "s9" "Guest1" 15) as [[s2 c2] e2].
  destruct H as (H1 & H2 & _ & H3). split; [by rewrite H1|]. split; [exact H2|exact H3].
Defined.

Definition nowhere : Life := life_of empty_server [].
Definition ana_founds : Life := run_in_life hash_of no_date nowhere ana_joins.

Lemma life_well_formed_witness :
  exists ch, channels (srv (disconnect ana_founds (client ana) "s1" 10).1) !! "#cats" = Some ch /\ channel_ok ch.
Proof.
  exists (channel_at (srv (disconnect ana_founds (client ana) "s1" 10).1) "#cats").
  assert (H : channels (srv (disconnect ana_founds (client ana) "s1" 10).1) !! "#cats" =
              Some (channel_at (srv (disconnect ana_founds (client ana) "s1" 10).1) "#cats"))
    by (apply channel_at_some; vm_compute; reflexivity).
  split; [exact H|]. refine (proj1 (life_well_formed hash_of no_date nowhere _ "#cats" _ eq_refl _ H)).
  eapply rtc_l; [apply (ls_command hash_of no_date nowhere ana_joins)|]. eapply rtc_once, ls_disconnect.
Defined.

Definition bob_knocks : Life := open_connection "s9" bob_banned.

Lemma reclaim_overrides_removal_witness :
  is_banned (den_of bob_knocks) "bob!b@host" (Some "did:plc:bob") = true /\
  exists ch', channels (srv (attach_same_did bob_knocks bob_returns "s9" "Guest1" 15).1.1) !! "#den" = Some ch' /\
    "s9" ∈ members ch' /\ "s9" ∈ ops ch'.
Proof.
  split; [vm_compute; reflexivity|].
  destruct (ghost_sessions bob_knocks !! "did:plc:bob") as [g|] eqn:Eg; [|by vm_compute in Eg].
  assert (Hh : mkHeld "#den" true false false ∈ g_channels g) by (vm_compute in Eg; injection Eg as <-; vm_compute; constructor).
  assert (Hd : NoDup ((fun h => to_lowercase (h_name h)) <$> g_channels g))
    by (vm_compute in Eg; injection Eg as <-; apply (bool_decide_unpack _); vm_compute; exact I).
  assert (Hc : channels (srv bob_knocks) !! "#den" = Some (channel_at (srv bob_knocks) "#den"))
    by (apply channel_at_some; vm_compute; reflexivity).
  destruct (reclaim_overrides_removal bob_knocks bob_returns "s9" "Guest1" 15 "did:plc:bob" g
    (mkHeld "#den" true false false) (channel_at (srv bob_knocks) "#den") eq_refl Eg Hd Hh Hc) as (ch' & H1 & _ & H2 & H3).
  exists ch'. split; [exact H1|]. split; [exact H2|]. apply H3. reflexivity.
Defined.

(** Ana owns her nick and is connected; a guest that asked for it while it
    negotiated registers. *)
Definition owned : Life :=
  set_srv (with_names (mkNames (nicks (srv home)) {["ana" := "did:plc:ana"]} {["did:plc:ana" := "ana"]} (session_dids (names (srv home)))) (srv home)) home.
Definition impostor : Client := client (mkConn (Some "Ana") (Some "x") None None false false false false Human).

Lemma registration_evicts_owner_witness :
  get_session (nicks (srv owned)) "ana" = Some "s1" /\
  get_session (nicks (srv (try_complete_registration hash_of no_date None owned impostor "s8" "Guest7" "today" 500 9).1.1)) "Ana" = None.
Proof.
  split; [vm_compute; reflexivity|].
  apply (registration_evicts_owner hash_of no_date None owned impostor "s8" "Guest7" "today" 500 9 "Ana" "did:plc:ana");
    first [reflexivity | vm_compute; discriminate].
Defined.

Lemma grace_quit_reaches_everyone_witness :
  bool_decide ("s2" ∈ members (channel_at (srv home) "#cats")) = false /\
  exists g, ghost_sessions bob_gone !! "did:plc:bob" = Some g /\
    In (Wire (Line "s3" (":" +:+ g_hostmask g +:+ " QUIT :Connection closed" +:+ CRLF))) (grace_expires bob_gone "did:plc:bob").2.
Proof.
  split; [vm_compute; reflexivity|].
  destruct (ghost_sessions bob_gone !! "did:plc:bob") as [g|] eqn:Eg; [|by vm_compute in Eg].
  exists g. split; [reflexivity|].
  apply (grace_quit_reaches_everyone bob_gone "did:plc:bob" g "#cats" (channel_at (srv bob_gone) "#cats") "s3" Eg);
    [apply channel_at_some; vm_compute; reflexivity|apply (bool_decide_unpack _); vm_compute; exact I|apply (bool_decide_unpack _); vm_compute; exact I].
Defined.
