(* ===== verification/Primitives.v ===== *)
(** * Cryptographic primitives

    The end-to-end encryption of [freeq-sdk] is built on crates outside the
    repository (x25519-dalek, hkdf, hmac, sha2, aes-gcm, ed25519-dalek, base64).
    They are parameters: [Primitives] for the algorithms and [Base64] for an
    encoding, with the documented laws the code relies on (both ends of a
    Diffie-Hellman exchange agree, what was sealed opens under the same key,
    nonce and header, outputs have their lengths, an encoding reads back and
    has no colon). [toy_primitives] and [toy_base64] are instances that make
    concrete runs executable; they are not secure and stand for nothing in the
    code. *)
From stdpp Require Import base strings list.
From Stdlib Require Import ZArith Lia Ascii String.
From S2P Require Import Prelude Text.
Open Scope string_scope.
Open Scope list_scope.
Open Scope Z_scope.

Class Primitives := {
  x25519_public : string -> string;
  x25519_dh : string -> string -> string;
  hkdf_sha256 : string -> string -> string -> nat -> string;
  hmac_sha256 : string -> string -> string;
  sha256 : string -> string;
  aes_gcm_encrypt : string -> string -> string -> string -> option string;
  aes_gcm_decrypt : string -> string -> string -> string -> option string;
  ed25519_verifying_key : string -> string;
  ed25519_sign : string -> string -> string;
  ed25519_verify : string -> string -> string -> bool;
  x25519_agree : forall a b, x25519_dh a (x25519_public b) = x25519_dh b (x25519_public a);
  x25519_public_length : forall a, String.length (x25519_public a) = 32%nat;
  x25519_dh_length : forall a p, String.length (x25519_dh a p) = 32%nat;
  hkdf_length : forall salt ikm info n, String.length (hkdf_sha256 salt ikm info n) = n;
  hmac_length : forall k m, String.length (hmac_sha256 k m) = 32%nat;
  sha256_length : forall m, String.length (sha256 m) = 32%nat;
  aes_gcm_opens : forall k nonce aad m c,
    aes_gcm_encrypt k nonce aad m = Some c -> aes_gcm_decrypt k nonce aad c = Some m;
  ed25519_sign_length : forall sk m, String.length (ed25519_sign sk m) = 64%nat;
  ed25519_verifies : forall sk m, ed25519_verify (ed25519_verifying_key sk) m (ed25519_sign sk m) = true
}.

Class Base64 := {
  b64_encode : string -> string;
  b64_decode : string -> option string;
  b64_roundtrip : forall s, b64_decode (b64_encode s) = Some s;
  b64_no_colon : forall s, str_contains ":" (b64_encode s) = false
}.

#[export] Hint Rewrite @x25519_public_length @x25519_dh_length @hkdf_length @hmac_length @sha256_length @ed25519_sign_length
  @b64_roundtrip @b64_no_colon : freeq.

(** ** Instances for concrete runs *)

(** The first [n] bytes, filled up with zeros. *)
Fixpoint pad (n : nat) (s : string) : string :=
  match n with
  | O => ""
  | S n' => match s with
            | String c r => String c (pad n' r)
            | EmptyString => String NUL (pad n' "")
            end
  end.

Lemma pad_length n s : String.length (pad n s) = n.
Proof. revert s. induction n as [|n IH]; intros s; [done|]. destruct s; simpl; by rewrite IH. Qed.

Lemma pad_idem n s : pad n (pad n s) = pad n s.
Proof. revert s. induction n as [|n IH]; intros s; [done|]. destruct s; simpl; by rewrite IH. Qed.

(** Bytewise addition. *)
Fixpoint add_bytes (s t : string) : string :=
  match s, t with
  | String a s', String b t' => String (byte_of (byte a + byte b)) (add_bytes s' t')
  | _, _ => ""
  end.

Lemma add_bytes_comm s t : add_bytes s t = add_bytes t s.
Proof. revert t. induction s as [|a s IH]; intros [|b t]; simpl; [done..|]. by rewrite IH, Z.add_comm. Qed.

Lemma add_bytes_length s t : String.length (add_bytes s t) = Nat.min (String.length s) (String.length t).
Proof. revert t. induction s as [|a s IH]; intros [|b t]; simpl; [done..|]. by rewrite IH. Qed.

Definition mix (s t : string) : string := add_bytes (pad 32 s) (pad 32 t).

Lemma mix_length s t : String.length (mix s t) = 32%nat.
Proof. unfold mix. by rewrite add_bytes_length, !pad_length. Qed.

Definition toy_seal (k nonce aad : string) : string := k +:+ nonce +:+ aad.

Lemma toy_opens k nonce aad m c :
  Some (toy_seal k nonce aad +:+ m) = Some c -> strip_prefix (toy_seal k nonce aad) c = Some m.
Proof. intros [= <-]. apply strip_prefix_app. Qed.

Lemma toy_agree a b : mix a (pad 32 b) = mix b (pad 32 a).
Proof. unfold mix. by rewrite !pad_idem, add_bytes_comm. Qed.

Definition toy_sign (sk m : string) : string := mix sk m +:+ mix sk m.

Lemma toy_sign_length sk m : String.length (toy_sign sk m) = 64%nat.
Proof. unfold toy_sign. by rewrite append_length, mix_length. Qed.

Lemma toy_verifies sk m : String.eqb (toy_sign sk m) (toy_sign (pad 32 sk) m) = true.
Proof. unfold toy_sign, mix. rewrite pad_idem. apply String.eqb_refl. Qed.

Definition toy_primitives : Primitives := {|
  x25519_public := pad 32;
  x25519_dh := mix;
  hkdf_sha256 := fun salt ikm info n =>
    let x := mix (mix salt ikm) info in pad n (x +:+ mix x "expand");
  hmac_sha256 := mix;
  sha256 := fun m => mix m (str_drop 32 m);
  aes_gcm_encrypt := fun k nonce aad m => Some (toy_seal k nonce aad +:+ m);
  aes_gcm_decrypt := fun k nonce aad c => strip_prefix (toy_seal k nonce aad) c;
  ed25519_verifying_key := pad 32;
  ed25519_sign := toy_sign;
  ed25519_verify := fun vk m sig => String.eqb sig (toy_sign vk m);
  x25519_agree := toy_agree;
  x25519_public_length := pad_length 32;
  x25519_dh_length := mix_length;
  hkdf_length := fun _ _ _ n => pad_length n _;
  hmac_length := mix_length;
  sha256_length := fun m => mix_length m _;
  aes_gcm_opens := toy_opens;
  ed25519_sign_length := toy_sign_length;
  ed25519_verifies := toy_verifies
|}.

(** Two letters from [a] to [p] for a byte. *)
Definition nibble (z : Z) : ascii := byte_of (97 + z).
Definition unnibble (c : ascii) : Z := byte c - 97.
Fixpoint toy_encode (s : string) : string :=
  match s with
  | EmptyString => ""
  | String c r => String (nibble (byte c / 16)) (String (nibble (byte c mod 16)) (toy_encode r))
  end.
Fixpoint toy_decode (s : string) : option string :=
  match s with
  | EmptyString => Some ""
  | String a (String b r) =>
      if in_bytes 97 112 a && in_bytes 97 112 b
      then rest ← toy_decode r; Some (String (byte_of (unnibble a * 16 + unnibble b)) rest)
      else None
  | _ => None
  end.

Lemma toy_decode_encode s : toy_decode (toy_encode s) = Some s.
Proof.
  induction s as [|c s IH]; [done|]. cbn [toy_encode toy_decode]. rewrite IH. clear IH.
  destruct c as [[] [] [] [] [] [] [] []]; vm_compute; done.
Qed.

Lemma toy_encode_no_colon s : str_contains ":" (toy_encode s) = false.
Proof.
  induction s as [|c s IH]; [done|]. unfold str_contains in *. cbn [toy_encode str_any]. rewrite IH. clear IH.
  destruct c as [[] [] [] [] [] [] [] []]; vm_compute; done.
Qed.

Definition toy_base64 : Base64 := {|
  b64_encode := toy_encode;
  b64_decode := toy_decode;
  b64_roundtrip := toy_decode_encode;
  b64_no_colon := toy_encode_no_colon
|}.
