(* ===== verification/X3dh.v ===== *)
(** * Key agreement

    Models [freeq-sdk/src/x3dh.rs]: pre-key bundles, and the two halves of the
    key agreement that opens an encrypted conversation. Random keys are
    arguments. *)
From stdpp Require Import base strings list.
From Stdlib Require Import ZArith Lia Ascii String.
From S2P Require Import Prelude Text Primitives.
Open Scope string_scope.
Open Scope list_scope.
Open Scope Z_scope.

Section X3dh.
Context {P : Primitives} {B : Base64}.
Local Open Scope rust_scope.

(** ** Keys and bundles *)

Record IdentityKeyPair := mkIdentity { ik_secret : string; ik_public : string }.

(** [IdentityKeyPair::generate] draws the secret; [from_secret] is given it. *)
Definition from_secret (bytes : string) : IdentityKeyPair := mkIdentity bytes (x25519_public bytes).

Record SignedPreKey := mkSpk { spk_num : Z; spk_secret : string; spk_public : string; spk_sig : string }.

Definition spk_generate (id : Z) (did_signing_key secret : string) : SignedPreKey :=
  let public := x25519_public secret in
  mkSpk id secret public (ed25519_sign did_signing_key public).

Definition spk_from_parts (id : Z) (secret_bytes signature : string) : SignedPreKey :=
  mkSpk id secret_bytes (x25519_public secret_bytes) signature.

Record PreKeyBundle := mkBundle {
  b_did : string; b_identity_key : string; b_signed_pre_key : string; b_spk_signature : string; b_spk_id : Z
}.

Definition bundle_new (did : string) (identity : IdentityKeyPair) (spk : SignedPreKey) : PreKeyBundle :=
  mkBundle did (b64_encode (ik_public identity)) (b64_encode (spk_public spk)) (b64_encode (spk_sig spk)) (spk_num spk).

Inductive X3dhError := InvalidBundle | InvalidSignature | PreKeyMismatch | KdfFailed | SmallSubgroupAttack.

(** The decoding both accessors of a bundle and the responder do: a field must
    be base64 of exactly 32 bytes. *)
Definition key_field (field : string) : result string X3dhError :=
  let? bytes := ok_or (b64_decode field) InvalidBundle in
  if negb (Nat.eqb (String.length bytes) 32) then Err InvalidBundle else Ok bytes.
Definition identity_public (b : PreKeyBundle) : result string X3dhError := key_field (b_identity_key b).
Definition signed_pre_key_public (b : PreKeyBundle) : result string X3dhError := key_field (b_signed_pre_key b).

(** [Signature::from_slice] accepts 64 bytes. *)
Definition verify_spk_signature (b : PreKeyBundle) (did_verify_key : string) : result unit X3dhError :=
  let? spk_bytes := ok_or (b64_decode (b_signed_pre_key b)) InvalidBundle in
  let? sig_bytes := ok_or (b64_decode (b_spk_signature b)) InvalidBundle in
  if negb (Nat.eqb (String.length sig_bytes) 64) then Err InvalidSignature
  else if ed25519_verify did_verify_key spk_bytes sig_bytes then Ok tt else Err InvalidSignature.

(** ** The agreement *)

Record InitialMessage := mkInitial { im_identity_key : string; im_ephemeral_key : string; im_spk_id : Z; im_did : string }.
Record InitiatorResult := mkInitiator {
  shared_secret : string; their_ratchet_key : string; initial_message : InitialMessage
}.

Definition all_zero (s : string) : bool := str_all (Ascii.eqb NUL) s.
Definition checked_dh (secret public : string) : result string X3dhError :=
  let out := x25519_dh secret public in if all_zero out then Err SmallSubgroupAttack else Ok out.

Definition ff32 : string := string_of_list_ascii (repeat (byte_of 255) 32).
(** HKDF-SHA256 refuses outputs over 255 blocks; 32 bytes are one. *)
Definition kdf_x3dh (ikm : string) : result string X3dhError := Ok (hkdf_sha256 ff32 ikm "freeq-x3dh-v1" 32).

Definition initiate_with_ephemeral (our_identity : IdentityKeyPair) (our_did : string) (their_bundle : PreKeyBundle)
    (their_did_verify_key ek_secret : string) : result InitiatorResult X3dhError :=
  let? _ := verify_spk_signature their_bundle their_did_verify_key in
  let? ik_b := identity_public their_bundle in
  let? spk_b := signed_pre_key_public their_bundle in
  let ek_public := x25519_public ek_secret in
  let? dh1 := checked_dh (ik_secret our_identity) spk_b in
  let? dh2 := checked_dh ek_secret ik_b in
  let? dh3 := checked_dh ek_secret spk_b in
  let? secret := kdf_x3dh (dh1 +:+ dh2 +:+ dh3) in
  Ok (mkInitiator secret spk_b
        (mkInitial (b64_encode (ik_public our_identity)) (b64_encode ek_public) (b_spk_id their_bundle) our_did)).

Definition respond (our_identity : IdentityKeyPair) (our_spk : SignedPreKey) (initial_msg : InitialMessage)
    : result (string * string) X3dhError :=
  let? ik_a := ok_or (b64_decode (im_identity_key initial_msg)) InvalidBundle in
  let? ek_a := ok_or (b64_decode (im_ephemeral_key initial_msg)) InvalidBundle in
  if negb (Nat.eqb (String.length ik_a) 32) || negb (Nat.eqb (String.length ek_a) 32) then Err InvalidBundle
  else if negb (im_spk_id initial_msg =? spk_num our_spk) then Err PreKeyMismatch
  else
    let? dh1 := checked_dh (spk_secret our_spk) ik_a in
    let? dh2 := checked_dh (ik_secret our_identity) ek_a in
    let? dh3 := checked_dh (spk_secret our_spk) ek_a in
    let? secret := kdf_x3dh (dh1 +:+ dh2 +:+ dh3) in
    Ok (secret, spk_secret our_spk).

(** ** Both sides agree *)

Lemma key_field_encode s : String.length s = 32%nat -> key_field (b64_encode s) = Ok s.
Proof. intros H. unfold key_field. rewrite b64_roundtrip. simpl. by rewrite H. Qed.

Lemma checked_dh_agree a b : checked_dh a (x25519_public b) = checked_dh b (x25519_public a).
Proof. unfold checked_dh. by rewrite x25519_agree. Qed.

(** The three shared values of the agreement, and the secret made of them. *)
Definition agreed (ik_a ek_a ik_b spk_b : string) : result string X3dhError :=
  let? dh1 := checked_dh ik_a (x25519_public spk_b) in
  let? dh2 := checked_dh ek_a (x25519_public ik_b) in
  let? dh3 := checked_dh ek_a (x25519_public spk_b) in
  kdf_x3dh (dh1 +:+ dh2 +:+ dh3).

Lemma verify_own_bundle did ident id sk secret :
  verify_spk_signature (bundle_new did ident (spk_generate id sk secret)) (ed25519_verifying_key sk) = Ok tt.
Proof.
  unfold verify_spk_signature, bundle_new, spk_generate. simpl. rewrite !b64_roundtrip. simpl.
  by rewrite ed25519_sign_length, ed25519_verifies.
Qed.

Lemma initiate_spec a did_a did_b b id sk spk ek :
  initiate_with_ephemeral (from_secret a) did_a (bundle_new did_b (from_secret b) (spk_generate id sk spk))
    (ed25519_verifying_key sk) ek =
  res_bind (agreed a ek b spk) (fun secret =>
    Ok (mkInitiator secret (x25519_public spk)
          (mkInitial (b64_encode (x25519_public a)) (b64_encode (x25519_public ek)) id did_a))).
Proof.
  unfold initiate_with_ephemeral. rewrite verify_own_bundle.
  unfold identity_public, signed_pre_key_public, bundle_new, spk_generate, from_secret, agreed. simpl.
  rewrite !key_field_encode by apply x25519_public_length. simpl.
  by repeat (destruct (checked_dh _ _); simpl; [|done]).
Qed.

Lemma respond_spec a did_a b id sk spk ek :
  respond (from_secret b) (spk_generate id sk spk)
    (mkInitial (b64_encode (x25519_public a)) (b64_encode (x25519_public ek)) id did_a) =
  res_bind (agreed a ek b spk) (fun secret => Ok (secret, spk)).
Proof.
  unfold respond, agreed, spk_generate, from_secret. simpl. rewrite !b64_roundtrip. simpl.
  rewrite !x25519_public_length, Z.eqb_refl. simpl.
  rewrite (checked_dh_agree spk a), (checked_dh_agree b ek), (checked_dh_agree spk ek).
  by repeat (destruct (checked_dh _ _); simpl; [|done]).
Qed.

(** What an initiator computes from a responder's own bundle, the responder
    computes from the initiator's message, refusals included: either both
    derive one secret, and the initiator's first remote ratchet key is the
    public half of the key the responder starts with; or a degenerate exchange
    stops the initiator. *)
Theorem x3dh_agreement a did_a did_b b id sk spk ek :
  match initiate_with_ephemeral (from_secret a) did_a (bundle_new did_b (from_secret b) (spk_generate id sk spk))
          (ed25519_verifying_key sk) ek with
  | Ok r => respond (from_secret b) (spk_generate id sk spk) (initial_message r) = Ok (shared_secret r, spk)
            /\ their_ratchet_key r = x25519_public spk
  | Err e => e = SmallSubgroupAttack
  end.
Proof.
  rewrite initiate_spec. destruct (agreed a ek b spk) as [secret|e] eqn:E; simpl.
  - rewrite respond_spec, E. done.
  - revert E. unfold agreed, checked_dh. simpl. repeat (case_match; simpl; [congruence|]). done.
Qed.

(** A bundle is used only if its pre-key carries a signature of the DID's key
    over the very bytes that become the first ratchet key. *)
Theorem initiate_checks_signature ident did bundle vk ek r :
  initiate_with_ephemeral ident did bundle vk ek = Ok r ->
  exists sig, b64_decode (b_spk_signature bundle) = Some sig /\ String.length sig = 64%nat /\
              b64_decode (b_signed_pre_key bundle) = Some (their_ratchet_key r) /\
              ed25519_verify vk (their_ratchet_key r) sig = true.
Proof.
  unfold initiate_with_ephemeral, verify_spk_signature, identity_public, signed_pre_key_public, key_field, kdf_x3dh.
  destruct (b64_decode (b_signed_pre_key bundle)) as [spk|]; simpl; [|done].
  destruct (b64_decode (b_spk_signature bundle)) as [sig|]; simpl; [|done].
  destruct (Nat.eqb (String.length sig) 64) eqn:L; simpl; [|done].
  destruct (ed25519_verify vk spk sig) eqn:V; simpl; [|done].
  destruct (b64_decode (b_identity_key bundle)); simpl; [|done]. case_match; simpl; [done|].
  case_match; simpl; [done|]. unfold checked_dh. repeat (case_match; simpl; [done|]). intros [= <-]. simpl.
  exists sig. apply Nat.eqb_eq in L. done.
Qed.
End X3dh.
