(* ===== verification/Ratchet.v ===== *)
(** * The double ratchet

    Models [freeq-sdk/src/ratchet.rs]: headers and openings on the wire, the
    session of one party, encryption, decryption with its store of skipped
    message keys, and the persistence of a session. A session is a record that
    is passed and returned, with what the code has already changed when a
    function fails. Random keys and nonces are arguments. *)
From stdpp Require Import base gmap strings list.
From Stdlib Require Import ZArith Lia Ascii String.
From S2P Require Import Prelude Text Primitives.
Open Scope string_scope.
Open Scope list_scope.
Open Scope Z_scope.

Definition ENC3_PREFIX : string := "ENC3:".
Definition ENC4_PREFIX : string := "ENC4:".
Definition INTRO_LEN : nat := 68.
Definition MAX_SKIP : Z := 1000.

Inductive RatchetError :=
| NotEncrypted | MalformedMessage | MalformedHeader | NoSendChain | NoReceiveChain
| TooManySkipped | DecryptFailed | CryptoError | InvalidUtf8 | InvalidSession.

(** [text.starts_with(ENC3_PREFIX) || ...] *)
Definition is_encrypted (text : string) : bool := starts_with ENC3_PREFIX text || starts_with ENC4_PREFIX text.

(** ** The opening of a session *)

Record Intro := mkIntro { identity_key : string; ephemeral_key : string; spk_id : Z }.

Definition intro_to_bytes (i : Intro) : string := identity_key i +:+ ephemeral_key i +:+ u32_to_be_bytes (spk_id i).
Definition intro_from_bytes (data : string) : result Intro RatchetError :=
  if negb (Nat.eqb (String.length data) INTRO_LEN) then Err MalformedHeader
  else Ok (mkIntro (str_take 32 data) (str_take 32 (str_drop 32 data)) (u32_from_be_bytes (str_drop 64 data))).

(** ** Message headers *)

Record Header := mkHeader { ratchet_key : string; prev_chain_len : Z; msg_num : Z }.

Definition header_to_bytes (h : Header) : string :=
  ratchet_key h +:+ u32_to_be_bytes (prev_chain_len h) +:+ u32_to_be_bytes (msg_num h).
Definition header_from_bytes (data : string) : result Header RatchetError :=
  if negb (Nat.eqb (String.length data) 40) then Err MalformedHeader
  else Ok (mkHeader (str_take 32 data) (u32_from_be_bytes (str_take 4 (str_drop 32 data)))
             (u32_from_be_bytes (str_drop 36 data))).

(** ** Sessions *)

Record Session := mkSession {
  dh_self_secret : string;
  dh_self_public : string;
  dh_remote : option string;
  root_key : string;
  send_chain_key : option string;
  send_msg_num : Z;
  recv_chain_key : option string;
  recv_msg_num : Z;
  prev_send_chain_len : Z;
  skipped : gmap (string * Z) string;
  is_initiator : bool
}.

(** What the receiving half of a session becomes. *)
Definition set_recv (s : Session) (ck : option string) (n : Z) (sk : gmap (string * Z) string) : Session :=
  mkSession (dh_self_secret s) (dh_self_public s) (dh_remote s) (root_key s) (send_chain_key s) (send_msg_num s)
    ck n (prev_send_chain_len s) sk (is_initiator s).
Definition set_send (s : Session) (ck : option string) (n : Z) : Session :=
  mkSession (dh_self_secret s) (dh_self_public s) (dh_remote s) (root_key s) ck n
    (recv_chain_key s) (recv_msg_num s) (prev_send_chain_len s) (skipped s) (is_initiator s).

Definition zero32 : string := string_of_list_ascii (repeat NUL 32).

Section Ratchet.
Context {P : Primitives} {B : Base64}.
Local Open Scope rust_scope.

(** [intro_of(wire)]: the first field of the body always exists. *)
Definition intro_of (wire : string) : result (option Intro) RatchetError :=
  match strip_prefix ENC4_PREFIX wire with
  | None => Ok None
  | Some body =>
      let field := default "" (head (str_split ":" body)) in
      let? bytes := ok_or (b64_decode field) MalformedMessage in
      let? i := intro_from_bytes bytes in
      Ok (Some i)
  end.

Definition kdf_root (root dh_out : string) : string * string :=
  let output := hkdf_sha256 root dh_out "freeq-ratchet-v1" 64 in
  (str_take 32 output, str_drop 32 output).

(** The next chain key and the message key. *)
Definition kdf_chain (chain_key : string) : string * string :=
  (hmac_sha256 chain_key (String "002" ""), hmac_sha256 chain_key (String "001" "")).

Definition init_alice_with_ratchet_key (shared_secret their_ratchet_key our_secret : string) : Session :=
  let our_public := x25519_public our_secret in
  let dh_out := x25519_dh our_secret their_ratchet_key in
  let '(root, send_chain) := kdf_root shared_secret dh_out in
  mkSession our_secret our_public (Some their_ratchet_key) root (Some send_chain) 0 None 0 0 ∅ true.

Definition init_bob (shared_secret our_ratchet_secret : string) : Session :=
  mkSession our_ratchet_secret (x25519_public our_ratchet_secret) None shared_secret None 0 None 0 0 ∅ false.

(** ** Encryption *)

Definition send_header (s : Session) : Header := mkHeader (dh_self_public s) (prev_send_chain_len s) (send_msg_num s).

Definition wire_format (intro : option Intro) (header_bytes nonce ciphertext : string) : string :=
  let body := b64_encode header_bytes +:+ ":" +:+ b64_encode nonce +:+ ":" +:+ b64_encode ciphertext in
  match intro with
  | Some i => ENC4_PREFIX +:+ b64_encode (intro_to_bytes i) +:+ ":" +:+ body
  | None => ENC3_PREFIX +:+ body
  end.

Definition encrypt_inner (s : Session) (plaintext nonce : string) (intro : option Intro)
    : Session * result string RatchetError :=
  match send_chain_key s with
  | None => (s, Err NoSendChain)
  | Some chain_key =>
      let '(next_chain, msg_key) := kdf_chain chain_key in
      let header := send_header s in
      let s' := set_send s (Some next_chain) (wrap 32 (send_msg_num s + 1)) in
      let header_bytes := header_to_bytes header in
      match aes_gcm_encrypt msg_key nonce header_bytes plaintext with
      | None => (s', Err CryptoError)
      | Some ciphertext => (s', Ok (wire_format intro header_bytes nonce ciphertext))
      end
  end.
Definition encrypt_with_nonce (s : Session) (plaintext nonce : string) := encrypt_inner s plaintext nonce None.
Definition encrypt_first_with_nonce (s : Session) (i : Intro) (plaintext nonce : string) :=
  encrypt_inner s plaintext nonce (Some i).

(** ** Decryption *)

Definition decrypt_with_key (msg_key header_bytes nonce_bytes ct_bytes : string) : result string RatchetError :=
  match aes_gcm_decrypt msg_key nonce_bytes header_bytes ct_bytes with
  | None => Err DecryptFailed
  | Some plaintext => if valid_utf8 plaintext then Ok plaintext else Err InvalidUtf8
  end.

(** [for n in from..until] of [skip_messages], [k] rounds from [n]. *)
Fixpoint skip_loop (k : nat) (rk : string) (n : Z) (ck : string) (sk : gmap (string * Z) string)
    : string * gmap (string * Z) string :=
  match k with
  | O => (ck, sk)
  | S k' => let '(next_chain, msg_key) := kdf_chain ck in skip_loop k' rk (n + 1) next_chain (<[(rk, n) := msg_key]> sk)
  end.

Definition skip_messages (s : Session) (rk ck : string) (from until : Z) : Session * result unit RatchetError :=
  if until <? from then (s, Ok tt)
  else if MAX_SKIP <? until - from then (s, Err TooManySkipped)
  else let '(ck', sk) := skip_loop (Z.to_nat (until - from)) rk from ck (skipped s) in
       (set_recv s (Some ck') (recv_msg_num s) sk, Ok tt).

(** The step taken when the sender's ratchet key is a new one. *)
Definition dh_ratchet (s : Session) (their_key new_secret : string) : Session :=
  let '(root1, recv_chain) := kdf_root (root_key s) (x25519_dh (dh_self_secret s) their_key) in
  let '(root2, send_chain) := kdf_root root1 (x25519_dh new_secret their_key) in
  mkSession new_secret (x25519_public new_secret) (Some their_key) root2 (Some send_chain) 0
    (Some recv_chain) 0 (send_msg_num s) (skipped s) (is_initiator s).

(** The fields of a message: header, nonce and ciphertext, decoded. *)
Definition wire_fields (wire : string) : result (list string) RatchetError :=
  match strip_prefix ENC4_PREFIX wire with
  | Some body =>
      let fields := splitn 4 ":" body in
      if negb (Nat.eqb (List.length fields) 4) then Err MalformedMessage else Ok (drop 1 fields)
  | None =>
      match strip_prefix ENC3_PREFIX wire with
      | None => Err NotEncrypted
      | Some body =>
          let fields := splitn 3 ":" body in
          if negb (Nat.eqb (List.length fields) 3) then Err MalformedMessage else Ok fields
      end
  end.
Definition decode_part (parts : list string) (i : nat) : result string RatchetError :=
  ok_or (parts !! i ≫= b64_decode) MalformedMessage.
Definition parse_wire (wire : string) : result (Header * (string * string * string)) RatchetError :=
  let? parts := wire_fields wire in
  let? header_bytes := decode_part parts 0 in
  let? nonce_bytes := decode_part parts 1 in
  let? ct_bytes := decode_part parts 2 in
  if negb (Nat.eqb (String.length nonce_bytes) 12) then Err MalformedMessage
  else let? header := header_from_bytes header_bytes in Ok (header, (header_bytes, nonce_bytes, ct_bytes)).

(** The receiving chain advances to the message and past it. *)
Definition read_chain (s : Session) (header : Header) (fields : string * string * string)
    : Session * result string RatchetError :=
  let '(header_bytes, nonce_bytes, ct_bytes) := fields in
  match recv_chain_key s with
  | None => (s, Err NoReceiveChain)
  | Some recv_ck =>
      let '(s1, r) := skip_messages s (ratchet_key header) recv_ck (recv_msg_num s) (msg_num header) in
      match r with
      | Err e => (s1, Err e)
      | Ok _ =>
          let '(next_chain, msg_key) := kdf_chain (default recv_ck (recv_chain_key s1)) in
          (set_recv s1 (Some next_chain) (wrap 32 (msg_num header + 1)) (skipped s1),
           decrypt_with_key msg_key header_bytes nonce_bytes ct_bytes)
      end
  end.

Definition decrypt (s : Session) (wire new_secret : string) : Session * result string RatchetError :=
  match parse_wire wire with
  | Err e => (s, Err e)
  | Ok (header, (header_bytes, nonce_bytes, ct_bytes)) =>
      match skipped s !! (ratchet_key header, msg_num header) with
      | Some msg_key =>
          (set_recv s (recv_chain_key s) (recv_msg_num s) (delete (ratchet_key header, msg_num header) (skipped s)),
           decrypt_with_key msg_key header_bytes nonce_bytes ct_bytes)
      | None =>
          let their_key_changed := negb (bool_decide (dh_remote s = Some (ratchet_key header))) in
          if their_key_changed then
            let '(s1, r) :=
              match recv_chain_key s with
              | Some recv_ck =>
                  skip_messages s (default zero32 (dh_remote s)) recv_ck (recv_msg_num s) (prev_chain_len header)
              | None => (s, Ok tt)
              end in
            match r with
            | Err e => (s1, Err e)
            | Ok _ => read_chain (dh_ratchet s1 (ratchet_key header) new_secret) header (header_bytes, nonce_bytes, ct_bytes)
            end
          else read_chain s header (header_bytes, nonce_bytes, ct_bytes)
      end
  end.
End Ratchet.

(** ** Persistence

    [serde_json] writes a session unless a map in it has keys that are not
    strings: it then fails, and the keys of [skipped] are pairs. An empty map
    is written. What was written reads back. *)
Class SessionJson := {
  json_to_vec : Session -> option string;
  json_from_slice : string -> option Session;
  json_fails : forall s, json_to_vec s = None <-> skipped s <> ∅;
  json_reads_back : forall s b, json_to_vec s = Some b -> json_from_slice b = Some s
}.

Section Persistence.
Context {P : Primitives} {J : SessionJson}.
Local Open Scope rust_scope.

Definition to_encrypted_bytes (s : Session) (key nonce : string) : result string RatchetError :=
  let? plaintext := ok_or (json_to_vec s) CryptoError in
  let? ciphertext := ok_or (aes_gcm_encrypt key nonce "" plaintext) CryptoError in
  Ok (nonce +:+ ciphertext).

Definition from_encrypted_bytes (key data : string) : result Session RatchetError :=
  if Nat.ltb (String.length data) 12 then Err InvalidSession
  else
    let? plaintext := ok_or (aes_gcm_decrypt key (str_take 12 data) "" (str_drop 12 data)) DecryptFailed in
    ok_or (json_from_slice plaintext) InvalidSession.
End Persistence.
