(* ===== verification/RatchetSync.v ===== *)
(** * Two parties of a double ratchet

    What [Ratchet] guarantees of a conversation: messages may be lost, delayed
    and reordered, and each that is delivered once reads as what was sent. The
    conversation is a step relation on both sessions and the messages in
    flight; its invariant says where each side will find the key of every
    message in flight. *)
From stdpp Require Import base gmap strings list.
From Stdlib Require Import ZArith Lia Ascii String.
From S2P Require Import Prelude Text Primitives X3dh Ratchet.
Open Scope string_scope.
Open Scope list_scope.
Open Scope Z_scope.

#[local] Arguments read_chain : simpl never.
#[local] Arguments skip_messages : simpl never.
#[local] Arguments dh_ratchet : simpl never.
#[local] Arguments kdf_root : simpl never.
#[local] Arguments kdf_chain : simpl never.

Section Sync.
Context {P : Primitives} {B : Base64}.

(** ** The wire *)

Definition header_ok (h : Header) : Prop :=
  String.length (ratchet_key h) = 32%nat /\ 0 <= prev_chain_len h < 2 ^ 32 /\ 0 <= msg_num h < 2 ^ 32.

Lemma take_of (n : nat) s t : String.length s = n -> str_take n (s +:+ t) = s.
Proof. intros <-. apply str_take_app. Qed.
Lemma drop_of (n : nat) s t : String.length s = n -> str_drop n (s +:+ t) = t.
Proof. intros <-. apply str_drop_app. Qed.
Lemma drop_drop a b s : str_drop (a + b) s = str_drop b (str_drop a s).
Proof. revert s. induction a as [|a IH]; intros [|c s]; simpl; [done..|by destruct b|apply IH]. Qed.

Lemma header_length h : String.length (ratchet_key h) = 32%nat -> String.length (header_to_bytes h) = 40%nat.
Proof. intros H. unfold header_to_bytes. by rewrite !append_length, H. Qed.

Lemma header_roundtrip h : header_ok h -> header_from_bytes (header_to_bytes h) = Ok h.
Proof.
  intros (Hk & Hp & Hm). unfold header_from_bytes. rewrite header_length by done. simpl negb. cbv iota.
  change 36%nat with (32 + 4)%nat. rewrite drop_drop. unfold header_to_bytes.
  rewrite take_of, !(drop_of 32) by done. rewrite (take_of 4), (drop_of 4) by done.
  rewrite !u32_be_roundtrip by done. by destruct h.
Qed.

(** The opening of a session reads back from its 68 bytes. *)
Lemma intro_roundtrip i :
  String.length (identity_key i) = 32%nat -> String.length (ephemeral_key i) = 32%nat -> 0 <= spk_id i < 2 ^ 32 ->
  intro_from_bytes (intro_to_bytes i) = Ok i.
Proof.
  intros H1 H2 H3. unfold intro_from_bytes, intro_to_bytes. rewrite !append_length, H1, H2. simpl negb. cbv iota.
  change 64%nat with (32 + 32)%nat. rewrite drop_drop, take_of, !(drop_of 32) by done.
  rewrite (take_of 32), u32_be_roundtrip by done. by destruct i.
Qed.

Lemma intro_of_wire i hb nonce ct :
  String.length (identity_key i) = 32%nat -> String.length (ephemeral_key i) = 32%nat -> 0 <= spk_id i < 2 ^ 32 ->
  intro_of (wire_format (Some i) hb nonce ct) = Ok (Some i).
Proof.
  intros H1 H2 H3. unfold intro_of, wire_format. rewrite strip_prefix_app.
  repeat change (":" +:+ ?x) with (String ":" x). rewrite str_split_app by apply b64_no_colon. simpl.
  rewrite b64_roundtrip. simpl. by rewrite intro_roundtrip.
Qed.

Lemma wire_fields_format intro hb nonce ct :
  wire_fields (wire_format intro hb nonce ct) = Ok [b64_encode hb; b64_encode nonce; b64_encode ct].
Proof.
  unfold wire_fields, wire_format. repeat change (":" +:+ ?x) with (String ":" x). destruct intro as [i|].
  - rewrite strip_prefix_app, !splitn_cons by apply b64_no_colon. done.
  - change (strip_prefix ENC4_PREFIX (ENC3_PREFIX +:+ ?x)) with (@None string). cbv iota.
    rewrite strip_prefix_app, !splitn_cons by apply b64_no_colon. done.
Qed.

Lemma parse_wire_format intro h nonce ct :
  header_ok h -> String.length nonce = 12%nat ->
  parse_wire (wire_format intro (header_to_bytes h) nonce ct) = Ok (h, (header_to_bytes h, nonce, ct)).
Proof.
  intros Hh Hn. unfold parse_wire. rewrite wire_fields_format. unfold decode_part. simpl.
  rewrite !b64_roundtrip. simpl. rewrite Hn. simpl. by rewrite header_roundtrip.
Qed.

(** ** Chains *)

Definition chain_at (base : string) (n : Z) : string := Nat.iter (Z.to_nat n) (fun c => (kdf_chain c).1) base.
Definition key_at (base : string) (n : Z) : string := (kdf_chain (chain_at base n)).2.

Lemma chain_at_0 base : chain_at base 0 = base.
Proof. done. Qed.
Lemma chain_at_succ base n : 0 <= n -> chain_at base (n + 1) = (kdf_chain (chain_at base n)).1.
Proof. intros H. unfold chain_at. rewrite Z2Nat.inj_add by lia. by rewrite Nat.add_1_r. Qed.
Lemma kdf_chain_at base n : 0 <= n -> kdf_chain (chain_at base n) = (chain_at base (n + 1), key_at base n).
Proof. intros H. rewrite chain_at_succ by done. unfold key_at. apply surjective_pairing. Qed.

(** The store after skipping from [from] to [until]. *)
Definition store (rk base : string) (from until : Z) (sk : gmap (string * Z) string) : gmap (string * Z) string :=
  (skip_loop (Z.to_nat (until - from)) rk from (chain_at base from) sk).2.

Lemma skip_loop_spec k rk base : forall n sk,
  0 <= n ->
  let r := skip_loop k rk n (chain_at base n) sk in
  r.1 = chain_at base (n + Z.of_nat k) /\
  forall q m, r.2 !! (q, m) = if bool_decide (q = rk /\ n <= m < n + Z.of_nat k) then Some (key_at base m) else sk !! (q, m).
Proof.
  induction k as [|k IH]; intros n sk Hn; cbn [skip_loop].
  - split; [by rewrite Z.add_0_r|]. intros q m. rewrite bool_decide_false by naive_solver lia. done.
  - rewrite kdf_chain_at by done. destruct (IH (n + 1) (<[(rk, n):=key_at base n]> sk) ltac:(lia)) as [H1 H2].
    cbv zeta. split; [rewrite H1; f_equal; lia|]. intros q m. rewrite H2.
    destruct (decide (q = rk /\ n + 1 <= m < n + 1 + Z.of_nat k)) as [Hin|Hout].
    + rewrite !bool_decide_true by naive_solver lia. done.
    + rewrite (bool_decide_false _ Hout). destruct (decide (q = rk /\ m = n)) as [[-> ->]|Hne].
      * rewrite lookup_insert_eq, bool_decide_true by naive_solver lia. done.
      * rewrite lookup_insert_ne by (intros [= <- <-]; naive_solver). rewrite bool_decide_false; [done|]. intros [-> Hr].
        destruct (decide (m = n)); [naive_solver|]. apply Hout. split; [done|lia].
Qed.

Lemma store_lookup rk base from until sk q m :
  0 <= from -> store rk base from until sk !! (q, m) =
    if bool_decide (q = rk /\ from <= m < until) then Some (key_at base m) else sk !! (q, m).
Proof.
  intros Hf. unfold store. rewrite (proj2 (skip_loop_spec _ rk base from sk Hf)).
  destruct (decide (q = rk /\ from <= m < until)).
  - by rewrite !bool_decide_true by naive_solver lia.
  - by rewrite !bool_decide_false by naive_solver lia.
Qed.

Lemma skip_messages_spec s rk base from until :
  0 <= from -> recv_chain_key s = Some (chain_at base from) -> until - from <= MAX_SKIP ->
  skip_messages s rk (chain_at base from) from until =
    (set_recv s (Some (chain_at base (Z.max from until))) (recv_msg_num s) (store rk base from until (skipped s)), Ok tt).
Proof.
  intros Hf Hc Hw. unfold skip_messages. destruct (Z.ltb_spec until from).
  - rewrite Z.max_l by lia. unfold store. rewrite Z2Nat.nonpos by lia. simpl. rewrite <-Hc. by destruct s.
  - destruct (Z.ltb_spec MAX_SKIP (until - from)); [lia|].
    destruct (skip_loop _ _ _ _ _) as [ck sk] eqn:E.
    pose proof (proj1 (skip_loop_spec (Z.to_nat (until - from)) rk base from (skipped s) Hf)) as H1.
    rewrite E in H1. simpl in H1. subst ck. unfold store. rewrite E. simpl.
    do 4 f_equal. by replace (from + Z.of_nat (Z.to_nat (until - from))) with (Z.max from until) by lia.
Qed.

Lemma read_chain_spec s base h hb nonce ct :
  recv_chain_key s = Some (chain_at base (recv_msg_num s)) -> 0 <= recv_msg_num s <= msg_num h ->
  msg_num h - recv_msg_num s <= MAX_SKIP -> msg_num h + 1 < 2 ^ 32 ->
  read_chain s h (hb, nonce, ct) =
    (set_recv s (Some (chain_at base (msg_num h + 1))) (msg_num h + 1)
       (store (ratchet_key h) base (recv_msg_num s) (msg_num h) (skipped s)),
     decrypt_with_key (key_at base (msg_num h)) hb nonce ct).
Proof.
  intros Hc Hn Hw Hb. unfold read_chain. rewrite Hc, skip_messages_spec by (done || lia).
  cbn [set_recv recv_chain_key from_option skipped recv_msg_num]. unfold id.
  rewrite Z.max_r, kdf_chain_at by lia.
  unfold wrap. rewrite Z.mod_small by lia. done.
Qed.

(** ** A conversation *)

(** A message in flight: its wire form, and what it stands for. *)
Record Sent := mkSent { s_wire : string; s_text : string; s_header : Header; s_key : string }.
Definition s_id (m : Sent) : string * Z := (ratchet_key (s_header m), msg_num (s_header m)).

(** The message a session is about to send. *)
Definition sent (s : Session) (wire text : string) : Sent :=
  mkSent wire text (send_header s) (kdf_chain (default "" (send_chain_key s))).2.

(** The gaps a delivery has to skip over are within the limit. *)
Definition window_ok (s : Session) (h : Header) : bool :=
  is_some (skipped s !! (ratchet_key h, msg_num h)) ||
  (if bool_decide (dh_remote s = Some (ratchet_key h)) then msg_num h - recv_msg_num s <=? MAX_SKIP
   else (negb (is_some (recv_chain_key s)) || (prev_chain_len h - recv_msg_num s <=? MAX_SKIP))
        && (msg_num h <=? MAX_SKIP)).

(** Both sessions, what is on its way to each, and the ratchet keys drawn so
    far. *)
Record Talk := mkTalk { alice : Session; bob : Session; to_bob : list Sent; to_alice : list Sent; drawn : gset string }.

Definition start (shared spk_secret alice_secret : string) : Talk :=
  mkTalk (init_alice_with_ratchet_key shared (x25519_public spk_secret) alice_secret) (init_bob shared spk_secret) [] []
    {[x25519_public spk_secret; x25519_public alice_secret]}.

(** A party sends: the message, if encryption succeeds, is in flight. *)
Definition post (s : Session) (text : string) (r : result string RatchetError) (net : list Sent) : list Sent :=
  match r with Ok wire => sent s wire text :: net | Err _ => net end.

Inductive talk_step : Talk -> Talk -> Prop :=
| Alice_sends t text nonce intro s r :
    valid_utf8 text = true -> String.length nonce = 12%nat -> send_msg_num (alice t) + 2 < 2 ^ 32 ->
    encrypt_inner (alice t) text nonce intro = (s, r) ->
    talk_step t (mkTalk s (bob t) (post (alice t) text r (to_bob t)) (to_alice t) (drawn t))
| Bob_sends t text nonce intro s r :
    valid_utf8 text = true -> String.length nonce = 12%nat -> send_msg_num (bob t) + 2 < 2 ^ 32 ->
    encrypt_inner (bob t) text nonce intro = (s, r) ->
    talk_step t (mkTalk (alice t) s (to_bob t) (post (bob t) text r (to_alice t)) (drawn t))
| Bob_receives t m rest secret s r :
    to_bob t ≡ₚ m :: rest -> window_ok (bob t) (s_header m) = true -> x25519_public secret ∉ drawn t ->
    decrypt (bob t) (s_wire m) secret = (s, r) ->
    talk_step t (mkTalk (alice t) s rest (to_alice t) ({[x25519_public secret]} ∪ drawn t))
| Alice_receives t m rest secret s r :
    to_alice t ≡ₚ m :: rest -> window_ok (alice t) (s_header m) = true -> x25519_public secret ∉ drawn t ->
    decrypt (alice t) (s_wire m) secret = (s, r) ->
    talk_step t (mkTalk s (bob t) (to_bob t) rest ({[x25519_public secret]} ∪ drawn t))
| Lost_to_bob t m rest :
    to_bob t ≡ₚ m :: rest -> talk_step t (mkTalk (alice t) (bob t) rest (to_alice t) (drawn t))
| Lost_to_alice t m rest :
    to_alice t ≡ₚ m :: rest -> talk_step t (mkTalk (alice t) (bob t) (to_bob t) rest (drawn t)).

(** ** The invariant *)

(** A message says what it stands for. *)
Definition genuine (m : Sent) : Prop :=
  header_ok (s_header m) /\ msg_num (s_header m) + 1 < 2 ^ 32 /\ valid_utf8 (s_text m) = true /\
  exists intro nonce ct, s_wire m = wire_format intro (header_to_bytes (s_header m)) nonce ct /\
    String.length nonce = 12%nat /\ aes_gcm_decrypt (s_key m) nonce (header_to_bytes (s_header m)) ct = Some (s_text m).

(** The receiver is in the chain of [base] under the sender's key [p]. *)
Definition in_chain (R : Session) (p base : string) : Prop :=
  dh_remote R = Some p /\ recv_chain_key R = Some (chain_at base (recv_msg_num R)) /\ 0 <= recv_msg_num R /\
  forall n k, skipped R !! (p, n) = Some k -> n < recv_msg_num R.

(** The message's key is in the store, or ahead in the chain of [base]. *)
Definition readable (R : Session) (p base : string) (hi : Z) (m : Sent) : Prop :=
  skipped R !! s_id m = Some (s_key m) \/
  (ratchet_key (s_header m) = p /\ recv_msg_num R <= msg_num (s_header m) < hi /\
   s_key m = key_at base (msg_num (s_header m))).

(** A message of the sender's newest chain, which the receiver has not entered. *)
Definition ahead (S : Session) (base : string) (m : Sent) : Prop :=
  ratchet_key (s_header m) = dh_self_public S /\ 0 <= msg_num (s_header m) < send_msg_num S /\
  prev_chain_len (s_header m) = prev_send_chain_len S /\ s_key m = key_at base (msg_num (s_header m)).

(** [R] receives what [S] sends, in [S]'s current chain. *)
Definition follows (S R : Session) (net : list Sent) : Prop :=
  dh_remote R = Some (dh_self_public S) /\
  ((send_chain_key S = None /\ recv_chain_key R = None /\ net = []) \/
   exists base, send_chain_key S = Some (chain_at base (send_msg_num S)) /\ in_chain R (dh_self_public S) base /\
     recv_msg_num R <= send_msg_num S /\ Forall (readable R (dh_self_public S) base (send_msg_num S)) net).

(** [S] has entered a chain that [R] will enter at its first message. *)
Definition leads (S R : Session) (net : list Sent) : Prop :=
  exists base,
    send_chain_key S = Some (chain_at base (send_msg_num S)) /\
    kdf_root (root_key R) (x25519_dh (dh_self_secret R) (dh_self_public S)) = (root_key S, base) /\
    dh_remote R <> Some (dh_self_public S) /\ (forall n, skipped R !! (dh_self_public S, n) = None) /\
    ((recv_chain_key R = None /\ Forall (ahead S base) net) \/
     exists p obase, in_chain R p obase /\
       Forall (fun m => readable R p obase (prev_send_chain_len S) m \/ ahead S base m) net).

Definition party_ok (s : Session) (seen : gset string) : Prop :=
  dh_self_public s = x25519_public (dh_self_secret s) /\ dh_self_public s ∈ seen /\
  0 <= send_msg_num s /\ send_msg_num s + 1 < 2 ^ 32 /\ 0 <= prev_send_chain_len s < 2 ^ 32 /\
  (forall p, dh_remote s = Some p -> p ∈ seen) /\
  forall p n k, skipped s !! (p, n) = Some k -> p ∈ seen.

(** Messages of [S] in flight: none twice, none from a chain to come. *)
Definition net_ok (S : Session) (net : list Sent) (seen : gset string) : Prop :=
  NoDup (s_id <$> net) /\
  Forall (fun m => genuine m /\ ratchet_key (s_header m) ∈ seen /\
                   (ratchet_key (s_header m) = dh_self_public S -> msg_num (s_header m) < send_msg_num S)) net.

(** The next chain is [S]'s to be entered; [R]'s is entered. *)
Record turn (S R : Session) (nSR nRS : list Sent) (seen : gset string) : Prop := mkTurn {
  turn_S : party_ok S seen;
  turn_R : party_ok R seen;
  turn_nSR : net_ok S nSR seen;
  turn_nRS : net_ok R nRS seen;
  turn_leads : leads S R nSR;
  turn_follows : follows R S nRS
}.

Definition in_step (t : Talk) : Prop :=
  turn (alice t) (bob t) (to_bob t) (to_alice t) (drawn t) \/
  turn (bob t) (alice t) (to_alice t) (to_bob t) (drawn t).

(** ** Sending *)

Lemma encrypt_inner_eq s text nonce intro s' r :
  encrypt_inner s text nonce intro = (s', r) ->
  (send_chain_key s = None /\ s' = s /\ r = Err NoSendChain) \/
  (exists ck, send_chain_key s = Some ck /\ s' = set_send s (Some (kdf_chain ck).1) (wrap 32 (send_msg_num s + 1)) /\
     (r = Err CryptoError \/
      exists ct, r = Ok (wire_format intro (header_to_bytes (send_header s)) nonce ct) /\
        aes_gcm_encrypt (kdf_chain ck).2 nonce (header_to_bytes (send_header s)) text = Some ct)).
Proof.
  unfold encrypt_inner. destruct (send_chain_key s) as [ck|]; [|intros [= <- <-]; by left].
  unfold kdf_chain. simpl. intros H. right. exists ck.
  destruct (aes_gcm_encrypt _ _ _ _) as [ct|]; inversion H; subst; naive_solver.
Qed.

Lemma send_header_ok s seen : party_ok s seen -> header_ok (send_header s).
Proof.
  intros (Hp & _ & Hn & Hb & Hv & _). unfold header_ok, send_header. simpl. rewrite Hp, x25519_public_length. lia.
Qed.

(** What a party posts is genuine and is the next of its chain. *)
Lemma post_net s text nonce intro s' r seen net :
  party_ok s seen -> net_ok s net seen -> valid_utf8 text = true -> String.length nonce = 12%nat ->
  send_msg_num s + 2 < 2 ^ 32 -> encrypt_inner s text nonce intro = (s', r) ->
  party_ok s' seen /\ net_ok s' (post s text r net) seen.
Proof.
  intros Hs Hnet Ht Hlen Hn He. pose proof (send_header_ok s seen Hs) as Hh.
  apply encrypt_inner_eq in He as [(? & -> & ->)|(ck & Hck & -> & Hr)]; [done|].
  assert (Hw : wrap 32 (send_msg_num s + 1) = send_msg_num s + 1).
  { unfold wrap. destruct Hs as (_ & _ & ? & _). by rewrite Z.mod_small by lia. }
  rewrite Hw. split.
  { destruct Hs as (? & ? & ? & ? & ? & ? & ?). unfold party_ok. simpl. split_and!; try done; lia. }
  assert (Hold : net_ok (set_send s (Some (kdf_chain ck).1) (send_msg_num s + 1)) net seen).
  { destruct Hnet as [Hd Hf]. split; [done|]. eapply Forall_impl; [exact Hf|]. simpl. intros m (? & ? & H).
    split_and!; [done..|]. intros E. specialize (H E). lia. }
  destruct Hr as [->|(ct & -> & Hct)]; [done|]. destruct Hold as [Hd Hf]. simpl. split.
  - rewrite fmap_cons. constructor; [|done]. intros Hin. apply list_elem_of_fmap in Hin as (m & Hid & Hm).
    destruct Hnet as [_ Hf']. rewrite Forall_forall in Hf'. destruct (Hf' m Hm) as (_ & _ & H).
    unfold s_id, sent, send_header in Hid. simpl in Hid. injection Hid as E1 E2. symmetry in E1. specialize (H E1). lia.
  - constructor; [|done]. split_and!; [|by destruct Hs as (? & ? & _)|unfold sent; simpl; lia].
    unfold genuine, sent. simpl. split_and!; [done|lia|done|]. exists intro, nonce, ct. split_and!; [done..|].
    rewrite Hck. by apply aes_gcm_opens.
Qed.

Lemma readable_mono R p base hi hi' m : hi <= hi' -> readable R p base hi m -> readable R p base hi' m.
Proof. intros H [?|(? & ? & ?)]; [by left|right]. split_and!; [done|lia..|done]. Qed.

Lemma send_leads S R nSR nRS seen text nonce intro S' r :
  turn S R nSR nRS seen -> valid_utf8 text = true -> String.length nonce = 12%nat -> send_msg_num S + 2 < 2 ^ 32 ->
  encrypt_inner S text nonce intro = (S', r) -> turn S' R (post S text r nSR) nRS seen.
Proof.
  intros [HS HR H1 H2 Hl Hf] Ht Hlen Hn He.
  destruct (post_net _ _ _ _ _ _ _ _ HS H1 Ht Hlen Hn He) as [HS' H1'].
  destruct Hl as (base & Hsend & Hroot & Hne & Hno & Hrest). destruct HS as (_ & _ & Hge & _).
  apply encrypt_inner_eq in He as [(? & _)|(ck & Hck & -> & Hr)]; [congruence|].
  assert (ck = chain_at base (send_msg_num S)) as -> by congruence.
  revert HS' H1'. unfold wrap. rewrite Z.mod_small, <-chain_at_succ by lia. intros HS' H1'.
  assert (Hmono : forall m, ahead S base m ->
    ahead (set_send S (Some (chain_at base (send_msg_num S + 1))) (send_msg_num S + 1)) base m).
  { intros m (? & ? & ? & ?). unfold ahead. simpl. split_and!; [done|lia..|done|done]. }
  split; [done..| |exact Hf]. exists base. cbn [set_send send_chain_key send_msg_num dh_self_public root_key prev_send_chain_len].
  split_and!; [done..|].
  assert (Hnew : forall wire, ahead (set_send S (Some (chain_at base (send_msg_num S + 1))) (send_msg_num S + 1)) base (sent S wire text)).
  { intros wire. unfold ahead, sent. simpl. rewrite Hsend. split_and!; [done|lia..|done|done]. }
  destruct Hrest as [[Hrc Hf1]|(p & ob & Hin & Hf1)]; [left; split; [done|]|right; exists p, ob; split; [done|]].
  - destruct Hr as [->|(ct & -> & _)]; simpl; [|constructor; [done|]]; (eapply Forall_impl; [exact Hf1|done]).
  - destruct Hr as [->|(ct & -> & _)]; simpl; [|constructor; [by right|]];
      (eapply Forall_impl; [exact Hf1|]; intros m [?|?]; [by left|right; auto]).
Qed.

Lemma send_follows S R nSR nRS seen text nonce intro R' r :
  turn S R nSR nRS seen -> valid_utf8 text = true -> String.length nonce = 12%nat -> send_msg_num R + 2 < 2 ^ 32 ->
  encrypt_inner R text nonce intro = (R', r) -> turn S R' nSR (post R text r nRS) seen.
Proof.
  intros [HS HR H1 H2 Hl Hf] Ht Hlen Hn He.
  destruct (post_net _ _ _ _ _ _ _ _ HR H2 Ht Hlen Hn He) as [HR' H2'].
  destruct HR as (_ & _ & Hge & _). apply encrypt_inner_eq in He as [(? & -> & ->)|(ck & Hck & -> & Hr)]; [done|].
  split; [done..|exact Hl|]. destruct Hf as (Hdr & [(? & _)|(base & Hsend & Hin & Hle & Hf)]); [congruence|]. split; [done|].
  right. exists base. assert (ck = chain_at base (send_msg_num R)) as -> by congruence.
  cbn [set_send send_chain_key send_msg_num dh_self_public]. unfold wrap.
  rewrite Z.mod_small, <-chain_at_succ by lia. split_and!; [done|done|lia|].
  assert (Hold : Forall (readable S (dh_self_public R) base (send_msg_num R + 1)) nRS).
  { eapply Forall_impl; [exact Hf|]. intros m. apply readable_mono. lia. }
  destruct Hr as [->|(ct & -> & _)]; simpl; [done|]. constructor; [|done]. right. unfold sent. simpl. rewrite Hck.
  split_and!; [done|lia..|done].
Qed.

(** ** Receiving *)

Lemma decrypt_genuine_key m hb nonce ct :
  valid_utf8 (s_text m) = true -> aes_gcm_decrypt (s_key m) nonce hb ct = Some (s_text m) ->
  decrypt_with_key (s_key m) hb nonce ct = Ok (s_text m).
Proof. intros Hv Hd. unfold decrypt_with_key. by rewrite Hd, Hv. Qed.

(** A message whose key is stored: the key is used once. *)
Lemma decrypt_stored s m secret :
  genuine m -> skipped s !! s_id m = Some (s_key m) ->
  decrypt s (s_wire m) secret =
    (set_recv s (recv_chain_key s) (recv_msg_num s) (delete (s_id m) (skipped s)), Ok (s_text m)).
Proof.
  intros (Hh & _ & Hv & intro & nonce & ct & Hw & Hn & Hd) Hs. unfold decrypt. rewrite Hw, parse_wire_format by done.
  unfold s_id in Hs. rewrite Hs. by rewrite decrypt_genuine_key.
Qed.

(** The session after reading message [n] of the chain it is in. *)
Definition advanced (s : Session) (rk base : string) (n : Z) : Session :=
  set_recv s (Some (chain_at base (n + 1))) (n + 1) (store rk base (recv_msg_num s) n (skipped s)).

Lemma read_chain_genuine s m base nonce ct :
  genuine m -> recv_chain_key s = Some (chain_at base (recv_msg_num s)) ->
  0 <= recv_msg_num s <= msg_num (s_header m) -> msg_num (s_header m) - recv_msg_num s <= MAX_SKIP ->
  s_key m = key_at base (msg_num (s_header m)) ->
  aes_gcm_decrypt (s_key m) nonce (header_to_bytes (s_header m)) ct = Some (s_text m) ->
  read_chain s (s_header m) (header_to_bytes (s_header m), nonce, ct) =
    (advanced s (ratchet_key (s_header m)) base (msg_num (s_header m)), Ok (s_text m)).
Proof.
  intros (_ & Hb & Hv & _) Hc Hn Hw Hk Hd. rewrite (read_chain_spec _ base) by done. rewrite <-Hk.
  by rewrite decrypt_genuine_key.
Qed.

(** A message of the chain the receiver is in. *)
Lemma decrypt_in_chain s m p base secret :
  genuine m -> in_chain s p base -> ratchet_key (s_header m) = p -> recv_msg_num s <= msg_num (s_header m) ->
  s_key m = key_at base (msg_num (s_header m)) -> window_ok s (s_header m) = true ->
  decrypt s (s_wire m) secret = (advanced s p base (msg_num (s_header m)), Ok (s_text m)).
Proof.
  intros Hg (Hdr & Hc & H0 & Hst) Hp Hn Hk Hw. pose proof Hg as (Hh & _ & _ & intro & nonce & ct & Hwire & Hlen & Hd).
  assert (Hno : skipped s !! (ratchet_key (s_header m), msg_num (s_header m)) = None).
  { apply eq_None_not_Some. intros [k Hsk]. rewrite Hp in Hsk. apply Hst in Hsk. lia. }
  revert Hw. unfold window_ok, decrypt. rewrite Hwire, parse_wire_format, Hno by done. simpl. rewrite Hp, bool_decide_true by done.
  simpl. intros Hw. apply Z.leb_le in Hw. rewrite (read_chain_genuine _ _ base) by done. by rewrite Hp.
Qed.

Lemma advanced_lookup s rk base n q k :
  0 <= recv_msg_num s -> skipped (advanced s rk base n) !! (q, k) =
    if bool_decide (q = rk /\ recv_msg_num s <= k < n) then Some (key_at base k) else skipped s !! (q, k).
Proof. intros H. unfold advanced. simpl. by apply store_lookup. Qed.

Lemma advanced_in_chain s p base n :
  in_chain s p base -> recv_msg_num s <= n -> in_chain (advanced s p base n) p base.
Proof.
  intros (Hdr & Hc & H0 & Hst) Hn. split_and!; [done|done|simpl; lia|]. intros k key.
  rewrite advanced_lookup by done. case_bool_decide as E; simpl; [lia|]. intros H. apply Hst in H. lia.
Qed.

Lemma advanced_readable s p base hi m m' :
  in_chain s p base -> ratchet_key (s_header m) = p -> recv_msg_num s <= msg_num (s_header m) ->
  s_id m' <> s_id m -> readable s p base hi m' -> readable (advanced s p base (msg_num (s_header m))) p base hi m'.
Proof.
  intros (Hdr & Hc & H0 & Hst) Hp Hn Hid Hr. unfold readable, s_id in *. rewrite advanced_lookup by done.
  destruct Hr as [Hs|(Hp' & Hb & Hk)].
  - left. case_bool_decide as E; [|done]. destruct E as [E1 E2]. rewrite E1 in Hs. apply Hst in Hs. lia.
  - destruct (Z.lt_ge_cases (msg_num (s_header m')) (msg_num (s_header m))) as [Hlt|Hge].
    + left. rewrite bool_decide_true by (split; [done|lia]). by rewrite Hk.
    + right. split_and!; [done| |lia|done]. simpl.
      assert (msg_num (s_header m') <> msg_num (s_header m)) by congruence. lia.
Qed.

Lemma deleted_readable s p base hi m m' :
  s_id m' <> s_id m -> readable s p base hi m' ->
  readable (set_recv s (recv_chain_key s) (recv_msg_num s) (delete (s_id m) (skipped s))) p base hi m'.
Proof. intros Hid [Hs|H]; [left|by right]. simpl. by rewrite lookup_delete_ne. Qed.

Lemma deleted_in_chain s p base i :
  in_chain s p base -> in_chain (set_recv s (recv_chain_key s) (recv_msg_num s) (delete i (skipped s))) p base.
Proof.
  intros (Hdr & Hc & H0 & Hst). split_and!; [done..|]. simpl. intros n k H. apply lookup_delete_Some in H as [_ H]. by eapply Hst.
Qed.

(** ** The invariant is kept *)

Lemma net_ok_rest S net m rest seen :
  net_ok S net seen -> net ≡ₚ m :: rest -> genuine m /\ net_ok S rest seen /\ Forall (fun m' => s_id m' <> s_id m) rest.
Proof.
  intros [Hd Hf] Hp. rewrite Hp in Hd, Hf. rewrite fmap_cons in Hd. apply NoDup_cons in Hd as [Hni Hd].
  apply Forall_cons in Hf as [[Hg _] Hf]. split_and!; [done..|]. apply Forall_forall. intros m' Hm' E. apply Hni.
  rewrite <-E. by apply list_elem_of_fmap_2.
Qed.

Lemma net_ok_seen S net seen seen' : net_ok S net seen -> seen ⊆ seen' -> net_ok S net seen'.
Proof. intros [Hd Hf] Hs. split; [done|]. eapply Forall_impl; [exact Hf|]. simpl. set_solver. Qed.

Lemma party_ok_seen s seen seen' : party_ok s seen -> seen ⊆ seen' -> party_ok s seen'.
Proof. intros (? & ? & ? & ? & ? & ? & ?) Hs. unfold party_ok. split_and!; try done; set_solver. Qed.

(** Reading leaves the sending half alone and stores keys of known chains. *)
Lemma party_ok_recv s seen ck n sk :
  party_ok s seen -> (forall p i k, sk !! (p, i) = Some k -> p ∈ seen) -> party_ok (set_recv s ck n sk) seen.
Proof. intros (? & ? & ? & ? & ? & ? & ?) Hk. unfold party_ok. simpl. split_and!; try done; lia. Qed.

Lemma party_ok_deleted s seen ck n i : party_ok s seen -> party_ok (set_recv s ck n (delete i (skipped s))) seen.
Proof.
  intros H. apply party_ok_recv; [done|]. intros p j k Hl. apply lookup_delete_Some in Hl as [_ Hl].
  destruct H as (_ & _ & _ & _ & _ & _ & H). by eapply H.
Qed.

Lemma party_ok_advanced s seen rk base n :
  party_ok s seen -> 0 <= recv_msg_num s -> rk ∈ seen -> party_ok (advanced s rk base n) seen.
Proof.
  intros H H0 Hrk. apply party_ok_recv; [done|]. intros p j k. rewrite store_lookup by done.
  case_bool_decide as E; [by destruct E as [-> _]|]. destruct H as (_ & _ & _ & _ & _ & _ & H). apply H.
Qed.

Lemma Forall_rest {A} (Q1 Q2 Q3 : A -> Prop) net m rest :
  net ≡ₚ m :: rest -> Forall Q1 net -> Forall Q2 rest -> (forall x, Q1 x -> Q2 x -> Q3 x) -> Q1 m /\ Forall Q3 rest.
Proof.
  intros Hp H1 H2 H. rewrite Hp in H1. apply Forall_cons in H1 as [Hm H1]. split; [done|].
  rewrite Forall_forall in *. auto.
Qed.

(** A message to the side that leads. *)
Lemma receive_follows S R nSR nRS seen m rest secret :
  turn S R nSR nRS seen -> nRS ≡ₚ m :: rest -> window_ok S (s_header m) = true ->
  exists S', decrypt S (s_wire m) secret = (S', Ok (s_text m)) /\ turn S' R nSR rest seen.
Proof.
  intros [HS HR H1 H2 Hl Hf] Hp Hw. destruct (net_ok_rest _ _ _ _ _ H2 Hp) as (Hg & H2' & Hne).
  destruct Hf as (Hdr & [(_ & _ & ->)|(base & Hsend & Hin & Hle & Hf)]).
  { by apply Permutation_nil_cons in Hp. }
  destruct (Forall_rest _ _ _ _ _ _ Hp Hf Hne (fun x a b => conj a b)) as [[Hst|(Hk & Hb & Hkey)] Hrest].
  - exists (set_recv S (recv_chain_key S) (recv_msg_num S) (delete (s_id m) (skipped S))).
    split; [by apply decrypt_stored|]. split; [by apply party_ok_deleted|done..|exact Hl|]. split; [done|]. right.
    exists base. split_and!; [done|by apply deleted_in_chain|done|]. eapply Forall_impl; [exact Hrest|].
    intros m' [? ?]. by apply deleted_readable.
  - exists (advanced S (dh_self_public R) base (msg_num (s_header m))).
    split; [apply decrypt_in_chain; naive_solver lia|].
    assert (0 <= recv_msg_num S) by by destruct Hin as (_ & _ & ? & _).
    split; [apply party_ok_advanced; [done..|by destruct HR as (_ & ? & _)]|done..|exact Hl|]. split; [done|]. right. exists base.
    split_and!; [done|apply advanced_in_chain; [done|lia]|simpl; lia|]. eapply Forall_impl; [exact Hrest|].
    intros m' [? ?]. apply advanced_readable; [done..|lia|done|done].
Qed.

(** The session that enters the sender's new chain: what is left of the old
    one is stored first. *)
Definition left_chain (R : Session) (obase : string) (until : Z) : Session :=
  match recv_chain_key R, dh_remote R with
  | Some _, Some p => set_recv R (Some (chain_at obase (Z.max (recv_msg_num R) until))) (recv_msg_num R)
                        (store p obase (recv_msg_num R) until (skipped R))
  | _, _ => R
  end.

(** What [R] knows of the old chain: nothing, or where it is in it. *)
Definition old_chain (R : Session) (obase : string) : Prop :=
  recv_chain_key R = None \/ exists p, in_chain R p obase.

Lemma decrypt_new_chain R m base obase root secret :
  genuine m -> old_chain R obase -> skipped R !! s_id m = None -> dh_remote R <> Some (ratchet_key (s_header m)) ->
  kdf_root (root_key R) (x25519_dh (dh_self_secret R) (ratchet_key (s_header m))) = (root, base) ->
  0 <= msg_num (s_header m) -> s_key m = key_at base (msg_num (s_header m)) -> window_ok R (s_header m) = true ->
  let R2 := dh_ratchet (left_chain R obase (prev_chain_len (s_header m))) (ratchet_key (s_header m)) secret in
  decrypt R (s_wire m) secret =
    (advanced R2 (ratchet_key (s_header m)) base (msg_num (s_header m)), Ok (s_text m)).
Proof.
  intros Hg Hold Hno Hne Hroot Hn Hk Hw R2. pose proof Hg as (Hh & _ & _ & intro & nonce & ct & Hwire & Hlen & Hd).
  unfold s_id in Hno. revert Hw. unfold window_ok, decrypt. rewrite Hwire, parse_wire_format, Hno by done. simpl.
  rewrite bool_decide_false by done. simpl. intros Hw. apply andb_prop in Hw as [Hw1 Hw2]. apply Z.leb_le in Hw2.
  assert (Hr : read_chain R2 (s_header m) (header_to_bytes (s_header m), nonce, ct) =
    (advanced R2 (ratchet_key (s_header m)) base (msg_num (s_header m)), Ok (s_text m))).
  { assert (Heq : recv_chain_key R2 = Some base /\ recv_msg_num R2 = 0).
    { subst R2. unfold dh_ratchet. replace (kdf_root _ _) with (root, base); [by destruct (kdf_root root _)|].
      rewrite <-Hroot. unfold left_chain. by repeat case_match. }
    destruct Heq as [E1 E2]. apply read_chain_genuine; [done|by rewrite E1, E2, chain_at_0|lia|lia|done|done]. }
  rewrite <-Hr. unfold R2, left_chain. destruct Hold as [E|(p & Hdr & Hc & H0 & _)]; [by rewrite E|].
  rewrite Hc, Hdr in *. simpl in *. apply Z.leb_le in Hw1. by rewrite skip_messages_spec.
Qed.

Lemma left_lookup R obase until q k :
  old_chain R obase -> skipped (left_chain R obase until) !! (q, k) =
    if bool_decide (recv_chain_key R <> None /\ dh_remote R = Some q /\ recv_msg_num R <= k < until)
    then Some (key_at obase k) else skipped R !! (q, k).
Proof.
  intros [E|(p & Hdr & Hc & H0 & _)]; unfold left_chain.
  - rewrite E, bool_decide_false by naive_solver. done.
  - rewrite Hc, Hdr. simpl. rewrite store_lookup by done.
    destruct (decide (q = p /\ recv_msg_num R <= k < until)) as [[-> ?]|Hn].
    + by rewrite !bool_decide_true.
    + rewrite !bool_decide_false by naive_solver. done.
Qed.

(** The receiver after entering the chain of [base] at message [n]. *)
Section Entered.
Variables (S R : Session) (base obase root secret : string) (n : Z) (seen : gset string).
Hypothesis Hold : old_chain R obase.
Hypothesis HS : party_ok S seen.
Hypothesis HR : party_ok R seen.
Hypothesis Hne : dh_remote R <> Some (dh_self_public S).
Hypothesis Hno : forall i, skipped R !! (dh_self_public S, i) = None.
Hypothesis Hroot : kdf_root (root_key R) (x25519_dh (dh_self_secret R) (dh_self_public S)) = (root_key S, base).
Hypothesis Hn : 0 <= n < send_msg_num S.
Let entered := advanced (dh_ratchet (left_chain R obase (prev_send_chain_len S)) (dh_self_public S) secret) (dh_self_public S) base n.

Lemma left_fields :
  dh_self_secret (left_chain R obase (prev_send_chain_len S)) = dh_self_secret R /\
  root_key (left_chain R obase (prev_send_chain_len S)) = root_key R /\
  send_msg_num (left_chain R obase (prev_send_chain_len S)) = send_msg_num R.
Proof using. clear. unfold left_chain. repeat case_match; split_and!; reflexivity. Qed.

Lemma entered_eq :
  entered = mkSession secret (x25519_public secret) (Some (dh_self_public S))
    (kdf_root (root_key S) (x25519_dh secret (dh_self_public S))).1
    (Some (kdf_root (root_key S) (x25519_dh secret (dh_self_public S))).2) 0
    (Some (chain_at base (n + 1))) (n + 1) (send_msg_num R)
    (store (dh_self_public S) base 0 n (skipped (left_chain R obase (prev_send_chain_len S))))
    (is_initiator (left_chain R obase (prev_send_chain_len S))).
Proof using Hroot.
  destruct left_fields as (E1 & E2 & E3). unfold entered, advanced, dh_ratchet. rewrite E1, E2, E3, Hroot.
  destruct (kdf_root (root_key S) _). reflexivity.
Qed.

Lemma entered_lookup q k :
  skipped entered !! (q, k) =
    if bool_decide (q = dh_self_public S /\ 0 <= k < n) then Some (key_at base k)
    else skipped (left_chain R obase (prev_send_chain_len S)) !! (q, k).
Proof. rewrite entered_eq. simpl. by apply store_lookup. Qed.

Lemma entered_stored q k x : q <> dh_self_public S ->
  skipped (left_chain R obase (prev_send_chain_len S)) !! (q, k) = Some x -> skipped entered !! (q, k) = Some x.
Proof. intros Hq Hx. rewrite entered_lookup, bool_decide_false by naive_solver. done. Qed.

Lemma entered_party : party_ok entered ({[x25519_public secret]} ∪ seen).
Proof.
  destruct HS as (_ & HSpub & _). destruct HR as (_ & _ & ? & ? & ? & Hrem & Hsk). unfold party_ok. split_and!.
  - by rewrite entered_eq.
  - rewrite entered_eq. set_solver.
  - by rewrite entered_eq.
  - by rewrite entered_eq.
  - rewrite entered_eq. simpl. lia.
  - rewrite entered_eq. simpl. lia.
  - rewrite entered_eq. simpl. intros p [= <-]. set_solver.
  - intros p i k. rewrite entered_lookup. case_bool_decide as E; [destruct E; set_solver|]. rewrite left_lookup by done.
    case_bool_decide as E'; [destruct E' as (_ & E' & _); apply Hrem in E'; set_solver|].
    intros Hl. apply Hsk in Hl. set_solver.
Qed.

Lemma entered_in_chain : in_chain entered (dh_self_public S) base.
Proof.
  split_and!; [by rewrite entered_eq..|rewrite entered_eq; simpl; lia|]. intros k x. rewrite entered_lookup.
  case_bool_decide as E; [rewrite entered_eq; simpl; lia|]. rewrite left_lookup by done.
  case_bool_decide as E'; [destruct E' as (_ & ? & _); done|]. by rewrite Hno.
Qed.

Lemma entered_readable m m' :
  s_id m = (dh_self_public S, n) -> s_id m' <> s_id m ->
  (exists p, in_chain R p obase /\ readable R p obase (prev_send_chain_len S) m') \/ ahead S base m' ->
  readable entered (dh_self_public S) base (send_msg_num S) m'.
Proof.
  intros Hid Hnid [(p & (Hdr & Hc & H0 & Hst) & Hr)|(Hk & Hb & _ & Hkey)]; unfold readable, s_id in *.
  - left. destruct Hr as [Hs|(Hp & Hb & Hkey)].
    + apply entered_stored; [intros E; rewrite E, Hno in Hs; done|]. rewrite left_lookup by done.
      case_bool_decide as E; [|done]. destruct E as (_ & E & E'). assert (E0 : ratchet_key (s_header m') = p) by congruence.
      rewrite E0 in Hs. apply Hst in Hs. lia.
    + apply entered_stored; [intros E; apply Hne; congruence|]. rewrite left_lookup by done.
      rewrite bool_decide_true; [by rewrite Hkey|]. rewrite Hc, Hp. split_and!; [done..|lia|lia].
  - destruct (Z.lt_ge_cases (msg_num (s_header m')) n) as [Hlt|Hge].
    + left. rewrite entered_lookup, bool_decide_true by (split; [done|lia]). by rewrite Hkey.
    + right. split_and!; [done| |lia|done]. rewrite entered_eq. simpl.
      assert (msg_num (s_header m') <> n) by congruence. lia.
Qed.
End Entered.

(** A message to the side that follows: of the chain it is in, or of the next,
    which then it is that side's turn to answer with a new chain of its own. *)
Lemma receive_leads S R nSR nRS seen m rest secret :
  turn S R nSR nRS seen -> nSR ≡ₚ m :: rest -> window_ok R (s_header m) = true -> x25519_public secret ∉ seen ->
  exists R', decrypt R (s_wire m) secret = (R', Ok (s_text m)) /\
    (turn S R' rest nRS seen \/ turn R' S nRS rest ({[x25519_public secret]} ∪ seen)).
Proof.
  intros [HS HR H1 H2 Hl Hf] Hp Hw Hfresh. destruct (net_ok_rest _ _ _ _ _ H1 Hp) as (Hg & H1' & Hnid).
  destruct Hl as (base & Hsend & Hroot & Hne & Hno & Hl).
  assert (Hcases : exists obase, old_chain R obase /\
    Forall (fun m' => (exists p, in_chain R p obase /\ readable R p obase (prev_send_chain_len S) m') \/ ahead S base m') nSR).
  { destruct Hl as [[Hrc Hfa]|(p & ob & Hin & Hfa)].
    - exists "". split; [by left|]. eapply Forall_impl; [exact Hfa|]. auto.
    - exists ob. split; [right; by exists p|]. eapply Forall_impl; [exact Hfa|]. intros m' [?|?]; [left; by exists p|by right]. }
  destruct Hcases as (obase & Hold & Hfa). clear Hl.
  destruct (Forall_rest _ _ _ _ _ _ Hp Hfa Hnid (fun x a b => conj a b)) as [Hm Hrest]. clear Hfa.
  destruct Hm as [(p & Hin & Hr)|(Hk & Hb & Hprev & Hkey)].
  - (* the chain the receiver is in, or before *)
    assert (Hin' := Hin). destruct Hin' as (Hdr & Hc & H0 & _).
    assert (Hrest' : Forall (fun m' => (readable R p obase (prev_send_chain_len S) m' \/ ahead S base m') /\ s_id m' <> s_id m) rest).
    { eapply Forall_impl; [exact Hrest|]. intros m' [[(q & (Hq & _) & ?)|?] ?]; [|auto].
      assert (q = p) as -> by congruence. auto. }
    destruct Hr as [Hst|(Hk & Hb & Hkey)].
    + exists (set_recv R (recv_chain_key R) (recv_msg_num R) (delete (s_id m) (skipped R))).
      split; [by apply decrypt_stored|]. left. split; [done|by apply party_ok_deleted|done|done| |exact Hf].
      exists base. simpl. split_and!; [done..|intros i; by rewrite lookup_delete_None; right|]. right. exists p, obase.
      split; [by apply deleted_in_chain|]. eapply Forall_impl; [exact Hrest'|].
      intros m' [[?|?] ?]; [left; by apply deleted_readable|by right].
    + exists (advanced R p obase (msg_num (s_header m))). split; [apply decrypt_in_chain; naive_solver lia|]. left.
      split; [done|apply party_ok_advanced; [done..|]|done|done| |exact Hf].
      { destruct HR as (_ & _ & _ & _ & _ & Hrem & _). by apply Hrem. }
      exists base. split_and!; [done..| |].
      { intros i. rewrite advanced_lookup by done. rewrite bool_decide_false; [done|]. intros [E _]. apply Hne. congruence. }
      right. exists p, obase. split; [apply advanced_in_chain; [done|lia]|]. eapply Forall_impl; [exact Hrest'|].
      intros m' [[?|?] ?]; [left; apply advanced_readable; [done..|lia|done|done]|by right].
  - (* the new chain *)
    pose proof (decrypt_new_chain R m base obase (root_key S) secret Hg Hold) as Hdec. cbv zeta in Hdec.
    rewrite Hk, Hprev in Hdec. unfold s_id in Hdec. rewrite Hk in Hdec.
    eexists. split; [apply Hdec; [apply Hno|done|done|lia|done|done]|]. clear Hdec. right.
    set (n := msg_num (s_header m)) in *.
    pose proof (entered_eq S R base obase secret n Hroot) as Heq.
    split.
    + by eapply entered_party.
    + eapply party_ok_seen; [done|set_solver].
    + eapply net_ok_seen; [|by apply union_subseteq_r']. destruct H2 as [Hd2 Hf2]. split; [done|].
      eapply Forall_impl; [exact Hf2|]. intros m' (? & Hs & _). split_and!; [done..|]. rewrite Heq. simpl. intros E.
      rewrite E in Hs. done.
    + eapply net_ok_seen; [exact H1'|set_solver].
    + exists (kdf_root (root_key S) (x25519_dh secret (dh_self_public S))).2. rewrite Heq. simpl.
      destruct HS as (HSp & _ & _ & _ & _ & Hrem & Hsk). split_and!.
      * done.
      * rewrite x25519_agree, <-HSp. apply surjective_pairing.
      * destruct Hf as [Hdr _]. rewrite Hdr. intros [= E]. destruct HR as (_ & HRs & _). apply Hfresh. by rewrite <-E.
      * intros i. apply eq_None_not_Some. intros [x Hx]. apply Hsk in Hx. done.
      * destruct Hf as (_ & [(_ & Hrc & ->)|(b2 & _ & Hin & _ & Hfr)]); [left; done|].
        right. exists (dh_self_public R), b2. split; [done|]. eapply Forall_impl; [exact Hfr|]. auto.
    + split; [by rewrite Heq|]. right. exists base. split_and!.
      * done.
      * by eapply entered_in_chain.
      * rewrite Heq. simpl. lia.
      * eapply Forall_impl; [exact Hrest|]. intros m' [Hm' Hi]. eapply (entered_readable S R base obase secret n); try done.
        unfold s_id. by rewrite Hk.
Qed.

(** ** Every conversation *)

Lemma start_in_step shared spk a : x25519_public spk <> x25519_public a -> in_step (start shared spk a).
Proof.
  intros Hne. left. unfold start, init_alice_with_ratchet_key, init_bob.
  destruct (kdf_root shared (x25519_dh a (x25519_public spk))) as [root base] eqn:E. simpl. split.
  - unfold party_ok. simpl. split_and!; try done; [set_solver|naive_solver set_solver].
  - unfold party_ok. simpl. split_and!; try done; set_solver.
  - split; [constructor|constructor].
  - split; [constructor|constructor].
  - exists base. simpl. split_and!; [done|by rewrite x25519_agree|done|done|]. left. split; [done|constructor].
  - split; [done|]. by left.
Qed.

Lemma lost_turn_SR S R nSR nRS seen m rest : turn S R nSR nRS seen -> nSR ≡ₚ m :: rest -> turn S R rest nRS seen.
Proof.
  intros [HS HR H1 H2 Hl Hf] Hp. destruct (net_ok_rest _ _ _ _ _ H1 Hp) as (_ & H1' & _). split; [done..| |done].
  destruct Hl as (base & ? & ? & ? & ? & Hl). exists base. split_and!; [done..|].
  destruct Hl as [[? Hfa]|(p & ob & ? & Hfa)]; rewrite Hp in Hfa; apply Forall_cons in Hfa as [_ Hfa];
    [by left|right; by exists p, ob].
Qed.

Lemma lost_turn_RS S R nSR nRS seen m rest : turn S R nSR nRS seen -> nRS ≡ₚ m :: rest -> turn S R nSR rest seen.
Proof.
  intros [HS HR H1 H2 Hl Hf] Hp. destruct (net_ok_rest _ _ _ _ _ H2 Hp) as (_ & H2' & _). split; [done..|].
  destruct Hf as (Hdr & [(? & ? & ->)|(base & ? & ? & ? & Hfa)]); split; try done.
  - by apply Permutation_nil_cons in Hp.
  - right. exists base. rewrite Hp in Hfa. apply Forall_cons in Hfa as [_ Hfa]. done.
Qed.

Lemma turn_seen S R nSR nRS seen seen' :
  turn S R nSR nRS seen -> seen ⊆ seen' -> turn S R nSR nRS seen'.
Proof.
  intros [HS HR H1 H2 Hl Hf] Hs.
  split; [by eapply party_ok_seen|by eapply party_ok_seen|by eapply net_ok_seen|by eapply net_ok_seen|done|done].
Qed.

Lemma in_step_preserved t t' : in_step t -> talk_step t t' -> in_step t'.
Proof.
  intros Ht Hst. destruct Hst as [t text nonce i s r|t text nonce i s r|t m rest sec s r Hp Hw Hfr Hd
    |t m rest sec s r Hp Hw Hfr Hd|t m rest Hp|t m rest Hp]; unfold in_step; simpl; destruct Ht as [Ht|Ht].
  - left. by eapply send_leads.
  - right. by eapply send_follows.
  - left. by eapply send_follows.
  - right. by eapply send_leads.
  - destruct (receive_leads _ _ _ _ _ _ _ sec Ht Hp Hw Hfr) as (R' & E & H). assert (s = R') as -> by congruence.
    destruct H as [H|H]; [left; eapply turn_seen; [done|set_solver]|by right].
  - destruct (receive_follows _ _ _ _ _ _ _ sec Ht Hp Hw) as (S' & E & H). assert (s = S') as -> by congruence.
    right. eapply turn_seen; [done|set_solver].
  - destruct (receive_follows _ _ _ _ _ _ _ sec Ht Hp Hw) as (S' & E & H). assert (s = S') as -> by congruence.
    left. eapply turn_seen; [done|set_solver].
  - destruct (receive_leads _ _ _ _ _ _ _ sec Ht Hp Hw Hfr) as (R' & E & H). assert (s = R') as -> by congruence.
    destruct H as [H|H]; [right; eapply turn_seen; [done|set_solver]|by left].
  - left. by eapply lost_turn_SR.
  - right. by eapply lost_turn_RS.
  - left. by eapply lost_turn_RS.
  - right. by eapply lost_turn_SR.
Qed.

Lemma reachable_in_step shared spk a t :
  x25519_public spk <> x25519_public a -> rtc talk_step (start shared spk a) t -> in_step t.
Proof.
  intros Hne Hr. assert (H0 := start_in_step shared spk a Hne). revert H0.
  induction Hr as [|t1 t2 t3 Hs _ IH]; [done|]. intros H. apply IH. by eapply in_step_preserved.
Qed.

(** C20: whatever was sent, lost and reordered before, a message in flight that is
    delivered within the skip limit reads as the text it was made of, on
    either side. The ratchet key drawn at the delivery is a new one. *)
Theorem ratchet_reads_what_was_sent shared spk a t secret m :
  x25519_public spk <> x25519_public a -> rtc talk_step (start shared spk a) t -> x25519_public secret ∉ drawn t ->
  (m ∈ to_bob t -> window_ok (bob t) (s_header m) = true -> (decrypt (bob t) (s_wire m) secret).2 = Ok (s_text m)) /\
  (m ∈ to_alice t -> window_ok (alice t) (s_header m) = true -> (decrypt (alice t) (s_wire m) secret).2 = Ok (s_text m)).
Proof.
  intros Hne Hr Hfr. pose proof (reachable_in_step _ _ _ _ Hne Hr) as Hs.
  split; intros Hin Hw; apply elem_of_Permutation in Hin as [rest Hp]; destruct Hs as [Hs|Hs].
  - by destruct (receive_leads _ _ _ _ _ _ _ secret Hs Hp Hw Hfr) as (? & -> & _).
  - by destruct (receive_follows _ _ _ _ _ _ _ secret Hs Hp Hw) as (? & -> & _).
  - by destruct (receive_follows _ _ _ _ _ _ _ secret Hs Hp Hw) as (? & -> & _).
  - by destruct (receive_leads _ _ _ _ _ _ _ secret Hs Hp Hw Hfr) as (? & -> & _).
Qed.

(** The key agreement sets up exactly such a conversation. *)
Theorem agreement_starts_conversation a did_a did_b b id sk spk ek first r :
  initiate_with_ephemeral (from_secret a) did_a (bundle_new did_b (from_secret b) (spk_generate id sk spk))
    (ed25519_verifying_key sk) ek = Ok r ->
  exists secret_b spk_b, respond (from_secret b) (spk_generate id sk spk) (initial_message r) = Ok (secret_b, spk_b) /\
    init_alice_with_ratchet_key (shared_secret r) (their_ratchet_key r) first = alice (start secret_b spk_b first) /\
    init_bob secret_b spk_b = bob (start secret_b spk_b first).
Proof.
  rewrite initiate_spec. destruct (agreed a ek b spk) as [secret|] eqn:E; [|done]. simpl. intros [= <-]. simpl.
  exists secret, spk. by rewrite respond_spec, E.
Qed.

(** ** What is left unguarded *)

(** A message that was already read, delivered again: it is refused, but the
    chain moves on while the count of messages goes back, so the two no longer
    belong together. *)
Theorem replay_desynchronises s m p base secret :
  genuine m -> in_chain s p base -> ratchet_key (s_header m) = p -> skipped s !! s_id m = None ->
  msg_num (s_header m) < recv_msg_num s ->
  let s' := (decrypt s (s_wire m) secret).1 in
  recv_chain_key s' = Some (chain_at base (recv_msg_num s + 1)) /\ recv_msg_num s' = msg_num (s_header m) + 1 /\
  recv_msg_num s' < recv_msg_num s + 1.
Proof.
  intros Hg (Hdr & Hc & H0 & _) Hp Hno Hlt. pose proof Hg as (Hh & Hb & _ & intro & nonce & ct & Hw & Hn & _).
  assert (0 <= msg_num (s_header m)) by (destruct Hh as (? & ? & ?); lia). unfold s_id in Hno. unfold decrypt. rewrite Hw, parse_wire_format, Hno by done.
  rewrite bool_decide_true by congruence. simpl. unfold read_chain. rewrite Hc. unfold skip_messages.
  destruct (Z.ltb_spec (msg_num (s_header m)) (recv_msg_num s)); [|lia]. rewrite Hc. simpl. unfold id.
  rewrite chain_at_succ by done. unfold wrap. rewrite Z.mod_small by lia. split_and!; [done..|lia].
Qed.
End Sync.
