(* ===== verification/RatchetRuns.v ===== *)
(** * Bounds, persistence and runs of the double ratchet

    The size of the store of skipped keys and the saving of a session
    ([freeq-sdk/src/ratchet.rs]), and concrete conversations under
    [toy_primitives]. *)
From stdpp Require Import base gmap strings list countable.
From Stdlib Require Import ZArith Lia Ascii String.
From S2P Require Import Prelude Text Primitives X3dh Ratchet RatchetSync.
Open Scope string_scope.
Open Scope list_scope.
Open Scope Z_scope.

#[local] Arguments read_chain : simpl never.
#[local] Arguments skip_messages : simpl never.
#[local] Arguments dh_ratchet : simpl never.

(** ** The store of skipped keys *)

Section Bounds.
Context {P : Primitives} {B : Base64}.

Lemma skip_loop_size k rk n ck sk : (size (skip_loop k rk n ck sk).2 <= size sk + k)%nat.
Proof.
  revert n ck sk. induction k as [|k IH]; intros n ck sk; simpl; [lia|].
  etransitivity; [apply IH|]. rewrite map_size_insert. case_match; simpl; lia.
Qed.

Lemma skip_messages_size s rk ck from until :
  Z.of_nat (size (skipped (skip_messages s rk ck from until).1)) <= Z.of_nat (size (skipped s)) + MAX_SKIP.
Proof.
  unfold skip_messages. pose proof (skip_loop_size (Z.to_nat (until - from)) rk from ck (skipped s)) as H.
  unfold MAX_SKIP in *. repeat case_match; simpl in *; bool_hyps; lia.
Qed.

Lemma read_chain_size s h f :
  Z.of_nat (size (skipped (read_chain s h f).1)) <= Z.of_nat (size (skipped s)) + MAX_SKIP.
Proof.
  unfold read_chain. destruct f as [[hb nonce] ct]. destruct (recv_chain_key s) as [ck|]; [|unfold MAX_SKIP; simpl; lia].
  pose proof (skip_messages_size s (ratchet_key h) ck (recv_msg_num s) (msg_num h)) as H.
  by destruct (skip_messages _ _ _ _ _) as [s1 [[]|]].
Qed.

(** One delivery, whatever it carries, stores at most twice [MAX_SKIP] keys. *)
Theorem delivery_stores_bounded s wire secret :
  Z.of_nat (size (skipped (decrypt s wire secret).1)) <= Z.of_nat (size (skipped s)) + 2 * MAX_SKIP.
Proof.
  unfold decrypt. destruct (parse_wire wire) as [[h [[hb nonce] ct]]|]; [|unfold MAX_SKIP; simpl; lia].
  destruct (skipped s !! _) as [k|]; simpl.
  { rewrite map_size_delete. unfold MAX_SKIP, id. case_match; lia. }
  destruct (bool_decide _); simpl.
  { pose proof (read_chain_size s h (hb, nonce, ct)). unfold MAX_SKIP in *. lia. }
  assert (Hs : forall s1 r, (match recv_chain_key s with
      | Some ck => skip_messages s (default zero32 (dh_remote s)) ck (recv_msg_num s) (prev_chain_len h)
      | None => (s, Ok tt) end) = (s1, r) -> Z.of_nat (size (skipped s1)) <= Z.of_nat (size (skipped s)) + MAX_SKIP).
  { intros s1 r. destruct (recv_chain_key s) as [ck|]; [|intros [= <- _]; unfold MAX_SKIP; lia].
    intros E. pose proof (skip_messages_size s (default zero32 (dh_remote s)) ck (recv_msg_num s) (prev_chain_len h)) as H.
    by rewrite E in H. }
  destruct (match recv_chain_key s with _ => _ end) as [s1 [[]|e]] eqn:E; specialize (Hs _ _ eq_refl);
    [|unfold MAX_SKIP in *; simpl; lia].
  etransitivity; [apply read_chain_size|]. unfold dh_ratchet. destruct (kdf_root _ _). destruct (kdf_root _ _). simpl. lia.
Qed.
End Bounds.

(** ** Saving a session *)

Section Saving.
Context {P : Primitives} {J : SessionJson}.

(** A session is saved and restored unchanged while no key is stored; with a
    stored key it cannot be saved. *)
Theorem session_save_roundtrip s key nonce :
  String.length nonce = 12%nat ->
  match to_encrypted_bytes s key nonce with
  | Ok data => skipped s = ∅ /\ from_encrypted_bytes key data = Ok s
  | Err e => e = CryptoError /\ (skipped s = ∅ -> exists json, json_to_vec s = Some json /\ aes_gcm_encrypt key nonce "" json = None)
  end.
Proof.
  intros Hn. unfold to_encrypted_bytes. destruct (json_to_vec s) as [json|] eqn:Ej; simpl.
  - assert (Hs : skipped s = ∅).
    { destruct (decide (skipped s = ∅)) as [|Hne]; [done|]. apply json_fails in Hne. congruence. }
    destruct (aes_gcm_encrypt key nonce "" json) as [ct|] eqn:Ee; simpl; [|by eauto]. split; [done|].
    unfold from_encrypted_bytes. rewrite append_length, Hn. destruct (Nat.ltb_spec (12 + String.length ct) 12); [lia|].
    rewrite <-Hn, str_take_app, str_drop_app. rewrite (aes_gcm_opens _ _ _ _ _ Ee). simpl.
    by rewrite (json_reads_back _ _ Ej).
  - split; [done|]. intros Hs. apply json_fails in Ej. done.
Qed.

Theorem stored_keys_prevent_saving s key nonce : skipped s <> ∅ -> to_encrypted_bytes s key nonce = Err CryptoError.
Proof. intros Hs. apply json_fails in Hs. unfold to_encrypted_bytes. by rewrite Hs. Qed.
End Saving.

(** ** An instance of the serialiser *)

Definition session_tuple (s : Session) :=
  (dh_self_secret s, dh_self_public s, dh_remote s, root_key s, send_chain_key s, send_msg_num s, recv_chain_key s,
   recv_msg_num s, prev_send_chain_len s, skipped s, is_initiator s).
#[export] Instance session_eq_dec : EqDecision Session.
Proof. solve_decision. Defined.
#[export] Instance session_countable : Countable Session.
Proof.
  refine (inj_countable' session_tuple
    (fun '(a, b, c, d, e, f, g, h, i, j, k) => mkSession a b c d e f g h i j k) _). by intros [].
Defined.

Definition toy_json : SessionJson.
Proof.
  refine {| json_to_vec s := if decide (skipped s = ∅) then Some (enum_text s) else None; json_from_slice := enum_read |}.
  - intros s. case_decide; naive_solver.
  - intros s b. case_decide; [|done]. intros [= <-]. apply enum_read_text.
Defined.

Lemma session_save_roundtrip_witness :
  String.length "123456789012" = 12%nat /\
  match @to_encrypted_bytes toy_primitives toy_json (@init_bob toy_primitives "secret" "spk") "k" "123456789012" with
  | Ok data => skipped (@init_bob toy_primitives "secret" "spk") = ∅ /\
               @from_encrypted_bytes toy_primitives toy_json "k" data = Ok (@init_bob toy_primitives "secret" "spk")
  | Err e => e = CryptoError /\ (skipped (@init_bob toy_primitives "secret" "spk") = ∅ -> exists json,
      @json_to_vec toy_json (@init_bob toy_primitives "secret" "spk") = Some json /\
      @aes_gcm_encrypt toy_primitives "k" "123456789012" "" json = None)
  end.
Proof. split; [reflexivity|]. apply (@session_save_roundtrip toy_primitives toy_json). reflexivity. Defined.

(** ** Conversations *)

#[local] Existing Instance toy_primitives.
#[local] Existing Instance toy_base64.

Definition nonce0 : string := "nonce-nonce0".
Definition talk0 : Talk := start "shared" "bob-spk" "alice-1".
(** Alice sends a text; the message as it goes out. *)
Definition send_a (t : Talk) (text : string) : Talk :=
  let '(s, r) := encrypt_inner (alice t) text nonce0 None in
  mkTalk s (bob t) (post (alice t) text r (to_bob t)) (to_alice t) (drawn t).
Definition wires (l : list Sent) : list string := s_wire <$> l.
Definition texts (s : Session) (secret : string) (l : list string) : list (result string RatchetError) * Session :=
  fold_left (fun '(out, s) w => let '(s', r) := decrypt s w secret in (out ++ [r], s')) l ([], s).

(** Three messages, the last delivered first. *)
Example out_of_order_is_read :
  let t := send_a (send_a (send_a talk0 "one") "two") "three" in
  (texts (bob t) "bob-2" (wires (to_bob t))).1 = [Ok "three"; Ok "two"; Ok "one"].
Proof. vm_compute. reflexivity. Qed.

(** The first message again after the second: the duplicate is refused, and so
    is everything after it. *)
Example replay_ends_the_session :
  let t := send_a (send_a (send_a talk0 "one") "two") "three" in
  (texts (bob t) "bob-2" (match rev (wires (to_bob t)) with
     | [w1; w2; w3] => [w1; w2; w1; w3] | _ => [] end)).1
  = [Ok "one"; Ok "two"; Err DecryptFailed; Err DecryptFailed].
Proof. vm_compute. reflexivity. Qed.

(** A message nobody sent, under a ratchet key of the relay's choosing: it is
    refused, and the genuine messages after it no longer read. *)
Example forgery_ends_the_session :
  let t := send_a (send_a talk0 "one") "two" in
  let forged := wire_format None (header_to_bytes (mkHeader (x25519_public "mallory") 0 0)) nonce0 "junk" in
  (texts (bob t) "bob-2" (match rev (wires (to_bob t)) with [w1; w2] => [w1; forged; w2] | _ => [] end)).1
  = [Ok "one"; Err DecryptFailed; Err DecryptFailed].
Proof. vm_compute. reflexivity. Qed.

(** A stored key is spent on the first message that names it, genuine or not. *)
Example forgery_spends_a_stored_key :
  let t := send_a (send_a talk0 "one") "two" in
  (texts (bob t) "bob-2" (match to_bob t with
     | [m2; m1] => [s_wire m2; wire_format None (header_to_bytes (s_header m1)) nonce0 "junk"; s_wire m1]
     | _ => [] end)).1
  = [Ok "two"; Err DecryptFailed; Err DecryptFailed].
Proof. vm_compute. reflexivity. Qed.

(** Two gaps, each within the limit, leave more keys than the limit. *)
Definition gap_to (n : Z) (s : Session) : Session :=
  (decrypt s (wire_format None (header_to_bytes (mkHeader (x25519_public "alice-1") 0 n)) nonce0 "") "bob-2").1.
Example stored_keys_exceed_the_limit :
  size (skipped (gap_to 1400 (gap_to 700 (bob talk0)))) = 1399%nat /\ MAX_SKIP = 1000.
Proof. vm_compute. split; reflexivity. Qed.

(** ** Witnesses *)

Lemma ratchet_reads_what_was_sent_witness :
  (decrypt (bob (send_a talk0 "hello")) (s_wire (default (mkSent "" "" (mkHeader "" 0 0) "") (head (to_bob (send_a talk0 "hello")))))
     "bob-2").2 = Ok "hello".
Proof.
  refine (proj1 (ratchet_reads_what_was_sent "shared" "bob-spk" "alice-1" (send_a talk0 "hello") "bob-2"
    (default (mkSent "" "" (mkHeader "" 0 0) "") (head (to_bob (send_a talk0 "hello")))) _ _ _) _ _).
  - vm_compute. discriminate.
  - eapply rtc_once, (Alice_sends talk0 "hello" nonce0 None); vm_compute; reflexivity.
  - apply (bool_decide_unpack _). vm_compute. exact I.
  - apply list_elem_of_here.
  - vm_compute. reflexivity.
Defined.

Definition read_two : Session := (texts (bob talk0) "bob-2" (rev (wires (to_bob (send_a (send_a talk0 "one") "two"))))).2.
Definition first_sent : Sent := default (mkSent "" "" (mkHeader "" 0 0) "") (head (rev (to_bob (send_a (send_a talk0 "one") "two")))).
Definition first_base : string := default "" (send_chain_key (alice talk0)).

Lemma replay_desynchronises_witness :
  recv_msg_num (decrypt read_two (s_wire first_sent) "bob-3").1 = 1 /\
  recv_chain_key (decrypt read_two (s_wire first_sent) "bob-3").1 = Some (chain_at first_base 3).
Proof.
  destruct (replay_desynchronises read_two first_sent (x25519_public "alice-1") first_base "bob-3") as (H1 & H2 & _).
  - split; [|split; [reflexivity|split; [reflexivity|]]].
    + split; [reflexivity|]. vm_compute. repeat split; discriminate.
    + exists None, nonce0, (toy_seal (s_key first_sent) nonce0 (header_to_bytes (s_header first_sent)) +:+ "one").
      vm_compute. repeat split; reflexivity.
  - split; [reflexivity|split; [vm_compute; reflexivity|split; [vm_compute; discriminate|]]].
    intros n k. assert (skipped read_two = ∅) as -> by (vm_compute; reflexivity). by rewrite lookup_empty.
  - reflexivity.
  - vm_compute. reflexivity.
  - vm_compute. reflexivity.
  - split; [exact H2|exact H1].
Defined.
