(* ===== verification/E2eeManager.v ===== *)
(** * The encryption manager of the mobile applications

    Models [FreeqE2ee] of [freeq-sdk-ffi/src/lib.rs]: the keys of one user, a
    ratchet session per correspondent, and the safety number. Random keys are
    arguments. *)
From stdpp Require Import base gmap strings list pretty.
From Stdlib Require Import ZArith Lia Ascii String.
From S2P Require Import Prelude Text Primitives X3dh Ratchet RatchetSync RatchetRuns.
Open Scope string_scope.
Open Scope list_scope.
Open Scope Z_scope.

Inductive FreeqError := ConnectionFailed | NotConnected | SendFailed | InvalidArgument.

Record FreeqE2ee := mkE2ee {
  sessions : gmap string Session;
  identity_secret : option string;
  identity_public_key : option string;
  spk_secret_key : option string;
  spk_public_key : option string
}.
Definition e2ee_new : FreeqE2ee := mkE2ee ∅ None None None None.

(** The bundle a user uploads. *)
Record FfiBundle := mkFfiBundle { f_identity_key : string; f_signed_pre_key : string; f_spk_signature : string; f_spk_id : Z }.

Section Manager.
Context {P : Primitives} {B : Base64}.
Local Open Scope rust_scope.

Definition with_keys (m : FreeqE2ee) (ik spk : string) : FreeqE2ee :=
  mkE2ee (sessions m) (Some ik) (Some (x25519_public ik)) (Some spk) (Some (x25519_public spk)).
Definition own_bundle (ik spk sig : string) : FfiBundle :=
  mkFfiBundle (b64_encode (x25519_public ik)) (b64_encode (x25519_public spk)) sig 1.

Definition generate_keys (m : FreeqE2ee) (ik spk signing : string) : FreeqE2ee * result FfiBundle FreeqError :=
  (with_keys m ik spk, Ok (own_bundle ik spk (b64_encode (ed25519_sign signing (x25519_public spk))))).

(** [B64.decode(..).map_err(..)?.try_into().map_err(..)?] into 32 bytes. *)
Definition decode32 (s : string) : result string FreeqError :=
  let? bytes := ok_or (b64_decode s) InvalidArgument in
  if Nat.eqb (String.length bytes) 32 then Ok bytes else Err InvalidArgument.

Definition restore_keys (m : FreeqE2ee) (ik_b64 spk_b64 : string) : FreeqE2ee * result FfiBundle FreeqError :=
  match (let? ik := decode32 ik_b64 in let? spk := decode32 spk_b64 in Ok (ik, spk)) with
  | Err e => (m, Err e)
  | Ok (ik, spk) => (with_keys m ik spk, Ok (own_bundle ik spk ""))
  end.

Definition export_keys (m : FreeqE2ee) : result (list string) FreeqError :=
  let? ik := ok_or (identity_secret m) NotConnected in
  let? spk := ok_or (spk_secret_key m) NotConnected in
  Ok [b64_encode ik; b64_encode spk].

(** The secret a side derives from its identity key and the other's bundle. *)
Definition manager_secret (my_ik their_ik their_spk : string) : string :=
  sha256 (x25519_dh my_ik their_ik +:+ x25519_dh my_ik their_spk).

Definition byte_lt (a b : string) : bool := match String.compare a b with Lt => true | _ => false end.

Definition session_for (m : FreeqE2ee) (their_ik_b64 their_spk_b64 fresh : string) : result Session FreeqError :=
  let? their_ik := decode32 their_ik_b64 in
  let? their_spk := decode32 their_spk_b64 in
  let? my_ik := ok_or (identity_secret m) NotConnected in
  let shared := manager_secret my_ik their_ik their_spk in
  let? my_pk := ok_or (identity_public_key m) NotConnected in
  if byte_lt my_pk their_ik then Ok (init_alice_with_ratchet_key shared their_spk fresh)
  else let? my_spk := ok_or (spk_secret_key m) NotConnected in Ok (init_bob shared my_spk).

Definition put_session (m : FreeqE2ee) (did : string) (s : Session) : FreeqE2ee :=
  mkE2ee (<[did := s]> (sessions m)) (identity_secret m) (identity_public_key m) (spk_secret_key m) (spk_public_key m).

Definition establish_session (m : FreeqE2ee) (remote_did their_ik_b64 their_spk_b64 fresh : string)
    : FreeqE2ee * result unit FreeqError :=
  match session_for m their_ik_b64 their_spk_b64 fresh with
  | Ok s => (put_session m remote_did s, Ok tt)
  | Err e => (m, Err e)
  end.

Definition encrypt_message (m : FreeqE2ee) (remote_did plaintext nonce : string) : FreeqE2ee * result string FreeqError :=
  match sessions m !! remote_did with
  | None => (m, Err NotConnected)
  | Some s => let '(s', r) := encrypt_with_nonce s plaintext nonce in
              (put_session m remote_did s', match r with Ok w => Ok w | Err _ => Err SendFailed end)
  end.

Definition decrypt_message (m : FreeqE2ee) (remote_did wire fresh : string) : FreeqE2ee * result string FreeqError :=
  match sessions m !! remote_did with
  | None => (m, Err NotConnected)
  | Some s => let '(s', r) := decrypt s wire fresh in
              (put_session m remote_did s', match r with Ok t => Ok t | Err _ => Err InvalidArgument end)
  end.

Definition has_session (m : FreeqE2ee) (remote_did : string) : bool := is_some (sessions m !! remote_did).
Definition manager_is_encrypted (text : string) : bool := starts_with ENC3_PREFIX text.

(** [format!("{val:05}")] *)
Definition five_digits (v : Z) : string :=
  let d := pretty v in string_of_list_ascii (repeat "0"%char (5 - String.length d)) +:+ d.
Definition hash_byte (hash : string) (i : nat) : Z := default 0 (byte <$> String.get i hash).
Definition safety_group (hash : string) (i : nat) : string :=
  five_digits (Z.lor (Z.shiftl (hash_byte hash (i * 2)) 8) (hash_byte hash (i * 2 + 1)) mod 100000).
Definition get_safety_number (m : FreeqE2ee) (remote_did : string) : result string FreeqError :=
  let? my_pk := ok_or (identity_public_key m) NotConnected in
  let hash := sha256 (if byte_lt my_pk remote_did then my_pk +:+ remote_did else remote_did +:+ my_pk) in
  Ok (str_join " " (map (safety_group hash) (seq 0 12))).

Section Saved.
Context {J : SessionJson}.
Definition export_session (m : FreeqE2ee) (remote_did : string) : result string FreeqError :=
  let? s := ok_or (sessions m !! remote_did) NotConnected in ok_or (json_to_vec s) SendFailed.
Definition import_session (m : FreeqE2ee) (remote_did json : string) : FreeqE2ee * result unit FreeqError :=
  match json_from_slice json with
  | None => (m, Err InvalidArgument)
  | Some s => (put_session m remote_did s, Ok tt)
  end.

(** What was exported is imported as the same session, in any manager; a
    session that has stored the key of a late message is not exported. *)
Theorem session_export_import m m' did :
  match export_session m did with
  | Ok json => sessions (import_session m' did json).1 !! did = sessions m !! did /\ (import_session m' did json).2 = Ok tt
  | Err e => sessions m !! did = None /\ e = NotConnected \/
             (exists s, sessions m !! did = Some s /\ skipped s <> ∅) /\ e = SendFailed
  end.
Proof.
  unfold export_session. destruct (sessions m !! did) as [s|] eqn:Es; simpl; [|by left].
  destruct (json_to_vec s) as [json|] eqn:Ej; simpl.
  - unfold import_session. rewrite (json_reads_back _ _ Ej). simpl. by rewrite lookup_insert_eq.
  - right. split; [|done]. exists s. split; [done|]. by apply json_fails.
Qed.
End Saved.

(** ** What it guarantees *)

Lemma decode32_encode s : String.length s = 32%nat -> decode32 (b64_encode s) = Ok s.
Proof. intros H. unfold decode32. rewrite b64_roundtrip. simpl. by rewrite H. Qed.

(** Keys exported to the key chain restore to the same keys and bundle. *)
Theorem keys_export_restore m m' ik spk signing keys :
  String.length ik = 32%nat -> String.length spk = 32%nat ->
  export_keys (generate_keys m ik spk signing).1 = Ok keys ->
  exists ik_b64 spk_b64, keys = [ik_b64; spk_b64] /\
    (restore_keys m' ik_b64 spk_b64).1 = with_keys m' ik spk /\
    (restore_keys m' ik_b64 spk_b64).2 = Ok (own_bundle ik spk "").
Proof.
  intros H1 H2. unfold export_keys. simpl. intros [= <-]. exists (b64_encode ik), (b64_encode spk).
  unfold restore_keys. rewrite !decode32_encode by done. done.
Qed.

(** A message in one conversation leaves the others alone. *)
Theorem message_is_local m did other text fresh :
  other <> did ->
  sessions (encrypt_message m did text fresh).1 !! other = sessions m !! other /\
  sessions (decrypt_message m did text fresh).1 !! other = sessions m !! other.
Proof.
  intros Hne. unfold encrypt_message, decrypt_message.
  destruct (sessions m !! did); [|done]. destruct (encrypt_with_nonce _ _ _), (decrypt _ _ _).
  simpl. by rewrite !lookup_insert_ne.
Qed.

(** ** Where it departs from what it means to do *)

(** Each side mixes the other's pre-key with its own identity key, so the two
    sides of one conversation derive different secrets, unless the hash
    collides or two unrelated exchanges coincide. *)
Theorem manager_secrets_differ ik_a spk_a ik_b spk_b :
  x25519_dh ik_a (x25519_public spk_b) <> x25519_dh ik_b (x25519_public spk_a) ->
  (forall x y z, sha256 (x +:+ y) = sha256 (x +:+ z) -> y = z) ->
  manager_secret ik_a (x25519_public ik_b) (x25519_public spk_b) <>
  manager_secret ik_b (x25519_public ik_a) (x25519_public spk_a).
Proof.
  intros Hne Hinj E. unfold manager_secret in E. rewrite (x25519_agree ik_a ik_b) in E. by apply Hinj in E.
Qed.

(** The number does not depend on the other side's key at all. *)
Lemma safety_number_ignores_their_key m did s :
  get_safety_number (put_session m did s) did = get_safety_number m did.
Proof. done. Qed.

(** The opening of a session is not recognised as encrypted. *)
Lemma manager_misses_openings text :
  starts_with ENC4_PREFIX text = true -> is_encrypted text = true /\ manager_is_encrypted text = false.
Proof.
  intros H. split; [unfold is_encrypted; by rewrite H, orb_true_r|]. apply starts_with_app in H as [r ->]. reflexivity.
Qed.
End Manager.

(** ** Runs *)

#[local] Existing Instance toy_primitives.
#[local] Existing Instance toy_base64.

Definition ana : FreeqE2ee := (generate_keys e2ee_new "ana-ik" "first spk" "ana-sign").1.
Definition ben : FreeqE2ee := (generate_keys e2ee_new "ben-ik" "second spk" "ben-sign").1.
Definition ana' : FreeqE2ee :=
  (establish_session ana "did:ben" (b64_encode (x25519_public "ben-ik")) (b64_encode (x25519_public "second spk")) "ana-1").1.
Definition ben' : FreeqE2ee :=
  (establish_session ben "did:ana" (b64_encode (x25519_public "ana-ik")) (b64_encode (x25519_public "first spk")) "ben-1").1.

(** Two users who established a session with each other cannot read each
    other's first message. *)
Example first_message_does_not_read :
  match encrypt_message ana' "did:ben" "hello" nonce0 with
  | (_, Ok wire) => (decrypt_message ben' "did:ana" wire "ben-2").2 = Err InvalidArgument
  | _ => False
  end.
Proof. vm_compute. reflexivity. Qed.

(** Nor do they see the same safety number. *)
Example safety_numbers_differ :
  get_safety_number ana' "did:ben" <> get_safety_number ben' "did:ana".
Proof. vm_compute. discriminate. Qed.

Lemma keys_export_restore_witness :
  exists a b, [b64_encode (pad 32 "ik"); b64_encode (pad 32 "spk")] = [a; b] /\
    (restore_keys ana a b).1 = with_keys ana (pad 32 "ik") (pad 32 "spk") /\
    (restore_keys ana a b).2 = Ok (own_bundle (pad 32 "ik") (pad 32 "spk") "").
Proof. apply (keys_export_restore e2ee_new ana (pad 32 "ik") (pad 32 "spk") "sign"); vm_compute; reflexivity. Defined.
