(* ===== verification/E2eeGroup.v ===== *)
(** * Encryption for channels and by identity

    Models the three other encryption schemes of the client library:
    [freeq-sdk/src/e2ee.rs] (a passphrase per channel, [ENC1]),
    [freeq-sdk/src/e2ee_did.rs] (keys from member names and from key exchange,
    [ENC2]) and [freeq-sdk/src/e2ee_group.rs] (a random secret per epoch, sealed
    to each member, [EG1] and [EGK1]). Random values are arguments. *)
From stdpp Require Import base strings list sets sorting pretty.
From Stdlib Require Import ZArith Lia Ascii String.
From S2P Require Import Prelude Text Primitives.
Open Scope string_scope.
Open Scope list_scope.
Open Scope Z_scope.

(** What the three [decrypt] functions do with decoded fields. *)
Definition open_text {P : Primitives} {E} (crypto utf8 : E) (key nonce ct : string) : result string E :=
  match aes_gcm_decrypt key nonce "" ct with
  | None => Err crypto
  | Some pt => if valid_utf8 pt then Ok pt else Err utf8
  end.

Lemma open_text_sealed {P : Primitives} {E} (crypto utf8 : E) key nonce text ct :
  aes_gcm_encrypt key nonce "" text = Some ct -> valid_utf8 text = true -> open_text crypto utf8 key nonce ct = Ok text.
Proof. intros He Hv. unfold open_text. by rewrite (aes_gcm_opens _ _ _ _ _ He), Hv. Qed.

(** ** A passphrase per channel *)

Module Enc1.
Section Enc1.
Context {P : Primitives} {B : Base64} {CF : CaseFold}.
Local Open Scope rust_scope.

Definition ENC_PREFIX : string := "ENC1:".
Inductive EncryptError := BadKey | EncryptFailed.
Inductive DecryptError := NotEncrypted | MalformedMessage | DBadKey | DecryptFailed | InvalidUtf8.

Definition derive_key (passphrase channel : string) : string :=
  hkdf_sha256 (sha256 (to_lowercase channel)) passphrase "freeq-e2ee-v1" 32.

Definition encrypt (key plaintext nonce : string) : result string EncryptError :=
  let? ct := ok_or (aes_gcm_encrypt key nonce "" plaintext) EncryptFailed in
  Ok (ENC_PREFIX +:+ b64_encode nonce +:+ ":" +:+ b64_encode ct).

Definition decrypt (key wire : string) : result string DecryptError :=
  let? body := ok_or (strip_prefix ENC_PREFIX wire) NotEncrypted in
  let? fields := ok_or (split_once ":" body) MalformedMessage in
  let? nonce := ok_or (b64_decode fields.1) MalformedMessage in
  let? ct := ok_or (b64_decode fields.2) MalformedMessage in
  if negb (Nat.eqb (String.length nonce) 12) then Err MalformedMessage
  else open_text DecryptFailed InvalidUtf8 key nonce ct.

Definition is_encrypted (text : string) : bool := starts_with ENC_PREFIX text.

(** What is encrypted under a passphrase reads under it, in whatever case the
    channel is written. *)
Theorem enc1_roundtrip passphrase channel channel' plaintext nonce wire :
  String.length nonce = 12%nat -> valid_utf8 plaintext = true -> to_lowercase channel = to_lowercase channel' ->
  encrypt (derive_key passphrase channel) plaintext nonce = Ok wire ->
  is_encrypted wire = true /\ decrypt (derive_key passphrase channel') wire = Ok plaintext.
Proof.
  intros Hn Hv Hc. unfold encrypt, derive_key. rewrite Hc.
  destruct (aes_gcm_encrypt _ _ _ _) as [ct|] eqn:E; [|done]. cbn [ok_or res_bind]. intros ->%Ok_inj.
  unfold is_encrypted, decrypt. split; [apply starts_with_app; by eexists|].
  rewrite strip_prefix_app. cbn [ok_or res_bind]. change (":" +:+ ?x) with (String ":" x).
  rewrite split_once_app by apply b64_no_colon. simpl. rewrite !b64_roundtrip. simpl. rewrite Hn. simpl.
  by apply open_text_sealed.
Qed.
End Enc1.
End Enc1.

(** ** Keys from identities *)

(** The key exchange of the crate k256: [None] for bytes that are no key. *)
Class Secp256k1 := {
  secp_public : string -> string;
  secp_dh : string -> string -> option string;
  secp_agree : forall a b, secp_dh a (secp_public b) = secp_dh b (secp_public a)
}.

Module Enc2.
Section Enc2.
Context {P : Primitives} {B : Base64} {CF : CaseFold} {K : Secp256k1}.
Local Open Scope rust_scope.

Definition ENC2_PREFIX : string := "ENC2:".
Inductive DecryptError :=
| NotEncrypted | NotDm | MalformedMessage | BadKey | EpochMismatch (expected got : Z) | DecryptFailed | InvalidUtf8.

Record GroupKey := mkGroupKey { gk_channel : string; gk_members : list string; gk_epoch : Z; gk_key : string }.

(** [sorted.dedup()] *)
Fixpoint dedup (l : list string) : list string :=
  match l with
  | x :: ((y :: _) as r) => if String.eqb x y then dedup r else x :: dedup r
  | _ => l
  end.
Definition sort_dedup (members : list string) : list string := dedup (merge_sort str_le members).

Definition derive (channel : string) (members : list string) (epoch : Z) : GroupKey :=
  let sorted := sort_dedup members in
  let ikm := str_join "" sorted in
  let salt := sha256 (to_lowercase channel) in
  mkGroupKey channel sorted epoch (hkdf_sha256 salt ikm ("freeq-e2ee-v2-" +:+ pretty epoch) 32).

Definition group_encrypt (g : GroupKey) (plaintext nonce : string) : result string Enc1.EncryptError :=
  let? ct := ok_or (aes_gcm_encrypt (gk_key g) nonce "" plaintext) Enc1.EncryptFailed in
  Ok (ENC2_PREFIX +:+ pretty (gk_epoch g) +:+ ":" +:+ b64_encode nonce +:+ ":" +:+ b64_encode ct).

Definition group_decrypt (g : GroupKey) (wire : string) : result string DecryptError :=
  let? body := ok_or (strip_prefix ENC2_PREFIX wire) NotEncrypted in
  match splitn 3 ":" body with
  | [e; n; c] =>
      let? epoch := ok_or (parse_u64 e) MalformedMessage in
      if negb (epoch =? gk_epoch g) then Err (EpochMismatch (gk_epoch g) epoch)
      else
        let? nonce := ok_or (b64_decode n) MalformedMessage in
        let? ct := ok_or (b64_decode c) MalformedMessage in
        if negb (Nat.eqb (String.length nonce) 12) then Err MalformedMessage
        else open_text DecryptFailed InvalidUtf8 (gk_key g) nonce ct
  | _ => Err MalformedMessage
  end.

Definition members_match (g : GroupKey) (members : list string) : bool :=
  bool_decide (gk_members g = sort_dedup members).

Record DmKey := mkDmKey { dm_dids : string * string; dm_key : string }.

Definition did_pair (my their : string) : string * string :=
  match String.compare my their with Lt => (my, their) | _ => (their, my) end.
Definition from_secp256k1 (my_did their_did my_private their_public : string) : result DmKey string :=
  let? shared := ok_or (secp_dh my_private their_public) "Invalid public key point" in
  let '(a, b) := did_pair my_did their_did in
  Ok (mkDmKey (a, b) (hkdf_sha256 (a +:+ ":" +:+ b) shared "freeq-dm-v1" 32)).

Definition dm_encrypt (k : DmKey) (plaintext nonce : string) : result string Enc1.EncryptError :=
  let? ct := ok_or (aes_gcm_encrypt (dm_key k) nonce "" plaintext) Enc1.EncryptFailed in
  Ok (ENC2_PREFIX +:+ "dm:" +:+ b64_encode nonce +:+ ":" +:+ b64_encode ct).

Definition dm_decrypt (k : DmKey) (wire : string) : result string DecryptError :=
  let? body := ok_or (strip_prefix ENC2_PREFIX wire) NotEncrypted in
  let? body := ok_or (strip_prefix "dm:" body) NotDm in
  let? fields := ok_or (split_once ":" body) MalformedMessage in
  let? nonce := ok_or (b64_decode fields.1) MalformedMessage in
  let? ct := ok_or (b64_decode fields.2) MalformedMessage in
  if negb (Nat.eqb (String.length nonce) 12) then Err MalformedMessage
  else open_text DecryptFailed InvalidUtf8 (dm_key k) nonce ct.

Definition is_encrypted (text : string) : bool := starts_with ENC2_PREFIX text.
Definition parse_epoch (wire : string) : option Z :=
  body ← strip_prefix ENC2_PREFIX wire;
  let e := default "" (head (str_split ":" body)) in
  if String.eqb e "dm" then None else parse_u64 e.

(** Sorting and removing repeats leaves the same names, each once, in order. *)
Lemma dedup_cons x y r : dedup (x :: y :: r) = if String.eqb x y then dedup (y :: r) else x :: dedup (y :: r).
Proof. done. Qed.

Lemma elem_of_dedup z l : z ∈ dedup l <-> z ∈ l.
Proof.
  induction l as [|x [|y r] IH]; [done|done|]. rewrite dedup_cons. destruct (String.eqb_spec x y) as [->|].
  - rewrite IH. set_solver.
  - rewrite elem_of_cons, IH. set_solver.
Qed.

Lemma str_le_antisym s t : str_le s t -> str_le t s -> s = t.
Proof.
  unfold str_le, String.leb. rewrite (String.compare_antisym s t). destruct (String.compare t s) eqn:E; try done.
  intros _ _. symmetry. by apply String.compare_eq_iff.
Qed.

Lemma dedup_strict l : StronglySorted str_le l -> StronglySorted (fun x y => str_le x y /\ x <> y) (dedup l).
Proof.
  induction l as [|x [|y r] IH]; intros Hs; [constructor|repeat constructor|]. rewrite dedup_cons.
  apply StronglySorted_inv in Hs as [Hs Hx]. specialize (IH Hs). destruct (String.eqb_spec x y) as [->|Hne]; [done|].
  constructor; [done|]. apply Forall_forall. intros z Hz. rewrite elem_of_dedup in Hz.
  rewrite Forall_forall in Hx. split; [by apply Hx|]. intros <-. apply StronglySorted_inv in Hs as [_ Hy].
  apply elem_of_cons in Hz as [|Hz]; [done|]. rewrite Forall_forall in Hy.
  apply Hne, str_le_antisym; [apply Hx; by left|by apply Hy].
Qed.

Lemma strict_sorted_ext (l k : list string) :
  StronglySorted (fun x y => str_le x y /\ x <> y) l -> StronglySorted (fun x y => str_le x y /\ x <> y) k ->
  (forall z, z ∈ l <-> z ∈ k) -> l = k.
Proof.
  revert k. induction l as [|x l IH]; intros k Hl Hk He.
  { destruct k as [|y k]; [done|]. exfalso. by apply (not_elem_of_nil y), He, elem_of_cons; left. }
  destruct k as [|y k]; [exfalso; by apply (not_elem_of_nil x), He, elem_of_cons; left|].
  apply StronglySorted_inv in Hl as [Hl Hx]. apply StronglySorted_inv in Hk as [Hk Hy].
  rewrite Forall_forall in Hx, Hy.
  assert (x = y) as <-.
  { pose proof (proj1 (He x) ltac:(by left)) as [->|Hxk]%elem_of_cons; [done|].
    pose proof (proj2 (He y) ltac:(by left)) as [->|Hyl]%elem_of_cons; [done|].
    apply str_le_antisym; [by apply Hx|by apply Hy]. }
  f_equal. apply IH; [done..|]. intros z. split; intros Hz.
  - pose proof (proj1 (He z) ltac:(by right)) as [->|]%elem_of_cons; [|done]. by destruct (Hx x Hz).
  - pose proof (proj2 (He z) ltac:(by right)) as [->|]%elem_of_cons; [|done]. by destruct (Hy x Hz).
Qed.

Lemma sort_dedup_elem z l : z ∈ sort_dedup l <-> z ∈ l.
Proof. unfold sort_dedup. rewrite elem_of_dedup. by rewrite merge_sort_Permutation. Qed.

Lemma sort_dedup_ext l k : sort_dedup l = sort_dedup k <-> forall z, z ∈ l <-> z ∈ k.
Proof.
  split; [intros E z; by rewrite <-(sort_dedup_elem z l), E, sort_dedup_elem|].
  intros He. apply strict_sorted_ext; [apply dedup_strict, StronglySorted_merge_sort; apply _..|].
  intros z. by rewrite !sort_dedup_elem.
Qed.

(** Members who know of the same set of names, in whatever order and however
    often they saw each, hold the same key; [members_match] says exactly when
    a key is for the present set. *)
Theorem group_key_is_of_the_set channel members members' epoch :
  ((forall z, z ∈ members <-> z ∈ members') -> derive channel members epoch = derive channel members' epoch) /\
  (members_match (derive channel members epoch) members' = true <-> forall z, z ∈ members <-> z ∈ members').
Proof.
  split.
  - intros H. unfold derive. by rewrite (proj2 (sort_dedup_ext members members') H).
  - unfold members_match, derive. simpl. rewrite bool_decide_eq_true. apply sort_dedup_ext.
Qed.

Theorem enc2_roundtrip g plaintext nonce wire :
  String.length nonce = 12%nat -> valid_utf8 plaintext = true -> 0 <= gk_epoch g < 2 ^ 64 ->
  group_encrypt g plaintext nonce = Ok wire ->
  group_decrypt g wire = Ok plaintext /\ parse_epoch wire = Some (gk_epoch g).
Proof.
  intros Hn Hv He. destruct (pretty_Z_digits (gk_epoch g) ltac:(lia)) as (Hd & _). unfold group_encrypt.
  destruct (aes_gcm_encrypt _ _ _ _) as [ct|] eqn:E; [|done]. cbn [ok_or res_bind]. intros ->%Ok_inj.
  assert (Hnc : str_contains ":" (pretty (gk_epoch g)) = false) by by apply digits_no.
  unfold group_decrypt, parse_epoch. repeat change (":" +:+ ?x) with (String ":" x).
  rewrite strip_prefix_app. cbn [ok_or res_bind]. rewrite !splitn_cons by (done || apply b64_no_colon). simpl splitn. cbv iota.
  rewrite parse_u64_pretty by done. simpl. rewrite Z.eqb_refl. simpl. rewrite !b64_roundtrip. simpl. rewrite Hn. simpl.
  split; [by apply open_text_sealed|]. rewrite str_split_app by done. simpl.
  destruct (String.eqb_spec (pretty (gk_epoch g)) "dm") as [Hdm|]; [by rewrite Hdm in Hd|]. by apply parse_u64_pretty.
Qed.

Lemma did_pair_comm a b : did_pair a b = did_pair b a.
Proof.
  unfold did_pair. rewrite (String.compare_antisym b a). destruct (String.compare a b) eqn:E; simpl; try done.
  apply String.compare_eq_iff in E. by subst.
Qed.

(** Both sides of a direct message derive one key, and each reads the other. *)
Theorem dm_roundtrip did_a did_b a b ka plaintext nonce wire :
  String.length nonce = 12%nat -> valid_utf8 plaintext = true ->
  from_secp256k1 did_a did_b a (secp_public b) = Ok ka -> dm_encrypt ka plaintext nonce = Ok wire ->
  exists kb, from_secp256k1 did_b did_a b (secp_public a) = Ok kb /\ dm_decrypt kb wire = Ok plaintext.
Proof.
  intros Hn Hv Hka He. exists ka. split.
  - rewrite <-Hka. unfold from_secp256k1. by rewrite secp_agree, did_pair_comm.
  - revert He. unfold dm_encrypt, dm_decrypt. destruct (aes_gcm_encrypt _ _ _ _) as [ct|] eqn:E; [|done].
    cbn [ok_or res_bind]. intros ->%Ok_inj. rewrite strip_prefix_app. cbn [ok_or res_bind]. rewrite strip_prefix_app. cbn [ok_or res_bind].
    change (":" +:+ ?x) with (String ":" x). rewrite split_once_app by apply b64_no_colon. simpl.
    rewrite !b64_roundtrip. simpl. rewrite Hn. simpl. by apply open_text_sealed.
Qed.
End Enc2.
End Enc2.

(** ** A secret per epoch, sealed to each member *)

Module Eg1.
Section Eg1.
Context {P : Primitives} {B : Base64} {CF : CaseFold}.
Local Open Scope rust_scope.

Definition EG1_PREFIX : string := "EG1:".
Definition EGK1_PREFIX : string := "EGK1:".
Inductive GroupError := NotEg1 | NotEgk1 | Malformed | BadKey | EpochMismatch (have got : Z) | Crypto | Utf8.

Record GroupState := mkGroup { channel : string; epoch : Z; secret : string }.

Definition create (chan fresh : string) : GroupState := mkGroup (to_lowercase chan) 1 fresh.
Definition rotate (g : GroupState) (fresh : string) : GroupState := mkGroup (channel g) (wrap 64 (epoch g + 1)) fresh.

Definition message_key (g : GroupState) : string :=
  hkdf_sha256 (sha256 (channel g)) (secret g) ("freeq-group-msg-v1-" +:+ pretty (epoch g)) 32.

Definition encrypt (g : GroupState) (plaintext nonce : string) : result string GroupError :=
  let? ct := ok_or (aes_gcm_encrypt (message_key g) nonce "" plaintext) Crypto in
  Ok (EG1_PREFIX +:+ pretty (epoch g) +:+ ":" +:+ b64_encode nonce +:+ ":" +:+ b64_encode ct).

Definition decrypt (g : GroupState) (wire : string) : result string GroupError :=
  let? body := ok_or (strip_prefix EG1_PREFIX wire) NotEg1 in
  match splitn 3 ":" body with
  | [e; n; c] =>
      let? got := ok_or (parse_u64 e) Malformed in
      if negb (got =? epoch g) then Err (EpochMismatch (epoch g) got)
      else
        let? nonce := ok_or (b64_decode n) Malformed in
        let? ct := ok_or (b64_decode c) Malformed in
        if negb (Nat.eqb (String.length nonce) 12) then Err Malformed
        else open_text Crypto Utf8 (message_key g) nonce ct
  | _ => Err Malformed
  end.

Record SealedGroupKey := mkSealed { sk_channel : string; sk_epoch : Z; ephemeral_pub : string; sk_nonce : string; ciphertext : string }.

Definition wrap_key (shared chan : string) (e : Z) : string :=
  hkdf_sha256 (sha256 (to_lowercase chan)) shared ("freeq-group-keywrap-v1-" +:+ pretty e) 32.

(** Sealing 32 bytes does not fail in the code ([expect]); here the failure is
    [None]. *)
Definition seal_for (g : GroupState) (member_pub eph_secret nonce : string) : option SealedGroupKey :=
  let shared := x25519_dh eph_secret member_pub in
  ct ← aes_gcm_encrypt (wrap_key shared (channel g) (epoch g)) nonce "" (secret g);
  Some (mkSealed (channel g) (epoch g) (x25519_public eph_secret) nonce ct).

Definition open (s : SealedGroupKey) (my_secret : string) : result GroupState GroupError :=
  let shared := x25519_dh my_secret (ephemeral_pub s) in
  let? pt := ok_or (aes_gcm_decrypt (wrap_key shared (sk_channel s) (sk_epoch s)) (sk_nonce s) "" (ciphertext s)) Crypto in
  if Nat.eqb (String.length pt) 32 then Ok (mkGroup (sk_channel s) (sk_epoch s) pt) else Err Malformed.

Definition to_wire (s : SealedGroupKey) : string :=
  EGK1_PREFIX +:+ sk_channel s +:+ ":" +:+ pretty (sk_epoch s) +:+ ":" +:+ b64_encode (ephemeral_pub s) +:+ ":" +:+
  b64_encode (sk_nonce s) +:+ ":" +:+ b64_encode (ciphertext s).

(** [seal_batch]: every member with the key sealed to them; each seal draws its
    own ephemeral secret and nonce. *)
Definition seal_batch (g : GroupState) (members : list (string * string)) (draws : list (string * string))
    : option (list (string * string)) :=
  mapM (fun '((did, pk), (eph_secret, nonce)) => s ← seal_for g pk eph_secret nonce; Some (did, to_wire s)) (zip members draws).

(** [B64.decode(..)?.try_into()?] into [n] bytes. *)
Definition array_field (n : nat) (f : string) : result string GroupError :=
  let? bytes := ok_or (b64_decode f) Malformed in
  if Nat.eqb (String.length bytes) n then Ok bytes else Err Malformed.

Definition from_wire (wire : string) : result SealedGroupKey GroupError :=
  let? body := ok_or (strip_prefix EGK1_PREFIX wire) NotEgk1 in
  match splitn 5 ":" body with
  | [c; e; p; n; ct] =>
      let? ep := ok_or (parse_u64 e) Malformed in
      let? pub := array_field 32 p in
      let? nonce := array_field 12 n in
      let? bytes := ok_or (b64_decode ct) Malformed in
      Ok (mkSealed c ep pub nonce bytes)
  | _ => Err Malformed
  end.

(** [sort_by_key(|c| Reverse(c.0))]: newest first, and stable. *)
Fixpoint insert_newest (x : Z * string) (l : list (Z * string)) : list (Z * string) :=
  match l with
  | [] => [x]
  | y :: r => if y.1 <=? x.1 then x :: l else y :: insert_newest x r
  end.
Definition newest_first (l : list (Z * string)) : list (Z * string) := foldr insert_newest [] l.

Definition open_wire (my_secret wire : string) : option GroupState :=
  match from_wire wire with
  | Ok sealed => match open sealed my_secret with Ok g => Some g | Err _ => None end
  | Err _ => None
  end.
Fixpoint first_open (my_secret : string) (l : list (Z * string)) : result GroupState GroupError :=
  match l with
  | [] => Err Crypto
  | (_, wire) :: r => match open_wire my_secret wire with Some g => Ok g | None => first_open my_secret r end
  end.
Definition open_best (candidates : list (Z * string)) (my_secret : string) : result GroupState GroupError :=
  first_open my_secret (newest_first candidates).

Definition is_group_encrypted (text : string) : bool := starts_with EG1_PREFIX text.
Definition parse_epoch (wire : string) : option Z :=
  body ← strip_prefix EG1_PREFIX wire; parse_u64 (default "" (head (str_split ":" body))).

(** A state as a steward makes it: no colon in the channel's name. *)
Definition group_ok (g : GroupState) : Prop :=
  str_contains ":" (channel g) = false /\ 0 <= epoch g < 2 ^ 64 /\ String.length (secret g) = 32%nat.

Lemma from_to_wire s :
  str_contains ":" (sk_channel s) = false -> 0 <= sk_epoch s < 2 ^ 64 -> String.length (ephemeral_pub s) = 32%nat ->
  String.length (sk_nonce s) = 12%nat -> from_wire (to_wire s) = Ok s.
Proof.
  intros Hc He Hp Hn. destruct (pretty_Z_digits (sk_epoch s) ltac:(lia)) as (Hd & _).
  assert (Hnc : str_contains ":" (pretty (sk_epoch s)) = false) by by apply digits_no.
  unfold from_wire, to_wire. repeat change (":" +:+ ?x) with (String ":" x).
  rewrite strip_prefix_app. cbn [ok_or res_bind]. rewrite !splitn_cons by (done || apply b64_no_colon).
  cbn [splitn]. rewrite parse_u64_pretty by done. cbn [ok_or res_bind]. unfold array_field. rewrite !b64_roundtrip.
  cbn [ok_or res_bind]. rewrite Hp, Hn. by destruct s.
Qed.

Lemma open_sealed g member eph nonce s :
  String.length (secret g) = 32%nat -> seal_for g (x25519_public member) eph nonce = Some s -> open s member = Ok g.
Proof.
  intros Hl. unfold seal_for, open. destruct (aes_gcm_encrypt _ _ _ _) as [ct|] eqn:E; [|done].
  simpl. intros [= <-]. simpl. rewrite x25519_agree, (aes_gcm_opens _ _ _ _ _ E). simpl. rewrite Hl. by destruct g.
Qed.

Lemma open_sealed_wire g member eph nonce s :
  group_ok g -> String.length nonce = 12%nat -> seal_for g (x25519_public member) eph nonce = Some s ->
  open_wire member (to_wire s) = Some g.
Proof.
  intros (Hc & He & Hl) Hn Hs. pose proof (open_sealed _ _ _ _ _ Hl Hs) as Ho. revert Hs. unfold seal_for, open_wire.
  destruct (aes_gcm_encrypt _ _ _ _) as [ct|] eqn:E; [|done]. simpl. intros [= <-].
  rewrite from_to_wire by (done || apply x25519_public_length). by rewrite Ho.
Qed.

(** Every member of a batch opens their own seal to the steward's state. *)
Lemma batch_opens g members draws out :
  group_ok g -> Forall (fun d => String.length d.2 = 12%nat) draws ->
  seal_batch g (map (fun m => (m.1, x25519_public m.2)) members) draws = Some out ->
  Forall2 (fun m o => o.1 = m.1 /\ open_wire m.2 o.2 = Some g) (zip_with (fun m _ => m) members draws) out.
Proof.
  intros Hg Hd. unfold seal_batch. revert draws out Hd.
  induction members as [|[did sec] ms IH]; intros [|[eph nonce] ds] out Hd; simpl; intros H; simplify_option_eq; try by constructor.
  apply Forall_cons in Hd as [Hn Hd]. constructor; [|by apply IH].
  split; [done|]. simpl. by eapply open_sealed_wire.
Qed.

(** A key sealed to a member, sent over the wire and opened is the steward's
    state, and the member reads what is sent under it. *)
Theorem sealed_key_roundtrip g member eph nonce sealed plaintext nonce' wire :
  group_ok g -> String.length nonce = 12%nat -> String.length nonce' = 12%nat -> valid_utf8 plaintext = true ->
  seal_for g (x25519_public member) eph nonce = Some sealed -> encrypt g plaintext nonce' = Ok wire ->
  open_wire member (to_wire sealed) = Some g /\ decrypt g wire = Ok plaintext /\ parse_epoch wire = Some (epoch g).
Proof.
  intros Hg Hn Hn' Hv Hs Hw. split; [by apply (open_sealed_wire g member eph nonce)|]. destruct Hg as (Hc & He & Hl).
  clear Hs. revert Hw. unfold encrypt. destruct (pretty_Z_digits (epoch g) ltac:(lia)) as (Hd & _).
    assert (Hnc : str_contains ":" (pretty (epoch g)) = false) by by apply digits_no.
    destruct (aes_gcm_encrypt _ _ _ _) as [ct|] eqn:E; [|done]. cbn [ok_or res_bind]. intros ->%Ok_inj.
    unfold decrypt, parse_epoch. repeat change (":" +:+ ?x) with (String ":" x).
    rewrite strip_prefix_app. cbn [ok_or res_bind]. rewrite !splitn_cons by (done || apply b64_no_colon). cbn [splitn].
    rewrite parse_u64_pretty by done. simpl. rewrite Z.eqb_refl. simpl. rewrite !b64_roundtrip. simpl. rewrite Hn'. simpl.
    split; [by apply open_text_sealed|]. rewrite str_split_app by done. simpl. by apply parse_u64_pretty.
Qed.

(** After a rotation the old state reads nothing sent under the new one: it is
    told which epoch it lacks. *)
Theorem rotation_locks_out g fresh plaintext nonce wire :
  0 <= epoch g -> epoch g + 1 < 2 ^ 64 -> encrypt (rotate g fresh) plaintext nonce = Ok wire ->
  decrypt g wire = Err (EpochMismatch (epoch g) (epoch g + 1)).
Proof.
  intros H0 H1. unfold encrypt, rotate, wrap. rewrite Z.mod_small by lia. cbn [epoch].
  destruct (pretty_Z_digits (epoch g + 1) ltac:(lia)) as (Hd & _).
  assert (Hnc : str_contains ":" (pretty (epoch g + 1)) = false) by by apply digits_no.
  destruct (aes_gcm_encrypt _ _ _ _) as [ct|]; [|done]. cbn [ok_or res_bind]. intros ->%Ok_inj.
  unfold decrypt. repeat change (":" +:+ ?x) with (String ":" x).
  rewrite strip_prefix_app. cbn [ok_or res_bind]. rewrite !splitn_cons by (done || apply b64_no_colon). cbn [splitn].
  rewrite parse_u64_pretty by lia. simpl. destruct (Z.eqb_spec (epoch g + 1) (epoch g)); [lia|done].
Qed.

(** *** The newest key that opens *)

Lemma insert_newest_perm x l : insert_newest x l ≡ₚ x :: l.
Proof. induction l as [|y l IH]; simpl; [done|]. case_match; [done|]. rewrite IH. apply Permutation_swap. Qed.
Lemma newest_first_perm l : newest_first l ≡ₚ l.
Proof. induction l as [|x l IH]; simpl; [done|]. by rewrite insert_newest_perm, IH. Qed.

Lemma insert_newest_sorted x l :
  StronglySorted (fun a b => b.1 <= a.1) l -> StronglySorted (fun a b => b.1 <= a.1) (insert_newest x l).
Proof.
  induction l as [|y l IH]; intros Hs; simpl; [repeat constructor|]. apply StronglySorted_inv in Hs as [Hs Hy].
  destruct (Z.leb_spec y.1 x.1).
  - constructor; [by constructor|]. constructor; [done|]. eapply Forall_impl; [exact Hy|]. simpl. lia.
  - constructor; [by apply IH|]. rewrite insert_newest_perm. constructor; [lia|done].
Qed.
Lemma newest_first_sorted l : StronglySorted (fun a b => b.1 <= a.1) (newest_first l).
Proof. induction l; simpl; [constructor|by apply insert_newest_sorted]. Qed.

Lemma first_open_spec my l :
  StronglySorted (fun a b => b.1 <= a.1) l ->
  match first_open my l with
  | Ok g => exists c, c ∈ l /\ open_wire my c.2 = Some g /\ forall c', c' ∈ l -> c.1 < c'.1 -> open_wire my c'.2 = None
  | Err e => e = Crypto /\ forall c, c ∈ l -> open_wire my c.2 = None
  end.
Proof.
  induction l as [|[e w] l IH]; intros Hs; simpl; [split; [done|]; by intros c Hc%elem_of_nil|].
  apply StronglySorted_inv in Hs as [Hs He]. rewrite Forall_forall in He. destruct (open_wire my w) as [g|] eqn:Ew.
  - exists (e, w). split_and!; [by left|done|]. intros c' [->|Hc]%elem_of_cons; simpl; [lia|]. apply He in Hc. simpl in Hc. lia.
  - specialize (IH Hs). destruct (first_open my l) as [g|err].
    + destruct IH as (c & Hc & Ho & Hn). exists c. split_and!; [by right|done|].
      intros c' [->|Hc']%elem_of_cons; [done|]. by apply Hn.
    + destruct IH as [-> Hn]. split; [done|]. intros c [->|Hc]%elem_of_cons; [done|]. by apply Hn.
Qed.

(** Of the keys on offer, the one taken opens and none announced under a later
    epoch does; with no key that opens there is an error. *)
Theorem open_best_takes_newest my candidates :
  match open_best candidates my with
  | Ok g => exists c, c ∈ candidates /\ open_wire my c.2 = Some g /\
      forall c', c' ∈ candidates -> c.1 < c'.1 -> open_wire my c'.2 = None
  | Err e => e = Crypto /\ forall c, c ∈ candidates -> open_wire my c.2 = None
  end.
Proof.
  unfold open_best. pose proof (first_open_spec my _ (newest_first_sorted candidates)) as H.
  destruct (first_open _ _) as [g|e]; setoid_rewrite newest_first_perm in H; done.
Qed.
End Eg1.
End Eg1.

(** ** Runs *)

#[local] Existing Instance toy_primitives.
#[local] Existing Instance toy_base64.
#[local] Existing Instance ascii_fold.

Definition toy_secp : Secp256k1 := {|
  secp_public := pad 32; secp_dh := fun a p => Some (mix a p); secp_agree := fun a b => f_equal Some (toy_agree a b)
|}.

Definition group1 : Eg1.GroupState := Eg1.create "#Team" (pad 32 "one").
Definition group2 : Eg1.GroupState := Eg1.rotate group1 (pad 32 "two").
Definition sealed_to (g : Eg1.GroupState) : string :=
  default "" (Eg1.to_wire <$> Eg1.seal_for g (x25519_public "member") "eph" "nonce-nonce0").

(** The epoch a relay announces a key under decides, not the epoch the key was
    sealed for: an old key announced as the newest is taken. *)
Example announced_epoch_rolls_back :
  Eg1.open_best [(1, sealed_to group1); (2, sealed_to group2)] "member" = Ok group2 /\
  Eg1.open_best [(3, sealed_to group1); (2, sealed_to group2)] "member" = Ok group1.
Proof. vm_compute. split; reflexivity. Qed.

(** A sealed key opens under a channel name in another case, but the state it
    opens to keeps that case and reads nothing sent to the channel. *)
Example respelled_channel_opens_to_nothing :
  match Eg1.seal_for group1 (x25519_public "member") "eph" "nonce-nonce0", Eg1.encrypt group1 "hi" "nonce-nonce0" with
  | Some s, Ok wire =>
      match Eg1.open (Eg1.mkSealed "#TEAM" (Eg1.sk_epoch s) (Eg1.ephemeral_pub s) (Eg1.sk_nonce s) (Eg1.ciphertext s)) "member" with
      | Ok g => Eg1.decrypt g wire = Err Eg1.Crypto /\ Eg1.decrypt group1 wire = Ok "hi"
      | Err _ => False
      end
  | _, _ => False
  end.
Proof. vm_compute. split; reflexivity. Qed.

(** The names of the members are all a reader needs for the older scheme. *)
Example group_key_from_names :
  match Enc2.group_encrypt (Enc2.derive "#team" ["did:b"; "did:a"] 1) "hi" "nonce-nonce0" with
  | Ok wire => Enc2.group_decrypt (Enc2.derive "#TEAM" ["did:a"; "did:b"; "did:a"] 1) wire = Ok "hi"
  | Err _ => False
  end.
Proof. vm_compute. reflexivity. Qed.

Lemma sealed_key_roundtrip_witness :
  Eg1.open_wire "member" (sealed_to group1) = Some group1.
Proof.
  assert (Hs : exists s, Eg1.seal_for group1 (x25519_public "member") "eph" "nonce-nonce0" = Some s /\ Eg1.to_wire s = sealed_to group1)
    by (eexists; split; [reflexivity|vm_compute; reflexivity]).
  destruct Hs as (s & Hs & <-).
  refine (proj1 (Eg1.sealed_key_roundtrip group1 "member" "eph" "nonce-nonce0" s "hi" "nonce-nonce0"
    (match Eg1.encrypt group1 "hi" "nonce-nonce0" with Ok w => w | Err _ => "" end) _ _ _ _ Hs _)).
  - split; [reflexivity|split; [split; [discriminate|reflexivity]|reflexivity]].
  - reflexivity.
  - reflexivity.
  - reflexivity.
  - reflexivity.
Defined.
