(* ===== verification/Ssrf.v ===== *)
(** * The address filter

    Models [freeq-ssrf/src/lib.rs]: which addresses and host names outbound
    requests to user-supplied URLs may not reach, and the check of a name
    before it is fetched. An address is its octets or its sixteen-bit segments;
    [IpAddr]'s parser and predicates are those of the standard library. The
    resolver is an argument. *)
From stdpp Require Import base strings list.
From Stdlib Require Import ZArith Lia Ascii String.
From S2P Require Import Prelude Text.
Open Scope string_scope.
Open Scope list_scope.
Open Scope Z_scope.

(** ** Addresses *)

Inductive IpAddr := V4 (a b c d : Z) | V6 (s0 s1 s2 s3 s4 s5 s6 s7 : Z).
#[export] Instance ip_eq_dec : EqDecision IpAddr.
Proof. solve_decision. Defined.
Definition SocketAddr : Type := IpAddr * Z.

Definition v4_is_loopback (a b c d : Z) : bool := a =? 127.
Definition v4_is_private (a b c d : Z) : bool :=
  (a =? 10) || ((a =? 172) && (16 <=? b) && (b <=? 31)) || ((a =? 192) && (b =? 168)).
Definition v4_is_link_local (a b c d : Z) : bool := (a =? 169) && (b =? 254).
Definition v4_is_broadcast (a b c d : Z) : bool := (a =? 255) && (b =? 255) && (c =? 255) && (d =? 255).
Definition v4_is_unspecified (a b c d : Z) : bool := (a =? 0) && (b =? 0) && (c =? 0) && (d =? 0).

Definition is_private_v4 (a b c d : Z) : bool :=
  v4_is_loopback a b c d || v4_is_private a b c d || v4_is_link_local a b c d || v4_is_broadcast a b c d
  || v4_is_unspecified a b c d
  || ((a =? 100) && (Z.land b 192 =? 64))
  || ((a =? 192) && (b =? 0) && (c =? 2))
  || ((a =? 198) && (b =? 51) && (c =? 100))
  || ((a =? 203) && (b =? 0) && (c =? 113)).

Definition is_private_v6 (s0 s1 s2 s3 s4 s5 s6 s7 : Z) : bool :=
  let zeros := (s0 =? 0) && (s1 =? 0) && (s2 =? 0) && (s3 =? 0) && (s4 =? 0) in
  (zeros && (s5 =? 0) && (s6 =? 0) && (s7 =? 1))
  || (zeros && (s5 =? 0) && (s6 =? 0) && (s7 =? 0))
  || (Z.land s0 65024 =? 64512)
  || (Z.land s0 65472 =? 65152)
  || (zeros && (s5 =? 65535) && is_private_v4 (Z.shiftr s6 8) (Z.land s6 255) (Z.shiftr s7 8) (Z.land s7 255)).

Definition is_private_ip (ip : IpAddr) : bool :=
  match ip with
  | V4 a b c d => is_private_v4 a b c d
  | V6 s0 s1 s2 s3 s4 s5 s6 s7 => is_private_v6 s0 s1 s2 s3 s4 s5 s6 s7
  end.

(** ** The standard library's address parser *)

(** [char::to_digit(radix)] for radix 10 and 16. *)
Definition to_digit (radix : Z) (c : ascii) : option Z :=
  let v := if is_ascii_digit c then byte c - 48
           else if in_bytes 97 102 c then byte c - 87 else if in_bytes 65 70 c then byte c - 55 else radix in
  if v <? radix then Some v else None.

(** Digits from the front: their value, how many, and the rest; [None] past the
    limit on digits or on the value. *)
Fixpoint read_digits (radix max bound : Z) (acc count : Z) (s : string) : option (Z * Z * string) :=
  match s with
  | String c r =>
      match to_digit radix c with
      | Some v =>
          let acc' := acc * radix + v in
          if (bound <? acc') || (max <? count + 1) then None else read_digits radix max bound acc' (count + 1) r
      | None => Some (acc, count, s)
      end
  | EmptyString => Some (acc, count, s)
  end.
Definition read_number (radix max bound : Z) (allow_zero_prefix : bool) (s : string) : option (Z * string) :=
  '(v, count, rest) ← read_digits radix max bound 0 0 s;
  if (count =? 0) || (negb allow_zero_prefix && starts_with_char "0" s && (1 <? count)) then None else Some (v, rest).

Definition read_char (c : ascii) (s : string) : option string :=
  match s with String d r => if Ascii.eqb c d then Some r else None | EmptyString => None end.
(** [read_separator(sep, index, inner)] *)
Definition read_sep {A} (sep : ascii) (first : bool) (p : string -> option (A * string)) (s : string) : option (A * string) :=
  if first then p s else read_char sep s ≫= p.

Definition read_octet : string -> option (Z * string) := read_number 10 3 255 false.
Definition read_ipv4 (s : string) : option (Z * Z * Z * Z * string) :=
  '(a, s) ← read_octet s;
  '(b, s) ← read_sep "." false read_octet s;
  '(c, s) ← read_sep "." false read_octet s;
  '(d, s) ← read_sep "." false read_octet s;
  Some (a, b, c, d, s).

(** [read_groups]: up to [n] more groups; whether they end in an embedded
    dotted address. *)
Fixpoint read_groups (n : nat) (first : bool) (s : string) : list Z * bool * string :=
  match n with
  | O => ([], false, s)
  | S n' =>
      let v4 := match n' with
                | O => None
                | S _ => read_sep ":" first (fun s => '(a, b, c, d, r) ← read_ipv4 s; Some ([a * 256 + b; c * 256 + d], r)) s
                end in
      match v4 with
      | Some (gs, r) => (gs, true, r)
      | None =>
          match read_sep ":" first (read_number 16 4 65535 true) s with
          | Some (g, r) => let '(gs, v4, r) := read_groups n' false r in (g :: gs, v4, r)
          | None => ([], false, s)
          end
      end
  end.

Definition v6_of (l : list Z) : option IpAddr :=
  match l with [s0; s1; s2; s3; s4; s5; s6; s7] => Some (V6 s0 s1 s2 s3 s4 s5 s6 s7) | _ => None end.
Definition read_ipv6 (s : string) : option (IpAddr * string) :=
  let '(head, head_v4, r) := read_groups 8 true s in
  if Nat.eqb (List.length head) 8 then ip ← v6_of head; Some (ip, r)
  else if head_v4 then None
  else
    r ← read_char ":" r;
    r ← read_char ":" r;
    let '(tail, _, r) := read_groups (8 - (List.length head + 1)) true r in
    ip ← v6_of (head ++ repeat 0 (8 - List.length head - List.length tail) ++ tail);
    Some (ip, r).

(** [host.parse::<IpAddr>().ok()] *)
Definition parse_ip (s : string) : option IpAddr :=
  match read_ipv4 s with
  | Some (a, b, c, d, r) => if is_empty r then Some (V4 a b c d) else None
  | None => match read_ipv6 s with
            | Some (ip, r) => if is_empty r then Some ip else None
            | None => None
            end
  end.

(** ** Host names *)

(** [h.strip_suffix('.').unwrap_or(&h)] *)
Fixpoint strip_last_dot (s : string) : string :=
  match s with
  | EmptyString => ""
  | String c EmptyString => if Ascii.eqb c "." then "" else s
  | String c r => String c (strip_last_dot r)
  end.

Section Hosts.
Context {CF : CaseFold}.

Definition is_private_hostname (host : string) : bool :=
  let h := strip_last_dot (to_lowercase host) in
  String.eqb h "localhost" || ends_with ".local" h || ends_with ".internal" h || ends_with ".localhost" h
  || String.eqb h "[::1]".

Inductive SsrfError := PrivateHost (host : string) | PrivateIp (ip : IpAddr) | DnsError (why : string).

(** The first private address of a list. *)
Definition first_private (addrs : list SocketAddr) : option IpAddr :=
  fst <$> head (List.filter (fun a => is_private_ip a.1) addrs).

(** [lookup] is the system resolver. *)
Definition resolve_and_check (lookup : string -> Z -> result (list SocketAddr) string) (host : string) (port : Z)
    : result (list SocketAddr) SsrfError :=
  if is_private_hostname host then Err (PrivateHost host)
  else match parse_ip host with
       | Some ip => if is_private_ip ip then Err (PrivateIp ip) else Ok [(ip, port)]
       | None =>
           match lookup host port with
           | Err e => Err (DnsError e)
           | Ok [] => Err (DnsError "No addresses resolved")
           | Ok addrs => match first_private addrs with
                         | Some ip => Err (PrivateIp ip)
                         | None => Ok addrs
                         end
           end
       end.

(** [pinned_client] tells the HTTP client where each name is: the address last
    given for it, and for other names whatever the client resolves. *)
Definition pin (host : string) (addrs : list SocketAddr) : list (string * SocketAddr) := map (fun a => (host, a)) addrs.
End Hosts.

(** ** The reference: address blocks *)

Definition v4_number (a b c d : Z) : Z := ((a * 256 + b) * 256 + c) * 256 + d.
Definition v6_number (s0 s1 s2 s3 s4 s5 s6 s7 : Z) : Z :=
  fold_left (fun acc s => acc * 65536 + s) [s0; s1; s2; s3; s4; s5; s6; s7] 0.
(** [base/len] of [width]-bit addresses. *)
Definition in_block (width : Z) (base len addr : Z) : bool :=
  Z.shiftr addr (width - len) =? Z.shiftr base (width - len).

Definition private_v4_blocks : list (Z * Z) :=
  [(v4_number 127 0 0 0, 8); (v4_number 10 0 0 0, 8); (v4_number 172 16 0 0, 12); (v4_number 192 168 0 0, 16);
   (v4_number 169 254 0 0, 16); (v4_number 255 255 255 255, 32); (v4_number 0 0 0 0, 32); (v4_number 100 64 0 0, 10);
   (v4_number 192 0 2 0, 24); (v4_number 198 51 100 0, 24); (v4_number 203 0 113 0, 24)].
Definition in_blocks (width : Z) (blocks : list (Z * Z)) (addr : Z) : bool :=
  existsb (fun b => in_block width b.1 b.2 addr) blocks.

Definition octet (z : Z) : Prop := 0 <= z < 256.
Definition segment (z : Z) : Prop := 0 <= z < 65536.

(** The leading octets are the address shifted. *)
Lemma v4_shift a b c d :
  octet a -> octet b -> octet c -> octet d ->
  let n := v4_number a b c d in
  Z.shiftr n 0 = n /\ Z.shiftr n 8 = (a * 256 + b) * 256 + c /\ Z.shiftr n 16 = a * 256 + b /\ Z.shiftr n 24 = a /\
  Z.shiftr n 20 = a * 16 + b / 16 /\ Z.shiftr n 22 = a * 4 + b / 64.
Proof.
  unfold octet, v4_number. intros Ha Hb Hc Hd. cbv zeta. rewrite !Z.shiftr_div_pow2 by lia.
  change (2 ^ 0) with 1. change (2 ^ 8) with 256. change (2 ^ 16) with 65536. change (2 ^ 24) with 16777216.
  change (2 ^ 20) with 1048576. change (2 ^ 22) with 4194304.
  split_and!; Z.to_euclidean_division_equations; lia.
Qed.

Definition octets : list Z := map Z.of_nat (seq 0 256).
Lemma octet_in z : octet z -> In z octets.
Proof. unfold octet, octets. intros H. apply in_map_iff. exists (Z.to_nat z). rewrite in_seq. lia. Qed.

(** A fact about every octet, by evaluation. *)
Lemma octet_forall (f : Z -> bool) : forallb f octets = true -> forall z, octet z -> f z = true.
Proof. intros H z Hz. exact (proj1 (List.forallb_forall f octets) H z (octet_in z Hz)). Qed.

Lemma cgnat_octet b : octet b -> (Z.land b 192 =? 64) = (b / 64 =? 1).
Proof. intros H. apply eqb_prop. by apply (octet_forall (fun b => Bool.eqb (Z.land b 192 =? 64) (b / 64 =? 1))). Qed.

Lemma private12_octet b : octet b -> (16 <=? b) && (b <=? 31) = (b / 16 =? 1).
Proof. intros H. apply eqb_prop. by apply (octet_forall (fun b => Bool.eqb ((16 <=? b) && (b <=? 31)) (b / 16 =? 1))). Qed.

(** Comparing positional numbers digit by digit. *)
Lemma digits_eqb k a x A X :
  0 <= x < k -> 0 <= X < k -> (a * k + x =? A * k + X) = (a =? A) && (x =? X).
Proof.
  intros Hx HX. destruct (Z.eqb_spec a A) as [->|Hne]; simpl.
  - destruct (Z.eqb_spec x X), (Z.eqb_spec (A * k + x) (A * k + X)); lia || done.
  - destruct (Z.eqb_spec (a * k + x) (A * k + X)); [exfalso; nia|done].
Qed.

(** The octet tests of the code are membership in the blocks of its comments. *)
Lemma private_v4_in_blocks a b c d :
  octet a -> octet b -> octet c -> octet d ->
  is_private_v4 a b c d = in_blocks 32 private_v4_blocks (v4_number a b c d).
Proof.
  intros Ha Hb Hc Hd. destruct (v4_shift a b c d Ha Hb Hc Hd) as (H0 & H8 & H16 & H24 & H20 & H22).
  unfold in_blocks, private_v4_blocks, in_block. cbn [existsb fst snd].
  change (32 - 8) with 24. change (32 - 12) with 20. change (32 - 16) with 16. change (32 - 32) with 0.
  change (32 - 10) with 22. change (32 - 24) with 8. rewrite H0, H8, H16, H24, H20, H22. clear H0 H8 H16 H24 H20 H22.
  unfold is_private_v4, v4_is_loopback, v4_is_private, v4_is_link_local, v4_is_broadcast, v4_is_unspecified.
  rewrite cgnat_octet, <-(andb_assoc (a =? 172)), private12_octet by done.
  change (v4_number 127 0 0 0 ≫ 24) with 127. change (v4_number 10 0 0 0 ≫ 24) with 10.
  change (v4_number 172 16 0 0 ≫ 20) with (172 * 16 + 1). change (v4_number 192 168 0 0 ≫ 16) with (192 * 256 + 168).
  change (v4_number 169 254 0 0 ≫ 16) with (169 * 256 + 254).
  change (v4_number 255 255 255 255 ≫ 0) with (((255 * 256 + 255) * 256 + 255) * 256 + 255).
  change (v4_number 0 0 0 0 ≫ 0) with (((0 * 256 + 0) * 256 + 0) * 256 + 0).
  change (v4_number 100 64 0 0 ≫ 22) with (100 * 4 + 1).
  change (v4_number 192 0 2 0 ≫ 8) with ((192 * 256 + 0) * 256 + 2).
  change (v4_number 198 51 100 0 ≫ 8) with ((198 * 256 + 51) * 256 + 100).
  change (v4_number 203 0 113 0 ≫ 8) with ((203 * 256 + 0) * 256 + 113).
  unfold octet, v4_number in *.
  assert (0 <= b / 16 < 16) by (Z.to_euclidean_division_equations; lia).
  assert (0 <= b / 64 < 4) by (Z.to_euclidean_division_equations; lia).
  rewrite !digits_eqb by lia. by rewrite orb_false_r, !orb_assoc.
Qed.

(** For the wider addresses: loopback, unspecified, unique local, link local,
    and the mapped block with the low half in a private block. *)
Definition private_v6_blocks : list (Z * Z) :=
  [(1, 128); (0, 128); (v6_number 64512 0 0 0 0 0 0 0, 7); (v6_number 65152 0 0 0 0 0 0 0, 10)].
Definition in_private_block (ip : IpAddr) : bool :=
  match ip with
  | V4 a b c d => in_blocks 32 private_v4_blocks (v4_number a b c d)
  | V6 s0 s1 s2 s3 s4 s5 s6 s7 =>
      let n := v6_number s0 s1 s2 s3 s4 s5 s6 s7 in
      in_blocks 128 private_v6_blocks n
      || (in_block 128 (65535 * 2 ^ 32) 96 n && in_blocks 32 private_v4_blocks (n mod 2 ^ 32))
  end.
Definition ip_ok (ip : IpAddr) : Prop :=
  match ip with
  | V4 a b c d => octet a /\ octet b /\ octet c /\ octet d
  | V6 s0 s1 s2 s3 s4 s5 s6 s7 => Forall segment [s0; s1; s2; s3; s4; s5; s6; s7]
  end.

Lemma land_mask s k : segment s -> 0 <= k <= 16 -> Z.land s (65536 - 2 ^ k) = s / 2 ^ k * 2 ^ k.
Proof.
  intros Hs Hk. replace (65536 - 2 ^ k) with (Z.ldiff (Z.ones 16) (Z.ones k)).
  - rewrite Z.ldiff_land, Z.land_assoc, <-Z.ldiff_land. replace (Z.land s (Z.ones 16)) with s.
    + rewrite Z.ldiff_ones_r, Z.shiftl_mul_pow2, Z.shiftr_div_pow2 by lia. done.
    + rewrite Z.land_ones by lia. unfold segment in Hs. by rewrite Z.mod_small by (change (2 ^ 16) with 65536; lia).
  - rewrite Z.ldiff_ones_r, Z.shiftl_mul_pow2, Z.shiftr_div_pow2 by lia.
    rewrite Z.ones_equiv. change (Z.pred (2 ^ 16)) with 65535.
    assert (Hp : 2 ^ 16 = 2 ^ k * 2 ^ (16 - k)) by (rewrite <-Z.pow_add_r by lia; f_equal; lia).
    change (2 ^ 16) with 65536 in Hp. assert (0 < 2 ^ k) by lia.
    replace (65535 / 2 ^ k) with (2 ^ (16 - k) - 1); [lia|].
    apply (Z.div_unique_pos _ _ _ (2 ^ k - 1)); lia.
Qed.

Lemma masked_eqb s k v : segment s -> 0 <= k <= 16 -> (Z.land s (65536 - 2 ^ k) =? v * 2 ^ k) = (s / 2 ^ k =? v).
Proof.
  intros Hs Hk. rewrite land_mask by done. assert (0 < 2 ^ k) by lia.
  destruct (Z.eqb_spec (s / 2 ^ k) v) as [->|Hne]; [by rewrite Z.eqb_refl|].
  destruct (Z.eqb_spec (s / 2 ^ k * 2 ^ k) (v * 2 ^ k)); [nia|done].
Qed.

(** The high bits of a positional number are its leading digits. *)
Lemma shiftr_digit n x k : 0 <= x < 65536 -> 0 <= k -> Z.shiftr (n * 65536 + x) (k + 16) = Z.shiftr n k.
Proof.
  intros Hx Hk. rewrite !Z.shiftr_div_pow2, Z.pow_add_r by lia. change (2 ^ 16) with 65536.
  rewrite (Z.mul_comm (2 ^ k)), <-Z.div_div by lia. f_equal. Z.to_euclidean_division_equations; lia.
Qed.

Lemma private_v6_in_blocks s0 s1 s2 s3 s4 s5 s6 s7 :
  Forall segment [s0; s1; s2; s3; s4; s5; s6; s7] ->
  is_private_v6 s0 s1 s2 s3 s4 s5 s6 s7 = in_private_block (V6 s0 s1 s2 s3 s4 s5 s6 s7).
Proof.
  intros H. repeat (apply Forall_cons in H as [? H]). unfold segment in *. unfold in_private_block. cbv zeta.
  set (n := v6_number s0 s1 s2 s3 s4 s5 s6 s7).
  assert (Hn : n = ((((((s0 * 65536 + s1) * 65536 + s2) * 65536 + s3) * 65536 + s4) * 65536 + s5) * 65536 + s6) * 65536 + s7) by done.
  assert (H32 : Z.shiftr n 32 = ((((s0 * 65536 + s1) * 65536 + s2) * 65536 + s3) * 65536 + s4) * 65536 + s5).
  { rewrite Hn. change 32 with (0 + 16 + 16). rewrite !shiftr_digit by lia. apply Z.shiftr_0_r. }
  assert (H112 : forall k, 0 <= k -> Z.shiftr n (k + 16 + 16 + 16 + 16 + 16 + 16 + 16) = Z.shiftr s0 k).
  { intros k Hk. rewrite Hn, !shiftr_digit by lia. done. }
  assert (Hlow : n mod 2 ^ 32 = v4_number (Z.shiftr s6 8) (Z.land s6 255) (Z.shiftr s7 8) (Z.land s7 255)).
  { unfold v4_number. change 255 with (Z.ones 8). rewrite !Z.land_ones, !Z.shiftr_div_pow2 by lia. change (2 ^ 8) with 256.
    rewrite Hn. change (2 ^ 32) with (65536 * 65536). symmetry.
    apply (Z.mod_unique _ _ (((((s0 * 65536 + s1) * 65536 + s2) * 65536 + s3) * 65536 + s4) * 65536 + s5));
      Z.to_euclidean_division_equations; lia. }
  unfold is_private_v6, in_blocks, private_v6_blocks, in_block. cbn [existsb fst snd].
  rewrite Hlow. change (128 - 128) with 0. change (128 - 96) with 32.
  change (128 - 7) with (9 + 16 + 16 + 16 + 16 + 16 + 16 + 16). change (128 - 10) with (6 + 16 + 16 + 16 + 16 + 16 + 16 + 16).
  rewrite !H112, H32, !Z.shiftr_0_r, !Z.shiftr_div_pow2 by lia. clear H112 H32 Hlow. rewrite Hn.
  rewrite private_v4_in_blocks by (unfold octet; change 255 with (Z.ones 8); rewrite ?Z.land_ones, ?Z.shiftr_div_pow2 by lia;
    change (2 ^ 8) with 256; Z.to_euclidean_division_equations; lia).
  change 65024 with (65536 - 2 ^ 9). change 64512 with (126 * 2 ^ 9) at 1.
  change 65472 with (65536 - 2 ^ 6). change 65152 with (1018 * 2 ^ 6) at 1. rewrite !masked_eqb by (unfold segment; lia).
  change (v6_number 64512 0 0 0 0 0 0 0 / 2 ^ (9 + 16 + 16 + 16 + 16 + 16 + 16 + 16)) with 126.
  change (v6_number 65152 0 0 0 0 0 0 0 / 2 ^ (6 + 16 + 16 + 16 + 16 + 16 + 16 + 16)) with 1018.
  change (65535 * 2 ^ 32 / 2 ^ 32) with (((((0 * 65536 + 0) * 65536 + 0) * 65536 + 0) * 65536 + 0) * 65536 + 65535).
  match goal with |- context [orb (?e =? 1) (orb (?e =? 0) _)] =>
    change (e =? 1) with (e =? ((((((0 * 65536 + 0) * 65536 + 0) * 65536 + 0) * 65536 + 0) * 65536 + 0) * 65536 + 0) * 65536 + 1);
    change (e =? 0) with (e =? ((((((0 * 65536 + 0) * 65536 + 0) * 65536 + 0) * 65536 + 0) * 65536 + 0) * 65536 + 0) * 65536 + 0)
  end.
  rewrite !digits_eqb by lia. by rewrite orb_false_r, !orb_assoc.
Qed.


(** ** What a successful check promises *)

Lemma first_private_none addrs : first_private addrs = None <-> Forall (fun a => is_private_ip a.1 = false) addrs.
Proof.
  unfold first_private. induction addrs as [|a l IH]; simpl; [done|]. rewrite Forall_cons.
  destruct (is_private_ip a.1) eqn:E; simpl; [naive_solver|]. rewrite IH. naive_solver.
Qed.

Lemma first_private_some addrs ip :
  first_private addrs = Some ip -> is_private_ip ip = true /\ exists port, (ip, port) ∈ addrs.
Proof.
  unfold first_private. intros H. apply fmap_Some in H as ([ip' port] & H & ->). simpl.
  destruct (List.filter (fun a => is_private_ip a.1) addrs) as [|x r] eqn:E; [done|]. injection H as ->.
  assert (Hin : In (ip', port) (List.filter (fun a => is_private_ip a.1) addrs)) by (rewrite E; by left).
  apply filter_In in Hin as [Hin Hp]. split; [done|]. exists port. by apply list_elem_of_In.
Qed.

Section Check.
Context {CF : CaseFold}.

(** Whatever the resolver answers, the addresses handed on are never private
    and never none at all; a literal address is its own answer; and every
    refusal has its cause. *)
Theorem resolve_and_check_spec lookup host port :
  match resolve_and_check lookup host port with
  | Ok addrs =>
      is_private_hostname host = false /\ addrs <> [] /\ Forall (fun a => is_private_ip a.1 = false) addrs /\
      match parse_ip host with Some ip => addrs = [(ip, port)] | None => lookup host port = Ok addrs end
  | Err (PrivateHost h) => h = host /\ is_private_hostname host = true
  | Err (PrivateIp ip) =>
      is_private_ip ip = true /\
      match parse_ip host with
      | Some ip' => ip = ip'
      | None => exists addrs p, lookup host port = Ok addrs /\ (ip, p) ∈ addrs
      end
  | Err (DnsError e) =>
      parse_ip host = None /\ (lookup host port = Err e \/ (lookup host port = Ok [] /\ e = "No addresses resolved"))
  end.
Proof.
  unfold resolve_and_check. destruct (is_private_hostname host) eqn:Eh; [done|].
  destruct (parse_ip host) as [ip|] eqn:Ep; [destruct (is_private_ip ip) eqn:E; [done|]|].
  - split_and!; [done|done| |done]. by constructor.
  - destruct (lookup host port) as [[|a l]|e] eqn:El; [auto| |auto].
    destruct (first_private (a :: l)) as [ip|] eqn:Ef.
    + apply first_private_some in Ef as [Hp [p Hin]]. split; [done|]. by exists (a :: l), p.
    + apply first_private_none in Ef. split_and!; done.
Qed.
End Check.

(** ** Runs *)

Example literals_are_parsed :
  parse_ip "::ffff:10.0.0.1" = Some (V6 0 0 0 0 0 65535 2560 1) /\
  parse_ip "fe80::1" = Some (V6 65152 0 0 0 0 0 0 1) /\
  parse_ip "2607:f8b0:4004:800::200e" = Some (V6 9735 63664 16388 2048 0 0 0 8206) /\
  parse_ip "127.0.0.1" = Some (V4 127 0 0 1) /\
  parse_ip "0177.0.0.1" = None /\ parse_ip "127.1" = None /\ parse_ip "256.0.0.1" = None /\ parse_ip "[::1]" = None.
Proof. vm_compute. repeat split; reflexivity. Qed.

(** Ranges that are not publicly routable and not in the list: this network,
    multicast, reserved, a translated loopback address. *)
Example unlisted_ranges_pass :
  existsb is_private_ip [V4 0 1 2 3; V4 224 0 0 1; V4 240 0 0 1; V4 198 18 0 1; V6 100 65435 0 0 0 0 32512 1] = false.
Proof. vm_compute. reflexivity. Qed.

(** Only one trailing dot is taken off a name. *)
Example second_dot_hides_localhost :
  @is_private_hostname ascii_fold "LOCALHOST." = true /\ @is_private_hostname ascii_fold "localhost.." = false.
Proof. vm_compute. split; reflexivity. Qed.

