(* ===== verification/Sasl.v ===== *)
(** * Sign-in: challenges, verification, allowlist

    Models [freeq-server/src/sasl.rs] (the challenge store and the three ways a
    response is verified), the identity documents it reads
    ([freeq-sdk/src/did.rs], [crypto.rs], [pds.rs]), the connect allowlist of
    [freeq-server/src/server.rs] and the client's splitting of a response
    ([freeq-sdk/src/auth.rs]). What is outside the repository is [SaslEnv]:
    base64 and base58, JSON, curve arithmetic, the DID resolver and the answers
    of data servers. The reason of a refusal, which only the log sees, leaves out
    the text of a library's own error and the phrase of an HTTP status. *)
From stdpp Require Import base gmap strings list pretty.
From Stdlib Require Import ZArith Lia Ascii String.
From S2P Require Import Prelude Text.
Open Scope string_scope.
Open Scope list_scope.
Open Scope Z_scope.

(** ** Data *)

Record Challenge := mkChallenge { ch_session_id : string; ch_nonce : string; ch_timestamp : Z }.
Record ChallengeResponse := mkResponse {
  r_did : string; r_signature : string; r_method : option string; r_pds_url : option string;
  r_dpop_proof : option string; r_challenge_nonce : option string; r_owner_did : option string
}.
Record StoredChallenge := mkStored { st_challenge : Challenge; st_raw_bytes : string }.
Inductive NoChallenge := Expired | Unknown.

Definition TEMPORARILY_UNAVAILABLE : string := "TEMPORARILY_UNAVAILABLE".
Definition NOT_ALLOWED : string := "NOT_ALLOWED".
Definition SIGNATURE_INVALID : string := "SIGNATURE_INVALID".
Definition IDENTITY_INVALID : string := "IDENTITY_INVALID".
Definition TOKEN_INVALID : string := "TOKEN_INVALID".
Definition BAD_RESPONSE : string := "BAD_RESPONSE".
Definition MECHANISM_UNSUPPORTED : string := "MECHANISM_UNSUPPORTED".
Definition ABORTED : string := "ABORTED".

Inductive VerifyError := DpopNonce (nonce : string) | Refused (code reason : string).

Record VerificationMethod := mkVm { vm_id : string; vm_key : option string }.
Inductive StringOrMap := Reference (id : string) | Inline (vm : VerificationMethod).
Record Service := mkService { svc_type : string; svc_endpoint : string }.
Record DidDocument := mkDoc {
  doc_id : string; also_known_as : list string; verification_method : list VerificationMethod;
  authentication : list StringOrMap; assertion_method : list StringOrMap; service : list Service
}.
Inductive PublicKey := Secp256k1Key (bytes : string) | Ed25519Key (bytes : string).

(** A parsed JSON value: the keys, if it is an object, and its reading as a
    response. *)
Record JsonValue := mkJson { jv_keys : option (list string); jv_response : result ChallengeResponse string }.
(** [pds::verify_session]: the data server's status if it refused, nothing if
    it did not answer or not readably, the DID of the session. *)
Inductive SessionAnswer := SessionRefused (status : Z) (body : string) | SessionUnreadable (why : string) | SessionOf (did : string).
(** The answer to [getSession] with a DPoP proof. *)
Inductive OAuthAnswer :=
| OAuthUnreachable (why : string)
| OAuthRefused (status : Z) (dpop_nonce : option string) (text : string)
| OAuthUnreadable (why : string)
| OAuthSession (did : string).

Class SaslEnv := {
  b64_url_no_pad : string -> option string;
  b64_url_no_pad_encode : string -> string;
  b64_standard : string -> option string;
  b64_url : string -> option string;
  b64_standard_no_pad : string -> option string;
  json_value : string -> option JsonValue;
  challenge_json : Challenge -> string;
  base58 : string -> option string;
  secp_key_ok : string -> bool;
  ed_key_ok : string -> bool;
  secp_verify : string -> string -> string -> bool;
  ed_verify : string -> string -> string -> bool;
  resolve : string -> result DidDocument string;
  resolve_handle : string -> result string string;
  pds_session : string -> string -> SessionAnswer;
  pds_oauth : string -> string -> string -> OAuthAnswer
}.

(** ** Refusals, as a client reads them *)

Inductive Refusal := SigningKey (s : string) | Final (s : string) | TryAgain (s : string).
Definition classify (params : list string) : option Refusal :=
  command ← head params;
  code ← params !! 1%nat;
  let sentence := if (2 <? Z.of_nat (List.length params)) then default "" (head (rev params)) else "" in
  if String.eqb command "MSGSIG" && (String.eqb code "KEY_EXPIRED" || String.eqb code "KEY_RETIRED")
  then Some (SigningKey sentence)
  else if String.eqb command "AUTHENTICATE" || String.eqb command "*"
  then Some (if String.eqb code TEMPORARILY_UNAVAILABLE then TryAgain sentence else Final sentence)
  else None.

(** ** The challenge store *)

Record ChallengeStore := mkStore { pending : gmap string StoredChallenge; timeout_secs : Z }.
Definition store_new (timeout : Z) : ChallengeStore := mkStore ∅ timeout.

(** A challenge outlives its time when clock and timestamp are too far apart,
    in either direction. *)
Definition outlived (timeout now : Z) (c : Challenge) : bool := timeout <? Z.abs (now - ch_timestamp c).

Definition take (st : ChallengeStore) (session_id : string) (now : Z)
    : ChallengeStore * result (Challenge * string) NoChallenge :=
  match pending st !! session_id with
  | None => (st, Err Unknown)
  | Some s =>
      (mkStore (delete session_id (pending st)) (timeout_secs st),
       if outlived (timeout_secs st) now (st_challenge s) then Err Expired else Ok (st_challenge s, st_raw_bytes s))
  end.

Section Sasl.
Context {E : SaslEnv}.
Local Open Scope rust_scope.

Definition create (st : ChallengeStore) (session_id nonce_bytes : string) (now : Z) : ChallengeStore * string :=
  let c := mkChallenge session_id (b64_url_no_pad_encode nonce_bytes) now in
  let raw := challenge_json c in
  (mkStore (<[session_id := mkStored c raw]> (pending st)) (timeout_secs st), b64_url_no_pad_encode raw).

(** ** Decoding a response *)

Definition b64_any (encoded : string) : option string :=
  match b64_url_no_pad encoded with
  | Some b => Some b
  | None => match b64_standard encoded with
            | Some b => Some b
            | None => match b64_url encoded with Some b => Some b | None => b64_standard_no_pad encoded end
            end
  end.
Definition quoted (k : string) : string := String "034" (k +:+ String "034" "").
Definition one_line : string -> string := str_map (fun c => if Ascii.eqb c CR || Ascii.eqb c LF then " "%char else c).
Definition expected_fields : string :=
  "; expected {" +:+ quoted "did" +:+ ", " +:+ quoted "signature" +:+ ", " +:+ quoted "method" +:+ "?}".
Definition decode_response_explained (encoded : string) : result ChallengeResponse string :=
  let? bytes := ok_or (b64_any encoded) "response is not base64" in
  let? value := ok_or (json_value bytes) "response is not JSON" in
  match jv_response value with
  | Ok r => Ok r
  | Err e =>
      let got := map quoted (default [] (jv_keys value)) in
      Err (one_line (e +:+ (match got with [] => "" | _ => "; got " +:+ str_join ", " got end) +:+ expected_fields))
  end.

(** ** Keys of a document *)

Definition from_multibase (multibase : string) : option PublicKey :=
  encoded ← strip_prefix "z" multibase;
  bytes ← base58 encoded;
  if Nat.ltb (String.length bytes) 2 then None
  else if starts_with (String (byte_of 231) (String (byte_of 1) "")) bytes then
    let k := str_drop 2 bytes in if secp_key_ok k then Some (Secp256k1Key k) else None
  else if starts_with (String (byte_of 237) (String (byte_of 1) "")) bytes then
    let k := str_drop 2 bytes in
    if Nat.eqb (String.length k) 32 && ed_key_ok k then Some (Ed25519Key k) else None
  else None.
Definition key_verify (k : PublicKey) (message signature : string) : bool :=
  match k with
  | Secp256k1Key b => secp_verify b message signature
  | Ed25519Key b => ed_verify b message signature
  end.

Definition resolve_key_reference (d : DidDocument) (entry : StringOrMap) : option (string * PublicKey) :=
  match entry with
  | Reference id =>
      vm ← List.find (fun vm => String.eqb (vm_id vm) id) (verification_method d);
      mb ← vm_key vm;
      k ← from_multibase mb;
      Some (id, k)
  | Inline vm => mb ← vm_key vm; k ← from_multibase mb; Some (vm_id vm, k)
  end.
(** The first key under each id. *)
Definition add_key (d : DidDocument) (keys : list (string * PublicKey)) (entry : StringOrMap) : list (string * PublicKey) :=
  match resolve_key_reference d entry with
  | Some (id, k) => if existsb (fun x => String.eqb x.1 id) keys then keys else keys ++ [(id, k)]
  | None => keys
  end.
Definition authentication_keys (d : DidDocument) : list (string * PublicKey) :=
  fold_left (add_key d) (authentication d ++ assertion_method d) [].

Definition pds_endpoint (d : DidDocument) : option string :=
  svc_endpoint <$> List.find (fun s => String.eqb (svc_type s) "AtprotoPersonalDataServer") (service d).

(** ** Verification *)

Definition pds_status_code (status : Z) : string :=
  if (status =? 429) || (500 <=? status) then TEMPORARILY_UNAVAILABLE else TOKEN_INVALID.

Definition verify_challenge_nonce (c : Challenge) (r : ChallengeResponse) : result unit VerifyError :=
  match r_challenge_nonce r with
  | Some n => if negb (String.eqb n (ch_nonce c)) then Err (Refused BAD_RESPONSE "Challenge nonce mismatch") else Ok tt
  | None => Err (Refused BAD_RESPONSE "PDS verification requires challenge_nonce field")
  end.

Definition resolve_document (did : string) : result DidDocument VerifyError :=
  match resolve did with
  | Err e => Err (Refused TEMPORARILY_UNAVAILABLE ("Failed to resolve DID document: " +:+ e))
  | Ok d =>
      if negb (String.eqb (doc_id d) did)
      then Err (Refused IDENTITY_INVALID ("DID document ID mismatch: expected " +:+ did +:+ ", got " +:+ doc_id d))
      else Ok d
  end.

Definition claimed_pds_matches (d : DidDocument) (claimed : string) : result unit VerifyError :=
  let? doc_pds := ok_or (pds_endpoint d) (Refused IDENTITY_INVALID "No PDS service endpoint in DID document") in
  if negb (String.eqb (trim_end_char "/" claimed) (trim_end_char "/" doc_pds))
  then Err (Refused IDENTITY_INVALID ("PDS URL mismatch: claimed " +:+ claimed +:+ ", document says " +:+ doc_pds))
  else Ok tt.

Definition verify_crypto (challenge_bytes : string) (r : ChallengeResponse) : result string VerifyError :=
  let? sig := ok_or (b64_url_no_pad (r_signature r)) (Refused BAD_RESPONSE "Invalid signature encoding") in
  let? d := resolve_document (r_did r) in
  let keys := authentication_keys d in
  match keys with
  | [] => Err (Refused IDENTITY_INVALID "No authentication keys found in DID document")
  | _ => if existsb (fun k => key_verify k.2 challenge_bytes sig) keys then Ok (r_did r)
         else Err (Refused SIGNATURE_INVALID ("Signature did not verify against any of " +:+ pretty (List.length keys) +:+ " authentication key(s)"))
  end.

(** The data server must name the DID that was claimed. *)
Definition session_did_matches (r : ChallengeResponse) (did : string) : result string VerifyError :=
  if negb (String.eqb did (r_did r)) then Err (Refused IDENTITY_INVALID ("PDS session DID mismatch: claimed " +:+ r_did r +:+ ", PDS says " +:+ did)) else Ok (r_did r).

Definition verify_pds_session (c : Challenge) (r : ChallengeResponse) : result string VerifyError :=
  let? _ := verify_challenge_nonce c r in
  let? claimed := ok_or (r_pds_url r) (Refused BAD_RESPONSE "pds-session method requires pds_url") in
  let? d := resolve_document (r_did r) in
  let? _ := claimed_pds_matches d claimed in
  match pds_session claimed (r_signature r) with
  | SessionRefused status body => Err (Refused (pds_status_code status) ("PDS session verification failed: " +:+ body))
  | SessionUnreadable why => Err (Refused TEMPORARILY_UNAVAILABLE ("PDS session verification failed: " +:+ why))
  | SessionOf did => session_did_matches r did
  end.

Definition verify_pds_oauth (c : Challenge) (r : ChallengeResponse) : result string VerifyError :=
  let? _ := verify_challenge_nonce c r in
  let? claimed := ok_or (r_pds_url r) (Refused BAD_RESPONSE "pds-oauth method requires pds_url") in
  let? proof := ok_or (r_dpop_proof r) (Refused BAD_RESPONSE "pds-oauth method requires dpop_proof") in
  let? d := resolve_document (r_did r) in
  let? _ := claimed_pds_matches d claimed in
  match pds_oauth (trim_end_char "/" claimed) (r_signature r) proof with
  | OAuthUnreachable why => Err (Refused TEMPORARILY_UNAVAILABLE ("Failed to call PDS getSession: " +:+ why))
  | OAuthRefused status new_nonce text =>
      match new_nonce with
      | Some nonce =>
          if ((status =? 400) || (status =? 401)) && contains_str "use_dpop_nonce" text then Err (DpopNonce nonce)
          else Err (Refused (pds_status_code status) ("PDS OAuth verification failed: " +:+ text))
      | None => Err (Refused (pds_status_code status) ("PDS OAuth verification failed: " +:+ text))
      end
  | OAuthUnreadable why => Err (Refused TEMPORARILY_UNAVAILABLE ("Failed to parse PDS session response: " +:+ why))
  | OAuthSession did => session_did_matches r did
  end.

Definition verify_response (c : Challenge) (challenge_bytes : string) (r : ChallengeResponse) : result string VerifyError :=
  if negb (starts_with "did:" (r_did r)) then Err (Refused BAD_RESPONSE "Invalid DID format")
  else match r_method r with
       | None => verify_crypto challenge_bytes r
       | Some m =>
           if String.eqb m "pds-session" then verify_pds_session c r
           else if String.eqb m "pds-oauth" then verify_pds_oauth c r
           else if String.eqb m "crypto" then verify_crypto challenge_bytes r
           else Err (Refused BAD_RESPONSE ("Unsupported verification method: " +:+ m))
       end.
End Sasl.

(** ** The connect allowlist *)

Definition label_ok (tld : bool) (label : string) : bool :=
  let n := Z.of_nat (String.length label) in
  (1 <=? n) && (n <=? 63) && str_all (fun c => is_ascii_alphanumeric c || Ascii.eqb c "-") label
  && negb (starts_with_char "-" label) && negb (ends_with "-" label)
  && (negb tld || match label with String c _ => is_ascii_lowercase c || is_ascii_uppercase c | EmptyString => false end).
Fixpoint labels_ok (labels : list string) : bool :=
  match labels with
  | [] => true
  | [l] => label_ok true l
  | l :: r => label_ok false l && labels_ok r
  end.
Definition is_valid_handle (handle : string) : bool :=
  if 253 <? Z.of_nat (String.length handle) then false
  else let labels := str_split "." handle in
       if (Z.of_nat (List.length labels) <? 2) then false else labels_ok labels.

Record Allowlist := mkAllow { allowed_dids : list string; allowed_did_domains : list string }.

Section Allow.
Context {E : SaslEnv} {CF : CaseFold}.

Definition domain_covers (h dom : string) : bool :=
  let dom := to_lowercase (trim_start_char "." (trim_start_char "@" dom)) in
  String.eqb h dom || ends_with ("." +:+ dom) h.
Definition did_allowed (a : Allowlist) (did : string) (handle : option string) : bool :=
  match allowed_dids a, allowed_did_domains a with
  | [], [] => true
  | _, _ =>
      if existsb (String.eqb did) (allowed_dids a) then true
      else match handle with
           | None => false
           | Some h =>
               let h := to_lowercase (trim_start_char "@" h) in
               if negb (is_valid_handle h) then false else existsb (domain_covers h) (allowed_did_domains a)
           end
  end.

Definition handle_owned_by (handle did : string) : option bool :=
  match resolve_handle handle with Ok r => Some (String.eqb r did) | Err _ => None end.

(** The claimed handles in turn; [unsure] once a lookup failed. *)
Fixpoint check_claims (a : Allowlist) (did : string) (unsure : bool) (akas : list string) : option bool :=
  match akas with
  | [] => if unsure then None else Some false
  | aka :: r =>
      match strip_prefix "at://" aka with
      | None => check_claims a did unsure r
      | Some claimed =>
          if negb (did_allowed a did (Some claimed)) then check_claims a did unsure r
          else match handle_owned_by claimed did with
               | Some true => Some true
               | Some false => check_claims a did unsure r
               | None => check_claims a did true r
               end
      end
  end.
Definition did_is_allowed_checked (a : Allowlist) (did : string) (handle : option string) : option bool :=
  if did_allowed a did handle then Some true
  else match allowed_did_domains a with
       | [] => Some false
       | _ => match resolve did with
              | Ok d => check_claims a did false (also_known_as d)
              | Err _ => None
              end
       end.
End Allow.

(** ** Splitting and joining a response *)

Definition SASL_CHUNK_LEN : nat := 400.
Definition MAX_SASL_RESPONSE_LEN : Z := 8177.

(** [bytes.chunks(n)], with fuel for the number of chunks. *)
Fixpoint chunks (fuel n : nat) (s : string) : list string :=
  match fuel with
  | O => []
  | S f => if is_empty s then [] else str_take n s :: chunks f n (str_drop n s)
  end.
(** The parameters of the AUTHENTICATE lines that carry a response. *)
Definition sasl_response_lines (encoded : string) : list string :=
  if Nat.leb (String.length encoded) SASL_CHUNK_LEN then [encoded]
  else chunks (String.length encoded) SASL_CHUNK_LEN encoded
       ++ (if Nat.eqb (String.length encoded mod SASL_CHUNK_LEN) 0 then ["+"] else []).

Inductive Reassembly := Partial | Complete (s : string) | TooLong.

Definition accumulate_response {E : SaslEnv} (buf param : string) : string * Reassembly :=
  let chunk := if String.eqb param "+" then "" else param in
  if MAX_SASL_RESPONSE_LEN <? Z.of_nat (String.length buf) + Z.of_nat (String.length chunk) then ("", TooLong)
  else
    let buf := buf +:+ chunk in
    if Nat.eqb (String.length chunk) SASL_CHUNK_LEN && negb (is_ok (decode_response_explained buf)) then (buf, Partial)
    else ("", Complete buf).

(** ** The response arrives as it was split *)

Section Join.
Context {E : SaslEnv}.

(** The pieces a connection takes in while a sign-in is under way: what each
    settles, and a stray end mark ignored. *)
Fixpoint reassemble (buf : string) (params : list string) : list Reassembly :=
  match params with
  | [] => []
  | p :: r =>
      if String.eqb p "+" && is_empty buf then reassemble buf r
      else match accumulate_response buf p with
           | (b, Partial) => reassemble b r
           | (b, x) => x :: reassemble b r
           end
  end.

Definition end_mark (encoded : string) : list string :=
  if Nat.eqb (String.length encoded mod SASL_CHUNK_LEN) 0 then ["+"] else [].

Lemma accumulate_short buf p :
  p <> "+" -> String.length p <> SASL_CHUNK_LEN ->
  Z.of_nat (String.length (buf +:+ p)) <= MAX_SASL_RESPONSE_LEN -> accumulate_response buf p = ("", Complete (buf +:+ p)).
Proof.
  intros Hp Hn Hl. unfold accumulate_response. rewrite (proj2 (String.eqb_neq p "+")) by done.
  rewrite append_length in Hl. destruct (Z.ltb_spec MAX_SASL_RESPONSE_LEN (Z.of_nat (String.length buf) + Z.of_nat (String.length p))); [lia|].
  by rewrite (proj2 (Nat.eqb_neq _ _) Hn).
Qed.

Lemma accumulate_full buf p :
  String.length p = SASL_CHUNK_LEN -> Z.of_nat (String.length (buf +:+ p)) <= MAX_SASL_RESPONSE_LEN ->
  accumulate_response buf p =
    if is_ok (decode_response_explained (buf +:+ p)) then ("", Complete (buf +:+ p)) else (buf +:+ p, Partial).
Proof.
  intros Hn Hl. unfold accumulate_response. destruct (String.eqb_spec p "+") as [->|]; [done|].
  rewrite append_length in Hl. destruct (Z.ltb_spec MAX_SASL_RESPONSE_LEN (Z.of_nat (String.length buf) + Z.of_nat (String.length p))); [lia|].
  rewrite Hn. simpl. by destruct (is_ok _).
Qed.

Lemma accumulate_end buf :
  Z.of_nat (String.length buf) <= MAX_SASL_RESPONSE_LEN -> accumulate_response buf "+" = ("", Complete buf).
Proof.
  intros Hl. unfold accumulate_response. rewrite String.eqb_refl, append_nil_r. cbn [String.length].
  destruct (Z.ltb_spec MAX_SASL_RESPONSE_LEN (Z.of_nat (String.length buf) + Z.of_nat 0)); [lia|]. reflexivity.
Qed.

Lemma no_plus_chunk s p r : str_contains "+" s = false -> s = p +:+ r -> p <> "+".
Proof. intros H -> ->. by rewrite str_contains_app in H. Qed.

Lemma chunks_reassemble fuel : forall buf rest,
  (String.length rest <= fuel)%nat -> rest <> "" -> str_contains "+" rest = false ->
  (String.length buf mod SASL_CHUNK_LEN = 0)%nat -> Z.of_nat (String.length (buf +:+ rest)) <= MAX_SASL_RESPONSE_LEN ->
  (forall k p, (0 < k)%nat -> String.length p = (k * SASL_CHUNK_LEN)%nat -> (exists r, rest = p +:+ r /\ r <> "") ->
    is_ok (decode_response_explained (buf +:+ p)) = false) ->
  reassemble buf (chunks fuel SASL_CHUNK_LEN rest ++ end_mark (buf +:+ rest)) = [Complete (buf +:+ rest)].
Proof.
  induction fuel as [|fuel IH]; intros buf rest Hf Hne Hp Hb Hl Hpre.
  { destruct rest; [done|simpl in Hf; lia]. }
  cbn [chunks]. rewrite (proj2 (is_empty_false rest)) by done.
  pose proof (str_take_drop SASL_CHUNK_LEN rest) as Htd.
  set (p := str_take SASL_CHUNK_LEN rest) in *. set (q := str_drop SASL_CHUNK_LEN rest) in *.
  assert (Hpp : p <> "+") by (eapply no_plus_chunk; [exact Hp|by rewrite Htd]).
  assert (Hlp : Z.of_nat (String.length (buf +:+ p)) <= MAX_SASL_RESPONSE_LEN).
  { rewrite <-Htd, !append_length in Hl. rewrite append_length. lia. }
  assert (Hsp : String.length p = Nat.min SASL_CHUNK_LEN (String.length rest)) by apply str_take_length.
  cbn [app reassemble]. rewrite (proj2 (String.eqb_neq p "+")) by done. cbn [andb].
  destruct (Nat.lt_ge_cases (String.length rest) SASL_CHUNK_LEN) as [Hlt|Hge].
  - assert (Eq : q = "") by (apply str_drop_ge; lia). assert (Ep : p = rest) by (apply str_take_ge; lia).
    rewrite Eq. rewrite accumulate_short by (done || lia). rewrite Ep in *.
    assert (end_mark (buf +:+ rest) = []) as ->.
    { unfold end_mark. rewrite append_length, Nat.Div0.add_mod, Hb. rewrite (Nat.mod_small (String.length rest)) by lia.
      rewrite Nat.add_0_l, Nat.mod_small by lia. destruct rest; [done|]. done. }
    by destruct fuel.
  - rewrite accumulate_full by (done || lia). destruct (String.eqb_spec q "") as [Eq|Nq].
    + assert (Ep : p = rest) by (by rewrite <-Htd, Eq, append_nil_r). rewrite Eq. rewrite Ep in *.
      assert (end_mark (buf +:+ rest) = ["+"]) as ->.
      { unfold end_mark. rewrite append_length, Nat.Div0.add_mod, Hb, Hsp, Nat.min_l by lia.
        by rewrite Nat.Div0.mod_same. }
      assert (Hch : chunks fuel SASL_CHUNK_LEN "" = []) by by destruct fuel. rewrite Hch. cbn [app].
      destruct (is_ok _); [done|]. cbn [reassemble]. rewrite (proj2 (is_empty_false _)).
      2:{ intros E0. apply (f_equal String.length) in E0. rewrite append_length in E0. unfold SASL_CHUNK_LEN in *. simpl in E0. lia. }
      rewrite andb_false_r. by rewrite accumulate_end.
    + rewrite (Hpre 1%nat p ltac:(lia)); [|rewrite Hsp; lia|by exists q].
      rewrite <-Htd, <-append_assoc. apply IH.
      * apply (f_equal String.length) in Htd. rewrite append_length in Htd. unfold SASL_CHUNK_LEN in *. lia.
      * done.
      * rewrite <-Htd, str_contains_app in Hp. by apply orb_false_iff in Hp as [_ Hq].
      * rewrite append_length, Nat.Div0.add_mod, Hb, Hsp, Nat.min_l by lia. by rewrite Nat.Div0.mod_same.
      * by rewrite append_assoc, Htd.
      * intros k p' Hk Hlen (r & Hr & Hnr). rewrite append_assoc. apply (Hpre (S k)); [lia| |].
        -- rewrite append_length, Hlen. unfold SASL_CHUNK_LEN in *. lia.
        -- exists r. by rewrite append_assoc, <-Hr, Htd.
Qed.

(** A response the client splits into lines arrives whole, once, provided none
    of the pieces already reads as a response (and, at exactly one chunk, that
    it does). *)
Theorem sasl_chunks_reassemble encoded :
  str_contains "+" encoded = false -> Z.of_nat (String.length encoded) <= MAX_SASL_RESPONSE_LEN ->
  (String.length encoded = SASL_CHUNK_LEN -> is_ok (decode_response_explained encoded) = true) ->
  (forall p r, encoded = p +:+ r -> r <> "" -> is_ok (decode_response_explained p) = false) ->
  reassemble "" (sasl_response_lines encoded) = [Complete encoded].
Proof.
  intros Hp Hl Hone Hpre. unfold sasl_response_lines. destruct (Nat.leb_spec (String.length encoded) SASL_CHUNK_LEN).
  - cbn [reassemble]. rewrite (proj2 (String.eqb_neq encoded "+")) by (intros ->; done). cbn [andb].
    destruct (Nat.eq_dec (String.length encoded) SASL_CHUNK_LEN) as [E1|N1].
    + rewrite accumulate_full by done. cbn [String.append]. by rewrite Hone.
    + rewrite accumulate_short; [done| |done|done]. by intros ->.
  - apply (chunks_reassemble (String.length encoded) "" encoded); try done.
    + intros ->. cbn [String.length] in *. lia.
    + intros k p _ _ (r & Hr & Hnr). by eapply Hpre.
Qed.
End Join.

(** ** What a verified response rests on *)

Section Sound.
Context {E : SaslEnv}.

(** The evidence for a DID that a response brings, by its method. *)
Inductive proves (c : Challenge) (challenge_bytes : string) (r : ChallengeResponse) (d : DidDocument) : Prop :=
| By_signature id key sig :
    r_method r = None \/ r_method r = Some "crypto" ->
    (id, key) ∈ authentication_keys d -> b64_url_no_pad (r_signature r) = Some sig ->
    key_verify key challenge_bytes sig = true -> proves c challenge_bytes r d
| By_session url endpoint :
    r_method r = Some "pds-session" -> r_challenge_nonce r = Some (ch_nonce c) -> r_pds_url r = Some url ->
    pds_endpoint d = Some endpoint -> trim_end_char "/" url = trim_end_char "/" endpoint ->
    pds_session url (r_signature r) = SessionOf (r_did r) -> proves c challenge_bytes r d
| By_oauth url endpoint proof :
    r_method r = Some "pds-oauth" -> r_challenge_nonce r = Some (ch_nonce c) -> r_pds_url r = Some url ->
    r_dpop_proof r = Some proof -> pds_endpoint d = Some endpoint ->
    trim_end_char "/" url = trim_end_char "/" endpoint ->
    pds_oauth (trim_end_char "/" url) (r_signature r) proof = OAuthSession (r_did r) -> proves c challenge_bytes r d.

Lemma resolve_document_ok did d : resolve_document did = Ok d -> resolve did = Ok d /\ doc_id d = did.
Proof.
  unfold resolve_document. destruct (resolve did) as [d'|]; [|done]. destruct (String.eqb_spec (doc_id d') did); [|done].
  simpl. by intros [= <-].
Qed.

Lemma challenge_nonce_ok c r : verify_challenge_nonce c r = Ok tt -> r_challenge_nonce r = Some (ch_nonce c).
Proof.
  unfold verify_challenge_nonce. destruct (r_challenge_nonce r) as [n|]; [|done].
  destruct (String.eqb_spec n (ch_nonce c)) as [->|]; done.
Qed.

Lemma claimed_pds_ok d url :
  claimed_pds_matches d url = Ok tt ->
  exists endpoint, pds_endpoint d = Some endpoint /\ trim_end_char "/" url = trim_end_char "/" endpoint.
Proof.
  unfold claimed_pds_matches. destruct (pds_endpoint d) as [e|]; [|done]. simpl.
  destruct (String.eqb_spec (trim_end_char "/" url) (trim_end_char "/" e)); [|done]. by exists e.
Qed.

Lemma session_did_ok r did did' : session_did_matches r did = Ok did' -> did = r_did r /\ did' = r_did r.
Proof. unfold session_did_matches. destruct (String.eqb_spec did (r_did r)); [|done]. simpl. by intros [= <-]. Qed.

(** Opens the first step of a chain of [let?] in [H]. *)
Tactic Notation "step_in" hyp(H) "as" ident(x) ident(Hx) :=
  match type of H with res_bind ?e _ = _ => destruct e as [x|] eqn:Hx; [|done]; cbn [res_bind] in H end.

Lemma verify_crypto_ok c bytes r did :
  verify_crypto bytes r = Ok did -> r_method r = None \/ r_method r = Some "crypto" ->
  did = r_did r /\ exists d, resolve did = Ok d /\ doc_id d = did /\ proves c bytes r d.
Proof.
  unfold verify_crypto. intros H Hm. step_in H as sig Hsig. step_in H as d Hd. apply resolve_document_ok in Hd as [Hd Hid].
  destruct (authentication_keys d) as [|k ks] eqn:Ek; [done|]. destruct (existsb _ (k :: ks)) eqn:Ex; [|done].
  injection H as <-. split; [done|]. exists d. split_and!; [done..|]. apply existsb_exists in Ex as ([id key] & Hin & Hv).
  destruct (b64_url_no_pad (r_signature r)) as [b|] eqn:Eb; [|done]. injection Hsig as ->.
  eapply (By_signature _ _ _ _ id key); [done| |done|done]. rewrite Ek. by apply list_elem_of_In.
Qed.

(** A response verifies only for the DID it names, whose document resolves
    under that very name, and only on one of three grounds: a signature of the
    challenge by a key the document lists for authentication, or an answer of
    the data server the document names, to a response that repeats the
    challenge's nonce. *)
Theorem verify_response_sound c bytes r did :
  verify_response c bytes r = Ok did ->
  did = r_did r /\ starts_with "did:" did = true /\
  exists d, resolve did = Ok d /\ doc_id d = did /\ proves c bytes r d.
Proof.
  unfold verify_response. destruct (starts_with "did:" (r_did r)) eqn:Es; [|done]. cbn [negb].
  destruct (r_method r) as [m|] eqn:Em.
  - destruct (String.eqb_spec m "pds-session") as [->|]; [|destruct (String.eqb_spec m "pds-oauth") as [->|];
      [|destruct (String.eqb_spec m "crypto") as [->|]; [|done]]].
    + unfold verify_pds_session. intros H. step_in H as u Hn. destruct u. apply challenge_nonce_ok in Hn.
      step_in H as url Hu. step_in H as d Hd. apply resolve_document_ok in Hd as [Hd Hid]. step_in H as u Hp. destruct u.
      apply claimed_pds_ok in Hp as (e & He & Hp). destruct (r_pds_url r) as [url'|] eqn:Eu; [|done]. injection Hu as ->.
      destruct (pds_session url (r_signature r)) eqn:Ea; [done..|]. apply session_did_ok in H as [-> ->].
      split_and!; [done..|]. exists d. split_and!; [done..|]. by eapply By_session.
    + unfold verify_pds_oauth. intros H. step_in H as u Hn. destruct u. apply challenge_nonce_ok in Hn.
      step_in H as url Hu. step_in H as proof Hpr. step_in H as d Hd. apply resolve_document_ok in Hd as [Hd Hid].
      step_in H as u Hp. destruct u. apply claimed_pds_ok in Hp as (e & He & Hp).
      destruct (r_pds_url r) as [url'|] eqn:Eu; [|done]. injection Hu as ->.
      destruct (r_dpop_proof r) as [proof'|] eqn:Epr; [|done]. injection Hpr as ->.
      destruct (pds_oauth _ _ _) as [|st nn tx| |did'] eqn:Ea; [done|destruct nn; [by destruct (_ && _)|done]|done|].
      apply session_did_ok in H as [-> ->].
      split_and!; [done..|]. exists d. split_and!; [done..|]. by eapply By_oauth.
    + intros H. destruct (verify_crypto_ok c _ _ _ H) as [-> ?]; [by rewrite Em; right|]. done.
  - intros H. destruct (verify_crypto_ok c _ _ _ H) as [-> ?]; [by rewrite Em; left|]. done.
Qed.
End Sound.

(** ** The allowlist *)

Section AllowSpec.
Context {E : SaslEnv} {CF : CaseFold}.

(** The handle is in the domain: it is the domain, or ends in it at a label. *)
Definition in_domain (h dom : string) : Prop :=
  let d := to_lowercase (trim_start_char "." (trim_start_char "@" dom)) in h = d \/ exists sub, h = sub +:+ "." +:+ d.
(** Listed, or claiming by this handle a place in a listed domain. *)
Definition listed (a : Allowlist) (did : string) (handle : option string) : Prop :=
  (allowed_dids a = [] /\ allowed_did_domains a = []) \/ In did (allowed_dids a) \/
  exists h dom, handle = Some h /\ is_valid_handle (to_lowercase (trim_start_char "@" h)) = true /\
    In dom (allowed_did_domains a) /\ in_domain (to_lowercase (trim_start_char "@" h)) dom.

Lemma domain_covers_spec h dom : domain_covers h dom = true <-> in_domain h dom.
Proof.
  unfold domain_covers, in_domain. cbv zeta. rewrite orb_true_iff, String.eqb_eq, ends_with_app. done.
Qed.

Lemma did_allowed_spec a did handle : did_allowed a did handle = true <-> listed a did handle.
Proof.
  assert (Hmain : (if existsb (String.eqb did) (allowed_dids a) then true
      else match handle with
           | None => false
           | Some h => if negb (is_valid_handle (to_lowercase (trim_start_char "@" h))) then false
                       else existsb (domain_covers (to_lowercase (trim_start_char "@" h))) (allowed_did_domains a)
           end) = true <->
     (In did (allowed_dids a) \/
      exists h dom, handle = Some h /\ is_valid_handle (to_lowercase (trim_start_char "@" h)) = true /\
        In dom (allowed_did_domains a) /\ in_domain (to_lowercase (trim_start_char "@" h)) dom)).
  { destruct (existsb (String.eqb did) (allowed_dids a)) eqn:Ex.
    - split; [|done]. intros _. left. apply existsb_exists in Ex as (x & Hin & ->%String.eqb_eq). done.
    - assert (Hni : ~ In did (allowed_dids a)).
      { intros Hin. rewrite existsb_false in Ex. specialize (Ex _ Hin). by rewrite String.eqb_refl in Ex. }
      destruct handle as [h|]; [|naive_solver]. destruct (is_valid_handle _) eqn:Ev; simpl.
      + rewrite existsb_exists. split.
        * intros (dom & Hin & Hc). right. exists h, dom. apply domain_covers_spec in Hc. done.
        * intros [|(h' & dom & [= <-] & _ & Hin & Hd)]; [done|]. exists dom. by rewrite domain_covers_spec.
      + split; [done|]. intros [|(h' & dom & [= <-] & Hv & _)]; congruence. }
  unfold did_allowed, listed. destruct (allowed_dids a) as [|d ds] eqn:Ed, (allowed_did_domains a) as [|m ms] eqn:Em.
  - split; [by left|done].
  - rewrite Hmain. naive_solver.
  - rewrite Hmain. naive_solver.
  - rewrite Hmain. naive_solver.
Qed.

(** The document claims a handle in a listed domain that resolves back. *)
Definition owned_claim (a : Allowlist) (did : string) (akas : list string) : Prop :=
  exists h, In ("at://" +:+ h) akas /\ listed a did (Some h) /\ resolve_handle h = Ok did.
Definition unsure_claim (a : Allowlist) (did : string) (akas : list string) : Prop :=
  exists h e, In ("at://" +:+ h) akas /\ listed a did (Some h) /\ resolve_handle h = Err e.

Lemma check_claims_spec a did akas : forall unsure,
  (check_claims a did unsure akas = Some true <-> owned_claim a did akas) /\
  (check_claims a did unsure akas = None <-> ~ owned_claim a did akas /\ (unsure = true \/ unsure_claim a did akas)).
Proof.
  induction akas as [|aka r IH]; intros unsure; simpl.
  { unfold owned_claim, unsure_claim. destruct unsure; naive_solver. }
  assert (Hskip : forall u, (strip_prefix "at://" aka = None \/
       exists h, strip_prefix "at://" aka = Some h /\
        (~ listed a did (Some h) \/ exists o, resolve_handle h = Ok o /\ o <> did)) ->
      (check_claims a did u r = Some true <-> owned_claim a did (aka :: r)) /\
      (check_claims a did u r = None <-> ~ owned_claim a did (aka :: r) /\ (u = true \/ unsure_claim a did (aka :: r)))).
  { intros u Hk. destruct (IH u) as [IH1 IH2].
    assert (Ho : owned_claim a did (aka :: r) <-> owned_claim a did r).
    { unfold owned_claim. split; [|intros (h & ? & ?); exists h; simpl; tauto].
      intros (h & [->|Hin] & Hl & Hr); [|by exists h]. exfalso. rewrite strip_prefix_app in Hk.
      destruct Hk as [|(h' & [= <-] & [|(o & Hoo & Hne)])]; [done|done|congruence]. }
    assert (Hu : unsure_claim a did (aka :: r) <-> unsure_claim a did r).
    { unfold unsure_claim. split; [|intros (h & e & ? & ?); exists h, e; simpl; tauto].
      intros (h & e & [->|Hin] & Hl & Hr); [|by exists h, e]. exfalso. rewrite strip_prefix_app in Hk.
      destruct Hk as [|(h' & [= <-] & [|(o & Hoo & Hne)])]; [done|done|congruence]. }
    by rewrite Ho, Hu. }
  destruct (strip_prefix "at://" aka) as [h|] eqn:Eh; [|apply Hskip; by left].
  destruct (did_allowed a did (Some h)) eqn:Ea; cbn [negb].
  2:{ apply Hskip. right. exists h. split; [done|]. left. rewrite <-did_allowed_spec. congruence. }
  rewrite did_allowed_spec in Ea. unfold handle_owned_by. apply strip_prefix_some in Eh as ->.
  destruct (resolve_handle h) as [o|e] eqn:Er; [destruct (String.eqb_spec o did) as [->|Hne]|].
  - split; split; try done.
    + intros _. exists h. simpl. tauto.
    + intros [Hn _]. exfalso. apply Hn. exists h. simpl. tauto.
  - apply Hskip. right. exists h. split; [done|]. right. by exists o.
  - destruct (IH true) as [IH1 IH2].
    assert (Ho : owned_claim a did (("at://" +:+ h) :: r) <-> owned_claim a did r).
    { unfold owned_claim. split; [|intros (h' & ? & ?); exists h'; simpl; tauto].
      intros (h' & [Heq|Hin] & Hl & Hr); [|by exists h']. apply (inj (String.append "at://")) in Heq. congruence. }
    rewrite Ho, IH1, IH2. split; [done|]. split; intros [Hn Hd]; (split; [done|]).
    + right. exists h, e. simpl. tauto.
    + by left.
Qed.

(** Who may sign in: a DID that is listed, or whose own document claims a
    handle in a listed domain that in turn resolves back to it. The answer is
    withheld, not negative, when a lookup it needs failed. *)
Theorem did_is_allowed_checked_spec a did handle :
  (did_is_allowed_checked a did handle = Some true <->
     listed a did handle \/
     (allowed_did_domains a <> [] /\ exists d, resolve did = Ok d /\ owned_claim a did (also_known_as d))) /\
  (did_is_allowed_checked a did handle = None ->
     (exists e, resolve did = Err e) \/ exists h e, resolve_handle h = Err e).
Proof.
  unfold did_is_allowed_checked. destruct (did_allowed a did handle) eqn:Ea.
  - rewrite did_allowed_spec in Ea. naive_solver.
  - assert (Hn : ~ listed a did handle) by (rewrite <-did_allowed_spec; congruence).
    destruct (allowed_did_domains a) as [|x xs] eqn:Ed; [naive_solver|].
    destruct (resolve did) as [d|e] eqn:Er; [|naive_solver].
    destruct (check_claims_spec a did (also_known_as d) false) as [H1 H2]. split.
    + rewrite H1. naive_solver.
    + intros H. apply H2 in H as [_ [|(h & e & _ & _ & He)]]; [done|]. right. by exists h, e.
Qed.
End AllowSpec.
