(* ===== verification/SignIn.v ===== *)
(** * Negotiation and sign-in

    Models the handlers of [freeq-server/src/connection/cap.rs]: CAP and
    AUTHENTICATE, with the connect-time allowlist, agents admitted on their
    owner's record, and the three failures after which a connection is closed.
    The verification of a response is [Sasl]'s, the attachment of a session
    [SessionLife]'s. The clock, the nonce of a challenge and the guest number
    are arguments; what a data server says of an owner's agents
    ([read_owner_links]) is a parameter. *)
From stdpp Require Import base gmap strings list pretty fin_maps.
From Stdlib Require Import ZArith Lia Ascii String.
From S2P Require Import Prelude Text Multiline PolicyStore NickMap S2sMessage Channel ChannelOps SessionLife Sasl.
Open Scope string_scope.
Open Scope list_scope.
Open Scope Z_scope.

(** ** State *)

Record WebAuthToken := mkWebToken { wt_did : string; wt_handle : string; wt_created : Z; wt_broker : option string }.
Record AgentLink := mkLink { al_agent_did : string; al_uri : string }.
Record SignConfig := mkConfig {
  allowlist : Allowlist;
  allow_delegated_agents : bool;
  oper_dids : list string;
  server_iroh_id : option string
}.
(** [cap_sets]: for a capability, the sessions that asked for it, where
    [Server] has no set of its own. *)
Record Door := mkDoor {
  life : Life;
  challenge_store : ChallengeStore;
  web_auth_tokens : gmap string WebAuthToken;
  delegated_sessions : gmap string (string * string);
  agent_links : gmap (string * string) (Z * string);
  device_key_tokens : gmap string string;
  cap_sets : gmap string (gset string);
  config : SignConfig
}.
Definition set_life x (d : Door) := mkDoor x (challenge_store d) (web_auth_tokens d) (delegated_sessions d) (agent_links d)
  (device_key_tokens d) (cap_sets d) (config d).
Definition set_store x (d : Door) := mkDoor (life d) x (web_auth_tokens d) (delegated_sessions d) (agent_links d)
  (device_key_tokens d) (cap_sets d) (config d).
Definition set_tokens x (d : Door) := mkDoor (life d) (challenge_store d) x (delegated_sessions d) (agent_links d)
  (device_key_tokens d) (cap_sets d) (config d).
Definition set_delegated x (d : Door) := mkDoor (life d) (challenge_store d) (web_auth_tokens d) x (agent_links d)
  (device_key_tokens d) (cap_sets d) (config d).
Definition set_links x (d : Door) := mkDoor (life d) (challenge_store d) (web_auth_tokens d) (delegated_sessions d) x
  (device_key_tokens d) (cap_sets d) (config d).
Definition set_cap_sets x (d : Door) := mkDoor (life d) (challenge_store d) (web_auth_tokens d) (delegated_sessions d)
  (agent_links d) (device_key_tokens d) x (config d).
Definition on_srv (f : Server -> Server) (d : Door) : Door := set_life (set_srv (f (srv (life d))) (life d)) d.
Definition with_connections (x : gset string) (s : Server) : Server :=
  mkServer (channels s) (names s) (did_sessions s) x (server_opers s) (session_handles s) (session_actor_class s)
    (cap_extended_join s) (cap_message_tags s) (cap_multi_prefix s) (provenance_declarations s) (room_names s)
    (room_activity s) (room_db s) (s2s_manager s) (server_name s) (room_idle_secs s) (room_unclaimed_secs s).
Definition with_opers (x : gset string) (s : Server) : Server :=
  mkServer (channels s) (names s) (did_sessions s) (connections s) x (session_handles s) (session_actor_class s)
    (cap_extended_join s) (cap_message_tags s) (cap_multi_prefix s) (provenance_declarations s) (room_names s)
    (room_activity s) (room_db s) (s2s_manager s) (server_name s) (room_idle_secs s) (room_unclaimed_secs s).
Definition with_handles (x : gmap string string) (s : Server) : Server :=
  mkServer (channels s) (names s) (did_sessions s) (connections s) (server_opers s) x (session_actor_class s)
    (cap_extended_join s) (cap_message_tags s) (cap_multi_prefix s) (provenance_declarations s) (room_names s)
    (room_activity s) (room_db s) (s2s_manager s) (server_name s) (room_idle_secs s) (room_unclaimed_secs s).
Definition with_caps (tags multi ext : gset string) (s : Server) : Server :=
  mkServer (channels s) (names s) (did_sessions s) (connections s) (server_opers s) (session_handles s) (session_actor_class s)
    ext tags multi (provenance_declarations s) (room_names s) (room_activity s) (room_db s) (s2s_manager s)
    (server_name s) (room_idle_secs s) (room_unclaimed_secs s).
Definition with_session_did (sid did : string) (s : Server) : Server :=
  with_names (mkNames (nicks s) (nick_owners (names s)) (did_nicks (names s)) (<[sid := did]> (session_dids (names s)))) s.

Definition set_negotiating (b : bool) (c : Connection) : Connection :=
  mkConn (c_nick c) (c_user c) (c_realname c) (c_authenticated_did c) (c_registered c) b (c_sasl_in_progress c) (c_is_oper c) (c_actor_class c).
Definition set_in_progress (b : bool) (c : Connection) : Connection :=
  mkConn (c_nick c) (c_user c) (c_realname c) (c_authenticated_did c) (c_registered c) (c_cap_negotiating c) b (c_is_oper c) (c_actor_class c).
Definition set_authenticated (did : string) (c : Connection) : Connection :=
  mkConn (c_nick c) (c_user c) (c_realname c) (Some did) (c_registered c) (c_cap_negotiating c) false (c_is_oper c) (c_actor_class c).
Definition set_oper (c : Connection) : Connection :=
  mkConn (c_nick c) (c_user c) (c_realname c) (c_authenticated_did c) (c_registered c) (c_cap_negotiating c) (c_sasl_in_progress c)
    true (c_actor_class c).
Definition with_caps_of (x : gset string) (c : Client) : Client :=
  mkClient (conn c) (ghost_channels c) (pending_msg_key c) (broker_token c) x (sasl_failures c) (dpop_retries c) (sasl_response_buf c).
Definition with_broker (x : option string) (c : Client) : Client :=
  mkClient (conn c) (ghost_channels c) (pending_msg_key c) x (caps c) (sasl_failures c) (dpop_retries c) (sasl_response_buf c).
Definition with_sasl (failures retries : Z) (buf : string) (c : Client) : Client :=
  mkClient (conn c) (ghost_channels c) (pending_msg_key c) (broker_token c) (caps c) failures retries buf.
Definition with_buf (buf : string) (c : Client) : Client := with_sasl (sasl_failures c) (dpop_retries c) buf c.

Inductive SignEffect :=
  | SLife (e : LifeEffect)
  | RefreshDeviceKeys (did : string)                          (* list_record_entries, before the success reply *)
  | CrdtSetNickOwner (nick did : string)
  | ResolveHandle (did session nick : string)                 (* [handle_resolved], in a task of its own *)
  | TryRegister.                                              (* try_complete_registration *)
Definition tell (e : Effect) : SignEffect := SLife (Wire e).

(** ** Refusals *)

Definition close_after_too_many_failures (d : Door) (c : Client) (sid : string) : Door * list SignEffect :=
  if 3 <=? sasl_failures c
  then (on_srv (fun s => with_connections (connections s ∖ {[sid]}) s) d, [tell (Line sid ("ERROR :Too many SASL failures" +:+ CRLF))])
  else (d, []).

Definition refuse_sign_in (d : Door) (c : Client) (sid code text numeric : string) (counted : bool)
    : Door * Client * list SignEffect :=
  let c1 := with_conn (set_in_progress false (conn c)) c in
  let e := [tell (send_fail sid "AUTHENTICATE" code text); tell (Reply sid "904" [nick_or_star (conn c1); numeric])] in
  if counted then
    let c2 := with_sasl (wrap 8 (sasl_failures c1 + 1)) (dpop_retries c1) (sasl_response_buf c1) c1 in
    let '(d', e') := close_after_too_many_failures d c2 sid in (d', c2, e ++ e')
  else (d, c1, e).

Definition sentence_for (code : string) : string :=
  if String.eqb code TEMPORARILY_UNAVAILABLE then "Your identity could not be checked just now. Try again shortly."
  else if String.eqb code SIGNATURE_INVALID then "The signature does not match this identity's keys."
  else if String.eqb code IDENTITY_INVALID then "This identity cannot sign in here: its DID document is not usable."
  else if String.eqb code TOKEN_INVALID then "This sign-in token is not valid. Sign in again to continue."
  else "The sign-in response was not understood.".

(** ** CAP *)

Definition LS_CAPS : string :=
  "sasl message-tags multi-prefix echo-message server-time batch draft/chathistory account-notify account-tag extended-join away-notify draft/read-marker freeq.at/msgsig freeq.at/act".
(** The capabilities a request may name. *)
Definition known_caps : list string :=
  ["sasl"; "message-tags"; "multi-prefix"; "echo-message"; "server-time"; "batch"; "freeq.at/msgsig"; "draft/multiline";
   "draft/chathistory"; "account-notify"; "account-tag"; "extended-join"; "away-notify"; "freeq.at/act"; "draft/read-marker"].
(** Those with no set on the server: the flag of the connection is all. *)
Definition local_caps : list string := ["sasl"; "freeq.at/msgsig"; "draft/chathistory"].

Definition add_cap (cap sid : string) (d : Door) : Door :=
  if mem cap local_caps then d
  else if String.eqb cap "message-tags"
  then on_srv (fun s => with_caps ({[sid]} ∪ cap_message_tags s) (cap_multi_prefix s) (cap_extended_join s) s) d
  else if String.eqb cap "multi-prefix"
  then on_srv (fun s => with_caps (cap_message_tags s) ({[sid]} ∪ cap_multi_prefix s) (cap_extended_join s) s) d
  else if String.eqb cap "extended-join"
  then on_srv (fun s => with_caps (cap_message_tags s) (cap_multi_prefix s) ({[sid]} ∪ cap_extended_join s) s) d
  else set_cap_sets (<[cap := {[sid]} ∪ default ∅ (cap_sets d !! cap)]> (cap_sets d)) d.

(** The loop over the requested capabilities: what was acknowledged, and
    whether all were known. [freeq.at/msgsig] sets no flag. *)
Fixpoint request_caps (d : Door) (c : Client) (sid : string) (requested : list string) (acked : list string) (all_ok : bool)
    : Door * Client * list string * bool :=
  match requested with
  | [] => (d, c, acked, all_ok)
  | cap :: rest =>
      let lower := str_map ascii_lower cap in
      if mem lower known_caps
      then request_caps (add_cap lower sid d)
             (if String.eqb lower "freeq.at/msgsig" then c else with_caps_of ({[lower]} ∪ caps c) c) sid rest (acked ++ [lower]) all_ok
      else request_caps d c sid rest acked false
  end.

(** [split_whitespace]: White_Space of Unicode, in UTF-8. *)
Definition utf8 (l : list Z) : string := string_of_list_ascii (byte_of <$> l).
Definition white_spaces : list string :=
  utf8 <$> [[9]; [10]; [11]; [12]; [13]; [32]; [194; 133]; [194; 160]; [225; 154; 128]; [226; 128; 168]; [226; 128; 169];
            [226; 128; 175]; [226; 129; 159]; [227; 128; 128]]
           ++ map (fun k => [226; 128; 128 + Z.of_nat k]) (seq 0 11).
Fixpoint words (cur : string) (chars : list string) : list string :=
  match chars with
  | [] => if is_empty cur then [] else [cur]
  | ch :: rest =>
      if mem ch white_spaces then (if is_empty cur then words "" rest else cur :: words "" rest)
      else words (cur +:+ ch) rest
  end.
Definition split_whitespace (s : string) : list string := words "" (str_chars s).

Definition handle_cap (d : Door) (c : Client) (sid : string) (params : list string) : Door * Client * list SignEffect :=
  match str_map ascii_upper <$> head params with
  | None => (d, c, [])
  | Some subcmd =>
      if String.eqb subcmd "LS" then
        let c1 := with_conn (set_negotiating true (conn c)) c in
        let list_ := LS_CAPS +:+ " draft/multiline=max-bytes=" +:+ pretty MAX_BYTES +:+ ",max-lines=" +:+ pretty MAX_LINES
                     +:+ match server_iroh_id (config d) with Some id => " iroh=" +:+ id | None => "" end in
        (d, c1, [tell (Reply sid "CAP" [nick_or_star (conn c1); "LS"; list_])])
      else if String.eqb subcmd "REQ" then
        match params !! 1%nat with
        | None => (d, c, [])
        | Some text =>
            let '(d1, c1, acked, all_ok) := request_caps d c sid (split_whitespace text) [] true in
            (d1, c1,
             if all_ok && negb (Nat.eqb (List.length acked) 0)
             then [tell (Reply sid "CAP" [nick_or_star (conn c1); "ACK"; str_join " " acked])]
             else [tell (Reply sid "CAP" [nick_or_star (conn c1); "NAK"; text])])
        end
      else if String.eqb subcmd "END" then (d, with_conn (set_negotiating false (conn c)) c, [TryRegister])
      else (d, c, [])
  end.

(** ** Agents that come in on their owner's record *)

Definition is_ascii_graphic (c : ascii) : bool := (33 <=? byte c) && (byte c <=? 126).
Definition is_wire_did (s : string) : bool :=
  starts_with "did:" s && (4 <? Z.of_nat (String.length s)) && (Z.of_nat (String.length s) <=? 256) && str_all is_ascii_graphic s.

Definition did_web_host (did : string) : option string :=
  rest ← strip_prefix "did:web:" did;
  first ← head (str_split ":" rest);
  let host := str_map ascii_lower first in
  if is_empty host then None else Some host.

Definition DELEGATED_REFUSAL_FLOOR_MS : Z := 1500.

Section Door.
Context {E : SaslEnv} {CF : CaseFold} {TR : @Trim CF} {HO : HashOrder}.
(** [provenance::read_owner_links]: the records on the owner's data server. *)
Variable read_owner_links : string -> result (list AgentLink) string.

Definition owner_may_be_looked_up (a : Allowlist) (owner : string) : bool :=
  match did_web_host owner with
  | Some host => did_allowed a owner (Some host)
  | None => true
  end.

Definition check_delegation (d : Door) (sid agent_did owner : string) (now : Z) : Door * result unit string :=
  if negb (is_wire_did owner) then (d, Err "owner_did is not a DID")
  else if negb (starts_with "did:key:" agent_did) then (d, Err "only an agent with a did:key can be delegated")
  else if starts_with "did:key:" owner then (d, Err "an owner must be an account with a repository")
  else
    let refusal := "the agent records of " +:+ owner +:+ " do not admit this agent" in
    if negb (allow_delegated_agents (config d)) then (d, Err refusal)
    else if negb (owner_may_be_looked_up (allowlist (config d)) owner) then (d, Err refusal)
    else match did_is_allowed_checked (allowlist (config d)) owner None with
         | Some true =>
             match read_owner_links owner with
             | Err _ => (d, Err refusal)
             | Ok links =>
                 match List.find (fun l => String.eqb (al_agent_did l) agent_did) links with
                 | None => (d, Err refusal)
                 | Some link =>
                     (set_delegated (<[sid := (owner, agent_did)]> (delegated_sessions d))
                        (set_links (<[(owner, agent_did) := (now, al_uri link)]> (agent_links d)) d), Ok tt)
                 end
             end
         | _ => (d, Err refusal)
         end.

(** A refusal is held back until [DELEGATED_REFUSAL_FLOOR_MS] has passed; when
    it is sent is no matter here. *)
Definition delegated_admit (d : Door) (sid agent_did : string) (owner_did : option string) (now : Z) : Door * result unit string :=
  match owner_did with
  | None => (d, Err "no owner named")
  | Some owner => check_delegation d sid agent_did owner now
  end.

(** ** AUTHENTICATE *)

(** A one-time token of the web sign-in: spent whether or not it is still
    valid. The handle it brings, and what it verifies to. *)
Definition WEB_TOKEN_SECS : Z := 300.
Definition spend_web_token (d : Door) (c : Client) (token : string) (now : Z)
    : Door * Client * option string * result string VerifyError :=
  match web_auth_tokens d !! token with
  | None => (d, c, None, Err (Refused TOKEN_INVALID "Invalid web auth token"))
  | Some t =>
      let d1 := set_tokens (delete token (web_auth_tokens d)) d in
      if now - wt_created t <? WEB_TOKEN_SECS
      then (d1, with_broker (wt_broker t) c, Some (wt_handle t), Ok (wt_did t))
      else (d1, c, None, Err (Refused TOKEN_INVALID "Web auth token expired"))
  end.

Definition is_web_token (r : ChallengeResponse) : bool := bool_decide (r_method r = Some "web-token").

(** The allowlist, and the owner's record for an agent it does not know: the
    refusal to send, or [None] and whether the agent was let in on a record. *)
Definition may_enter (d : Door) (sid did : string) (handle owner : option string) (now : Z)
    : Door * (option (string * string) * bool) :=
  let own := did_is_allowed_checked (allowlist (config d)) did handle in
  if bool_decide (own = Some true) then (d, (None, false))
  else match delegated_admit d sid did owner now with
       | (d', Ok _) => (d', (None, true))
       | (d', Err reason) =>
           let base := "Not authorized to connect to this server" in
           let text := if is_some owner then base +:+ ": " +:+ reason else base in
           (d', (Some (if bool_decide (own = None) then TEMPORARILY_UNAVAILABLE else NOT_ALLOWED, text), false))
       end.

(** [broadcast_account_notify]: those in a shared channel that asked for it. *)
Definition account_notify (d : Door) (sid nick did : string) : list Effect :=
  let s := srv (life d) in
  let asked := default ∅ (cap_sets d !! "account-notify") in
  let targets := ⋃ (map (fun nc : string * ChannelState =>
                           if bool_decide (sid ∈ members nc.2) then filter (fun x => x <> sid /\ x ∈ asked) (members nc.2) else ∅)
                     (hash_iter (channels s))) in
  Channel.send_to s (set_iter targets) (":" +:+ nick +:+ "!~u@" +:+ cloak_for_did (Some did) +:+ " ACCOUNT " +:+ did +:+ CRLF).

(** The identity is verified and allowed. [guest] is what a nick clash may need. *)
Definition complete_sign_in (d : Door) (c : Client) (sid did : string) (r : ChallengeResponse) (is_delegated : bool)
    (guest : string) (now : Z) : Door * Client * list SignEffect :=
  let unseen := match broker_token c with
                | Some token => negb (existsb (fun kt : string * string => String.eqb kt.2 token) (map_to_list (device_key_tokens d)))
                | None => true
                end in
  let e0 := if is_web_token r && unseen then [RefreshDeviceKeys did] else [] in
  let c1 := with_conn (set_authenticated did (conn c)) c in
  let d1 := if is_delegated then d else set_delegated (delete sid (delegated_sessions d)) d in
  let d2 := on_srv (with_session_did sid did) d1 in
  let '(l3, c2, e3) := attach_same_did (life d2) c1 sid guest now in
  let d3 := set_life l3 d2 in
  let '(d4, e4) := match c_nick (conn c2) with
                   | Some nick =>
                       match bind_identity (names (srv (life d3))) did nick with
                       | (Bound, n) => (on_srv (with_names n) d3, [CrdtSetNickOwner (to_lowercase nick) did])
                       | (ConflictOwnedByOther _, n) => (on_srv (with_names n) d3, [])
                       end
                   | None => (d3, [])
                   end in
  let nick := nick_or_star (conn c2) in
  let oper := existsb (String.eqb did) (oper_dids (config d4)) in
  let d5 := if oper then on_srv (fun s => with_opers ({[sid]} ∪ server_opers s) s) d4 else d4 in
  let c3 := if oper then with_conn (set_oper (conn c2)) c2 else c2 in
  (d5, c3,
   e0 ++ map SLife e3 ++ e4 ++ [ResolveHandle did sid (default "" (c_nick (conn c2)))]
   ++ (if oper then [tell (Reply sid "MODE" [nick; "+o"])] else [])
   ++ [tell (Reply sid "900" [nick; hostmask (conn c3); did; "You are now logged in as " +:+ did]);
       tell (Reply sid "903" [nick; "SASL authentication successful"]);
       tell (Reply sid "NOTICE" ["*"; "API-BEARER " +:+ sid])]
   ++ map tell (account_notify d5 sid nick did)).

(** The task that looks up the handle; [plugin] is the answer of the plugins to
    the event: another DID and another handle for the session. *)
Definition handle_resolved (d : Door) (did sid : string) (plugin : option string * option string) : Door :=
  let found := match resolve did with
               | Ok doc => head (omap (strip_prefix "at://") (also_known_as doc))
               | Err _ => None
               end in
  let d1 := match found with Some h => on_srv (fun s => with_handles (<[sid := h]> (session_handles s)) s) d | None => d end in
  let d2 := match plugin.1 with Some other => on_srv (with_session_did sid other) d1 | None => d1 end in
  match plugin.2 with Some h => on_srv (fun s => with_handles (<[sid := h]> (session_handles s)) s) d2 | None => d2 end.

Definition answer_challenge (d : Door) (c : Client) (sid : string) (r : ChallengeResponse) (nonce guest : string) (now : Z)
    : Door * Client * list SignEffect :=
  let '(d1, c1, handle, web) :=
    if is_web_token r then let '(d', c', h, v) := spend_web_token d c (r_signature r) now in (d', c', h, Some v)
    else (d, c, None, None) in
  let '(st, taken) := Sasl.take (challenge_store d1) sid now in
  let d2 := set_store st d1 in
  match taken with
  | Err why =>
      let numeric := "SASL authentication failed (no challenge)" in
      match why with
      | Expired => refuse_sign_in d2 c1 sid TEMPORARILY_UNAVAILABLE (sentence_for TEMPORARILY_UNAVAILABLE) numeric false
      | Unknown => refuse_sign_in d2 c1 sid BAD_RESPONSE numeric numeric false
      end
  | Ok (challenge, challenge_bytes) =>
      match default (verify_response challenge challenge_bytes r) web with
      | Ok did =>
          match may_enter d2 sid did handle (r_owner_did r) now with
          | (d3, (Some (code, refusal), _)) =>
              let text := if String.eqb code TEMPORARILY_UNAVAILABLE then sentence_for TEMPORARILY_UNAVAILABLE else refusal in
              refuse_sign_in d3 c1 sid code text refusal true
          | (d3, (None, is_delegated)) => complete_sign_in d3 c1 sid did r is_delegated guest now
          end
      | Err (DpopNonce n) =>
          let retries := wrap 8 (dpop_retries c1 + 1) in
          let c2 := with_sasl (sasl_failures c1) retries (sasl_response_buf c1) c1 in
          if 3 <? retries then
            let text := "SASL authentication failed (DPoP nonce retry limit exceeded)" in
            refuse_sign_in d2 c2 sid TOKEN_INVALID text text true
          else
            let '(st', encoded) := create (challenge_store d2) sid nonce now in
            (set_store st' d2, c2,
             [tell (Line sid (":" +:+ server_name (srv (life d2)) +:+ " NOTICE " +:+ nick_or_star (conn c2) +:+ " :DPOP_NONCE " +:+ n +:+ CRLF));
              tell (Line sid ("AUTHENTICATE " +:+ encoded +:+ CRLF))])
      | Err (Refused code _) => refuse_sign_in d2 c1 sid code (sentence_for code) "SASL authentication failed" true
      end
  end.

Definition handle_authenticate (d : Door) (c : Client) (sid : string) (params : list string) (nonce guest : string) (now : Z)
    : Door * Client * list SignEffect :=
  let param := default "" (head params) in
  if 3 <=? sasl_failures c then (d, c, [])
  else if String.eqb param "*" then
    let text := "SASL authentication aborted" in refuse_sign_in d (with_buf "" c) sid ABORTED text text false
  else if String.eqb param "+" && is_empty (sasl_response_buf c) then (d, c, [])
  else if eq_ignore_case param "ATPROTO-CHALLENGE" then
    let '(st, encoded) := create (challenge_store d) sid nonce now in
    (set_store st d, with_sasl (sasl_failures c) 0 "" (with_conn (set_in_progress true (conn c)) c),
     [tell (Line sid ("AUTHENTICATE " +:+ encoded +:+ CRLF))])
  else if c_sasl_in_progress (conn c) then
    let '(buf, piece) := accumulate_response (sasl_response_buf c) param in
    let c1 := with_buf buf c in
    match piece with
    | Partial => (d, c1, [])
    | TooLong => let text := "SASL response too long" in refuse_sign_in d c1 sid BAD_RESPONSE text text true
    | Complete full =>
        match decode_response_explained full with
        | Ok r => answer_challenge d c1 sid r nonce guest now
        | Err why => let text := "SASL authentication failed (bad response: " +:+ why +:+ ")" in
                     refuse_sign_in d c1 sid BAD_RESPONSE text text false
        end
    end
  else let text := "Unsupported SASL mechanism" in refuse_sign_in d c sid MECHANISM_UNSUPPORTED text text false.
End Door.
