(* ===== verification/SignInSpec.v ===== *)
(** * What a sign-in rests on

    Theorems about [SignIn]: on what grounds a connection comes to hold an
    identity, how often it may fail, and what a capability request leaves. *)
From stdpp Require Import base gmap strings list pretty fin_maps.
From Stdlib Require Import ZArith Lia Ascii String.
From S2P Require Import Prelude Text PolicyStore NickMap S2sMessage Channel ChannelOps SessionLife SessionSpec Sasl SignIn.
Open Scope string_scope.
Open Scope list_scope.
Open Scope Z_scope.

Section Sound.
Context {E : SaslEnv} {CF : CaseFold} {TR : @Trim CF} {HO : HashOrder}.
Variable read_owner_links : string -> result (list AgentLink) string.

(** ** Attaching keeps who the client is *)

Lemma reclaim_nick_auth v c did g guest :
  c_authenticated_did (conn (reclaim_nick v c did g guest).1.2) = c_authenticated_did (conn c).
Proof. unfold reclaim_nick. by repeat case_match. Qed.
Lemma first_session_auth v c sid did : c_authenticated_did (conn (first_session v c sid did).2) = c_authenticated_did (conn c).
Proof. unfold first_session. by repeat case_match. Qed.
Lemma adopt_nick_auth v c sid did : c_authenticated_did (conn (adopt_nick v c sid did).2) = c_authenticated_did (conn c).
Proof. unfold adopt_nick. by repeat case_match. Qed.

Lemma attach_auth s c sid guest now :
  c_authenticated_did (conn (attach_same_did s c sid guest now).1.2) = c_authenticated_did (conn c).
Proof.
  unfold attach_same_did. destruct (c_authenticated_did (conn c)) as [did|] eqn:Hd; [|done]. rewrite <-Hd.
  destruct (ghost_sessions s !! did) as [g|].
  - unfold reclaim_ghost. pose proof (reclaim_nick_auth (with_did_sessions (<[did:={[sid]} ∪ default ∅ (did_sessions (srv s) !! did)]> (did_sessions (srv s))) (srv s)) c did g guest) as Hr.
    simpl. destruct (reclaim_nick _ c did g guest) as [[s1 c1] eff]. by destruct (probe_sibling_liveness _ _ now).
  - destruct (List.filter _ _) as [|x existing].
    + set (v := with_did_sessions _ _). pose proof (first_session_auth v c sid did) as Hr. by destruct (first_session v c sid did).
    + unfold attach_device. destruct (probe_sibling_liveness _ _ now) as [s1 e].
      pose proof (adopt_nick_auth (srv s1) c sid did) as Hr. by destruct (adopt_nick _ c sid did).
Qed.

(** ** Grounds *)

(** What the allowlist, or an owner's record, must say. *)
Definition welcome (d d' : Door) (sid did : string) (handle owner : option string) : Prop :=
  did_is_allowed_checked (allowlist (config d)) did handle = Some true \/
  exists o links link, owner = Some o /\ allow_delegated_agents (config d) = true /\
    starts_with "did:key:" did = true /\ did_is_allowed_checked (allowlist (config d)) o None = Some true /\
    read_owner_links o = Ok links /\ In link links /\ al_agent_did link = did /\ delegated_sessions d' !! sid = Some (o, did).

(** The evidence of a response to a pending challenge. *)
Definition evidence (d d' : Door) (now : Z) (challenge : Challenge) (bytes : string) (r : ChallengeResponse) (did : string)
    (handle : option string) : Prop :=
  (exists t, is_web_token r = true /\ web_auth_tokens d !! r_signature r = Some t /\ wt_did t = did /\ handle = Some (wt_handle t) /\
     now - wt_created t < WEB_TOKEN_SECS /\ web_auth_tokens d' !! r_signature r = None) \/
  (is_web_token r = false /\ did = r_did r /\ handle = None /\
     exists doc, resolve did = Ok doc /\ doc_id doc = did /\ proves challenge bytes r doc).

Definition granted (d d' : Door) (sid : string) (now : Z) (did : string) (r : ChallengeResponse) : Prop :=
  exists challenge bytes handle,
    pending (challenge_store d) !! sid = Some (mkStored challenge bytes) /\
    Z.abs (now - ch_timestamp challenge) <= timeout_secs (challenge_store d) /\
    pending (challenge_store d') !! sid = None /\
    evidence d d' now challenge bytes r did handle /\ welcome d d' sid did handle (r_owner_did r).

Lemma check_delegation_ok d sid agent owner now d' :
  check_delegation read_owner_links d sid agent owner now = (d', Ok tt) ->
  allow_delegated_agents (config d) = true /\ starts_with "did:key:" agent = true /\
  did_is_allowed_checked (allowlist (config d)) owner None = Some true /\
  (exists links link, read_owner_links owner = Ok links /\ In link links /\ al_agent_did link = agent) /\
  delegated_sessions d' !! sid = Some (owner, agent) /\ challenge_store d' = challenge_store d /\
  web_auth_tokens d' = web_auth_tokens d.
Proof.
  unfold check_delegation. destruct (negb (is_wire_did owner)); [done|].
  destruct (starts_with "did:key:" agent) eqn:Ea; [|done]. cbn [negb]. destruct (starts_with "did:key:" owner); [done|].
  destruct (allow_delegated_agents _); [|done]. cbn [negb]. destruct (owner_may_be_looked_up _ _); [|done]. cbn [negb].
  destruct (did_is_allowed_checked _ owner None) as [[]|]; [|done..].
  destruct (read_owner_links owner) as [links|] eqn:El; [|done].
  destruct (List.find _ links) as [link|] eqn:Ef; [|done]. intros [= <-]. apply List.find_some in Ef as [Hin He].
  split_and!; try done.
  - exists links, link. split_and!; [done..|]. by apply String.eqb_eq.
  - simpl. apply lookup_insert_eq.
Qed.

Lemma allowed_entry_ok d sid did handle owner now d' dg :
  may_enter read_owner_links d sid did handle owner now = (d', (None, dg)) ->
  (dg = false /\ d' = d /\ did_is_allowed_checked (allowlist (config d)) did handle = Some true) \/
  (dg = true /\ challenge_store d' = challenge_store d /\ web_auth_tokens d' = web_auth_tokens d /\ welcome d d' sid did handle owner).
Proof.
  unfold may_enter. case_bool_decide as Ho; [intros [= <- <-]; by left|].
  unfold delegated_admit. destruct owner as [o|]; [|done].
  destruct (check_delegation _ _ _ _ _ _) as [d1 [[]|why]] eqn:Ec; [|done]. intros [= -> <-]. right.
  apply check_delegation_ok in Ec as (H1 & H2 & H3 & (links & link & H4 & H5 & H6) & H7 & H8 & H9).
  split_and!; [done..|]. right. exists o, links, link. done.
Qed.

Lemma complete_sign_in_spec d c sid did r dg guest now d' c' e :
  complete_sign_in d c sid did r dg guest now = (d', c', e) ->
  c_authenticated_did (conn c') = Some did /\ challenge_store d' = challenge_store d /\ web_auth_tokens d' = web_auth_tokens d /\
  (dg = true -> delegated_sessions d' = delegated_sessions d) /\ config d' = config d.
Proof.
  unfold complete_sign_in. set (c1 := with_conn _ c). set (d2 := on_srv _ _).
  pose proof (attach_auth (life d2) c1 sid guest now) as Ha. destruct (attach_same_did _ _ _ _ _) as [[l3 c2] e3]. simpl in Ha.
  set (q := match c_nick (conn c2) with Some _ => _ | None => _ end). destruct q as [d4 e4] eqn:Eq.
  assert (H4 : challenge_store d4 = challenge_store d /\ web_auth_tokens d4 = web_auth_tokens d /\
               (dg = true -> delegated_sessions d4 = delegated_sessions d) /\ config d4 = config d).
  { unfold q in Eq. destruct (c_nick (conn c2)); [destruct (bind_identity _ _ _) as [[] n]|]; injection Eq as <- _; by destruct dg. }
  destruct H4 as (H41 & H42 & H43 & H44). intros H. injection H as <- <- _. destruct (existsb _ _); split_and!; done.
Qed.

Lemma refuse_auth d c sid code text numeric counted :
  c_authenticated_did (conn (refuse_sign_in d c sid code text numeric counted).1.2) = c_authenticated_did (conn c).
Proof. unfold refuse_sign_in. destruct counted; [|done]. by destruct (close_after_too_many_failures _ _ _). Qed.

(** The goal after a refusal: the identity is the one the client had. *)
Ltac refused :=
  match goal with |- context [refuse_sign_in ?a ?b ?c ?d ?e ?f ?g] =>
    let Hr := fresh in pose proof (refuse_auth a b c d e f g) as Hr; destruct (refuse_sign_in a b c d e f g) as [[? ?] ?];
    simpl in Hr; intros; left; congruence
  end.

Lemma spend_web_token_spec d c token now d1 c1 h v :
  spend_web_token d c token now = (d1, c1, h, v) ->
  c_authenticated_did (conn c1) = c_authenticated_did (conn c) /\ challenge_store d1 = challenge_store d /\ config d1 = config d /\
  web_auth_tokens d1 !! token = None /\
  forall did, v = Ok did -> exists t, web_auth_tokens d !! token = Some t /\ wt_did t = did /\ h = Some (wt_handle t) /\
    now - wt_created t < WEB_TOKEN_SECS.
Proof.
  unfold spend_web_token. destruct (web_auth_tokens d !! token) as [t|] eqn:Et; [|by intros [= <- <- <- <-]].
  destruct (Z.ltb_spec (now - wt_created t) WEB_TOKEN_SECS); intros [= <- <- <- <-]; (split_and!; [done|done|done|apply lookup_delete_eq|]).
  - intros did [= <-]. eauto.
  - done.
Qed.

Lemma take_spec st sid now st' r :
  Sasl.take st sid now = (st', Ok r) ->
  pending st !! sid = Some (mkStored r.1 r.2) /\ Z.abs (now - ch_timestamp r.1) <= timeout_secs st /\ pending st' !! sid = None.
Proof.
  unfold Sasl.take. destruct (pending st !! sid) as [[ch raw]|] eqn:Ep; [|done]. simpl.
  unfold outlived. destruct (Z.ltb_spec (timeout_secs st) (Z.abs (now - ch_timestamp ch))); [done|].
  intros [= <- <-]. simpl. split_and!; [done..|apply lookup_delete_eq].
Qed.

Lemma answer_sound d c sid r nonce guest now did :
  let '(d', c', _) := answer_challenge read_owner_links d c sid r nonce guest now in
  c_authenticated_did (conn c') = Some did ->
  c_authenticated_did (conn c) = Some did \/ granted d d' sid now did r.
Proof.
  unfold answer_challenge.
  set (q := if is_web_token r then _ else _). destruct q as [[[d1 c1] handle] web] eqn:Eq.
  assert (H1 : c_authenticated_did (conn c1) = c_authenticated_did (conn c) /\ challenge_store d1 = challenge_store d /\ config d1 = config d /\
    match web with
    | Some v => is_web_token r = true /\ web_auth_tokens d1 !! r_signature r = None /\
        forall did, v = Ok did -> exists t, web_auth_tokens d !! r_signature r = Some t /\ wt_did t = did /\ handle = Some (wt_handle t) /\
          now - wt_created t < WEB_TOKEN_SECS
    | None => is_web_token r = false /\ handle = None
    end).
  { unfold q in Eq. destruct (is_web_token r) eqn:Ew; [|by injection Eq as <- <- <- <-].
    destruct (spend_web_token d c (r_signature r) now) as [[[d0 c0] h0] v0] eqn:Es. injection Eq as <- <- <- <-.
    apply spend_web_token_spec in Es. naive_solver. }
  clear q Eq. destruct H1 as (Hc1 & Hst & Hcfg & Hweb). rewrite Hst.
  destruct (Sasl.take (challenge_store d) sid now) as [st [[challenge bytes]|why]] eqn:Et.
  2:{ destruct why; refused. }
  apply take_spec in Et as (Hp & Hage & Hgone).
  destruct (default _ web) as [did0|[n|code why]] eqn:Ev.
  - destruct (may_enter read_owner_links _ sid did0 handle (r_owner_did r) now) as [d3 [[[code refusal]|] dg]] eqn:Ea.
    + refused.
    + destruct (complete_sign_in d3 c1 sid did0 r dg guest now) as [[d' c'] e] eqn:Ec.
      apply complete_sign_in_spec in Ec as (Hc' & Hst' & Htok & Hdel & Hcfg'). intros H. right.
      assert (did0 = did) as -> by congruence.
      assert (H3 : challenge_store d3 = st /\ web_auth_tokens d3 = web_auth_tokens d1 /\ welcome d d' sid did handle (r_owner_did r)).
      { apply allowed_entry_ok in Ea as [(-> & -> & Ha)|(-> & E1 & E2 & Ha)].
        - simpl in *. split_and!; [done..|]. left. by rewrite <-Hcfg.
        - simpl in *. split_and!; [done..|]. destruct Ha as [Ha|Ha]; [left; by rewrite <-Hcfg|right].
          simpl in Ha. rewrite Hcfg in Ha. by rewrite Hdel. }
      destruct H3 as (E1 & E2 & HW). exists challenge, bytes, handle. split_and!; [done|done| | |done].
      * by rewrite Hst', E1.
      * destruct web as [v|]; simpl in Ev.
        -- left. destruct Hweb as (Hw & Hnone & Hv). destruct (Hv did Ev) as (t & Ht1 & Ht2 & Ht3 & Ht4).
           exists t. split_and!; [done..|]. by rewrite Htok, E2.
        -- right. destruct Hweb as [Hw ->]. apply verify_response_sound in Ev as (-> & _ & Hdoc). done.
  - destruct (3 <? _).
    + refused.
    + destruct (create _ _ _ _). simpl. intros H. left. congruence.
  - refused.
Qed.


(** ** Failures *)

(** At most three failures are counted, and a connection that has reached three
    is no longer on file: nothing more is sent to it. *)
Definition failures_ok (d : Door) (c : Client) (sid : string) : Prop :=
  0 <= sasl_failures c <= 3 /\ (sasl_failures c = 3 -> sid ∉ connections (srv (life d))).

Lemma refuse_failures d c sid code text numeric counted :
  0 <= sasl_failures c < 3 ->
  let '(d', c', _) := refuse_sign_in d c sid code text numeric counted in failures_ok d' c' sid.
Proof.
  intros Hf. unfold refuse_sign_in. destruct counted; [|by split; simpl; lia].
  unfold close_after_too_many_failures, with_sasl, wrap. simpl. rewrite Z.mod_small by lia.
  destruct (Z.leb_spec 3 (sasl_failures c + 1)); split; simpl; try lia. intros _. set_solver.
Qed.

Lemma attach_failures s c sid guest now : sasl_failures (attach_same_did s c sid guest now).1.2 = sasl_failures c.
Proof.
  unfold attach_same_did. destruct (c_authenticated_did (conn c)) as [did|]; [|done].
  destruct (ghost_sessions s !! did) as [g|].
  - unfold reclaim_ghost, reclaim_nick. repeat case_match; simplify_eq; done.
  - destruct (List.filter _ _) as [|x existing].
    + unfold first_session. repeat case_match; simplify_eq; done.
    + unfold attach_device, adopt_nick. repeat case_match; simplify_eq; done.
Qed.

Lemma complete_failures d c sid did r dg guest now d' c' e :
  complete_sign_in d c sid did r dg guest now = (d', c', e) -> sasl_failures c' = sasl_failures c.
Proof.
  unfold complete_sign_in. set (c1 := with_conn _ c). set (d2 := on_srv _ _).
  pose proof (attach_failures (life d2) c1 sid guest now) as Ha. destruct (attach_same_did _ _ _ _ _) as [[l3 c2] e3]. simpl in Ha.
  destruct (match c_nick (conn c2) with Some _ => _ | None => _ end) as [d4 e4]. intros H. injection H as _ <- _.
  by destruct (existsb _ _).
Qed.

Lemma below_three d c sid : 0 <= sasl_failures c < 3 -> failures_ok d c sid.
Proof. intros. split; lia. Qed.

(** The goal after a refusal. *)
Ltac counts :=
  match goal with |- context [refuse_sign_in ?a ?b ?c ?d ?e ?f ?g] =>
    exact (refuse_failures a b c d e f g ltac:(simpl in *; lia))
  end.

Lemma answer_failures d c sid r nonce guest now :
  0 <= sasl_failures c < 3 ->
  let '(d', c', _) := answer_challenge read_owner_links d c sid r nonce guest now in failures_ok d' c' sid.
Proof.
  intros Hf. unfold answer_challenge.
  set (q := if is_web_token r then _ else _). destruct q as [[[d1 c1] handle] web] eqn:Eq.
  assert (Hc1 : 0 <= sasl_failures c1 < 3).
  { unfold q, spend_web_token in Eq. repeat case_match; simplify_eq; done. }
  clear q Eq. destruct (Sasl.take _ sid now) as [st [[challenge bytes]|[]]]; [|counts|counts].
  destruct (default _ web) as [did|[n|code why]]; [|destruct (3 <? _); [counts|]|counts].
  - destruct (may_enter _ _ _ _ _ _ _) as [d3 [[[code refusal]|] dg]]; [counts|].
    destruct (complete_sign_in _ _ _ _ _ _ _ _) as [[d' c'] e] eqn:Ec. apply complete_failures in Ec.
    apply below_three. by rewrite Ec.
  - destruct (create _ _ _ _). by apply below_three.
Qed.

Lemma authenticate_failures d c sid params nonce guest now :
  0 <= sasl_failures c < 3 ->
  let '(d', c', _) := handle_authenticate read_owner_links d c sid params nonce guest now in failures_ok d' c' sid.
Proof.
  intros Hf. unfold handle_authenticate. destruct (Z.leb_spec 3 (sasl_failures c)); [lia|].
  destruct (String.eqb _ "*"); [counts|]. destruct (_ && _); [by apply below_three|].
  destruct (eq_ignore_case _ _); [destruct (create _ _ _ _); by apply below_three|].
  destruct (c_sasl_in_progress (conn c)); [|counts].
  destruct (accumulate_response _ _) as [buf [|full|]]; [by apply below_three| |counts].
  destruct (decode_response_explained full) as [r|why]; [|counts]. by apply answer_failures.
Qed.

(** Whatever a client sends, at most three failures are counted, the third
    removes the connection, and from then on AUTHENTICATE does nothing. *)
Theorem sasl_failures_bounded d c sid params nonce guest now :
  failures_ok d c sid ->
  let '(d', c', e) := handle_authenticate read_owner_links d c sid params nonce guest now in
  failures_ok d' c' sid /\ (sasl_failures c = 3 -> d' = d /\ c' = c /\ e = []).
Proof.
  intros Hok. destruct (decide (sasl_failures c = 3)) as [E3|Hne].
  - unfold handle_authenticate. rewrite E3. done.
  - destruct Hok as [Hf _]. pose proof (authenticate_failures d c sid params nonce guest now ltac:(lia)) as H.
    destruct (handle_authenticate _ _ _ _ _ _ _ _) as [[d' c'] e]. done.
Qed.

(** ** Where the code departs from what it means to do *)

(** A web token sent while no challenge is pending is spent, although the
    sign-in is refused for lack of the challenge. *)
Theorem token_spent_without_challenge d c sid r nonce guest now :
  is_web_token r = true -> pending (challenge_store d) !! sid = None ->
  let '(d', c', _) := answer_challenge read_owner_links d c sid r nonce guest now in
  web_auth_tokens d' !! r_signature r = None /\ c_authenticated_did (conn c') = c_authenticated_did (conn c).
Proof.
  intros Hw Hp. unfold answer_challenge. rewrite Hw.
  destruct (spend_web_token d c (r_signature r) now) as [[[d1 c1] h] v] eqn:Es.
  apply spend_web_token_spec in Es as (H1 & H2 & _ & H3 & _). rewrite H2. unfold Sasl.take. rewrite Hp. simpl. done.
Qed.
End Sound.

Section Requests.
Context {CF : CaseFold}.

Lemma request_caps_spec d c sid l acked ok :
  let '(d', c', acked', ok') := request_caps d c sid l acked ok in
  conn c' = conn c /\ caps c ⊆ caps c' /\
  (forall w, w ∈ l -> str_map ascii_lower w ∈ known_caps -> str_map ascii_lower w <> "freeq.at/msgsig" -> str_map ascii_lower w ∈ caps c') /\
  (ok' = true <-> ok = true /\ Forall (fun w => str_map ascii_lower w ∈ known_caps) l).
Proof.
  revert d c acked ok. induction l as [|w l IH]; intros d c acked ok; cbn [request_caps].
  - split_and!; [done..|intros w Hw; set_solver|]. split; [by intros ->|naive_solver].
  - destruct (mem (str_map ascii_lower w) known_caps) eqn:Ek.
    + apply mem_spec in Ek.
      match goal with |- context [request_caps ?a ?b ?c ?d ?e ?f] => specialize (IH a b e f); destruct (request_caps a b c d e f) as [[[d' c'] ak] ok'] end.
      destruct IH as (H1 & H2 & H3 & H4). split_and!.
      * rewrite H1. by destruct (String.eqb _ _).
      * etransitivity; [|exact H2]. destruct (String.eqb _ _); simpl; set_solver.
      * intros x [->|Hx]%elem_of_cons Hk Hm; [|by apply H3]. apply H2. apply String.eqb_neq in Hm. rewrite Hm. simpl. set_solver.
      * rewrite H4, Forall_cons. naive_solver.
    + rewrite <-not_true_iff_false, mem_spec in Ek. specialize (IH d c acked false).
      destruct (request_caps d c sid l acked false) as [[[d' c'] ak] ok']. destruct IH as (H1 & H2 & H3 & H4). split_and!; [done..| |].
      * intros x [->|Hx]%elem_of_cons Hk Hm; [done|by apply H3].
      * rewrite H4, Forall_cons. naive_solver.
Qed.

(** A request with a capability the server does not know is answered NAK, and
    yet the capabilities it does know are switched on. *)
Theorem nak_still_enables d c sid text w bad :
  In bad (split_whitespace text) -> str_map ascii_lower bad ∉ known_caps ->
  In w (split_whitespace text) -> str_map ascii_lower w ∈ known_caps -> str_map ascii_lower w <> "freeq.at/msgsig" ->
  let '(_, c', e) := handle_cap d c sid ["REQ"; text] in
  e = [tell (Reply sid "CAP" [nick_or_star (conn c); "NAK"; text])] /\ str_map ascii_lower w ∈ caps c'.
Proof.
  intros Hb Hbad Hw Hk Hm. unfold handle_cap. cbn [head fmap option_fmap option_map].
  change (str_map ascii_upper "REQ") with "REQ". change (String.eqb "REQ" "LS") with false. change (String.eqb "REQ" "REQ") with true.
  cbn [lookup list_lookup]. pose proof (request_caps_spec d c sid (split_whitespace text) [] true) as H.
  destruct (request_caps _ _ _ _ _ _) as [[[d' c'] ak] ok']. destruct H as (H1 & _ & H3 & H4).
  apply list_elem_of_In in Hw, Hb. split; [|by apply H3].
  destruct ok'; [|by rewrite <-H1]. destruct H4 as [H4 _]. destruct (H4 eq_refl) as [_ HF]. rewrite Forall_forall in HF. by specialize (HF _ Hb).
Qed.

End Requests.
