(* ===== verification/SignInRuns.v ===== *)
(** * Sign-ins on a concrete server

    An environment small enough to compute with, witnesses for the theorems of
    [SignInSpec] and [Sasl], and runs of sign-ins that are granted and refused. *)
From stdpp Require Import base gmap strings list fin_maps.
From Stdlib Require Import ZArith Lia String Ascii.
From S2P Require Import Prelude Text Multiline PolicyStore NickMap RoomTables Channel ChannelOps ChannelInv ChannelRuns SessionLife SessionSpec SessionRuns Sasl SignIn SignInSpec.
Open Scope string_scope.
Open Scope list_scope.
Open Scope Z_scope.

#[local] Existing Instances ascii_fold ascii_trimming map_order merge_order.

(** Responses by name. A signature is the signed text itself; a key is any 32
    bytes; one identity and one agent have documents. *)
Definition answer (did method signature : string) (owner : option string) : ChallengeResponse :=
  mkResponse did signature (if is_empty method then None else Some method) None None None owner.
Definition toy_json_value (s : string) : option JsonValue :=
  let known r := Some (mkJson (Some ["did"; "signature"]) (Ok r)) in
  if String.eqb s "zoe" then known (answer "did:plc:zoe" "" "challenge for t1" None)
  else if String.eqb s "forged" then known (answer "did:plc:zoe" "" "something else" None)
  else if String.eqb s "agent" then known (answer "did:key:bot" "" "challenge for t1" (Some "did:plc:zoe"))
  else if String.eqb s "web" then known (answer "" "web-token" "token1" None)
  else None.
Definition toy_document (did : string) : DidDocument :=
  mkDoc did ["at://zoe.example"] [] [Inline (mkVm "#k" (Some "zkey"))] [] [].
Definition toy_key : string := String (byte_of 237) (String (byte_of 1) (string_of_list_ascii (repeat "k"%char 32))).
#[local] Instance toy_sasl : SaslEnv := {|
  b64_url_no_pad := Some; b64_url_no_pad_encode := fun s => s; b64_standard := Some; b64_url := Some; b64_standard_no_pad := Some;
  json_value := toy_json_value;
  challenge_json := fun c => "challenge for " +:+ ch_session_id c;
  base58 := fun _ => Some toy_key;
  secp_key_ok := fun _ => true; ed_key_ok := fun _ => true;
  secp_verify := fun _ _ _ => false;
  ed_verify := fun _ m s => String.eqb m s;
  resolve := fun did => if starts_with "did:" did then Ok (toy_document did) else Err "not a DID";
  resolve_handle := fun _ => Err "no network";
  pds_session := fun _ _ => SessionUnreadable "no network";
  pds_oauth := fun _ _ _ => OAuthUnreachable "no network"
|}.
Definition links_of (owner : string) : result (list AgentLink) string :=
  if String.eqb owner "did:plc:zoe" then Ok [mkLink "did:key:bot" "at://zoe/1"] else Err "no records".

Definition door (allowed : list string) : Door :=
  mkDoor (open_connection "t1" home) (store_new 60) {["token1" := mkWebToken "did:plc:zoe" "zoe.example" 100 (Some "login")]} ∅ ∅ ∅ ∅
    (mkConfig (mkAllow allowed []) true ["did:plc:zoe"] None).
Definition stranger : Client := client (mkConn (Some "zoe") (Some "z") None None false true false false Human).

Definition auth (p : string) (now : Z) (r : Door * Client * list SignEffect) : Door * Client * list SignEffect :=
  handle_authenticate links_of r.1.1 r.1.2 "t1" [p] "nonce" "Guest1" now.
Definition begin_at (allowed : list string) : Door * Client * list SignEffect := auth "ATPROTO-CHALLENGE" 200 (door allowed, stranger, []).
Definition who (r : Door * Client * list SignEffect) : option string := c_authenticated_did (conn r.1.2).

(** A signature of the challenge signs in, once; a forged one, or an answer too
    late, does not. *)
Example sign_in_runs :
  who (auth "zoe" 210 (begin_at [])) = Some "did:plc:zoe" /\ c_is_oper (conn (auth "zoe" 210 (begin_at [])).1.2) = true /\
  who (auth "forged" 210 (begin_at [])) = None /\ sasl_failures (auth "forged" 210 (begin_at [])).1.2 = 1 /\
  who (auth "zoe" 300 (begin_at [])) = None /\ who (auth "zoe" 210 (begin_at ["did:plc:other"])) = None.
Proof. vm_compute. repeat split. Qed.

(** An agent the list does not know comes in on its owner's record. *)
Example agent_runs :
  who (auth "agent" 210 (begin_at ["did:plc:zoe"])) = Some "did:key:bot" /\
  delegated_sessions (auth "agent" 210 (begin_at ["did:plc:zoe"])).1.1 !! "t1" = Some ("did:plc:zoe", "did:key:bot") /\
  who (auth "agent" 210 (begin_at ["did:plc:other"])) = None.
Proof. vm_compute. repeat split. Qed.

(** The login token of a refused web sign-in stays on the connection. *)
Example refused_login_is_kept :
  let r := auth "web" 210 (begin_at ["did:plc:other"]) in
  who r = None /\ broker_token r.1.2 = Some "login" /\ web_auth_tokens r.1.1 = ∅.
Proof. vm_compute. repeat split. Qed.

(** Three forged answers: the connection is off the books and deaf. *)
Definition three_failures : Door * Client * list SignEffect :=
  let again r := auth "forged" 210 (auth "ATPROTO-CHALLENGE" 200 r) in again (again (again (door [], stranger, []))).
Example three_failures_close :
  sasl_failures three_failures.1.2 = 3 /\ bool_decide ("t1" ∈ connections (srv (life three_failures.1.1))) = false /\
  (auth "ATPROTO-CHALLENGE" 220 three_failures).2 = [].
Proof. vm_compute. repeat split. Qed.

Example words_of_a_request : split_whitespace "  sasl	batch  nonsense " = ["sasl"; "batch"; "nonsense"].
Proof. vm_compute. reflexivity. Qed.

(** ** Witnesses *)


Lemma sasl_failures_bounded_witness :
  failures_ok three_failures.1.1 three_failures.1.2 "t1" /\
  let '(d', c', e) := handle_authenticate links_of three_failures.1.1 three_failures.1.2 "t1" ["ATPROTO-CHALLENGE"] "nonce" "Guest1" 220 in
  d' = three_failures.1.1 /\ c' = three_failures.1.2 /\ e = [].
Proof.
  assert (H3 : sasl_failures three_failures.1.2 = 3) by (vm_compute; reflexivity).
  assert (Hok : failures_ok three_failures.1.1 three_failures.1.2 "t1").
  { split; [rewrite H3; lia|]. intros _. apply (bool_decide_unpack _). vm_compute. exact I. }
  split; [exact Hok|].
  pose proof (sasl_failures_bounded links_of three_failures.1.1 three_failures.1.2 "t1" ["ATPROTO-CHALLENGE"] "nonce" "Guest1" 220 Hok) as H.
  destruct (handle_authenticate _ _ _ _ _ _ _ _) as [[d' c'] e]. apply H. exact H3.
Defined.

Lemma nak_still_enables_witness :
  let '(_, c', e) := handle_cap (door []) stranger "t1" ["REQ"; "batch nonsense"] in
  e = [tell (Reply "t1" "CAP" ["zoe"; "NAK"; "batch nonsense"])] /\ "batch" ∈ caps c'.
Proof.
  apply (nak_still_enables (door []) stranger "t1" "batch nonsense" "batch" "nonsense").
  - vm_compute. right. left. reflexivity.
  - apply (bool_decide_unpack _). vm_compute. exact I.
  - vm_compute. left. reflexivity.
  - apply (bool_decide_unpack _). vm_compute. exact I.
  - vm_compute. discriminate.
Defined.

Lemma token_spent_without_challenge_witness :
  let r := answer "" "web-token" "token1" None in
  let '(d', c', _) := answer_challenge links_of (door []) stranger "t1" r "nonce" "Guest1" 210 in
  web_auth_tokens d' !! "token1" = None /\ c_authenticated_did (conn c') = None.
Proof. apply (token_spent_without_challenge links_of (door []) stranger "t1" (answer "" "web-token" "token1" None)); vm_compute; reflexivity. Defined.

(** A response of 801 bytes goes out in three lines and arrives whole. *)
Definition long_response : string := string_of_list_ascii (repeat "x"%char 801).
Lemma no_prefix_reads p r : long_response = p +:+ r -> r <> "" -> is_ok (decode_response_explained p) = false.
Proof.
  intros H _. destruct p as [|c p]; [vm_compute; reflexivity|].
  assert (Hc : c = "x"%char) by (apply (f_equal (fun s => match s with String a _ => a | _ => " "%char end)) in H; exact (eq_sym H)).
  subst c. reflexivity.
Qed.
Lemma sasl_chunks_reassemble_witness :
  List.length (sasl_response_lines long_response) = 3%nat /\
  reassemble "" (sasl_response_lines long_response) = [Complete long_response].
Proof.
  split; [vm_compute; reflexivity|].
  apply sasl_chunks_reassemble; [vm_compute; reflexivity|vm_compute; discriminate|vm_compute; discriminate|apply no_prefix_reads].
Defined.
