(* ===== verification/SignedDocs.v ===== *)
(** * Signed chat documents

    What a signature of freeq covers: the tag format of
    [freeq-sdk/src/sigtag.rs], the canonical text of [freeq-sdk/src/canonical.rs]
    and the chat documents of [freeq-sdk/src/chatsig.rs] (messages, deletes,
    reactions, coordination events) with the venues they bind. The signature
    scheme, SHA-256 and base64 are those of [Primitives]; what serde_json writes
    for a string and reads back from a text is the class [JsonText]. *)
From stdpp Require Import base gmap strings list fin_maps.
From Stdlib Require Import ZArith Lia Ascii String.
From S2P Require Import Prelude Text Primitives.
Open Scope string_scope.
Open Scope list_scope.
Open Scope Z_scope.
Open Scope rust_scope.

(** ** Canonical text *)

(** The values a document holds: strings, and one object of strings. *)
Inductive DocValue := DStr (s : string) | DObj (m : gmap string string).
(** The values a reader may find under a key. *)
Inductive JValue := JDoc (v : DocValue) | JOther.

Definition object_text (l : list (string * string)) : string :=
  "{" +:+ str_join "," (map (fun kv => kv.1 +:+ ":" +:+ kv.2) l) +:+ "}".

Section Canonical.
Variable json_string : string -> string.

Definition object_entry (kv : string * string) : string * string := (json_string kv.1, kv.2).
Definition canonicalize_value (v : DocValue) : string :=
  match v with
  | DStr s => json_string s
  | DObj m => object_text (map (fun kv => object_entry (kv.1, json_string kv.2)) (btree_iter m))
  end.
Definition canonicalize (d : gmap string DocValue) : string :=
  object_text (map (fun kv => object_entry (kv.1, canonicalize_value kv.2)) (btree_iter d)).
End Canonical.

(** [serde_json::to_string] of a string and [serde_json::from_str]: a text that
    is an object reads as its members, [None] stands for everything else. What
    [canonicalize] writes is JSON, so it reads back as what was written. *)
Class JsonText := {
  json_string : string -> string;
  json_from_str : string -> option (gmap string JValue);
  json_reads_back : forall d, json_from_str (canonicalize json_string d) = Some (JDoc <$> d)
}.

(** ** Signature tags *)

Module SigTag.
Definition SIG_TAG : string := "+freeq.at/sig".
Definition SIG_TAG_BARE : string := "freeq.at/sig".
Inductive SigError := BadFormat | UnsupportedAlgorithm (alg : string) | KidMismatch | Invalid.
Definition is_unverifiable (e : SigError) : bool := match e with Invalid => false | _ => true end.

Section Tags.
Context {P : Primitives} {B64 : Base64}.

Definition derive_kid_bytes (pubkey : string) : string := b64_encode (str_take 16 (sha256 pubkey)).
Definition derive_kid (key : string) : string := derive_kid_bytes key.

Definition parse (sig_tag : string) : result (string * string) SigError :=
  match splitn 3 ":" sig_tag with
  | [alg; kid; sig_b64] =>
      if negb (String.eqb alg "ed25519") then Err (UnsupportedAlgorithm alg)
      else match b64_decode sig_b64 with
           | Some bytes => if (String.length bytes =? 64)%nat then Ok (kid, bytes) else Err BadFormat
           | None => Err BadFormat
           end
  | _ => Err BadFormat
  end.

Definition sign_canonical (canonical key : string) : string :=
  "ed25519:" +:+ derive_kid (ed25519_verifying_key key) +:+ ":" +:+ b64_encode (ed25519_sign key canonical).

Definition verify_canonical (canonical sig_tag key : string) : result unit SigError :=
  let? parsed := parse sig_tag in
  if negb (String.eqb (derive_kid key) parsed.1) then Err KidMismatch
  else if ed25519_verify key canonical parsed.2 then Ok tt else Err Invalid.
End Tags.
End SigTag.

(** ** Documents *)

Module ChatSig.
Definition EVENT_ID_TAG : string := "+freeq.at/eventid".
Definition EVENT_ID_TAG_BARE : string := "freeq.at/eventid".

Definition COVERED_COORD_TAGS : list string :=
  ["event"; "evidence-type"; "link-desc"; "link-image"; "link-title"; "link-url"; "media-alt"; "media-blurhash";
   "media-duration"; "media-filename"; "media-h"; "media-mime"; "media-size"; "media-url"; "media-w"; "payload";
   "ref"; "task-id"].

Inductive Mutation := Delete | React | Unreact.
#[global] Instance mutation_eq_dec : EqDecision Mutation.
Proof. solve_decision. Defined.
Definition mutation_name (m : Mutation) : string :=
  match m with Delete => "delete" | React => "react" | Unreact => "unreact" end.
Inductive DocKind := MutationKind (m : Mutation) | Coordination.
Definition kind_name (k : DocKind) : string :=
  match k with MutationKind m => mutation_name m | Coordination => "coordination" end.

Record ChatDoc := mkDoc {
  cd_from : string;
  cd_msgid : string;
  cd_target : string;
  cd_kind : option DocKind;
  cd_body : option string;
  cd_reply : option string;
  cd_edit : option string;
  cd_coord : gmap string string;
  cd_subject : option string;
  cd_emoji : option string;
  cd_event : option string;
  cd_payload : option string;
  cd_reference : option string;
  cd_evidence : option string
}.

Definition message (from msgid target body : string) : ChatDoc :=
  mkDoc from msgid target None (Some body) None None ∅ None None None None None None.
Definition mutation (kind : Mutation) (from msgid target subject : string) : ChatDoc :=
  mkDoc from msgid target (Some (MutationKind kind)) None None None ∅ (Some subject) None None None None None.
Definition coordination (from msgid target event_type : string) : ChatDoc :=
  mkDoc from msgid target (Some Coordination) None None None ∅ None None (Some event_type) None None None.

Definition with_payload (x : string) (d : ChatDoc) := mkDoc (cd_from d) (cd_msgid d) (cd_target d) (cd_kind d) (cd_body d)
  (cd_reply d) (cd_edit d) (cd_coord d) (cd_subject d) (cd_emoji d) (cd_event d) (Some x) (cd_reference d) (cd_evidence d).
Definition with_ref (x : string) (d : ChatDoc) := mkDoc (cd_from d) (cd_msgid d) (cd_target d) (cd_kind d) (cd_body d)
  (cd_reply d) (cd_edit d) (cd_coord d) (cd_subject d) (cd_emoji d) (cd_event d) (cd_payload d) (Some x) (cd_evidence d).
Definition with_evidence (x : string) (d : ChatDoc) := mkDoc (cd_from d) (cd_msgid d) (cd_target d) (cd_kind d) (cd_body d)
  (cd_reply d) (cd_edit d) (cd_coord d) (cd_subject d) (cd_emoji d) (cd_event d) (cd_payload d) (cd_reference d) (Some x).
Definition with_reply (x : string) (d : ChatDoc) := mkDoc (cd_from d) (cd_msgid d) (cd_target d) (cd_kind d) (cd_body d)
  (Some x) (cd_edit d) (cd_coord d) (cd_subject d) (cd_emoji d) (cd_event d) (cd_payload d) (cd_reference d) (cd_evidence d).
Definition with_edit (x : string) (d : ChatDoc) := mkDoc (cd_from d) (cd_msgid d) (cd_target d) (cd_kind d) (cd_body d)
  (cd_reply d) (Some x) (cd_coord d) (cd_subject d) (cd_emoji d) (cd_event d) (cd_payload d) (cd_reference d) (cd_evidence d).
Definition with_emoji (x : string) (d : ChatDoc) := mkDoc (cd_from d) (cd_msgid d) (cd_target d) (cd_kind d) (cd_body d)
  (cd_reply d) (cd_edit d) (cd_coord d) (cd_subject d) (Some x) (cd_event d) (cd_payload d) (cd_reference d) (cd_evidence d).
(** [if let Some(x) = o { doc = doc.with(x) }] *)
Definition opt_with (f : string -> ChatDoc -> ChatDoc) (o : option string) (d : ChatDoc) : ChatDoc :=
  match o with Some x => f x d | None => d end.

Definition stripped_name (tag_name : string) : string :=
  match strip_prefix "+freeq.at/" tag_name with
  | Some r => r
  | None => default tag_name (strip_prefix "freeq.at/" tag_name)
  end.

(** One pass over the tags, in the order the map is iterated. *)
Definition coord_step (coord : gmap string string) (kv : string * string) : gmap string string :=
  let key := stripped_name kv.1 in
  if existsb (String.eqb key) COVERED_COORD_TAGS then <[key := kv.2]> coord else coord.
Definition with_coord {HO : HashOrder} (tags : gmap string string) (d : ChatDoc) : ChatDoc :=
  mkDoc (cd_from d) (cd_msgid d) (cd_target d) (cd_kind d) (cd_body d) (cd_reply d) (cd_edit d)
    (fold_left coord_step (hash_iter tags) (cd_coord d)) (cd_subject d) (cd_emoji d) (cd_event d) (cd_payload d)
    (cd_reference d) (cd_evidence d).

Definition hex_digit (z : Z) : ascii := byte_of (if z <? 10 then 48 + z else 87 + z).
Fixpoint hex (s : string) : string :=
  match s with
  | EmptyString => ""
  | String c r => String (hex_digit (byte c / 16)) (String (hex_digit (byte c mod 16)) (hex r))
  end.

Section Documents.
Context {P : Primitives} {B64 : Base64} {J : JsonText}.

Definition body_hash (body : string) : string := "sha256:" +:+ hex (sha256 body).

(** [doc.insert(k, v)] when there is a value. *)
Definition put (k : string) (v : option string) (d : gmap string DocValue) : gmap string DocValue :=
  match v with Some s => <[k := DStr s]> d | None => d end.
Definition nonempty (o : option string) : option string :=
  match o with Some s => if is_empty s then None else Some s | None => None end.
Definition is_reaction (k : option DocKind) : bool :=
  match k with Some (MutationKind React) | Some (MutationKind Unreact) => true | _ => false end.
Definition is_coordination (k : option DocKind) : bool := match k with Some Coordination => true | _ => false end.
Definition only_if (b : bool) (o : option string) : option string := if b then o else None.

(** The members of the object that is signed. *)
Definition doc_members (d : ChatDoc) : gmap string DocValue :=
  let m := put "from" (Some (cd_from d)) ∅ in
  let m := put "msgid" (Some (cd_msgid d)) m in
  let m := put "target" (Some (cd_target d)) m in
  let m := put "kind" (kind_name <$> cd_kind d) m in
  let m := put "body" (body_hash <$> cd_body d) m in
  let m := put "reply" (nonempty (cd_reply d)) m in
  let m := put "edit" (nonempty (cd_edit d)) m in
  let m := put "subject" (cd_subject d) m in
  let m := put "emoji" (only_if (is_reaction (cd_kind d)) (nonempty (cd_emoji d))) m in
  let m := put "event" (only_if (is_coordination (cd_kind d)) (cd_event d)) m in
  let m := put "payload" (only_if (is_coordination (cd_kind d)) (body_hash <$> cd_payload d)) m in
  let m := put "ref" (only_if (is_coordination (cd_kind d)) (nonempty (cd_reference d))) m in
  let m := put "evidence" (only_if (is_coordination (cd_kind d)) (nonempty (cd_evidence d))) m in
  if bool_decide (cd_coord d = ∅) then m else <["coord" := DObj (cd_coord d)]> m.

Definition canonical (d : ChatDoc) : string := canonicalize json_string (doc_members d).
Definition sign (d : ChatDoc) (key : string) : string := SigTag.sign_canonical (canonical d) key.
Definition verify (d : ChatDoc) (sig_tag key : string) : result unit SigTag.SigError :=
  SigTag.verify_canonical (canonical d) sig_tag key.
End Documents.

(** ** Venues *)

Definition dm_venue (did_a did_b : string) : string :=
  if String.leb did_a did_b then "dm:" +:+ did_a +:+ "," +:+ did_b else "dm:" +:+ did_b +:+ "," +:+ did_a.
Definition is_channel_name (target : string) : bool := starts_with_char "#" target || starts_with_char "&" target.

Section Venues.
Context {CF : CaseFold}.
Definition channel_venue (channel : string) : string := to_lowercase channel.
Definition venue_for_target (target sender_did : string) : option string :=
  if is_channel_name target then Some (channel_venue target)
  else if starts_with "did:" target then Some (dm_venue sender_did target) else None.
End Venues.
End ChatSig.

(** ** What a document determines *)

Section Binding.
Context {P : Primitives} {B64 : Base64} {J : JsonText}.
Import ChatSig.

Lemma put_ne k k' v m : k <> k' -> put k v m !! k' = m !! k'.
Proof. intros. destruct v; cbn [put]; [by rewrite lookup_insert_ne|done]. Qed.
Lemma put_eq k v m : m !! k = None -> put k v m !! k = DStr <$> v.
Proof. intros E. destruct v; cbn [put]; [by rewrite lookup_insert_eq|done]. Qed.

Lemma coord_lookup (c : gmap string string) (m : gmap string DocValue) k :
  (if bool_decide (c = ∅) then m else <["coord" := DObj c]> m) !! k =
  if String.eqb k "coord" then (if bool_decide (c = ∅) then m !! k else Some (DObj c)) else m !! k.
Proof.
  destruct (String.eqb_spec k "coord") as [->|H]; case_bool_decide; try done; [by rewrite lookup_insert_eq|].
  by rewrite lookup_insert_ne.
Qed.

(** The value a document has under each key it may use. *)
Definition member (d : ChatDoc) (k : string) : option DocValue :=
  if String.eqb k "from" then Some (DStr (cd_from d))
  else if String.eqb k "msgid" then Some (DStr (cd_msgid d))
  else if String.eqb k "target" then Some (DStr (cd_target d))
  else if String.eqb k "kind" then DStr <$> (kind_name <$> cd_kind d)
  else if String.eqb k "body" then DStr <$> (body_hash <$> cd_body d)
  else if String.eqb k "reply" then DStr <$> nonempty (cd_reply d)
  else if String.eqb k "edit" then DStr <$> nonempty (cd_edit d)
  else if String.eqb k "subject" then DStr <$> cd_subject d
  else if String.eqb k "emoji" then DStr <$> only_if (is_reaction (cd_kind d)) (nonempty (cd_emoji d))
  else if String.eqb k "event" then DStr <$> only_if (is_coordination (cd_kind d)) (cd_event d)
  else if String.eqb k "payload" then DStr <$> only_if (is_coordination (cd_kind d)) (body_hash <$> cd_payload d)
  else if String.eqb k "ref" then DStr <$> only_if (is_coordination (cd_kind d)) (nonempty (cd_reference d))
  else if String.eqb k "evidence" then DStr <$> only_if (is_coordination (cd_kind d)) (nonempty (cd_evidence d))
  else if String.eqb k "coord" then (if bool_decide (cd_coord d = ∅) then None else Some (DObj (cd_coord d)))
  else None.

Lemma put_lookup k v m k' :
  m !! k = None -> put k v m !! k' = if String.eqb k' k then DStr <$> v else m !! k'.
Proof. intros E. destruct (String.eqb_spec k' k) as [->|H]; [by apply put_eq|by apply put_ne]. Qed.

Lemma doc_members_lookup d k : doc_members d !! k = member d k.
Proof.
  unfold doc_members. cbv zeta. rewrite coord_lookup.
  repeat match goal with
  | |- context [put ?k0 ?v ?m !! ?k'] =>
      rewrite (put_lookup k0 v m k') by (repeat rewrite put_ne by done; apply lookup_empty)
  end.
  rewrite lookup_empty. unfold member.
  repeat match goal with |- context [String.eqb k ?s] => destruct (String.eqb_spec k s) as [->|]; try done end.
Qed.

Lemma canonical_members d1 d2 : canonical d1 = canonical d2 -> doc_members d1 = doc_members d2.
Proof.
  intros H. pose proof (json_reads_back (doc_members d1)) as H1. pose proof (json_reads_back (doc_members d2)) as H2.
  unfold canonical in H. rewrite H, H2 in H1. injection H1 as H1. symmetry. revert H1. apply map_fmap_inj. by intros ?? [= ->].
Qed.

Lemma kind_name_inj k1 k2 : kind_name k1 = kind_name k2 -> k1 = k2.
Proof. by destruct k1 as [[]|], k2 as [[]|]. Qed.

(** Everything about a document that its bytes tell apart: bodies and payloads
    by their hashes, optional fields when they are not empty, and only those of
    the document's kind. *)
Record Covered := mkCovered {
  cv_from : string;
  cv_msgid : string;
  cv_target : string;
  cv_kind : option DocKind;
  cv_body : option string;
  cv_reply : option string;
  cv_edit : option string;
  cv_coord : gmap string string;
  cv_subject : option string;
  cv_emoji : option string;
  cv_event : option string;
  cv_payload : option string;
  cv_reference : option string;
  cv_evidence : option string
}.
Definition covered (d : ChatDoc) : Covered :=
  mkCovered (cd_from d) (cd_msgid d) (cd_target d) (cd_kind d) (body_hash <$> cd_body d) (nonempty (cd_reply d))
    (nonempty (cd_edit d)) (cd_coord d) (cd_subject d) (only_if (is_reaction (cd_kind d)) (nonempty (cd_emoji d)))
    (only_if (is_coordination (cd_kind d)) (cd_event d))
    (only_if (is_coordination (cd_kind d)) (body_hash <$> cd_payload d))
    (only_if (is_coordination (cd_kind d)) (nonempty (cd_reference d)))
    (only_if (is_coordination (cd_kind d)) (nonempty (cd_evidence d))).

Lemma DStr_fmap_inj (o1 o2 : option string) : DStr <$> o1 = DStr <$> o2 -> o1 = o2.
Proof. destruct o1, o2; simpl; congruence. Qed.

Lemma member_covered d1 d2 : (forall k, member d1 k = member d2 k) -> covered d1 = covered d2.
Proof.
  intros H. unfold covered.
  pose proof (H "from") as H1. pose proof (H "msgid") as H2. pose proof (H "target") as H3. pose proof (H "coord") as H4.
  cbn in H1, H2, H3, H4. injection H1 as H1. injection H2 as H2. injection H3 as H3.
  pose proof (DStr_fmap_inj _ _ (H "kind")) as H5.
  assert (cd_kind d1 = cd_kind d2) as Hk by (destruct (cd_kind d1), (cd_kind d2); try done; f_equal; apply kind_name_inj; cbn in H5; congruence).
  f_equal; try done; try (by apply DStr_fmap_inj; first
    [exact (H "body")|exact (H "reply")|exact (H "edit")|exact (H "subject")|exact (H "emoji")|exact (H "event")
    |exact (H "payload")|exact (H "ref")|exact (H "evidence")]).
  revert H4. unfold member. cbn [String.eqb Ascii.eqb Bool.eqb]. do 2 case_bool_decide; naive_solver congruence.
Qed.

End Binding.

(** ** Tags *)

Section TagLaws.
Context {P : Primitives} {B64 : Base64}.
Import SigTag.

Lemma parse_signed kid sig :
  str_contains ":" kid = false -> String.length sig = 64%nat ->
  parse ("ed25519:" +:+ kid +:+ ":" +:+ b64_encode sig) = Ok (kid, sig).
Proof.
  intros Hk Hs. unfold parse.
  change ("ed25519:" +:+ kid +:+ ":" +:+ b64_encode sig) with ("ed25519" +:+ String ":" (kid +:+ String ":" (b64_encode sig))).
  rewrite (splitn_cons 1 ":" "ed25519") by done. rewrite (splitn_cons 0 ":" kid) by done. cbn [splitn].
  rewrite b64_roundtrip, Hs. done.
Qed.

Lemma derive_kid_no_colon key : str_contains ":" (derive_kid key) = false.
Proof. apply b64_no_colon. Qed.

Lemma parse_sign_canonical c key :
  parse (sign_canonical c key) = Ok (derive_kid (ed25519_verifying_key key), ed25519_sign key c).
Proof. apply parse_signed; [apply derive_kid_no_colon|apply ed25519_sign_length]. Qed.

Lemma verify_sign_canonical c key : verify_canonical c (sign_canonical c key) (ed25519_verifying_key key) = Ok tt.
Proof. unfold verify_canonical. rewrite parse_sign_canonical. cbn [res_bind fst snd]. by rewrite String.eqb_refl, ed25519_verifies. Qed.

Lemma verify_invalid c tag key :
  verify_canonical c tag key = Err Invalid <->
  exists sig, parse tag = Ok (derive_kid key, sig) /\ ed25519_verify key c sig = false.
Proof.
  unfold verify_canonical. split.
  - destruct (parse tag) as [[kid sig]|e] eqn:E; cbn [res_bind fst snd].
    + destruct (String.eqb_spec (derive_kid key) kid) as [->|]; [|done]. cbn [negb].
      destruct (ed25519_verify key c sig) eqn:V; [done|]. eauto.
    + intros [= ->]. unfold parse in E. repeat dmatch_in E; done.
  - intros (sig & -> & V). cbn [res_bind fst snd]. by rewrite String.eqb_refl, V.
Qed.
End TagLaws.

(** ** Venues of conversations *)

Section VenueLaws.
Import ChatSig.

Lemma dm_venue_comm a b : dm_venue a b = dm_venue b a.
Proof.
  unfold dm_venue. destruct (String.leb a b) eqn:E1, (String.leb b a) eqn:E2; try done.
  - by rewrite (String.leb_antisym a b E1 E2).
  - destruct (String.leb_total a b); congruence.
Qed.

Lemma app_inj_l (p s t : string) : p +:+ s = p +:+ t -> s = t.
Proof. induction p; simpl; [done|]. intros [= H]. auto. Qed.

Lemma pair_text_inj a b c d :
  str_contains "," a = false -> str_contains "," c = false -> a +:+ "," +:+ b = c +:+ "," +:+ d -> a = c /\ b = d.
Proof.
  intros Ha Hc H. pose proof (split_once_app "," a b Ha) as H1. pose proof (split_once_app "," c d Hc) as H2.
  change (a +:+ String "," b = c +:+ String "," d) in H. rewrite H, H2 in H1. by injection H1 as -> ->.
Qed.

Lemma dm_venue_inj a b c d :
  str_contains "," a = false -> str_contains "," b = false -> str_contains "," c = false -> str_contains "," d = false ->
  dm_venue a b = dm_venue c d -> (a = c /\ b = d) \/ (a = d /\ b = c).
Proof.
  intros Ha Hb Hc Hd. unfold dm_venue.
  destruct (String.leb a b), (String.leb c d); intros H; apply (app_inj_l "dm:") in H; apply pair_text_inj in H; naive_solver.
Qed.
End VenueLaws.

(** ** A JSON reader for concrete runs

    Strings are written as two letters per byte between quotes; a text is read
    by splitting it at the quotes and running over the pieces. *)

Definition DQ : ascii := "034".
Definition toy_string (s : string) : string := String DQ (toy_encode s +:+ String DQ "").

(** [st] is the object being read inside the outer one, with its key. *)
Fixpoint toy_go (st : option (string * list (string * string))) (l : list string) : option (list (string * DocValue)) :=
  match l with
  | k :: sep :: r =>
      k' ← toy_decode k;
      match st with
      | None =>
          if String.eqb sep ":{" then toy_go (Some (k', [])) r
          else if String.eqb sep ":{}," then cons (k', DObj ∅) <$> toy_go None r
          else if String.eqb sep ":{}}" then Some [(k', DObj ∅)]
          else match r with
               | v :: c :: r' =>
                   v' ← toy_decode v;
                   cons (k', DStr v') <$> (if String.eqb c "," then toy_go None r' else if String.eqb c "}" then Some [] else None)
               | _ => None
               end
      | Some (key, inner) =>
          match r with
          | v :: c :: r' =>
              v' ← toy_decode v;
              let inner := inner ++ [(k', v')] in
              if String.eqb c "," then toy_go (Some (key, inner)) r'
              else cons (key, DObj (list_to_map inner))
                   <$> (if String.eqb c "}," then toy_go None r' else if String.eqb c "}}" then Some [] else None)
          | _ => None
          end
      end
  | _ => None
  end.

Definition toy_from_str (text : string) : option (gmap string JValue) :=
  match str_split DQ text with
  | [p] => if String.eqb p "{}" then Some ∅ else None
  | p :: l => if String.eqb p "{" then (fun d => JDoc <$> (list_to_map d : gmap string DocValue)) <$> toy_go None l else None
  | [] => None
  end.

Lemma toy_encode_no_quote s : str_contains DQ (toy_encode s) = false.
Proof.
  induction s as [|c s IH]; [done|]. unfold str_contains in *. cbn [toy_encode str_any]. rewrite IH. clear IH.
  destruct c as [[] [] [] [] [] [] [] []]; vm_compute; done.
Qed.

Lemma split_quoted p s r :
  str_contains DQ p = false -> str_split DQ (p +:+ toy_string s +:+ r) = p :: toy_encode s :: str_split DQ r.
Proof.
  intros Hp. unfold toy_string. change (String DQ (toy_encode s +:+ String DQ "") +:+ r) with
    (String DQ ((toy_encode s +:+ String DQ "") +:+ r)).
  rewrite str_split_app by done. rewrite append_assoc. cbn [String.append].
  change ("" +:+ r) with r. by rewrite str_split_app by apply toy_encode_no_quote.
Qed.

Lemma list_to_map_btree {A} (m : gmap string A) : (list_to_map (btree_iter m) : gmap string A) = m.
Proof.
  transitivity (list_to_map (map_to_list m) : gmap string A); [|apply list_to_map_to_list].
  apply list_to_map_proper; [|apply btree_iter_perm]. rewrite btree_iter_perm. apply NoDup_fst_map_to_list.
Qed.

(** An object's text after its opening brace. *)
Definition entry_text (kv : string * string) : string := kv.1 +:+ ":" +:+ kv.2.
Fixpoint rest_text (l : list (string * string)) : string :=
  match l with [] => "}" | x :: l' => "," +:+ entry_text x +:+ rest_text l' end.
Lemma object_text_cons x l : object_text (x :: l) = "{" +:+ entry_text x +:+ rest_text l.
Proof.
  unfold object_text. f_equal. revert x. induction l as [|y l IH]; intros x; [done|].
  cbn [map]. rewrite str_join_cons, !append_assoc. cbn [rest_text]. rewrite <- IH. cbn [map]. unfold entry_text. by rewrite !append_assoc.
Qed.

Notation quoted_pair := (fun kv : string * string => object_entry toy_string (kv.1, toy_string kv.2)).
Notation quoted_value := (fun kv : string * DocValue => object_entry toy_string (kv.1, canonicalize_value toy_string kv.2)).

Lemma toy_inner key tl c T l : forall x acc,
  str_split DQ ("}" +:+ tl) = c :: T -> c <> "," ->
  exists T2, (forall p, str_contains DQ p = false ->
      str_split DQ (p +:+ entry_text (quoted_pair x) +:+ rest_text (map quoted_pair l) +:+ tl) = p :: T2)
    /\ toy_go (Some (key, acc)) T2 =
       cons (key, DObj (list_to_map (acc ++ x :: l)))
       <$> (if String.eqb c "}," then toy_go None T else if String.eqb c "}}" then Some [] else None).
Proof.
  induction l as [|y l IH]; intros [k v] acc Hc Hn; unfold entry_text at 1; cbn [object_entry fst snd rest_text map].
  - eexists. split.
    + intros p Hp. rewrite !append_assoc, split_quoted by done. rewrite (split_quoted ":") by done. by rewrite Hc.
    + cbn [toy_go]. rewrite !toy_decode_encode. cbn. by destruct (String.eqb_spec c ",").
  - destruct (IH y (acc ++ [(k, v)]) Hc Hn) as (T2 & HT & HG). eexists. split.
    + intros p Hp. rewrite !append_assoc, split_quoted by done. rewrite (split_quoted ":") by done.
      rewrite (HT ",") by done. done.
    + cbn [toy_go]. rewrite !toy_decode_encode. cbn. rewrite HG.
      by rewrite <- app_assoc.
Qed.

Lemma toy_outer l : forall x,
  exists T, (forall p, str_contains DQ p = false ->
      str_split DQ (p +:+ entry_text (quoted_value x) +:+ rest_text (map quoted_value l)) = p :: T)
    /\ toy_go None T = Some (x :: l).
Proof.
  induction l as [|y l IH]; intros [k [s|m]]; unfold entry_text at 1; cbn [object_entry fst snd map canonicalize_value].
  - eexists. split.
    + intros p Hp. rewrite !append_assoc, split_quoted by done. by rewrite (split_quoted ":") by done.
    + cbn [toy_go]. rewrite !toy_decode_encode. done.
  - destruct (btree_iter m) as [|q qs] eqn:Eq; pose proof (list_to_map_btree m) as Em; rewrite Eq in Em.
    + eexists. split; [intros p Hp; rewrite !append_assoc, split_quoted by done; done|].
      cbn [toy_go]. rewrite !toy_decode_encode. by rewrite <- Em.
    + destruct (toy_inner k "}" "}}" [] qs q []) as (T2 & HT & HG); [done..|]. exists (toy_encode k :: ":{" :: T2). split.
      * intros p Hp. cbn [map]. rewrite object_text_cons, !append_assoc, split_quoted by done.
        do 2 f_equal. exact (HT ":{" eq_refl).
      * cbn [toy_go]. rewrite toy_decode_encode.
        cbn. rewrite HG. cbn. by rewrite <- Em.
  - destruct (IH y) as (T & HT & HG). eexists. split.
    + intros p Hp. cbn [rest_text]. rewrite !append_assoc, split_quoted by done. rewrite (split_quoted ":") by done.
      by rewrite (HT ",") by done.
    + cbn [toy_go]. rewrite !toy_decode_encode. cbn. by rewrite HG.
  - destruct (IH y) as (T & HT & HG).
    destruct (btree_iter m) as [|q qs] eqn:Eq; pose proof (list_to_map_btree m) as Em; rewrite Eq in Em.
    + exists (toy_encode k :: ":{}," :: T). split.
      * intros p Hp. cbn [rest_text]. rewrite !append_assoc, split_quoted by done. do 2 f_equal. exact (HT ":{}," eq_refl).
      * cbn [toy_go]. rewrite !toy_decode_encode. cbn. rewrite HG. by rewrite <- Em.
    + destruct (toy_inner k ("," +:+ entry_text (quoted_value y) +:+ rest_text (map quoted_value l)) "}," T qs q [])
        as (T2 & HT2 & HG2); [exact (HT "}," eq_refl)|done|]. exists (toy_encode k :: ":{" :: T2). split.
      * intros p Hp. cbn [map rest_text]. rewrite object_text_cons, !append_assoc, split_quoted by done.
        do 2 f_equal. exact (HT2 ":{" eq_refl).
      * cbn [toy_go]. rewrite toy_decode_encode. cbn. rewrite HG2. cbn. rewrite HG. cbn. by rewrite <- Em.
Qed.

Lemma toy_reads_back d : toy_from_str (canonicalize toy_string d) = Some (JDoc <$> d).
Proof.
  unfold canonicalize. pose proof (list_to_map_btree d) as Em. unfold toy_from_str.
  destruct (btree_iter d) as [|x l] eqn:Eb; cbn [map].
  - by rewrite <- Em.
  - rewrite object_text_cons. destruct (toy_outer l x) as (T & HT & HG). rewrite (HT "{") by done.
    destruct T; [done|]. cbn [String.eqb Ascii.eqb Bool.eqb]. rewrite HG. cbn. by rewrite <- Em.
Qed.

Definition toy_json : JsonText := {|
  json_string := toy_string;
  json_from_str := toy_from_str;
  json_reads_back := toy_reads_back
|}.
