(* ===== verification/MessageStore.v ===== *)
(** * Stored messages and the event log

    The tables of [freeq-server/src/db.rs] that hold messages with their
    revisions, reactions, pins, coordination cards and the append-only log of
    events, with the statements the message commands run on them, and the
    reading of a signed document in [freeq-server/src/events.rs]. Each
    operation is one transaction. Texts are stored as they are: encryption at
    rest, the search index and the diagnostic recorder are left out, and so are
    disk errors. *)
From stdpp Require Import base gmap strings list pretty sorting fin_maps.
From Stdlib Require Import ZArith Lia Ascii String.
From S2P Require Import Prelude Text Primitives SignedDocs.
Open Scope string_scope.
Open Scope list_scope.
Open Scope Z_scope.

(** ** Rows *)

Inductive SigState := Valid | Unverifiable | Unsigned.
#[export] Instance sig_state_eq_dec : EqDecision SigState.
Proof. solve_decision. Defined.
Inductive ConfirmState := Confirmed | Unconfirmed | Superseded | Ignored.

Record EventFacts := mkFacts {
  f_event_id : string;
  f_kind : string;
  f_venue : string;
  f_actor_did : option string;
  f_subject : option string;
  f_body_hash : option string;
  f_emoji : option string
}.
#[export] Instance event_facts_eq_dec : EqDecision EventFacts.
Proof. solve_decision. Defined.

Record EventContext := mkContext { x_sig_state : SigState; x_origin : option string; x_confirm : option ConfirmState }.
Definition default_context : EventContext := mkContext Unverifiable None None.
Definition verified_context : EventContext := mkContext Valid None None.

Inductive EventShape := Document (canonical : string) | Bare (f : EventFacts).
Record EventRecord := mkRecord {
  r_shape : EventShape;
  r_signature : option string;
  r_ctx : EventContext;
  r_timestamp : Z
}.

Record StoredEvent := mkStoredEvent {
  e_canonical : string;                 (* empty when nothing signed the event *)
  e_signature : option string;
  e_sig_state : SigState;
  e_facts : EventFacts;
  e_origin : option string;
  e_confirm : option ConfirmState;
  e_conflict : option string;
  e_timestamp : Z
}.

Record MessageRow := mkRow {
  m_id : Z;
  m_channel : string;
  m_sender : string;
  m_text : string;
  m_timestamp : Z;
  m_tags : gmap string string;
  m_msgid : option string;
  m_replaces : option string;
  m_root : option string;
  m_deleted_at : option Z;
  m_sender_did : option string
}.

Record ReactionRow := mkReaction {
  rx_target : string;
  rx_channel : string;
  rx_nick : string;
  rx_did : option string;
  rx_emoji : string;
  rx_timestamp : Z
}.
Record PinRow := mkPinRow { p_channel : string; p_msgid : string; p_by : string; p_at : Z }.
Record CoordinationEventRow := mkCoord {
  c_event_id : string;
  c_event_type : string;
  c_actor_did : string;
  c_channel : string;
  c_ref_id : option string;
  c_payload_json : string;
  c_signature : option string;
  c_timestamp : Z
}.

Record MutationEvent := mkMutation {
  mu_event_id : string;
  mu_actor_did : option string;
  mu_signature : option string;
  mu_venue : option string;
  mu_ctx : EventContext;
  mu_timestamp : Z
}.

(** Message rows are in the order of their ids, which are never used again;
    the log is keyed by event id, coordination cards too, and signing keys by
    identity and key id. *)
Record MsgDb := mkDb {
  messages : list MessageRow;
  next_id : Z;
  reactions : list ReactionRow;
  pin_rows : list PinRow;
  events : gmap string StoredEvent;
  coordination_events : gmap string CoordinationEventRow;
  signing_keys : gmap (string * string) string;
  read_markers : gmap (string * string) string
}.
Definition set_messages x (d : MsgDb) := mkDb x (next_id d) (reactions d) (pin_rows d) (events d) (coordination_events d)
  (signing_keys d) (read_markers d).
Definition set_reactions x (d : MsgDb) := mkDb (messages d) (next_id d) x (pin_rows d) (events d) (coordination_events d)
  (signing_keys d) (read_markers d).
Definition set_pin_rows x (d : MsgDb) := mkDb (messages d) (next_id d) (reactions d) x (events d) (coordination_events d)
  (signing_keys d) (read_markers d).
Definition set_events x (d : MsgDb) := mkDb (messages d) (next_id d) (reactions d) (pin_rows d) x (coordination_events d)
  (signing_keys d) (read_markers d).
Definition set_cards x (d : MsgDb) := mkDb (messages d) (next_id d) (reactions d) (pin_rows d) (events d) x
  (signing_keys d) (read_markers d).
Definition set_markers x (d : MsgDb) := mkDb (messages d) (next_id d) (reactions d) (pin_rows d) (events d)
  (coordination_events d) (signing_keys d) x.
Definition empty_db : MsgDb := mkDb [] 1 [] [] ∅ ∅ ∅ ∅.

(** ** Queries *)

Definition row_is (msgid : string) (r : MessageRow) : bool := bool_decide (m_msgid r = Some msgid).
Definition row_of (msgid : string) (d : MsgDb) : option MessageRow := List.find (row_is msgid) (messages d).

Definition root_of (d : MsgDb) (msgid : string) : string :=
  match row_of msgid d with
  | Some r => match m_root r with Some root => root | None => default msgid (m_msgid r) end
  | None => msgid
  end.
Definition get_message_by_msgid (d : MsgDb) (channel msgid : string) : option MessageRow :=
  List.find (fun r => String.eqb (m_channel r) channel && row_is msgid r) (messages d).
Definition find_message_by_msgid (d : MsgDb) (msgid : string) : option MessageRow :=
  List.find (fun r => row_is msgid r && negb (is_some (m_deleted_at r))) (messages d).
Definition msgid_taken (d : MsgDb) (msgid : string) : bool := existsb (row_is msgid) (messages d).
Definition is_act_event (d : MsgDb) (event_id : string) : bool :=
  match events d !! event_id with Some e => String.eqb (f_kind (e_facts e)) "act" | None => false end.
Definition get_signing_key_by_kid (d : MsgDb) (did kid : string) : option string :=
  match signing_keys d !! (did, kid) with
  | Some bytes => if (String.length bytes =? 32)%nat then Some bytes else None
  | None => None
  end.
Definition get_read_marker (d : MsgDb) (did target : string) : option string := read_markers d !! (did, target).
Definition set_read_marker (did target timestamp : string) (d : MsgDb) : MsgDb :=
  set_markers (<[(did, target) := timestamp]> (read_markers d)) d.
Definition channel_of_message (d : MsgDb) (msgid : string) : option string :=
  let root := root_of d msgid in
  m_channel <$> List.find (fun r => bool_decide (m_root r = Some root) || row_is root r) (messages d).

(** ** Reading a document *)

Definition get_str (k : string) (doc : gmap string JValue) : option string :=
  match doc !! k with Some (JDoc (DStr s)) => Some s | _ => None end.
Definition or_else (a b : option string) : option string := match a with Some _ => a | None => b end.

Section Store.
Context {P : Primitives} {J : JsonText} {CF : CaseFold} {HO : HashOrder}.

Definition derive_facts (canonical : string) : option EventFacts :=
  if is_empty canonical then None
  else
    doc ← json_from_str canonical;
    if is_some (doc !! "act") then
      id ← get_str "id" doc; target ← get_str "target" doc; from ← get_str "from" doc;
      Some (mkFacts id "act" target (Some from) (get_str "act-id" doc) None None)
    else
      event_id ← get_str "msgid" doc; venue ← get_str "target" doc; actor_did ← get_str "from" doc;
      let edit := get_str "edit" doc in
      let kind := match get_str "kind" doc with
                  | Some k => k
                  | None => if is_some edit then "edit" else "message"
                  end in
      Some (mkFacts event_id kind venue (Some actor_did)
              (or_else (or_else (get_str "subject" doc) edit) (get_str "ref" doc))
              (or_else (get_str "body" doc) (get_str "payload" doc)) (get_str "emoji" doc)).

Definition venue_of (channel : string) : string :=
  if ChatSig.is_channel_name channel then ChatSig.channel_venue channel else channel.

Definition message_canonical (sender_did msgid channel body : string) (tags : gmap string string)
    (replaces_msgid : option string) : string :=
  ChatSig.canonical
    (ChatSig.with_coord tags
      (ChatSig.opt_with ChatSig.with_edit (or_else (tags !! "+draft/edit") replaces_msgid)
        (ChatSig.opt_with ChatSig.with_reply (or_else (tags !! "+reply") (tags !! "+draft/reply"))
          (ChatSig.message sender_did msgid (venue_of channel) body)))).

Definition mutation_canonical (kind : ChatSig.Mutation) (actor_did event_id venue subject : string)
    (emoji : option string) : string :=
  ChatSig.canonical (ChatSig.opt_with ChatSig.with_emoji emoji (ChatSig.mutation kind actor_did event_id venue subject)).

Definition fingerprint (bytes : string) : string := ChatSig.body_hash bytes.

(** ** The log *)

(** [INSERT OR IGNORE]: whether a row was written. *)
Definition insert_event (rec : EventRecord) (d : MsgDb) : MsgDb * bool :=
  match match r_shape rec with
        | Document canonical => (fun f => (canonical, f)) <$> derive_facts canonical
        | Bare facts => Some ("", facts)
        end with
  | None => (d, false)
  | Some (canonical, facts) =>
      let sig_state := match r_signature rec with None => Unsigned | Some _ => x_sig_state (r_ctx rec) end in
      match events d !! f_event_id facts with
      | Some _ => (d, false)
      | None =>
          (set_events (<[f_event_id facts :=
             mkStoredEvent canonical (r_signature rec) sig_state facts (x_origin (r_ctx rec)) (x_confirm (r_ctx rec))
               None (r_timestamp rec)]> (events d)) d, true)
      end
  end.

Definition note_conflict (fp : string) (e : StoredEvent) : StoredEvent :=
  match e_conflict e with
  | Some _ => e
  | None => mkStoredEvent (e_canonical e) (e_signature e) (e_sig_state e) (e_facts e) (e_origin e) (e_confirm e)
              (Some fp) (e_timestamp e)
  end.
Definition record_event_conflict (event_id fp : string) (d : MsgDb) : MsgDb :=
  set_events (alter (note_conflict fp) event_id (events d)) d.

Definition sig_of (tags : gmap string string) : option string :=
  or_else (tags !! SigTag.SIG_TAG) (tags !! SigTag.SIG_TAG_BARE).

Definition file_message_event (channel text : string) (tags : gmap string string) (msgid sender_did replaces : option string)
    (timestamp : Z) (ctx : EventContext) (d : MsgDb) : MsgDb :=
  match msgid with
  | None => d
  | Some id =>
      let rec := match sender_did with
        | Some did => mkRecord (Document (message_canonical did id channel text tags replaces)) (sig_of tags) ctx timestamp
        | None => mkRecord (Bare (mkFacts id (if is_some replaces then "edit" else "message") (venue_of channel) None
                                    replaces None None)) None ctx timestamp
        end in
      (insert_event rec d).1
  end.

Definition claim_fingerprint (channel text : string) (tags : gmap string string) (sender_did : option string) (msgid : string)
    (replaces : option string) : string :=
  match sender_did with
  | Some did => fingerprint (message_canonical did msgid channel text tags replaces)
  | None => fingerprint text
  end.

(** ** Messages *)

(** [INSERT OR IGNORE] under the unique index on msgid. *)
Definition insert_row (row : Z -> MessageRow) (d : MsgDb) : option MsgDb :=
  let r := row (next_id d) in
  if match m_msgid r with Some id => msgid_taken d id | None => false end then None
  else Some (mkDb (messages d ++ [r]) (next_id d + 1) (reactions d) (pin_rows d) (events d) (coordination_events d)
               (signing_keys d) (read_markers d)).

(** What a second claim on an id leaves behind. *)
Definition refuse_claim (channel text : string) (tags : gmap string string) (msgid sender_did replaces : option string)
    (d : MsgDb) : MsgDb :=
  match msgid with
  | Some id =>
      match find_message_by_msgid d id with
      | Some row => if String.eqb (m_text row) text then d
                    else record_event_conflict id (claim_fingerprint channel text tags sender_did id replaces) d
      | None => d
      end
  | None => d
  end.

Definition insert_message_with (channel sender text : string) (timestamp : Z) (tags : gmap string string)
    (msgid sender_did : option string) (ctx : EventContext) (d : MsgDb) : MsgDb * bool :=
  match insert_row (fun id => mkRow id channel sender text timestamp tags msgid None msgid None sender_did) d with
  | None => (refuse_claim channel text tags msgid sender_did None d, false)
  | Some d' => (file_message_event channel text tags msgid sender_did None timestamp ctx d', true)
  end.

Definition file_edit (channel sender text : string) (timestamp : Z) (tags : gmap string string) (msgid replaces_msgid : string)
    (sender_did : option string) (ctx : EventContext) (d : MsgDb) : MsgDb * bool :=
  let root := root_of d replaces_msgid in
  match insert_row (fun id => mkRow id channel sender text timestamp tags (Some msgid) (Some replaces_msgid) (Some root)
                                None sender_did) d with
  | None => (refuse_claim channel text tags (Some msgid) sender_did (Some replaces_msgid) d, false)
  | Some d' => (file_message_event channel text tags (Some msgid) sender_did (Some replaces_msgid) timestamp ctx d', true)
  end.
Definition insert_edit_with := file_edit.

(** [ORDER BY timestamp DESC, id DESC LIMIT max_keep]: the rows of a channel
    that are kept. *)
Definition newer (a b : MessageRow) : bool :=
  (m_timestamp b <? m_timestamp a) || ((m_timestamp a =? m_timestamp b) && (m_id b <=? m_id a)).
Definition prune_messages (channel : string) (max_keep : Z) (d : MsgDb) : MsgDb :=
  let kept := take (Z.to_nat max_keep)
                (merge_sort (bool_rel newer) (List.filter (fun r => String.eqb (m_channel r) channel) (messages d))) in
  set_messages (List.filter (fun r => negb (String.eqb (m_channel r) channel)
                                      || existsb (fun k => m_id k =? m_id r) kept) (messages d)) d.

(** ** Mutations *)

Definition file_mutation_event (kind : ChatSig.Mutation) (channel subject : string) (emoji : option string)
    (ev : MutationEvent) (d : MsgDb) : MsgDb :=
  let subject := root_of d subject in
  let venue := match mu_venue ev with Some v => v | None => venue_of channel end in
  let rec := match mu_actor_did ev, mu_signature ev with
    | Some did, Some _ =>
        mkRecord (Document (mutation_canonical kind did (mu_event_id ev) venue subject emoji)) (mu_signature ev) (mu_ctx ev)
          (mu_timestamp ev)
    | _, _ =>
        mkRecord (Bare (mkFacts (mu_event_id ev) (ChatSig.mutation_name kind) venue (mu_actor_did ev) (Some subject) None emoji))
          None (mu_ctx ev) (mu_timestamp ev)
    end in
  (insert_event rec d).1.

Definition in_family (channel root : string) (r : MessageRow) : bool :=
  String.eqb (m_channel r) channel && bool_decide (m_root r = Some root).
Definition delete_at (now : Z) (r : MessageRow) : MessageRow :=
  mkRow (m_id r) (m_channel r) (m_sender r) (m_text r) (m_timestamp r) (m_tags r) (m_msgid r) (m_replaces r) (m_root r)
    (Some now) (m_sender_did r).

Definition soft_delete_rows (channel msgid : string) (now : Z) (d : MsgDb) : MsgDb :=
  let root := root_of d msgid in
  let rows := omap m_msgid (List.filter (in_family channel root) (messages d)) in
  let family := if existsb (String.eqb root) rows then rows else rows ++ [root] in
  let live r := in_family channel root r && negb (is_some (m_deleted_at r)) in
  if negb (existsb live (messages d)) then d
  else
    set_reactions (List.filter (fun x => negb (String.eqb (rx_channel x) channel
                                               && existsb (String.eqb (rx_target x)) family)) (reactions d))
      (set_pin_rows (List.filter (fun p => negb (String.eqb (p_channel p) channel
                                                 && existsb (String.eqb (p_msgid p)) family)) (pin_rows d))
        (set_messages (map (fun r => if live r then delete_at now r else r) (messages d)) d)).

Definition soft_delete_message_by (channel msgid : string) (ev : option MutationEvent) (now : Z) (d : MsgDb) : MsgDb :=
  let d := match ev with Some ev => file_mutation_event ChatSig.Delete channel msgid None ev d | None => d end in
  soft_delete_rows channel msgid now d.

(** [UNIQUE(target_msgid, reactor_nick, emoji)] *)
Definition same_reaction (a b : ReactionRow) : bool :=
  String.eqb (rx_target a) (rx_target b) && String.eqb (rx_nick a) (rx_nick b) && String.eqb (rx_emoji a) (rx_emoji b).
Definition store_reaction_by (target_msgid channel nick : string) (did : option string) (emoji : string) (timestamp : Z)
    (ev : option MutationEvent) (d : MsgDb) : MsgDb :=
  let d := match ev with Some ev => file_mutation_event ChatSig.React channel target_msgid (Some emoji) ev d | None => d end in
  let row := mkReaction (root_of d target_msgid) channel nick did emoji timestamp in
  if existsb (same_reaction row) (reactions d) then d else set_reactions (reactions d ++ [row]) d.

Definition removes (target nick : string) (did : option string) (emoji : string) (x : ReactionRow) : bool :=
  String.eqb (rx_target x) target && String.eqb (rx_emoji x) emoji
  && match did with
     | Some did => bool_decide (rx_did x = Some did) || (negb (is_some (rx_did x)) && String.eqb (rx_nick x) nick)
     | None => String.eqb (rx_nick x) nick && negb (is_some (rx_did x))
     end.
Definition remove_reaction_by (target_msgid nick : string) (did : option string) (emoji channel : string)
    (ev : option MutationEvent) (d : MsgDb) : MsgDb :=
  let d := match ev with Some ev => file_mutation_event ChatSig.Unreact channel target_msgid (Some emoji) ev d | None => d end in
  let root := root_of d target_msgid in
  set_reactions (List.filter (fun x => negb (removes root nick did emoji x)) (reactions d)) d.

(** ** Pins *)

Definition NULS : string := String NUL "".
Definition pin_event_id (channel msgid : string) (at_ : Z) (pinning : bool) : string :=
  let verb := if pinning then "pin" else "unpin" in
  let digest := ChatSig.body_hash (verb +:+ NULS +:+ channel +:+ NULS +:+ msgid +:+ NULS +:+ pretty at_) in
  "pin-" +:+ str_take 22 (str_drop 7 digest).
Definition file_bare_event (kind channel subject : string) (timestamp : Z) (event_id : string) (d : MsgDb) : MsgDb :=
  (insert_event (mkRecord (Bare (mkFacts event_id kind (venue_of channel) None (Some subject) None None)) None
                   default_context timestamp) d).1.
Definition store_pin (channel msgid pinned_by : string) (pinned_at : Z) (d : MsgDb) : MsgDb :=
  let root := root_of d msgid in
  let d := file_bare_event "pin" channel root pinned_at (pin_event_id channel root pinned_at true) d in
  if existsb (fun p => String.eqb (p_channel p) channel && String.eqb (p_msgid p) root) (pin_rows d) then d
  else set_pin_rows (pin_rows d ++ [mkPinRow channel root pinned_by pinned_at]) d.
Definition remove_pin (channel msgid : string) (now : Z) (d : MsgDb) : MsgDb :=
  let root := root_of d msgid in
  let d := file_bare_event "unpin" channel root now (pin_event_id channel root now false) d in
  set_pin_rows (List.filter (fun p => negb (String.eqb (p_channel p) channel && String.eqb (p_msgid p) root)) (pin_rows d)) d.

(** ** Coordination cards *)

Inductive CoordinationWrite := Filed | Duplicate | Refused.
Definition same_content (a b : CoordinationEventRow) : bool :=
  String.eqb (c_event_type a) (c_event_type b) && String.eqb (c_channel a) (c_channel b)
  && bool_decide (c_ref_id a = c_ref_id b) && String.eqb (c_payload_json a) (c_payload_json b)
  && bool_decide (c_signature a = c_signature b).

Definition store_coordination_event (event : CoordinationEventRow) (signed : option (string * SigState)) (d : MsgDb)
    : MsgDb * CoordinationWrite :=
  match coordination_events d !! c_event_id event with
  | Some filed =>
      if negb (String.eqb (c_actor_did filed) (c_actor_did event)) then (d, Refused)
      else if same_content filed event then (d, Duplicate)
      else (record_event_conflict (c_event_id event)
              (fingerprint (c_event_type event +:+ NULS +:+ c_channel event +:+ NULS +:+ default "" (c_ref_id event)
                            +:+ NULS +:+ c_payload_json event)) d, Refused)
  | None =>
      let rec := match signed with
        | Some (canonical, state) => mkRecord (Document canonical) (c_signature event) (mkContext state None None) (c_timestamp event)
        | None => mkRecord (Bare (mkFacts (c_event_id event) "coordination" (venue_of (c_channel event))
                                    (Some (c_actor_did event)) (c_ref_id event) None None)) None default_context (c_timestamp event)
        end in
      let '(d', written) := insert_event rec (set_cards (<[c_event_id event := event]> (coordination_events d)) d) in
      if written then (d', Filed) else (d, Refused)
  end.
End Store.

(** ** Reading back what was signed *)

Section Reading.
Context {P : Primitives} {J : JsonText}.
Import ChatSig.

Definition str_of (v : option DocValue) : option string := match v with Some (DStr s) => Some s | _ => None end.

Lemma get_str_members k d : get_str k (JDoc <$> doc_members d) = str_of (member d k).
Proof. unfold get_str. rewrite lookup_fmap, doc_members_lookup. by destruct (member d k) as [[]|]. Qed.

Lemma str_of_fmap o : str_of (DStr <$> o) = o.
Proof. by destruct o. Qed.

Lemma canonicalize_nonempty q d : is_empty (canonicalize q d) = false.
Proof. done. Qed.

(** What the log's columns say of a document. *)
Definition facts_of (d : ChatDoc) : EventFacts :=
  let edit := nonempty (cd_edit d) in
  mkFacts (cd_msgid d)
    (match cd_kind d with Some k => kind_name k | None => if is_some edit then "edit" else "message" end)
    (cd_target d) (Some (cd_from d))
    (or_else (or_else (cd_subject d) edit) (only_if (is_coordination (cd_kind d)) (nonempty (cd_reference d))))
    (or_else (body_hash <$> cd_body d) (only_if (is_coordination (cd_kind d)) (body_hash <$> cd_payload d)))
    (only_if (is_reaction (cd_kind d)) (nonempty (cd_emoji d))).

(** The columns of the event log are read back from the very bytes that were
    signed: for every document the id, the kind, the venue, the actor, what it
    acts on, its hash and its emoji come out as they went in. *)
Lemma derive_canonical (d : ChatDoc) : derive_facts (canonical d) = Some (facts_of d).
Proof.
  unfold derive_facts, canonical. rewrite canonicalize_nonempty, json_reads_back. cbn [mbind option_bind].
  rewrite lookup_fmap, doc_members_lookup. change (member d "act") with (@None DocValue). cbn [fmap option_fmap option_map is_some].
  rewrite !get_str_members.
  change (member d "msgid") with (Some (DStr (cd_msgid d))). change (member d "target") with (Some (DStr (cd_target d))).
  change (member d "from") with (Some (DStr (cd_from d))). cbn [str_of mbind option_bind]. unfold facts_of. do 2 f_equal.
  - change (member d "kind") with (DStr <$> (kind_name <$> cd_kind d)). rewrite str_of_fmap.
    destruct (cd_kind d) as [k|]; [done|]. cbn [fmap option_fmap option_map].
    change (member d "edit") with (DStr <$> nonempty (cd_edit d)). by rewrite str_of_fmap.
  - change (member d "subject") with (DStr <$> cd_subject d). change (member d "edit") with (DStr <$> nonempty (cd_edit d)).
    change (member d "ref") with (DStr <$> only_if (is_coordination (cd_kind d)) (nonempty (cd_reference d))).
    by rewrite !str_of_fmap.
  - change (member d "body") with (DStr <$> (body_hash <$> cd_body d)).
    change (member d "payload") with (DStr <$> only_if (is_coordination (cd_kind d)) (body_hash <$> cd_payload d)).
    by rewrite !str_of_fmap.
  - change (member d "emoji") with (DStr <$> only_if (is_reaction (cd_kind d)) (nonempty (cd_emoji d))).
    by rewrite str_of_fmap.
Qed.
End Reading.

(** ** The log only grows, and says what its bytes say *)

Section Log.
Context {P : Primitives} {J : JsonText} {CF : CaseFold} {HO : HashOrder}.

Record event_ok (id : string) (e : StoredEvent) : Prop := {
  ev_key : f_event_id (e_facts e) = id;
  ev_bytes : e_canonical e <> "" -> derive_facts (e_canonical e) = Some (e_facts e);
  ev_unsigned : e_signature e = None -> e_sig_state e = Unsigned
}.
Definition log_ok (d : MsgDb) : Prop := map_Forall event_ok (events d).

(** The columns that are never written again. *)
Definition same_event (e e' : StoredEvent) : Prop :=
  e_canonical e' = e_canonical e /\ e_signature e' = e_signature e /\ e_sig_state e' = e_sig_state e
  /\ e_facts e' = e_facts e /\ e_origin e' = e_origin e /\ e_confirm e' = e_confirm e /\ e_timestamp e' = e_timestamp e
  /\ (is_Some (e_conflict e) -> e_conflict e' = e_conflict e).
Definition log_grows (d d' : MsgDb) : Prop :=
  forall id e, events d !! id = Some e -> exists e', events d' !! id = Some e' /\ same_event e e'.

Lemma same_event_refl e : same_event e e.
Proof. repeat split; auto. Qed.
Lemma log_grows_refl d : log_grows d d.
Proof. intros id e H. eauto using same_event_refl. Qed.
Lemma log_grows_eq d d' : events d' = events d -> log_grows d d'.
Proof. intros E id e H. rewrite E. eauto using same_event_refl. Qed.
Lemma log_grows_trans d1 d2 d3 : log_grows d1 d2 -> log_grows d2 d3 -> log_grows d1 d3.
Proof.
  intros H1 H2 id e H. destruct (H1 id e H) as (e' & He' & Hs). destruct (H2 id e' He') as (e'' & He'' & Hs').
  exists e''. split; [done|]. unfold same_event in *.
  destruct Hs as (A1 & A2 & A3 & A4 & A5 & A6 & A7 & A8), Hs' as (B1 & B2 & B3 & B4 & B5 & B6 & B7 & B8).
  rewrite A1, A2, A3, A4, A5, A6, A7 in *. repeat split; try done. intros C. rewrite <- (A8 C). apply B8. by rewrite (A8 C).
Qed.

(** A change of the log that keeps both. *)
Definition log_step (d d' : MsgDb) : Prop := (log_ok d -> log_ok d') /\ log_grows d d'.
Lemma log_step_eq d d' : events d' = events d -> log_step d d'.
Proof. intros E. split; [unfold log_ok; by rewrite E|by apply log_grows_eq]. Qed.
Lemma log_step_refl d : log_step d d.
Proof. by apply log_step_eq. Qed.
Lemma log_step_trans d1 d2 d3 : log_step d1 d2 -> log_step d2 d3 -> log_step d1 d3.
Proof. intros [] []. split; [auto|by eapply log_grows_trans]. Qed.

Lemma insert_event_cases rec d :
  (insert_event rec d = (d, false))
  \/ exists e, insert_event rec d = (set_events (<[f_event_id (e_facts e) := e]> (events d)) d, true)
       /\ events d !! f_event_id (e_facts e) = None /\ event_ok (f_event_id (e_facts e)) e
       /\ (forall c, r_shape rec = Document c -> e_canonical e = c).
Proof.
  unfold insert_event. destruct (r_shape rec) as [c|f] eqn:Es.
  - destruct (derive_facts c) as [f|] eqn:Ef; cbn; [|by left].
    destruct (events d !! f_event_id f) eqn:El; [by left|right].
    match goal with |- exists e, (set_events (<[_ := ?e0]> _) _, true) = _ /\ _ => exists e0 end.
    split; [reflexivity|]. split; [done|]. split; [|naive_solver].
    split; cbn; [done|done|]. by intros ->.
  - destruct (events d !! f_event_id f) eqn:El; [by left|right].
    match goal with |- exists e, (set_events (<[_ := ?e0]> _) _, true) = _ /\ _ => exists e0 end.
    split; [reflexivity|]. split; [done|]. split; [|naive_solver].
    split; cbn; [done|done|]. by intros ->.
Qed.

Lemma insert_event_log rec d : log_step d (insert_event rec d).1.
Proof.
  destruct (insert_event_cases rec d) as [->|(e & -> & En & Hok & _)]; [apply log_step_refl|]. split.
  - intros H id e'. cbn. rewrite lookup_insert_Some. intros [[<- <-]|[_ ?]]; eauto.
  - intros id e' H. exists e'. split; [|apply same_event_refl]. cbn. rewrite lookup_insert_ne; [done|congruence].
Qed.

Lemma note_conflict_same fp e : same_event e (note_conflict fp e).
Proof. unfold note_conflict, same_event. destruct (e_conflict e) eqn:E; cbn; repeat split; try done; by intros [? ?]. Qed.

Lemma record_conflict_log id fp d : log_step d (record_event_conflict id fp d).
Proof.
  split.
  - intros H k e. cbn. rewrite lookup_alter_Some. intros [(<- & e0 & He & ->)|[_ He]]; [|eauto].
    destruct (H _ _ He) as [H1 H2 H3]. destruct (note_conflict_same fp e0) as (A1 & A2 & A3 & A4 & _).
    split; rewrite ?A1, ?A2, ?A3, ?A4; auto.
  - intros k e He. cbn. destruct (decide (k = id)) as [->|Hn].
    + exists (note_conflict fp e). rewrite lookup_alter_eq, He. split; [done|apply note_conflict_same].
    + exists e. rewrite lookup_alter_ne by done. split; [done|apply same_event_refl].
Qed.

(** ** Every statement keeps the tables in order *)

Record store_ok (d : MsgDb) : Prop := {
  so_log : log_ok d;
  so_msgids : NoDup (omap m_msgid (messages d));
  so_logged : forall r id, In r (messages d) -> m_msgid r = Some id -> is_Some (events d !! id)
}.

Lemma empty_store_ok : store_ok empty_db.
Proof. split; [apply map_Forall_empty|constructor|done]. Qed.

Lemma insert_event_messages rec d : messages (insert_event rec d).1 = messages d.
Proof. destruct (insert_event_cases rec d) as [->|(e & -> & _)]; done. Qed.

Lemma insert_event_present rec d f :
  match r_shape rec with Document c => derive_facts c | Bare f => Some f end = Some f ->
  is_Some (events (insert_event rec d).1 !! f_event_id f).
Proof.
  intros H. unfold insert_event. destruct (r_shape rec) as [c|f0]; [rewrite H|injection H as ->]; cbn;
    (destruct (events d !! f_event_id f) eqn:E; cbn; [by rewrite E|by rewrite lookup_insert_eq]).
Qed.

Lemma opt_with_msgid g o doc :
  (forall x d, ChatSig.cd_msgid (g x d) = ChatSig.cd_msgid d) -> ChatSig.cd_msgid (ChatSig.opt_with g o doc) = ChatSig.cd_msgid doc.
Proof. intros H. by destruct o; cbn. Qed.

Lemma message_canonical_facts did id channel text tags replaces :
  exists f, derive_facts (message_canonical did id channel text tags replaces) = Some f /\ f_event_id f = id.
Proof.
  unfold message_canonical. rewrite derive_canonical. eexists. split; [reflexivity|]. cbn.
  by rewrite !opt_with_msgid.
Qed.

Lemma file_message_event_log channel text tags msgid did replaces ts ctx d :
  log_step d (file_message_event channel text tags msgid did replaces ts ctx d).
Proof. unfold file_message_event. destruct msgid; [apply insert_event_log|apply log_step_refl]. Qed.
Lemma file_message_event_messages channel text tags msgid did replaces ts ctx d :
  messages (file_message_event channel text tags msgid did replaces ts ctx d) = messages d.
Proof. unfold file_message_event. destruct msgid; [apply insert_event_messages|done]. Qed.
Lemma file_message_event_present channel text tags id did replaces ts ctx d :
  is_Some (events (file_message_event channel text tags (Some id) did replaces ts ctx d) !! id).
Proof.
  unfold file_message_event. destruct did as [did|].
  - destruct (message_canonical_facts did id channel text tags replaces) as (f & Hf & <-).
    apply insert_event_present. exact Hf.
  - exact (insert_event_present (mkRecord (Bare (mkFacts id (if is_some replaces then "edit" else "message") (venue_of channel)
      None replaces None None)) None ctx ts) d _ eq_refl).
Qed.

Lemma refuse_claim_log channel text tags msgid did replaces d :
  log_step d (refuse_claim channel text tags msgid did replaces d).
Proof.
  unfold refuse_claim. destruct msgid; [|apply log_step_refl]. destruct (find_message_by_msgid d s); [|apply log_step_refl].
  destruct (String.eqb _ _); [apply log_step_refl|apply record_conflict_log].
Qed.
Lemma refuse_claim_messages channel text tags msgid did replaces d :
  messages (refuse_claim channel text tags msgid did replaces d) = messages d.
Proof. unfold refuse_claim. repeat dmatch; done. Qed.

(** A change that leaves the message rows alone. *)
Lemma store_ok_same_rows d d' : messages d' = messages d -> log_step d d' -> store_ok d -> store_ok d'.
Proof.
  intros Em [Hl Hg] [H1 H2 H3]. split; [auto|by rewrite Em|].
  rewrite Em. intros r id Hr Hid. destruct (H3 r id Hr Hid) as [e He]. destruct (Hg id e He) as (e' & He' & _). eauto.
Qed.

(** A change that keeps the ids and the log, and brings no new id. *)
Lemma store_ok_fewer_rows d d' :
  events d' = events d -> omap m_msgid (messages d') `sublist_of` omap m_msgid (messages d) -> store_ok d -> store_ok d'.
Proof.
  intros E Hs [H1 H2 H3]. split; [unfold log_ok; by rewrite E|by eapply sublist_NoDup|].
  intros r id Hr Hid. rewrite E.
  assert (id ∈ omap m_msgid (messages d')) as Hin.
  { apply list_elem_of_omap. exists r. by rewrite list_elem_of_In. }
  apply (sublist_subseteq _ _ Hs) in Hin. apply list_elem_of_omap in Hin as (r' & Hr' & Hid').
  apply (H3 r'); [by rewrite <- list_elem_of_In|done].
Qed.

Lemma msgid_taken_false d id : msgid_taken d id = false -> id ∉ omap m_msgid (messages d).
Proof.
  unfold msgid_taken. rewrite existsb_false. intros H Hin. apply list_elem_of_omap in Hin as (r & Hr & Hid).
  rewrite list_elem_of_In in Hr. specialize (H r Hr). unfold row_is in H. case_bool_decide; congruence.
Qed.

(** The two ways a row is written. *)
Lemma insert_row_ok row d d' channel text tags did replaces ts ctx :
  insert_row row d = Some d' -> store_ok d ->
  store_ok (file_message_event channel text tags (m_msgid (row (next_id d))) did replaces ts ctx d').
Proof.
  unfold insert_row. intros H [H1 H2 H3].
  destruct (match m_msgid (row (next_id d)) with Some id => msgid_taken d id | None => false end) eqn:Et; [done|].
  injection H as <-. set (r := row (next_id d)) in *. set (d' := mkDb _ _ _ _ _ _ _ _).
  pose proof (file_message_event_log channel text tags (m_msgid r) did replaces ts ctx d') as [Hl Hg].
  split; [by apply Hl| |]; rewrite file_message_event_messages; cbn.
  - rewrite omap_app. destruct (m_msgid r) as [id|] eqn:Eid; cbn; rewrite Eid; [|by rewrite app_nil_r].
    apply NoDup_app. split; [done|]. split; [|apply NoDup_singleton].
    intros x Hx. rewrite list_elem_of_singleton. intros ->. by apply (msgid_taken_false d id).
  - intros r' id Hr Hid. apply in_app_iff in Hr as [Hr|[<-|[]]].
    + destruct (H3 r' id Hr Hid) as [e He]. destruct (Hg id e He) as (e' & He' & _). eauto.
    + rewrite Hid. apply file_message_event_present.
Qed.

Lemma insert_row_log row d d' : insert_row row d = Some d' -> log_step d d'.
Proof. unfold insert_row. destruct (match _ with Some _ => _ | None => _ end); [done|]. intros [= <-]. by apply log_step_eq. Qed.

Lemma file_mutation_event_log kind channel subject emoji ev d : log_step d (file_mutation_event kind channel subject emoji ev d).
Proof. apply insert_event_log. Qed.
Lemma file_mutation_event_messages kind channel subject emoji ev d :
  messages (file_mutation_event kind channel subject emoji ev d) = messages d.
Proof. apply insert_event_messages. Qed.
Lemma opt_mutation_log kind channel subject emoji ev d :
  log_step d (match ev with Some ev => file_mutation_event kind channel subject emoji ev d | None => d end).
Proof. destruct ev; [apply file_mutation_event_log|apply log_step_refl]. Qed.
Lemma opt_mutation_messages kind channel subject emoji ev d :
  messages (match ev with Some ev => file_mutation_event kind channel subject emoji ev d | None => d end) = messages d.
Proof. destruct ev; [apply file_mutation_event_messages|done]. Qed.

Lemma msgids_map f l : (forall r, m_msgid (f r) = m_msgid r) -> omap m_msgid (map f l) = omap m_msgid l.
Proof. intros H. induction l as [|r l IH]; [done|]. cbn. rewrite H. by destruct (m_msgid r); rewrite IH. Qed.
Lemma msgids_filter p l : omap m_msgid (List.filter p l) `sublist_of` omap m_msgid l.
Proof.
  induction l as [|r l IH]; [done|]. cbn. destruct (p r); cbn; destruct (m_msgid r); by try constructor.
Qed.

Lemma soft_delete_rows_events channel msgid now d : events (soft_delete_rows channel msgid now d) = events d.
Proof. unfold soft_delete_rows. by destruct (negb _). Qed.
Lemma soft_delete_rows_msgids channel msgid now d :
  omap m_msgid (messages (soft_delete_rows channel msgid now d)) = omap m_msgid (messages d).
Proof. unfold soft_delete_rows. destruct (negb _); [done|]. cbn. apply msgids_map. intros r. by destruct (_ && _). Qed.

Inductive store_op :=
  | SMessage (channel sender text : string) (ts : Z) (tags : gmap string string) (msgid did : option string) (ctx : EventContext)
  | SEdit (channel sender text : string) (ts : Z) (tags : gmap string string) (msgid replaces : string) (did : option string)
      (ctx : EventContext)
  | SDelete (channel msgid : string) (ev : option MutationEvent) (now : Z)
  | SReact (target channel nick : string) (did : option string) (emoji : string) (ts : Z) (ev : option MutationEvent)
  | SUnreact (target nick : string) (did : option string) (emoji channel : string) (ev : option MutationEvent)
  | SPin (channel msgid by_ : string) (at_ : Z)
  | SUnpin (channel msgid : string) (now : Z)
  | SPrune (channel : string) (max : Z)
  | SCard (event : CoordinationEventRow) (signed : option (string * SigState))
  | SMarker (did target ts : string).

Definition store_step (d : MsgDb) (o : store_op) : MsgDb :=
  match o with
  | SMessage channel sender text ts tags msgid did ctx => (insert_message_with channel sender text ts tags msgid did ctx d).1
  | SEdit channel sender text ts tags msgid replaces did ctx =>
      (insert_edit_with channel sender text ts tags msgid replaces did ctx d).1
  | SDelete channel msgid ev now => soft_delete_message_by channel msgid ev now d
  | SReact target channel nick did emoji ts ev => store_reaction_by target channel nick did emoji ts ev d
  | SUnreact target nick did emoji channel ev => remove_reaction_by target nick did emoji channel ev d
  | SPin channel msgid by_ at_ => store_pin channel msgid by_ at_ d
  | SUnpin channel msgid now => remove_pin channel msgid now d
  | SPrune channel max => prune_messages channel max d
  | SCard event signed => (store_coordination_event event signed d).1
  | SMarker did target ts => set_read_marker did target ts d
  end.

Lemma store_card_log event signed d : log_step d (store_coordination_event event signed d).1.
Proof.
  unfold store_coordination_event. destruct (coordination_events d !! c_event_id event).
  - repeat dmatch; try apply log_step_refl. apply record_conflict_log.
  - destruct (insert_event _ _) as [d' w] eqn:E. destruct w; [|apply log_step_refl].
    change d' with (d', true).1. rewrite <- E. eapply log_step_trans; [|apply insert_event_log]. by apply log_step_eq.
Qed.
Lemma store_card_messages event signed d : messages (store_coordination_event event signed d).1 = messages d.
Proof.
  unfold store_coordination_event. destruct (coordination_events d !! c_event_id event); [repeat dmatch; done|].
  destruct (insert_event _ _) as [d' w] eqn:E. destruct w; [|done].
  apply (f_equal (fun x => messages x.1)) in E. rewrite insert_event_messages in E. cbn in E. by rewrite E. 
Qed.

Lemma store_step_log o d : log_step d (store_step d o).
Proof.
  destruct o; cbn [store_step].
  - unfold insert_message_with. destruct (insert_row _ d) as [d'|] eqn:E; cbn [fst]; [|apply refuse_claim_log].
    eapply log_step_trans; [by eapply insert_row_log|apply file_message_event_log].
  - unfold insert_edit_with, file_edit. destruct (insert_row _ d) as [d'|] eqn:E; cbn [fst]; [|apply refuse_claim_log].
    eapply log_step_trans; [by eapply insert_row_log|apply file_message_event_log].
  - unfold soft_delete_message_by. eapply log_step_trans; [apply opt_mutation_log|].
    apply log_step_eq, soft_delete_rows_events.
  - unfold store_reaction_by. eapply log_step_trans; [apply opt_mutation_log|]. apply log_step_eq. by destruct (existsb _ _).
  - unfold remove_reaction_by. eapply log_step_trans; [apply opt_mutation_log|]. by apply log_step_eq.
  - unfold store_pin, file_bare_event. eapply log_step_trans; [apply insert_event_log|]. apply log_step_eq. by destruct (existsb _ _).
  - unfold remove_pin, file_bare_event. eapply log_step_trans; [apply insert_event_log|]. by apply log_step_eq.
  - by apply log_step_eq.
  - apply store_card_log.
  - by apply log_step_eq.
Qed.

Lemma store_step_ok o d : store_ok d -> store_ok (store_step d o).
Proof.
  intros H. pose proof (store_step_log o d) as Hl. destruct o; cbn [store_step] in *.
  - unfold insert_message_with in *. destruct (insert_row _ d) as [d'|] eqn:E; cbn [fst] in *.
    + exact (insert_row_ok _ _ _ channel text tags did None ts ctx E H).
    + by apply (store_ok_same_rows d); [apply refuse_claim_messages| |].
  - unfold insert_edit_with, file_edit in *. destruct (insert_row _ d) as [d'|] eqn:E; cbn [fst] in *.
    + exact (insert_row_ok _ _ _ channel text tags did (Some replaces) ts ctx E H).
    + by apply (store_ok_same_rows d); [apply refuse_claim_messages| |].
  - unfold soft_delete_message_by. eapply store_ok_fewer_rows; [apply soft_delete_rows_events|by rewrite soft_delete_rows_msgids|].
    eapply store_ok_same_rows; [apply opt_mutation_messages|apply opt_mutation_log|done].
  - apply (store_ok_same_rows d); [|done..]. unfold store_reaction_by. rewrite <- (opt_mutation_messages ChatSig.React channel target (Some emoji) ev d).
    by destruct (existsb _ _).
  - apply (store_ok_same_rows d); [|done..]. unfold remove_reaction_by. apply opt_mutation_messages.
  - apply (store_ok_same_rows d); [|done..]. unfold store_pin, file_bare_event. destruct (existsb _ _); apply insert_event_messages.
  - apply (store_ok_same_rows d); [|done..]. unfold remove_pin, file_bare_event. apply insert_event_messages.
  - by apply (store_ok_fewer_rows d); [|apply msgids_filter|].
  - by apply (store_ok_same_rows d); [apply store_card_messages| |].
  - by apply (store_ok_same_rows d).
Qed.

End Log.

(** ** Revisions and deletion *)

Section Revisions.
Context {P : Primitives} {J : JsonText} {CF : CaseFold} {HO : HashOrder}.

Lemma root_of_messages d d' msgid : messages d' = messages d -> root_of d' msgid = root_of d msgid.
Proof. intros E. unfold root_of, row_of. by rewrite E. Qed.

Lemma find_app_none {A} (p : A -> bool) l l' : existsb p l = false -> List.find p (l ++ l') = List.find p l'.
Proof. intros H. induction l as [|x l IH]; [done|]. cbn in *. apply orb_false_iff in H as [-> H]. auto. Qed.

(** An edit is filed under the identity of what it revises, whichever revision
    its sender named, and is found under it from then on. *)
Lemma edit_joins_family channel sender text ts tags msgid replaces did ctx d d' :
  insert_edit_with channel sender text ts tags msgid replaces did ctx d = (d', true) ->
  root_of d' msgid = root_of d replaces /\ row_of msgid d' = Some (mkRow (next_id d) channel sender text ts tags (Some msgid)
    (Some replaces) (Some (root_of d replaces)) None did).
Proof.
  unfold insert_edit_with, file_edit, insert_row. cbn [m_msgid]. destruct (msgid_taken d msgid) eqn:E; [done|].
  intros H. apply (f_equal fst) in H. cbn [fst] in H.
  assert (row_of msgid d' = Some (mkRow (next_id d) channel sender text ts tags (Some msgid)
    (Some replaces) (Some (root_of d replaces)) None did)) as Hr.
  { unfold row_of. rewrite <- H, file_message_event_messages. cbn. rewrite find_app_none by exact E. cbn. unfold row_is. cbn.
    by rewrite bool_decide_true. }
  split; [|done]. unfold root_of at 1. by rewrite Hr.
Qed.

Lemma delete_at_family channel root now r : in_family channel root (delete_at now r) = in_family channel root r.
Proof. done. Qed.

(** Deleting a message, by the id of any of its revisions, takes every
    revision of it out of history, and with the first such delete its pins and
    reactions; rows of other messages and of other conversations are untouched. *)
Theorem delete_takes_all_revisions (channel msgid : string) (ev : option MutationEvent) (now : Z) (d : MsgDb) :
  let root := root_of d msgid in
  let d' := soft_delete_message_by channel msgid ev now d in
  (forall r, In r (messages d') -> in_family channel root r = true -> is_Some (m_deleted_at r))
  /\ (forall r, in_family channel root r = false -> In r (messages d') <-> In r (messages d))
  /\ (existsb (fun r => in_family channel root r && negb (is_some (m_deleted_at r))) (messages d) = true ->
      forall id, id = root \/ (exists r, In r (messages d) /\ in_family channel root r = true /\ m_msgid r = Some id) ->
      (forall x, In x (reactions d') -> rx_channel x = channel -> rx_target x <> id)
      /\ (forall p, In p (pin_rows d') -> p_channel p = channel -> p_msgid p <> id)).
Proof.
  cbv zeta. unfold soft_delete_message_by. set (d1 := match ev with Some _ => _ | None => d end).
  assert (messages d1 = messages d) as Em by apply opt_mutation_messages. clearbody d1. unfold soft_delete_rows.
  rewrite (root_of_messages d d1 msgid Em), Em. set (root := root_of d msgid).
  destruct (existsb _ (messages d)) eqn:El; cbn [negb].
  - cbn. split; [|split].
    + intros r Hr Hf. apply in_map_iff in Hr as (r0 & <- & Hr0).
      destruct (in_family channel root r0 && negb (is_some (m_deleted_at r0))) eqn:E; [by cbn; eauto|].
      rewrite Hf in E. destruct (m_deleted_at r0); [eauto|done].
    + intros r Hf. rewrite in_map_iff. split.
      * intros (r0 & <- & Hr0). destruct (in_family channel root r0) eqn:E; [|by cbn in *].
        destruct (negb _); cbn in *; [rewrite delete_at_family in Hf|]; congruence.
      * intros Hr. exists r. by rewrite Hf.
    + intros _ id Hid. set (rows := omap m_msgid _).
      assert (existsb (String.eqb id) (if existsb (String.eqb root) rows then rows else rows ++ [root]) = true) as Hin.
      { apply existsb_exists. exists id. split; [|apply String.eqb_refl]. rewrite <- list_elem_of_In.
        destruct Hid as [->|(r & Hr & Hf & Hm)].
        - destruct (existsb (String.eqb root) rows) eqn:E; [|set_solver].
          apply existsb_exists in E as (x & Hx & Ex). apply String.eqb_eq in Ex. subst x. by rewrite list_elem_of_In.
        - assert (id ∈ rows) by (apply list_elem_of_omap; exists r; rewrite list_elem_of_In, filter_In; auto).
          destruct (existsb (String.eqb root) rows); set_solver. }
      split; intros x Hx Hc <-; apply filter_In in Hx as [_ Hx]; by rewrite Hc, String.eqb_refl, Hin in Hx.
  - split; [|split].
    + rewrite Em. intros r Hr Hf. pose proof (proj1 (existsb_false _ _) El r Hr) as H. cbn in H. rewrite Hf in H.
      destruct (m_deleted_at r); [eauto|done].
    + rewrite Em. done.
    + done.
Qed.
End Revisions.
