(* ===== verification/Routing.v ===== *)
(** * Routing of direct messages

    [freeq-server/src/connection/routing.rs]: where a message for a nick or a
    DID goes, which sessions it reaches on this server, and which identity it
    is filed under; with the coding of a body for the link between servers
    ([relay_coordination_tags], [encode_privmsg_text_for_s2s] of S2sLink). *)
From stdpp Require Import base gmap strings list fin_maps.
From Stdlib Require Import ZArith Lia Ascii String.
From S2P Require Import Prelude Text IrcMessage Multiline NickMap RoomTables S2sMessage Channel S2sLink.
Open Scope string_scope.
Open Scope list_scope.
Open Scope Z_scope.

Inductive RouteResult := Local (session : string) | Relayed | Unreachable.

Record RelayIdentity := mkIdentity {
  ri_account : option string;
  ri_msgid : option string;
  ri_sig : option string;
  ri_replaces : option string;
  ri_tags : gmap string string
}.

Definition looks_like_did (s : string) : bool :=
  (starts_with "did:plc:" s || starts_with "did:web:" s || starts_with "did:key:" s)
  && (12 <=? len s) && (len s <=? 256).

Definition reconcile_recipient_did (stamp local : option string) : option string :=
  match stamp, local with
  | Some s, Some l => if String.eqb s l then Some s else None
  | Some s, None => Some s
  | None, Some l => Some l
  | None, None => None
  end.

Definition s2s_line (l : BatchLine) : MultilineLine := mkMLine (bl_body l) (bl_concat_to_previous l).

Section Routing.
Context {CF : CaseFold} {HO : HashOrder}.

Definition sessions_bound (s : Server) (did : string) : option (list string) := set_iter <$> did_sessions s !! did.

Definition recipient_did_for_target (s : Server) (target : string) : option string :=
  if starts_with "did:" target then (if looks_like_did target then Some target else None)
  else nick_owners (names s) !! to_lowercase target.

Definition local_sessions_for_target (s : Server) (target : string) : list string :=
  if starts_with "did:" target then default [] (sessions_bound s target)
  else
    match get_session (nicks s) target with
    | None => []
    | Some session =>
        match did_of_session s session with
        | Some did => default [session] (sessions_bound s did)
        | None => [session]
        end
    end.

Definition sender_sessions_for_account (s : Server) (account : option string) : list string :=
  match account with Some did => default [] (sessions_bound s did) | None => [] end.

Definition merge_sessions (sessions extra : list string) : list string :=
  fold_left (fun acc sid => if existsb (String.eqb sid) acc then acc else acc ++ [sid]) extra sessions.

Definition relay_to_nick (s : Server) (from target text : string) (multiline_lines : option (list BatchLine))
    (identity : RelayIdentity) : RouteResult * list Channel.Effect :=
  let local_session :=
    if starts_with "did:" target then head (default [] (sessions_bound s target)) else get_session (nicks s) target in
  match local_session with
  | Some sid => (Local sid, [])
  | None =>
      if s2s_manager s then
        let '(s2s_text, s2s_tags) := encode_privmsg_text_for_s2s text (ri_tags identity) in
        (Relayed, [Peers (S2sMessage.Privmsg from target s2s_text (ri_msgid identity) (ri_sig identity) (ri_account identity)
                            (recipient_did_for_target s target) (ri_replaces identity) s2s_tags
                            (map s2s_line <$> multiline_lines))])
      else (Unreachable, [])
  end.
End Routing.
