(* ===== verification/Messaging.v ===== *)
(** * Message commands: state, ids and signatures

    The first half of [freeq-server/src/connection/messaging.rs]: which id a
    message is filed under, which signature leaves the server with it, what a
    signature by a client proves, the commit-reveal check, the flood limit and
    the channel's gates. The commands themselves are in MessagingOps. Clock
    readings and the ids the server mints are arguments ([Now]); percent
    decoding and the date format are parameters. *)
From stdpp Require Import base gmap strings list pretty fin_maps.
From Stdlib Require Import ZArith Lia Ascii String.
From S2P Require Import Prelude Text Ulid IrcMessage Multiline NickMap RoomTables S2sMessage Channel S2sLink Primitives SignedDocs MessageStore Routing.
Open Scope string_scope.
Open Scope list_scope.
Open Scope Z_scope.

(** ** State *)

Record HistoryEdit := mkHistoryEdit {
  he_msgid : string;
  he_timestamp : Z;
  he_tags : gmap string string;
  he_original_text : option string
}.
Record HistoryMessage := mkHistory {
  hm_from : string;
  hm_text : string;
  hm_timestamp : Z;
  hm_tags : gmap string string;
  hm_msgid : option string;
  hm_edited : bool;
  hm_edit : option HistoryEdit
}.
Definition MAX_HISTORY : nat := 100.

(** What the message commands work on beside [Server]: the recent history of
    the channels there are, the capabilities that shape a line, the keys of the
    sessions, the counters, and the database if there is one. *)
Record Chat := mkChat {
  srv : Server;
  db : option MsgDb;
  history : gmap string (list HistoryMessage);
  cap_server_time : gset string;
  cap_account_tag : gset string;
  cap_echo_message : gset string;
  cap_draft_multiline : gset string;
  cap_act : gset string;
  session_away : gmap string string;
  session_msg_keys : gmap string string;
  msg_timestamps : gmap string (list Z);
  prune_counters : gmap string Z;
  msg_signing_key : string;
  max_messages_per_channel : Z
}.
Definition set_srv x (s : Chat) := mkChat x (db s) (history s) (cap_server_time s) (cap_account_tag s) (cap_echo_message s)
  (cap_draft_multiline s) (cap_act s) (session_away s) (session_msg_keys s) (msg_timestamps s) (prune_counters s)
  (msg_signing_key s) (max_messages_per_channel s).
Definition set_db x (s : Chat) := mkChat (srv s) x (history s) (cap_server_time s) (cap_account_tag s) (cap_echo_message s)
  (cap_draft_multiline s) (cap_act s) (session_away s) (session_msg_keys s) (msg_timestamps s) (prune_counters s)
  (msg_signing_key s) (max_messages_per_channel s).
Definition set_history x (s : Chat) := mkChat (srv s) (db s) x (cap_server_time s) (cap_account_tag s) (cap_echo_message s)
  (cap_draft_multiline s) (cap_act s) (session_away s) (session_msg_keys s) (msg_timestamps s) (prune_counters s)
  (msg_signing_key s) (max_messages_per_channel s).
Definition set_timestamps x (s : Chat) := mkChat (srv s) (db s) (history s) (cap_server_time s) (cap_account_tag s)
  (cap_echo_message s) (cap_draft_multiline s) (cap_act s) (session_away s) (session_msg_keys s) x (prune_counters s)
  (msg_signing_key s) (max_messages_per_channel s).
Definition set_counters x (s : Chat) := mkChat (srv s) (db s) (history s) (cap_server_time s) (cap_account_tag s)
  (cap_echo_message s) (cap_draft_multiline s) (cap_act s) (session_away s) (session_msg_keys s) (msg_timestamps s) x
  (msg_signing_key s) (max_messages_per_channel s).

(** [with_db] for a statement that returns nothing the caller uses. *)
Definition on_db (f : MsgDb -> MsgDb) (s : Chat) : Chat := set_db (f <$> db s) s.

(** The clock, and the ids [msgid::generate] returns: one for the event, one
    for an outgoing batch. *)
Record Now := mkNow { at_ms : Z; minted : string; minted_batch : string }.
Definition secs (n : Now) : Z := at_ms n / 1000.

(** [act::Receipt]: a receipt on its way to the room. *)
Record Receipt := mkReceipt { rc_tags : gmap string string; rc_venue : string }.

Inductive ChatEffect :=
  | Out (e : Channel.Effect)
  | AvTagmsg (session target action : string) (tags : gmap string string)   (* handle_av_tagmsg *)
  | BroadcastReceipt (receipt : Receipt) (target : string).      (* act::broadcast_receipt *)

(** [ed25519_dalek::VerifyingKey::from_bytes]: whether 32 bytes are a key. *)
Class KeyBytes := { key_decodes : string -> bool }.
(** [urlencoding::decode] *)
Class UrlDecode := { url_decode : string -> option string }.
(** [DateTime::format] of a time in seconds. *)
Class IsoTime := { iso : Z -> string }.

(** ** Tags *)

Notation Tags := (gmap string string).

Definition set_signature (resolved : option string) (tags : Tags) : Tags :=
  let t := delete "freeq.at/sig" (delete "+freeq.at/sig" tags) in
  match resolved with Some sig => <["+freeq.at/sig" := sig]> t | None => t end.
Definition reply_reference (tags : Tags) : option string := or_else (tags !! "+reply") (tags !! "+draft/reply").
Definition strip_event_id_tag (tags : Tags) : Tags := delete ChatSig.EVENT_ID_TAG_BARE (delete ChatSig.EVENT_ID_TAG tags).
Definition event_id_of (tags : Tags) : option string :=
  or_else (tags !! ChatSig.EVENT_ID_TAG) (tags !! ChatSig.EVENT_ID_TAG_BARE).

Definition fail_reply (sid command code description : string) : ChatEffect :=
  Out (Reply sid "FAIL" [command; code; description]).

(** ** Signatures *)

Inductive ClientSigVerdict := SigValid | SigInvalid | SigUnverifiable (why : string).
#[export] Instance verdict_eq_dec : EqDecision ClientSigVerdict.
Proof. solve_decision. Defined.
Definition NO_KEY_ON_FILE : string := "no key on file for that kid".
Inductive SettledSignature := Attach (sig : option string) | Failed.

Record SignedFields := mkFields { sf_body : string; sf_msgid : string; sf_reply : option string; sf_edit : option string }.

Section Signatures.
Context {P : Primitives} {B64 : Base64} {J : JsonText} {KB : KeyBytes} {CF : CaseFold} {HO : HashOrder}.

Definition resolve_event_msgid (s : Chat) (c : Connection) (tags : Tags) (now : Now) : result string (string * string) :=
  match event_id_of tags with
  | None => Ok (minted now)
  | Some claimed =>
      match c_authenticated_did c with
      | None => Err ("EVENTID_NOT_AUTHENTICATED", "Only an authenticated identity may mint its own event ids")
      | Some _ =>
          match check_client_minted claimed (at_ms now) with
          | Err rejection => Err (IdRejection_code rejection, IdRejection_description rejection)
          | Ok _ =>
              if match db s with Some d => msgid_taken d claimed | None => false end
              then Err ("EVENTID_IN_USE", "That event id is already on file")
              else Ok claimed
          end
      end
  end.

Definition signing_venue (s : Server) (sender_did target : string) : option string :=
  if ChatSig.is_channel_name target then Some (ChatSig.channel_venue target)
  else ChatSig.dm_venue sender_did <$> recipient_did_for_target s target.

Definition message_document (did venue : string) (fields : SignedFields) (tags : Tags) : ChatSig.ChatDoc :=
  ChatSig.with_coord tags
    (ChatSig.opt_with ChatSig.with_edit (sf_edit fields)
      (ChatSig.opt_with ChatSig.with_reply (sf_reply fields)
        (ChatSig.message did (sf_msgid fields) venue (sf_body fields)))).

Definition stored_key (s : Chat) (did kid : string) : option string :=
  match db s ≫= fun d => get_signing_key_by_kid d did kid with
  | Some bytes => if key_decodes bytes then Some bytes else None
  | None => None
  end.
Definition verifying_key_for (s : Chat) (did kid : string) (session : option string) : option string :=
  match session ≫= fun sid => session_msg_keys s !! sid with
  | Some vk => if String.eqb (SigTag.derive_kid vk) kid then Some vk else stored_key s did kid
  | None => stored_key s did kid
  end.

Definition verdict_of (r : result unit SigTag.SigError) : ClientSigVerdict :=
  match r with
  | Ok _ => SigValid
  | Err e => if SigTag.is_unverifiable e then SigUnverifiable "unusable signature tag" else SigInvalid
  end.

Definition verify_client_signature (s : Chat) (doc : ChatSig.ChatDoc) (sig_tag did : string) (session : option string)
    : ClientSigVerdict :=
  match SigTag.parse sig_tag with
  | Err _ => SigUnverifiable "unparseable or legacy signature format"
  | Ok (kid, _) =>
      match verifying_key_for s did kid session with
      | None => SigUnverifiable NO_KEY_ON_FILE
      | Some key => verdict_of (ChatSig.verify doc sig_tag key)
      end
  end.

Definition verify_canonical_bytes (s : Chat) (signer_did canonical sig_tag : string) : ClientSigVerdict :=
  match SigTag.parse sig_tag with
  | Err _ => SigUnverifiable "unparseable or legacy signature format"
  | Ok (kid, _) =>
      match stored_key s signer_did kid with
      | None => SigUnverifiable NO_KEY_ON_FILE
      | Some key => verdict_of (SigTag.verify_canonical canonical sig_tag key)
      end
  end.

Definition verify_relayed_message (s : Chat) (sender_did target : string) (fields : SignedFields) (coord_tags : Tags)
    (sig_tag : string) : ClientSigVerdict :=
  if is_empty (sf_msgid fields) then SigUnverifiable "relayed message carries no event id"
  else match signing_venue (srv s) sender_did target with
       | None => SigUnverifiable "venue for the relayed target does not resolve"
       | Some venue => verify_client_signature s (message_document sender_did venue fields coord_tags) sig_tag sender_did None
       end.

Definition verify_mutation (s : Chat) (sender_did target : string) (kind : ChatSig.Mutation) (event_msgid subject : string)
    (emoji : option string) (sig_tag : string) (session : option string) : ClientSigVerdict :=
  if is_empty event_msgid then SigUnverifiable "mutation carries no event id"
  else match signing_venue (srv s) sender_did target with
       | None => SigUnverifiable "venue for the target does not resolve"
       | Some venue =>
           verify_client_signature s
             (ChatSig.opt_with ChatSig.with_emoji emoji (ChatSig.mutation kind sender_did event_msgid venue subject))
             sig_tag sender_did session
       end.
Definition verify_relayed_mutation (s : Chat) (sender_did target : string) (kind : ChatSig.Mutation)
    (event_msgid subject : string) (emoji : option string) (sig_tag : string) : ClientSigVerdict :=
  verify_mutation s sender_did target kind event_msgid subject emoji sig_tag None.
Definition verify_local_mutation (s : Chat) (c : Connection) (sid target : string) (kind : ChatSig.Mutation)
    (event_msgid subject : string) (emoji : option string) (sig_tag : string) : ClientSigVerdict :=
  match c_authenticated_did c with
  | None => SigUnverifiable "a guest cannot sign"
  | Some did => verify_mutation s did target kind event_msgid subject emoji sig_tag (Some sid)
  end.

(** The server's own signature over the same document. *)
Definition server_signature (s : Chat) (did : string) (venue : option string) (fields : SignedFields) (tags : Tags)
    : SettledSignature :=
  match venue with
  | None => Attach None
  | Some venue => Attach (Some (ChatSig.sign (message_document did venue fields tags) (msg_signing_key s)))
  end.
Definition resolve_signature (s : Chat) (c : Connection) (sid target : string) (fields : SignedFields) (tags : Tags)
    (client_sig : option string) : SettledSignature :=
  match c_authenticated_did c with
  | None => Attach None
  | Some did =>
      let venue := signing_venue (srv s) did target in
      match client_sig, venue with
      | Some sig_tag, Some v =>
          match verify_client_signature s (message_document did v fields tags) sig_tag did (Some sid) with
          | SigValid => Attach (Some sig_tag)
          | SigInvalid => Failed
          | SigUnverifiable _ => server_signature s did venue fields tags
          end
      | _, _ => server_signature s did venue fields tags
      end
  end.

(** ** Mutations *)

Record CheckedMutation := mkChecked { ck_kind : ChatSig.Mutation; ck_subject : string; ck_outcome : ClientSigVerdict }.

Definition mutation_in (tags : Tags) : option (ChatSig.Mutation * string * option string) :=
  match or_else (tags !! "+draft/delete") (tags !! "+delete") with
  | Some subject => Some (ChatSig.Delete, subject, None)
  | None =>
      match or_else (tags !! "+react") (tags !! "+draft/react") with
      | Some emoji => (fun subject => (ChatSig.React, subject, Some emoji)) <$> reply_reference tags
      | None =>
          match tags !! "+freeq.at/unreact" with
          | Some emoji => (fun subject => (ChatSig.Unreact, subject, Some emoji)) <$> reply_reference tags
          | None => None
          end
      end
  end.

Definition mutation_signature (s : Chat) (c : Connection) (sid target : string) (tags : Tags) : option CheckedMutation :=
  match sig_of tags, mutation_in tags with
  | Some sig_tag, Some (kind, subject, emoji) =>
      Some (mkChecked kind subject
              (verify_local_mutation s c sid target kind (default "" (event_id_of tags)) subject emoji sig_tag))
  | _, _ => None
  end.

Definition keep_signature (checked : option CheckedMutation) (tidied : Tags) : bool :=
  match checked with
  | None => false
  | Some ck =>
      bool_decide (ck_outcome ck = SigValid)
      && match mutation_in tidied with
         | Some (kind, subject, _) => bool_decide (kind = ck_kind ck) && String.eqb subject (ck_subject ck)
         | None => false
         end
  end.

Record VouchedMutation := mkVouched { v_event_id : string; v_signature : option string }.
Definition vouch_mutation (tidied : Tags) (checked : option CheckedMutation) : option VouchedMutation :=
  if negb (keep_signature checked tidied) then None
  else event_id ← event_id_of tidied; sig ← sig_of tidied; Some (mkVouched event_id (Some sig)).

Definition mutation_event (vouched : option VouchedMutation) (minted_id : string) (actor_did venue : option string)
    (ctx : EventContext) (timestamp : Z) : MutationEvent :=
  mkMutation (match vouched with Some v => v_event_id v | None => minted_id end) actor_did
    (vouched ≫= v_signature) venue ctx timestamp.

(** ** Coordination events *)

Definition coordination_document (did event_id venue event_type : string) (payload ref_id evidence_type : option string)
    : ChatSig.ChatDoc :=
  ChatSig.opt_with ChatSig.with_evidence evidence_type
    (ChatSig.opt_with ChatSig.with_ref ref_id
      (ChatSig.opt_with ChatSig.with_payload payload (ChatSig.coordination did event_id venue event_type))).

Definition ref_of (tags : Tags) : option string := or_else (tags !! "+freeq.at/ref") (tags !! "+freeq.at/task-id").

(** The verdict and the bytes it is about. *)
Definition coordination_signature (s : Chat) (c : Connection) (sid target event_type : string) (tags : Tags) (now : Now)
    : option (ClientSigVerdict * string) :=
  sig_tag ← sig_of tags;
  event_id ← event_id_of tags;
  did ← c_authenticated_did c;
  match check_client_minted event_id (at_ms now) with
  | Err _ => None
  | Ok _ =>
      venue ← signing_venue (srv s) did target;
      let doc := coordination_document did event_id venue event_type (tags !! "+freeq.at/payload") (ref_of tags)
                   (tags !! "+freeq.at/evidence-type") in
      Some (verify_client_signature s doc sig_tag did (Some sid), ChatSig.canonical doc)
  end.
End Signatures.

(** ** Commit and reveal *)

Section Reveal.
Context {P : Primitives} {B64 : Base64} {J : JsonText} {UD : UrlDecode}.

Definition payload_str (json field : string) : option string := json_from_str json ≫= get_str field.

Definition verify_commit_reveal (d : option MsgDb) (reveal_actor_did : option string) (reveal_channel : string)
    (reveal_ref_id : option string) (reveal_payload_json reveal_body : string) : result unit string :=
  match payload_str reveal_payload_json "reveal_of", payload_str reveal_payload_json "salt" with
  | Some reveal_of, Some salt_b64 =>
      match d ≫= fun d => find_message_by_msgid d reveal_of with
      | None => Err "commit_not_found"
      | Some commit =>
          if negb (bool_decide (m_sender_did commit = reveal_actor_did)) then Err "actor_mismatch"
          else if negb (String.eqb (m_channel commit) reveal_channel) then Err "channel_mismatch"
          else if negb (bool_decide (m_tags commit !! "+freeq.at/event" = Some "commit")) then Err "not_a_commit"
          else if negb (bool_decide (ref_of (m_tags commit) = reveal_ref_id)) then Err "ref_id_mismatch"
          else
            match m_tags commit !! "+freeq.at/payload" with
            | None => Err "bad_commit_payload"
            | Some raw =>
                let decoded := default raw (url_decode raw) in
                match payload_str decoded "hash" with
                | None => Err "bad_commit_payload"
                | Some expected_b64 =>
                    if negb (String.eqb (default "sha256" (payload_str decoded "alg")) "sha256") then Err "unsupported_alg"
                    else
                      match b64_decode salt_b64, b64_decode expected_b64 with
                      | None, _ => Err "bad_salt"
                      | _, None => Err "bad_commit_hash"
                      | Some salt, Some expected =>
                          if String.eqb (sha256 (salt +:+ reveal_body)) expected then Ok tt else Err "hash_mismatch"
                      end
                end
            end
      end
  | _, _ => Err "bad_payload"
  end.
End Reveal.

(** ** Limits and gates *)

(** [ts.retain(..)], then refuse at five or note the time. *)
Definition recent (now : Z) (ts : list Z) : list Z := List.filter (fun t => Z.max 0 (now - t) <? 2000) ts.
Definition spend (key : string) (now : Z) (s : Chat) : Chat * bool :=
  let ts := recent now (default [] (msg_timestamps s !! key)) in
  let over := (5 <=? List.length ts)%nat in
  (set_timestamps (<[key := if over then ts else ts ++ [now]]> (msg_timestamps s)) s, over).

Definition event_flood_exceeded (s : Chat) (sid : string) (now : Z) : Chat * bool * list ChatEffect :=
  let '(s', over) := spend ("event:" +:+ sid) now s in
  (s', over, if over then [fail_reply sid "TAGMSG" "RATE_LIMITED" "At most 5 events per 2 seconds per session"] else []).

Definition did_authority (s : Server) (sid : string) (ch : ChannelState) : bool := is_authority ch (did_of_session s sid).

(** +n and +m, as both kinds of message meet them. *)
Definition blocked_by_mode (s : Server) (sid : string) (ch : ChannelState) : option string :=
  if no_ext_msg ch && negb (bool_decide (sid ∈ members ch)) then Some "Cannot send to channel (+n)"
  else if moderated ch && negb (did_authority s sid ch) && negb (bool_decide (sid ∈ ops ch))
          && negb (bool_decide (sid ∈ halfops ch)) && negb (bool_decide (sid ∈ voiced ch))
  then Some "Cannot send to channel (+m)"
  else None.

Definition ERR_CANNOTSENDTOCHAN : string := "404".

Definition channel_accepts_tagmsg (s : Server) (c : Connection) (sid target : string) : bool * list ChatEffect :=
  match channels s !! target with
  | None => (true, [])
  | Some ch =>
      match blocked_by_mode s sid ch with
      | None => (true, [])
      | Some reason => (false, [Out (Reply sid ERR_CANNOTSENDTOCHAN [nick_or_star c; target; reason])])
      end
  end.

(** +E: the tag and a body that is ciphertext of one of the two schemes. *)
Definition has_ciphertext (text : string) : bool :=
  (starts_with "ENC1:" text || starts_with "EG1:" text) && (5 <? len text).
Definition blocked_by_encryption (ch : ChannelState) (tags : Tags) (text : string) : option string :=
  let has_tag := is_some (tags !! "+encrypted") in
  if encrypted_only ch && negb (has_tag && has_ciphertext text)
  then Some (if negb has_tag then "Cannot send to channel (+E) — messages must carry the +encrypted tag"
             else "Cannot send to channel (+E) — body must be ENC1/EG1-prefixed ciphertext")
  else None.

Section TagmsgForms.
Context {HO : HashOrder}.
Record TagmsgLines := mkTagmsg { tl_plain : string; tl_with_time : string; tl_account : option string; tl_time_account : option string }.
Definition render_tagmsg (tags : Tags) (mask target time_tag : string) (did : option string) (with_time with_account : bool) : string :=
  let t := if with_time then <["time" := time_tag]> tags else tags in
  let t := match did with Some did => if with_account then <["account" := did]> t else t | None => t end in
  server_display (mkMessage t (Some mask) "TAGMSG" [target]) +:+ CRLF.
Definition tagmsg_build (tags : Tags) (mask target time_tag : string) (did : option string) : TagmsgLines :=
  mkTagmsg (render_tagmsg tags mask target time_tag did false false) (render_tagmsg tags mask target time_tag did true false)
    (fmap (fun _ : string => render_tagmsg tags mask target time_tag did false true) did)
    (fmap (fun _ : string => render_tagmsg tags mask target time_tag did true true) did).
Definition tagmsg_pick (l : TagmsgLines) (has_time wants_account : bool) : string :=
  match has_time, wants_account with
  | true, true => default (tl_with_time l) (tl_time_account l)
  | true, false => tl_with_time l
  | false, true => default (tl_plain l) (tl_account l)
  | false, false => tl_plain l
  end.
End TagmsgForms.

(** ** In-memory history *)

Definition apply_edit (text edit_msgid : string) (timestamp : Z) (tags : Tags) (h : HistoryMessage) : HistoryMessage :=
  let original := match hm_edit h with Some previous => he_original_text previous | None => Some (hm_text h) end in
  mkHistory (hm_from h) text (hm_timestamp h) (hm_tags h) (hm_msgid h) true
    (Some (mkHistoryEdit edit_msgid timestamp tags original)).
Definition history_from_row (row : MessageRow) : HistoryMessage :=
  let tags := match m_sender_did row with Some did => <["account" := did]> (m_tags row) | None => m_tags row end in
  mkHistory (m_sender row) (m_text row) (m_timestamp row) (delete "+draft/edit" tags) (or_else (m_root row) (m_msgid row))
    false None.
Definition edit_line_tags (tags : Tags) (msgid : string) (sender_did : option string) (root : string) : Tags :=
  let t := <["msgid" := msgid]> tags in
  let t := match sender_did with Some did => <["account" := did]> t | None => t end in
  <["+draft/edit" := root]> t.
(** [push_back], then drop from the front. *)
Definition push_history (h : HistoryMessage) (l : list HistoryMessage) : list HistoryMessage :=
  let l := l ++ [h] in drop (List.length l - MAX_HISTORY) l.
Definition history_of (s : Chat) (channel : string) : list HistoryMessage := default [] (history s !! channel).
(** [channels.get_mut(channel)]: there is history only where there is a channel. *)
Definition on_history (channel : string) (f : list HistoryMessage -> list HistoryMessage) (s : Chat) : Chat :=
  if is_some (channels (srv s) !! channel) then set_history (<[channel := f (history_of s channel)]> (history s)) s else s.
