(* ===== verification/MessagingOps.v ===== *)
(** * Message commands: PRIVMSG, NOTICE, TAGMSG, edits and deletes

    The handlers of [freeq-server/src/connection/messaging.rs], each whole: its
    refusals, what it files and forgets, whom it reaches and what it tells the
    other servers. The judgement of a task message ([act::gate]) is an argument
    of [handle_tagmsg]; control of calls and the receipt of a task event are
    effects. A full send buffer is not modelled. *)
From stdpp Require Import base gmap strings list pretty fin_maps.
From Stdlib Require Import ZArith Lia Ascii String.
From S2P Require Import Prelude Text Ulid IrcMessage Multiline NickMap RoomTables S2sMessage Channel Rooms S2sLink Primitives SignedDocs MessageStore Routing Messaging.
Open Scope string_scope.
Open Scope list_scope.
Open Scope Z_scope.

Definition PRUNE_INTERVAL : Z := 256.
Definition RPL_AWAY : string := "301".
Definition ERR_NOSUCHNICK : string := "401".

Definition eq_ignore_ascii_case (a b : string) : bool := String.eqb (str_map ascii_lower a) (str_map ascii_lower b).
(** [sender.split('!').next()] *)
Definition nick_of_mask (sender : string) : string := match split_once "!" sender with Some (n, _) => n | None => sender end.

(** The lines of one message for one connected session. *)
Definition deliver (s : Chat) (sid : string) (frames : list string) : list ChatEffect :=
  if bool_decide (sid ∈ connections (srv s)) then map (fun f => Out (Line sid f)) frames else [].
Definition reply (sid code : string) (params : list string) : ChatEffect := Out (Reply sid code params).
Definition mem (x : string) (l : list string) : bool := existsb (String.eqb x) l.

Section Commands.
Context {P : Primitives} {B64 : Base64} {J : JsonText} {KB : KeyBytes} {UD : UrlDecode} {IT : IsoTime} {CF : CaseFold} {HO : HashOrder}.

(** ** Lines *)

Definition plain_line (mask command target text : string) : string :=
  ":" +:+ mask +:+ " " +:+ command +:+ " " +:+ target +:+ " :" +:+ text +:+ CRLF.
Definition tagged (tags : Tags) (mask command target text : string) : string :=
  server_display (mkMessage tags (Some mask) command [target; text]) +:+ CRLF.

(** What a receiver of a message is sent, by what it negotiated. *)
Definition message_frames (s : Chat) (sender_did : option string) (mask command target text : string) (tags : Tags)
    (msgid time_tag batch_id : string) (lines : option (list BatchLine)) (sid : string) : list string :=
  let has_tags := bool_decide (sid ∈ cap_message_tags (srv s)) in
  let has_time := bool_decide (sid ∈ cap_server_time s) in
  let wants_account := is_some sender_did && bool_decide (sid ∈ cap_account_tag s) in
  match lines with
  | Some lines =>
      build_outbound_multiline_frames (mkRelay mask command target msgid time_tag tags batch_id lines)
        (mkCaps has_tags has_time (bool_decide (sid ∈ cap_draft_multiline s)) wants_account sender_did)
  | None =>
      if negb has_tags then [plain_line mask command target text]
      else
        let t := if has_time then <["time" := time_tag]> tags else tags in
        let t := match sender_did with Some did => if wants_account then <["account" := did]> t else t | None => t end in
        [tagged t mask command target text]
  end.

Definition batch_id_of (now : Now) : string := "ml" +:+ minted_batch now.
Definition time_tag_of (now : Now) : string := iso (secs now).

Definition s2s_privmsg (s : Chat) (c : Connection) (target text msgid : string) (replaces : option string) (tags : Tags)
    (lines : option (list BatchLine)) : S2sMessage :=
  let '(s2s_text, s2s_tags) := encode_privmsg_text_for_s2s text (relay_coordination_tags tags) in
  S2sMessage.Privmsg (nick_or_star c) target s2s_text (Some msgid) (tags !! "+freeq.at/sig") (c_authenticated_did c)
    (recipient_did_for_target (srv s) target) replaces s2s_tags (map s2s_line <$> lines).

Definition sender_sibling_sessions (s : Chat) (sid : string) : list string :=
  match did_of_session (srv s) sid with
  | None => []
  | Some did => List.filter (fun id => negb (String.eqb id sid)) (default [] (sessions_bound (srv s) did))
  end.

(** ** PRIVMSG and NOTICE to a channel *)

(** The commit-reveal verdict a reveal carries onward. *)
Definition stamp_reveal (s : Chat) (c : Connection) (command target text : string) (tags : Tags) : Tags :=
  if String.eqb command "PRIVMSG" && bool_decide (tags !! "+freeq.at/event" = Some "reveal") then
    let raw := default "" (tags !! "+freeq.at/payload") in
    let outcome := verify_commit_reveal (db s) (c_authenticated_did c) target (ref_of tags) (default raw (url_decode raw)) text in
    let t := <["+freeq.at/commit-verified" := if is_ok outcome then "true" else "false"]> tags in
    match outcome with Err reason => <["+freeq.at/commit-mismatch" := reason]> t | Ok _ => t end
  else tags.

Definition count_and_prune (target : string) (s : Chat) : Chat :=
  if 0 <? max_messages_per_channel s then
    let n := default 0 (prune_counters s !! target) + 1 in
    if PRUNE_INTERVAL <=? n
    then on_db (prune_messages target (max_messages_per_channel s)) (set_counters (<[target := 0]> (prune_counters s)) s)
    else set_counters (<[target := n]> (prune_counters s)) s
  else s.

Definition file_channel_message (s : Chat) (c : Connection) (target text msgid : string) (tags : Tags) (now : Now) : Chat :=
  let mask := hostmask c in
  let history_tags := match c_authenticated_did c with Some did => <["account" := did]> tags | None => tags end in
  let s := on_history target (push_history (mkHistory mask text (secs now) history_tags (Some msgid) false None)) s in
  let s := on_db (fun d => (insert_message_with target mask text (secs now) tags (Some msgid) (c_authenticated_did c)
                              verified_context d).1) s in
  count_and_prune target s.

(** The tags a message is filed and relayed with, or the refusal its sender is told. *)
Definition settle_message (s : Chat) (c : Connection) (sid command target text : string) (tags : Tags) (now : Now)
    : result (string * Tags) (list ChatEffect) :=
  match resolve_event_msgid s c tags now with
  | Err (code, description) => Err [fail_reply sid command code description]
  | Ok msgid =>
      let full_tags := <["msgid" := msgid]> (strip_event_id_tag tags) in
      match resolve_signature s c sid target (mkFields text msgid (reply_reference tags) None) tags (tags !! "+freeq.at/sig") with
      | Attach sig => Ok (msgid, set_signature sig full_tags)
      | Failed => Err [fail_reply sid command "SIGNATURE_INVALID" "That signature does not verify against the key it names"]
      end
  end.

Definition channel_refusal (s : Chat) (sid target text : string) (tags : Tags) : option string :=
  match channels (srv s) !! target with
  | None => None
  | Some ch => match blocked_by_mode (srv s) sid ch with
               | Some reason => Some reason
               | None => blocked_by_encryption ch tags text
               end
  end.

Definition channel_members (s : Chat) (target : string) : list string :=
  match channels (srv s) !! target with Some ch => set_iter (members ch) | None => [] end.

Definition channel_message (s : Chat) (c : Connection) (sid command target text : string) (tags : Tags)
    (lines : option (list BatchLine)) (now : Now) : Chat * list ChatEffect :=
  let is_notice := String.eqb command "NOTICE" in
  match channel_refusal s sid target text tags with
  | Some reason => (s, if is_notice then [] else [reply sid ERR_CANNOTSENDTOCHAN [nick_or_star c; target; reason]])
  | None =>
      let is_room := match channels (srv s) !! target with Some ch => room ch | None => false end in
      let s := if is_room && negb is_notice then set_srv (bump_activity (srv s) target (secs now)) s else s in
      match settle_message s c sid command target text tags now with
      | Err out => (s, out)
      | Ok (msgid, full_tags) =>
          let full_tags := stamp_reveal s c command target text full_tags in
          let s := if String.eqb command "PRIVMSG" then file_channel_message s c target text msgid full_tags now else s in
          let frames := message_frames s (c_authenticated_did c) (hostmask c) command target text full_tags msgid
                          (time_tag_of now) (batch_id_of now) lines in
          (s,
           flat_map (fun m => if String.eqb m sid && negb (bool_decide (m ∈ cap_echo_message s)) then []
                              else deliver s m (frames m)) (channel_members s target)
           ++ (if String.eqb command "PRIVMSG"
               then map Out (s2s_broadcast (srv s) (s2s_privmsg s c target text msgid None full_tags lines)) else []))
      end
  end.

(** ** PRIVMSG and NOTICE to a nick or a DID *)

(** Every device of the identity a session belongs to. *)
Definition devices_of (s : Chat) (session : string) : list string :=
  match did_of_session (srv s) session with
  | Some did => default [session] (sessions_bound (srv s) did)
  | None => [session]
  end.

Definition echo (s : Chat) (sid : string) (frames : list string) : list ChatEffect :=
  if bool_decide (sid ∈ cap_echo_message s) then deliver s sid frames else [].

Definition file_direct_message (s : Chat) (c : Connection) (target text msgid : string) (tags : Tags) (now : Now) : Chat :=
  match c_authenticated_did c, recipient_did_for_target (srv s) target with
  | Some s_did, Some r_did =>
      on_db (fun d => (insert_message_with (ChatSig.dm_venue s_did r_did) (hostmask c) text (secs now) tags (Some msgid) (Some s_did)
                         verified_context d).1) s
  | _, _ => s
  end.

Definition direct_message (s : Chat) (c : Connection) (sid command target text : string) (tags : Tags)
    (lines : option (list BatchLine)) (now : Now) : Chat * list ChatEffect :=
  match settle_message s c sid command target text tags now with
  | Err out => (s, out)
  | Ok (msgid, pm_tags) =>
      let frames := message_frames s (c_authenticated_did c) (hostmask c) command target text pm_tags msgid
                      (time_tag_of now) (batch_id_of now) lines in
      let '(route, relayed) := relay_to_nick (srv s) (nick_or_star c) target text lines
        (mkIdentity (c_authenticated_did c) (Some msgid) (pm_tags !! "+freeq.at/sig") None (relay_coordination_tags pm_tags)) in
      let out :=
        match route with
        | Local session =>
            map Out (s2s_broadcast (srv s) (s2s_privmsg s c target text msgid None pm_tags lines))
            ++ match session_away s !! session with
               | Some away => [reply sid RPL_AWAY [nick_or_star c; target; away]]
               | None => []
               end
            ++ flat_map (fun m => deliver s m (frames m)) (devices_of s session)
            ++ flat_map (fun m => if String.eqb m sid then echo s sid (frames sid) else deliver s m (frames m))
                 (match c_authenticated_did c with
                  | Some did => default [sid] (sessions_bound (srv s) did)
                  | None => [sid]
                  end)
        | Relayed => map Out relayed ++ echo s sid (frames sid)
        | Unreachable => [reply sid ERR_NOSUCHNICK [nick_or_star c; target; "No such nick/channel"]]
        end in
      (file_direct_message s c target text msgid pm_tags now, out)
  end.

(** ** Finding what a mutation acts on *)

Definition dm_canonical_key (s : Server) (c : Connection) (target : string) : option string :=
  sender_did ← c_authenticated_did c;
  recipient_did ← (if starts_with "did:" target then Some target else nick_owners (names s) !! to_lowercase target);
  Some (ChatSig.dm_venue sender_did recipient_did).

Definition dm_fallback_row_is_addressable (row_channel : string) (caller_did : option string) : bool :=
  match strip_prefix "dm:" row_channel, caller_did with
  | Some participants, Some did => existsb (fun p => String.eqb p did) (str_split "," participants)
  | _, _ => false
  end.

Definition root_msgid (s : Chat) (msgid : string) : string := match db s with Some d => root_of d msgid | None => msgid end.

Definition find_original_message (s : Chat) (c : Connection) (target msgid : string) : option MessageRow :=
  d ← db s;
  match get_message_by_msgid d target msgid with
  | Some row => Some row
  | None =>
      if ChatSig.is_channel_name target then None
      else
        match dm_canonical_key (srv s) c target ≫= fun key => get_message_by_msgid d key msgid with
        | Some row => Some row
        | None =>
            match find_message_by_msgid d msgid with
            | Some row => if dm_fallback_row_is_addressable (m_channel row) (c_authenticated_did c) then Some row else None
            | None => None
            end
        end
  end.

Definition is_author (c : Connection) (row : MessageRow) : bool :=
  match m_sender_did row, c_authenticated_did c with
  | Some msg_did, Some conn_did => String.eqb msg_did conn_did
  | Some _, None => false
  | None, _ => eq_ignore_ascii_case (nick_of_mask (m_sender row)) (nick_or_star c)
  end.

Definition refuse_if_task_event (s : Chat) (sid command subject : string) : option (list ChatEffect) :=
  if match db s with Some d => is_act_event d subject | None => false end
  then Some [fail_reply sid command "IMMUTABLE_EVENT" "Task history cannot be changed or deleted"] else None.

(** ** Edits *)

(** [Some out]: the edit is refused, with what its sender is told. *)
Definition edit_refusal (c : Connection) (sid target : string) (original : option MessageRow) : option (list ChatEffect) :=
  match original with
  | Some row =>
      if negb (is_author c row) then Some [fail_reply sid "EDIT" "AUTHOR_MISMATCH" "You can only edit your own messages"]
      else if is_some (m_deleted_at row) then Some [] else None
  | None =>
      if ChatSig.is_channel_name target then Some [fail_reply sid "EDIT" "MESSAGE_NOT_FOUND" "Original message not found"] else None
  end.

(** An edit by an identity, where there is a venue, takes that identity's proof. *)
Definition edit_unproved (s : Chat) (c : Connection) (sid target : string) (signed : SignedFields) (tags : Tags)
    (client_sig : option string) : option (list ChatEffect) :=
  did ← c_authenticated_did c;
  venue ← signing_venue (srv s) did target;
  match match client_sig with
        | Some sig_tag => verify_client_signature s (message_document did venue signed tags) sig_tag did (Some sid)
        | None => SigUnverifiable "edit carries no signature"
        end with
  | SigValid => None
  | SigInvalid => Some [fail_reply sid "EDIT" "SIGNATURE_INVALID" "That signature does not verify against the key it names"]
  | SigUnverifiable _ =>
      Some [fail_reply sid "EDIT" "SIGNATURE_REQUIRED" "A signed request is required to modify messages on this server"]
  end.

Definition edit_lines (new_text : string) (inbound : option (list BatchLine)) : option (list BatchLine) :=
  match inbound with
  | Some lines => Some lines
  | None => if str_contains LF new_text then Some (map (fun b => mkLine b false "PRIVMSG") (str_split LF new_text)) else None
  end.

Definition edit_frames (s : Chat) (mask target fallback_text : string) (tags : Tags) (msgid time_tag batch_id : string)
    (lines : option (list BatchLine)) (sid : string) : list string :=
  let has_tags := bool_decide (sid ∈ cap_message_tags (srv s)) in
  let has_time := bool_decide (sid ∈ cap_server_time s) in
  let single := if has_tags then tagged (if has_time then <["time" := time_tag]> tags else tags) mask "PRIVMSG" target fallback_text
                else plain_line mask "PRIVMSG" target fallback_text in
  match lines with
  | Some lines =>
      if bool_decide (sid ∈ cap_draft_multiline s)
      then build_outbound_multiline_frames (mkRelay mask "PRIVMSG" target msgid time_tag tags batch_id lines)
             (mkCaps has_tags has_time true false None)
      else [single]
  | None => [single]
  end.

Fixpoint edit_first (p : HistoryMessage -> bool) (f : HistoryMessage -> HistoryMessage) (l : list HistoryMessage)
    : list HistoryMessage :=
  match l with [] => [] | h :: r => if p h then f h :: r else h :: edit_first p f r end.
Definition is_entry (msgid : string) (h : HistoryMessage) : bool := bool_decide (hm_msgid h = Some msgid).

Definition edit_history (s : Chat) (target root new_text edit_msgid : string) (timestamp : Z) (edit_tags : Tags)
    (original : option MessageRow) : Chat :=
  let apply := apply_edit new_text edit_msgid timestamp edit_tags in
  on_history target (fun l =>
    if existsb (is_entry root) l then edit_first (is_entry root) apply l
    else match original with Some row => push_history (apply (history_from_row row)) l | None => l end) s.

Definition edit_dm_out (s : Chat) (c : Connection) (sid target new_text msgid root : string) (tags : Tags)
    (lines : option (list BatchLine)) (frames : string -> list string) : list ChatEffect :=
  let '(route, relayed) := relay_to_nick (srv s) (nick_or_star c) target new_text lines
    (mkIdentity (c_authenticated_did c) (Some msgid) (tags !! "+freeq.at/sig") (Some root) (relay_coordination_tags tags)) in
  let siblings := sender_sibling_sessions s sid in
  match route with
  | Local session =>
      let targets := devices_of s session in
      flat_map (fun m => deliver s m (frames m)) targets
      ++ flat_map (fun m => if mem m targets then [] else deliver s m (frames m)) siblings
      ++ echo s sid (frames sid)
  | Relayed => map Out relayed ++ flat_map (fun m => deliver s m (frames m)) siblings ++ echo s sid (frames sid)
  | Unreachable => [reply sid ERR_NOSUCHNICK [nick_or_star c; target; "No such nick"]]
  end.

Definition edit_channel_out (s : Chat) (c : Connection) (sid target new_text msgid root : string) (tags : Tags)
    (lines : option (list BatchLine)) (frames : string -> list string) : list ChatEffect :=
  flat_map (fun m => if String.eqb m sid && negb (bool_decide (m ∈ cap_echo_message s)) then []
                     else deliver s m (frames m)) (channel_members s target)
  ++ map Out (s2s_broadcast (srv s) (s2s_privmsg s c target new_text msgid (Some root) tags lines)).

(** What an accepted edit does: file it, rewrite the entry, tell everyone. *)
Definition perform_edit (s : Chat) (c : Connection) (sid target new_text root edit_msgid : string) (full_tags : Tags)
    (original : option MessageRow) (inbound : option (list BatchLine)) (now : Now) : Chat * list ChatEffect :=
  let is_channel := ChatSig.is_channel_name target in
  let lines := edit_lines new_text inbound in
  let fallback_text := match lines with Some (l :: _) => bl_body l | _ => new_text end in
  let store_tags := <["+draft/edit" := root]> (delete "msgid" full_tags) in
  let store_channel := match original with Some row => m_channel row | None => target end in
  let s := match original with
           | Some _ => on_db (fun d => (insert_edit_with store_channel (hostmask c) new_text (secs now) store_tags edit_msgid root
                                          (c_authenticated_did c) verified_context d).1) s
           | None => s
           end in
  let s := if is_channel
           then edit_history s target root new_text edit_msgid (secs now)
                  (edit_line_tags store_tags edit_msgid (c_authenticated_did c) root) original
           else s in
  let frames := edit_frames s (hostmask c) target fallback_text full_tags edit_msgid (time_tag_of now) (batch_id_of now) lines in
  (s, (if is_channel then edit_channel_out else edit_dm_out) s c sid target new_text edit_msgid root full_tags lines frames).

Definition handle_edit (s : Chat) (c : Connection) (sid target new_text original_msgid : string) (tags : Tags)
    (inbound : option (list BatchLine)) (now : Now) : Chat * list ChatEffect :=
  match refuse_if_task_event s sid "EDIT" original_msgid with
  | Some out => (s, out)
  | None =>
      let root := root_msgid s original_msgid in
      let original := find_original_message s c target root in
      match edit_refusal c sid target original with
      | Some out => (s, out)
      | None =>
          match resolve_event_msgid s c tags now with
          | Err (code, description) => (s, [fail_reply sid "EDIT" code description])
          | Ok edit_msgid =>
              let full_tags := <["+draft/edit" := root]> (<["msgid" := edit_msgid]> (strip_event_id_tag tags)) in
              let client_sig := tags !! "+freeq.at/sig" in
              let signed := mkFields new_text edit_msgid (reply_reference tags) (Some root) in
              match edit_unproved s c sid target signed tags client_sig with
              | Some out => (s, out)
              | None =>
                  match resolve_signature s c sid target signed tags client_sig with
                  | Failed => (s, [fail_reply sid "EDIT" "SIGNATURE_INVALID"
                                     "That signature does not verify against the key it names"])
                  | Attach sig =>
                      perform_edit s c sid target new_text root edit_msgid (set_signature sig full_tags) original inbound now
                  end
              end
          end
      end
  end.

(** ** The command *)

Definition handle_privmsg_with_multiline (s : Chat) (c : Connection) (sid command target text : string) (tags : Tags)
    (lines : option (list BatchLine)) (now : Now) : Chat * list ChatEffect :=
  if carries_act_tags tags then (s, [fail_reply sid command "MIXED_TAGS" "A task message carries only task tags"])
  else
    match tags !! "+draft/edit" with
    | Some original_msgid => handle_edit s c sid target text original_msgid tags lines now
    | None =>
        let '(s, over) := spend sid (at_ms now) s in
        if over then
          (s, if String.eqb command "NOTICE" then []
              else [reply sid ERR_CANNOTSENDTOCHAN [nick_or_star c; target; "Flood protection: sending too fast"]])
        else if ChatSig.is_channel_name target then channel_message s c sid command target text tags lines now
        else direct_message s c sid command target text tags lines now
    end.
Definition handle_privmsg (s : Chat) (c : Connection) (sid command target text : string) (tags : Tags) (now : Now)
    : Chat * list ChatEffect := handle_privmsg_with_multiline s c sid command target text tags None now.

(** ** Deletes *)

Definition delete_refusal (s : Chat) (c : Connection) (sid target : string) (original : option MessageRow)
    : option (list ChatEffect) :=
  match original with
  | Some row =>
      let is_op := ChatSig.is_channel_name target
                   && match channels (srv s) !! target with Some ch => bool_decide (sid ∈ ops ch) | None => false end in
      if negb (is_author c row) && negb is_op
      then Some [fail_reply sid "DELETE" "AUTHOR_MISMATCH" "You can only delete your own messages"]
      else if is_some (m_deleted_at row) then Some [] else None
  | None =>
      if ChatSig.is_channel_name target then Some [fail_reply sid "DELETE" "MESSAGE_NOT_FOUND" "Original message not found"] else None
  end.

Definition signed_venue_of (s : Chat) (c : Connection) (target : string) : option string :=
  c_authenticated_did c ≫= fun did => signing_venue (srv s) did target.

Definition file_delete (s : Chat) (c : Connection) (target msgid : string) (vouched : option VouchedMutation) (ctx : EventContext)
    (row : MessageRow) (now : Now) : Chat :=
  let ev := mutation_event vouched (minted now) (c_authenticated_did c) (signed_venue_of s c target) ctx (secs now) in
  on_db (soft_delete_message_by (m_channel row) msgid (Some ev) (secs now)) s.

Definition forget_entry (s : Chat) (target msgid : string) : Chat :=
  let s := on_history target (List.filter (fun h => negb (is_entry msgid h))) s in
  set_srv (update_channel target (fun ch => set_pins (List.filter (fun p => negb (String.eqb (pin_msgid p) msgid)) (pins ch)) ch)
             (srv s)) s.

Definition delete_tags (msgid : string) (event_tags : Tags) : Tags :=
  let t : Tags := {["+draft/delete" := msgid]} in
  let t := match event_tags !! "+freeq.at/sig" with Some v => <["+freeq.at/sig" := v]> t | None => t end in
  match event_tags !! ChatSig.EVENT_ID_TAG with Some v => <[ChatSig.EVENT_ID_TAG := v]> t | None => t end.

(** The line for a session that understands tags, with the deleter named to
    those that asked for accounts. *)
Definition delete_line (s : Chat) (c : Connection) (target : string) (tags : Tags) (sid : string) : list string :=
  if bool_decide (sid ∈ cap_message_tags (srv s)) then
    let t := match c_authenticated_did c with
             | Some did => if bool_decide (sid ∈ cap_account_tag s) then <["account" := did]> tags else tags
             | None => tags
             end in
    [server_display (mkMessage t (Some (hostmask c)) "TAGMSG" [target]) +:+ CRLF]
  else [].

Definition handle_delete (s : Chat) (c : Connection) (sid target original_msgid : string) (event_tags : Tags)
    (vouched : option VouchedMutation) (ctx : EventContext) (now : Now) : Chat * list ChatEffect :=
  match refuse_if_task_event s sid "DELETE" original_msgid with
  | Some out => (s, out)
  | None =>
      let original := find_original_message s c target original_msgid in
      match delete_refusal s c sid target original with
      | Some out => (s, out)
      | None =>
          let s := match original with Some row => file_delete s c target original_msgid vouched ctx row now | None => s end in
          let s := if ChatSig.is_channel_name target then forget_entry s target original_msgid else s in
          let del_tags := delete_tags original_msgid event_tags in
          let receivers :=
            if ChatSig.is_channel_name target
            then List.filter (fun m => negb (String.eqb m sid)) (channel_members s target)
            else fold_left (fun acc sib => if mem sib acc then acc else acc ++ [sib]) (sender_sibling_sessions s sid)
                   (local_sessions_for_target (srv s) target) in
          (s, flat_map (fun m => deliver s m (delete_line s c target del_tags m)) receivers
              ++ map Out (s2s_broadcast (srv s) (Tagmsg (nick_or_star c) target del_tags (c_authenticated_did c))))
      end
  end.

(** ** TAGMSG *)

(** [tags.remove(draft)], then [entry(canonical).or_insert(v)]. *)
Definition undraft (draft canonical : string) (tags : Tags) : Tags :=
  match tags !! draft with
  | Some v => let t := delete draft tags in match t !! canonical with Some _ => t | None => <[canonical := v]> t end
  | None => tags
  end.
Definition tidy_tags (s : Chat) (tags : Tags) : Tags :=
  let t := undraft "+draft/reply" "+reply" (undraft "+draft/react" "+react" tags) in
  let acts := is_some (t !! "+react") || is_some (t !! "+freeq.at/unreact") in
  let t := match t !! "+reply" with
           | Some m => if acts then <["+reply" := root_msgid s m]> t else t
           | None => t
           end in
  match t !! "+draft/delete" with Some m => <["+draft/delete" := root_msgid s m]> t | None => t end.

(** What leaves the server on a mutation: the vouched id and signature only. *)
Definition settle_tags (is_mutation : bool) (vouched : option VouchedMutation) (tags : Tags) : Tags :=
  if is_mutation then
    let t := delete ChatSig.EVENT_ID_TAG (delete ChatSig.EVENT_ID_TAG_BARE (delete "freeq.at/sig" (delete "+freeq.at/sig" tags))) in
    match vouched with
    | Some v => let t := <[ChatSig.EVENT_ID_TAG := v_event_id v]> t in
                match v_signature v with Some sig => <["+freeq.at/sig" := sig]> t | None => t end
    | None => t
    end
  else tags.

(** [Some out]: refused before anything is looked at. *)
Definition mutation_refusal (s : Chat) (c : Connection) (sid target : string) (is_mutation : bool)
    (arrived : option CheckedMutation) : option (list ChatEffect) :=
  let outcome := ck_outcome <$> arrived in
  if bool_decide (outcome = Some SigInvalid)
  then Some [fail_reply sid "TAGMSG" "SIGNATURE_INVALID" "That signature does not verify against the key it names"]
  else if is_mutation && is_some (signed_venue_of s c target) && negb (bool_decide (outcome = Some SigValid))
  then Some [fail_reply sid "TAGMSG" "SIGNATURE_REQUIRED" "A signed request is required to modify messages on this server"]
  else None.

Definition MAX_PAYLOAD_BYTES : Z := 65536.

(** A coordination event is filed before the rest of the message is looked at:
    [inl] is the end of the command, [inr] what goes on. *)
Definition file_coordination (s : Chat) (c : Connection) (sid target : string) (tags : Tags) (now : Now)
    : (Chat * list ChatEffect) + Chat :=
  match tags !! "+freeq.at/event", c_authenticated_did c with
  | Some event_type, Some did =>
      let '(s, over, out) := event_flood_exceeded s sid (at_ms now) in
      if over then inl (s, out)
      else
        let raw_payload := default "" (tags !! "+freeq.at/payload") in
        if MAX_PAYLOAD_BYTES <? len raw_payload then
          inl (s, [fail_reply sid "TAGMSG" "PAYLOAD_TOO_LARGE"
                     ("+freeq.at/payload exceeds 65536 bytes; got " +:+ pretty (len raw_payload))])
        else
          let checked := coordination_signature s c sid target event_type tags now in
          if bool_decide (fst <$> checked = Some SigInvalid) then
            inl (s, [fail_reply sid "TAGMSG" "SIGNATURE_INVALID" "That signature does not verify against the key it names"])
          else
            let signed := (fun x : ClientSigVerdict * string =>
                             (x.2, if bool_decide (x.1 = SigValid) then Valid else Unverifiable)) <$> checked in
            let event_id := default (minted now) (if is_some signed then event_id_of tags else tags !! "msgid") in
            let payload := if is_empty raw_payload then "{}" else default raw_payload (url_decode raw_payload) in
            if MAX_PAYLOAD_BYTES <? len payload then inl (s, [])
            else
              let signature := if is_some signed then tags !! "+freeq.at/sig" else None in
              let event := mkCoord event_id event_type did target (ref_of tags) payload signature (secs now) in
              match db s with
              | None => inr s
              | Some d =>
                  match store_coordination_event event signed d with
                  | (d', Refused) => inl (set_db (Some d') s, [])
                  | (d', _) => inr (set_db (Some d') s)
                  end
              end
  | _, _ => inr s
  end.

Definition AV_ACTIONS : list string :=
  ["+freeq.at/av-start"; "+freeq.at/av-join"; "+freeq.at/av-leave"; "+freeq.at/av-end"].

Definition file_reactions (s : Chat) (c : Connection) (target : string) (tags : Tags) (vouched : option VouchedMutation) (now : Now)
    : Chat :=
  let ev := Some (mutation_event vouched (minted now) (c_authenticated_did c) (signed_venue_of s c target) verified_context (secs now)) in
  let s := match tags !! "+react", tags !! "+reply" with
           | Some emoji, Some m =>
               on_db (store_reaction_by m target (nick_or_star c) (c_authenticated_did c) emoji (secs now) ev) s
           | _, _ => s
           end in
  match tags !! "+freeq.at/unreact", tags !! "+reply" with
  | Some emoji, Some m => on_db (remove_reaction_by m (nick_or_star c) (c_authenticated_did c) emoji target ev) s
  | _, _ => s
  end.

Definition tagmsg_receivers (s : Chat) (sid target : string) : list string :=
  if ChatSig.is_channel_name target
  then List.filter (fun m => negb (String.eqb m sid && negb (bool_decide (m ∈ cap_echo_message s)))) (channel_members s target)
  else
    let l := fold_left (fun acc sib => if mem sib acc then acc else acc ++ [sib]) (sender_sibling_sessions s sid)
               (local_sessions_for_target (srv s) target) in
    if bool_decide (sid ∈ cap_echo_message s) && negb (mem sid l) then l ++ [sid] else l.

Definition relay_tagmsg (s : Chat) (c : Connection) (sid target : string) (tags : Tags) (is_act : bool) (now : Now)
    : list ChatEffect :=
  let lines := tagmsg_build tags (hostmask c) target (time_tag_of now) (c_authenticated_did c) in
  let fallback := match tags !! "+react" with
                  | Some emoji => [plain_line (hostmask c) "PRIVMSG" target
                                     (String "001" "" +:+ "ACTION reacted with " +:+ emoji +:+ String "001" "")]
                  | None => []
                  end in
  let frames m := if bool_decide (m ∈ cap_message_tags (srv s)) && (negb is_act || bool_decide (m ∈ cap_act s))
                  then [tagmsg_pick lines (bool_decide (m ∈ cap_server_time s)) (bool_decide (m ∈ cap_account_tag s))]
                  else fallback in
  flat_map (fun m => deliver s m (frames m)) (tagmsg_receivers s sid target)
  ++ map Out (s2s_broadcast (srv s) (Tagmsg (nick_or_star c) target tags (c_authenticated_did c))).

Inductive Gate := NotATaskMessage | Accepted (receipt : option Receipt) | GateRefused.
(** The task commands' judgement of a message that carries task tags. *)
Variable judge_task : Chat -> Connection -> string -> string -> Tags -> Gate * Chat * list ChatEffect.
Definition gate (s : Chat) (c : Connection) (sid target : string) (tags : Tags) : Gate * Chat * list ChatEffect :=
  if negb (carries_act_tags tags) then (NotATaskMessage, s, []) else judge_task s c sid target tags.

Definition handle_tagmsg (s : Chat) (c : Connection) (sid target : string) (tags : Tags) (now : Now) : Chat * list ChatEffect :=
  if bool_decide (tags = ∅) then (s, [])
  else
    let target := route_target target in
    let '(verdict, s, out0) := gate s c sid target tags in
    match match verdict with GateRefused => None | Accepted r => Some (true, r) | NotATaskMessage => Some (false, None) end with
    | None => (s, out0)
    | Some (is_act, receipt) =>
        let is_mutation := is_some (mutation_in tags) in
        let arrived := mutation_signature s c sid target tags in
        match mutation_refusal s c sid target is_mutation arrived with
        | Some out => (s, out0 ++ out)
        | None =>
            let tidied := tidy_tags s tags in
            let vouched := if is_mutation then vouch_mutation tidied arrived else None in
            let tags := settle_tags is_mutation vouched tidied in
            match tags !! "+draft/delete" with
            | Some original_msgid =>
                let '(s, out) := handle_delete s c sid target original_msgid tags vouched verified_context now in (s, out0 ++ out)
            | None =>
                match file_coordination s c sid target tags now with
                | inl (s, out) => (s, out0 ++ out)
                | inr s =>
                    match List.find (fun a => is_some (tags !! a)) AV_ACTIONS with
                    | Some action => (s, out0 ++ [AvTagmsg sid target action tags])
                    | None =>
                        let '(accepts, out1) :=
                          if ChatSig.is_channel_name target then channel_accepts_tagmsg (srv s) c sid target else (true, []) in
                        if negb accepts then (s, out0 ++ out1)
                        else
                          let s := file_reactions s c target tags vouched now in
                          (s, out0 ++ relay_tagmsg s c sid target tags is_act now
                              ++ match receipt with Some r => [BroadcastReceipt r target] | None => [] end)
                    end
                end
            end
        end
    end.
End Commands.
