(* ===== verification/FederatedChat.v ===== *)
(** * Messages from other servers

    The arms of [process_s2s_event] in [freeq-server/src/server.rs] for
    PRIVMSG and TAGMSG, with what they rest on: the check of a relayed
    signature, who may edit or delete from afar, the queue of edits and
    mutations that wait for their signer's key, and the delivery to local
    sessions. The judgement of a relayed task event and the lookup of a key are
    an argument and an effect. *)
From stdpp Require Import base gmap strings list pretty fin_maps.
From Stdlib Require Import ZArith Lia Ascii String.
From S2P Require Import Prelude Text Ulid IrcMessage Multiline RelayQueue NickMap RoomTables S2sMessage Channel Rooms S2sLink Federation Primitives SignedDocs MessageStore Routing Messaging MessagingOps.
Open Scope string_scope.
Open Scope list_scope.
Open Scope Z_scope.

(** ** State *)

Record Arrival := mkArrival { ar_origin_name : string; ar_at : Z }.

(** The server, and what waits for a key. *)
Record Relays := mkRelays { chat : Chat; held : Queue (HeldRelay S2sEvent) }.
Definition set_chat x (r : Relays) := mkRelays x (held r).
Definition set_held x (r : Relays) := mkRelays (chat r) x.

Inductive RelayEffect :=
  | Told (e : ChatEffect)
  | FetchKey (origin did sig_tag : string)                                   (* peer_keys::fetch_on_miss *)
  | Released (items : list (HeldRelay S2sEvent))                    (* the task release_held_relays spawns *)
  | ReleaseWaiting (event_id : string)                                       (* release_events_waiting_on *)
  | AskOwnHost (referee kid : string)                                        (* peer_keys::ask_own_host *)
  | FetchFromAnyPeer (did sig_tag : string).                                 (* peer_keys::fetch_from_any_peer *)

(** ** Reading the tables *)

Record MessageAuthorship := mkAuthorship { au_channel : string; au_sender : string; au_sender_did : option string; au_deleted : bool }.
Definition message_authorship (d : MsgDb) (msgid : string) : option MessageAuthorship :=
  (fun r => mkAuthorship (m_channel r) (m_sender r) (m_sender_did r) (is_some (m_deleted_at r))) <$> row_of (root_of d msgid) d.
Definition later_revision_on_file (d : MsgDb) (root msgid : string) : bool :=
  existsb (fun r => bool_decide (m_root r = Some root) && is_some (m_replaces r)
                    && match m_msgid r with Some id => String.ltb msgid id | None => false end) (messages d).

(** [truncate] at the last character boundary up to [n]. *)
Fixpoint cut_at (s : string) (n : nat) : nat :=
  match String.get n s with
  | Some c => if continues c then match n with O => O | S m => cut_at s m end else n
  | None => n
  end.
Definition truncate (max : nat) (s : string) : string :=
  if (max <? String.length s)%nat then str_take (cut_at s max) s else s.

Definition local_line (l : MultilineLine) : BatchLine := mkLine (ml_body l) (ml_concat l) "PRIVMSG".

Section FederatedChat.
Context {P : Primitives} {B64 : Base64} {J : JsonText} {KB : KeyBytes} {IT : IsoTime} {CF : CaseFold} {HO : HashOrder}.

(** ** Who may do what from afar *)

Definition federated_actor_is_author (row : MessageAuthorship) (actor_nick : string) (actor_did : option string) : bool :=
  match au_sender_did row, actor_did with
  | Some row_did, Some actor => String.eqb row_did actor
  | Some _, None => false
  | None, _ => eq_ignore_ascii_case (nick_of_mask (au_sender row)) actor_nick
  end.

Definition authorship (s : Chat) (root : string) : option MessageAuthorship := db s ≫= fun d => message_authorship d root.

Definition federated_delete_authorized (s : Chat) (roster_key root actor_nick : string) (actor_did : option string) (is_channel : bool)
    : bool :=
  match authorship s root with
  | None => true
  | Some row =>
      federated_actor_is_author row actor_nick actor_did
      || (is_channel
          && match channels (srv s) !! roster_key with
             | None => false
             | Some ch =>
                 match remote_member ch actor_nick with
                 | Some rm => rm_is_op rm || is_authority ch (rm_did rm)
                 | None => false
                 end || is_authority ch actor_did
             end)
  end.

Definition federated_edit_authorized (s : Chat) (channel_history_key : option string) (root actor_nick : string)
    (actor_did : option string) : bool :=
  match authorship s root with
  | Some row => negb (au_deleted row) && federated_actor_is_author row actor_nick actor_did
  | None =>
      match channel_history_key with
      | None => true
      | Some key =>
          match channels (srv s) !! key ≫= fun _ => List.find (is_entry root) (history_of s key) with
          | None => true
          | Some entry => eq_ignore_ascii_case (nick_of_mask (hm_from entry)) actor_nick
          end
      end
  end.

(** ** The signature as transmitted *)

Fixpoint relayed_lines (first : bool) (lines : list MultilineLine) : string :=
  match lines with
  | [] => ""
  | l :: r => (if negb first && negb (ml_concat l) then String LF "" else "") +:+ ml_body l +:+ relayed_lines false r
  end.
Definition relayed_signed_body (text : string) (lines : option (list MultilineLine)) : string :=
  match lines with Some lines => relayed_lines true lines | None => text end.

Definition non_empty (o : option string) : option string :=
  match o with Some s => if is_empty s then None else Some s | None => None end.

Definition verify_relayed_privmsg (s : Chat) (account : option string) (target : string) (msgid : option string) (text : string)
    (tags : Tags) (replaces : option string) (lines : option (list MultilineLine)) (sig : option string) : option ClientSigVerdict :=
  match sig with
  | None => None
  | Some sig =>
      match account with
      | None => Some (SigUnverifiable "relayed message names no sender DID")
      | Some did =>
          Some (verify_relayed_message s did target
                  (mkFields (relayed_signed_body text lines) (default "" msgid) (reply_reference tags) (non_empty replaces)) tags sig)
      end
  end.

Definition relayed_mutation_in (tags : Tags) : option (ChatSig.Mutation * option string * option string) :=
  match or_else (tags !! "+draft/delete") (tags !! "+delete") with
  | Some subject => Some (ChatSig.Delete, Some subject, None)
  | None =>
      match or_else (tags !! "+react") (tags !! "+draft/react") with
      | Some emoji => Some (ChatSig.React, reply_reference tags, Some emoji)
      | None =>
          match tags !! "+freeq.at/unreact" with
          | Some emoji => Some (ChatSig.Unreact, reply_reference tags, Some emoji)
          | None => None
          end
      end
  end.
Definition names_subject (tags : Tags) : bool :=
  match relayed_mutation_in tags with Some (_, Some _, _) => true | _ => false end.

Definition verify_relayed_mutation_tags (s : Chat) (account : option string) (target : string) (tags : Tags)
    : option ClientSigVerdict :=
  match relayed_mutation_in tags, tags !! "+freeq.at/sig" with
  | Some (kind, subject, emoji), Some sig =>
      match account, subject with
      | None, _ => Some (SigUnverifiable "relayed mutation names no actor DID")
      | Some _, None => Some (SigUnverifiable "relayed mutation names no subject")
      | Some did, Some subject =>
          Some (verify_relayed_mutation s did target kind (default "" (event_id_of tags)) subject emoji sig)
      end
  | _, _ => None
  end.

(** A key this server lacks is asked for. *)
Definition fetch_on_miss (origin : string) (verdict : option ClientSigVerdict) (account sig : option string) : list RelayEffect :=
  match account, sig with
  | Some did, Some sig => if bool_decide (verdict = Some (SigUnverifiable NO_KEY_ON_FILE)) then [FetchKey origin did sig] else []
  | _, _ => []
  end.

(** ** Waiting for a key *)

Definition may_be_held (m : S2sMessage) : bool :=
  match m with
  | S2sMessage.Privmsg _ _ _ _ _ _ _ replaces _ _ => is_some (non_empty replaces)
  | Tagmsg _ _ tags _ => names_subject tags
  | _ => false
  end.

Definition release_held_relays (r : Relays) (did kid : string) : Relays * list RelayEffect :=
  let '(items, q) := held_take_for_signer (held r) did kid in
  (set_held q r, if s2s_manager (srv (chat r)) then match items with [] => [] | _ => [Released items] end else []).

Definition hold_relay (r : Relays) (item : HeldRelay S2sEvent) : Relays * list RelayEffect :=
  let r := set_held (hold (held r) item).1 r in
  if is_some (db (chat r) ≫= fun d => get_signing_key_by_kid d (hr_signer item) (hr_kid item))
  then release_held_relays r (hr_signer item) (hr_kid item) else (r, []).

Definition expire_held_relays (r : Relays) (now : Z) : Relays := set_held (held_expire (held r) now).2 r.

(** The key id to wait for: only when the key is all that is missing. *)
Definition waits_for (verdict : option ClientSigVerdict) (sig : option string) (as_arrived : option S2sEvent) : option (string * S2sEvent) :=
  if bool_decide (verdict = Some (SigUnverifiable NO_KEY_ON_FILE)) then
    match sig, as_arrived with
    | Some sig, Some e => match SigTag.parse sig with Ok (kid, _) => Some (kid, e) | Err _ => None end
    | _, _ => None
    end
  else None.

Definition peer_display_name (names : gmap string string) (peer : string) : string := default (str_take 8 peer) (names !! peer).

(** How an event came: over which link, under which origin, when, and whether
    it waited. *)
Record Envelope := mkEnvelope {
  en_peer : string;
  en_origin : string;
  en_names : gmap string string;           (* peer_names *)
  en_released : option Arrival;
  en_event : S2sEvent
}.
Definition as_arrived (v : Envelope) : option S2sEvent :=
  if negb (is_some (en_released v)) && may_be_held (body (en_event v)) then Some (en_event v) else None.
Definition arrived_at (v : Envelope) (now : Now) : Z := match en_released v with Some a => ar_at a | None => secs now end.
Definition shown_origin (v : Envelope) : string :=
  match en_released v with
  | Some a => ar_origin_name a
  | None => sanitize_s2s_str (peer_display_name (en_names v) (en_origin v)) 64
  end.
Definition to_hold (v : Envelope) (now : Now) (actor kid : string) (e : S2sEvent) : HeldRelay S2sEvent :=
  mkHeld e (en_peer v) (en_origin v) (sanitize_s2s_str (peer_display_name (en_names v) (en_origin v)) 64) (arrived_at v now)
    actor kid (at_ms now) 0.

(** ** PRIVMSG *)

(** The message after the receive path has tidied it. *)
Record Tidied := mkTidied {
  t_from : string;
  t_target : string;
  t_text : string;
  t_account : option string;
  t_msgid : string;
  t_sig : option string;
  t_body : string;                  (* what is filed *)
  t_edit_of : option string;        (* our root *)
  t_tags : Tags;                    (* relay_tags *)
  t_verdict : option ClientSigVerdict
}.

Definition MAX_TEXT : nat := Z.to_nat MAX_BYTES.

Definition sanitized_verdict (verdict : option ClientSigVerdict) (altered : bool) : option ClientSigVerdict :=
  match verdict with
  | Some v => if altered then Some (SigUnverifiable "sanitized on receipt") else Some v
  | None => None
  end.

Definition stored_body (text : string) (lines : option (list MultilineLine)) : string :=
  match lines with
  | Some lines =>
      truncate MAX_TEXT (relayed_lines true (map (fun l => mkMLine (sanitize_s2s_str (ml_body l) MAX_TEXT) (ml_concat l)) lines))
  | None => text
  end.

Definition relay_tags (s : Chat) (relayed : Tags) : Tags :=
  let coordination := take 16 (List.filter (fun kv : string * string =>
        starts_with "+freeq.at/" kv.1 && negb (String.eqb kv.1 "+freeq.at/sig")) (hash_iter relayed)) in
  let t : Tags := fold_left (fun m kv => <[sanitize_s2s_str kv.1 64 := sanitize_s2s_str kv.2 4096]> m) coordination ∅ in
  match reply_reference relayed with
  | Some root => <["+reply" := root_msgid s (sanitize_s2s_str root 100)]> t
  | None => t
  end.

Definition edit_root (s : Chat) (replaces : option string) : option string :=
  root_msgid s <$> non_empty ((fun r => sanitize_s2s_str r 100) <$> replaces).

Definition tidy (s : Chat) (from target text : string) (msgid sig account replaces : option string) (tags : Tags)
    (lines : option (list MultilineLine)) (now : Now) : Tidied :=
  let clean_target := sanitize_s2s_str target 200 in
  let clean_text := sanitize_s2s_str text MAX_TEXT in
  let clean_account := (fun a => sanitize_s2s_str a 512) <$> account in
  let altered := negb (String.eqb clean_text text) || negb (String.eqb clean_target target)
                 || negb (bool_decide (clean_account = account)) in
  mkTidied (sanitize_s2s_str from 512) clean_target clean_text clean_account (default (minted now) msgid) sig
    (stored_body clean_text lines) (edit_root s replaces) (relay_tags s tags)
    (sanitized_verdict (verify_relayed_privmsg s account target msgid text tags replaces lines sig) altered).

(** An edit by an account, where there is a venue, takes that account's proof. *)
Definition edit_lacks_proof (s : Chat) (t : Tidied) : option string :=
  if is_some (t_edit_of t) && negb (bool_decide (t_verdict t = Some SigValid)) then
    actor ← t_account t; _ ← signing_venue (srv s) actor (t_target t); Some actor
  else None.

Definition filed_tags (t : Tidied) (origin_name : string) : Tags :=
  let tg := <["msgid" := t_msgid t]> (<["+freeq.at/origin" := origin_name]> (t_tags t)) in
  let tg := match t_sig t with Some sig => <["+freeq.at/sig" := sig]> tg | None => tg end in
  match t_account t with Some acct => <["account" := acct]> tg | None => tg end.

Definition relay_context (t : Tidied) (origin_name : string) : EventContext :=
  mkContext (match t_sig t with
             | None => Unsigned
             | Some _ => if bool_decide (t_verdict t = Some SigValid) then Valid else Unverifiable
             end) (Some origin_name) None.

(** [INSERT], of a message or of a revision; whether it was taken. *)
Definition file_relayed (s : Chat) (key : string) (t : Tidied) (origin_name : string) (at_ : Z) : Chat * bool :=
  match db s with
  | None => (s, true)
  | Some d =>
      let '(d', stored) :=
        match t_edit_of t with
        | Some root => insert_edit_with key (t_from t) (t_body t) at_ (filed_tags t origin_name) (t_msgid t) root (t_account t)
                         (relay_context t origin_name) d
        | None => insert_message_with key (t_from t) (t_body t) at_ (filed_tags t origin_name) (Some (t_msgid t)) (t_account t)
                    (relay_context t origin_name) d
        end in
      (set_db (Some d') s, stored)
  end.

Definition edit_overtaken (s : Chat) (v : Envelope) (t : Tidied) : bool :=
  is_some (en_released v)
  && match t_edit_of t, db s with Some root, Some d => later_revision_on_file d root (t_msgid t) | _, _ => false end.

(** +n and +m, for a sender on another server. *)
Definition relay_blocked (s : Chat) (ch : ChannelState) (t : Tidied) : bool :=
  let nick := nick_of_mask (t_from t) in
  (no_ext_msg ch
   && negb (has_remote_member ch nick
            || match get_session (nicks (srv s)) nick with Some sid => bool_decide (sid ∈ members ch) | None => false end))
  || (moderated ch
      && negb (match remote_member ch nick with Some rm => rm_is_op rm | None => false end || is_authority ch (t_account t))).

Definition orphan_edit (t : Tidied) (root : string) (at_ : Z) (tags : Tags) : HistoryMessage :=
  mkHistory (t_from t) (t_body t) at_ tags (Some root) true (Some (mkHistoryEdit (t_msgid t) at_ tags None)).

(** The original of an edit, when it is on file and no longer in memory. *)
Definition original_on_file (s : Chat) (key : string) (t : Tidied) : option MessageRow :=
  root ← t_edit_of t;
  if existsb (is_entry root) (if is_some (channels (srv s) !! key) then history_of s key else []) then None
  else
    row ← db s ≫= fun d => find_message_by_msgid d root;
    if eq_ignore_ascii_case (m_channel row) (t_target t) then Some row else None.

Definition same_author (t : Tidied) (h : HistoryMessage) : bool := String.eqb (nick_of_mask (hm_from h)) (nick_of_mask (t_from t)).
Definition relay_history (s : Chat) (key : string) (t : Tidied) (origin_name : string) (at_ : Z) : Chat :=
  let tags := filed_tags t origin_name in
  let original := original_on_file s key t in
  on_history key (fun l =>
    match t_edit_of t with
    | None => push_history (mkHistory (t_from t) (t_body t) at_ tags (Some (t_msgid t)) false None) l
    | Some root =>
        let edit_tags := edit_line_tags tags (t_msgid t) (t_account t) root in
        let apply := apply_edit (t_body t) (t_msgid t) at_ edit_tags in
        match List.find (is_entry root) l with
        | Some h => if same_author t h then edit_first (is_entry root) apply l else l
        | None =>
            push_history (match original with
                          | Some row => apply (history_from_row row)
                          | None => orphan_edit t root at_ edit_tags
                          end) l
        end
    end) s.

(** The line for one receiver. *)
Definition relayed_line (s : Chat) (t : Tidied) (origin_name sid : string) : string :=
  if negb (bool_decide (sid ∈ cap_message_tags (srv s))) then plain_line (t_from t) "PRIVMSG" (t_target t) (t_text t)
  else
    let tg := <["msgid" := t_msgid t]> (<["+freeq.at/origin" := origin_name]> (t_tags t)) in
    let tg := match t_edit_of t with Some root => <["+draft/edit" := root]> tg | None => tg end in
    let tg := match t_sig t with Some sig => <["+freeq.at/sig" := sig]> tg | None => tg end in
    let tg := match t_account t with
              | Some acct => if bool_decide (sid ∈ cap_account_tag s) then <["account" := acct]> tg else tg
              | None => tg
              end in
    tagged tg (t_from t) "PRIVMSG" (t_target t) (t_text t).
Definition relayed_batch (s : Chat) (t : Tidied) (origin_name : string) (lines : list MultilineLine) (now : Now) (sid : string)
    : list string :=
  let opener := <["+freeq.at/origin" := origin_name]> (t_tags t) in
  let opener := match t_sig t with Some sig => <["+freeq.at/sig" := sig]> opener | None => opener end in
  build_outbound_multiline_frames
    (mkRelay (t_from t) "PRIVMSG" (t_target t) (t_msgid t) (time_tag_of now) opener (batch_id_of now) (map local_line lines))
    (mkCaps (bool_decide (sid ∈ cap_message_tags (srv s))) (bool_decide (sid ∈ cap_server_time s))
       (bool_decide (sid ∈ cap_draft_multiline s)) (is_some (t_account t) && bool_decide (sid ∈ cap_account_tag s)) (t_account t)).

Definition relay_to_channel (s : Chat) (v : Envelope) (t : Tidied) (lines : option (list MultilineLine)) (now : Now)
    : Chat * list ChatEffect :=
  let key := to_lowercase (t_target t) in
  let name := shown_origin v in
  if match channels (srv s) !! key with Some ch => relay_blocked s ch t | None => false end then (s, [])
  else
    let overtaken := edit_overtaken s v t in
    let '(s, stored) := file_relayed s (t_target t) t name (arrived_at v now) in
    if negb stored || overtaken then (s, [])
    else
      let s := relay_history s key t name (arrived_at v now) in
      (s, flat_map (fun m => deliver s m match lines with
                                         | Some lines => relayed_batch s t name lines now m
                                         | None => [relayed_line s t name m]
                                         end) (channel_members s key)).

Definition dm_receivers (s : Chat) (t : Tidied) : list string :=
  merge_sessions (local_sessions_for_target (srv s) (t_target t))
    (sender_sessions_for_account (srv s) (if bool_decide (t_verdict t = Some SigValid) then t_account t else None)).

Definition relay_to_user (s : Chat) (v : Envelope) (t : Tidied) (stamped : option string) (now : Now) : Chat * list ChatEffect :=
  let recipient := reconcile_recipient_did ((fun d => sanitize_s2s_str d 512) <$> stamped)
                     (recipient_did_for_target (srv s) (t_target t)) in
  let overtaken := edit_overtaken s v t in
  let '(s, stored) :=
    match t_account t, recipient with
    | Some s_did, Some r_did => file_relayed s (ChatSig.dm_venue s_did r_did) t (shown_origin v) (arrived_at v now)
    | _, _ => (s, true)
    end in
  if negb stored || overtaken then (s, [])
  else (s, flat_map (fun m => deliver s m [relayed_line s t (shown_origin v) m]) (dm_receivers s t)).

Definition tell (r : Relays) (x : Chat * list ChatEffect) : Relays * list RelayEffect := (set_chat x.1 r, map Told x.2).

(** What is left of a message that is neither refused nor held. *)
Definition accept_privmsg (r : Relays) (v : Envelope) (t : Tidied) (recipient_did : option string)
    (lines : option (list MultilineLine)) (now : Now) : Relays * list RelayEffect :=
  let s := chat r in
  let is_channel := ChatSig.is_channel_name (t_target t) in
  let authorized := match t_edit_of t with
                    | Some root => federated_edit_authorized s (if is_channel then Some (to_lowercase (t_target t)) else None) root
                                     (nick_of_mask (t_from t)) (t_account t)
                    | None => true
                    end in
  if negb authorized then (r, [])
  else tell r (if is_channel then relay_to_channel s v t lines now else relay_to_user s v t recipient_did now).

Definition s2s_privmsg_in (r : Relays) (v : Envelope) (from target text : string)
    (msgid sig account recipient_did replaces : option string) (tags : Tags) (lines : option (list MultilineLine)) (now : Now)
    : Relays * list RelayEffect :=
  let s := chat r in
  let t := tidy s from target text msgid sig account replaces tags lines now in
  let fetch := fetch_on_miss (en_origin v) (t_verdict t) (t_account t) sig in
  let '(r, out) :=
    if bool_decide (t_verdict t = Some SigInvalid) then (r, [])
    else match edit_lacks_proof s t with
         | Some actor =>
             match waits_for (t_verdict t) sig (as_arrived v) with
             | Some (kid, e) => hold_relay r (to_hold v now actor kid e)
             | None => (r, [])
             end
         | None => accept_privmsg r v t recipient_did lines now
         end in
  (r, fetch ++ out).

(** ** TAGMSG *)

(** The draft names renamed, and the message acted on named by our root. *)
Definition tidy_relayed (s : Chat) (tags : Tags) : Tags :=
  let t := undraft "+draft/reply" "+reply" (undraft "+draft/react" "+react" tags) in
  match t !! "+reply" with
  | Some m => if is_some (t !! "+react") || is_some (t !! "+freeq.at/unreact") then <["+reply" := root_msgid s m]> t else t
  | None => t
  end.

Definition wire_subject (tags : Tags) : option string :=
  or_else (or_else (or_else (tags !! "+reply") (tags !! "+draft/reply")) (tags !! "+draft/delete")) (tags !! "+delete").

(** The record kept of an accepted mutation. *)
Definition relayed_event (s : Chat) (v : Envelope) (target : string) (account : option string) (arrived tidied : Tags)
    (verdict : option ClientSigVerdict) (now : Now) : MutationEvent :=
  let intact := match wire_subject arrived, tidied !! "+reply" with Some w, Some n => String.eqb w n | _, _ => true end in
  mkMutation (default (minted now) (event_id_of tidied)) account
    (match account with Some _ => if intact then sig_of tidied else None | None => None end)
    (account ≫= fun did => signing_venue (srv s) did target)
    (mkContext (if bool_decide (verdict = Some SigValid) then Valid else Unverifiable)
       (Some (sanitize_s2s_str (en_origin v) 64)) None)
    (arrived_at v now).

Definition relay_reactions (s : Chat) (v : Envelope) (nick target : string) (account : option string) (tags : Tags)
    (ev : MutationEvent) (now : Now) : Chat :=
  let s := match tags !! "+react", tags !! "+reply" with
           | Some emoji, Some m => on_db (store_reaction_by m target nick account emoji (arrived_at v now) (Some ev)) s
           | _, _ => s
           end in
  match tags !! "+freeq.at/unreact", tags !! "+reply" with
  | Some emoji, Some m => on_db (remove_reaction_by m nick account emoji target (Some ev)) s
  | _, _ => s
  end.

Definition delete_key (s : Chat) (target : string) (account : option string) : string :=
  if ChatSig.is_channel_name target then to_lowercase target
  else match account, recipient_did_for_target (srv s) target with
       | Some a, Some b => ChatSig.dm_venue a b
       | _, _ => target
       end.

(** [None]: refused. *)
Definition relay_delete (s : Chat) (nick target : string) (account : option string) (deleted : string) (ev : MutationEvent)
    (now : Now) : option Chat :=
  let root := root_msgid s deleted in
  let is_channel := ChatSig.is_channel_name target in
  let key := delete_key s target account in
  if federated_delete_authorized s key root nick account is_channel then
    let db_key := match authorship s root with Some a => au_channel a | None => key end in
    let ev := mkMutation (mu_event_id ev) (mu_actor_did ev) (if String.eqb root deleted then mu_signature ev else None)
                (mu_venue ev) (mu_ctx ev) (mu_timestamp ev) in
    let s := on_db (soft_delete_message_by db_key root (Some ev) (secs now)) s in
    Some (if is_channel then forget_entry s key root else s)
  else None.

Definition relayed_tagmsg_line (s : Chat) (from target : string) (tags : Tags) (account : option string) (sid : string) : list string :=
  let is_act := carries_act_tags tags in
  if bool_decide (sid ∈ cap_message_tags (srv s)) && (negb is_act || bool_decide (sid ∈ cap_act s)) then
    let t := match account with
             | Some did => if bool_decide (sid ∈ cap_account_tag s) then <["account" := did]> tags else tags
             | None => tags
             end in
    [server_display (mkMessage t (Some from) "TAGMSG" [target]) +:+ CRLF]
  else
    match tags !! "+react" with
    | Some emoji =>
        if is_act then []
        else [plain_line from "PRIVMSG" target (String "001" "" +:+ "ACTION reacted with " +:+ emoji +:+ String "001" "")]
    | None => []
    end.
Definition tagmsg_recipients (s : Chat) (target : string) (account : option string) (to_senders_own_sessions : bool) : list string :=
  if ChatSig.is_channel_name target then channel_members s (to_lowercase target)
  else merge_sessions (local_sessions_for_target (srv s) target)
         (sender_sessions_for_account (srv s) (if to_senders_own_sessions then account else None)).
Definition deliver_relayed_tagmsg (s : Chat) (from target : string) (tags : Tags) (account : option string)
    (to_senders_own_sessions : bool) : list ChatEffect :=
  flat_map (fun m => deliver s m (relayed_tagmsg_line s from target tags account m))
    (tagmsg_recipients s target account to_senders_own_sessions).

(** What is left of a mutation or other tags that are neither refused nor held. *)
Definition accept_tagmsg (s : Chat) (v : Envelope) (from target : string) (arrived : Tags) (account : option string)
    (verdict : option ClientSigVerdict) (is_task_event : bool) (now : Now) : Chat * list ChatEffect * bool :=
  let nick := nick_of_mask from in
  let tags := tidy_relayed s arrived in
  let ev := relayed_event s v target account arrived tags verdict now in
  let s := relay_reactions s v nick target account tags ev now in
  match match tags !! "+draft/delete" with
        | Some deleted => relay_delete s nick target account deleted ev now
        | None => Some s
        end with
  | None => (s, [], false)
  | Some s => (s, deliver_relayed_tagmsg s from target tags account (bool_decide (verdict = Some SigValid) || is_task_event), true)
  end.

(** A mutation that names its subject, by an account, where there is a venue,
    takes that account's proof. *)
Definition mutation_lacks_proof (s : Chat) (target : string) (tags : Tags) (account : option string)
    (verdict : option ClientSigVerdict) : option string :=
  if names_subject tags && negb (bool_decide (verdict = Some SigValid)) then
    actor ← account; _ ← signing_venue (srv s) actor target; Some actor
  else None.

Record Judgement := mkJudgement { j_deliver : bool; j_receipt : option Receipt; j_state : Relays; j_out : list RelayEffect }.
(** [judge_relayed_task_event]: message, origin and peer, and whether the peer
    declared that it carries task messages. *)
Variable judge_relayed : Relays -> string -> string -> Tags -> string -> string -> option string -> bool -> Judgement.

Definition s2s_tagmsg_in (mgr : S2sManager) (r : Relays) (v : Envelope) (from target : string) (tags : Tags) (account : option string)
    (now : Now) : Relays * list RelayEffect :=
  let from := sanitize_s2s_str from 512 in
  let target := sanitize_s2s_str target 200 in
  let account := (fun a => sanitize_s2s_str a 512) <$> account in
  let verdict := verify_relayed_mutation_tags (chat r) account target tags in
  let fetch := fetch_on_miss (en_origin v) verdict account (tags !! "+freeq.at/sig") in
  let is_task_event := carries_act_tags tags || is_some (tags !! "+freeq.at/event") in
  let j := if is_task_event
           then judge_relayed r from target tags (en_origin v) (en_peer v) account (peer_supports (declared_by mgr (en_peer v)) ACT)
           else mkJudgement true None r [] in
  if negb (j_deliver j) then (j_state j, fetch ++ j_out j)
  else
    let r := j_state j in
    match mutation_lacks_proof (chat r) target tags account verdict with
    | Some actor =>
        match if is_task_event then None else waits_for verdict (tags !! "+freeq.at/sig") (as_arrived v) with
        | Some (kid, e) => let '(r, out) := hold_relay r (to_hold v now actor kid e) in (r, fetch ++ j_out j ++ out)
        | None => (r, fetch ++ j_out j)
        end
    | None =>
        let '(s, out, delivered) := accept_tagmsg (chat r) v from target tags account verdict is_task_event now in
        (set_chat s r,
         fetch ++ j_out j ++ map Told out
         ++ (if delivered then
               match j_receipt j with Some rc => [Told (BroadcastReceipt rc target)] | None => [] end
               ++ (if is_task_event then match event_id_of tags with Some id => [ReleaseWaiting id] | None => [] end else [])
             else []))
    end.

(** ** From the link *)

(** [process_s2s_event] on the two kinds of message. *)
Definition process_chat_event (mgr : S2sManager) (peer_names : gmap string string) (r : Relays) (peer : string) (e : S2sEvent)
    (released : option Arrival) (now : Now) : S2sManager * Relays * list RelayEffect :=
  match S2sLink.gate mgr peer e (is_some released) (secs now) with
  | (None, mgr') => (mgr', r, [])
  | (Some org, mgr') =>
      let v := mkEnvelope peer org peer_names released e in
      let '(r', out) :=
        match body e with
        | S2sMessage.Privmsg from target text msgid sig account recipient replaces tags lines =>
            s2s_privmsg_in r v from target text msgid sig account recipient replaces tags lines now
        | Tagmsg from target tags account => s2s_tagmsg_in mgr' r v from target tags account now
        | _ => (r, [])
        end in
      (mgr', r', out)
  end.

(** The task [release_held_relays] spawns: what was held, in its order. *)
Fixpoint process_released (mgr : S2sManager) (peer_names : gmap string string) (r : Relays) (items : list (HeldRelay S2sEvent))
    (now : Now) : S2sManager * Relays * list RelayEffect :=
  match items with
  | [] => (mgr, r, [])
  | i :: rest =>
      let '(mgr, r, out) := process_chat_event mgr peer_names r (hr_peer i) (hr_message i)
                              (Some (mkArrival (hr_origin_name i) (hr_at i))) now in
      let '(mgr, r, out') := process_released mgr peer_names r rest now in
      (mgr, r, out ++ out')
  end.
End FederatedChat.
