(* ===== verification/MessagingSpec.v ===== *)
(** * What the message commands guarantee

    Theorems about the handlers of MessagingOps: no signature leaves the
    server that was not checked or made by it, an edit or a delete takes effect
    only for its author (or an operator) and with their proof, a channel
    message passes the channel's modes and reaches its members only, a direct
    message reaches the devices of its two ends only, floods are bounded. *)
From stdpp Require Import base gmap strings list pretty fin_maps.
From Stdlib Require Import ZArith Lia Ascii String Sorted.
From S2P Require Import Prelude Text Ulid IrcMessage Multiline NickMap RoomTables S2sMessage Channel Rooms S2sLink Primitives SignedDocs MessageStore Routing Messaging MessagingOps.
Open Scope string_scope.
Open Scope list_scope.
Open Scope Z_scope.

Section Spec.
Context {P : Primitives} {B64 : Base64} {J : JsonText} {KB : KeyBytes} {UD : UrlDecode} {IT : IsoTime} {CF : CaseFold} {HO : HashOrder}.

(** ** What a valid signature is *)

Lemma verdict_valid r : verdict_of r = SigValid <-> r = Ok tt.
Proof. destruct r as [[]|[]]; cbn; split; congruence. Qed.

(** A signature that was checked: a key on file for the identity, or registered
    by the session, made it over exactly these bytes. *)
Record proved (s : Chat) (did : string) (session : option string) (bytes sig_tag : string) : Prop := {
  pr_key : exists key sig, SigTag.parse sig_tag = Ok (SigTag.derive_kid key, sig)
    /\ verifying_key_for s did (SigTag.derive_kid key) session = Some key
    /\ ed25519_verify key bytes sig = true
}.

Lemma verify_client_valid s doc sig_tag did session :
  verify_client_signature s doc sig_tag did session = SigValid -> proved s did session (ChatSig.canonical doc) sig_tag.
Proof.
  unfold verify_client_signature. destruct (SigTag.parse sig_tag) as [[kid sig]|e] eqn:Ep; [|done].
  destruct (verifying_key_for s did kid session) as [key|] eqn:Ek; [|done]. rewrite verdict_valid.
  unfold ChatSig.verify, SigTag.verify_canonical. rewrite Ep. cbn [res_bind fst snd].
  destruct (String.eqb_spec (SigTag.derive_kid key) kid) as [<-|]; [|done]. cbn [negb].
  destruct (ed25519_verify key _ sig) eqn:V; [|done]. intros _. split. eauto.
Qed.

(** The signature a message may leave with. *)
Inductive backed (s : Chat) (sid did : string) (doc : ChatSig.ChatDoc) (client_sig : option string) (sig : string) : Prop :=
  | by_sender : client_sig = Some sig -> proved s did (Some sid) (ChatSig.canonical doc) sig -> backed s sid did doc client_sig sig
  | by_server : sig = ChatSig.sign doc (msg_signing_key s) -> backed s sid did doc client_sig sig.

Lemma resolve_signature_backed s c sid target fields tags client_sig sig :
  resolve_signature s c sid target fields tags client_sig = Attach (Some sig) ->
  exists did venue, c_authenticated_did c = Some did /\ signing_venue (srv s) did target = Some venue
    /\ backed s sid did (message_document did venue fields tags) client_sig sig.
Proof.
  unfold resolve_signature. destruct (c_authenticated_did c) as [did|]; [|done].
  destruct (signing_venue (srv s) did target) as [venue|] eqn:Ev.
  - intros H. exists did, venue. split; [done|]. split; [done|]. destruct client_sig as [sig_tag|].
    + destruct (verify_client_signature _ _ _ _ _) eqn:E; [|done|].
      * injection H as <-. left; [done|]. by apply verify_client_valid.
      * injection H as <-. by right.
    + injection H as <-. by right.
  - intros H. by destruct client_sig.
Qed.

Lemma set_signature_lookup sig tags :
  set_signature sig tags !! "+freeq.at/sig" = sig /\ set_signature sig tags !! "freeq.at/sig" = None.
Proof.
  unfold set_signature. destruct sig; split; simplify_map_eq; done.
Qed.

Lemma set_signature_other sig tags k :
  k <> "+freeq.at/sig" -> k <> "freeq.at/sig" -> set_signature sig tags !! k = tags !! k.
Proof. intros. unfold set_signature. destruct sig; by simplify_map_eq. Qed.

(** ** Effects *)

Lemma in_map_out e l : In (Out e) (map Out l) <-> In e l.
Proof. rewrite in_map_iff. split; [intros (x & [= ->] & H); done|eauto]. Qed.

Lemma in_deliver s m frames e : In e (deliver s m frames) -> exists f, e = Out (Line m f) /\ In f frames /\ m ∈ connections (srv s).
Proof.
  unfold deliver. case_bool_decide; [|done]. rewrite in_map_iff. intros (f & <- & Hf). eauto.
Qed.
Lemma in_echo s sid frames e : In e (echo s sid frames) -> exists f, e = Out (Line sid f) /\ In f frames.
Proof. unfold echo. case_bool_decide; [|done]. intros (f & -> & Hf & _)%in_deliver. eauto. Qed.

Lemma s2s_broadcast_in s m e : In e (s2s_broadcast s m) -> e = Peers m.
Proof. unfold s2s_broadcast. repeat dmatch; try done; by intros [<-|[]]. Qed.

(** What is queued for the other servers, of all a handler does. *)
Definition to_peers (out : list ChatEffect) (m : S2sMessage) : Prop := In (Out (Peers m)) out.
(** Who is sent a line. *)
Definition sent_to (out : list ChatEffect) (sid : string) : Prop := exists f, In (Out (Line sid f)) out.

Lemma to_peers_app a b m : to_peers (a ++ b) m <-> to_peers a m \/ to_peers b m.
Proof. apply in_app_iff. Qed.
Lemma sent_to_app a b sid : sent_to (a ++ b) sid <-> sent_to a sid \/ sent_to b sid.
Proof. unfold sent_to. setoid_rewrite in_app_iff. naive_solver. Qed.
Lemma to_peers_deliver {A} (s : Chat) (l : list A) (g : A -> list ChatEffect) m :
  (forall x e, In x l -> In e (g x) -> exists sid f, e = Out (Line sid f)) -> ~ to_peers (flat_map g l) m.
Proof. intros H Hin. apply in_flat_map in Hin as (x & Hx & He). destruct (H x _ Hx He) as (? & ? & ?). done. Qed.
Lemma deliver_is_line s m frames e : In e (deliver s m frames) -> exists sid f, e = Out (Line sid f).
Proof. intros (f & -> & _)%in_deliver. eauto. Qed.
Lemma echo_is_line s m frames e : In e (echo s m frames) -> exists sid f, e = Out (Line sid f).
Proof. intros (f & -> & _)%in_echo. eauto. Qed.
Lemma echo_no_peers s sid frames m : ~ to_peers (echo s sid frames) m.
Proof. intros (f & ? & _)%in_echo. done. Qed.
Lemma to_peers_broadcast s m m' : to_peers (map Out (s2s_broadcast s m)) m' -> m' = m.
Proof. unfold to_peers. rewrite in_map_out. intros H%s2s_broadcast_in. by injection H. Qed.

(** ** No signature is laundered *)

(** A message with this id, text and reference that left the server with [sig]. *)
Definition backed_message (s : Chat) (c : Connection) (sid target text : string) (tags : Tags) (mid : option string)
    (rep : option string) (sig : string) : Prop :=
  exists did venue fields, c_authenticated_did c = Some did /\ signing_venue (srv s) did target = Some venue
    /\ sf_body fields = text /\ mid = Some (sf_msgid fields) /\ sf_edit fields = rep /\ sf_reply fields = reply_reference tags
    /\ backed s sid did (message_document did venue fields tags) (tags !! "+freeq.at/sig") sig.

Lemma attach_backed s c sid target text msgid rep tags sig :
  resolve_signature s c sid target (mkFields text msgid (reply_reference tags) rep) tags (tags !! "+freeq.at/sig") = Attach (Some sig) ->
  backed_message s c sid target text tags (Some msgid) rep sig.
Proof.
  intros H. apply resolve_signature_backed in H as (did & venue & Hd & Hv & Hb).
  exists did, venue, (mkFields text msgid (reply_reference tags) rep). cbn. auto 10.
Qed.

Lemma settle_backed s c sid command target text tags now msgid full sig :
  settle_message s c sid command target text tags now = Ok (msgid, full) -> full !! "+freeq.at/sig" = Some sig ->
  backed_message s c sid target text tags (Some msgid) None sig.
Proof.
  unfold settle_message. destruct (resolve_event_msgid s c tags now) as [id|[]]; [|done].
  destruct (resolve_signature _ _ _ _ _ _ _) as [sg|] eqn:E; [|done]. intros [= <- <-].
  rewrite (proj1 (set_signature_lookup _ _)). intros ->. by apply attach_backed.
Qed.

Lemma stamp_reveal_sig s c command target text tags :
  stamp_reveal s c command target text tags !! "+freeq.at/sig" = tags !! "+freeq.at/sig".
Proof. unfold stamp_reveal. dmatch; [|done]. destruct (verify_commit_reveal _ _ _ _ _ _); by simplify_map_eq. Qed.

(** What the peers are told of a message built from these tags. *)
Definition relays (s : Chat) (c : Connection) (mid rep sig : option string) (m : S2sMessage) : Prop :=
  match m with
  | S2sMessage.Privmsg _ _ _ mid' sig' acct _ rep' _ _ =>
      mid' = mid /\ sig' = sig /\ acct = c_authenticated_did c /\ rep' = rep
  | _ => False
  end.
Lemma s2s_privmsg_relays s c target text msgid rep tags lines :
  relays s c (Some msgid) rep (tags !! "+freeq.at/sig") (s2s_privmsg s c target text msgid rep tags lines).
Proof. unfold s2s_privmsg. by destruct (encode_privmsg_text_for_s2s _ _). Qed.
Lemma relay_to_nick_relays s c from target text lines id m route out :
  relay_to_nick (srv s) from target text lines id = (route, out) -> ri_account id = c_authenticated_did c ->
  In (Peers m) out -> relays s c (ri_msgid id) (ri_replaces id) (ri_sig id) m.
Proof.
  unfold relay_to_nick. intros H Ha.
  destruct (if starts_with "did:" target then _ else _); [injection H as <- <-; done|].
  destruct (s2s_manager (srv s)); [|injection H as <- <-; done].
  destruct (encode_privmsg_text_for_s2s text (ri_tags id)) as [t tg]. injection H as <- <-. intros [[= <-]|[]]. done.
Qed.

Lemma fail_no_peers l m : (forall e, In e l -> exists sid code ps, e = Out (Reply sid code ps)) -> ~ to_peers l m.
Proof. intros H Hin. destruct (H _ Hin) as (? & ? & ? & ?). done. Qed.

(** Whether the sender is told, and nothing more. *)
Definition only_replies (sid : string) (l : list ChatEffect) : Prop := forall e, In e l -> exists code ps, e = Out (Reply sid code ps).
Lemma only_replies_nil sid : only_replies sid [].
Proof. by intros e []. Qed.
Lemma only_replies_one sid code ps : only_replies sid [Out (Reply sid code ps)].
Proof. intros e [<-|[]]. eauto. Qed.
Lemma only_replies_no_peers sid l m : only_replies sid l -> ~ to_peers l m.
Proof. intros H. apply fail_no_peers. intros e He. destruct (H e He) as (? & ? & ->). eauto. Qed.
Lemma only_replies_no_lines sid l sid' : only_replies sid l -> ~ sent_to l sid'.
Proof. intros H (f & Hin). destruct (H _ Hin) as (? & ? & ?). done. Qed.
#[local] Hint Resolve only_replies_nil only_replies_one : core.

Lemma settle_err_replies s c sid command target text tags now out :
  settle_message s c sid command target text tags now = Err out -> only_replies sid out.
Proof.
  unfold settle_message. destruct (resolve_event_msgid s c tags now) as [id|[]]; [|intros [= <-]; apply only_replies_one].
  destruct (resolve_signature _ _ _ _ _ _ _); [done|]. intros [= <-]. apply only_replies_one.
Qed.

(** What a signature depends on. *)
Record same_keys (s s' : Chat) : Prop := {
  sk_names : names (srv s') = names (srv s);
  sk_session : session_msg_keys s' = session_msg_keys s;
  sk_db : db s' = db s;
  sk_own : msg_signing_key s' = msg_signing_key s
}.
Lemma signing_venue_names s s' did target : names s' = names s -> signing_venue s' did target = signing_venue s did target.
Proof. intros E. unfold signing_venue, recipient_did_for_target. by rewrite E. Qed.
Lemma verifying_key_same s s' did kid session : same_keys s s' -> verifying_key_for s' did kid session = verifying_key_for s did kid session.
Proof. intros [_ E1 E2 _]. unfold verifying_key_for, stored_key. by rewrite E1, E2. Qed.
Lemma backed_message_same s s' c sid target text tags mid rep sig :
  same_keys s s' -> backed_message s' c sid target text tags mid rep sig -> backed_message s c sid target text tags mid rep sig.
Proof.
  intros Hs (did & venue & fields & Hd & Hv & H1 & H2 & H3 & H4 & Hb). exists did, venue, fields.
  rewrite (signing_venue_names (srv s) (srv s')) in Hv by apply Hs. do 6 (split; [done|]).
  destruct Hb as [Hc [(key & sg & Hp & Hk & He)]|Hb]; [left; [done|]|right].
  - split. exists key, sg. by rewrite (verifying_key_same s s') in Hk.
  - by rewrite <- (sk_own _ _ Hs).
Qed.
Lemma same_keys_bump s t n : same_keys s (set_srv (bump_activity (srv s) t n) s).
Proof. done. Qed.
Lemma same_keys_spend s key n : same_keys s (spend key n s).1.
Proof. done. Qed.

(** Every message for the peers is backed. *)
Definition peers_backed (s : Chat) (c : Connection) (sid target text : string) (tags : Tags) (out : list ChatEffect) : Prop :=
  forall m, to_peers out m -> exists mid rep sg, relays s c mid rep sg m
    /\ (forall sig, sg = Some sig -> backed_message s c sid target text tags mid rep sig).
Lemma peers_backed_replies s c sid target text tags out : only_replies sid out -> peers_backed s c sid target text tags out.
Proof. intros H m Hm. by apply (only_replies_no_peers _ _ _ H) in Hm. Qed.
Lemma peers_backed_same s s' c sid target text tags out :
  same_keys s s' -> peers_backed s' c sid target text tags out -> peers_backed s c sid target text tags out.
Proof.
  intros Hs H m Hm. destruct (H m Hm) as (mid & rep & sg & Hr & Hb). exists mid, rep, sg. split; [done|].
  intros sig E. eapply backed_message_same; eauto.
Qed.

Lemma channel_message_peers s c sid command target text tags lines now :
  peers_backed s c sid target text tags (channel_message s c sid command target text tags lines now).2.
Proof.
  unfold channel_message. destruct (channel_refusal s sid target text tags) as [reason|].
  { apply peers_backed_replies. cbn [snd]. destruct (String.eqb command "NOTICE"); auto. apply only_replies_one. }
  set (s1 := if _ && _ then _ else s). assert (same_keys s s1) as Hs by (subst s1; by destruct (_ && _)).
  apply (peers_backed_same s s1); [done|]. clearbody s1. clear Hs s.
  destruct (settle_message s1 c sid command target text tags now) as [[msgid full]|out] eqn:Es.
  2: { apply peers_backed_replies. by eapply settle_err_replies. }
  cbn [snd]. intros m [Hm|Hm]%to_peers_app.
  - exfalso. revert Hm. apply to_peers_deliver; [done|]. intros x e _. destruct (_ && _); [done|apply deliver_is_line].
  - destruct (String.eqb command "PRIVMSG"); [|done]. apply to_peers_broadcast in Hm as ->. eexists _, _, _.
    split; [apply s2s_privmsg_relays|]. intros sig. rewrite stamp_reveal_sig. intros ?. by eapply settle_backed.
Qed.

Lemma direct_message_peers s c sid command target text tags lines now :
  peers_backed s c sid target text tags (direct_message s c sid command target text tags lines now).2.
Proof.
  unfold direct_message. destruct (settle_message s c sid command target text tags now) as [[msgid full]|out] eqn:Es.
  2: { apply peers_backed_replies. by eapply settle_err_replies. }
  destruct (relay_to_nick _ _ _ _ _ _) as [route relayed] eqn:Er. cbn [snd].
  assert (forall sig, full !! "+freeq.at/sig" = Some sig -> backed_message s c sid target text tags (Some msgid) None sig) as Hb
    by (intros; by eapply settle_backed).
  destruct route as [session| |]; intros m Hm.
  - rewrite !to_peers_app in Hm. destruct Hm as [Hm|[Hm|[Hm|Hm]]].
    + apply to_peers_broadcast in Hm as ->. eexists _, _, _. split; [apply s2s_privmsg_relays|done].
    + exfalso. destruct (session_away s !! session); [|done]. revert Hm. apply (only_replies_no_peers sid), only_replies_one.
    + exfalso. revert Hm. apply to_peers_deliver; [done|]. intros x e _. apply deliver_is_line.
    + exfalso. revert Hm. apply to_peers_deliver; [done|]. intros x e _. destruct (String.eqb x sid); [apply echo_is_line|apply deliver_is_line].
  - apply to_peers_app in Hm as [Hm|Hm]; [|by apply echo_no_peers in Hm]. unfold to_peers in Hm. rewrite in_map_out in Hm.
    eexists _, _, _. split; [by eapply relay_to_nick_relays|done].
  - exfalso. revert Hm. apply (only_replies_no_peers sid), only_replies_one.
Qed.

Lemma edit_refusal_replies c sid target original out : edit_refusal c sid target original = Some out -> only_replies sid out.
Proof. unfold edit_refusal, fail_reply. repeat dmatch; intros [= <-]; auto; apply only_replies_one. Qed.
Lemma edit_unproved_replies s c sid target signed tags client_sig out :
  edit_unproved s c sid target signed tags client_sig = Some out -> only_replies sid out.
Proof.
  unfold edit_unproved, fail_reply. destruct (c_authenticated_did c) as [did|]; cbn; [|done].
  destruct (signing_venue _ _ _); cbn; [|done]. destruct (match client_sig with Some _ => _ | None => _ end); intros [= <-]; apply only_replies_one.
Qed.
Lemma refuse_task_replies s sid command subject out : refuse_if_task_event s sid command subject = Some out -> only_replies sid out.
Proof. unfold refuse_if_task_event, fail_reply. destruct (match db s with Some _ => _ | None => _ end); intros [= <-]; apply only_replies_one. Qed.

(** ** Edits *)

Lemma handle_edit_cases s c sid target new_text original_msgid tags inbound now :
  let root := root_msgid s original_msgid in
  let original := find_original_message s c target root in
  (exists out, handle_edit s c sid target new_text original_msgid tags inbound now = (s, out) /\ only_replies sid out)
  \/ exists edit_msgid sig,
       refuse_if_task_event s sid "EDIT" original_msgid = None
       /\ edit_refusal c sid target original = None
       /\ resolve_event_msgid s c tags now = Ok edit_msgid
       /\ edit_unproved s c sid target (mkFields new_text edit_msgid (reply_reference tags) (Some root)) tags
            (tags !! "+freeq.at/sig") = None
       /\ resolve_signature s c sid target (mkFields new_text edit_msgid (reply_reference tags) (Some root)) tags
            (tags !! "+freeq.at/sig") = Attach sig
       /\ handle_edit s c sid target new_text original_msgid tags inbound now =
          perform_edit s c sid target new_text root edit_msgid
            (set_signature sig (<["+draft/edit" := root]> (<["msgid" := edit_msgid]> (strip_event_id_tag tags)))) original inbound now.
Proof.
  cbv zeta. unfold handle_edit. destruct (refuse_if_task_event s sid "EDIT" original_msgid) as [out|] eqn:E1.
  { left. eauto using refuse_task_replies. }
  destruct (edit_refusal _ _ _ _) as [out|] eqn:E2; [left; eauto using edit_refusal_replies|].
  destruct (resolve_event_msgid s c tags now) as [id|[code desc]] eqn:E3; [|left; eexists; split; [done|apply only_replies_one]].
  destruct (edit_unproved _ _ _ _ _ _ _) as [out|] eqn:E4; [left; eauto using edit_unproved_replies|].
  destruct (resolve_signature _ _ _ _ _ _ _) as [sig|] eqn:E5; [|left; eexists; split; [done|apply only_replies_one]].
  right. eexists _, _. eauto 10.
Qed.

Lemma edit_out_peers s c sid target new_text msgid root tags lines frames m (chan : bool) :
  to_peers ((if chan then edit_channel_out else edit_dm_out) s c sid target new_text msgid root tags lines frames) m ->
  relays s c (Some msgid) (Some root) (tags !! "+freeq.at/sig") m.
Proof.
  destruct chan; [unfold edit_channel_out|unfold edit_dm_out].
  - intros [Hm|Hm]%to_peers_app.
    + exfalso. revert Hm. apply to_peers_deliver; [done|]. intros x e _. destruct (_ && _); [done|apply deliver_is_line].
    + apply to_peers_broadcast in Hm as ->. apply s2s_privmsg_relays.
  - destruct (relay_to_nick _ _ _ _ _ _) as [route relayed] eqn:Er. destruct route as [session| |].
    + intros Hm. exfalso. rewrite !to_peers_app in Hm. destruct Hm as [Hm|[Hm|Hm]].
      * revert Hm. apply to_peers_deliver; [done|]. intros x e _. apply deliver_is_line.
      * revert Hm. apply to_peers_deliver; [done|]. intros x e _. destruct (mem _ _); [done|apply deliver_is_line].
      * by apply echo_no_peers in Hm.
    + rewrite !to_peers_app. intros [Hm|[Hm|Hm]].
      * unfold to_peers in Hm. rewrite in_map_out in Hm. by eapply (relay_to_nick_relays s c _ _ _ _ _ _ _ _ Er).
      * exfalso. revert Hm. apply to_peers_deliver; [done|]. intros x e _. apply deliver_is_line.
      * by apply echo_no_peers in Hm.
    + intros Hm. exfalso. revert Hm. apply (only_replies_no_peers sid), only_replies_one.
Qed.

Lemma handle_edit_peers s c sid target new_text original_msgid tags inbound now :
  peers_backed s c sid target new_text tags (handle_edit s c sid target new_text original_msgid tags inbound now).2.
Proof.
  destruct (handle_edit_cases s c sid target new_text original_msgid tags inbound now)
    as [(out & -> & Ho)|(id & sig & _ & _ & _ & _ & Hr & ->)]; [by apply peers_backed_replies|].
  unfold perform_edit. cbn [snd]. intros m Hm. apply edit_out_peers in Hm. rewrite (proj1 (set_signature_lookup _ _)) in Hm.
  eexists _, _, _. split; [exact Hm|]. intros sg ->. by apply attach_backed.
Qed.

(** C21: a signature that leaves the server with a message or an edit is one the
    server stands behind. Whatever a client put in the tags, a relayed message
    that carries a signature is from a signed-in sender, is stamped with that
    sender's DID, and the signature is either the sender's own, made by a key on
    file for that identity over exactly this id, text, venue and reference, or
    the server's over the same document. *)
Theorem relayed_signature_is_backed (s : Chat) (c : Connection) (sid command target text : string) (tags : Tags)
    (lines : option (list BatchLine)) (now : Now) from to body mid sig acct rdid rep tg ml :
  to_peers (handle_privmsg_with_multiline s c sid command target text tags lines now).2
    (S2sMessage.Privmsg from to body mid (Some sig) acct rdid rep tg ml) ->
  acct = c_authenticated_did c /\ backed_message s c sid target text tags mid rep sig.
Proof.
  assert (peers_backed s c sid target text tags (handle_privmsg_with_multiline s c sid command target text tags lines now).2) as H.
  { unfold handle_privmsg_with_multiline. destruct (carries_act_tags tags); [apply peers_backed_replies, only_replies_one|].
    destruct (tags !! "+draft/edit"); [apply handle_edit_peers|]. destruct (spend sid (at_ms now) s) as [s1 over] eqn:Ep.
    assert (same_keys s s1) as Hs by (change s1 with (s1, over).1; rewrite <- Ep; apply same_keys_spend).
    destruct over; [apply peers_backed_replies; destruct (String.eqb command "NOTICE"); [apply only_replies_nil|apply only_replies_one]|].
    apply (peers_backed_same s s1); [done|]. destruct (ChatSig.is_channel_name target); [apply channel_message_peers|apply direct_message_peers]. }
  intros Hm. destruct (H _ Hm) as (mid' & rep' & sg & Hr & Hb). cbn in Hr. destruct Hr as (-> & <- & -> & ->).
  split; [done|]. by apply Hb.
Qed.

(** A command that changed something or told anybody but its sender. *)
Definition took_effect (s s' : Chat) (out : list ChatEffect) : Prop :=
  s' <> s \/ (exists x, sent_to out x) \/ (exists m, to_peers out m).
Lemma replies_no_effect s out sid : only_replies sid out -> ~ took_effect s s out.
Proof. intros H [Hs|[(x & Hx)|(m & Hm)]]; [done|by eapply only_replies_no_lines|by eapply only_replies_no_peers]. Qed.

Lemma task_event_none s sid command subject :
  refuse_if_task_event s sid command subject = None -> match db s with Some d => is_act_event d subject | None => false end = false.
Proof. unfold refuse_if_task_event. by destruct (match db s with Some _ => _ | None => _ end). Qed.

Lemma edit_unproved_none s c sid target signed tags client_sig did venue :
  edit_unproved s c sid target signed tags client_sig = None -> c_authenticated_did c = Some did ->
  signing_venue (srv s) did target = Some venue ->
  exists sig, client_sig = Some sig /\ proved s did (Some sid) (ChatSig.canonical (message_document did venue signed tags)) sig.
Proof.
  unfold edit_unproved. intros H Hd Hv. rewrite Hd in H. cbn in H. rewrite Hv in H. cbn in H. destruct client_sig as [sig|]; [|done].
  destruct (verify_client_signature _ _ _ _ _) eqn:E; [|done..]. eauto using verify_client_valid.
Qed.


(** ** Deletes *)

Lemma undraft_other draft canonical tags k : k <> draft -> k <> canonical -> undraft draft canonical tags !! k = tags !! k.
Proof.
  intros H1 H2. unfold undraft. destruct (tags !! draft); [|done]. destruct (delete draft tags !! canonical); by simplify_map_eq.
Qed.
Lemma tidy_delete s tags : tidy_tags s tags !! "+draft/delete" = root_msgid s <$> tags !! "+draft/delete".
Proof.
  unfold tidy_tags. set (t0 := undraft _ _ _).
  assert (t0 !! "+draft/delete" = tags !! "+draft/delete") as E0 by (unfold t0; by rewrite !undraft_other).
  set (t1 := match t0 !! "+reply" with Some _ => _ | None => _ end).
  assert (t1 !! "+draft/delete" = tags !! "+draft/delete") as E1.
  { unfold t1. destruct (t0 !! "+reply"); [|done]. destruct (_ || _); [by rewrite lookup_insert_ne|done]. }
  rewrite E1. clearbody t1. destruct (tags !! "+draft/delete") as [m|]; [by rewrite lookup_insert_eq|done].
Qed.
Lemma settle_tags_delete b v tags : settle_tags b v tags !! "+draft/delete" = tags !! "+draft/delete".
Proof.
  unfold settle_tags. destruct b; [|done]. destruct v as [v|]; [destruct (v_signature v)|]; by simplify_map_eq.
Qed.

Lemma delete_refusal_replies s c sid target original out : delete_refusal s c sid target original = Some out -> only_replies sid out.
Proof. unfold delete_refusal, fail_reply. repeat dmatch; intros [= <-]; auto using only_replies_nil, only_replies_one. Qed.
Lemma mutation_refusal_replies s c sid target b arrived out :
  mutation_refusal s c sid target b arrived = Some out -> only_replies sid out.
Proof. unfold mutation_refusal, fail_reply. repeat dmatch; intros [= <-]; auto using only_replies_one. Qed.

Lemma handle_delete_cases s c sid target msgid tags vouched ctx now :
  (exists out, handle_delete s c sid target msgid tags vouched ctx now = (s, out) /\ only_replies sid out)
  \/ (refuse_if_task_event s sid "DELETE" msgid = None
      /\ delete_refusal s c sid target (find_original_message s c target msgid) = None).
Proof.
  unfold handle_delete. destruct (refuse_if_task_event s sid "DELETE" msgid) as [out|] eqn:E1; [left; eauto using refuse_task_replies|].
  destruct (delete_refusal _ _ _ _ _) as [out|] eqn:E2; [left; eauto using delete_refusal_replies|]. by right.
Qed.

Lemma route_target_idem target : route_target (route_target target) = route_target target.
Proof.
  unfold route_target, normalize_channel. destruct (starts_with_char "#" target || starts_with_char "&" target) eqn:E; [|by rewrite E].
  rewrite to_lowercase_idem. by destruct (starts_with_char "#" (to_lowercase target) || starts_with_char "&" (to_lowercase target)).
Qed.

Section Tagmsg.
Variable judge_task : Chat -> Connection -> string -> string -> Tags -> Gate * Chat * list ChatEffect.

Lemma handle_tagmsg_delete s c sid target tags now m :
  carries_act_tags tags = false -> tags !! "+draft/delete" = Some m ->
  let target := route_target target in
  let arrived := mutation_signature s c sid target tags in
  (exists out, handle_tagmsg judge_task s c sid target tags now = (s, out) /\ only_replies sid out)
  \/ (mutation_refusal s c sid target true arrived = None
      /\ exists event_tags vouched, handle_tagmsg judge_task s c sid target tags now =
           handle_delete s c sid target (root_msgid s m) event_tags vouched verified_context now).
Proof.
  intros Ha Hm. cbv zeta. unfold handle_tagmsg. rewrite bool_decide_false by (intros ->; done).
  set (t := route_target target). assert (route_target t = t) as Ht by apply route_target_idem.
  rewrite Ht. unfold gate. rewrite Ha. cbn [negb].
  assert (is_some (mutation_in tags) = true) as Hmu by (unfold mutation_in; by rewrite Hm). rewrite Hmu.
  destruct (mutation_refusal s c sid t true _) as [out|] eqn:Er; [left; eauto using mutation_refusal_replies|].
  right. split; [done|]. rewrite settle_tags_delete, tidy_delete, Hm. cbn [fmap option_fmap option_map].
  match goal with |- context [handle_delete s c sid t _ ?et ?v _ _] => exists et, v end.
  by destruct (handle_delete _ _ _ _ _ _ _ _ _) as [s' out].
Qed.

Lemma mutation_refusal_none s c sid target tags did venue :
  mutation_refusal s c sid target true (mutation_signature s c sid target tags) = None ->
  c_authenticated_did c = Some did -> signing_venue (srv s) did target = Some venue ->
  exists kind subject emoji sig id, mutation_in tags = Some (kind, subject, emoji) /\ sig_of tags = Some sig
    /\ event_id_of tags = Some id
    /\ proved s did (Some sid) (ChatSig.canonical (ChatSig.opt_with ChatSig.with_emoji emoji
         (ChatSig.mutation kind did id venue subject))) sig.
Proof.
  intros H Hd Hv. unfold mutation_refusal, signed_venue_of in H. rewrite Hd in H. cbn in H. rewrite Hv in H. cbn in H.
  case_bool_decide; [done|]. case_bool_decide as Eo; [|done].
  unfold mutation_signature in Eo. destruct (sig_of tags) as [sig|]; [|done].
  destruct (mutation_in tags) as [[[kind subject] emoji]|]; [|done]. cbn in Eo. injection Eo as Eo.
  unfold verify_local_mutation in Eo. rewrite Hd in Eo. unfold verify_mutation in Eo. rewrite Hv in Eo.
  destruct (event_id_of tags) as [id|]; [|done]. cbn in Eo. destruct (is_empty id); [done|].
  exists kind, subject, emoji, sig, id. eauto 10 using verify_client_valid.
Qed.

End Tagmsg.

(** ** Channel messages *)

Lemma sent_to_broadcast s m x : ~ sent_to (map Out (s2s_broadcast s m)) x.
Proof. intros (f & H). apply in_map_out, s2s_broadcast_in in H. done. Qed.
Lemma sent_to_deliver (l : list string) (g : string -> list ChatEffect) x :
  (forall y e, In y l -> In e (g y) -> exists f, e = Out (Line y f)) -> sent_to (flat_map g l) x -> In x l.
Proof. intros H (f & Hin). apply in_flat_map in Hin as (y & Hy & He). destruct (H y _ Hy He) as (f' & [= -> ->]). done. Qed.
Lemma deliver_line s m frames e : In e (deliver s m frames) -> exists f, e = Out (Line m f).
Proof. intros (f & -> & _)%in_deliver. eauto. Qed.

Lemma channel_members_in s target x :
  In x (channel_members s target) <-> exists ch, channels (srv s) !! target = Some ch /\ x ∈ members ch.
Proof.
  unfold channel_members. destruct (channels (srv s) !! target) as [ch|]; [|naive_solver].
  unfold set_iter. rewrite <- list_elem_of_In, (fmap_Permutation fst _ _ (hash_iter_perm _)), list_elem_of_fmap. split.
  - intros ([y []] & -> & Hy). exists ch. split; [done|]. apply elem_of_map_to_list, lookup_gset_to_gmap_Some in Hy as [Hy _]. done.
  - intros (ch' & [= <-] & Hx). exists (x, tt). split; [done|]. apply elem_of_map_to_list. by apply lookup_gset_to_gmap_Some.
Qed.

(** What the modes of a channel ask of a message. *)
Record lets_through (s : Server) (sid : string) (ch : ChannelState) (tags : Tags) (text : string) : Prop := {
  lt_external : no_ext_msg ch = true -> sid ∈ members ch;
  lt_moderated : moderated ch = true -> did_authority s sid ch = true \/ sid ∈ ops ch \/ sid ∈ halfops ch \/ sid ∈ voiced ch;
  lt_encrypted : encrypted_only ch = true -> is_Some (tags !! "+encrypted") /\ has_ciphertext text = true
}.
Lemma modes_none s sid ch tags text :
  blocked_by_mode s sid ch = None -> blocked_by_encryption ch tags text = None -> lets_through s sid ch tags text.
Proof.
  unfold blocked_by_mode, blocked_by_encryption. intros H1 H2. split.
  - intros E. rewrite E in H1. cbn in H1. by case_bool_decide.
  - intros E. rewrite E in H1. destruct (no_ext_msg ch && _); [done|]. cbn in H1.
    destruct (did_authority s sid ch); [by left|]. cbn in H1. repeat case_bool_decide; auto. done.
  - intros E. rewrite E in H2. cbn in H2. destruct (tags !! "+encrypted"); cbn in H2; [|done].
    by destruct (has_ciphertext text).
Qed.

Lemma channel_message_spec s c sid command target text tags lines now s' out :
  channel_message s c sid command target text tags lines now = (s', out) ->
  (forall x, sent_to out x -> In x (channel_members s target))
  /\ ((exists x, sent_to out x) \/ (exists m, to_peers out m) \/ db s' <> db s \/ history s' <> history s ->
      channel_refusal s sid target text tags = None).
Proof.
  unfold channel_message. destruct (channel_refusal s sid target text tags) as [reason|].
  { intros [= <- <-]. assert (only_replies sid (if String.eqb command "NOTICE" then []
      else [reply sid ERR_CANNOTSENDTOCHAN [nick_or_star c; target; reason]])) as H
      by (destruct (String.eqb command "NOTICE"); [apply only_replies_nil|apply only_replies_one]). split.
    - intros x Hx. by apply (only_replies_no_lines _ _ _ H) in Hx.
    - intros [(x & Hx)|[(m & Hm)|[Hd|Hd]]]; [|..|done|done]; exfalso; [by eapply only_replies_no_lines|by eapply only_replies_no_peers]. }
  intros H. split; [|done]. set (s1 := if _ && _ then _ else s) in H.
  assert (channel_members s1 target = channel_members s target) as Em by (subst s1; by destruct (_ && _)). clearbody s1.
  destruct (settle_message s1 c sid command target text tags now) as [[msgid full]|o] eqn:Es.
  2: { injection H as <- <-. intros x Hx. apply settle_err_replies in Es. by apply (only_replies_no_lines _ _ _ Es) in Hx. }
  injection H as _ <-. intros x [Hx|Hx]%sent_to_app.
  - rewrite <- Em. revert Hx. set (s2 := if String.eqb command "PRIVMSG" then file_channel_message _ _ _ _ _ _ _ else s1).
    intros Hx. apply sent_to_deliver in Hx; [|intros y e _; destruct (_ && _); [done|apply deliver_line]].
    assert (channel_members s2 target = channel_members s1 target) as <-; [|done].
    subst s2. destruct (String.eqb command "PRIVMSG"); [|done].
    unfold file_channel_message, count_and_prune, on_history, on_db. repeat dmatch; done.
  - destruct (String.eqb command "PRIVMSG"); [|by destruct Hx as (? & [])]. by apply sent_to_broadcast in Hx.
Qed.

(** The command on a message that is neither a task message nor an edit. *)
Lemma plain_message_cases s c sid command target text tags lines now :
  carries_act_tags tags = false -> tags !! "+draft/edit" = None ->
  let s1 := (spend sid (at_ms now) s).1 in
  (exists out, handle_privmsg_with_multiline s c sid command target text tags lines now = (s1, out) /\ only_replies sid out)
  \/ handle_privmsg_with_multiline s c sid command target text tags lines now =
     (if ChatSig.is_channel_name target then channel_message else direct_message) s1 c sid command target text tags lines now.
Proof.
  intros Ha He. cbv zeta. unfold handle_privmsg_with_multiline. rewrite Ha, He. destruct (spend sid (at_ms now) s) as [s1 over]. cbn [fst].
  destruct over; [left; eexists; split; [done|]; destruct (String.eqb command "NOTICE"); [apply only_replies_nil|apply only_replies_one]|].
  right. by destruct (ChatSig.is_channel_name target).
Qed.


(** ** Direct messages *)

(** Each session listed under an identity is signed in as that identity. *)
Definition bound_ok (s : Server) : Prop :=
  forall did l x, did_sessions s !! did = Some l -> x ∈ l -> did_of_session s x = Some did.

Lemma set_iter_in (x : gset string) y : In y (set_iter x) <-> y ∈ x.
Proof.
  unfold set_iter. rewrite <- list_elem_of_In, (fmap_Permutation fst _ _ (hash_iter_perm _)), list_elem_of_fmap. split.
  - intros ([z []] & -> & Hz). apply elem_of_map_to_list, lookup_gset_to_gmap_Some in Hz as [Hz _]. done.
  - intros Hy. exists (y, tt). split; [done|]. apply elem_of_map_to_list. by apply lookup_gset_to_gmap_Some.
Qed.
Lemma sessions_bound_did s did l x : bound_ok s -> sessions_bound s did = Some l -> In x l -> did_of_session s x = Some did.
Proof.
  intros Hb. unfold sessions_bound. destruct (did_sessions s !! did) as [g|] eqn:E; [|done]. intros [= <-] Hx.
  apply set_iter_in in Hx. eauto.
Qed.

(** The sessions a direct message may reach: its sender's, and the recipient's. *)
Definition an_end (s : Chat) (sid : string) (c : Connection) (target x : string) : Prop :=
  x = sid \/ (exists did, did_of_session (srv s) x = Some did /\ (c_authenticated_did c = Some did \/ did_of_session (srv s) sid = Some did))
  \/ (if starts_with "did:" target then did_of_session (srv s) x = Some target
      else exists session, get_session (nicks (srv s)) target = Some session
             /\ (x = session \/ exists did, did_of_session (srv s) session = Some did /\ did_of_session (srv s) x = Some did)).

Lemma local_route s from target text lines id session out :
  relay_to_nick (srv s) from target text lines id = (Local session, out) ->
  if starts_with "did:" target then exists l, sessions_bound (srv s) target = Some l /\ In session l
  else get_session (nicks (srv s)) target = Some session.
Proof.
  unfold relay_to_nick. destruct (starts_with "did:" target).
  - destruct (sessions_bound (srv s) target) as [[|y l]|] eqn:E; cbn;
      [destruct (s2s_manager (srv s)); [destruct (encode_privmsg_text_for_s2s _ _)|]; done| |
       destruct (s2s_manager (srv s)); [destruct (encode_privmsg_text_for_s2s _ _)|]; done].
    intros [= <- _]. exists (y :: l). split; [done|by left].
  - destruct (get_session _ _); [by intros [= <- _]|].
    destruct (s2s_manager (srv s)); [destruct (encode_privmsg_text_for_s2s _ _)|]; done.
Qed.

Lemma devices_are_ends s c sid target from text lines id session out x :
  bound_ok (srv s) -> relay_to_nick (srv s) from target text lines id = (Local session, out) ->
  In x (devices_of s session) -> an_end s sid c target x.
Proof.
  intros Hb Hr%local_route Hx. right. right.
  assert (x = session \/ exists did, did_of_session (srv s) session = Some did /\ did_of_session (srv s) x = Some did) as Hd.
  { unfold devices_of in Hx. destruct (did_of_session (srv s) session) as [did|] eqn:Ed; [|by destruct Hx as [->|[]]; left].
    destruct (sessions_bound (srv s) did) as [l|] eqn:El; cbn in Hx; [|by destruct Hx as [->|[]]; left].
    right. exists did. split; [done|]. by eapply sessions_bound_did. }
  destruct (starts_with "did:" target); [|eauto].
  destruct Hr as (l & Hl & Hin). pose proof (sessions_bound_did _ _ _ _ Hb Hl Hin) as Hs.
  destruct Hd as [->|(did & Hd1 & Hd2)]; congruence.
Qed.

Lemma siblings_are_ends s c sid target x : bound_ok (srv s) -> In x (sender_sibling_sessions s sid) -> an_end s sid c target x.
Proof.
  intros Hb. unfold sender_sibling_sessions. destruct (did_of_session (srv s) sid) as [did|] eqn:Ed; [|done].
  rewrite filter_In. intros [Hx _]. right; left. exists did.
  destruct (sessions_bound (srv s) did) as [l|] eqn:El; [|done]. split; [by eapply sessions_bound_did|by right].
Qed.

Lemma sent_to_echo s sid frames x : sent_to (echo s sid frames) x -> x = sid.
Proof. intros (f & Hf). apply in_echo in Hf as (f' & [= -> _] & _). done. Qed.
Lemma an_end_srv s s' sid c target x : srv s' = srv s -> an_end s' sid c target x -> an_end s sid c target x.
Proof. unfold an_end. by intros ->. Qed.
Lemma sent_to_relayed s from target text lines id out x route :
  relay_to_nick (srv s) from target text lines id = (route, out) -> ~ sent_to (map Out out) x.
Proof.
  intros H (f & Hf). rewrite in_map_out in Hf. unfold relay_to_nick in H.
  destruct (if starts_with "did:" target then _ else _); [by injection H as _ <-|].
  destruct (s2s_manager (srv s)); [|by injection H as _ <-].
  destruct (encode_privmsg_text_for_s2s _ _). injection H as _ <-. by destruct Hf as [?|[]].
Qed.

Lemma direct_message_ends s c sid command target text tags lines now x :
  bound_ok (srv s) -> sent_to (direct_message s c sid command target text tags lines now).2 x -> an_end s sid c target x.
Proof.
  intros Hb. unfold direct_message. destruct (settle_message _ _ _ _ _ _ _ _) as [[msgid full]|o] eqn:Es.
  2: { intros Hx. apply settle_err_replies in Es. by apply (only_replies_no_lines _ _ _ Es) in Hx. }
  destruct (relay_to_nick _ _ _ _ _ _) as [route relayed] eqn:Er. cbn [snd]. destruct route as [session| |].
  - rewrite !sent_to_app. intros [Hx|[Hx|[Hx|Hx]]].
    + by apply sent_to_broadcast in Hx.
    + destruct (session_away s !! session); [|by destruct Hx]. by apply (only_replies_no_lines sid) in Hx; [|apply only_replies_one].
    + apply sent_to_deliver in Hx; [|intros y e _; apply deliver_line]. by eapply devices_are_ends.
    + apply sent_to_deliver in Hx.
      2: { intros y e _. destruct (String.eqb_spec y sid) as [->|]; [|apply deliver_line]. intros (f & -> & _)%in_echo. eauto. }
      destruct (c_authenticated_did c) as [did|] eqn:Ed; [|by destruct Hx as [->|[]]; left].
      destruct (sessions_bound (srv s) did) as [l|] eqn:El; cbn in Hx; [|by destruct Hx as [->|[]]; left].
      right; left. exists did. split; [by eapply sessions_bound_did|by left].
  - intros [Hx|Hx]%sent_to_app; [by apply (sent_to_relayed _ _ _ _ _ _ _ _ _ Er) in Hx|]. left. by eapply sent_to_echo.
  - intros Hx. by apply (only_replies_no_lines sid) in Hx; [|apply only_replies_one].
Qed.

Lemma edit_dm_ends s c sid target text msgid root tags lines frames x :
  bound_ok (srv s) -> sent_to (edit_dm_out s c sid target text msgid root tags lines frames) x -> an_end s sid c target x.
Proof.
  intros Hb. unfold edit_dm_out. destruct (relay_to_nick _ _ _ _ _ _) as [route relayed] eqn:Er.
  assert (forall g, (forall y e, In e (g y) -> exists f, e = Out (Line y f)) ->
            sent_to (flat_map g (sender_sibling_sessions s sid)) x -> an_end s sid c target x) as Hsib
    by (intros g Hg Hx; apply sent_to_deliver in Hx; [by apply siblings_are_ends|eauto]).
  destruct route as [session| |].
  - rewrite !sent_to_app. intros [Hx|[Hx|Hx]].
    + apply sent_to_deliver in Hx; [|intros y e _; apply deliver_line]. by eapply devices_are_ends.
    + revert Hx. apply Hsib. intros y e. destruct (mem _ _); [done|apply deliver_line].
    + left. by eapply sent_to_echo.
  - rewrite !sent_to_app. intros [Hx|[Hx|Hx]].
    + by apply (sent_to_relayed _ _ _ _ _ _ _ _ _ Er) in Hx.
    + revert Hx. apply Hsib. intros y e. apply deliver_line.
    + left. by eapply sent_to_echo.
  - intros Hx. by apply (only_replies_no_lines sid) in Hx; [|apply only_replies_one].
Qed.

Lemma perform_edit_dm_ends s c sid target text root id full original inbound now x :
  ChatSig.is_channel_name target = false -> bound_ok (srv s) ->
  sent_to (perform_edit s c sid target text root id full original inbound now).2 x -> an_end s sid c target x.
Proof.
  intros Hc Hb. unfold perform_edit. rewrite Hc. cbn [snd]. set (s1 := match original with Some _ => _ | None => s end).
  assert (srv s1 = srv s) as E by (subst s1; by destruct original). intros Hx.
  apply edit_dm_ends in Hx; [|by rewrite E]. by eapply an_end_srv.
Qed.


(** ** The flood limit *)

(** The times within two seconds up to [b], as the limiter counts them. *)
Definition in_window (b : Z) (l : list Z) : nat := List.length (List.filter (fun t => (b - 2000 <? t) && (t <=? b)) l).

Lemma in_window_app b l k : in_window b (l ++ k) = (in_window b l + in_window b k)%nat.
Proof. unfold in_window. by rewrite List.filter_app, List.length_app. Qed.
Lemma in_window_le b l : (in_window b l <= List.length l)%nat.
Proof. apply List.filter_length_le. Qed.
Lemma in_window_none b l : Forall (fun t => ~ (b - 2000 < t <= b)) l -> in_window b l = 0%nat.
Proof.
  unfold in_window. induction 1 as [|t l Ht _ IH]; [done|]. cbn.
  destruct (Z.ltb_spec (b - 2000) t), (Z.leb_spec t b); cbn; [lia|done..].
Qed.
(** Forgetting what is two seconds old changes no window that ends later. *)
Lemma in_window_recent b now l : now <= b -> Forall (fun t => t <= now) l -> in_window b (recent now l) = in_window b l.
Proof.
  intros Hb. induction 1 as [|t l Ht _ IH]; [done|]. revert IH. unfold in_window, recent. cbn.
  destruct (Z.ltb_spec (Z.max 0 (now - t)) 2000), (Z.ltb_spec (b - 2000) t), (Z.leb_spec t b); cbn;
    repeat (rewrite ?(proj2 (Z.ltb_lt _ _)), ?(proj2 (Z.leb_le _ _)) by lia); cbn; try lia.
  all: destruct (Z.ltb_spec (b - 2000) t); cbn; lia.
Qed.
Lemma in_window_recent_le b now l : (in_window b (recent now l) <= in_window b l)%nat.
Proof.
  unfold in_window, recent. induction l as [|t l IH]; [done|]. cbn.
  destruct (Z.max 0 (now - t) <? 2000); cbn; destruct (_ && _); cbn; lia.
Qed.
Lemma recent_in now l t : In t (recent now l) -> In t l.
Proof. unfold recent. by intros [? _]%filter_In. Qed.

(** A message as a session sends it. *)
Record Sent := mkSent { s_conn : Connection; s_command : string; s_target : string; s_text : string; s_tags : Tags;
                        s_lines : option (list BatchLine); s_now : Now }.
Definition is_plain (m : Sent) : Prop := carries_act_tags (s_tags m) = false /\ s_tags m !! "+draft/edit" = None.
Definition reaches (out : list ChatEffect) : bool :=
  existsb (fun e => match e with Out (Line _ _) | Out (Peers _) => true | _ => false end) out.
(** The times of the messages that reached anyone. *)
Fixpoint heard (sid : string) (ms : list Sent) (s : Chat) : list Z :=
  match ms with
  | [] => []
  | m :: r =>
      let '(s', out) := handle_privmsg_with_multiline s (s_conn m) sid (s_command m) (s_target m) (s_text m) (s_tags m) (s_lines m)
                          (s_now m) in
      if reaches out then at_ms (s_now m) :: heard sid r s' else heard sid r s'
  end.

Lemma replies_reach_nobody sid out : only_replies sid out -> reaches out = false.
Proof.
  intros H. destruct (reaches out) eqn:E; [|done]. unfold reaches in E. apply existsb_exists in E as (e & He & Hm).
  by destruct (H e He) as (? & ? & ->).
Qed.
Lemma channel_message_times s c sid command target text tags lines now :
  msg_timestamps (channel_message s c sid command target text tags lines now).1 = msg_timestamps s.
Proof.
  unfold channel_message. destruct (channel_refusal _ _ _ _ _); [done|]. set (s1 := if _ && _ then _ else s).
  assert (msg_timestamps s1 = msg_timestamps s) as <- by (subst s1; by destruct (_ && _)). clearbody s1.
  destruct (settle_message _ _ _ _ _ _ _ _) as [[? ?]|]; [|done]. cbn [fst]. destruct (String.eqb command "PRIVMSG"); [|done].
  unfold file_channel_message, count_and_prune, on_history, on_db. repeat dmatch; done.
Qed.
Lemma direct_message_times s c sid command target text tags lines now :
  msg_timestamps (direct_message s c sid command target text tags lines now).1 = msg_timestamps s.
Proof.
  unfold direct_message. destruct (settle_message _ _ _ _ _ _ _ _) as [[? ?]|]; [|done].
  destruct (relay_to_nick _ _ _ _ _ _). cbn [fst]. unfold file_direct_message, on_db. repeat dmatch; done.
Qed.

(** What a plain message leaves in the limiter, and that it was let through if heard. *)
Lemma plain_step sid m s s' out :
  is_plain m ->
  handle_privmsg_with_multiline s (s_conn m) sid (s_command m) (s_target m) (s_text m) (s_tags m) (s_lines m) (s_now m) = (s', out) ->
  let ts := recent (at_ms (s_now m)) (default [] (msg_timestamps s !! sid)) in
  (default [] (msg_timestamps s' !! sid) = ts /\ reaches out = false)
  \/ (default [] (msg_timestamps s' !! sid) = ts ++ [at_ms (s_now m)] /\ (List.length ts < 5)%nat).
Proof.
  intros [Ha He]. cbv zeta. unfold handle_privmsg_with_multiline. rewrite Ha, He. unfold spend.
  set (ts := recent _ _). destruct (Nat.leb_spec 5 (List.length ts)) as [Hl|Hl].
  - intros [= <- <-]. left. cbn [msg_timestamps set_timestamps]. rewrite lookup_insert_eq. split; [done|].
    apply (replies_reach_nobody sid). destruct (String.eqb _ "NOTICE"); [apply only_replies_nil|apply only_replies_one].
  - intros H. right. split; [|done]. set (s1 := set_timestamps _ s) in H.
    assert (msg_timestamps s' = msg_timestamps s1) as ->
      by (destruct (ChatSig.is_channel_name (s_target m));
          [pose proof (channel_message_times s1 (s_conn m) sid (s_command m) (s_target m) (s_text m) (s_tags m) (s_lines m) (s_now m)) as E
          |pose proof (direct_message_times s1 (s_conn m) sid (s_command m) (s_target m) (s_text m) (s_tags m) (s_lines m) (s_now m)) as E];
          by rewrite H in E).
    subst s1. cbn [msg_timestamps set_timestamps]. by rewrite lookup_insert_eq.
Qed.

Notation time_of m := (at_ms (s_now m)).
Lemma heard_in sid ms s t : In t (heard sid ms s) -> In t (map (fun m => time_of m) ms).
Proof.
  revert s. induction ms as [|m ms IH]; intros s; [done|]. cbn [heard map].
  destruct (handle_privmsg_with_multiline _ _ _ _ _ _ _ _ _) as [s' out]. destruct (reaches out).
  - intros [<-|H]; [by left|]. right. eauto.
  - intros H. right. eauto.
Qed.

Lemma heard_window sid ms s b :
  let stored := default [] (msg_timestamps s !! sid) in
  Forall is_plain ms -> StronglySorted Z.le (map (fun m => time_of m) ms) ->
  (forall t m, In t stored -> In m ms -> t <= time_of m) -> (forall b, in_window b stored <= 5)%nat ->
  (in_window b (stored ++ heard sid ms s) <= 5)%nat.
Proof.
  cbv zeta. intros Hp. revert s. induction Hp as [|m ms Hm _ IH]; intros s Hs Hle Hw; [by rewrite app_nil_r|].
  set (L := default [] (msg_timestamps s !! sid)) in *. cbn [map] in Hs. apply StronglySorted_inv in Hs as [Hs Hf].
  assert (Forall (fun t => t <= time_of m) L) as HL by (apply List.Forall_forall; intros t Ht; apply Hle; [done|by left]).
  destruct (Z.lt_ge_cases b (time_of m)) as [Hb|Hb].
  - rewrite in_window_app, (in_window_none b (heard _ _ _)), Nat.add_0_r; [done|].
    apply List.Forall_forall. intros t Ht%heard_in. rewrite List.Forall_forall in Hf. destruct Ht as [<-|Ht]; [|specialize (Hf _ Ht)]; lia.
  - rewrite in_window_app, <- (in_window_recent b _ L Hb HL), <- in_window_app. cbn [heard].
    destruct (handle_privmsg_with_multiline _ _ _ _ _ _ _ _ _) as [s' out] eqn:E.
    assert (forall t m', In t (recent (time_of m) L) -> In m' ms -> t <= time_of m') as Hle'
      by (intros t m' Ht Hm'; apply Hle; [by eapply recent_in|by right]).
    assert (forall b, in_window b (recent (time_of m) L) <= 5)%nat as Hw'
      by (intros b'; etrans; [apply in_window_recent_le|apply Hw]).
    specialize (IH s' Hs). apply (plain_step sid m s s' out Hm) in E. fold L in E. destruct E as [[Es Hr]|[Es Hl]]; rewrite Es in IH.
    + rewrite Hr. by apply IH.
    + assert (in_window b ((recent (time_of m) L ++ [time_of m]) ++ heard sid ms s') <= 5)%nat as H.
      { apply IH.
        - intros t m' [Ht|[<-|[]]]%in_app_iff Hm'; [by apply Hle'|]. rewrite List.Forall_forall in Hf. by apply Hf, in_map_iff; eauto.
        - intros b'. etrans; [apply in_window_le|]. rewrite List.length_app. cbn. lia. }
      rewrite <- app_assoc in H. destruct (reaches out); [done|]. revert H. rewrite !in_window_app. lia.
Qed.

(** However fast a session sends, of its messages at most five reach anyone
    within any two seconds: the times of the messages that were delivered to a
    connection or relayed to a peer never have more than five in a window of
    2000 milliseconds. *)
Theorem flood_bounded (sid : string) (ms : list Sent) (s : Chat) (b : Z) :
  Forall is_plain ms -> StronglySorted Z.le (map (fun m => time_of m) ms) -> msg_timestamps s !! sid = None ->
  (in_window b (heard sid ms s) <= 5)%nat.
Proof.
  intros Hp Hs Hn. pose proof (heard_window sid ms s b) as H. rewrite Hn in H. apply H; [done..| |]; cbn; [done|lia].
Qed.
End Spec.
