(* ===== verification/FederatedChatSpec.v ===== *)
(** * What holds of messages from other servers

    Theorems about the arms of FederatedChat: an edit or a mutation that a peer
    relays for an account changes nothing and is seen by nobody without that
    account's own signature of it, and only for the author (or, for a delete,
    an authority of the channel); the sender's own devices are reached only with
    such a signature; the log says [valid] only of what was checked; an event
    that waited for its key is treated as if the key had been there. *)
From stdpp Require Import base gmap strings list pretty fin_maps.
From Stdlib Require Import ZArith Lia Ascii String.
From S2P Require Import Prelude Text Ulid IrcMessage Multiline RelayQueue NickMap RoomTables S2sMessage Channel Rooms S2sLink Federation Primitives SignedDocs MessageStore Routing Messaging MessagingOps FederatedChat MessagingSpec.
Open Scope string_scope.
Open Scope list_scope.
Open Scope Z_scope.

Section Spec.
Context {P : Primitives} {B64 : Base64} {J : JsonText} {KB : KeyBytes} {IT : IsoTime} {CF : CaseFold} {HO : HashOrder}.

(** ** What a signature on a relayed event covers *)

Definition clean_account (account : option string) : option string := (fun a => sanitize_s2s_str a 512) <$> account.

(** The signer, the bytes and the signature, when all three are there. *)
Definition signed_event (s : Chat) (m : S2sMessage) : option (string * string * string) :=
  match m with
  | S2sMessage.Privmsg _ target text msgid sig account _ replaces tags lines =>
      did ← account; sg ← sig; venue ← signing_venue (srv s) did target;
      Some (did, ChatSig.canonical (message_document did venue
              (mkFields (relayed_signed_body text lines) (default "" msgid) (reply_reference tags) (non_empty replaces)) tags), sg)
  | Tagmsg _ target tags account =>
      match relayed_mutation_in tags with
      | Some (kind, Some subject, emoji) =>
          did ← clean_account account; sg ← tags !! "+freeq.at/sig"; venue ← signing_venue (srv s) did (sanitize_s2s_str target 200);
          Some (did, ChatSig.canonical (ChatSig.opt_with ChatSig.with_emoji emoji
                       (ChatSig.mutation kind did (default "" (event_id_of tags)) venue subject)), sg)
      | _ => None
      end
  | _ => None
  end.

(** A key on file for the account made the signature over the event as it was
    transmitted. *)
Definition relay_proved (s : Chat) (m : S2sMessage) : Prop :=
  exists did bytes sg, signed_event s m = Some (did, bytes, sg) /\ proved s did None bytes sg.

Lemma relayed_privmsg_valid s from target text msgid sig account rdid replaces tags lines :
  verify_relayed_privmsg s account target msgid text tags replaces lines sig = Some SigValid ->
  relay_proved s (S2sMessage.Privmsg from target text msgid sig account rdid replaces tags lines).
Proof.
  unfold verify_relayed_privmsg, verify_relayed_message. destruct sig as [sg|]; [|done]. destruct account as [did|]; [|done].
  intros [= H]. cbn [sf_msgid] in H. destruct (is_empty _); [done|].
  destruct (signing_venue (srv s) did target) as [venue|] eqn:Ev; [|done]. apply verify_client_valid in H.
  eexists _, _, _. split; [|exact H]. cbn. by rewrite Ev.
Qed.

Lemma relayed_mutation_valid s from target tags account :
  verify_relayed_mutation_tags s (clean_account account) (sanitize_s2s_str target 200) tags = Some SigValid ->
  relay_proved s (Tagmsg from target tags account).
Proof.
  unfold verify_relayed_mutation_tags. destruct (relayed_mutation_in tags) as [[[kind subject] emoji]|] eqn:Em; [|done].
  destruct (tags !! "+freeq.at/sig") as [sg|] eqn:Es; [|done]. destruct (clean_account account) as [did|] eqn:Ea; [|done].
  destruct subject as [subject|]; [|done]. intros [= H]. unfold verify_relayed_mutation, verify_mutation in H.
  destruct (is_empty _); [done|]. destruct (signing_venue _ _ _) as [venue|] eqn:Ev; [|done]. apply verify_client_valid in H.
  eexists _, _, _. split; [|exact H]. unfold signed_event. rewrite Em, Ea. cbn [mbind option_bind]. rewrite Es. cbn [mbind option_bind].
  by rewrite Ev.
Qed.

Lemma tidy_valid s from target text msgid sig account rdid replaces tags lines now :
  t_verdict (tidy s from target text msgid sig account replaces tags lines now) = Some SigValid ->
  relay_proved s (S2sMessage.Privmsg from target text msgid sig account rdid replaces tags lines).
Proof.
  unfold tidy. cbn [t_verdict]. unfold sanitized_verdict. intros H. apply relayed_privmsg_valid.
  destruct (verify_relayed_privmsg _ _ _ _ _ _ _ _ _); [|done]. by destruct (_ || _).
Qed.

(** ** Effects *)

(** Something was changed, or somebody was told. *)
Definition took_relay_effect (r r' : Relays) (out : list RelayEffect) : Prop := chat r' <> chat r \/ exists e, In (Told e) out.
Lemma no_relay_effect r r' out : chat r' = chat r -> (forall e, ~ In (Told e) out) -> ~ took_relay_effect r r' out.
Proof. intros E H [Hc|(e & He)]; [done|by apply (H e)]. Qed.

Definition silent (out : list RelayEffect) : Prop := forall e, ~ In (Told e) out.
Lemma silent_nil : silent [].
Proof. by intros e []. Qed.
Lemma silent_app a b : silent a -> silent b -> silent (a ++ b).
Proof. intros Ha Hb e [H|H]%in_app_iff; [by eapply Ha|by eapply Hb]. Qed.
Lemma silent_fetch origin verdict account sig : silent (fetch_on_miss origin verdict account sig).
Proof. unfold fetch_on_miss. intros e. destruct account, sig; try by intros []. case_bool_decide; [by intros [?|[]]|by intros []]. Qed.
Lemma release_silent r did kid : chat (release_held_relays r did kid).1 = chat r /\ silent (release_held_relays r did kid).2.
Proof.
  unfold release_held_relays. destruct (held_take_for_signer _ _ _) as [items q]. split; [done|]. cbn.
  destruct (s2s_manager _); [|apply silent_nil]. destruct items; [apply silent_nil|]. by intros e [?|[]].
Qed.
Lemma hold_silent r item : chat (hold_relay r item).1 = chat r /\ silent (hold_relay r item).2.
Proof. unfold hold_relay. destruct (is_some _); [apply (release_silent (set_held _ r))|]. split; [done|apply silent_nil]. Qed.
#[local] Hint Resolve silent_nil silent_app silent_fetch : core.

Lemma tell_told r x e : In (Told e) (tell r x).2 <-> In e x.2.
Proof. cbn. rewrite in_map_iff. split; [by intros (y & [= ->] & H)|eauto]. Qed.

Lemma took_without_fetch r r' origin verdict account sig out :
  took_relay_effect r r' (fetch_on_miss origin verdict account sig ++ out) -> took_relay_effect r r' out.
Proof. intros [H|(e & H)]; [by left|right]. apply in_app_iff in H as [H|H]; [by apply silent_fetch in H|eauto]. Qed.

(** PRIVMSG: either it is dropped or held and nobody hears of it, or it was
    accepted with proof where proof is asked for. *)
Lemma privmsg_cases r v from target text msgid sig account rdid replaces tags lines now r' out :
  let s := chat r in
  let t := tidy s from target text msgid sig account replaces tags lines now in
  s2s_privmsg_in r v from target text msgid sig account rdid replaces tags lines now = (r', out) ->
  (chat r' = chat r /\ silent out)
  \/ (t_verdict t <> Some SigInvalid /\ edit_lacks_proof s t = None
      /\ r' = (accept_privmsg r v t rdid lines now).1
      /\ out = fetch_on_miss (en_origin v) (t_verdict t) (t_account t) sig ++ (accept_privmsg r v t rdid lines now).2).
Proof.
  cbv zeta. unfold s2s_privmsg_in. set (t := tidy _ _ _ _ _ _ _ _ _ _ _). case_bool_decide as Hv.
  { intros [= <- <-]. left. auto. }
  destruct (edit_lacks_proof (chat r) t) as [actor|].
  - destruct (waits_for _ _ _) as [[kid e]|]; [|intros [= <- <-]; left; auto].
    destruct (hold_relay r _) as [r1 o1] eqn:E. intros [= <- <-]. left.
    pose proof (hold_silent r (to_hold v now actor kid e)) as [H1 H2]. rewrite E in H1, H2. auto.
  - destruct (accept_privmsg _ _ _ _ _ _) as [r1 o1] eqn:E. intros [= <- <-]. right. done.
Qed.

Lemma accept_refused r v t rdid lines now root :
  t_edit_of t = Some root ->
  took_relay_effect r (accept_privmsg r v t rdid lines now).1 (accept_privmsg r v t rdid lines now).2 ->
  match authorship (chat r) root with
  | Some row => au_deleted row = false /\ federated_actor_is_author row (nick_of_mask (t_from t)) (t_account t) = true
  | None => True
  end.
Proof.
  intros Hr. unfold accept_privmsg. rewrite Hr. destruct (federated_edit_authorized _ _ _ _ _) eqn:E; cbn [negb].
  - intros _. unfold federated_edit_authorized in E. destruct (authorship (chat r) root); [|done]. by destruct (au_deleted _).
  - intros H. by apply no_relay_effect in H; [|done|apply silent_nil].
Qed.

(** ** Changes to what was said *)

Definition is_task_message (m : S2sMessage) : bool :=
  match m with Tagmsg _ _ tags _ => carries_act_tags tags || is_some (tags !! "+freeq.at/event") | _ => false end.
(** An edit, or a mutation that names the message it acts on. *)
Definition is_change (m : S2sMessage) : bool :=
  match m with
  | S2sMessage.Privmsg _ _ _ _ _ _ _ replaces _ _ => is_some (non_empty ((fun r => sanitize_s2s_str r 100) <$> replaces))
  | Tagmsg _ _ tags _ => names_subject tags
  | _ => false
  end.
(** The account it names, and the venue that account would sign for. *)
Definition actor_venue (s : Chat) (m : S2sMessage) : option (string * string) :=
  match m with
  | S2sMessage.Privmsg _ target _ _ _ account _ _ _ _ | Tagmsg _ target _ account =>
      did ← clean_account account; venue ← signing_venue (srv s) did (sanitize_s2s_str target 200); Some (did, venue)
  | _ => None
  end.

Lemma change_has_root s replaces :
  is_some (non_empty ((fun r => sanitize_s2s_str r 100) <$> replaces)) = true -> is_some (edit_root s replaces) = true.
Proof. unfold edit_root. by destruct (non_empty _). Qed.

Lemma privmsg_needs_proof r v from target text msgid sig account rdid replaces tags lines now r' out :
  let m := S2sMessage.Privmsg from target text msgid sig account rdid replaces tags lines in
  s2s_privmsg_in r v from target text msgid sig account rdid replaces tags lines now = (r', out) ->
  is_change m = true -> is_Some (actor_venue (chat r) m) -> took_relay_effect r r' out -> relay_proved (chat r) m.
Proof.
  cbv zeta. intros H Hc [x Hv] He. destruct (privmsg_cases _ _ _ _ _ _ _ _ _ _ _ _ _ _ _ H) as [[H1 H2]|(_ & Hp & _)].
  { by apply no_relay_effect in He. }
  set (t := tidy _ _ _ _ _ _ _ _ _ _ _) in Hp. apply (tidy_valid _ _ _ _ _ _ _ _ _ _ _ now). fold t. unfold edit_lacks_proof in Hp.
  apply (change_has_root (chat r)) in Hc. change (edit_root (chat r) replaces) with (t_edit_of t) in Hc. rewrite Hc in Hp. cbn in Hp, Hv.
  case_bool_decide as Ev; [done|]. cbn in Hp. exfalso.
  fold (clean_account account) in Hp. destruct (clean_account account) as [did|]; cbn in Hv, Hp; [|done].
  by destruct (signing_venue _ _ _).
Qed.

(** ** What the log says of a relayed event *)

(** Every event that is new in the log and called valid was filed with that verdict. *)
Definition fresh_valid (st : SigState) (d d' : MsgDb) : Prop :=
  forall id e, events d !! id = None -> events d' !! id = Some e -> e_sig_state e = Valid -> st = Valid.
Lemma fresh_eq st d d' : events d' = events d -> fresh_valid st d d'.
Proof. intros E id e H1 H2. rewrite E, H1 in H2. done. Qed.
Lemma fresh_trans st d1 d2 d3 : log_grows d2 d3 -> fresh_valid st d1 d2 -> fresh_valid st d2 d3 -> fresh_valid st d1 d3.
Proof.
  intros Hg H1 H2 id e Hn He Hv. destruct (events d2 !! id) as [e2|] eqn:E; [|eauto].
  destruct (Hg id e2 E) as (e3 & He3 & Hs). apply (H1 id e2); [done..|]. destruct Hs as (_ & _ & Hs & _). congruence.
Qed.
Lemma insert_event_fresh rec d : fresh_valid (x_sig_state (r_ctx rec)) d (insert_event rec d).1.
Proof.
  intros id e. unfold insert_event.
  destruct (match r_shape rec with Document _ => _ | Bare _ => _ end) as [[c f]|]; [|cbn; congruence].
  destruct (events d !! f_event_id f) eqn:E; [cbn; congruence|]. cbn. intros Hn. rewrite lookup_insert_Some.
  intros [[<- <-]|[_ H]]; [|congruence]. cbn. by destruct (r_signature rec).
Qed.
Lemma file_message_fresh channel text tags msgid did replaces ts ctx d :
  fresh_valid (x_sig_state ctx) d (file_message_event channel text tags msgid did replaces ts ctx d).
Proof.
  unfold file_message_event. destruct msgid as [id|]; [|by apply fresh_eq].
  match goal with |- context [insert_event ?rec d] => pose proof (insert_event_fresh rec d) as H end.
  by destruct did.
Qed.
Lemma refuse_claim_fresh st channel text tags msgid did replaces d :
  fresh_valid st d (refuse_claim channel text tags msgid did replaces d).
Proof.
  unfold refuse_claim. destruct msgid as [id|]; [|by apply fresh_eq]. destruct (find_message_by_msgid d id); [|by apply fresh_eq].
  destruct (String.eqb _ _); [by apply fresh_eq|]. intros k e Hn He. cbn in He. apply lookup_alter_Some in He as [(-> & e0 & He & _)|[_ He]]; congruence.
Qed.
Lemma row_then_event_fresh row d d' channel text tags msgid did replaces ts ctx :
  insert_row row d = Some d' -> fresh_valid (x_sig_state ctx) d (file_message_event channel text tags msgid did replaces ts ctx d').
Proof.
  intros H. eapply fresh_trans; [apply file_message_event_log| |apply file_message_fresh].
  apply fresh_eq. unfold insert_row in H. destruct (match _ with Some _ => _ | None => _ end); [done|]. by injection H as <-.
Qed.
Lemma insert_message_fresh channel sender text ts tags msgid did ctx d :
  fresh_valid (x_sig_state ctx) d (insert_message_with channel sender text ts tags msgid did ctx d).1.
Proof.
  unfold insert_message_with. destruct (insert_row _ d) as [d'|] eqn:E; cbn [fst]; [by eapply row_then_event_fresh|apply refuse_claim_fresh].
Qed.
Lemma insert_edit_fresh channel sender text ts tags msgid replaces did ctx d :
  fresh_valid (x_sig_state ctx) d (insert_edit_with channel sender text ts tags msgid replaces did ctx d).1.
Proof.
  unfold insert_edit_with, file_edit. destruct (insert_row _ d) as [d'|] eqn:E; cbn [fst]; [by eapply row_then_event_fresh|apply refuse_claim_fresh].
Qed.
Lemma mutation_fresh kind channel subject emoji ev d :
  fresh_valid (x_sig_state (mu_ctx ev)) d (file_mutation_event kind channel subject emoji ev d).
Proof.
  unfold file_mutation_event. match goal with |- context [insert_event ?rec d] => pose proof (insert_event_fresh rec d) as H end.
  destruct (mu_actor_did ev); [|exact H]. by destruct (mu_signature ev).
Qed.

(** Over the database there may not be. *)
Definition fresh_in (st : SigState) (s s' : Chat) : Prop :=
  match db s, db s' with Some d, Some d' => fresh_valid st d d' /\ log_grows d d' | None, None => True | _, _ => False end.
Lemma fresh_in_refl st s s' : db s' = db s -> fresh_in st s s'.
Proof. intros E. unfold fresh_in. rewrite E. destruct (db s); [|done]. split; [by apply fresh_eq|apply log_grows_refl]. Qed.
Lemma fresh_in_trans st s1 s2 s3 : fresh_in st s1 s2 -> fresh_in st s2 s3 -> fresh_in st s1 s3.
Proof.
  unfold fresh_in. destruct (db s1), (db s2), (db s3); try done. intros [H1 H2] [H3 H4].
  split; [by eapply fresh_trans|by eapply log_grows_trans].
Qed.
Lemma fresh_in_on_db st f s : (forall d, fresh_valid st d (f d) /\ log_grows d (f d)) -> fresh_in st s (on_db f s).
Proof. intros H. unfold fresh_in, on_db, set_db. cbn. destruct (db s); cbn; [apply H|done]. Qed.

Lemma file_relayed_fresh s key t name at_ :
  fresh_in (x_sig_state (relay_context t name)) s (file_relayed s key t name at_).1.
Proof.
  unfold file_relayed. destruct (db s) as [d|] eqn:Ed; [|by apply fresh_in_refl].
  assert (forall o : MsgDb * bool, fresh_valid (x_sig_state (relay_context t name)) d o.1 -> log_grows d o.1 ->
            fresh_in (x_sig_state (relay_context t name)) s (let '(d', stored) := o in (set_db (Some d') s, stored)).1) as Hk.
  { intros [d' b] H1 H2. unfold fresh_in. rewrite Ed. cbn. done. }
  apply Hk; destruct (t_edit_of t) as [root|].
  - apply insert_edit_fresh.
  - apply insert_message_fresh.
  - apply (store_step_log (SEdit key (t_from t) (t_body t) at_ (filed_tags t name) (t_msgid t) root (t_account t) (relay_context t name)) d).
  - apply (store_step_log (SMessage key (t_from t) (t_body t) at_ (filed_tags t name) (Some (t_msgid t)) (t_account t) (relay_context t name)) d).
Qed.
Lemma relay_context_valid t name : x_sig_state (relay_context t name) = Valid -> t_verdict t = Some SigValid.
Proof. unfold relay_context. destruct (t_sig t); cbn; [|done]. by case_bool_decide. Qed.

Lemma relay_history_db s key t name at_ : db (relay_history s key t name at_) = db s.
Proof. unfold relay_history, on_history. by destruct (is_some _). Qed.

Lemma accept_privmsg_fresh r v t rdid lines now :
  fresh_in (x_sig_state (relay_context t (shown_origin v))) (chat r) (chat (accept_privmsg r v t rdid lines now).1).
Proof.
  unfold accept_privmsg. destruct (negb _); [by apply fresh_in_refl|]. cbn [tell fst chat set_chat].
  destruct (ChatSig.is_channel_name (t_target t)).
  - unfold relay_to_channel. destruct (match _ with Some _ => _ | None => _ end); [by apply fresh_in_refl|].
    pose proof (file_relayed_fresh (chat r) (t_target t) t (shown_origin v) (arrived_at v now)) as H.
    destruct (file_relayed _ _ _ _ _) as [s1 b]. cbn [fst] in *. destruct (_ || _); [done|]. cbn [fst].
    eapply fresh_in_trans; [exact H|]. apply fresh_in_refl, relay_history_db.
  - unfold relay_to_user. set (o := match t_account t with Some _ => _ | None => _ end).
    assert (fresh_in (x_sig_state (relay_context t (shown_origin v))) (chat r) o.1) as H.
    { subst o. destruct (t_account t); [|by apply fresh_in_refl].
      destruct (reconcile_recipient_did _ _); [apply file_relayed_fresh|by apply fresh_in_refl]. }
    destruct o as [s1 b]. cbn [fst] in *. by destruct (_ || _).
Qed.

Lemma log_grows_op d o : log_grows d (store_step d o).
Proof. apply store_step_log. Qed.

Lemma relay_reactions_fresh s v nick target account tags ev now :
  fresh_in (x_sig_state (mu_ctx ev)) s (relay_reactions s v nick target account tags ev now).
Proof.
  assert (forall s m emoji, fresh_in (x_sig_state (mu_ctx ev)) s
            (on_db (store_reaction_by m target nick account emoji (arrived_at v now) (Some ev)) s)) as Hr.
  { intros s0 m emoji. apply fresh_in_on_db. intros d.
    split; [|apply (log_grows_op d (SReact m target nick account emoji (arrived_at v now) (Some ev)))].
    unfold store_reaction_by. eapply fresh_trans; [|apply mutation_fresh|apply fresh_eq; by destruct (existsb _ _)].
    apply log_grows_eq. by destruct (existsb _ _). }
  assert (forall s m emoji, fresh_in (x_sig_state (mu_ctx ev)) s
            (on_db (remove_reaction_by m nick account emoji target (Some ev)) s)) as Hu.
  { intros s0 m emoji. apply fresh_in_on_db. intros d.
    split; [|apply (log_grows_op d (SUnreact m nick account emoji target (Some ev)))].
    unfold remove_reaction_by. eapply fresh_trans; [|apply mutation_fresh|by apply fresh_eq]. by apply log_grows_eq. }
  unfold relay_reactions. set (s1 := match tags !! "+react" with Some _ => _ | None => _ end).
  assert (fresh_in (x_sig_state (mu_ctx ev)) s s1) as H1.
  { subst s1. destruct (tags !! "+react"); [|by apply fresh_in_refl]. destruct (tags !! "+reply"); [apply Hr|by apply fresh_in_refl]. }
  destruct (tags !! "+freeq.at/unreact"); [|done]. destruct (tags !! "+reply"); [|done]. by eapply fresh_in_trans.
Qed.

Lemma forget_entry_db s target msgid : db (forget_entry s target msgid) = db s.
Proof. unfold forget_entry, on_history. by destruct (is_some _). Qed.

Lemma relay_delete_fresh s nick target account deleted ev now s' :
  relay_delete s nick target account deleted ev now = Some s' -> fresh_in (x_sig_state (mu_ctx ev)) s s'.
Proof.
  unfold relay_delete. destruct (federated_delete_authorized _ _ _ _ _ _); [|done]. intros [= <-].
  set (ev' := mkMutation _ _ _ _ _ _). set (key := match authorship _ _ with Some _ => _ | None => _ end). set (root := root_msgid s deleted).
  assert (fresh_in (x_sig_state (mu_ctx ev)) s (on_db (soft_delete_message_by key root (Some ev') (secs now)) s)) as H.
  { apply fresh_in_on_db. intros d. split; [|apply (log_grows_op d (SDelete key root (Some ev') (secs now)))].
    unfold soft_delete_message_by. eapply fresh_trans; [|apply (mutation_fresh ChatSig.Delete key root None ev')|apply fresh_eq, soft_delete_rows_events].
    apply log_grows_eq, soft_delete_rows_events. }
  destruct (ChatSig.is_channel_name target); [|exact H]. eapply fresh_in_trans; [exact H|]. apply fresh_in_refl, forget_entry_db.
Qed.

Lemma accept_tagmsg_fresh s v from target tags account verdict task now :
  fresh_in (if bool_decide (verdict = Some SigValid) then Valid else Unverifiable) s
    (accept_tagmsg s v from target tags account verdict task now).1.1.
Proof.
  unfold accept_tagmsg. set (ev := relayed_event _ _ _ _ _ _ _ _).
  change (if bool_decide (verdict = Some SigValid) then Valid else Unverifiable) with (x_sig_state (mu_ctx ev)).
  pose proof (relay_reactions_fresh s v (nick_of_mask from) target account (tidy_relayed s tags) ev now) as H.
  set (s1 := relay_reactions _ _ _ _ _ _ _ _) in *. clearbody s1. destruct (tidy_relayed s tags !! "+draft/delete") as [m|]; [|exact H].
  destruct (relay_delete s1 _ _ _ _ _ _) as [s2|] eqn:E; [|exact H]. apply relay_delete_fresh in E. by eapply fresh_in_trans.
Qed.

(** ** Who is told *)

Lemma merge_sessions_in l extra x : In x (merge_sessions l extra) -> In x l \/ In x extra.
Proof.
  unfold merge_sessions. revert l. induction extra as [|y extra IH]; intros l; cbn [fold_left]; [auto|].
  intros H. apply IH in H as [H|H]; [|cbn; auto]. destruct (existsb _ _); [auto|].
  apply in_app_iff in H as [H|[<-|[]]]; cbn; auto.
Qed.

(** The target of a message after the receive path has tidied it. *)
Definition clean_target (m : S2sMessage) : option (string * option string) :=
  match m with
  | S2sMessage.Privmsg _ target _ _ _ account _ _ _ _ | Tagmsg _ target _ account => Some (sanitize_s2s_str target 200, clean_account account)
  | _ => None
  end.
(** Members of the channel; or the sessions the name stands for, and the
    sender's own where the sender has proved the message. *)
Definition may_see (s : Chat) (m : S2sMessage) (sid : string) : Prop :=
  match clean_target m with
  | Some (target, account) =>
      if ChatSig.is_channel_name target
      then exists ch, channels (srv s) !! to_lowercase target = Some ch /\ sid ∈ members ch
      else In sid (local_sessions_for_target (srv s) target)
           \/ (relay_proved s m /\ In sid (sender_sessions_for_account (srv s) account))
  | None => False
  end.
Definition only_seen_by (seen : string -> Prop) (out : list ChatEffect) : Prop :=
  forall e, In e out -> exists sid f, e = Out (Line sid f) /\ seen sid.
Lemma seen_nil seen : only_seen_by seen [].
Proof. by intros e []. Qed.
Lemma seen_deliver (seen : string -> Prop) s (l : list string) frames :
  (forall x, In x l -> seen x) -> only_seen_by seen (flat_map (fun m => deliver s m (frames m)) l).
Proof. intros H e (m & Hm & (f & ->)%deliver_line)%in_flat_map. eauto. Qed.

Lemma srv_file_relayed s key t name at_ : srv (file_relayed s key t name at_).1 = srv s.
Proof.
  unfold file_relayed. destruct (db s); [|done].
  destruct (match t_edit_of t with Some _ => _ | None => _ end) as [d' b]. done.
Qed.
Lemma srv_relay_history s key t name at_ : srv (relay_history s key t name at_) = srv s.
Proof. unfold relay_history, on_history. by destruct (is_some _). Qed.
Lemma srv_relay_reactions s v nick target account tags ev now :
  srv (relay_reactions s v nick target account tags ev now) = srv s.
Proof. unfold relay_reactions. by repeat (match goal with |- context [match ?x with Some _ => _ | None => _ end] => destruct x end). Qed.

(** Taking a message out of a channel leaves who is in it, and who is who. *)
Lemma forget_entry_seen s key root :
  (forall k, channel_members (forget_entry s key root) k = channel_members s k)
  /\ (forall t, local_sessions_for_target (srv (forget_entry s key root)) t = local_sessions_for_target (srv s) t)
  /\ (forall a, sender_sessions_for_account (srv (forget_entry s key root)) a = sender_sessions_for_account (srv s) a).
Proof.
  unfold forget_entry, on_history. set (s1 := if is_some _ then _ else s). assert (srv s1 = srv s) as E by (subst s1; by destruct (is_some _)).
  clearbody s1. split; [|by rewrite E]. intros k. unfold channel_members. cbn. rewrite E.
  destruct (decide (k = key)) as [->|H]; [|by rewrite lookup_alter_ne]. rewrite lookup_alter. case_decide; [|done].
  by destruct (channels (srv s) !! key).
Qed.
Definition same_reach (s s' : Chat) : Prop :=
  (forall k, channel_members s' k = channel_members s k)
  /\ (forall t, local_sessions_for_target (srv s') t = local_sessions_for_target (srv s) t)
  /\ (forall a, sender_sessions_for_account (srv s') a = sender_sessions_for_account (srv s) a).
Lemma same_reach_srv s s' : srv s' = srv s -> same_reach s s'.
Proof. intros E. unfold same_reach, channel_members. by rewrite E. Qed.
Lemma relay_delete_reach s nick target account deleted ev now s' :
  relay_delete s nick target account deleted ev now = Some s' -> same_reach s s'.
Proof.
  unfold relay_delete. destruct (federated_delete_authorized _ _ _ _ _ _); [|done]. intros [= <-].
  destruct (ChatSig.is_channel_name target); [|by apply same_reach_srv].
  match goal with |- same_reach s (forget_entry (on_db ?f s) ?k ?m) => exact (forget_entry_seen (on_db f s) k m) end.
Qed.
Lemma same_reach_trans s1 s2 s3 : same_reach s1 s2 -> same_reach s2 s3 -> same_reach s1 s3.
Proof. intros (A1 & A2 & A3) (B1 & B2 & B3). split_and!; intros; congruence. Qed.

Lemma accept_privmsg_seen r v from target text msgid sig account rdid replaces tags lines now :
  let m := S2sMessage.Privmsg from target text msgid sig account rdid replaces tags lines in
  let t := tidy (chat r) from target text msgid sig account replaces tags lines now in
  forall e, In (Told e) (accept_privmsg r v t rdid lines now).2 -> exists sid f, e = Out (Line sid f) /\ may_see (chat r) m sid.
Proof.
  intros m t. cut (only_seen_by (may_see (chat r) m)
    (if ChatSig.is_channel_name (t_target t) then relay_to_channel (chat r) v t lines now else relay_to_user (chat r) v t rdid now).2).
  { intros H e. unfold accept_privmsg. destruct (negb _); [done|]. rewrite tell_told. apply H. }
  assert (may_see (chat r) m = fun sid => if ChatSig.is_channel_name (t_target t)
      then exists ch, channels (srv (chat r)) !! to_lowercase (t_target t) = Some ch /\ sid ∈ members ch
      else In sid (local_sessions_for_target (srv (chat r)) (t_target t))
           \/ (relay_proved (chat r) m /\ In sid (sender_sessions_for_account (srv (chat r)) (t_account t)))) as -> by done.
  destruct (ChatSig.is_channel_name (t_target t)) eqn:Ec.
  - unfold relay_to_channel. destruct (match _ with Some _ => _ | None => _ end); [apply seen_nil|].
    pose proof (srv_file_relayed (chat r) (t_target t) t (shown_origin v) (arrived_at v now)) as Hs.
    destruct (file_relayed _ _ _ _ _) as [s1 b]. cbn [fst] in Hs. destruct (_ || _); [apply seen_nil|]. cbn [snd].
    apply seen_deliver. intros x Hx%channel_members_in. by rewrite srv_relay_history, Hs in Hx.
  - unfold relay_to_user. set (o := match t_account t with Some _ => _ | None => _ end).
    assert (srv o.1 = srv (chat r)) as Hs.
    { subst o. destruct (t_account t); [|done]. destruct (reconcile_recipient_did _ _); [apply srv_file_relayed|done]. }
    destruct o as [s1 b]. cbn [fst] in Hs. destruct (_ || _); [apply seen_nil|]. cbn [snd].
    apply seen_deliver. unfold dm_receivers. rewrite Hs. intros x [Hx|Hx]%merge_sessions_in; [by left|].
    destruct (bool_decide_reflect (t_verdict t = Some SigValid)) as [Hv|]; [|done]. right. split; [by eapply tidy_valid|done].
Qed.

Lemma accept_tagmsg_seen s v from target tags account now :
  let m := Tagmsg from target tags account in
  let verdict := verify_relayed_mutation_tags s (clean_account account) (sanitize_s2s_str target 200) tags in
  only_seen_by (may_see s m)
    (accept_tagmsg s v (sanitize_s2s_str from 512) (sanitize_s2s_str target 200) tags (clean_account account) verdict false now).1.2.
Proof.
  intros m verdict. unfold accept_tagmsg. set (ev := relayed_event _ _ _ _ _ _ _ _). set (target' := sanitize_s2s_str target 200).
  match goal with |- context [relay_reactions ?a ?b ?c ?d ?e ?f ?g ?h] =>
    pose proof (same_reach_srv a (relay_reactions a b c d e f g h) (srv_relay_reactions a b c d e f g h)) as H1;
    set (s1 := relay_reactions a b c d e f g h) in *; clearbody s1 end.
  set (o := match tidy_relayed s tags !! "+draft/delete" with Some _ => _ | None => _ end).
  assert (match o with Some s2 => same_reach s s2 | None => True end) as Ho.
  { subst o. destruct (tidy_relayed s tags !! "+draft/delete"); [|done].
    destruct (relay_delete s1 _ _ _ _ _ _) as [s2|] eqn:E; [|done]. by eapply same_reach_trans, relay_delete_reach. }
  destruct o as [s2|]; [|apply seen_nil]. cbn [fst snd]. unfold deliver_relayed_tagmsg. apply seen_deliver. intros x Hx.
  destruct Ho as (R1 & R2 & R3). unfold tagmsg_recipients in Hx. unfold may_see. cbn [clean_target m]. fold target'.
  destruct (ChatSig.is_channel_name target'); [rewrite R1 in Hx; by apply channel_members_in in Hx|].
  rewrite R2, R3 in Hx. apply merge_sessions_in in Hx as [Hx|Hx]; [by left|]. rewrite orb_false_r in Hx.
  destruct (bool_decide_reflect (verdict = Some SigValid)) as [Hv|]; [|done]. right. split; [by apply relayed_mutation_valid|done].
Qed.

(** ** Who may change what was said *)

(** The row a relayed edit or delete acts on. *)
Definition subject_on_file (s : Chat) (m : S2sMessage) : option MessageAuthorship :=
  match m with
  | S2sMessage.Privmsg _ _ _ _ _ _ _ replaces _ _ => edit_root s replaces ≫= authorship s
  | Tagmsg _ _ tags _ => (tags !! "+draft/delete") ≫= fun d => authorship s (root_msgid s d)
  | _ => None
  end.
Definition sender_of (m : S2sMessage) : string :=
  match m with
  | S2sMessage.Privmsg from _ _ _ _ _ _ _ _ _ | Tagmsg from _ _ _ => nick_of_mask (sanitize_s2s_str from 512)
  | _ => ""
  end.
(** An authority of the channel, by account or as an op of the peer's roster. *)
Definition channel_authority (s : Chat) (target nick : string) (account : option string) : Prop :=
  exists ch, channels (srv s) !! to_lowercase target = Some ch
    /\ (is_authority ch account = true
        \/ exists rm, remote_member ch nick = Some rm /\ (rm_is_op rm = true \/ is_authority ch (rm_did rm) = true)).
(** The author of a message on file: the account it was filed under, and the
    nick only where there is none. *)
Definition wrote (row : MessageAuthorship) (nick : string) (account : option string) : Prop :=
  match au_sender_did row with
  | Some did => account = Some did
  | None => eq_ignore_ascii_case (nick_of_mask (au_sender row)) nick = true
  end.
Lemma is_author_wrote row nick account : federated_actor_is_author row nick account = true -> wrote row nick account.
Proof.
  unfold federated_actor_is_author, wrote. destruct (au_sender_did row), account; try done. by intros ->%String.eqb_eq.
Qed.
Definition may_change (s : Chat) (m : S2sMessage) (row : MessageAuthorship) : Prop :=
  match clean_target m, m with
  | Some (_, account), S2sMessage.Privmsg _ _ _ _ _ _ _ _ _ _ =>
      au_deleted row = false /\ wrote row (sender_of m) account
  | Some (target, account), Tagmsg _ _ _ _ =>
      wrote row (sender_of m) account
      \/ (ChatSig.is_channel_name target = true /\ channel_authority s target (sender_of m) account)
  | _, _ => False
  end.
(** The rows of the messages or the history changed, or somebody was told. *)
Definition changed_messages (r r' : Relays) (out : list RelayEffect) : Prop :=
  messages <$> db (chat r') <> messages <$> db (chat r) \/ history (chat r') <> history (chat r) \/ exists e, In (Told e) out.
Lemma changed_took r r' out : changed_messages r r' out -> took_relay_effect r r' out.
Proof. intros [H|[H|H]]; [left; congruence|left; congruence|by right]. Qed.

Lemma messages_authorship s s' : messages <$> db s' = messages <$> db s ->
  (forall m, root_msgid s' m = root_msgid s m) /\ (forall m, authorship s' m = authorship s m).
Proof.
  intros E. unfold root_msgid, authorship, message_authorship, root_of, row_of.
  destruct (db s') as [d'|], (db s) as [d|]; cbn in E; try done. injection E as E. cbn. by rewrite E.
Qed.
Lemma relay_reactions_keeps s v nick target account tags ev now :
  let s' := relay_reactions s v nick target account tags ev now in
  messages <$> db s' = messages <$> db s /\ history s' = history s /\ srv s' = srv s.
Proof.
  cbv zeta. split; [|split; [|apply srv_relay_reactions]].
  - unfold relay_reactions. set (s1 := match tags !! "+react" with Some _ => _ | None => _ end).
    assert (messages <$> db s1 = messages <$> db s) as <-.
    { subst s1. destruct (tags !! "+react"), (tags !! "+reply"); try done. unfold on_db, set_db. cbn. destruct (db s) as [d|]; [|done]. cbn. f_equal.
      unfold store_reaction_by. destruct (existsb _ _); cbn; apply file_mutation_event_messages. }
    destruct (tags !! "+freeq.at/unreact"), (tags !! "+reply"); try done. unfold on_db, set_db. cbn. destruct (db s1); [|done]. cbn. f_equal.
    unfold remove_reaction_by. cbn. apply file_mutation_event_messages.
  - unfold relay_reactions. by repeat (match goal with |- context [match ?x with Some _ => _ | None => _ end] => destruct x end).
Qed.

Lemma federated_delete_spec s target root nick account row :
  authorship s root = Some row ->
  federated_delete_authorized s (delete_key s target account) root nick account (ChatSig.is_channel_name target) = true ->
  wrote row nick account \/ (ChatSig.is_channel_name target = true /\ channel_authority s target nick account).
Proof.
  intros Hr. unfold federated_delete_authorized, delete_key. rewrite Hr.
  destruct (federated_actor_is_author _ _ _) eqn:Ea; [left; by apply is_author_wrote|].
  destruct (ChatSig.is_channel_name target); [|done]. cbn. unfold channel_authority. destruct (channels _ !! _) as [ch|]; [|done].
  intros H. right. split; [done|]. exists ch. split; [done|]. apply orb_true_iff in H as [H|H]; [|by left]. right.
  destruct (remote_member ch nick) as [rm|]; [|done]. apply orb_true_iff in H. eauto.
Qed.

Lemma tidy_relayed_delete s tags : tidy_relayed s tags !! "+draft/delete" = tags !! "+draft/delete".
Proof.
  unfold tidy_relayed, undraft. repeat (match goal with |- context [match ?x with Some _ => _ | None => _ end] => destruct x end);
    repeat destruct (is_some _ || is_some _); by simplify_map_eq.
Qed.

Lemma accept_tagmsg_authority r v from target tags account verdict now row :
  let acc := accept_tagmsg (chat r) v (sanitize_s2s_str from 512) (sanitize_s2s_str target 200) tags (clean_account account) verdict false now in
  let m := Tagmsg from target tags account in
  subject_on_file (chat r) m = Some row ->
  messages <$> db acc.1.1 <> messages <$> db (chat r) \/ history acc.1.1 <> history (chat r) \/ acc.1.2 <> [] ->
  may_change (chat r) m row.
Proof.
  cbv zeta. unfold accept_tagmsg. set (ev := relayed_event _ _ _ _ _ _ _ _). rewrite tidy_relayed_delete. cbn [subject_on_file].
  destruct (tags !! "+draft/delete") as [deleted|]; [|done]. cbn [mbind option_bind]. intros Hrow.
  match goal with |- context [relay_reactions ?a ?b ?c ?d ?e ?f ?g ?h] =>
    pose proof (relay_reactions_keeps a b c d e f g h) as (Hm & Hh & Hs);
    set (s1 := relay_reactions a b c d e f g h) in *; clearbody s1 end.
  destruct (messages_authorship _ _ Hm) as [R A]. destruct (relay_delete s1 _ _ _ _ _ _) as [s2|] eqn:E.
  - intros _. unfold relay_delete in E. rewrite R in E. destruct (federated_delete_authorized _ _ _ _ _ _) eqn:Ea; [|done].
    rewrite <- A in Hrow. apply (federated_delete_spec _ _ _ _ _ row Hrow) in Ea. unfold may_change. cbn [clean_target sender_of].
    unfold channel_authority in *. by rewrite Hs in Ea.
  - cbn [fst snd]. by intros [?|[?|?]].
Qed.

(** ** Waiting changes nothing *)

(** What the arms make of the signature on a message. *)
Definition relay_verdict (s : Chat) (m : S2sMessage) : option ClientSigVerdict :=
  match m with
  | S2sMessage.Privmsg _ target text msgid sig account _ replaces tags lines =>
      verify_relayed_privmsg s account target msgid text tags replaces lines sig
  | Tagmsg _ target tags account => verify_relayed_mutation_tags s (clean_account account) (sanitize_s2s_str target 200) tags
  | _ => None
  end.
(** The message names itself, so that nothing is minted for it; a multi-line
    body is sent with the time of sending. *)
Definition self_named (m : S2sMessage) : bool :=
  match m with
  | S2sMessage.Privmsg _ _ _ msgid _ _ _ _ _ lines => is_some msgid && negb (is_some lines)
  | Tagmsg _ _ tags _ => is_some (event_id_of tags)
  | _ => true
  end.
Definition is_delete (m : S2sMessage) : bool := match m with Tagmsg _ _ tags _ => is_some (tags !! "+draft/delete") | _ => false end.
(** A later revision of the message it edits is there already. *)
Definition overtaken (s : Chat) (m : S2sMessage) : bool :=
  match m with
  | S2sMessage.Privmsg _ _ _ msgid _ _ _ replaces _ _ =>
      match edit_root s replaces, db s, msgid with Some root, Some d, Some id => later_revision_on_file d root id | _, _, _ => false end
  | _ => false
  end.

Lemma waits_for_none verdict sig o : verdict <> Some (SigUnverifiable NO_KEY_ON_FILE) -> waits_for verdict sig o = None.
Proof. intros H. unfold waits_for. by case_bool_decide. Qed.
Lemma sanitized_not_missing verdict b : verdict <> Some (SigUnverifiable NO_KEY_ON_FILE) ->
  sanitized_verdict verdict b <> Some (SigUnverifiable NO_KEY_ON_FILE).
Proof. unfold sanitized_verdict. destruct verdict; [|done]. by destruct b. Qed.
Lemma tidy_named s from target text id sig account replaces tags lines now0 now1 :
  tidy s from target text (Some id) sig account replaces tags lines now0 = tidy s from target text (Some id) sig account replaces tags lines now1.
Proof. done. Qed.

Section Waiting.
Variables (peer org : string) (names names' : gmap string string) (e : S2sEvent) (now0 now1 : Now).
(** The event as it came, and as it is taken up again. *)
Definition on_arrival : Envelope := mkEnvelope peer org names None e.
Definition taken_up (i : HeldRelay S2sEvent) : Envelope :=
  mkEnvelope (hr_peer i) org names' (Some (mkArrival (hr_origin_name i) (hr_at i))) (hr_message i).
Variables (actor kid : string).
Notation v0 := on_arrival.
Notation v1 := (taken_up (to_hold on_arrival now0 actor kid e)).

Lemma waited_at : arrived_at v1 now1 = arrived_at v0 now0.
Proof. done. Qed.
Lemma waited_name : shown_origin v1 = shown_origin v0.
Proof. done. Qed.

Lemma accept_privmsg_waited r t rdid :
  edit_overtaken (chat r) v1 t = false -> accept_privmsg r v1 t rdid None now1 = accept_privmsg r v0 t rdid None now0.
Proof.
  intros Ho. unfold accept_privmsg, relay_to_channel, relay_to_user.
  rewrite Ho, waited_name, waited_at. by destruct (negb _).
Qed.
Lemma privmsg_waited r from target text id sig account rdid replaces tags :
  let m := S2sMessage.Privmsg from target text (Some id) sig account rdid replaces tags None in
  relay_verdict (chat r) m <> Some (SigUnverifiable NO_KEY_ON_FILE) -> overtaken (chat r) m = false ->
  s2s_privmsg_in r v1 from target text (Some id) sig account rdid replaces tags None now1
  = s2s_privmsg_in r v0 from target text (Some id) sig account rdid replaces tags None now0.
Proof.
  intros m Hv Ho. unfold s2s_privmsg_in. rewrite (tidy_named _ _ _ _ _ _ _ _ _ _ now1 now0). set (t := tidy _ _ _ _ _ _ _ _ _ _ _).
  assert (t_verdict t <> Some (SigUnverifiable NO_KEY_ON_FILE)) as Ht by by apply sanitized_not_missing.
  rewrite !waits_for_none by done. rewrite accept_privmsg_waited; [done|].
  unfold edit_overtaken. cbn [t_edit_of t_msgid tidy t default]. cbn in Ho. destruct (edit_root _ _); [|done]. by destruct (db _).
Qed.

Lemma tidy_relayed_id s tags : event_id_of (tidy_relayed s tags) = event_id_of tags.
Proof.
  unfold event_id_of. unfold tidy_relayed, undraft.
  repeat (match goal with |- context [match ?x with Some _ => _ | None => _ end] => is_var x || (match x with tags !! _ => idtac end); destruct x end);
    repeat (match goal with |- context [match ?x with Some _ => _ | None => _ end] => destruct x end);
    repeat destruct (is_some _ || is_some _); by simplify_map_eq.
Qed.
Lemma accept_tagmsg_waited s from target tags account verdict :
  is_some (event_id_of tags) = true -> is_some (tags !! "+draft/delete") = false \/ secs now0 = secs now1 ->
  accept_tagmsg s v1 from target tags account verdict false now1 = accept_tagmsg s v0 from target tags account verdict false now0.
Proof.
  intros Hi Hd. unfold accept_tagmsg.
  assert (relayed_event s v1 target account tags (tidy_relayed s tags) verdict now1
          = relayed_event s v0 target account tags (tidy_relayed s tags) verdict now0) as ->.
  { unfold relayed_event. rewrite waited_at, tidy_relayed_id. by destruct (event_id_of tags). }
  set (ev := relayed_event _ v0 _ _ _ _ _ _). unfold relay_reactions. rewrite waited_at, tidy_relayed_delete.
  destruct (tags !! "+draft/delete") as [deleted|]; [|done]. destruct Hd as [Hd|Hd]; [discriminate Hd|]. unfold relay_delete. by rewrite Hd.
Qed.
End Waiting.

Section Link.
Variable judge_relayed : Relays -> string -> string -> Tags -> string -> string -> option string -> bool -> Judgement.

(** TAGMSG that is no task event: dropped or held, or accepted with proof. *)
Lemma tagmsg_cases mgr r v from target tags account now r' out :
  let from' := sanitize_s2s_str from 512 in
  let target' := sanitize_s2s_str target 200 in
  let verdict := verify_relayed_mutation_tags (chat r) (clean_account account) target' tags in
  let acc := accept_tagmsg (chat r) v from' target' tags (clean_account account) verdict false now in
  is_task_message (Tagmsg from target tags account) = false ->
  s2s_tagmsg_in judge_relayed mgr r v from target tags account now = (r', out) ->
  (chat r' = chat r /\ silent out)
  \/ (mutation_lacks_proof (chat r) target' tags (clean_account account) verdict = None
      /\ r' = set_chat acc.1.1 r /\ forall e, In (Told e) out <-> In e acc.1.2).
Proof.
  cbv zeta. intros Ht. unfold s2s_tagmsg_in, is_task_message in *. rewrite Ht. cbn [j_deliver negb j_state j_out j_receipt].
  fold (clean_account account).
  set (verdict := verify_relayed_mutation_tags _ _ _ _). destruct (mutation_lacks_proof _ _ _ _ _) as [actor|].
  - destruct (waits_for _ _ _) as [[kid e]|]; [|intros [= <- <-]; left; auto using silent_app, silent_fetch, silent_nil].
    destruct (hold_relay r _) as [r1 o1] eqn:E. intros [= <- <-]. left.
    pose proof (hold_silent r (to_hold v now actor kid e)) as [H1 H2]. rewrite E in H1, H2. split; [done|].
    apply silent_app; [apply silent_fetch|done].
  - destruct (accept_tagmsg _ _ _ _ _ _ _ _ _) as [[s1 o1] d]. intros [= <- <-]. right. split; [done|]. split; [done|].
    intros e. rewrite !in_app_iff. cbn [fst snd]. rewrite in_map_iff. split.
    + intros [H|[(y & [= ->] & H)|H]]; [by apply silent_fetch in H|done|by destruct d].
    + intros H. right. left. eauto.
Qed.

Lemma tagmsg_needs_proof mgr r v from target tags account now r' out :
  let m := Tagmsg from target tags account in
  is_task_message m = false -> s2s_tagmsg_in judge_relayed mgr r v from target tags account now = (r', out) ->
  is_change m = true -> is_Some (actor_venue (chat r) m) -> took_relay_effect r r' out -> relay_proved (chat r) m.
Proof.
  cbv zeta. intros Ht H Hc [x Hv] He. destruct (tagmsg_cases _ _ _ _ _ _ _ _ _ _ Ht H) as [[H1 H2]|(Hp & _)].
  { by apply no_relay_effect in He. }
  apply relayed_mutation_valid. unfold mutation_lacks_proof in Hp. cbn in Hc. rewrite Hc in Hp. cbn in Hv.
  case_bool_decide as Ev; [done|]. cbn in Hp. exfalso.
  destruct (clean_account account) as [did|]; cbn in Hv, Hp; [|done]. by destruct (signing_venue _ _ _).
Qed.

Lemma process_cases mgr names r peer e released now mgr' r' out :
  process_chat_event judge_relayed mgr names r peer e released now = (mgr', r', out) ->
  (r' = r /\ out = [])
  \/ exists org mgr1, let v := mkEnvelope peer org names released e in
       match body e with
       | S2sMessage.Privmsg from target text msgid sig account recipient replaces tags lines =>
           s2s_privmsg_in r v from target text msgid sig account recipient replaces tags lines now = (r', out)
       | Tagmsg from target tags account => s2s_tagmsg_in judge_relayed mgr1 r v from target tags account now = (r', out)
       | _ => False
       end.
Proof.
  unfold process_chat_event. destruct (S2sLink.gate _ _ _ _ _) as [[org|] mgr1]; [|intros [= <- <- <-]; by left].
  destruct (body e); try (intros [= <- <- <-]; by left).
  - destruct (s2s_privmsg_in _ _ _ _ _ _ _ _ _ _ _ _ _) as [r1 o1] eqn:E. intros [= <- <- <-]. right. by exists org, mgr1.
  - destruct (s2s_tagmsg_in _ _ _ _ _ _ _ _ _) as [r1 o1] eqn:E. intros [= <- <- <-]. right. by exists org, mgr1.
Qed.

(** C25: only the author changes a message from afar. A relayed edit of a message
    on file has an effect only when that message is not deleted and the sender
    is its author; a relayed delete, only for its author or, in a channel, for
    one of its authorities. *)
Theorem relayed_change_authority (mgr : S2sManager) (names : gmap string string) (r : Relays) (peer : string) (e : S2sEvent)
    (released : option Arrival) (now : Now) (mgr' : S2sManager) (r' : Relays) (out : list RelayEffect) (row : MessageAuthorship) :
  process_chat_event judge_relayed mgr names r peer e released now = (mgr', r', out) ->
  subject_on_file (chat r) (body e) = Some row -> is_task_message (body e) = false ->
  changed_messages r r' out -> may_change (chat r) (body e) row.
Proof.
  intros H Hrow Ht Hc. pose proof (changed_took _ _ _ Hc) as He. apply process_cases in H as [[-> ->]|(org & mgr1 & H)].
  { by apply no_relay_effect in He; [|done|apply silent_nil]. }
  cbv zeta in H. destruct (body e) eqn:Eb; try done.
  - cbn in Hrow. destruct (edit_root (chat r) _) as [root|] eqn:Er; [|done]. cbn in Hrow.
    destruct (privmsg_cases _ _ _ _ _ _ _ _ _ _ _ _ _ _ _ H) as [[H1 H2]|(_ & _ & -> & ->)]; [by apply no_relay_effect in He|].
    apply took_without_fetch, (accept_refused _ _ (tidy _ _ _ _ _ _ _ _ _ _ _) _ _ _ root Er) in He. rewrite Hrow in He.
    destruct He as [Hd Hw]. split; [exact Hd|]. by apply is_author_wrote.
  - destruct (tagmsg_cases _ _ _ _ _ _ _ _ _ _ Ht H) as [[H1 H2]|(_ & -> & Ho)]; [by apply no_relay_effect in He|].
    eapply accept_tagmsg_authority; [done|]. destruct Hc as [Hc|[Hc|(x & Hx)]]; [left; exact Hc|right; left; exact Hc|].
    right. right. apply Ho in Hx. by destruct (accept_tagmsg _ _ _ _ _ _ _ _ _).1.2.
Qed.

(** A relayed message is delivered to the right sessions only. What a peer
    sends to a channel is shown to members of that channel; what it sends to a
    person, to the sessions of the name or account it is sent to, and to the
    sender's own sessions on this server only when the sender's key signed it. *)
Theorem relayed_reaches_only (mgr : S2sManager) (names : gmap string string) (r : Relays) (peer : string) (e : S2sEvent)
    (released : option Arrival) (now : Now) (mgr' : S2sManager) (r' : Relays) (out : list RelayEffect) (x : ChatEffect) :
  process_chat_event judge_relayed mgr names r peer e released now = (mgr', r', out) ->
  is_task_message (body e) = false -> In (Told x) out ->
  exists sid line, x = Out (Line sid line) /\ may_see (chat r) (body e) sid.
Proof.
  intros H Ht Hx. apply process_cases in H as [[-> ->]|(org & mgr1 & H)]; [done|]. cbv zeta in H. destruct (body e) eqn:Eb; try done.
  - destruct (privmsg_cases _ _ _ _ _ _ _ _ _ _ _ _ _ _ _ H) as [[H1 H2]|(_ & _ & -> & ->)]; [by apply H2 in Hx|].
    apply in_app_iff in Hx as [Hx|Hx]; [by apply silent_fetch in Hx|]. by eapply accept_privmsg_seen.
  - destruct (tagmsg_cases _ _ _ _ _ _ _ _ _ _ Ht H) as [[H1 H2]|(_ & _ & Ho)]; [by apply H2 in Hx|].
    apply Ho in Hx. by apply accept_tagmsg_seen in Hx.
Qed.


Lemma tagmsg_waited peer org names names' e now0 now1 actor kid mgr0 mgr1 r from target tags account :
  let m := Tagmsg from target tags account in
  let v0 := on_arrival peer org names e in
  let v1 := taken_up org names' (to_hold v0 now0 actor kid e) in
  is_task_message m = false -> self_named m = true -> is_delete m = false \/ secs now0 = secs now1 ->
  relay_verdict (chat r) m <> Some (SigUnverifiable NO_KEY_ON_FILE) ->
  s2s_tagmsg_in judge_relayed mgr1 r v1 from target tags account now1 = s2s_tagmsg_in judge_relayed mgr0 r v0 from target tags account now0.
Proof.
  cbv zeta. intros Ht Hi Hd Hv. unfold s2s_tagmsg_in. cbn [is_task_message] in Ht. rewrite Ht. cbn [j_deliver negb j_state j_out j_receipt].
  fold (clean_account account). cbn [relay_verdict] in Hv. rewrite !waits_for_none by exact Hv.
  destruct (mutation_lacks_proof _ _ _ _ _); [reflexivity|]. by rewrite accept_tagmsg_waited.
Qed.

(** Waiting for a key changes nothing but the hour. An edit, a delete or a
    reaction that was held until its signer's key arrived is treated, when it
    is taken up again, as it would have been treated on arrival had the key
    been there: the same verdict, the same rows under the same time and the
    same name of its server, the same lines to the same people, even when the
    peer's name is no longer known. An edit that a later one has overtaken in
    the meantime is the exception. *)
Theorem released_as_on_arrival (mgr0 mgr1 : S2sManager) (names names' : gmap string string) (r : Relays) (peer org : string) (e : S2sEvent)
    (now0 now1 : Now) (actor kid : string) :
  let i := to_hold (mkEnvelope peer org names None e) now0 actor kid e in
  (S2sLink.gate mgr0 peer e false (secs now0)).1 = Some org -> (S2sLink.gate mgr1 peer e true (secs now1)).1 = Some org ->
  is_task_message (body e) = false -> self_named (body e) = true -> is_delete (body e) = false \/ secs now0 = secs now1 ->
  relay_verdict (chat r) (body e) <> Some (SigUnverifiable NO_KEY_ON_FILE) -> overtaken (chat r) (body e) = false ->
  let '(_, r0, out0) := process_chat_event judge_relayed mgr0 names r peer e None now0 in
  let '(_, r1, out1) := process_chat_event judge_relayed mgr1 names' r (hr_peer i) (hr_message i)
                          (Some (mkArrival (hr_origin_name i) (hr_at i))) now1 in
  r1 = r0 /\ out1 = out0.
Proof.
  cbv zeta. intros H0 H1 Ht Hn Hd Hv Ho. unfold process_chat_event. cbn [is_some hr_peer hr_message to_hold en_peer].
  destruct (S2sLink.gate mgr0 _ _ _ _) as [o0 mgr0'], (S2sLink.gate mgr1 _ _ _ _) as [o1 mgr1']. cbn [fst] in H0, H1. subst o0 o1.
  destruct (body e) eqn:Eb; try done.
  - cbn [self_named] in Hn. destruct msgid as [id|]; [|discriminate Hn]. destruct multiline_lines; [discriminate Hn|].
    pose proof (privmsg_waited peer org names names' e now0 now1 actor kid r _ _ _ _ _ _ recipient_did _ _ Hv Ho) as E.
    unfold taken_up, on_arrival in E. cbn [hr_peer hr_message to_hold en_peer] in E. rewrite E. clear E.
    destruct (s2s_privmsg_in _ _ _ _ _ _ _ _ _ _ _ _ _) as [r' out]. exact (conj eq_refl eq_refl).
  - pose proof (tagmsg_waited peer org names names' e now0 now1 actor kid mgr0' mgr1' r _ _ _ _ Ht Hn Hd Hv) as E. cbv zeta in E.
    unfold taken_up, on_arrival in E. cbn [hr_peer hr_message to_hold en_peer] in E. rewrite E. clear E.
    destruct (s2s_tagmsg_in _ _ _ _ _ _ _ _ _) as [r' out]. exact (conj eq_refl eq_refl).
Qed.
End Link.
End Spec.
