(* ===== verification/MessagingRuns.v ===== *)
(** * Messages on a concrete server

    A server with one channel, Ana signed in on two devices, Bob signed in and
    a guest; the theorems of MessagingSpec and MessageStore at work on it, and
    runs that show behaviour the comments of the code do not lead to expect. *)
From stdpp Require Import base gmap strings list pretty fin_maps.
From Stdlib Require Import ZArith Lia Ascii String Sorted.
From S2P Require Import Prelude Text Ulid IrcMessage Multiline NickMap RoomTables S2sMessage Channel Rooms S2sLink Primitives SignedDocs MessageStore Routing Messaging MessagingOps MessagingSpec.
Open Scope string_scope.
Open Scope list_scope.
Open Scope Z_scope.

#[local] Existing Instances ascii_fold map_order toy_primitives toy_base64 toy_json.
#[local] Instance any_key : KeyBytes := {| key_decodes := fun _ => true |}.
#[local] Instance verbatim : UrlDecode := {| url_decode := Some |}.
#[local] Instance seconds : IsoTime := {| iso := fun t => pretty t |}.

(** ** The server *)

Definition person (nick : string) (did : option string) : Connection :=
  mkConn (Some nick) (Some nick) None did true false false false Human.
Definition ana_conn : Connection := person "ana" (Some "did:plc:ana").
Definition bob_conn : Connection := person "bob" (Some "did:plc:bob").
Definition guest_conn : Connection := person "gus" None.

Definition plain_channel : ChannelState := set_members {["a1"; "a2"; "b1"; "g1"]} (set_ops {["b1"]} default_channel).
Definition chat_server (ch : ChannelState) : Server :=
  mkServer {["#cats" := ch]}
    (mkNames (nm_insert (nm_insert (nm_insert no_nicks "ana" "a1") "bob" "b1") "gus" "g1")
       {["ana" := "did:plc:ana"; "bob" := "did:plc:bob"]} {["did:plc:ana" := "ana"; "did:plc:bob" := "bob"]}
       {["a1" := "did:plc:ana"; "a2" := "did:plc:ana"; "b1" := "did:plc:bob"]})
    {["did:plc:ana" := {["a1"; "a2"]}; "did:plc:bob" := {["b1"]}]} {["a1"; "a2"; "b1"; "g1"]} ∅ ∅ ∅ ∅ {["a1"; "a2"; "b1"; "g1"]} ∅
    ∅ ∅ ∅ (Some empty_room_db) true "freeq.test" 100 10.
Definition chat_on (d : MsgDb) (ch : ChannelState) : Chat :=
  mkChat (chat_server ch) (Some d) ∅ ∅ ∅ ∅ ∅ ∅ ∅ {["a1" := ed25519_verifying_key "ana"; "b1" := ed25519_verifying_key "bob"]} ∅ ∅
    "server" 1000.
Definition noon : Z := 1700000000000.
Definition ulid (n : Z) : string := (generate (mkLast 0 0) (mkDraw (noon + n) 0 n)).1.
Definition at_time (n : Z) : Now := mkNow (noon + n) (ulid n) "0".
Definition lines_for (x : string) (out : list ChatEffect) : nat :=
  List.length (List.filter (fun e => match e with Out (Line y _) => String.eqb x y | _ => false end) out).
Definition codes (out : list ChatEffect) : list string :=
  omap (fun e => match e with Out (Reply _ "FAIL" (_ :: code :: _)) => Some code | Out (Reply _ code _) => Some code | _ => None end) out.
Definition say (s : Chat) (c : Connection) (sid target text : string) (tags : Tags) (n : Z) : Chat * list ChatEffect :=
  handle_privmsg s c sid "PRIVMSG" target text tags (at_time n).

(** Ana has said something in the channel, filed under the id of its time. *)
Definition hello : Chat := (say (chat_on empty_db plain_channel) ana_conn "a1" "#cats" "hello" ∅ 1).1.
Definition signed_as (key : string) (doc : ChatSig.ChatDoc) (id : string) (tags : Tags) : Tags :=
  <["+freeq.at/sig" := ChatSig.sign doc key]> (<[ChatSig.EVENT_ID_TAG := id]> tags).
Definition edit_tags (key did target text root id : string) : Tags :=
  signed_as key (message_document did (ChatSig.channel_venue target) (mkFields text id None (Some root)) ∅) id {["+draft/edit" := root]}.
Definition delete_by (key did target subject id : string) : Tags :=
  signed_as key (ChatSig.mutation ChatSig.Delete did id (ChatSig.channel_venue target) subject) id {["+draft/delete" := subject]}.
Definition no_tasks (s : Chat) (c : Connection) (sid target : string) (tags : Tags) : Gate * Chat * list ChatEffect := (GateRefused, s, []).
Definition act_on (s : Chat) (c : Connection) (sid target : string) (tags : Tags) (n : Z) : Chat * list ChatEffect :=
  handle_tagmsg no_tasks s c sid target tags (at_time n).

Example chat_runs :
  (* the author edits with her proof; without it, or as somebody else, not *)
  codes (say hello ana_conn "a1" "#cats" "hi" (edit_tags "ana" "did:plc:ana" "#cats" "hi" (ulid 1) (ulid 2)) 2).2 = []
  /\ codes (say hello ana_conn "a1" "#cats" "hi" {["+draft/edit" := ulid 1]} 2).2 = ["SIGNATURE_REQUIRED"]
  /\ codes (say hello bob_conn "b1" "#cats" "hi" (edit_tags "bob" "did:plc:bob" "#cats" "hi" (ulid 1) (ulid 2)) 2).2 = ["AUTHOR_MISMATCH"]
  (* an operator deletes *)
  /\ codes (act_on hello bob_conn "b1" "#cats" (delete_by "bob" "did:plc:bob" "#cats" (ulid 1) (ulid 2)) 2).2 = []
  /\ codes (act_on hello guest_conn "g1" "#cats" {["+draft/delete" := ulid 1]} 2).2 = ["AUTHOR_MISMATCH"].
Proof. vm_compute. repeat split. Qed.

(** ** The theorems at work *)

(** Find an effect in a computed list. *)
Ltac find_effect := vm_compute; try eexists; repeat first [left; reflexivity | right].

Lemma relayed_signature_is_backed_witness :
  exists m, to_peers (say (chat_on empty_db plain_channel) ana_conn "a1" "#cats" "hello" ∅ 1).2 m
    /\ match m with
       | S2sMessage.Privmsg _ _ _ mid (Some sig) acct _ rep _ _ =>
           acct = Some "did:plc:ana" /\ backed_message (chat_on empty_db plain_channel) ana_conn "a1" "#cats" "hello" ∅ mid rep sig
       | _ => False
       end.
Proof.
  eexists. split; [vm_compute; do 3 right; left; reflexivity|].
  eapply (relayed_signature_is_backed (chat_on empty_db plain_channel) ana_conn "a1" "PRIVMSG" "#cats" "hello" ∅ None (at_time 1)).
  vm_compute. do 3 right; left; reflexivity.
Defined.

Definition revises : Tags := edit_tags "ana" "did:plc:ana" "#cats" "hi" (ulid 1) (ulid 2).

Definition moderates : Tags := delete_by "bob" "did:plc:bob" "#cats" (ulid 1) (ulid 2).

(** A moderated channel without outsiders. *)
Definition strict : Chat := chat_on empty_db (set_no_ext_msg true (set_moderated true plain_channel)).

Lemma chat_bound d ch : bound_ok (srv (chat_on d ch)).
Proof.
  intros did l x H Hx. cbn [srv chat_on did_sessions chat_server] in H.
  apply lookup_insert_Some in H as [[<- <-]|[_ H]]; [|apply lookup_singleton_Some in H as [<- <-]].
  - apply elem_of_union in Hx as [->%elem_of_singleton| ->%elem_of_singleton]; vm_compute; reflexivity.
  - apply elem_of_singleton in Hx as ->. vm_compute. reflexivity.
Qed.

(** Nine messages, a fifth of a second apart. *)
Definition burst : list Sent :=
  map (fun n => mkSent bob_conn "PRIVMSG" "#cats" "hi" ∅ None (at_time (200 * n))) [1; 2; 3; 4; 5; 6; 7; 8; 9].
Lemma flood_bounded_witness :
  heard "b1" burst (chat_on empty_db plain_channel) = map (fun n => noon + 200 * n) [1; 2; 3; 4; 5]
  /\ (in_window (noon + 1000) (heard "b1" burst (chat_on empty_db plain_channel)) <= 5)%nat.
Proof.
  split; [vm_compute; reflexivity|]. apply (flood_bounded "b1" burst (chat_on empty_db plain_channel)); [| |reflexivity].
  - repeat constructor; vm_compute; reflexivity.
  - vm_compute. repeat (constructor; try discriminate).
Defined.

Lemma delete_takes_all_revisions_witness :
  match db (say hello ana_conn "a1" "#cats" "hi" revises 2).1 with
  | Some d =>
      List.length (messages d) = 2%nat
      /\ forall r, In r (messages (soft_delete_message_by "#cats" (ulid 2) None 9 d)) -> in_family "#cats" (ulid 1) r = true ->
           is_Some (m_deleted_at r)
  | None => False
  end.
Proof.
  destruct (db (say hello ana_conn "a1" "#cats" "hi" revises 2).1) as [d|] eqn:E; [|vm_compute in E; discriminate E].
  assert (root_of d (ulid 2) = ulid 1) as Hr by (vm_compute in E; injection E as <-; vm_compute; reflexivity).
  split; [vm_compute in E; injection E as <-; reflexivity|].
  rewrite <- Hr. exact (proj1 (delete_takes_all_revisions "#cats" (ulid 2) None 9 d)).
Defined.

(** ** Runs that the comments do not lead to expect *)

Definition base : Chat := chat_on empty_db plain_channel.
Definition frames_for (x : string) (out : list ChatEffect) : list string :=
  omap (fun e => match e with Out (Line y f) => if String.eqb x y then Some f else None | _ => None end) out.
Definition tags_seen (x : string) (out : list ChatEffect) : list Tags :=
  omap (fun f => IrcMessage.tags <$> parse f) (frames_for x out).
Definition rows (s : Chat) : list MessageRow := match db s with Some d => messages d | None => [] end.
Definition alone (s : Chat) : Chat :=
  set_srv (let v := srv s in mkServer (channels v) (names v) (did_sessions v) (connections v) (server_opers v) (session_handles v)
    (session_actor_class v) (cap_extended_join v) (cap_message_tags v) (cap_multi_prefix v) (provenance_declarations v) (room_names v)
    (room_activity v) (room_db v) false (server_name v) (room_idle_secs v) (room_unclaimed_secs v)) s.

(** A guest's own [account] tag reaches everyone as if the server had stamped it. *)
Lemma account_tag_is_forgeable :
  map (fun t => t !! "account") (tags_seen "b1" (say base guest_conn "g1" "#cats" "it is me" {["account" := "did:plc:ana"]} 1).2)
  = [Some "did:plc:ana"].
Proof. vm_compute. reflexivity. Qed.

(** So does a verdict of the commit-reveal check on a message that reveals nothing. *)
Lemma reveal_verdict_is_forgeable :
  map (fun t => t !! "+freeq.at/commit-verified")
    (tags_seen "b1" (say base guest_conn "g1" "#cats" "as I said" {["+freeq.at/commit-verified" := "true"]} 1).2) = [Some "true"].
Proof. vm_compute. reflexivity. Qed.

(** Where only ciphertext may be sent, plaintext goes out as an edit. *)
Definition sealed : Chat :=
  (say (chat_on empty_db (set_encrypted true plain_channel)) ana_conn "a1" "#cats" "ENC1:abc" {["+encrypted" := "1"]} 1).1.
Lemma plaintext_edit_in_encrypted_channel :
  codes (say sealed ana_conn "a1" "#cats" "hi" ∅ 2).2 = ["404"]
  /\ lines_for "b1" (say sealed ana_conn "a1" "#cats" "hi" revises 2).2 = 1%nat
  /\ map m_text (rows (say sealed ana_conn "a1" "#cats" "hi" revises 2).1) = ["ENC1:abc"; "hi"].
Proof. vm_compute. repeat split. Qed.

(** A message may take the id of a task event, and nobody can delete it then. *)
Definition with_task : Chat :=
  chat_on (insert_event (mkRecord (Bare (mkFacts (ulid 2) "act" "#cats" (Some "did:plc:bob") None None None)) None verified_context 0)
             empty_db).1 plain_channel.
Definition takes_id : Chat * list ChatEffect := say with_task ana_conn "a1" "#cats" "oops" {[ChatSig.EVENT_ID_TAG := ulid 2]} 3.
Lemma message_under_a_task_id_is_stuck :
  map m_msgid (rows takes_id.1) = [Some (ulid 2)] /\ codes takes_id.2 = []
  /\ codes (act_on takes_id.1 ana_conn "a1" "#cats" (delete_by "ana" "did:plc:ana" "#cats" (ulid 2) (ulid 4)) 4).2 = ["IMMUTABLE_EVENT"]
  /\ codes (act_on takes_id.1 bob_conn "b1" "#cats" (delete_by "bob" "did:plc:bob" "#cats" (ulid 2) (ulid 4)) 4).2 = ["IMMUTABLE_EVENT"].
Proof. vm_compute. repeat split. Qed.

(** An unsigned edit of one's own direct message is refused, and accepted when
    it is addressed to a nick nobody has. *)
Definition whispered : Chat := (say base ana_conn "a1" "bob" "secret" ∅ 1).1.
Lemma unsigned_dm_edit_by_misaddressing :
  codes (say whispered ana_conn "a1" "bob" "other" {["+draft/edit" := ulid 1]} 2).2 = ["SIGNATURE_REQUIRED"]
  /\ codes (say whispered ana_conn "a1" "nobody" "other" {["+draft/edit" := ulid 1]} 2).2 = []
  /\ map (fun r => (m_channel r, m_text r, m_tags r !! "+freeq.at/sig"))
       (drop 1 (rows (say whispered ana_conn "a1" "nobody" "other" {["+draft/edit" := ulid 1]} 2).1))
     = [("dm:did:plc:ana,did:plc:bob", "other", None)].
Proof. vm_compute. repeat split. Qed.

(** A notice to a nick that is not there is answered. *)
Lemma notice_is_answered :
  codes (handle_privmsg (alone base) ana_conn "a1" "NOTICE" "nobody" "hi" ∅ (at_time 1)).2 = ["401"].
Proof. vm_compute. reflexivity. Qed.

(** A direct message to oneself reaches one's other devices twice. *)
Lemma note_to_self_arrives_twice :
  lines_for "a2" (say base ana_conn "a1" "ana" "remember" ∅ 1).2 = 2%nat
  /\ lines_for "a2" (say base ana_conn "a1" "bob" "hello" ∅ 1).2 = 1%nat.
Proof. vm_compute. repeat split. Qed.

(** A coordination event its channel refuses is on file all the same. *)
Definition closed_channel : ChannelState := set_no_ext_msg true (set_members {["b1"]} plain_channel).
Definition offers : Chat * list ChatEffect :=
  act_on (chat_on empty_db closed_channel) ana_conn "a1" "#cats" {["+freeq.at/event" := "task_update"]} 1.
Lemma refused_event_is_filed :
  codes offers.2 = ["404"]
  /\ match db offers.1 with Some d => is_some (coordination_events d !! ulid 1) && is_some (events d !! ulid 1) | None => false end = true.
Proof. vm_compute. repeat split. Qed.

(** The line for clients without tags carries a reaction as it came: with a line
    break in it, what follows reaches them as a line of the server's. *)
Definition bob_without_tags : Chat :=
  set_srv (let v := srv base in mkServer (channels v) (names v) (did_sessions v) (connections v) (server_opers v) (session_handles v)
    (session_actor_class v) (cap_extended_join v) {["a1"; "a2"; "g1"]} (cap_multi_prefix v) (provenance_declarations v) (room_names v)
    (room_activity v) (room_db v) (s2s_manager v) (server_name v) (room_idle_secs v) (room_unclaimed_secs v)) base.
Definition breaks_out : string := "@+react=x\r\n:ana!ana@freeq/plc/ana\sPRIVMSG\s#cats\s:I\sresign TAGMSG #cats".
Lemma reaction_injects_lines :
  match parse breaks_out with
  | Some m =>
      flat_map (str_split LF) (frames_for "b1" (act_on bob_without_tags guest_conn "g1" "#cats" (IrcMessage.tags m) 1).2)
      = [":gus!gus@freeq/guest PRIVMSG #cats :" +:+ String "001" "ACTION reacted with x" +:+ String CR "";
         ":ana!ana@freeq/plc/ana PRIVMSG #cats :I resign" +:+ String "001" "" +:+ String CR ""; ""]
  | None => False
  end.
Proof. vm_compute. reflexivity. Qed.
