(* ===== verification/FederatedRuns.v ===== *)
(** * Messages from other servers on a concrete server

    The server of MessagingRuns with a peer, on which Zoe writes; the theorems
    of FederatedChatSpec at work on it, an edit that waits for its key and is
    taken up, and runs that show behaviour the comments of the code do not lead
    to expect. *)
From stdpp Require Import base gmap strings list pretty fin_maps.
From Stdlib Require Import ZArith Lia Ascii String.
From S2P Require Import Prelude Text Ulid IrcMessage Multiline RelayQueue NickMap RoomTables S2sMessage Channel Rooms S2sLink Primitives SignedDocs MessageStore Routing Messaging MessagingOps FederatedChat MessagingSpec FederatedChatSpec MessagingRuns.
Open Scope string_scope.
Open Scope list_scope.
Open Scope Z_scope.

#[local] Existing Instances ascii_fold map_order toy_primitives toy_base64 toy_json any_key verbatim seconds.

(** ** The link *)

Definition zoe : string := "did:plc:zoe".
Definition zoe_kid : string := SigTag.derive_kid (ed25519_verifying_key "zoe").
Definition with_key (d : MsgDb) : MsgDb :=
  mkDb (messages d) (next_id d) (reactions d) (pin_rows d) (events d) (coordination_events d)
    {[(zoe, zoe_kid) := ed25519_verifying_key "zoe"]} (read_markers d).
Definition relays_on (d : MsgDb) (ch : ChannelState) : Relays := mkRelays (chat_on d ch) (new_queue 8 64).
Definition learn (r : Relays) : Relays := set_chat (on_db with_key (chat r)) r.
Definition no_judge (r : Relays) (_ _ : string) (_ : Tags) (_ _ : string) (_ : option string) (_ : bool) : Judgement :=
  mkJudgement false None r [].
Definition peer_names : gmap string string := {["peer" := "peer.example"]}.
Definition from_peer (n : Z) (m : S2sMessage) : S2sEvent := mkEvent ("peer:" +:+ pretty (40 + n)) "peer" m.
Definition arrives (r : Relays) (n : Z) (m : S2sMessage) : Relays * list RelayEffect :=
  let '(_, r', out) := process_chat_event no_judge sample_manager peer_names r "peer" (from_peer n m) None (at_time n) in (r', out).

(** What Zoe's client signs. *)
Definition zoe_signs (target body id : string) (reply edit : option string) (tags : Tags) : string :=
  ChatSig.sign (message_document zoe (ChatSig.channel_venue target) (mkFields body id reply edit) tags) "zoe".
Definition zoe_says (text id : string) (replaces sig : option string) (tags : Tags) (lines : option (list MultilineLine)) : S2sMessage :=
  S2sMessage.Privmsg "zoe!zoe@peer" "#cats" text (Some id) sig (Some zoe) None replaces tags lines.
Definition greets : S2sMessage := zoe_says "hello" (ulid 1) None (Some (zoe_signs "#cats" "hello" (ulid 1) None None ∅)) ∅ None.
Definition corrects : S2sMessage :=
  zoe_says "hi" (ulid 2) (Some (ulid 1)) (Some (zoe_signs "#cats" "hi" (ulid 2) None (Some (ulid 1)) ∅)) ∅ None.
Definition corrects_unsigned : S2sMessage := zoe_says "hi" (ulid 2) (Some (ulid 1)) None ∅ None.
Definition told (out : list RelayEffect) : list ChatEffect := omap (fun e => match e with Told x => Some x | _ => None end) out.
Definition fetches (out : list RelayEffect) : nat := List.length (List.filter (fun e => match e with FetchKey _ _ _ => true | _ => false end) out).

(** The server that knows Zoe's key, and the one that does not, after her greeting. *)
Definition greeted : Relays := (arrives (relays_on (with_key empty_db) plain_channel) 1 greets).1.
Definition greeted_keyless : Relays := (arrives (relays_on empty_db plain_channel) 1 greets).1.

Definition zoe_mutates (kind : ChatSig.Mutation) (subject id : string) (emoji : option string) : string :=
  ChatSig.sign (ChatSig.opt_with ChatSig.with_emoji emoji (ChatSig.mutation kind zoe id (ChatSig.channel_venue "#cats") subject)) "zoe".
Definition zoe_tags (tags : Tags) : S2sMessage := Tagmsg "zoe!zoe@peer" "#cats" tags (Some zoe).
Definition deletes : Tags :=
  {["+draft/delete" := ulid 1; ChatSig.EVENT_ID_TAG := ulid 3; "+freeq.at/sig" := zoe_mutates ChatSig.Delete (ulid 1) (ulid 3) None]}.
Definition reacts : Tags :=
  {["+react" := "x"; "+reply" := ulid 1; ChatSig.EVENT_ID_TAG := ulid 3;
    "+freeq.at/sig" := zoe_mutates ChatSig.React (ulid 1) (ulid 3) (Some "x")]}.
Definition gone (r : Relays) : list bool := map (fun m => is_some (m_deleted_at m)) (rows (chat r)).

(** What was held, in order, once the key is there. *)
Definition takes_up (r : Relays) (n : Z) : Relays * list RelayEffect :=
  let '(r, out) := release_held_relays (learn r) zoe zoe_kid in
  fold_left (fun acc x => match x with
                          | Released items =>
                              let '(_, r', out') := process_released no_judge sample_manager ∅ acc.1 items (at_time n) in (r', acc.2 ++ out')
                          | x => (acc.1, acc.2 ++ [x])
                          end) out (r, []).

Example relay_runs :
  (* an edit and a delete by the author, with her proof and without it *)
  map m_text (rows (chat (arrives greeted 2 corrects).1)) = ["hello"; "hi"]
  /\ map m_text (rows (chat (arrives greeted 2 corrects_unsigned).1)) = ["hello"]
  /\ gone (arrives greeted 3 (zoe_tags deletes)).1 = [true]
  /\ gone (arrives greeted 3 (zoe_tags {["+draft/delete" := ulid 1]})).1 = [false]
  (* an edit whose key is missing waits, and is taken up under the time it came *)
  /\ map m_text (rows (chat (arrives greeted_keyless 2 corrects).1)) = ["hello"]
  /\ told (arrives greeted_keyless 2 corrects).2 = [] /\ fetches (arrives greeted_keyless 2 corrects).2 = 1%nat
  /\ map (fun m => (m_text m, m_timestamp m)) (rows (chat (takes_up (arrives greeted_keyless 2 corrects).1 9000).1))
     = [("hello", 1700000000); ("hi", 1700000000)]
  /\ map (fun t => (t !! "+freeq.at/origin", t !! "+draft/edit")) (tags_seen "b1" (told (takes_up (arrives greeted_keyless 2 corrects).1 9000).2))
     = [(Some "peer.example", Some (ulid 1))].
Proof. vm_compute. repeat split. Qed.

(** ** The theorems at work *)

Ltac run_event r n m m' r' out E :=
  destruct (process_chat_event no_judge sample_manager peer_names r "peer" (from_peer n m) None (at_time n)) as [[m' r'] out] eqn:E.


Lemma relayed_change_authority_witness :
  exists row, authorship (chat greeted) (ulid 1) = Some row /\ au_deleted row = false
    /\ wrote row "zoe" (Some zoe).
Proof.
  destruct (authorship (chat greeted) (ulid 1)) as [row|] eqn:Er; [|vm_compute in Er; discriminate Er].
  exists row. split; [reflexivity|]. run_event greeted 2 corrects m' r' out E.
  apply (relayed_change_authority no_judge sample_manager peer_names greeted "peer" (from_peer 2 corrects) None (at_time 2) m' r' out row E).
  - rewrite <- Er. vm_compute. reflexivity.
  - reflexivity.
  - right. right. change out with (m', r', out).2. rewrite <- E. find_effect.
Defined.

(** Ana writes to Bob from a client on the other server: signed, so her devices
    here see it too. *)
Definition ana_elsewhere (sig : option string) : S2sMessage :=
  S2sMessage.Privmsg "ana!ana@peer" "bob" "psst" (Some (ulid 1)) sig (Some "did:plc:ana") None None ∅ None.
Definition ana_key_known : Relays :=
  relays_on (mkDb [] 1 [] [] ∅ ∅ {[("did:plc:ana", SigTag.derive_kid (ed25519_verifying_key "ana")) := ed25519_verifying_key "ana"]} ∅) plain_channel.
Definition ana_signed : S2sMessage :=
  ana_elsewhere (Some (ChatSig.sign (message_document "did:plc:ana" (ChatSig.dm_venue "did:plc:ana" "did:plc:bob")
                                       (mkFields "psst" (ulid 1) None None) ∅) "ana")).
Lemma relayed_reaches_only_witness :
  relay_proved (chat ana_key_known) ana_signed
  /\ lines_for "a2" (told (arrives ana_key_known 1 (ana_elsewhere None)).2) = 0%nat
  /\ lines_for "b1" (told (arrives ana_key_known 1 (ana_elsewhere None)).2) = 1%nat.
Proof.
  split; [|vm_compute; repeat split]. run_event ana_key_known 1 ana_signed m' r' out E.
  assert (exists f, In (Told (Out (Line "a2" f))) out) as (f & Hf) by (change out with (m', r', out).2; rewrite <- E; find_effect).
  destruct (relayed_reaches_only no_judge sample_manager peer_names ana_key_known "peer" (from_peer 1 ana_signed) None (at_time 1)
              m' r' out _ E eq_refl Hf) as (sid & line & [= <- _] & H).
  unfold may_see in H. cbn [body from_peer] in H. destruct (clean_target ana_signed) as [[t a]|] eqn:Ec; [|contradiction H].
  vm_compute in Ec. injection Ec as <- <-. destruct (ChatSig.is_channel_name "bob") eqn:Eb; [discriminate Eb|].
  destruct H as [H|[H _]]; [|exact H]. vm_compute in H. destruct H as [H|[]]. discriminate H.
Defined.

Definition logged (r : Relays) (id : string) : option StoredEvent := db (chat r) ≫= fun d => events d !! id.
Definition db_of (r : Relays) : MsgDb := default empty_db (db (chat r)).
Definition corrected : S2sManager * Relays * list RelayEffect :=
  process_chat_event no_judge sample_manager peer_names greeted "peer" (from_peer 2 corrects) None (at_time 2).
Definition new_event : StoredEvent :=
  default (mkStoredEvent "" None Unsigned (mkFacts "" "" "" None None None None) None None None 0) (logged corrected.1.2 (ulid 2)).

(** The held edit, taken up nine seconds later by a server that has forgotten
    the peer's name, and the same edit on a server that had the key. *)
Definition keyed : Relays := learn greeted_keyless.
Lemma released_as_on_arrival_witness :
  let i := to_hold (mkEnvelope "peer" "peer" peer_names None (from_peer 2 corrects)) (at_time 2) zoe zoe_kid (from_peer 2 corrects) in
  let '(_, r0, out0) := process_chat_event no_judge sample_manager peer_names keyed "peer" (from_peer 2 corrects) None (at_time 2) in
  let '(_, r1, out1) := process_chat_event no_judge sample_manager ∅ keyed (hr_peer i) (hr_message i)
                          (Some (mkArrival (hr_origin_name i) (hr_at i))) (at_time 9000) in
  r1 = r0 /\ out1 = out0.
Proof.
  apply (released_as_on_arrival no_judge sample_manager sample_manager peer_names ∅ keyed "peer" "peer" (from_peer 2 corrects)
           (at_time 2) (at_time 9000) zoe zoe_kid).
  - vm_compute. reflexivity.
  - vm_compute. reflexivity.
  - reflexivity.
  - reflexivity.
  - left. reflexivity.
  - vm_compute. discriminate.
  - vm_compute. reflexivity.
Defined.

(** ** Runs that the comments do not lead to expect *)

(** The lines of a multi-line message reach clients without tags as the peer
    sent them, line breaks and all. *)
Definition untagged (r : Relays) : Relays := set_chat (set_srv (srv bob_without_tags) (chat r)) r.
Definition long_message (line : string) : S2sMessage := zoe_says "a" (ulid 1) None None ∅ (Some [mkMLine line false]).
Lemma relayed_multiline_injects_lines :
  flat_map (str_split LF) (frames_for "b1" (told (arrives (untagged (relays_on empty_db plain_channel)) 1
    (long_message ("a" +:+ String CR (String LF ":ana!ana@freeq/plc/ana PRIVMSG #cats :I resign")))).2))
  = [":zoe!zoe@peer PRIVMSG #cats :a" +:+ String CR "";
     ":ana!ana@freeq/plc/ana PRIVMSG #cats :I resign" +:+ String CR ""; ""].
Proof. vm_compute. reflexivity. Qed.

(** An edit of more than one line reaches clients as a message of its own. *)
Definition corrects_long : S2sMessage :=
  zoe_says "one" (ulid 2) (Some (ulid 1)) (Some (zoe_signs "#cats" ("one" +:+ String LF "two") (ulid 2) None (Some (ulid 1)) ∅)) ∅
    (Some [mkMLine "one" false; mkMLine "two" false]).
Lemma relayed_long_edit_shown_as_new :
  map m_replaces (rows (chat (arrives greeted 2 corrects_long).1)) = [None; Some (ulid 1)]
  /\ map (fun t => (t !! "msgid", t !! "+draft/edit")) (tags_seen "b1" (told (arrives greeted 2 corrects_long).2))
     = [(Some (ulid 2), None); (None, None)]
  /\ map (fun t => (t !! "msgid", t !! "+draft/edit")) (tags_seen "b1" (told (arrives greeted 2 corrects).2))
     = [(Some (ulid 2), Some (ulid 1))].
Proof. vm_compute. repeat split. Qed.

(** Where only ciphertext may be said, a peer's plaintext is shown; in a
    moderated channel without outsiders, a peer's outsider reacts. *)
Lemma relayed_modes_not_enforced :
  lines_for "b1" (told (arrives (relays_on (with_key empty_db) (set_encrypted true plain_channel)) 1 greets).2) = 1%nat
  /\ lines_for "b1" (told (arrives (mkRelays strict (new_queue 8 64)) 1 greets).2) = 0%nat
  /\ lines_for "b1" (told (arrives (learn (mkRelays strict (new_queue 8 64))) 3 (zoe_tags reacts)).2) = 1%nat.
Proof. vm_compute. repeat split. Qed.

(** A reply to an edit is filed as a reply to the original, and called valid
    under the signature of what it was. *)
Definition answer_tags : Tags := {["+reply" := ulid 2]}.
Definition answer_sig : string := zoe_signs "#cats" "yes" (ulid 5) (Some (ulid 2)) None answer_tags.
Definition answered : Relays :=
  (arrives (arrives greeted 2 corrects).1 5 (zoe_says "yes" (ulid 5) None (Some answer_sig) answer_tags None)).1.
Lemma rerooted_reply_called_valid :
  match logged answered (ulid 5) with
  | Some e =>
      e_sig_state e = Valid /\ e_signature e = Some answer_sig
      /\ e_canonical e = ChatSig.canonical (message_document zoe "#cats" (mkFields "yes" (ulid 5) (Some (ulid 1)) None) ∅)
      /\ e_canonical e <> ChatSig.canonical (message_document zoe "#cats" (mkFields "yes" (ulid 5) (Some (ulid 2)) None) answer_tags)
  | None => False
  end.
Proof. vm_compute. repeat split; discriminate. Qed.

(** Tags that ask for a delete and for a reaction: the proof of the one files
    the other, under its id and as valid, even where the delete is refused. *)
Definition both (subject : string) : Tags :=
  {["+draft/delete" := subject; ChatSig.EVENT_ID_TAG := ulid 3; "+freeq.at/sig" := zoe_mutates ChatSig.Delete subject (ulid 3) None;
    "+react" := "x"; "+reply" := subject]}.
Definition anas : Relays := mkRelays (on_db with_key hello) (new_queue 8 64).
Lemma delete_proof_files_reaction :
  gone (arrives greeted 3 (zoe_tags (both (ulid 1)))).1 = [true]
  /\ (fun e => (f_kind (e_facts e), e_sig_state e)) <$> logged (arrives greeted 3 (zoe_tags (both (ulid 1)))).1 (ulid 3)
     = Some ("react", Valid)
  /\ gone (arrives anas 3 (zoe_tags (both (ulid 1)))).1 = [false]
  /\ told (arrives anas 3 (zoe_tags (both (ulid 1)))).2 = []
  /\ map rx_emoji (match db (chat (arrives anas 3 (zoe_tags (both (ulid 1)))).1) with Some d => reactions d | None => [] end) = ["x"].
Proof. vm_compute. repeat split. Qed.
