(* ===== verification/TaskDocs.v ===== *)
(** * Signed task documents

    [freeq-sdk/src/act.rs]: which tags of a message a task signature covers, the
    bytes that are signed, their verification, and the reading of a task event
    off its tags; and [derive_act_view] of [freeq-server/src/events.rs], the
    reading of the stored bytes. What the server files is what was signed: the
    fields it reads back are the fields of the tags. *)
From stdpp Require Import base gmap strings list pretty fin_maps.
From Stdlib Require Import ZArith Lia Ascii String.
From S2P Require Import Prelude Text Primitives SignedDocs MessageStore S2sLink.
Open Scope string_scope.
Open Scope list_scope.
Open Scope Z_scope.

(** [str::parse::<i64>] *)
Definition parse_i64 (s : string) : option Z :=
  let negative := starts_with_char "-" s in
  let digits := if negative then str_drop 1 s else default s (strip_prefix "+" s) in
  if is_empty digits || negb (str_all is_ascii_digit digits) then None
  else
    let n := str_fold digit_step 0 digits in
    let n := if negative then - n else n in
    if (- 2 ^ 63 <=? n) && (n <? 2 ^ 63) then Some n else None.

Inductive ActSigError := NoActTags | MissingFrom | MissingId | MissingTarget | ActSig (e : SigTag.SigError).

Notation stripped_name := ChatSig.stripped_name.

(** A document key is an act field when it is [act] or starts with [act-]. *)
Definition is_act_field (k : string) : bool := String.eqb k "act" || starts_with "act-" k.
Lemma is_act_tag_field name : is_act_tag name = is_act_field (stripped_name name).
Proof. reflexivity. Qed.

Section Fields.
Context {HO : HashOrder}.

(** A field under more than one spelling. *)
Fixpoint first_repeat (seen : list string) (l : list string) : option string :=
  match l with
  | [] => None
  | f :: r => if existsb (String.eqb f) seen then Some f else first_repeat (f :: seen) r
  end.
Definition act_fields_of (l : list (string * string)) : list string :=
  map (fun kv => stripped_name kv.1) (List.filter (fun kv => is_act_tag kv.1) l).
Definition repeated_field (tags : gmap string string) : option string := first_repeat [] (act_fields_of (hash_iter tags)).

(** The pass over the tags: the covered fields and the signer. *)
Definition cover_step (acc : gmap string string * option string) (kv : string * string) : gmap string string * option string :=
  let stripped := stripped_name kv.1 in
  if String.eqb stripped "from" then (acc.1, Some kv.2)
  else if negb (is_act_tag kv.1) then acc
  else (<[stripped := kv.2]> acc.1, acc.2).
Definition covered_of (tags : list (string * string)) : gmap string string * option string := fold_left cover_step tags (∅, None).
Definition covered_tags (tags : gmap string string) : gmap string string * option string := covered_of (hash_iter tags).

Section Canonical.
Context {P : Primitives} {B64 : Base64} {J : JsonText}.

Definition act_members (covered : gmap string string) (from target id : string) : gmap string DocValue :=
  DStr <$> <["target" := target]> (<["id" := id]> (<["from" := from]> covered)).
(** Over the tags in the order they are read. *)
Definition act_canonical_of (tags : list (string * string)) (target id : string) : result string ActSigError :=
  if is_empty id then Err MissingId
  else if is_empty target then Err MissingTarget
  else
    let '(covered, from) := covered_of tags in
    if bool_decide (covered = ∅) then Err NoActTags
    else match from with
         | None => Err MissingFrom
         | Some from => Ok (canonicalize json_string (act_members covered from target id))
         end.
Definition act_canonical (tags : gmap string string) (target id : string) : result string ActSigError :=
  act_canonical_of (hash_iter tags) target id.

Definition map_err {A} (r : result A SigTag.SigError) : result A ActSigError :=
  match r with Ok a => Ok a | Err e => Err (ActSig e) end.
Definition sign_act (tags : gmap string string) (target id key : string) : result string ActSigError :=
  match act_canonical tags target id with Ok c => Ok (SigTag.sign_canonical c key) | Err e => Err e end.
Definition verify_act (tags : gmap string string) (target id sig_tag key : string) : result unit ActSigError :=
  match SigTag.parse sig_tag with
  | Err e => Err (ActSig e)
  | Ok _ =>
      match act_canonical tags target id with
      | Err e => Err e
      | Ok canonical => map_err (SigTag.verify_canonical canonical sig_tag key)
      end
  end.
End Canonical.

(** ** Reading tags *)

Record ParsedAct := mkParsed {
  pa_kind : string;
  pa_verb : string;
  pa_did : option string;
  pa_event_id : string;
  pa_task_id : string;
  pa_fields : gmap string string;
  pa_sig_tag : option string;
  pa_replayed : bool
}.
Record ParseState := mkParse {
  ps_fields : gmap string string; ps_did : option string; ps_account : option string; ps_event_id : option string;
  ps_sig : option string; ps_replayed : bool }.
Definition parse_step (p : ParseState) (kv : string * string) : ParseState :=
  let '(name, value) := kv in
  let stripped := stripped_name name in
  let '(mkParse fields did account event_id sig replayed) := p in
  if String.eqb stripped "from" then mkParse fields (Some value) account event_id sig replayed
  else if String.eqb stripped "account" then mkParse fields did (Some value) event_id sig replayed
  else if String.eqb stripped "eventid" then mkParse fields did account (Some value) sig replayed
  else if String.eqb stripped "sig" then mkParse fields did account event_id (Some value) replayed
  else if String.eqb stripped "time" then mkParse fields did account event_id sig true
  else if String.eqb stripped "msgid" && negb (is_some event_id) then mkParse fields did account (Some value) sig replayed
  else if is_act_tag name then mkParse (<[stripped := value]> fields) did account event_id sig replayed
  else p.
Definition parse_event (tags : gmap string string) : option ParsedAct :=
  let p := fold_left parse_step (hash_iter tags) (mkParse ∅ None None None None false) in
  if bool_decide (ps_fields p = ∅) then None
  else
    event_id ← ps_event_id p;
    Some (mkParsed (default "" (ps_fields p !! "act")) (default "" (ps_fields p !! "act-verb")) (or_else (ps_did p) (ps_account p))
            event_id (default event_id (ps_fields p !! "act-id")) (ps_fields p) (ps_sig p) (ps_replayed p)).
End Fields.

(** ** Reading the stored bytes *)

Record ActView := mkView {
  v_kind : string;
  v_verb : string;
  v_to : option string;
  v_caps : option string;
  v_deadline : option Z;
  v_replaces : option string;
  v_fields : gmap string string
}.
Definition str_value (v : JValue) : option string := match v with JDoc (DStr s) => Some s | _ => None end.
Definition doc_fields (doc : gmap string JValue) : gmap string string :=
  omap str_value (filter (fun kv => is_act_field kv.1 = true) doc).

Section View.
Context {J : JsonText}.
Variable revival_tag : string.
Definition derive_act_view (canonical : string) : option ActView :=
  doc ← json_from_str canonical;
  kind ← get_str "act" doc; verb ← get_str "act-verb" doc;
  Some (mkView kind verb (get_str "act-to" doc) (get_str "act-caps" doc) (get_str "act-deadline" doc ≫= parse_i64)
          (get_str revival_tag doc) (doc_fields doc)).
End View.

(** ** What is filed is what was signed *)

Section Agreement.
Context {P : Primitives} {B64 : Base64} {J : JsonText} {HO : HashOrder}.

Lemma covered_are_act tags : forall k v, (covered_of tags).1 !! k = Some v -> is_act_field k = true.
Proof.
  unfold covered_of. intros k v.
  assert (forall c f, (forall k v, c !! k = Some v -> is_act_field k = true) ->
            forall k v, (fold_left cover_step tags (c, f)).1 !! k = Some v -> is_act_field k = true) as H; [|by apply H].
  clear. induction tags as [|[n w] l IH]; intros c f H; [done|]. cbn [fold_left]. unfold cover_step at 2. cbn [fst snd].
  destruct (String.eqb _ _); [by apply IH|]. destruct (is_act_tag n) eqn:E; cbn [negb]; [|by apply IH].
  apply IH. intros k v. rewrite lookup_insert_Some. intros [[<- _]|[_ Hk]]; [by rewrite <- is_act_tag_field|by eapply H].
Qed.

Lemma act_members_lookup covered from target id k :
  (forall k v, covered !! k = Some v -> is_act_field k = true) ->
  act_members covered from target id !! k =
  if String.eqb k "target" then Some (DStr target)
  else if String.eqb k "id" then Some (DStr id)
  else if String.eqb k "from" then Some (DStr from)
  else DStr <$> covered !! k.
Proof.
  intros H. unfold act_members. rewrite lookup_fmap.
  destruct (String.eqb_spec k "target") as [->|]; [by simplify_map_eq|]. rewrite lookup_insert_ne by done.
  destruct (String.eqb_spec k "id") as [->|]; [by simplify_map_eq|]. rewrite lookup_insert_ne by done.
  destruct (String.eqb_spec k "from") as [->|]; [by simplify_map_eq|]. by rewrite lookup_insert_ne.
Qed.

(** The envelope and the fields of a document that was signed. *)
Record signed_as_act (tags : list (string * string)) (target id : string) (canonical : string) (from : string) : Prop := {
  sa_id : is_empty id = false;
  sa_target : is_empty target = false;
  sa_from : (covered_of tags).2 = Some from;
  sa_fields : (covered_of tags).1 <> ∅;
  sa_bytes : canonical = canonicalize json_string (act_members (covered_of tags).1 from target id)
}.
Lemma act_canonical_ok tags target id c : act_canonical_of tags target id = Ok c -> exists from, signed_as_act tags target id c from.
Proof.
  unfold act_canonical_of. destruct (is_empty id) eqn:E1; [done|]. destruct (is_empty target) eqn:E2; [done|].
  destruct (covered_of tags) as [cv [from|]] eqn:E; case_bool_decide; try done. intros [= <-].
  exists from. split; rewrite ?E; done.
Qed.

Lemma act_doc_get tags target id c from k :
  signed_as_act tags target id c from ->
  exists doc, json_from_str c = Some doc
    /\ get_str k doc = (if String.eqb k "target" then Some target else if String.eqb k "id" then Some id
                        else if String.eqb k "from" then Some from else (covered_of tags).1 !! k).
Proof.
  intros [H1 H2 H3 H4 ->]. eexists. split; [apply json_reads_back|]. unfold get_str. rewrite lookup_fmap.
  rewrite act_members_lookup by apply covered_are_act. repeat destruct (String.eqb k _); try done.
  by destruct ((covered_of tags).1 !! k).
Qed.
Lemma act_doc_fields tags target id c from :
  signed_as_act tags target id c from -> exists doc, json_from_str c = Some doc /\ doc_fields doc = (covered_of tags).1.
Proof.
  intros [H1 H2 H3 H4 ->]. eexists. split; [apply json_reads_back|]. unfold doc_fields. apply map_eq. intros k.
  rewrite lookup_omap. destruct (is_act_field k) eqn:Ek.
  - rewrite map_lookup_filter. rewrite lookup_fmap, act_members_lookup by apply covered_are_act.
    assert (forall x, is_act_field x = false -> String.eqb k x = false) as Hx.
    { intros x Hx. apply String.eqb_neq. intros ->. congruence. }
    rewrite !Hx by reflexivity. destruct ((covered_of tags).1 !! k); [|done]. cbn. by rewrite option_guard_True.
  - rewrite map_lookup_filter. destruct ((covered_of tags).1 !! k) as [v|] eqn:E.
    + apply covered_are_act in E. congruence.
    + destruct ((_ <$> _) !! k); [|done]. cbn. by rewrite option_guard_False by congruence.
Qed.

(** ** One document per message *)

Lemma first_repeat_none seen l : first_repeat seen l = None -> NoDup l /\ Forall (fun x => x ∉ seen) l.
Proof.
  revert seen. induction l as [|x l IH]; intros seen H; [split; constructor|]. cbn in H. destruct (existsb _ seen) eqn:E; [done|].
  destruct (IH _ H) as [H1 H2]. assert (x ∉ seen) as Hx.
  { intros Hin. apply not_true_iff_false in E. apply E. apply existsb_exists. exists x. split; [by apply list_elem_of_In|apply String.eqb_refl]. }
  split.
  - constructor; [|done]. intros Hin. rewrite Forall_forall in H2. specialize (H2 _ Hin). set_solver.
  - constructor; [done|]. eapply Forall_impl; [exact H2|]. set_solver.
Qed.
Lemma cover_snoc l x : covered_of (l ++ [x]) = cover_step (covered_of l) x.
Proof. unfold covered_of. by rewrite fold_left_app. Qed.
Lemma act_fields_app l1 l2 : act_fields_of (l1 ++ l2) = act_fields_of l1 ++ act_fields_of l2.
Proof. unfold act_fields_of. by rewrite List.filter_app, map_app. Qed.
Lemma from_is_no_act n : stripped_name n = "from" -> is_act_tag n = false.
Proof. intros E. by rewrite is_act_tag_field, E. Qed.
Lemma act_field_mem l n v : (n, v) ∈ l -> is_act_tag n = true -> stripped_name n ∈ act_fields_of l.
Proof.
  intros Hin Ha. unfold act_fields_of. apply list_elem_of_In, in_map_iff. exists (n, v). split; [done|].
  apply filter_In. split; [by apply list_elem_of_In|done].
Qed.

(** Without repeats, a field has the value of its one tag. *)
Lemma covered_lookup l k v : NoDup (act_fields_of l) ->
  (covered_of l).1 !! k = Some v <-> exists n, (n, v) ∈ l /\ is_act_tag n = true /\ stripped_name n = k.
Proof.
  induction l as [|[m w] l IH] using rev_ind; intros Hnd.
  { cbn. rewrite lookup_empty. split; [done|]. intros (n & Hn & _). by apply elem_of_nil in Hn. }
  rewrite act_fields_app in Hnd. apply NoDup_app in Hnd as (Hnd & Hnew & _). specialize (IH Hnd). rewrite cover_snoc. unfold cover_step. cbn [fst snd].
  destruct (String.eqb_spec (stripped_name m) "from") as [Ef|Ef].
  { pose proof (from_is_no_act _ Ef) as Ea. cbn [fst]. rewrite IH. split; intros (n & Hn & H); exists n; (split; [|done]).
    - set_solver.
    - apply elem_of_app in Hn as [Hn|Hn]; [done|]. apply list_elem_of_singleton in Hn as [= -> ->]. destruct H. congruence. }
  destruct (is_act_tag m) eqn:Ea; cbn [negb fst].
  - rewrite lookup_insert_Some, IH. split.
    + intros [[<- <-]|[Hne (n & Hn & H)]]; [exists m|exists n]; set_solver.
    + intros (n & Hn & Hact & <-). apply elem_of_app in Hn as [Hn|Hn].
      * right. split; [|by exists n]. intros E. apply (Hnew (stripped_name n)); [by eapply act_field_mem|].
        unfold act_fields_of. cbn. rewrite Ea. cbn. rewrite E. set_solver.
      * apply list_elem_of_singleton in Hn as [= -> ->]. by left.
  - rewrite IH. split; intros (n & Hn & H); exists n; (split; [|done]).
    + set_solver.
    + apply elem_of_app in Hn as [Hn|Hn]; [done|]. apply list_elem_of_singleton in Hn as [= -> ->]. destruct H. congruence.
Qed.
Lemma covered_from l : match (covered_of l).2 with
                       | Some v => exists n, (n, v) ∈ l /\ stripped_name n = "from"
                       | None => forall n v, (n, v) ∈ l -> stripped_name n <> "from"
                       end.
Proof.
  induction l as [|[m w] l IH] using rev_ind; [intros n v Hn; by apply elem_of_nil in Hn|]. rewrite cover_snoc. unfold cover_step. cbn [fst snd].
  destruct (String.eqb_spec (stripped_name m) "from") as [Ef|Ef]; cbn [snd]; [exists m; set_solver|].
  assert (forall c : gmap string string, (c, (covered_of l).2).2 = (covered_of l).2) as Hc by done.
  destruct (is_act_tag m); cbn [negb snd]; (destruct (covered_of l).2; [destruct IH as (n & Hn & H); exists n; set_solver|]);
    (intros n v Hn; apply elem_of_app in Hn as [Hn|Hn]; [by eapply IH|]; apply list_elem_of_singleton in Hn as [= -> ->]; done).
Qed.

(** The same over the tags of a message. *)
Lemma hash_mem (tags : gmap string string) n v : (n, v) ∈ hash_iter tags <-> tags !! n = Some v.
Proof. rewrite hash_iter_perm. apply elem_of_map_to_list. Qed.
Lemma tags_covered (tags : gmap string string) k v : repeated_field tags = None ->
  (covered_tags tags).1 !! k = Some v <-> exists n, tags !! n = Some v /\ is_act_tag n = true /\ stripped_name n = k.
Proof.
  intros H. unfold covered_tags. rewrite covered_lookup by by destruct (first_repeat_none _ _ H).
  split; intros (n & Hn & Hr); exists n; (split; [|done]); by apply hash_mem.
Qed.
(** Every field of the message is a field of the document, under whichever spelling. *)
Lemma tag_is_field (tags : gmap string string) n v : repeated_field tags = None -> tags !! n = Some v -> is_act_tag n = true ->
  (covered_tags tags).1 !! stripped_name n = Some v.
Proof. intros H Hn Ha. apply tags_covered; eauto. Qed.
Lemma tags_from (tags : gmap string string) : tags !! "from" = None -> tags !! "freeq.at/from" = None ->
  (covered_tags tags).2 = tags !! "+freeq.at/from".
Proof.
  intros H1 H2. unfold covered_tags. pose proof (covered_from (hash_iter tags)) as H.
  assert (forall n v, tags !! n = Some v -> stripped_name n = "from" -> n = "+freeq.at/from") as Hn.
  { intros n v Hv E. unfold stripped_name in E. destruct (strip_prefix "+freeq.at/" n) as [r|] eqn:E1.
    { apply strip_prefix_some in E1. by subst. }
    destruct (strip_prefix "freeq.at/" n) as [r|] eqn:E2; [apply strip_prefix_some in E2; cbn in E; subst; change (tags !! "freeq.at/from" = Some v) in Hv; congruence|].
    cbn in E. subst. congruence. }
  destruct (covered_of (hash_iter tags)).2 as [v|].
  - destruct H as (n & Hv & E). apply hash_mem in Hv. by rewrite <- (Hn _ _ Hv E).
  - destruct (tags !! "+freeq.at/from") as [v|] eqn:E; [|done]. exfalso. apply hash_mem in E. by apply (H _ _ E).
Qed.
End Agreement.
