(* ===== verification/TaskLog.v ===== *)
(** * The task log and the live tasks

    The part of [freeq-server/src/db.rs] that referees tasks: the log rows of
    task events, the table [act_actions] of live tasks, the one critical section
    that checks a task event, files it and moves the view ([apply_act_event]),
    and the rebuilding of the view from the log. *)
From stdpp Require Import base gmap strings list pretty fin_maps sorting.
From Stdlib Require Import ZArith Lia Ascii String.
From S2P Require Import Prelude Text Ulid Primitives SignedDocs MessageStore TaskDocs ActTransitions.
Open Scope string_scope.
Open Scope list_scope.
Open Scope Z_scope.

(** ** Tables *)

Record ActTask := mkActTask {
  at_act_id : string;
  at_kind : string;
  at_venue : string;
  at_origin : string;               (* empty: created on this server *)
  at_state : string;
  at_offerer : string;
  at_offeree : option string;
  at_assignee : option string;
  at_caps : option string;
  at_deadline : option Z;
  at_replaces : option string;
  at_updated : Z;
  at_dropped : Z                    (* dropped_unchecked *)
}.
Record TaskDb := mkTaskDb { log : MsgDb; act_actions : gmap string ActTask }.
Definition set_log x (d : TaskDb) := mkTaskDb x (act_actions d).
Definition set_actions x (d : TaskDb) := mkTaskDb (log d) x.
Definition events_of (d : TaskDb) : gmap string StoredEvent := events (log d).

Record ActEvent := mkActEvent {
  ae_canonical : string;
  ae_signature : option string;
  ae_event_id : string;
  ae_act_id : string;
  ae_opens : bool;
  ae_venue : string;
  ae_actor : string;
  ae_from_system : bool;
  ae_by_referee : bool;
  ae_origin : option string;
  ae_timestamp : Z
}.
Inductive ActWrite :=
  | Filed (was : option string) (state : string)
  | Recorded
  | ConfirmedWrite (state : string)
  | ReceiptIgnored
  | ReceiptBeforeSubject
  | ReceiptRefused (r : Refusal)
  | Conflict (with_ : string)
  | RefusedWrite (r : Refusal)
  | UnknownTask
  | StoredNotApplied
  | WrongVenue
  | Duplicate
  | NotATaskEvent.

Definition is_system_actor (actor : string) : bool := starts_with "did:web:" actor.

(** ** Queries *)

Definition is_act (e : StoredEvent) : bool := String.eqb (f_kind (e_facts e)) "act".
(** [WHERE kind = 'act' AND event_id = ?] *)
Definition act_event (d : TaskDb) (id : string) : option StoredEvent :=
  e ← events_of d !! id; if is_act e then Some e else None.
Definition act_task (d : TaskDb) (act_id : string) : option ActTask := act_actions d !! act_id.
Definition act_task_is_on_file (d : TaskDb) (act_id : string) : bool := is_some (act_event d act_id).
Definition act_task_origin (d : TaskDb) (act_id : string) : option string := (fun e => default "" (e_origin e)) <$> act_event d act_id.
Definition act_task_venue (d : TaskDb) (act_id : string) : option string := (fun e => f_venue (e_facts e)) <$> act_event d act_id.

(** [ConfirmState::from_column]: an empty column reads as confirmed. *)
Definition confirm_of (e : StoredEvent) : ConfirmState := default Confirmed (e_confirm e).
Definition is_unconfirmed (e : StoredEvent) : bool := match confirm_of e with Unconfirmed => true | _ => false end.
Definition is_confirmed (e : StoredEvent) : bool := match confirm_of e with Confirmed => true | _ => false end.
Definition act_event_is_unconfirmed (d : TaskDb) (id : string) : bool :=
  match act_event d id with Some e => is_unconfirmed e | None => false end.

(** The rows of a task's events. *)
Definition about (act_id : string) (e : StoredEvent) : bool :=
  String.eqb (f_event_id (e_facts e)) act_id || bool_decide (f_subject (e_facts e) = Some act_id).
Definition event_le (a b : StoredEvent) : Prop :=
  e_timestamp a < e_timestamp b
  \/ (e_timestamp a = e_timestamp b /\ String.leb (f_event_id (e_facts a)) (f_event_id (e_facts b)) = true).
#[export] Instance event_le_dec : RelDecision event_le.
Proof. intros a b. unfold event_le. apply _. Defined.
Definition act_rows (d : TaskDb) : list StoredEvent := List.filter is_act (map snd (map_to_list (events_of d))).
Definition act_task_events (d : TaskDb) (act_id : string) : list StoredEvent :=
  merge_sort event_le (List.filter (about act_id) (act_rows d)).

Section Log.
Context {P : Primitives} {B64 : Base64} {J : JsonText} {CF : CaseFold} {HO : HashOrder}.
Variable sp : Spec.
Notation derive_act_view := (derive_act_view (sp_revival_tag sp)).

Definition opener_str (k : string) (d : TaskDb) (act_id : string) : option string :=
  e ← act_event d act_id; doc ← json_from_str (e_canonical e); get_str k doc.
Definition act_task_title (d : TaskDb) (act_id : string) : option string := opener_str "act-title" d act_id.
Definition act_task_home (d : TaskDb) (act_id : string) : option string := opener_str "act-home" d act_id.
Definition act_task_bid_deadline (d : TaskDb) (act_id : string) : option Z := opener_str "act-bid-deadline" d act_id ≫= parse_i64.

Definition act_bid_author (d : TaskDb) (act_id event_id : string) : option string :=
  e ← List.find (fun e => String.eqb (f_event_id (e_facts e)) event_id) (act_task_events d act_id);
  view ← derive_act_view (e_canonical e);
  if String.eqb (v_verb view) BID_VERB then f_actor_did (e_facts e) else None.

(** Rows of rulings on a task by one signer. *)
Definition by_signer (act_id did : string) (e : StoredEvent) : bool :=
  bool_decide (f_subject (e_facts e) = Some act_id) && bool_decide (f_actor_did (e_facts e) = Some did).
Definition own_rulings (d : TaskDb) (act_id did : string) : list ActView :=
  List.filter (fun v => is_ruling sp (v_verb v))
    (omap (fun e => derive_act_view (e_canonical e)) (List.filter (by_signer act_id did) (act_rows d))).
Definition seq_of (v : ActView) : option Z := (v_fields v !! "act-seq") ≫= parse_u64.
Definition own_rulings_on (d : TaskDb) (act_id did : string) : Z :=
  let rulings := own_rulings d act_id did in
  Z.max (fold_left Z.max (omap seq_of rulings) 0) (Z.of_nat (List.length rulings)).

Definition acted_on (e : StoredEvent) : bool :=
  match e_confirm e with None | Some Confirmed => true | _ => false end.
(** The first row found; which one is SQLite's choice. *)
Definition conflicting_ruling (d : TaskDb) (ev : ActEvent) (seq : string) : option string :=
  (fun e => f_event_id (e_facts e)) <$>
  List.find (fun e => match derive_act_view (e_canonical e) with
                      | Some v => bool_decide (v_fields v !! "act-seq" = Some seq)
                      | None => false
                      end)
    (List.filter (fun e => by_signer (ae_act_id ev) (ae_actor ev) e && negb (String.eqb (f_event_id (e_facts e)) (ae_event_id ev))
                           && acted_on e) (act_rows d)).

(** ** The view *)

Definition act_context (ev : ActEvent) (confirm : option ConfirmState) : EventContext := mkContext Valid (ae_origin ev) confirm.
Definition act_record (ev : ActEvent) (confirm : option ConfirmState) : EventRecord :=
  mkRecord (Document (ae_canonical ev)) (ae_signature ev) (act_context ev confirm) (ae_timestamp ev).
Definition file (ev : ActEvent) (confirm : option ConfirmState) (d : TaskDb) : option TaskDb :=
  let '(l, written) := insert_event (act_record ev confirm) (log d) in if written then Some (set_log l d) else None.

(** Who a step assigns. *)
Definition assignee_named (kind verb was actor : string) (fields : gmap string string) (named : option string) : option string :=
  match assignee_source sp kind verb was with
  | Actor => Some actor
  | AuthorOf _ => named
  | Field name => fields !! name
  end.
Definition opened_row (ev : ActEvent) (view : ActView) (kind landed : string) (dropped : Z) : ActTask :=
  mkActTask (ae_act_id ev) kind (ae_venue ev) (default "" (ae_origin ev)) landed (ae_actor ev) (v_to view) None (v_caps view)
    (v_deadline view) (v_replaces view) (ae_timestamp ev) dropped.
Definition moved_row (landed : string) (assignee : option string) (at_ : Z) (t : ActTask) : ActTask :=
  mkActTask (at_act_id t) (at_kind t) (at_venue t) (at_origin t) landed (at_offerer t) (at_offeree t)
    (match at_assignee t with Some a => Some a | None => if String.eqb landed "assigned" then assignee else None end)
    (at_caps t) (at_deadline t) (at_replaces t) at_ (at_dropped t).
Definition materialize_act (ev : ActEvent) (view : ActView) (kind : string) (was : option string) (landed : string)
    (named : option string) (d : TaskDb) : TaskDb :=
  if is_terminal sp kind landed then set_actions (delete (ae_act_id ev) (act_actions d)) d
  else if ae_opens ev then
    set_actions (<[ae_act_id ev := opened_row ev view kind landed (default 0 (at_dropped <$> act_task d (ae_act_id ev)))]> (act_actions d)) d
  else
    set_actions (alter (moved_row landed (assignee_named kind (v_verb view) (default "" was) (ae_actor ev) (v_fields view) named)
                          (ae_timestamp ev)) (ae_act_id ev) (act_actions d)) d.
Definition bump_act_dropped_unchecked (act_id : string) (d : TaskDb) : TaskDb :=
  set_actions (alter (fun t => mkActTask (at_act_id t) (at_kind t) (at_venue t) (at_origin t) (at_state t) (at_offerer t) (at_offeree t)
    (at_assignee t) (at_caps t) (at_deadline t) (at_replaces t) (at_updated t) (at_dropped t + 1)) act_id (act_actions d)) d.

(** What the checker is asked. *)
Definition checked_task (t : ActTask) (bid_deadline : option Z) : Task :=
  mkTask (at_kind t) (at_state t) (at_offerer t) (at_offeree t) (at_assignee t) (at_deadline t) bid_deadline.
Definition present (view : ActView) : list string := map fst (btree_iter (v_fields view)).
Definition asked (view : ActView) (msgid : string) : Event := mkEvent (v_verb view) msgid (v_fields view !! "act-accepts") (present view).
Definition accepted_bid (d : TaskDb) (act_id : string) (view : ActView) : option string :=
  named ← v_fields view !! "act-accepts"; act_bid_author d act_id named.
Definition check_move (d : TaskDb) (act_id : string) (t : ActTask) (view : ActView) (msgid actor : string) (is_system : bool)
    : result string Refusal :=
  check sp (checked_task t (act_task_bid_deadline d act_id)) (asked view msgid)
    (mkSender actor is_system (accepted_bid d act_id view)).

(** ** Receipts *)

Definition set_confirm (c : ConfirmState) (e : StoredEvent) : StoredEvent :=
  mkStoredEvent (e_canonical e) (e_signature e) (e_sig_state e) (e_facts e) (e_origin e) (Some c) (e_conflict e) (e_timestamp e).
Definition on_log (f : gmap string StoredEvent -> gmap string StoredEvent) (d : TaskDb) : TaskDb :=
  set_log (set_events (f (events_of d)) (log d)) d.
Definition confirm_act_event (id : string) (d : TaskDb) : TaskDb :=
  on_log (alter (fun e => if is_act e then set_confirm Confirmed e else e) id) d.

(** Whether an event still waiting is a move the rules admit. *)
Definition still_legal (d : TaskDb) (act_id : string) (e : StoredEvent) (view : ActView) : bool :=
  let actor := default "" (f_actor_did (e_facts e)) in
  match act_task d act_id with
  | Some t => match check_move d act_id t view (f_event_id (e_facts e)) actor (is_system_actor actor) with Ok _ => true | Err _ => false end
  | None => false
  end.
(** The loser of a race, once the winner is ruled in. *)
Definition outrun (d : TaskDb) (act_id keep : string) (e : StoredEvent) : bool :=
  is_act e && bool_decide (f_subject (e_facts e) = Some act_id)
  && match e_confirm e with Some Unconfirmed => true | _ => false end
  && negb (String.eqb (f_event_id (e_facts e)) keep)
  && match derive_act_view (e_canonical e) with Some view => negb (still_legal d act_id e view) | None => false end.
Definition supersede_refused_act_events (act_id keep : string) (d : TaskDb) : TaskDb :=
  on_log (fmap (fun e => if outrun d act_id keep e then set_confirm Superseded e else e)) d.

Definition apply_confirmed_event (d : TaskDb) (act_id : string) (named : StoredEvent) : result (TaskDb * string) Refusal :=
  match derive_act_view (e_canonical named) with
  | None => Err UnknownVerb
  | Some view =>
      match act_task d act_id with
      | None => Err TerminalTask
      | Some t =>
          let actor := default "" (f_actor_did (e_facts named)) in
          match check_move d act_id t view (f_event_id (e_facts named)) actor (is_system_actor actor) with
          | Err r => Err r
          | Ok landed =>
              let confirmed := mkActEvent (e_canonical named) (e_signature named) (f_event_id (e_facts named)) act_id false
                                 (f_venue (e_facts named)) actor (is_system_actor actor) false (e_origin named) (e_timestamp named) in
              Ok (materialize_act confirmed view (at_kind t) (Some (at_state t)) landed (accepted_bid d act_id view) d, landed)
          end
      end
  end.

(** ** The critical section *)

Definition apply_receipt (ev : ActEvent) (view : ActView) (d : TaskDb) : TaskDb * ActWrite :=
  if negb (ae_from_system ev) then (d, RefusedWrite ClientConfirm)
  else
    let subject := default "" (v_fields view !! cf_subject (sp_confirmation sp)) in
    match act_task_origin d (ae_act_id ev) with
    | None => (d, ReceiptBeforeSubject)
    | Some home =>
        let from_home := ae_by_referee ev || match ae_origin ev with None => is_empty home | Some peer => String.eqb home peer end in
        if negb from_home then
          match file ev (Some Ignored) d with Some d' => (d', ReceiptIgnored) | None => (d, Duplicate) end
        else
          match act_event d subject with
          | None => (d, ReceiptBeforeSubject)
          | Some named =>
              match file ev None d with
              | None => (d, Duplicate)
              | Some d' =>
                  if negb (act_event_is_unconfirmed d subject) then (d', Recorded)
                  else match apply_confirmed_event d' (ae_act_id ev) named with
                       | Err r => (d', ReceiptRefused r)
                       | Ok (d'', landed) =>
                           (supersede_refused_act_events (ae_act_id ev) subject (confirm_act_event subject d''), ConfirmedWrite landed)
                       end
              end
          end
    end.

(** The revival relation. *)
Definition revival_refusal (d : TaskDb) (ev : ActEvent) (view : ActView) : option Refusal :=
  match v_replaces view with
  | None => None
  | Some named =>
      let predecessor := if is_some (act_task d named) then PLive else if act_task_is_on_file d named then PFinished else PUnknown in
      match check_revival (ae_opens ev) named predecessor with Ok _ => None | Err r => Some r end
  end.

(** File a move the rules took, and follow it. *)
Definition take_move (ev : ActEvent) (view : ActView) (kind : string) (was : option string) (landed : string) (named : option string)
    (d : TaskDb) : TaskDb * ActWrite :=
  match file ev (Some Confirmed) d with
  | None => (d, Duplicate)
  | Some d' =>
      (supersede_refused_act_events (ae_act_id ev) (ae_event_id ev) (materialize_act ev view kind was landed named d'),
       Filed was landed)
  end.

(** Whether the event came over the link of the server that referees the task. *)
Definition from_home (ev : ActEvent) (t : ActTask) : bool :=
  ae_by_referee ev || (negb (is_empty (at_origin t)) && bool_decide (ae_origin ev = Some (at_origin t))).
Definition apply_step (ev : ActEvent) (view : ActView) (d : TaskDb) : TaskDb * ActWrite :=
  match act_task d (ae_act_id ev) with
  | None => (d, if act_task_is_on_file d (ae_act_id ev) then RefusedWrite TerminalTask else UnknownTask)
  | Some t =>
      if negb (String.eqb (at_venue t) (ae_venue ev)) then (d, WrongVenue)
      else if negb (is_empty (at_origin t)) && negb (from_home ev t && ae_from_system ev)
              && bool_decide (is_additive sp (at_kind t) (v_verb view) = Some false)
      then match file ev (Some Unconfirmed) d with Some d' => (d', StoredNotApplied) | None => (d, Duplicate) end
      else
        let is_system := ae_from_system ev && (negb (is_some (ae_origin ev)) || from_home ev t) in
        match check_move d (ae_act_id ev) t view (ae_event_id ev) (ae_actor ev) is_system with
        | Err r => (d, RefusedWrite r)
        | Ok landed => take_move ev view (at_kind t) (Some (at_state t)) landed (accepted_bid d (ae_act_id ev) view) d
        end
  end.

Definition apply_act_event (ev : ActEvent) (d : TaskDb) : TaskDb * ActWrite :=
  match derive_act_view (ae_canonical ev) with
  | None => (d, NotATaskEvent)
  | Some view =>
      match if is_ruling sp (v_verb view) then (v_fields view !! "act-seq") ≫= conflicting_ruling d ev else None with
      | Some with_ => (d, Conflict with_)
      | None =>
          if is_confirmation sp (v_verb view) then apply_receipt ev view d
          else match revival_refusal d ev view with
               | Some r => (d, RefusedWrite r)
               | None =>
                   if ae_opens ev then
                     match check_open sp (v_kind view) (v_verb view) (is_some (v_to view)) false with
                     | Err r => (d, RefusedWrite r)
                     | Ok landed => take_move ev view (v_kind view) None landed None d
                     end
                   else apply_step ev view d
               end
      end
  end.

(** ** The clocks *)

Definition idle_le (a b : ActTask) : Prop := at_updated a <= at_updated b.
#[export] Instance idle_le_dec : RelDecision idle_le.
Proof. intros a b. unfold idle_le. apply _. Defined.
Definition act_tasks_idle (states : list string) (within : bool) (cutoff : Z) (limit : nat) (d : TaskDb) : list ActTask :=
  take limit (merge_sort idle_le (List.filter (fun t =>
    (at_updated t <? cutoff) && is_empty (at_origin t) && Bool.eqb (str_mem (at_state t) states) within)
    (map snd (map_to_list (act_actions d))))).
Definition act_tasks_idle_in_states (states : list string) := act_tasks_idle states true.
Definition act_tasks_idle_outside_states (states : list string) := act_tasks_idle states false.

(** ** Rebuilding *)

Record Rebuild := mkRebuild { rb_live : gmap string ActTask; rb_bids : gmap (string * string) string; rb_cutoffs : gmap string Z }.
Definition rebuild_step (r : Rebuild) (e : StoredEvent) : Rebuild :=
  match derive_act_view (e_canonical e) with
  | None => r
  | Some view =>
      if is_confirmation sp (v_verb view) then r
      else
        let f := e_facts e in
        let act_id := default (f_event_id f) (f_subject f) in
        let actor := default "" (f_actor_did f) in
        let opens := negb (is_some (f_subject f)) in
        let named := (v_fields view !! "act-accepts") ≫= fun id => rb_bids r !! (act_id, id) in
        match (if opens then
                 match check_open sp (v_kind view) (v_verb view) (is_some (v_to view)) false with
                 | Ok landed => Some (v_kind view, None, landed)
                 | Err _ => None
                 end
               else
                 t ← rb_live r !! act_id;
                 if negb (is_empty (at_origin t)) && negb (is_confirmed e) then None
                 else match check sp (checked_task t (rb_cutoffs r !! act_id)) (asked view (f_event_id f))
                              (mkSender actor (is_system_actor actor) named) with
                      | Ok landed => Some (at_kind t, Some (at_state t), landed)
                      | Err _ => None
                      end) with
        | None => r
        | Some (kind, was, landed) =>
            let bids := if String.eqb (v_verb view) BID_VERB then <[(act_id, f_event_id f) := actor]> (rb_bids r) else rb_bids r in
            if is_terminal sp kind landed then mkRebuild (delete act_id (rb_live r)) bids (rb_cutoffs r)
            else if opens then
              mkRebuild (<[act_id := mkActTask act_id kind (f_venue f) (default "" (e_origin e)) landed actor (v_to view) None
                             (v_caps view) (v_deadline view) (v_replaces view) (e_timestamp e) 0]> (rb_live r)) bids
                (match (v_fields view !! "act-bid-deadline") ≫= parse_i64 with
                 | Some c => <[act_id := c]> (rb_cutoffs r)
                 | None => rb_cutoffs r
                 end)
            else
              mkRebuild (alter (moved_row landed (assignee_named kind (v_verb view) (default "" was) actor (v_fields view) named)
                                  (e_timestamp e)) act_id (rb_live r)) bids (rb_cutoffs r)
        end
  end.
(** Mint order, each task's opener ahead of its follow-ups. *)
Definition rebuild_key (e : StoredEvent) : string * bool * string :=
  (default (f_event_id (e_facts e)) (f_subject (e_facts e)), is_some (f_subject (e_facts e)), f_event_id (e_facts e)).
Definition rebuild_le (a b : StoredEvent) : Prop :=
  let '(ta, fa, ia) := rebuild_key a in
  let '(tb, fb, ib) := rebuild_key b in
  (if String.eqb ta tb then if Bool.eqb fa fb then String.leb ia ib else fb else String.leb ta tb) = true.
#[export] Instance rebuild_le_dec : RelDecision rebuild_le.
Proof. intros a b. unfold rebuild_le. destruct (rebuild_key a) as [[? ?] ?], (rebuild_key b) as [[? ?] ?]. apply _. Defined.
Definition rebuild_act_actions (d : TaskDb) : gmap string ActTask :=
  rb_live (fold_left rebuild_step (merge_sort rebuild_le (act_rows d)) (mkRebuild ∅ ∅ ∅)).
End Log.
