(* ===== verification/TaskLogSpec.v ===== *)
(** * What holds of the task log

    Theorems about TaskLog: whatever is filed in whatever order, every live task
    has its opener on file, says what that opener says, and stands in a state
    its rules lead to; a task another server opened changes state by that
    server's word only; of two claims one wins; what is refused leaves no
    trace. *)
From stdpp Require Import base gmap strings list pretty fin_maps sorting.
From Stdlib Require Import ZArith Lia Ascii String.
From S2P Require Import Prelude Text Ulid Primitives SignedDocs MessageStore TaskDocs ActTransitions TaskLog.
Open Scope string_scope.
Open Scope list_scope.
Open Scope Z_scope.

Section Spec.
Context {P : Primitives} {B64 : Base64} {J : JsonText} {CF : CaseFold} {HO : HashOrder}.
Variable sp : Spec.
Notation derive_act_view := (derive_act_view (sp_revival_tag sp)).

(** ** The log keeps what it has *)

(** What an event is; whether it is ruled on may change, and that another
    claims its id may come to be noted. *)
Definition same_act (e e' : StoredEvent) : Prop :=
  e_canonical e' = e_canonical e /\ e_signature e' = e_signature e /\ e_sig_state e' = e_sig_state e
  /\ e_facts e' = e_facts e /\ e_origin e' = e_origin e /\ e_timestamp e' = e_timestamp e
  /\ (is_Some (e_conflict e) -> e_conflict e' = e_conflict e).
Definition log_keeps (d d' : TaskDb) : Prop :=
  forall id e, events_of d !! id = Some e -> exists e', events_of d' !! id = Some e' /\ same_act e e'.
Lemma same_act_refl e : same_act e e.
Proof. repeat split. Qed.
Lemma same_act_trans a b c : same_act a b -> same_act b c -> same_act a c.
Proof.
  intros (A1 & A2 & A3 & A4 & A5 & A6 & A7) (B1 & B2 & B3 & B4 & B5 & B6 & B7). repeat split; try congruence.
  intros H. rewrite B7, A7; [done..|]. by rewrite A7.
Qed.
Lemma keeps_refl d : log_keeps d d.
Proof. intros id e H. eauto using same_act_refl. Qed.
Lemma keeps_trans a b c : log_keeps a b -> log_keeps b c -> log_keeps a c.
Proof.
  intros H1 H2 id e H. destruct (H1 id e H) as (e1 & E1 & S1). destruct (H2 id e1 E1) as (e2 & E2 & S2). eauto using same_act_trans.
Qed.
Lemma keeps_events d d' : events_of d' = events_of d -> log_keeps d d'.
Proof. intros E id e H. rewrite E. eauto using same_act_refl. Qed.
Lemma keeps_grows d d' : log_grows (log d) (log d') -> log_keeps d d'.
Proof.
  intros H id e He. destruct (H id e He) as (e' & E & (H1 & H2 & H3 & H4 & H5 & _ & H7 & H8)). exists e'. split; [done|]. repeat split; done.
Qed.
Lemma keeps_alter d f id : (forall e, same_act e (f e)) -> log_keeps d (on_log (alter f id) d).
Proof.
  intros Hf k e He. cbn. rewrite lookup_alter. case_decide as E; [subst|exists e; split; [done|apply same_act_refl]].
  fold (events_of d). rewrite He. cbn. eauto.
Qed.
Lemma keeps_fmap d f : (forall e, same_act e (f e)) -> log_keeps d (on_log (fmap f) d).
Proof. intros Hf k e He. cbn. rewrite lookup_fmap. fold (events_of d). rewrite He. cbn. eauto. Qed.
Lemma confirm_keeps id d : log_keeps d (confirm_act_event id d).
Proof. apply keeps_alter. intros e. destruct (is_act e); repeat split. Qed.
Lemma supersede_keeps act_id keep d : log_keeps d (supersede_refused_act_events sp act_id keep d).
Proof. apply keeps_fmap. intros e. destruct (outrun _ _ _ _ _); repeat split. Qed.
Lemma file_keeps ev c d d' : file ev c d = Some d' -> log_keeps d d'.
Proof.
  unfold file. pose proof (insert_event_log (act_record ev c) (log d)) as [_ Hg]. destruct (insert_event _ _) as [l []]; [|done].
  intros [= <-]. by apply keeps_grows.
Qed.

(** The event that was filed. *)
Lemma file_spec ev c d d' : file ev c d = Some d' ->
  exists f, derive_facts (ae_canonical ev) = Some f /\ events_of d !! f_event_id f = None
    /\ act_actions d' = act_actions d
    /\ exists e, events_of d' = <[f_event_id f := e]> (events_of d) /\ e_canonical e = ae_canonical ev /\ e_signature e = ae_signature ev /\ e_facts e = f
         /\ e_origin e = ae_origin ev /\ e_confirm e = c /\ e_timestamp e = ae_timestamp ev.
Proof.
  unfold file, insert_event, act_record. cbn [r_shape r_signature r_ctx r_timestamp].
  destruct (derive_facts (ae_canonical ev)) as [f|] eqn:Ef; [|done]. cbn. fold (events_of d).
  destruct (events_of d !! f_event_id f) eqn:E; [done|]. intros [= <-]. exists f. split; [done|]. split; [done|]. split; [done|].
  eexists. split; [reflexivity|]. cbn. done.
Qed.

(** ** The invariant *)

(** What the caller of [apply_act_event] has made of the bytes. *)
Definition reads_as (ev : ActEvent) : Prop :=
  forall f, derive_facts (ae_canonical ev) = Some f ->
    f_kind f = "act" /\ f_event_id f = ae_event_id ev /\ f_venue f = ae_venue ev /\ f_actor_did f = Some (ae_actor ev)
    /\ (if ae_opens ev then f_subject f = None /\ ae_act_id ev = ae_event_id ev else default "" (f_subject f) = ae_act_id ev).

(** A live task has its opener on file and is what the opener says; its state
    is one the rules lead to, and not an end. *)
Record row_ok (d : TaskDb) (id : string) (t : ActTask) : Prop := {
  ro_id : at_act_id t = id;
  ro_live : is_terminal sp (at_kind t) (at_state t) = false;
  ro_reachable : reachable sp (checked_task t (act_task_bid_deadline d id));
  ro_opener : exists e view, events_of d !! id = Some e /\ is_act e = true /\ derive_act_view (e_canonical e) = Some view
    /\ f_event_id (e_facts e) = id /\ f_subject (e_facts e) = None
    /\ at_kind t = v_kind view /\ at_venue t = f_venue (e_facts e) /\ Some (at_offerer t) = f_actor_did (e_facts e)
    /\ at_origin t = default "" (e_origin e) /\ at_offeree t = v_to view /\ at_deadline t = v_deadline view
    /\ at_caps t = v_caps view /\ at_replaces t = v_replaces view
}.
Definition tasks_ok (d : TaskDb) : Prop := map_Forall (row_ok d) (act_actions d).

Lemma act_event_keeps d d' id e : log_keeps d d' -> act_event d id = Some e -> exists e', act_event d' id = Some e' /\ same_act e e'.
Proof.
  intros H. unfold act_event. destruct (events_of d !! id) as [e0|] eqn:E; [|done]. cbn. destruct (is_act e0) eqn:Ea; [|done].
  intros [= <-]. destruct (H _ _ E) as (e' & E' & S). exists e'. rewrite E'. cbn. unfold is_act in *. pose proof S as (_ & _ & _ & -> & _).
  by rewrite Ea.
Qed.
Lemma opener_str_keeps k d d' id e : log_keeps d d' -> act_event d id = Some e -> opener_str k d' id = opener_str k d id.
Proof.
  intros H E. destruct (act_event_keeps _ _ _ _ H E) as (e' & E' & (S & _)). unfold opener_str. rewrite E, E'. cbn. by rewrite S.
Qed.
Lemma bid_deadline_keeps d d' id e : log_keeps d d' -> act_event d id = Some e -> act_task_bid_deadline d' id = act_task_bid_deadline d id.
Proof. intros H E. unfold act_task_bid_deadline. by rewrite (opener_str_keeps _ _ _ _ _ H E). Qed.

Lemma row_act_event d id t : row_ok d id t -> exists e, act_event d id = Some e.
Proof. intros [_ _ _ (e & v & E & Ha & _)]. exists e. unfold act_event. rewrite E. cbn. by rewrite Ha. Qed.

Lemma row_ok_keeps d d' id t : log_keeps d d' -> row_ok d id t -> row_ok d' id t.
Proof.
  intros H Hr. destruct (row_act_event _ _ _ Hr) as (e0 & E0). destruct Hr as [H1 H2 H3 (e & v & E & Ha & Hv & Hrest)]. split; [done..| |].
  - by rewrite (bid_deadline_keeps _ _ _ _ H E0).
  - destruct (H _ _ E) as (e' & E' & (S1 & _ & _ & S2 & S3 & _)). exists e', v. unfold is_act in *. by rewrite S1, S2, S3.
Qed.
Lemma tasks_ok_keeps d d' : log_keeps d d' -> act_actions d' = act_actions d -> tasks_ok d -> tasks_ok d'.
Proof. intros H E Hok id t Ht. rewrite E in Ht. eapply row_ok_keeps; [done|]. by apply Hok. Qed.

(** A move of a row the rules take. *)
Lemma moved_row_step d act_id t view msgid actor sys landed ts :
  check_move sp d act_id t view msgid actor sys = Ok landed ->
  act_step sp (checked_task t (act_task_bid_deadline d act_id))
    (checked_task (moved_row landed (assignee_named sp (at_kind t) (v_verb view) (at_state t) actor (v_fields view)
                                       (accepted_bid sp d act_id view)) ts t) (act_task_bid_deadline d act_id)).
Proof.
  intros H. exists (asked view msgid), (mkSender actor sys (accepted_bid sp d act_id view)), (fun n => v_fields view !! n), landed.
  split; [exact H|]. unfold advance, checked_task, moved_row, assignee_for, assignee_named. cbn. f_equal.
Qed.

Lemma materialize_move_ok ev view t landed d d0 :
  tasks_ok d -> act_task d (ae_act_id ev) = Some t -> ae_opens ev = false ->
  act_task_bid_deadline d (ae_act_id ev) = act_task_bid_deadline d0 (ae_act_id ev) ->
  (exists msgid sys, check_move sp d0 (ae_act_id ev) t view msgid (ae_actor ev) sys = Ok landed) ->
  tasks_ok (materialize_act sp ev view (at_kind t) (Some (at_state t)) landed (accepted_bid sp d0 (ae_act_id ev) view) d).
Proof.
  intros Hok Ht Ho Hb (msgid & sys & Hc). unfold materialize_act. destruct (is_terminal sp (at_kind t) landed) eqn:Et.
  - intros id t' Hd. cbn in Hd. apply lookup_delete_Some in Hd as [_ Hd]. eapply row_ok_keeps; [|by apply Hok]. by apply keeps_events.
  - rewrite Ho. intros id t' Hd. cbn in Hd. rewrite lookup_alter in Hd. case_decide as E.
    + subst id. unfold act_task in Ht. rewrite Ht in Hd. cbn in Hd. injection Hd as <-. pose proof (Hok _ _ Ht) as [R1 R2 R3 R4].
      split; [done|done| |].
      * eapply reach_step; [exact R3|]. change (act_task_bid_deadline (set_actions _ d) (ae_act_id ev)) with (act_task_bid_deadline d (ae_act_id ev)).
        rewrite Hb. by eapply moved_row_step.
      * destruct R4 as (e & v & R4). by exists e, v.
    + eapply row_ok_keeps; [|by apply Hok]. by apply keeps_events.
Qed.

Lemma file_reads ev c d d' : reads_as ev -> file ev c d = Some d' ->
  exists e, events_of d !! ae_event_id ev = None /\ act_actions d' = act_actions d /\ log_keeps d d'
    /\ events_of d' !! ae_event_id ev = Some e /\ is_act e = true /\ e_canonical e = ae_canonical ev
    /\ f_event_id (e_facts e) = ae_event_id ev /\ f_venue (e_facts e) = ae_venue ev /\ f_actor_did (e_facts e) = Some (ae_actor ev)
    /\ (if ae_opens ev then f_subject (e_facts e) = None /\ ae_act_id ev = ae_event_id ev else default "" (f_subject (e_facts e)) = ae_act_id ev)
    /\ e_origin e = ae_origin ev /\ e_confirm e = c.
Proof.
  intros Hr Hf. pose proof (file_keeps _ _ _ _ Hf) as Hk. destruct (file_spec _ _ _ _ Hf) as (f & Ef & En & Ea & e & Ee & Hc & _ & Hfa & Ho & Hco & _).
  destruct (Hr f Ef) as (R1 & R2 & R3 & R4 & R5). rewrite R2 in En, Ee. exists e. rewrite Ee, lookup_insert_eq. unfold is_act. rewrite Hfa, R1.
  split_and!; try done. 
Qed.

Lemma opened_row_ok ev view landed dropped d e :
  events_of d !! ae_act_id ev = Some e -> is_act e = true -> e_canonical e = ae_canonical ev ->
  derive_act_view (ae_canonical ev) = Some view -> check_open sp (v_kind view) (v_verb view) (is_some (v_to view)) false = Ok landed ->
  is_terminal sp (v_kind view) landed = false ->
  f_event_id (e_facts e) = ae_act_id ev -> f_subject (e_facts e) = None -> f_venue (e_facts e) = ae_venue ev ->
  f_actor_did (e_facts e) = Some (ae_actor ev) -> e_origin e = ae_origin ev ->
  row_ok d (ae_act_id ev) (opened_row ev view (v_kind view) landed dropped).
Proof.
  intros He Ha Hc Hv Ho Ht H1 H2 H3 H4 H5. split; [done|done| |].
  - by eapply (reach_open _ (v_verb view)).
  - exists e, view. rewrite Hc, H1, H2, H3, H4, H5. done.
Qed.

Lemma take_open_ok ev view landed d d' w :
  reads_as ev -> tasks_ok d -> ae_opens ev = true -> derive_act_view (ae_canonical ev) = Some view ->
  check_open sp (v_kind view) (v_verb view) (is_some (v_to view)) false = Ok landed ->
  take_move sp ev view (v_kind view) None landed None d = (d', w) -> tasks_ok d'.
Proof.
  intros Hr Hok Ho Hv Hc. unfold take_move. destruct (file ev _ d) as [d1|] eqn:Ef; [|by intros [= <- _]]. intros [= <- _].
  destruct (file_reads _ _ _ _ Hr Ef) as (e & _ & Ea & Hk & Ee & Hact & Hcan & F1 & F2 & F3 & F4 & F5 & _). rewrite Ho in F4. destruct F4 as [F4 F6].
  eapply tasks_ok_keeps; [apply supersede_keeps|done|].
  unfold materialize_act. destruct (is_terminal sp (v_kind view) landed) eqn:Et.
  - intros id t Hd. cbn in Hd. apply lookup_delete_Some in Hd as [_ Hd]. rewrite Ea in Hd.
    eapply row_ok_keeps; [|by apply Hok]. eapply keeps_trans; [exact Hk|by apply keeps_events].
  - rewrite Ho. intros id t Hd. cbn in Hd. apply lookup_insert_Some in Hd as [[<- <-]|[_ Hd]].
    + eapply (row_ok_keeps d1); [by apply keeps_events|]. rewrite <- F6 in Ee, F1. by eapply opened_row_ok.
    + rewrite Ea in Hd. eapply row_ok_keeps; [|by apply Hok]. eapply keeps_trans; [exact Hk|by apply keeps_events].
Qed.

Lemma take_step_ok ev view t msgid sys landed d d' w :
  tasks_ok d -> ae_opens ev = false -> act_task d (ae_act_id ev) = Some t ->
  check_move sp d (ae_act_id ev) t view msgid (ae_actor ev) sys = Ok landed ->
  take_move sp ev view (at_kind t) (Some (at_state t)) landed (accepted_bid sp d (ae_act_id ev) view) d = (d', w) -> tasks_ok d'.
Proof.
  intros Hok Ho Ht Hc. unfold take_move. destruct (file ev _ d) as [d1|] eqn:Ef; [|by intros [= <- _]]. intros [= <- _].
  pose proof (file_keeps _ _ _ _ Ef) as Hk. destruct (file_spec _ _ _ _ Ef) as (f & _ & _ & Ea & _).
  eapply tasks_ok_keeps; [apply supersede_keeps|done|]. destruct (row_act_event _ _ _ (Hok _ _ Ht)) as (e0 & E0).
  apply materialize_move_ok; [|unfold act_task in *; by rewrite Ea|done|by eapply bid_deadline_keeps|eauto].
  by eapply tasks_ok_keeps.
Qed.

Lemma file_ok ev c d d' : tasks_ok d -> file ev c d = Some d' -> tasks_ok d'.
Proof.
  intros Hok Hf. destruct (file_spec _ _ _ _ Hf) as (f & _ & _ & Ea & _). eapply tasks_ok_keeps; [by eapply file_keeps|done|done].
Qed.

Lemma apply_confirmed_ok d act_id named d' landed :
  tasks_ok d -> apply_confirmed_event sp d act_id named = Ok (d', landed) -> tasks_ok d' /\ log_keeps d d'.
Proof.
  intros Hok. unfold apply_confirmed_event. destruct (derive_act_view _) as [view|]; [|done]. destruct (act_task d act_id) as [t|] eqn:Et; [|done].
  destruct (check_move _ _ _ _ _ _ _ _) as [l|] eqn:Ec; [|done]. intros [= <- <-]. split.
  - set (ev := mkActEvent _ _ _ _ _ _ _ _ _ _ _). apply (materialize_move_ok ev view t l d d); [done|done|done|done|eauto].
  - apply keeps_events. unfold materialize_act. destruct (is_terminal _ _ _); [done|]. done.
Qed.

Lemma apply_receipt_ok ev view d d' w : tasks_ok d -> apply_receipt sp ev view d = (d', w) -> tasks_ok d' /\ log_keeps d d'.
Proof.
  intros Hok. unfold apply_receipt. destruct (ae_from_system ev); cbn [negb]; [|intros [= <- _]; eauto using keeps_refl].
  destruct (act_task_origin _ _) as [home|]; [|intros [= <- _]; eauto using keeps_refl].
  destruct (_ || _); cbn [negb].
  - destruct (act_event d _) as [named|]; [|intros [= <- _]; eauto using keeps_refl].
    destruct (file ev None d) as [d1|] eqn:Ef; [|intros [= <- _]; eauto using keeps_refl].
    pose proof (file_ok _ _ _ _ Hok Ef) as H1. pose proof (file_keeps _ _ _ _ Ef) as K1.
    destruct (act_event_is_unconfirmed _ _); cbn [negb]; [|by intros [= <- _]].
    destruct (apply_confirmed_event _ _ _ _) as [[d2 l]|] eqn:Ea; [|by intros [= <- _]]. intros [= <- _].
    destruct (apply_confirmed_ok _ _ _ _ _ H1 Ea) as [H2 K2]. split.
    + eapply tasks_ok_keeps; [apply supersede_keeps|done|]. by eapply tasks_ok_keeps; [apply confirm_keeps| |].
    + eapply keeps_trans; [exact K1|]. eapply keeps_trans; [exact K2|]. eapply keeps_trans; [apply confirm_keeps|apply supersede_keeps].
  - destruct (file ev _ d) as [d1|] eqn:Ef; intros [= <- _]; [|eauto using keeps_refl].
    split; [by eapply file_ok|by eapply file_keeps].
Qed.

Lemma apply_act_event_ok ev d d' w : reads_as ev -> tasks_ok d -> apply_act_event sp ev d = (d', w) -> tasks_ok d'.
Proof.
  intros Hr Hok. unfold apply_act_event. destruct (derive_act_view _) as [view|] eqn:Ev; [|by intros [= <- _]].
  destruct (if is_ruling _ _ then _ else _); [by intros [= <- _]|]. destruct (is_confirmation _ _).
  { intros H. by apply apply_receipt_ok in H as [H _]. }
  destruct (revival_refusal _ _ _); [by intros [= <- _]|]. destruct (ae_opens ev) eqn:Eo.
  - destruct (check_open _ _ _ _ _) eqn:Ec; [|by intros [= <- _]]. by eapply take_open_ok.
  - unfold apply_step. destruct (act_task d (ae_act_id ev)) as [t|] eqn:Et; [|by intros [= <- _]].
    destruct (negb _); [by intros [= <- _]|]. destruct (_ && bool_decide _).
    + destruct (file ev _ d) as [d1|] eqn:Ef; intros [= <- _]; [by eapply file_ok|done].
    + destruct (check_move _ _ _ _ _ _ _ _) eqn:Ec; [|by intros [= <- _]]. by eapply take_step_ok.
Qed.

(** ** Every history *)

(** What is done to the tables: a task event, any statement of the message
    commands, or the note that an event was thrown away unchecked. *)
Inductive task_op := TAct (ev : ActEvent) | TStore (o : store_op) | TDropped (act_id : string).
Definition task_step (d : TaskDb) (o : task_op) : TaskDb :=
  match o with
  | TAct ev => (apply_act_event sp ev d).1
  | TStore o => set_log (store_step (log d) o) d
  | TDropped act_id => bump_act_dropped_unchecked act_id d
  end.
Definition op_reads (o : task_op) : Prop := match o with TAct ev => reads_as ev | _ => True end.
Definition no_tasks_yet : TaskDb := mkTaskDb empty_db ∅.

Lemma dropped_ok act_id d : tasks_ok d -> tasks_ok (bump_act_dropped_unchecked act_id d).
Proof.
  intros Hok id t Ht. cbn in Ht. rewrite lookup_alter in Ht. case_decide as E; [|eapply row_ok_keeps; [|by apply Hok]; by apply keeps_events].
  subst. destruct (act_actions d !! id) as [t0|] eqn:Et; [|done]. cbn in Ht. injection Ht as <-.
  destruct (Hok _ _ Et) as [R1 R2 R3 R4]. by split.
Qed.
Lemma task_step_ok d o : op_reads o -> tasks_ok d -> tasks_ok (task_step d o).
Proof.
  intros Hr Hok. destruct o as [ev|o|act_id]; cbn in *.
  - destruct (apply_act_event sp ev d) as [d' w] eqn:E. by eapply apply_act_event_ok.
  - apply (tasks_ok_keeps d); [|done|done]. apply keeps_grows, store_step_log.
  - by apply dropped_ok.
Qed.
Lemma tasks_run_ok ops : Forall op_reads ops -> tasks_ok (fold_left task_step ops no_tasks_yet).
Proof.
  assert (tasks_ok no_tasks_yet) as H0 by (intros id t; cbn; by rewrite lookup_empty).
  revert H0. generalize no_tasks_yet. induction ops as [|o ops IH]; intros d Hd Ho; [done|].
  inversion Ho; subst. cbn. apply IH; [by apply task_step_ok|done].
Qed.

(** The live tasks follow the rules. Whatever task events, messages and
    losses there are, in whatever order: each live task has its opener on file
    and is what that opener's signed bytes say (kind, conversation, offerer,
    offeree, deadline, where it was opened), stands in a state that is no end
    and that the rules lead to from the opening, and under the shipped rules
    has an assignee exactly when its state says so. *)
Theorem live_tasks_follow_the_rules (ops : list task_op) (id : string) (t : ActTask) :
  Forall op_reads ops ->
  let d := fold_left task_step ops no_tasks_yet in
  act_task d id = Some t ->
  row_ok d id t /\ (sp = shipped -> lifecycle_ok (checked_task t (act_task_bid_deadline d id))).
Proof.
  intros Hr d Ht. pose proof (tasks_run_ok ops Hr id t Ht) as Hrow. split; [exact Hrow|]. intros E. destruct Hrow as [_ _ Hre _].
  rewrite E in Hre. by apply reachable_ok.
Qed.

(** ** Whose word counts *)

Lemma additive_stays t e s landed :
  check sp t e s = Ok landed -> is_additive sp (task_kind t) (ev_verb e) <> Some false -> landed = task_state t.
Proof.
  unfold check, is_additive. destruct (is_confirmation _ _); [done|]. destruct (sp_kinds sp !! task_kind t) as [k|]; [|done]. cbn [ok_or res_bind mbind option_bind].
  destruct (rows_of k (ev_verb e)) as [|r0 rows] eqn:Er; [done|]. destruct (str_mem _ _); [done|].
  destruct (List.find _ (r0 :: rows)) as [r|] eqn:Ef; [|done]. cbn [ok_or res_bind].
  destruct (List.find _ (tr_requires r)); [done|]. destruct (_ && _); [done|]. destruct (negb _); [done|].
  destruct (check_deadlines _ _) as [[]|]; [|done]. cbn [res_bind]. intros [= <-] Ha. apply find_some in Ef as [Hin Hm].
  destruct (forallb _ _) eqn:Eall; [|done]. pose proof (proj1 (forallb_forall _ _) Eall r Hin) as He. cbn in He. unfold from_is_exactly, from_matches in *.
  destruct (tr_from r) as [x|[|y [|]]]; try done.
  - apply andb_true_iff in He as [H1 H2]. apply negb_true_iff in H1. rewrite H1 in Hm. apply String.eqb_eq in H2, Hm. congruence.
  - apply String.eqb_eq in He. cbn in Hm. rewrite orb_false_r in Hm. apply String.eqb_eq in Hm. congruence.
Qed.

(** A task under another id is not touched. *)
Lemma materialize_other ev view kind was landed named d id :
  id <> ae_act_id ev -> act_task (materialize_act sp ev view kind was landed named d) id = act_task d id.
Proof.
  intros H. unfold materialize_act, act_task. destruct (is_terminal _ _ _); cbn; [by rewrite lookup_delete_ne|].
  destruct (ae_opens ev); cbn; [by rewrite lookup_insert_ne|by rewrite lookup_alter_ne].
Qed.
Lemma take_move_other ev view kind was landed named d id :
  id <> ae_act_id ev -> act_task (take_move sp ev view kind was landed named d).1 id = act_task d id.
Proof.
  intros H. unfold take_move. destruct (file ev _ d) as [d1|] eqn:Ef; [|done]. cbn [fst].
  change (act_task (materialize_act sp ev view kind was landed named d1) id = act_task d id).
  rewrite materialize_other by done. destruct (file_spec _ _ _ _ Ef) as (f & _ & _ & Ea & _). unfold act_task. by rewrite Ea.
Qed.
Lemma file_task ev c d d' id : file ev c d = Some d' -> act_task d' id = act_task d id.
Proof. intros Hf. destruct (file_spec _ _ _ _ Hf) as (f & _ & _ & Ea & _). unfold act_task. by rewrite Ea. Qed.

Lemma apply_receipt_task ev view d id :
  act_task (apply_receipt sp ev view d).1 id = act_task d id
  \/ (id = ae_act_id ev /\ ae_from_system ev = true
      /\ exists home, act_task_origin d id = Some home
         /\ (ae_by_referee ev = true \/ match ae_origin ev with None => home = "" | Some peer => home = peer end)).
Proof.
  unfold apply_receipt. destruct (ae_from_system ev); cbn [negb]; [|by left]. destruct (act_task_origin d (ae_act_id ev)) as [home|] eqn:Eh; [|by left].
  destruct (_ || _) eqn:Eb; cbn [negb].
  2: { destruct (file ev _ d) eqn:Ef; [left; by eapply file_task|by left]. }
  destruct (act_event d _) as [named|]; [|by left]. destruct (file ev None d) as [d1|] eqn:Ef; [|by left].
  destruct (act_event_is_unconfirmed _ _); cbn [negb]; [|left; by eapply file_task].
  destruct (apply_confirmed_event _ _ _ _) as [[d2 l]|] eqn:Ea; [|left; by eapply file_task].
  destruct (decide (id = ae_act_id ev)) as [->|Hid].
  - right. split; [done|]. split; [done|]. exists home. split; [done|]. apply orb_true_iff in Eb as [Eb|Eb]; [by left|right].
    destruct (ae_origin ev); [by apply String.eqb_eq|]. by destruct home.
  - left. cbn [fst]. change (act_task d2 id = act_task d id). unfold apply_confirmed_event in Ea.
    destruct (derive_act_view _); [|done]. destruct (act_task d1 _); [|done]. destruct (check_move _ _ _ _ _ _ _ _); [|done].
    injection Ea as <- _. rewrite materialize_other by done. by eapply file_task.
Qed.

Lemma apply_step_task ev view d id t :
  ae_opens ev = false -> act_task d id = Some t -> at_origin t <> "" -> is_terminal sp (at_kind t) (at_state t) = false ->
  (exists t', act_task (apply_step sp ev view d).1 id = Some t' /\ at_state t' = at_state t)
  \/ (ae_from_system ev = true /\ (ae_by_referee ev = true \/ ae_origin ev = Some (at_origin t))).
Proof.
  intros Hop Ht Ho Hlive. unfold apply_step. destruct (act_task d (ae_act_id ev)) as [t0|] eqn:E0; [|left; by exists t].
  destruct (negb (String.eqb _ _)); [left; by exists t|]. destruct (decide (id = ae_act_id ev)) as [->|Hid].
  - rewrite E0 in Ht. injection Ht as ->. destruct (is_empty (at_origin t)) eqn:Ee; [by destruct (at_origin t)|]. cbn [negb andb].
    destruct (from_home ev t && ae_from_system ev) eqn:Eh.
    { right. apply andb_true_iff in Eh as [Eh Es]. split; [done|]. unfold from_home in Eh. apply orb_true_iff in Eh as [Eh|Eh]; [by left|right].
      apply andb_true_iff in Eh as [_ Eh]. by apply bool_decide_eq_true in Eh. }
    left. cbn [negb andb]. case_bool_decide as Had.
    + destruct (file ev _ d) eqn:Ef; cbn [fst]; exists t; [split; [|done]; rewrite (file_task _ _ _ _ _ Ef); exact E0|done].
    + destruct (check_move _ _ _ _ _ _ _ _) as [landed|] eqn:Ec; [|cbn; by exists t].
      pose proof (additive_stays _ _ _ _ Ec Had) as Hst. cbn in Hst. subst landed. unfold take_move.
      destruct (file ev _ d) as [d1|] eqn:Ef; cbn [fst]; [|by exists t].
      exists (moved_row (at_state t) (assignee_named sp (at_kind t) (v_verb view) (at_state t) (ae_actor ev) (v_fields view)
                (accepted_bid sp d (ae_act_id ev) view)) (ae_timestamp ev) t). split; [|done].
      unfold materialize_act. rewrite Hlive, Hop. unfold act_task. cbn. rewrite lookup_alter. case_decide; [|done].
      pose proof (file_task _ _ _ _ (ae_act_id ev) Ef) as Ex. unfold act_task in Ex, E0. by rewrite Ex, E0.
  - left. exists t. split; [|done]. destruct (_ && bool_decide _).
    + destruct (file ev _ d) eqn:Ef; cbn [fst]; [by rewrite (file_task _ _ _ _ _ Ef)|done].
    + destruct (check_move _ _ _ _ _ _ _ _); [|done]. by rewrite take_move_other.
Qed.

Lemma foreign_step ev d d' w id t :
  reads_as ev -> tasks_ok d -> apply_act_event sp ev d = (d', w) -> act_task d id = Some t -> at_origin t <> "" ->
  (exists t', act_task d' id = Some t' /\ at_state t' = at_state t)
  \/ (ae_from_system ev = true /\ (ae_by_referee ev = true \/ ae_origin ev = Some (at_origin t))).
Proof.
  intros Hr Hok H Ht Ho. change d' with (d', w).1. rewrite <- H. clear H d' w. pose proof (Hok _ _ Ht) as Hrow. unfold apply_act_event.
  destruct (derive_act_view _) as [view|]; [|left; by exists t]. destruct (if is_ruling _ _ then _ else _); [left; by exists t|].
  destruct (is_confirmation _ _).
  { destruct (apply_receipt_task ev view d id) as [->|(-> & Hs & home & Hh & Hw)]; [left; by exists t|]. right. split; [done|].
    destruct Hw as [Hw|Hw]; [by left|right]. destruct Hrow as [_ _ _ (e & v & E & Ha & _ & _ & _ & _ & _ & _ & Hor & _)].
    unfold act_task_origin, act_event in Hh. rewrite E in Hh. cbn in Hh. rewrite Ha in Hh. cbn in Hh. injection Hh as Hh. rewrite <- Hh, <- Hor in Hw.
    destruct (ae_origin ev); congruence. }
  destruct (revival_refusal _ _ _); [left; by exists t|]. destruct (ae_opens ev) eqn:Eo; [|by apply apply_step_task; [|done|done|apply Hrow]].
  left. destruct (check_open _ _ _ _ _) as [landed|]; [|by exists t]. exists t. split; [|done].
  destruct (decide (id = ae_act_id ev)) as [->|Hid]; [|by rewrite take_move_other].
  unfold take_move. destruct (file ev _ d) as [d1|] eqn:Ef; [|done]. exfalso.
  destruct (file_reads _ _ _ _ Hr Ef) as (e & En & _ & _ & _ & _ & _ & _ & _ & _ & Hsub & _). rewrite Eo in Hsub. destruct Hsub as [_ Hid].
  destruct Hrow as [_ _ _ (e1 & v & E1 & _)]. rewrite Hid in E1. congruence.
Qed.


(** ** How a row changes *)

(** It stays, goes, is opened under an id that was not on file, or takes one
    legal step. *)
Definition row_moves (d d' : TaskDb) (id : string) : Prop :=
  act_task d' id = act_task d id \/ act_task d' id = None \/ events_of d !! id = None
  \/ exists t t' bd e s, act_task d id = Some t /\ act_task d' id = Some t' /\ at_kind t' = at_kind t
       /\ check sp (checked_task t bd) e s = Ok (at_state t').

Lemma materialize_moves ev view t landed named d d0 id :
  act_task d (ae_act_id ev) = Some t -> ae_opens ev = false ->
  (exists msgid sys, check_move sp d0 (ae_act_id ev) t view msgid (ae_actor ev) sys = Ok landed) ->
  row_moves d (materialize_act sp ev view (at_kind t) (Some (at_state t)) landed named d) id.
Proof.
  intros Ht Ho (msgid & sys & Hc). destruct (decide (id = ae_act_id ev)) as [->|Hid]; [|left; by apply materialize_other].
  unfold materialize_act. destruct (is_terminal _ _ _); [right; left; unfold act_task; cbn; by rewrite lookup_delete_eq|]. rewrite Ho.
  right. right. right.
  exists t, (moved_row landed (assignee_named sp (at_kind t) (v_verb view) (at_state t) (ae_actor ev) (v_fields view) named) (ae_timestamp ev) t).
  eexists _, _, _. split; [done|]. split.
  { unfold act_task. cbn. rewrite lookup_alter. case_decide; [|done]. unfold act_task in Ht. by rewrite Ht. }
  split; [done|]. exact Hc.
Qed.
Lemma row_moves_from d d1 d' id :
  (forall i, act_task d1 i = act_task d i) -> (events_of d1 !! id = None -> events_of d !! id = None) -> row_moves d1 d' id -> row_moves d d' id.
Proof. intros H1 H2 [H|[H|[H|H]]]; [left; congruence|right; by left|right; right; left; auto|do 3 right]. by rewrite <- H1. Qed.
Lemma keeps_absent d d' id : log_keeps d d' -> events_of d' !! id = None -> events_of d !! id = None.
Proof. intros H Hn. destruct (events_of d !! id) as [e|] eqn:E; [|done]. destruct (H _ _ E) as (e' & E' & _). congruence. Qed.

Lemma apply_moves ev d id : reads_as ev -> row_moves d (apply_act_event sp ev d).1 id.
Proof.
  intros Hr. unfold apply_act_event. destruct (derive_act_view _) as [view|]; [|by left]. destruct (if is_ruling _ _ then _ else _); [by left|].
  destruct (is_confirmation _ _).
  { unfold apply_receipt. destruct (ae_from_system ev); [|by left]. cbn [negb]. destruct (act_task_origin _ _); [|by left].
    destruct (_ || _); cbn [negb]; [|destruct (file ev _ d) eqn:Ef; [left; by eapply file_task|by left]].
    destruct (act_event d _) as [named|]; [|by left]. destruct (file ev None d) as [d1|] eqn:Ef; [|by left].
    destruct (act_event_is_unconfirmed _ _); cbn [negb]; [|left; by eapply file_task].
    destruct (apply_confirmed_event _ _ _ _) as [[d2 l]|] eqn:Ea; [|left; by eapply file_task]. cbn [fst].
    assert (row_moves d1 d2 id) as Hm.
    { unfold apply_confirmed_event in Ea. destruct (derive_act_view _) as [v2|]; [|done]. destruct (act_task d1 (ae_act_id ev)) as [t|] eqn:Et; [|done].
      destruct (check_move _ _ _ _ _ _ _ _) eqn:Ec; [|done]. injection Ea as <- _.
      set (cev := mkActEvent _ _ _ _ _ _ _ _ _ _ _). apply (materialize_moves cev v2 t _ _ d1 d1); [done|done|eauto]. }
    eapply row_moves_from in Hm; [exact Hm|intros i; by eapply file_task|apply keeps_absent; by eapply file_keeps]. }
  destruct (revival_refusal _ _ _); [by left|]. destruct (ae_opens ev) eqn:Eo.
  - destruct (check_open _ _ _ _ _) as [landed|]; [|by left]. destruct (decide (id = ae_act_id ev)) as [->|Hid]; [|left; by apply take_move_other].
    unfold take_move. destruct (file ev _ d) as [d1|] eqn:Ef; [|by left]. right. right. left.
    destruct (file_reads _ _ _ _ Hr Ef) as (e & En & _ & _ & _ & _ & _ & _ & _ & _ & Hsub & _). rewrite Eo in Hsub. by destruct Hsub as [_ ->].
  - unfold apply_step. destruct (act_task d (ae_act_id ev)) as [t|] eqn:Et; [|by left]. destruct (negb _); [by left|].
    destruct (_ && bool_decide _); [destruct (file ev _ d) eqn:Ef; [left; by eapply file_task|by left]|].
    destruct (check_move _ _ _ _ _ _ _ _) as [landed|] eqn:Ec; [|by left]. unfold take_move.
    destruct (file ev _ d) as [d1|] eqn:Ef; [|by left]. cbn [fst].
    assert (row_moves d1 (materialize_act sp ev view (at_kind t) (Some (at_state t)) landed (accepted_bid sp d (ae_act_id ev) view) d1) id) as Hm.
    { apply (materialize_moves ev view t landed _ d1 d); [by rewrite (file_task _ _ _ _ _ Ef)|done|eauto]. }
    eapply row_moves_from in Hm; [exact Hm|intros i; by eapply file_task|apply keeps_absent; by eapply file_keeps].
Qed.
Lemma apply_keeps ev d : log_keeps d (apply_act_event sp ev d).1.
Proof.
  unfold apply_act_event. destruct (derive_act_view _) as [view|]; [|apply keeps_refl]. destruct (if is_ruling _ _ then _ else _); [apply keeps_refl|].
  assert (forall kind was landed named, log_keeps d (take_move sp ev view kind was landed named d).1) as Hm.
  { intros. unfold take_move. destruct (file ev _ d) as [d1|] eqn:Ef; [|apply keeps_refl]. cbn [fst]. eapply keeps_trans; [by eapply file_keeps|].
    eapply keeps_trans; [|apply supersede_keeps]. apply keeps_events. unfold materialize_act. by destruct (is_terminal _ _ _), (ae_opens ev). }
  assert (forall c, log_keeps d (match file ev c d with Some d' => d' | None => d end)) as Hf.
  { intros c. destruct (file ev c d) eqn:Ef; [by eapply file_keeps|apply keeps_refl]. }
  destruct (is_confirmation _ _).
  - unfold apply_receipt. destruct (negb _); [apply keeps_refl|]. destruct (act_task_origin _ _); [|apply keeps_refl].
    destruct (negb _); [specialize (Hf (Some Ignored)); by destruct (file ev _ d)|]. destruct (act_event d _) as [named|]; [|apply keeps_refl].
    specialize (Hf None). destruct (file ev None d) as [d1|]; [|apply keeps_refl]. destruct (negb _); [done|].
    destruct (apply_confirmed_event _ _ _ _) as [[d2 l]|] eqn:Ea; [|done]. cbn [fst]. eapply keeps_trans; [exact Hf|].
    eapply keeps_trans; [|eapply keeps_trans; [apply confirm_keeps|apply supersede_keeps]]. apply keeps_events.
    unfold apply_confirmed_event in Ea. destruct (derive_act_view _); [|done]. destruct (act_task d1 _); [|done]. destruct (check_move _ _ _ _ _ _ _ _); [|done].
    injection Ea as <- _. unfold materialize_act. by destruct (is_terminal _ _ _).
  - destruct (revival_refusal _ _ _); [apply keeps_refl|]. destruct (ae_opens ev).
    + destruct (check_open _ _ _ _ _); [apply Hm|apply keeps_refl].
    + unfold apply_step. destruct (act_task d _); [|apply keeps_refl]. destruct (negb _); [apply keeps_refl|].
      destruct (_ && bool_decide _); [specialize (Hf (Some Unconfirmed)); by destruct (file ev _ d)|]. destruct (check_move _ _ _ _ _ _ _ _); [apply Hm|apply keeps_refl].
Qed.
End Spec.

(** ** One winner *)

Section Winner.
Context {P : Primitives} {B64 : Base64} {J : JsonText} {CF : CaseFold} {HO : HashOrder}.
Notation step := (task_step shipped).
Notation view_of := (derive_act_view (sp_revival_tag shipped)).

(** A handoff that is no longer open, if it lives at all. *)
Definition past_open (d : TaskDb) (id : string) : Prop :=
  is_Some (events_of d !! id) /\ forall t, act_task d id = Some t -> at_kind t = "handoff" /\ at_state t <> "open".

Lemma handoff_never_reopens t e s to : task_kind t = "handoff" -> check shipped t e s = Ok to -> to <> "open".
Proof. intros Hk Hc. shipped_rows Hc; solve [done|congruence]. Qed.
Lemma claim_takes_open t e s to :
  check shipped t e s = Ok to -> ev_verb e = "claim" -> task_kind t = "handoff" /\ task_state t = "open" /\ to = "assigned".
Proof. intros Hc Hv. shipped_rows Hc; solve [congruence|split_and!; congruence]. Qed.

Lemma past_open_step d o id : op_reads o -> past_open d id -> past_open (step d o) id.
Proof.
  intros Hr [[e He] Ht]. destruct o as [ev|o|act_id]; cbn.
  - destruct (apply_keeps shipped ev d _ _ He) as (e' & He' & _). split; [eauto|]. intros t Hd.
    destruct (apply_moves shipped ev d id Hr) as [Hm|[Hm|[Hm|(t0 & t' & bd & ev' & s & H0 & H1 & Hk & Hc)]]]; [rewrite Hm in Hd; auto|congruence|congruence|].
    rewrite H1 in Hd. injection Hd as ->. destruct (Ht _ H0) as [Hk0 _]. rewrite Hk. split; [done|]. eapply handoff_never_reopens; [|exact Hc]. exact Hk0.
  - split; [|done]. destruct (proj2 (store_step_log o (log d)) _ _ He) as (e' & He' & _). by exists e'.
  - split; [by exists e|]. intros t Hd. unfold act_task in Hd. cbn in Hd. rewrite lookup_alter in Hd. case_decide as E; [subst|by apply Ht].
    destruct (act_actions d !! id) as [t0|] eqn:Et; [|done]. cbn in Hd. injection Hd as <-. by apply (Ht t0).
Qed.

(** A claim that is taken leaves its task assigned. *)
Lemma claim_filed ev d d' was state view :
  tasks_ok shipped d -> apply_act_event shipped ev d = (d', Filed was state) -> ae_opens ev = false ->
  view_of (ae_canonical ev) = Some view -> v_verb view = "claim" ->
  past_open d' (ae_act_id ev) /\ exists t, act_task d (ae_act_id ev) = Some t /\ at_kind t = "handoff" /\ at_state t = "open".
Proof.
  intros Hok H Ho Hv Hc. unfold apply_act_event in H. rewrite Hv, Ho in H. destruct (if is_ruling _ _ then _ else _); [done|].
  rewrite Hc in H. cbn [is_confirmation shipped sp_confirmation cf_verb] in H. change (is_confirmation shipped "claim") with false in H. cbv iota in H.
  destruct (revival_refusal _ _ _); [done|]. unfold apply_step in H. destruct (act_task d (ae_act_id ev)) as [t|] eqn:Et; [|by destruct (act_task_is_on_file _ _)].
  destruct (negb (String.eqb _ _)); [done|]. destruct (_ && bool_decide _); [by destruct (file _ _ _)|].
  destruct (check_move _ _ _ _ _ _ _ _) as [landed|] eqn:Ec; [|done].
  destruct (claim_takes_open _ _ _ _ Ec Hc) as (K1 & K2 & ->). cbn in K1, K2. split; [|eauto]. unfold take_move in H.
  destruct (file ev _ d) as [d1|] eqn:Ef; [|done]. injection H as <- _ _.
  destruct (row_act_event _ _ _ _ (Hok _ _ Et)) as (e0 & E0). unfold act_event in E0. destruct (events_of d !! ae_act_id ev) as [e1|] eqn:E1; [|done].
  destruct (file_keeps _ _ _ _ Ef _ _ E1) as (e2 & E2 & _).
  split.
  - assert (log_keeps d1 (supersede_refused_act_events shipped (ae_act_id ev) (ae_event_id ev)
      (materialize_act shipped ev view (at_kind t) (Some (at_state t)) "assigned" (accepted_bid shipped d (ae_act_id ev) view) d1))) as Hk.
    { eapply keeps_trans; [|apply supersede_keeps]. apply keeps_events. unfold materialize_act. by destruct (is_terminal _ _ _), (ae_opens ev). }
    destruct (Hk _ _ E2) as (e3 & E3 & _). by exists e3.
  - intros t' Ht'. unfold materialize_act in Ht'. rewrite K1 in Ht'. change (is_terminal shipped "handoff" "assigned") with false in Ht'. cbv iota in Ht'.
    rewrite Ho in Ht'. unfold act_task in Ht'. cbn in Ht'. rewrite lookup_alter in Ht'. case_decide; [|done].
    pose proof (file_task _ _ _ _ (ae_act_id ev) Ef) as Ex. unfold act_task in Ex, Et. rewrite Ex, Et in Ht'. cbn in Ht'. injection Ht' as <-. done.
Qed.

End Winner.
