(* ===== verification/TaskGate.v ===== *)
(** * Task commands

    [freeq-server/src/connection/act.rs]: the judgement of a task message a
    client sends ([gate]), the events the server signs itself (receipts, expired
    tasks, closed reviews), how they are announced, and the way a move on
    another server's task is carried to that server; with
    [verify_act_signature] of [connection/messaging.rs] and the routing and the
    two clocks of [server.rs]. The judgement is the argument [MessagingOps]
    leaves open; [handle_task_tagmsg] is the command with it put in. *)
From stdpp Require Import base gmap strings list pretty fin_maps sorting.
From Stdlib Require Import ZArith Lia Ascii String.
From S2P Require Import Prelude Text Ulid IrcMessage ActTransitions Multiline RelayQueue NickMap RoomTables S2sMessage Channel S2sLink Primitives SignedDocs MessageStore Routing Messaging MessagingOps TaskDocs TaskLog.
Open Scope string_scope.
Open Scope list_scope.
Open Scope Z_scope.

(** ** State *)

(** The table of live tasks and the queue of moves on their way home, beside
    what the message commands work on. The log is in the database of [tk_chat]. *)
Record Tasks := mkTasks { tk_chat : Chat; tk_actions : gmap string ActTask; tk_routes : RouteQueue S2sMessage }.
Definition set_tk_chat x (t : Tasks) := mkTasks x (tk_actions t) (tk_routes t).
Definition set_routes x (t : Tasks) := mkTasks (tk_chat t) (tk_actions t) x.
(** [with_db] *)
Definition task_db (t : Tasks) : option TaskDb := (fun l => mkTaskDb l (tk_actions t)) <$> db (tk_chat t).
Definition put_db (d : TaskDb) (t : Tasks) : Tasks := mkTasks (set_db (Some (log d)) (tk_chat t)) (act_actions d) (tk_routes t).

Definition server_did (server_name : string) : string := "did:web:" +:+ server_name.
Definition did_of (t : Tasks) : string := server_did (server_name (srv (tk_chat t))).

Definition KIND_TAG : string := "+freeq.at/act".
Definition KIND_TAG_BARE : string := "freeq.at/act".
Definition VERB_TAG : string := "+freeq.at/act-verb".
Definition VERB_TAG_BARE : string := "act-verb".
Definition SEQ_TAG : string := "+freeq.at/act-seq".
Definition ACT_ID_TAG : string := "+freeq.at/act-id".
Definition FROM_TAG : string := "+freeq.at/from".
Definition SIG_TAG : string := "+freeq.at/sig".

Definition kind_of (tags : Tags) : string := default "" (or_else (tags !! KIND_TAG) (tags !! KIND_TAG_BARE)).
Definition verb_of (tags : Tags) : string := default "" (or_else (tags !! VERB_TAG) (tags !! VERB_TAG_BARE)).
Definition named_task (tags : Tags) : option string := or_else (tags !! ACT_ID_TAG) (tags !! "act-id").
Definition sig_of (tags : Tags) : option string := or_else (tags !! SIG_TAG) (tags !! "freeq.at/sig").

Definition OTHER_FAMILIES : list string :=
  ["+draft/delete"; "+delete"; "+react"; "+draft/react"; "+freeq.at/unreact"; "+reply"; "+draft/reply";
   "+freeq.at/event"; "+freeq.at/payload"; "+freeq.at/task-id"; "+freeq.at/ref"; "+freeq.at/evidence-type"].

(** [title.chars().filter(|c| !c.is_control())] on UTF-8 bytes: the ASCII
    controls, and U+0080 to U+009F. *)
Fixpoint strip_controls (s : string) : string :=
  match s with
  | EmptyString => ""
  | String c r =>
      let n := nat_of_ascii c in
      if (n <? 32)%nat || (n =? 127)%nat then strip_controls r
      else match r with
           | String d r' =>
               if (n =? 194)%nat && (128 <=? nat_of_ascii d)%nat && (nat_of_ascii d <=? 159)%nat then strip_controls r'
               else String c (strip_controls r)
           | EmptyString => String c ""
           end
  end.
Definition MAX_TITLE_CHARS : nat := 200.
Definition title_for_wire (title : string) : string := take_chars MAX_TITLE_CHARS (strip_controls title).

(** ** Addresses *)

Definition peer_target_for (venue target : string) : string :=
  match strip_prefix "dm:" venue with
  | Some dids => default target (head (str_split "," dids))
  | None => target
  end.
Definition own_event_target (venue : string) : string := if starts_with "dm:" venue then "*" else venue.

Section Gate.
Context {P : Primitives} {B64 : Base64} {J : JsonText} {KB : KeyBytes} {UD : UrlDecode} {IT : IsoTime} {CF : CaseFold} {TR : Trim} {HO : HashOrder}.
Variable sp : Spec.

Definition foreign_family_tag (tags : Tags) : option string :=
  or_else (List.find (fun n => is_some (tags !! n)) OTHER_FAMILIES)
    (fst <$> List.find (fun kv => starts_with "+freeq.at/av-" kv.1) (hash_iter tags)).

Definition refuse (sid code sentence : string) : list ChatEffect := [fail_reply sid "TAGMSG" code sentence].

Definition verify_act_signature (s : Chat) (tags : Tags) (venue msgid sig_tag did : string) (session : option string)
    : ClientSigVerdict :=
  match SigTag.parse sig_tag with
  | Err _ => SigUnverifiable "unparseable or legacy signature format"
  | Ok (kid, _) =>
      match verifying_key_for s did kid session with
      | None => SigUnverifiable NO_KEY_ON_FILE
      | Some key =>
          match verify_act tags venue msgid sig_tag key with
          | Ok _ => SigValid
          | Err (ActSig SigTag.Invalid) => SigInvalid
          | Err MissingFrom => SigUnverifiable "missing mandatory field: from"
          | Err _ => SigUnverifiable "unusable signature tag"
          end
      end
  end.

(** ** Events of the server's own *)

Definition own_pairs (d : TaskDb) (did kind verb act_id : string) (extra : list (string * string)) : list (string * string) :=
  [(KIND_TAG, kind); (VERB_TAG, verb); (FROM_TAG, did); (ACT_ID_TAG, act_id)] ++ extra
  ++ (if is_ruling sp verb then [(SEQ_TAG, pretty (own_rulings_on sp d act_id did + 1))] else []).
Definition own_event (canonical signature event_id act_id venue did : string) (now : Now) : ActEvent :=
  mkActEvent canonical (Some signature) event_id act_id false venue did true false None (secs now).
Definition collect_tags (pairs : list (string * string)) : Tags := fold_left (fun m kv => <[kv.1 := kv.2]> m) pairs ∅.
Definition file_own_event (t : Tasks) (kind verb act_id : string) (extra : list (string * string)) (venue : string) (now : Now)
    : Tasks * option (Tags * ActWrite) :=
  match task_db t with
  | None => (t, None)
  | Some d =>
      let did := did_of t in
      let event_id := minted now in
      let pairs := own_pairs d did kind verb act_id extra in
      match act_canonical_of pairs venue event_id with
      | Err _ => (t, None)
      | Ok canonical =>
          let signature := SigTag.sign_canonical canonical (msg_signing_key (tk_chat t)) in
          let '(d', written) := apply_act_event sp (own_event canonical signature event_id act_id venue did now) d in
          (put_db d' t,
           Some (<[SIG_TAG := signature]> (<["msgid" := event_id]> (<[ChatSig.EVENT_ID_TAG := event_id]> (collect_tags pairs))), written))
      end
  end.

Definition venue_sessions (s : Server) (venue : string) : list string :=
  match strip_prefix "dm:" venue with
  | Some dids => flat_map set_iter (omap (fun did => did_sessions s !! did) (str_split "," dids))
  | None => match channels s !! venue with Some ch => set_iter (members ch) | None => [] end
  end.
Definition broadcast_own_act_event (s : Chat) (tags : Tags) (venue target : string) (now : Now) : list ChatEffect :=
  let name := server_name (srv s) in
  let did := server_did name in
  let lines := tagmsg_build tags name target (time_tag_of now) (Some did) in
  flat_map (fun m => if negb (bool_decide (m ∈ cap_message_tags (srv s))) || negb (bool_decide (m ∈ cap_act s)) then []
                     else deliver s m [tagmsg_pick lines (bool_decide (m ∈ cap_server_time s)) (bool_decide (m ∈ cap_account_tag s))])
    (venue_sessions (srv s) venue)
  ++ map Out (s2s_broadcast (srv s) (Tagmsg name (peer_target_for venue target) tags (Some did))).
Definition broadcast_receipt (s : Chat) (r : Receipt) (target : string) (now : Now) : list ChatEffect :=
  broadcast_own_act_event s (rc_tags r) (rc_venue r) target now.

Definition announce_ending (s : Chat) (task : ActTask) (title what : string) : list ChatEffect :=
  let cleaned := title_for_wire title in
  let shown := if is_empty (trim cleaned) then at_act_id task else cleaned in
  let to := if starts_with "dm:" (at_venue task) then "*" else at_venue task in
  flat_map (fun m => deliver s m [plain_line (server_name (srv s)) "NOTICE" to (what +:+ ": " +:+ shown)])
    (venue_sessions (srv s) (at_venue task)).
(** An ending the server rules: expiry, and the close of a review. *)
Definition end_task (verb what : string) (t : Tasks) (task : ActTask) (now : Now) : Tasks * list ChatEffect * bool :=
  match file_own_event t (at_kind task) verb (at_act_id task) [] (at_venue task) now with
  | (t', Some (tags, Filed _ _)) =>
      let title := default (at_act_id task) (d ← task_db t'; act_task_title d (at_act_id task)) in
      (t', broadcast_own_act_event (tk_chat t') tags (at_venue task) (own_event_target (at_venue task)) now
           ++ announce_ending (tk_chat t') task title what, true)
  | (t', _) => (t', [], false)
  end.
Definition expire_task := end_task "expire" "Task expired without completion".
Definition auto_accept_task := end_task REVIEW_TIMEOUT_VERB "Task accepted without review".

Definition mint_receipt (t : Tasks) (kind act_id subject venue : string) (now : Now) : Tasks * option Receipt :=
  match file_own_event t kind (cf_verb (sp_confirmation sp)) act_id [("+freeq.at/" +:+ cf_subject (sp_confirmation sp), subject)]
          venue now with
  | (t', Some (tags, Recorded)) => (t', Some (mkReceipt tags venue))
  | (t', _) => (t', None)
  end.
Record AppliedMove := mkMove { mv_kind : string; mv_act_id : string; mv_event_id : string; mv_venue : string; mv_actor : string; mv_written : ActWrite }.
Definition receipt_for_applied_move (t : Tasks) (m : AppliedMove) (now : Now) : Tasks * option Receipt :=
  match mv_written m with
  | Filed (Some was) landed =>
      if String.eqb was landed || is_system_actor (mv_actor m) then (t, None)
      else if bool_decide ((task_db t ≫= fun d => act_task_origin d (mv_act_id m)) = Some "")
      then mint_receipt t (mv_kind m) (mv_act_id m) (mv_event_id m) (mv_venue m) now
      else (t, None)
  | _ => (t, None)
  end.

(** ** Moves on their way home *)

Record TaskEventWire := mkWire { tw_act_id : string; tw_event_id : string; tw_tags : Tags; tw_target : string; tw_from : string;
  tw_account : option string }.
Definition route_transition_home (t : Tasks) (ev : TaskEventWire) (home : string) (now : Now) : Tasks :=
  if is_empty home then t
  else set_routes (route_park (tk_routes t)
         (mkRoute (tw_act_id ev) (tw_event_id ev) home
            (ActRoute (tw_act_id ev) (tw_event_id ev) (tw_tags ev) (tw_target ev) (tw_from ev) (tw_account ev)) 0 (at_ms now) 0)) t.
(** One pass over what is due: what is asked, and of whom. *)
Definition still_waits (t : Tasks) (r : PendingRoute S2sMessage) : bool :=
  match task_db t with Some d => act_event_is_unconfirmed d (rt_event_id r) | None => false end.
Definition asked_again (now : Now) (r : PendingRoute S2sMessage) : PendingRoute S2sMessage :=
  mkRoute (rt_act_id r) (rt_event_id r) (rt_home r) (rt_message r) (rt_attempts r + 1) (at_ms now + retry_backoff (rt_attempts r + 1)) (rt_seq r).
Definition flush_pending_routes (manager : option S2sManager) (up : string -> bool) (t : Tasks) (now : Now)
    : Tasks * list (PendingRoute S2sMessage * RouteOutcome) :=
  match manager with
  | None => (t, [])
  | Some m =>
      let '(due, q) := take_due (tk_routes t) (at_ms now) in
      let carried := List.filter (still_waits t) due in
      (set_routes (fold_left (fun q r => route_park q (asked_again now r)) carried q) t,
       map (fun r => (r, route_to_home m (rt_home r) (up (rt_home r)))) carried)
  end.

(** ** The judgement *)

(** What the checks up to the signature have established. *)
Record Screened := mkScreened { sc_did : string; sc_msgid : string; sc_sig : string; sc_venue : string }.

Definition screen_signature (s : Chat) (sid did msgid target : string) (tags : Tags) : result Screened (list ChatEffect) :=
  match sig_of tags with
  | None => Err (refuse sid "SIGNATURE_REQUIRED" "A task message must carry its sender's signature")
  | Some sig_tag =>
      match signing_venue (srv s) did target with
      | None => Err (refuse sid "INVALID_TARGET" "A task in a direct conversation needs both people to have accounts")
      | Some venue =>
          match verify_act_signature s tags venue msgid sig_tag did (Some sid) with
          | SigValid => Ok (mkScreened did msgid sig_tag venue)
          | SigInvalid => Err (refuse sid "SIGNATURE_INVALID" "That signature does not verify against the key it names")
          | SigUnverifiable why =>
              Err (refuse sid "SIGNATURE_UNVERIFIABLE"
                     (if String.eqb why NO_KEY_ON_FILE then "That signature names a key this server does not have"
                      else "That signature cannot be checked by this server"))
          end
      end
  end.
Definition screen_actor (s : Chat) (c : Connection) (sid did target : string) (tags : Tags) (now : Now) : result Screened (list ChatEffect) :=
  if negb (is_some (tags !! ChatSig.EVENT_ID_TAG)) && negb (is_some (tags !! ChatSig.EVENT_ID_TAG_BARE))
  then Err (refuse sid "EVENTID_REQUIRED" "A task message must carry its sender's event id")
  else match resolve_event_msgid s c tags now with
       | Err (code, description) => Err (refuse sid code description)
       | Ok msgid =>
           match or_else (tags !! FROM_TAG) (tags !! "from") with
           | None => Err (refuse sid "ACTOR_REQUIRED" "A task message must name its actor")
           | Some actor =>
               if negb (String.eqb actor did) then Err (refuse sid "ACTOR_MISMATCH" "That message names someone else as its actor")
               else screen_signature s sid did msgid target tags
           end
       end.
Definition screen_sender (s : Chat) (c : Connection) (sid target : string) (tags : Tags) (now : Now)
    : Chat * result Screened (list ChatEffect) :=
  if is_some (foreign_family_tag tags) then (s, Err (refuse sid "MIXED_TAGS" "A task message carries only task tags"))
  else if is_some (repeated_field tags) then (s, Err (refuse sid "REPEATED_TAG" "A task message must carry each task tag only once"))
  else match c_authenticated_did c with
       | None => (s, Err (refuse sid "ACCOUNT_REQUIRED" "Only a logged-in sender can send task messages"))
       | Some did =>
           let '(s, over, out) := event_flood_exceeded s sid (at_ms now) in
           if over then (s, Err out) else (s, screen_actor s c sid did target tags now)
       end.

(** What the rules file says of the move by itself. *)
Definition check_rules (own_did : string) (tags : Tags) : option (string * string) :=
  let kind := kind_of tags in
  let verb := verb_of tags in
  if negb (knows_kind sp kind) then Some ("UNKNOWN_KIND", "This server does not know that task kind")
  else if is_confirmation sp verb then Some ("WRONG_SENDER", "Only the action's home confirms it")
  else if bool_decide (opening_verb sp kind = Some verb) then
    let directed := is_some (tags !! "+freeq.at/act-to") || is_some (tags !! "act-to") in
    let names_task := is_some (tags !! ACT_ID_TAG) || is_some (tags !! "act-id") in
    match check_open sp kind verb directed names_task with
    | Err IllegalStep => Some ("ILLEGAL_STEP", "That step cannot be taken from the task's current state")
    | Err UnknownKind => Some ("UNKNOWN_KIND", "This server does not know that task kind")
    | Err _ => Some ("UNKNOWN_VERB", "That task kind has no such step")
    | Ok _ =>
        match parse_event tags ≫= fun ev => pa_fields ev !! "act-home" with
        | Some home =>
            if String.eqb home own_did then None
            else Some ("WRONG_HOME", "A task opened here must name this server as its home")
        | None => None
        end
    end
  else if negb (knows_verb sp kind verb) then Some ("UNKNOWN_VERB", "That task kind has no such step")
  else None.

Definition refusal_reply (r : Refusal) : string * string :=
  match r with
  | TerminalTask => ("TERMINAL_TASK", "That task is finished and takes no further steps")
  | IllegalStep => ("ILLEGAL_STEP", "That step cannot be taken from the task's current state")
  | WrongSender => ("WRONG_SENDER", "That step is not yours to take")
  | DeadlinePassed => ("DEADLINE_PASSED", "That offer's deadline has passed")
  | UnknownKind => ("UNKNOWN_KIND", "This server does not know that task kind")
  | UnknownVerb => ("UNKNOWN_VERB", "That task kind has no such step")
  | ClientConfirm => ("WRONG_SENDER", "Only the action's home confirms it")
  | ReplacesNotOpener => ("REPLACES_NOT_OPENER", "Only a new action replaces an earlier one")
  | ReplacesMalformed => ("REPLACES_MALFORMED", "That is not the id of an action")
  | ReplacesNotTerminal => ("REPLACES_NOT_TERMINAL", "The action it replaces is not finished")
  | MissingRequirement field => ("MISSING_REQUIREMENT", "That step must carry " +:+ field)
  | AcceptsNotABid => ("ACCEPTS_NOT_A_BID", "That award names no bid on this task")
  end.

(** The task's own state: file the event, and answer for what became of it. *)
Definition client_event (sc : Screened) (tags : Tags) (canonical : string) (now : Now) : ActEvent :=
  let opens := bool_decide (opening_verb sp (kind_of tags) = Some (verb_of tags)) in
  mkActEvent canonical (Some (sc_sig sc)) (sc_msgid sc) (if opens then sc_msgid sc else default "" (named_task tags)) opens (sc_venue sc)
    (sc_did sc) false false None (secs now).
Definition answer (t : Tasks) (c : Connection) (sid target : string) (tags : Tags) (ev : ActEvent) (written : ActWrite) (now : Now)
    : Gate * Tasks * list ChatEffect :=
  match written with
  | Filed (Some was) landed =>
      if String.eqb was landed then (Accepted None, t, [])
      else let '(t, receipt) := mint_receipt t (kind_of tags) (ae_act_id ev) (ae_event_id ev) (ae_venue ev) now in (Accepted receipt, t, [])
  | Filed None _ | Recorded | ConfirmedWrite _ | ReceiptIgnored | ReceiptBeforeSubject | ReceiptRefused _ | Conflict _ => (Accepted None, t, [])
  | StoredNotApplied =>
      let home := default "" (d ← task_db t; act_task_origin d (ae_act_id ev)) in
      (Accepted None,
       route_transition_home t (mkWire (ae_act_id ev) (ae_event_id ev) tags target (nick_or_star c) (Some (ae_actor ev))) home now, [])
  | UnknownTask => (GateRefused, t, refuse sid "UNKNOWN_TASK" "That task is not on file")
  | WrongVenue => (GateRefused, t, refuse sid "WRONG_VENUE" "That task lives in a different conversation")
  | RefusedWrite r => let '(code, sentence) := refusal_reply r in (GateRefused, t, refuse sid code sentence)
  | Duplicate | NotATaskEvent => (GateRefused, t, [])
  end.
Definition file_client_event (t : Tasks) (c : Connection) (sid target : string) (tags : Tags) (sc : Screened) (now : Now)
    : Gate * Tasks * list ChatEffect :=
  match act_canonical tags (sc_venue sc) (sc_msgid sc) with
  | Err _ => (GateRefused, t, [])
  | Ok canonical =>
      match task_db t with
      | None => (Accepted None, t, [])
      | Some d =>
          let ev := client_event sc tags canonical now in
          let '(d', written) := apply_act_event sp ev d in answer (put_db d' t) c sid target tags ev written now
      end
  end.

Definition gate (t : Tasks) (c : Connection) (sid target : string) (tags : Tags) (now : Now) : Gate * Tasks * list ChatEffect :=
  if negb (carries_act_tags tags) then (NotATaskMessage, t, [])
  else
    let '(s, screened) := screen_sender (tk_chat t) c sid target tags now in
    let t := set_tk_chat s t in
    match screened with
    | Err out => (GateRefused, t, out)
    | Ok sc =>
        match check_rules (did_of t) tags with
        | Some (code, sentence) => (GateRefused, t, refuse sid code sentence)
        | None => file_client_event t c sid target tags sc now
        end
    end.

(** ** The command *)

Definition deliver_receipts (s : Chat) (now : Now) (out : list ChatEffect) : list ChatEffect :=
  flat_map (fun e => match e with BroadcastReceipt r target => broadcast_receipt s r target now | e => [e] end) out.
Definition handle_task_tagmsg (t : Tasks) (c : Connection) (sid target : string) (tags : Tags) (now : Now) : Tasks * list ChatEffect :=
  if bool_decide (tags = ∅) then (t, [])
  else
    let '(verdict, t', out) := gate t c sid (route_target target) tags now in
    let '(s, out') := handle_tagmsg (fun _ _ _ _ _ => (verdict, tk_chat t', out)) (tk_chat t) c sid target tags now in
    (set_tk_chat s t', deliver_receipts s now out').

(** ** The clocks *)

(** One pass of a sweep: at most a hundred tasks, each ending an event under an
    id of its own. *)
Definition sweep (ends : Tasks -> ActTask -> Now -> Tasks * list ChatEffect * bool) (stale : list ActTask) (at_ : nat -> Now) (t : Tasks)
    : Tasks * list ChatEffect :=
  fold_left (fun acc it => let '(t, out, _) := ends acc.1 it.2 (at_ it.1) in (t, acc.2 ++ out)) (imap pair stale) (t, []).
Definition act_expiry_sweep (limit_secs : Z) (t : Tasks) (at_ : nat -> Now) : Tasks * list ChatEffect :=
  match task_db t with
  | Some d => sweep expire_task (act_tasks_idle_outside_states (review_timeout_states sp) (secs (at_ 0%nat) - limit_secs) 100 d) at_ t
  | None => (t, [])
  end.
Definition act_review_sweep (limit_secs : Z) (t : Tasks) (at_ : nat -> Now) : Tasks * list ChatEffect :=
  match task_db t with
  | Some d => sweep auto_accept_task (act_tasks_idle_in_states (review_timeout_states sp) (secs (at_ 0%nat) - limit_secs) 100 d) at_ t
  | None => (t, [])
  end.

(** ** Replay *)

Definition wire_tags_from_canonical (canonical event_id : string) (signature : option string) : option Tags :=
  doc ← json_from_str canonical;
  let fields : gmap string JValue := filter (fun kv : string * JValue => (String.eqb kv.1 "target" || String.eqb kv.1 "id") = false) doc in
  if bool_decide (map_Forall (fun _ v => is_Some (str_value v)) fields) then
    let tags : Tags := kmap (fun k => "+freeq.at/" +:+ k) (omap str_value fields) in
    let tags := <["msgid" := event_id]> (<[ChatSig.EVENT_ID_TAG := event_id]> tags) in
    Some (match signature with Some sig => <[SIG_TAG := sig]> tags | None => tags end)
  else None.
(** Newest first under the cap, then oldest first. *)
Definition act_events_for_venue (d : TaskDb) (venue : string) (from_ts to_ts : Z) (limit : nat) : list StoredEvent :=
  let found := merge_sort event_le (List.filter (fun e => String.eqb (f_venue (e_facts e)) venue
                 && (from_ts <=? e_timestamp e) && (e_timestamp e <=? to_ts)) (act_rows d)) in
  rev (take limit (rev found)).
Definition replayed_line (s : Chat) (target : string) (with_time : bool) (batch_id : option string) (e : StoredEvent) : option (Z * string) :=
  tags ← wire_tags_from_canonical (e_canonical e) (f_event_id (e_facts e)) (e_signature e);
  let tags := match f_actor_did (e_facts e) with Some did => <["account" := did]> tags | None => tags end in
  let tags := if with_time then <["time" := iso (e_timestamp e)]> tags else tags in
  let tags := match batch_id with Some b => <["batch" := b]> tags | None => tags end in
  let prefix := (fun did => default did (did_nicks (names (srv s)) !! did)) <$> f_actor_did (e_facts e) in
  Some (e_timestamp e, server_display (mkMessage tags prefix "TAGMSG" [target]) +:+ CRLF).
Definition replay_lines (t : Tasks) (session venue target : string) (from_ts to_ts : Z) (limit : nat) (with_time : bool)
    (batch_id : option string) : list (Z * string) :=
  if negb (bool_decide (session ∈ cap_act (tk_chat t))) then []
  else match task_db t with
       | Some d => omap (replayed_line (tk_chat t) target with_time batch_id) (act_events_for_venue d venue from_ts to_ts limit)
       | None => []
       end.
End Gate.
