(* ===== verification/TaskGateSpec.v ===== *)
(** * What holds of the task commands

    Theorems about TaskGate: a task message is accepted only with the sender's
    own signature over the document that is filed, a refused one leaves no
    trace, the clients' commands and the clocks keep the live tasks within their
    rules, and what is replayed verifies as the original did. *)
From stdpp Require Import base gmap strings list pretty fin_maps sorting.
From Stdlib Require Import ZArith Lia Ascii String.
From S2P Require Import Prelude Text Ulid IrcMessage ActTransitions Multiline RelayQueue NickMap RoomTables S2sMessage Channel S2sLink Primitives SignedDocs MessageStore Routing Messaging MessagingOps MessagingSpec TaskDocs TaskLog TaskLogSpec TaskGate.
Open Scope string_scope.
Open Scope list_scope.
Open Scope Z_scope.

Section Gate.
Context {P : Primitives} {B64 : Base64} {J : JsonText} {KB : KeyBytes} {UD : UrlDecode} {IT : IsoTime} {CF : CaseFold} {TR : Trim} {HO : HashOrder}.

(** ** The document and its reading *)

Lemma act_facts pairs target id c f :
  act_canonical_of pairs target id = Ok c -> derive_facts c = Some f ->
  exists from, (covered_of pairs).2 = Some from
    /\ f = mkFacts id "act" target (Some from) ((covered_of pairs).1 !! "act-id") None None.
Proof.
  intros Hc. destruct (act_canonical_ok _ _ _ _ Hc) as [from Hs]. unfold derive_facts. destruct (is_empty c); [done|].
  destruct (act_doc_get _ _ _ _ _ "id" Hs) as (doc & Hd & H1). destruct (act_doc_get _ _ _ _ _ "target" Hs) as (doc2 & Hd2 & H2).
  destruct (act_doc_get _ _ _ _ _ "from" Hs) as (doc3 & Hd3 & H3). destruct (act_doc_get _ _ _ _ _ "act-id" Hs) as (doc4 & Hd4 & H4).
  destruct (act_doc_get _ _ _ _ _ "msgid" Hs) as (doc5 & Hd5 & H5). rewrite Hd in *. injection Hd2 as <-. injection Hd3 as <-. injection Hd4 as <-. injection Hd5 as <-. cbn in *. rewrite H1, H2, H3, H4, H5.
  cbn. destruct (is_some (doc !! "act")); cbn; [intros [= <-]; exists from; by split; [apply Hs|]|].
  destruct ((covered_of pairs).1 !! "msgid") as [m|] eqn:Em; [|done]. by apply covered_are_act in Em.
Qed.

(** ** Nothing happens on a refusal *)

Lemma put_same t d : task_db t = Some d -> put_db d t = t.
Proof.
  destruct t as [[s [l|] h c1 c2 c3 c4 c5 a k m pc sk mx] acts r]; cbn; [|done]. by intros [= <-].
Qed.
Lemma put_task_db t d d' : task_db t = Some d -> task_db (put_db d' t) = Some d'.
Proof. by destruct d'. Qed.

Section Rules.
Variable sp : Spec.

(** The answers that stand for nothing written. *)
Definition unwritten (w : ActWrite) : bool :=
  match w with UnknownTask | WrongVenue | RefusedWrite _ | Duplicate | NotATaskEvent | Conflict _ | ReceiptBeforeSubject => true | _ => false end.
Lemma apply_cases ev d :
  let '(d', w) := apply_act_event sp ev d in
  if unwritten w then d' = d
  else exists f e, derive_facts (ae_canonical ev) = Some f /\ events_of d !! f_event_id f = None /\ events_of d' !! f_event_id f = Some e
         /\ e_canonical e = ae_canonical ev /\ e_signature e = ae_signature ev.
Proof.
  assert (forall c d1 d2, file ev c d = Some d1 -> log_keeps d1 d2 ->
    exists f e, derive_facts (ae_canonical ev) = Some f /\ events_of d !! f_event_id f = None /\ events_of d2 !! f_event_id f = Some e
         /\ e_canonical e = ae_canonical ev /\ e_signature e = ae_signature ev) as Hf.
  { intros c d1 d2 Hf Hk. destruct (file_spec _ _ _ _ Hf) as (f & Ef & En & _ & e & Ee & Hc & Hs & _).
    destruct (Hk (f_event_id f) e) as (e' & E' & (S1 & S2 & _)); [by rewrite Ee, lookup_insert_eq|].
    exists f, e'. split; [done|]. split; [done|]. split; [done|]. split; congruence. }
  unfold apply_act_event. destruct (derive_act_view _ _) as [view|]; [|done]. destruct (if is_ruling _ _ then _ else _); [done|].
  assert (forall kind was landed named, let '(d', w) := take_move sp ev view kind was landed named d in
    if unwritten w then d' = d
    else exists f e, derive_facts (ae_canonical ev) = Some f /\ events_of d !! f_event_id f = None /\ events_of d' !! f_event_id f = Some e
         /\ e_canonical e = ae_canonical ev /\ e_signature e = ae_signature ev) as Hm.
  { intros. unfold take_move. destruct (file ev _ d) as [d1|] eqn:Ef; [|done]. cbn [unwritten]. eapply Hf; [exact Ef|].
    eapply keeps_trans; [|apply supersede_keeps]. apply keeps_events. unfold materialize_act. by destruct (is_terminal _ _ _), (ae_opens ev). }
  destruct (is_confirmation _ _).
  - unfold apply_receipt. destruct (negb _); [done|]. destruct (act_task_origin _ _); [|done].
    destruct (negb _); [destruct (file ev _ d) as [d1|] eqn:Ef; [cbn [unwritten]; eapply Hf; [exact Ef|apply keeps_refl]|done]|].
    destruct (act_event d _) as [named|]; [|done]. destruct (file ev None d) as [d1|] eqn:Ef; [|done].
    destruct (negb _); [cbn [unwritten]; eapply Hf; [exact Ef|apply keeps_refl]|].
    destruct (apply_confirmed_event _ _ _ _) as [[d2 l]|] eqn:Ea; [|cbn [unwritten]; eapply Hf; [exact Ef|apply keeps_refl]]. cbn [unwritten].
    eapply Hf; [exact Ef|]. eapply keeps_trans; [|eapply keeps_trans; [apply confirm_keeps|apply supersede_keeps]]. apply keeps_events.
    unfold apply_confirmed_event in Ea. destruct (derive_act_view _); [|done]. destruct (act_task d1 _); [|done].
    destruct (check_move _ _ _ _ _ _ _ _); [|done]. injection Ea as <- _. unfold materialize_act. by destruct (is_terminal _ _ _).
  - destruct (revival_refusal _ _ _); [done|]. destruct (ae_opens ev).
    + destruct (check_open _ _ _ _ _); [apply Hm|done].
    + unfold apply_step. destruct (act_task d _); [|by destruct (act_task_is_on_file _ _)]. destruct (negb _); [done|].
      destruct (_ && bool_decide _); [destruct (file ev _ d) as [d1|] eqn:Ef; [cbn [unwritten]; eapply Hf; [exact Ef|apply keeps_refl]|done]|].
      destruct (check_move _ _ _ _ _ _ _ _); [apply Hm|done].
Qed.

(** ** What the screen establishes *)

Record screened_ok (s : Chat) (c : Connection) (sid target : string) (tags : Tags) (now : Now) (sc : Screened) : Prop := {
  so_alone : foreign_family_tag tags = None;
  so_once : repeated_field tags = None;
  so_did : c_authenticated_did c = Some (sc_did sc);
  so_id : event_id_of tags = Some (sc_msgid sc);
  so_minted : exists ms, check_client_minted (sc_msgid sc) (at_ms now) = Ok ms;
  so_actor : or_else (tags !! FROM_TAG) (tags !! "from") = Some (sc_did sc);
  so_sig : sig_of tags = Some (sc_sig sc);
  so_venue : signing_venue (srv s) (sc_did sc) target = Some (sc_venue sc);
  so_proof : verify_act_signature s tags (sc_venue sc) (sc_msgid sc) (sc_sig sc) (sc_did sc) (Some sid) = SigValid
}.
Lemma screen_actor_ok s c sid did target tags now sc :
  foreign_family_tag tags = None -> repeated_field tags = None -> c_authenticated_did c = Some did ->
  screen_actor s c sid did target tags now = Ok sc -> screened_ok s c sid target tags now sc.
Proof.
  intros Hf Hr Hd. unfold screen_actor. destruct (_ && _) eqn:Eid; [done|]. unfold resolve_event_msgid. rewrite Hd.
  destruct (event_id_of tags) as [claimed|] eqn:Ec.
  2: { unfold event_id_of, or_else in Ec. destruct (tags !! ChatSig.EVENT_ID_TAG); [done|]. by rewrite Ec in Eid. }
  destruct (check_client_minted claimed (at_ms now)) as [ms|] eqn:Em; [|done]. destruct (match db s with Some _ => _ | None => _ end); [done|].
  destruct (or_else _ _) as [actor|] eqn:Ea; [|done]. destruct (String.eqb_spec actor did) as [->|]; cbn [negb]; [|done].
  unfold screen_signature. destruct (sig_of tags) as [sig|] eqn:Es; [|done]. destruct (signing_venue _ _ _) as [venue|] eqn:Ev; [|done].
  destruct (verify_act_signature _ _ _ _ _ _ _) eqn:Ep; try done. intros [= <-]. split; cbn; eauto.
Qed.
(** The flood counter is the only thing the screen writes. *)
Definition same_but_counts (s s' : Chat) : Prop := set_timestamps (msg_timestamps s') s = s'.
Lemma counts_refl s : same_but_counts s s.
Proof. by destruct s. Qed.
Lemma counts_fields s s' : same_but_counts s s' ->
  srv s' = srv s /\ db s' = db s /\ session_msg_keys s' = session_msg_keys s.
Proof. intros <-. done. Qed.
Lemma flood_counts s sid now : same_but_counts s (event_flood_exceeded s sid now).1.1.
Proof. unfold event_flood_exceeded, spend. by destruct s. Qed.
Lemma counts_key s s' did kid x : same_but_counts s s' -> verifying_key_for s' did kid x = verifying_key_for s did kid x.
Proof. intros <-. done. Qed.
Lemma counts_signature s s' tags venue id sig did x :
  same_but_counts s s' -> verify_act_signature s' tags venue id sig did x = verify_act_signature s tags venue id sig did x.
Proof. intros <-. done. Qed.

Lemma refuse_only sid code sentence : only_replies sid (refuse sid code sentence).
Proof. apply only_replies_one. Qed.
Lemma screen_actor_replies s c sid did target tags now out : screen_actor s c sid did target tags now = Err out -> only_replies sid out.
Proof.
  unfold screen_actor, screen_signature.
  repeat first [destruct (_ && _)|destruct (resolve_event_msgid _ _ _ _) as [|[]]|destruct (or_else _ _)|destruct (negb _)
               |destruct (sig_of _)|destruct (signing_venue _ _ _)|destruct (verify_act_signature _ _ _ _ _ _ _)];
    try done; intros [= <-]; apply refuse_only.
Qed.
Lemma screen_sender_ok s c sid target tags now s' r :
  screen_sender s c sid target tags now = (s', r) ->
  same_but_counts s s' /\ match r with Ok sc => screened_ok s c sid target tags now sc | Err out => only_replies sid out end.
Proof.
  unfold screen_sender. destruct (foreign_family_tag tags) eqn:Ef; cbn [is_some].
  { intros [= <- <-]. split; [apply counts_refl|apply refuse_only]. }
  destruct (repeated_field tags) eqn:Er; cbn [is_some].
  { intros [= <- <-]. split; [apply counts_refl|apply refuse_only]. }
  destruct (c_authenticated_did c) as [did|] eqn:Ed; [|intros [= <- <-]; split; [apply counts_refl|apply refuse_only]].
  pose proof (flood_counts s sid (at_ms now)) as Hc. destruct (event_flood_exceeded s sid (at_ms now)) as [[s1 over] out] eqn:Ew. cbn in Hc.
  destruct over; intros [= <- <-]; (split; [done|]).
  - unfold event_flood_exceeded in Ew. destruct (spend _ _ _) as [s2 []]; [|done]. injection Ew as _ <-. apply refuse_only.
  - destruct (screen_actor s1 c sid did target tags now) as [sc|out'] eqn:Es; [|by eapply screen_actor_replies].
    destruct (screen_actor_ok _ _ _ _ _ _ _ _ Ef Er Ed Es) as [H1 H2 H3 H4 H5 H6 H7 H8 H9]. destruct (counts_fields _ _ Hc) as (Hs & _ & _).
    rewrite Hs in H8. rewrite (counts_signature _ _ _ _ _ _ _ _ Hc) in H9. by split.
Qed.

Lemma act_signature_valid s tags venue id sig did x :
  verify_act_signature s tags venue id sig did x = SigValid ->
  exists kid sg key canonical, SigTag.parse sig = Ok (kid, sg) /\ verifying_key_for s did kid x = Some key
    /\ act_canonical tags venue id = Ok canonical /\ ed25519_verify key canonical sg = true.
Proof.
  unfold verify_act_signature, verify_act. destruct (SigTag.parse sig) as [[kid sg]|] eqn:Ep; [|done].
  destruct (verifying_key_for _ _ _ _) as [key|] eqn:Ek; [|done]. destruct (act_canonical tags venue id) as [canonical|[| | | |[]]]; try done.
  unfold SigTag.verify_canonical. rewrite Ep. cbn. destruct (negb _); [done|]. destruct (ed25519_verify key canonical sg) eqn:Ev; [|done].
  intros _. by exists kid, sg, key, canonical.
Qed.

(** ** Refusals *)

Lemma own_event_keeps t kind verb act_id extra venue now d :
  task_db t = Some d -> exists d', task_db (file_own_event sp t kind verb act_id extra venue now).1 = Some d' /\ log_keeps d d'.
Proof.
  intros Hd. unfold file_own_event. rewrite Hd. destruct (act_canonical_of _ _ _) as [canonical|]; [|exists d; split; [done|apply keeps_refl]].
  pose proof (apply_keeps sp (own_event canonical (SigTag.sign_canonical canonical (msg_signing_key (tk_chat t))) (minted now) act_id venue (did_of t) now) d) as Hk.
  destruct (apply_act_event _ _ _) as [d' w]. exists d'. cbn [fst]. split; [by eapply put_task_db|done].
Qed.
Lemma receipt_keeps t kind act_id subject venue now d :
  task_db t = Some d -> exists d', task_db (mint_receipt sp t kind act_id subject venue now).1 = Some d' /\ log_keeps d d'.
Proof.
  intros Hd. unfold mint_receipt.
  destruct (own_event_keeps t kind (cf_verb (sp_confirmation sp)) act_id [("+freeq.at/" +:+ cf_subject (sp_confirmation sp), subject)] venue now d Hd) as (d' & H).
  exists d'. destruct (file_own_event _ _ _ _ _ _ _ _) as [t' [[tags []]|]]; done.
Qed.

(** C18: a task message that is refused leaves no trace. The log, the live tasks
    and the queue of moves to carry are as they were, nobody but the sender
    hears of it, and of the rest of the server only the sender's flood counter
    has moved. *)
Theorem refused_task_leaves_no_trace (t t' : Tasks) (c : Connection) (sid target : string) (tags : Tags) (now : Now) (out : list ChatEffect) :
  gate sp t c sid target tags now = (GateRefused, t', out) ->
  tk_actions t' = tk_actions t /\ tk_routes t' = tk_routes t /\ same_but_counts (tk_chat t) (tk_chat t') /\ only_replies sid out.
Proof.
  unfold gate. destruct (carries_act_tags tags); cbn [negb]; [|done]. destruct (screen_sender _ _ _ _ _ _) as [s [sc|o]] eqn:Es;
    destruct (screen_sender_ok _ _ _ _ _ _ _ _ Es) as [Hc Hs]; [|by intros [= <- <-]].
  destruct (check_rules _ _ _) as [[code sentence]|]; [intros [= <- <-]; split_and!; try done; apply refuse_only|].
  unfold file_client_event. destruct (act_canonical _ _ _) as [canonical|]; [|intros [= <- <-]; split_and!; try done; apply only_replies_nil].
  destruct (task_db _) as [d|] eqn:Ed; [|done]. pose proof (apply_cases (client_event sp sc tags canonical now) d) as Ha.
  destruct (apply_act_event _ _ _) as [d' w].
  assert (unwritten w = true -> put_db d' (set_tk_chat s t) = set_tk_chat s t) as Hput.
  { intros Hw. rewrite Hw in Ha. subst d'. by apply put_same. }
  unfold answer. destruct w as [[was|] landed| | | | | | |r| | | | |]; try done;
    try (rewrite Hput by done; intros [= <- <-]; split_and!; try done; first [apply only_replies_nil|apply refuse_only]).
  - destruct (String.eqb was landed); [done|]. by destruct (mint_receipt _ _ _ _ _ _ _).
  - rewrite Hput by done. destruct (refusal_reply r). intros [= <- <-]. split_and!; try done. apply refuse_only.
Qed.

(** ** Acceptance *)

(** C11: an accepted task message is its sender's own. The sender is logged in,
    the message carries its event id, and a key on file for that account has
    verified the signature over exactly the bytes built from the message's task
    fields, its conversation and its id. Unless its verb is a ruling, those
    bytes and that signature are what the log now holds under that id, where
    nothing was before. *)
Theorem accepted_task_is_signed (t t' : Tasks) (c : Connection) (sid target : string) (tags : Tags) (now : Now) (r : option Receipt)
    (out : list ChatEffect) :
  gate sp t c sid target tags now = (Accepted r, t', out) ->
  exists did id sig venue kid sg key canonical,
    c_authenticated_did c = Some did /\ event_id_of tags = Some id /\ sig_of tags = Some sig
    /\ signing_venue (srv (tk_chat t)) did target = Some venue
    /\ SigTag.parse sig = Ok (kid, sg) /\ verifying_key_for (tk_chat t) did kid (Some sid) = Some key
    /\ act_canonical tags venue id = Ok canonical /\ ed25519_verify key canonical sg = true
    /\ forall d view, task_db t = Some d -> derive_act_view (sp_revival_tag sp) canonical = Some view -> is_ruling sp (v_verb view) = false ->
         events_of d !! id = None
         /\ exists d' e, task_db t' = Some d' /\ events_of d' !! id = Some e /\ e_canonical e = canonical /\ e_signature e = Some sig.
Proof.
  unfold gate. destruct (carries_act_tags tags); cbn [negb]; [|done]. destruct (screen_sender _ _ _ _ _ _) as [s [sc|o]] eqn:Es;
    destruct (screen_sender_ok _ _ _ _ _ _ _ _ Es) as [Hc Hs]; [|done].
  destruct (check_rules _ _ _) as [[code sentence]|]; [done|]. destruct Hs as [_ _ H3 H4 _ _ H7 H8 H9].
  destruct (act_signature_valid _ _ _ _ _ _ _ H9) as (kid & sg & key & canonical & S1 & S2 & S3 & S4).
  unfold file_client_event. rewrite S3. intros H. exists (sc_did sc), (sc_msgid sc), (sc_sig sc), (sc_venue sc), kid, sg, key, canonical.
  split_and!; try done. intros d view Hd Hv Hr.
  assert (task_db (set_tk_chat s t) = Some d) as Ed. { rewrite <- Hd. unfold task_db. cbn. by destruct (counts_fields _ _ Hc) as (_ & -> & _). }
  rewrite Ed in H. set (ev := client_event sp sc tags canonical now) in *. pose proof (apply_cases ev d) as Ha.
  assert (match (apply_act_event sp ev d).2 with Conflict _ | ReceiptBeforeSubject => False | _ => True end) as Hnc.
  { unfold apply_act_event. change (ae_canonical ev) with canonical. rewrite Hv, Hr.
    destruct (is_confirmation sp (v_verb view)) eqn:Ec; [by unfold is_ruling in Hr; rewrite Ec in Hr|].
    destruct (revival_refusal _ _ _); [done|]. destruct (ae_opens ev).
    - destruct (check_open _ _ _ _ _); [|done]. unfold take_move. by destruct (file _ _ _).
    - unfold apply_step. destruct (act_task _ _); [|by destruct (act_task_is_on_file _ _)]. destruct (negb _); [done|].
      destruct (_ && bool_decide _); [by destruct (file _ _ _)|]. destruct (check_move _ _ _ _ _ _ _ _); [|done].
      unfold take_move. by destruct (file _ _ _). }
  destruct (apply_act_event sp ev d) as [d' w]. cbn [snd] in Hnc.
  assert (task_db (put_db d' (set_tk_chat s t)) = Some d') as Ep by (by eapply put_task_db).
  assert (unwritten w = false -> exists d'', task_db t' = Some d'' /\ log_keeps d' d'') as Hk.
  { intros Hw. destruct w as [[was|] landed| | | | | | | | | | | |]; try done; cbn [answer] in H;
      try (injection H as _ <- _; exists d'; split; [done|apply keeps_refl]).
    - destruct (String.eqb was landed); [injection H as _ <- _; exists d'; split; [done|apply keeps_refl]|].
      destruct (receipt_keeps (put_db d' (set_tk_chat s t)) (kind_of tags) (ae_act_id ev) (ae_event_id ev) (ae_venue ev) now d' Ep) as (d2 & D2 & K2).
      destruct (mint_receipt _ _ _ _ _ _ _) as [t2 rc]. cbn in D2. injection H as _ <- _. by exists d2.
    - injection H as _ <- _. exists d'. split; [|apply keeps_refl]. rewrite <- Ep. unfold route_transition_home. by destruct (is_empty _). }
  destruct (unwritten w) eqn:Ew.
  { destruct w as [[|]| | | | | | | | | | | |]; try done; cbn [answer] in H; try done. by destruct (refusal_reply r0). }
  destruct Ha as (f & e & Ef & En & Ee & C1 & C2). destruct (Hk eq_refl) as (d2 & D2 & K2).
  destruct (act_facts _ _ _ _ _ S3 Ef) as (from & _ & ->). cbn in En, Ee. split; [done|].
  destruct (K2 _ _ Ee) as (e2 & E2 & (T1 & T2 & _)). exists d2, e2. rewrite T1, T2. done.
Qed.
End Rules.

(** ** The commands keep the rules *)

Lemma spelled n k : stripped_name n = k -> n = "+freeq.at/" +:+ k \/ n = "freeq.at/" +:+ k \/ n = k.
Proof.
  unfold stripped_name. destruct (strip_prefix "+freeq.at/" n) as [r|] eqn:E1; [intros <-; left; by apply strip_prefix_some|].
  destruct (strip_prefix "freeq.at/" n) as [r|] eqn:E2; intros <-; [right; left; by apply strip_prefix_some|by right; right].
Qed.
(** The spellings a client writes; see [from_twice] and [opener_names_a_task] of
    TaskRuns for what others do. *)
Definition plain_tags (tags : Tags) : Prop :=
  tags !! "from" = None /\ tags !! "freeq.at/from" = None /\ tags !! "freeq.at/act-id" = None.
Lemma named_is_field tags : repeated_field tags = None -> tags !! "freeq.at/act-id" = None ->
  (covered_tags tags).1 !! "act-id" = named_task tags.
Proof.
  intros Hr Hn. unfold named_task, or_else, ACT_ID_TAG. destruct (tags !! "+freeq.at/act-id") as [v|] eqn:E1.
  { by apply (tag_is_field tags "+freeq.at/act-id"). }
  destruct (tags !! "act-id") as [v|] eqn:E2; [by apply (tag_is_field tags "act-id")|].
  destruct ((covered_tags tags).1 !! "act-id") as [v|] eqn:E; [|done]. exfalso. apply (tags_covered _ _ _ Hr) in E as (n & Hv & _ & Hs).
  apply spelled in Hs as [->|[->| ->]].
  - change (tags !! "+freeq.at/act-id" = Some v) in Hv. congruence.
  - change (tags !! "freeq.at/act-id" = Some v) in Hv. congruence.
  - congruence.
Qed.

Section Shipped.
Notation gate := (gate shipped).
Notation tasks_ok := (tasks_ok shipped).

Lemma opener_names_none own tags : check_rules shipped own tags = None ->
  opening_verb shipped (kind_of tags) = Some (verb_of tags) -> named_task tags = None.
Proof.
  unfold check_rules. destruct (negb _); [done|]. destruct (is_confirmation _ _) eqn:Ec; [done|]. intros H E. rewrite bool_decide_eq_true_2 in H by done.
  unfold opening_verb in E. unfold check_open in H. rewrite Ec in H. destruct (sp_kinds shipped !! kind_of tags) as [k|]; [|done]. cbn in E, H.
  injection E as E. rewrite E, String.eqb_refl in H. cbn in H. unfold named_task, or_else.
  destruct (tags !! ACT_ID_TAG); [done|]. by destruct (tags !! "act-id").
Qed.
Lemma client_reads s c sid target tags now sc own canonical :
  screened_ok s c sid target tags now sc -> check_rules shipped own tags = None -> plain_tags tags ->
  act_canonical tags (sc_venue sc) (sc_msgid sc) = Ok canonical -> reads_as (client_event shipped sc tags canonical now).
Proof.
  intros Hs Hc (P1 & P2 & P3) Ht f Hf. destruct (act_facts _ _ _ _ _ Ht Hf) as (from & Ef & ->). cbn. fold (covered_tags tags) in *.
  rewrite tags_from in Ef by done. pose proof (so_actor _ _ _ _ _ _ _ Hs) as Ha. unfold FROM_TAG in Ha. rewrite Ef in Ha. cbn in Ha.
  injection Ha as ->. split_and!; try done. rewrite named_is_field by (done || apply Hs). case_bool_decide as Eo; [|done].
  by rewrite (opener_names_none _ _ Hc Eo).
Qed.
Lemma own_reads d did kind verb act_id extra venue id sig now canonical :
  (extra = [] \/ exists subject, extra = [("+freeq.at/" +:+ cf_subject (sp_confirmation shipped), subject)]) ->
  act_canonical_of (own_pairs shipped d did kind verb act_id extra) venue id = Ok canonical ->
  reads_as (own_event canonical sig id act_id venue did now).
Proof.
  intros Hx Ht f Hf. destruct (act_facts _ _ _ _ _ Ht Hf) as (from & Ef & ->).
  assert ((covered_of (own_pairs shipped d did kind verb act_id extra)).2 = Some did
          /\ (covered_of (own_pairs shipped d did kind verb act_id extra)).1 !! "act-id" = Some act_id) as [E1 E2].
  { unfold own_pairs. destruct (is_ruling _ _); [generalize (pretty (own_rulings_on shipped d act_id did + 1)); intros n|];
      destruct Hx as [->|[subject ->]]; split; vm_compute; reflexivity. }
  rewrite E1 in Ef. injection Ef as <-. by rewrite E2.
Qed.

Definition good (t : Tasks) : Prop := forall d, task_db t = Some d -> tasks_ok d.
Lemma own_event_good t kind verb act_id extra venue now :
  (extra = [] \/ exists subject, extra = [("+freeq.at/" +:+ cf_subject (sp_confirmation shipped), subject)]) ->
  good t -> good (file_own_event shipped t kind verb act_id extra venue now).1.
Proof.
  intros Hx Hok. unfold file_own_event. destruct (task_db t) as [d|] eqn:Ed; [|done]. destruct (act_canonical_of _ _ _) as [c|] eqn:Ec; [|done].
  destruct (apply_act_event _ _ _) as [d' w] eqn:Ea. cbn [fst]. intros d2 Hd2. rewrite (put_task_db t d) in Hd2 by done. injection Hd2 as <-.
  eapply apply_act_event_ok; [by eapply own_reads|by apply Hok|exact Ea].
Qed.
Lemma receipt_good t kind act_id subject venue now : good t -> good (mint_receipt shipped t kind act_id subject venue now).1.
Proof.
  intros Hok. unfold mint_receipt.
  pose proof (own_event_good t kind (cf_verb (sp_confirmation shipped)) act_id [("+freeq.at/" +:+ cf_subject (sp_confirmation shipped), subject)]
                venue now (or_intror (ex_intro _ subject eq_refl)) Hok) as H.
  destruct (file_own_event _ _ _ _ _ _ _ _) as [t' [[tags []]|]]; exact H.
Qed.
Lemma end_task_good verb what t task now : good t -> good (end_task shipped verb what t task now).1.1.
Proof.
  intros Hok. unfold end_task. pose proof (own_event_good t (at_kind task) verb (at_act_id task) [] (at_venue task) now (or_introl eq_refl) Hok) as H.
  destruct (file_own_event _ _ _ _ _ _ _ _) as [t' [[tags []]|]]; exact H.
Qed.
Lemma sweep_good ends stale at_ t :
  (forall t task now, good t -> good (ends t task now).1.1) -> good t -> good (sweep ends stale at_ t).1.
Proof.
  intros He. unfold sweep. change t with (t, @nil ChatEffect).1 at 1. generalize (t, @nil ChatEffect). clear t.
  induction (imap pair stale) as [|it l IH]; intros acc Hok; [done|]. cbn [fold_left]. apply IH.
  specialize (He acc.1 it.2 (at_ it.1) Hok). by destruct (ends _ _ _) as [[t' out] b].
Qed.
Lemma gate_good t c sid target tags now : plain_tags tags -> good t -> good (gate t c sid target tags now).1.2.
Proof.
  intros Hp Hok. unfold TaskGate.gate. destruct (negb _); [done|]. destruct (screen_sender _ _ _ _ _ _) as [s r] eqn:Es.
  destruct (screen_sender_ok _ _ _ _ _ _ _ _ Es) as [Hc Hs].
  assert (good (set_tk_chat s t)) as Hok'.
  { intros d Hd. apply Hok. rewrite <- Hd. unfold task_db. cbn. by destruct (counts_fields _ _ Hc) as (_ & -> & _). }
  destruct r as [sc|]; [|done]. destruct (check_rules _ _ _) as [[]|] eqn:Ek; [done|]. unfold file_client_event.
  destruct (act_canonical _ _ _) as [canonical|] eqn:Ea; [|done]. destruct (task_db _) as [d|] eqn:Ed; [|done].
  destruct (apply_act_event _ _ _) as [d' w] eqn:Ew.
  assert (good (put_db d' (set_tk_chat s t))) as Hput.
  { intros d2 Hd2. rewrite (put_task_db _ d) in Hd2 by done. injection Hd2 as <-. eapply apply_act_event_ok; [by eapply client_reads|by apply Hok'|exact Ew]. }
  unfold answer. destruct w as [[was|] landed| | | | | | |r| | | | |]; try done.
  - destruct (String.eqb was landed); [done|]. pose proof (receipt_good (put_db d' (set_tk_chat s t)) (kind_of tags) (ae_act_id (client_event shipped sc tags canonical now))
      (ae_event_id (client_event shipped sc tags canonical now)) (ae_venue (client_event shipped sc tags canonical now)) now Hput) as H.
    destruct (mint_receipt _ _ _ _ _ _ _) as [t2 rc]. exact H.
  - by destruct (refusal_reply r).
  - cbn. unfold route_transition_home. destruct (is_empty _); exact Hput.
Qed.

(** What is done to the tasks of a server: a message a client sends, a pass of
    either clock, a pass over the moves to carry, and whatever else is written
    to the log. *)
Inductive task_cmd :=
  | CSent (c : Connection) (sid target : string) (tags : Tags) (now : Now)
  | CExpiry (limit_secs : Z) (at_ : nat -> Now)
  | CReview (limit_secs : Z) (at_ : nat -> Now)
  | CFlush (m : option S2sManager) (up : string -> bool) (now : Now)
  | CStored (o : store_op).
Definition task_cmd_step (t : Tasks) (o : task_cmd) : Tasks :=
  match o with
  | CSent c sid target tags now => (gate t c sid target tags now).1.2
  | CExpiry limit_secs at_ => (act_expiry_sweep shipped limit_secs t at_).1
  | CReview limit_secs at_ => (act_review_sweep shipped limit_secs t at_).1
  | CFlush m up now => (flush_pending_routes m up t now).1
  | CStored o => set_tk_chat (on_db (fun d => store_step d o) (tk_chat t)) t
  end.
Definition cmd_plain (o : task_cmd) : Prop := match o with CSent _ _ _ tags _ => plain_tags tags | _ => True end.
Lemma cmd_good t o : cmd_plain o -> good t -> good (task_cmd_step t o).
Proof.
  intros Hp Hok. destruct o as [c sid target tags now|limit at_|limit at_|m up now|o]; cbn [task_cmd_step].
  - by apply gate_good.
  - unfold act_expiry_sweep. destruct (task_db t); [|done]. apply sweep_good; [|done]. intros. by apply end_task_good.
  - unfold act_review_sweep. destruct (task_db t); [|done]. apply sweep_good; [|done]. intros. by apply end_task_good.
  - unfold flush_pending_routes. destruct m; [|done]. destruct (take_due _ _). exact Hok.
  - intros d Hd. unfold task_db in Hd. cbn in Hd. destruct (db (tk_chat t)) as [l|] eqn:El; [|done]. cbn in Hd. injection Hd as <-.
    apply (tasks_ok_keeps shipped (mkTaskDb l (tk_actions t))); [|done|apply Hok; unfold task_db; by rewrite El].
    apply keeps_grows, store_step_log.
Qed.
Lemma cmds_good t cmds : Forall cmd_plain cmds -> good t -> good (fold_left task_cmd_step cmds t).
Proof. intros H. revert t. induction H as [|o l Ho Hl IH]; intros t Hok; [done|]. cbn. apply IH. by apply cmd_good. Qed.

End Shipped.

(** ** Replay *)

(** Tags whose task fields are all spelled with the client prefix. *)
Definition prefixed (tags : Tags) : Prop :=
  forall n v, tags !! n = Some v -> is_act_tag n = true -> n = "+freeq.at/" +:+ stripped_name n.
Lemma prefixed_once tags : prefixed tags -> NoDup (act_fields_of (hash_iter tags)).
Proof.
  intros Hp. assert (NoDup (hash_iter tags).*1) as Hnd by (rewrite hash_iter_perm; apply NoDup_fst_map_to_list).
  assert (forall n v, (n, v) ∈ hash_iter tags -> is_act_tag n = true -> n = "+freeq.at/" +:+ stripped_name n) as Hm.
  { intros n v Hn. apply hash_mem in Hn. by eapply Hp. }
  revert Hnd Hm. generalize (hash_iter tags). clear. intros l. induction l as [|[n v] l IH]; intros Hnd Hm; [constructor|].
  cbn in Hnd. apply NoDup_cons in Hnd as [Hn Hnd]. specialize (IH Hnd). unfold act_fields_of in *. cbn. destruct (is_act_tag n) eqn:Ea.
  - cbn. constructor; [|apply IH; intros; eapply Hm; [by right|done]]. intros Hin. apply list_elem_of_In, in_map_iff in Hin as ([n' v'] & Es & Hf).
    apply filter_In in Hf as [Hin Ha']. cbn in Es, Ha'. apply list_elem_of_In in Hin. apply Hn.
    rewrite (Hm n v (list_elem_of_here _ _) Ea), <- Es, <- (Hm n' v'); [|by right|done]. by apply (list_elem_of_fmap_2 fst _ (n', v')).
  - apply IH. intros. eapply Hm; [by right|done].
Qed.

Lemma prefix_inj : Inj (=) (=) (fun k : string => "+freeq.at/" +:+ k).
Proof. intros a b H. cbn in H. by injection H. Qed.
Lemma stripped_prefix k : stripped_name ("+freeq.at/" +:+ k) = k.
Proof. unfold stripped_name. by rewrite strip_prefix_app. Qed.

(** The fields of a stored document, as tags again. *)
Definition rewired (covered : gmap string string) (from id : string) (signature : option string) : Tags :=
  let tags : Tags := kmap (fun k => "+freeq.at/" +:+ k) (<["from" := from]> covered) in
  let tags := <["msgid" := id]> (<[ChatSig.EVENT_ID_TAG := id]> tags) in
  match signature with Some sig => <[SIG_TAG := sig]> tags | None => tags end.
Lemma wire_tags_of pairs target id c from signature :
  signed_as_act pairs target id c from -> wire_tags_from_canonical c id signature = Some (rewired (covered_of pairs).1 from id signature).
Proof.
  intros [H1 H2 H3 H4 ->]. unfold wire_tags_from_canonical. rewrite json_reads_back. cbn [mbind option_bind].
  set (fields := filter _ _).
  assert (fields = JDoc <$> (DStr <$> <["from" := from]> (covered_of pairs).1)) as Ef.
  { apply map_eq. intros k. unfold fields. rewrite map_lookup_filter, !lookup_fmap, act_members_lookup by apply covered_are_act.
    assert (forall x, is_act_field x = false -> (covered_of pairs).1 !! x = None) as Hx.
    { intros x Hx. destruct ((covered_of pairs).1 !! x) eqn:E; [|done]. apply covered_are_act in E. congruence. }
    destruct (String.eqb_spec k "target") as [->|]; [cbn; by rewrite lookup_insert_ne, Hx|].
    destruct (String.eqb_spec k "id") as [->|]; [cbn; by rewrite lookup_insert_ne, Hx|].
    destruct (String.eqb_spec k "from") as [->|]; [by rewrite lookup_insert_eq|]. rewrite lookup_insert_ne by done.
    destruct ((covered_of pairs).1 !! k); [|done]. cbn. by destruct (String.eqb_spec k "target"), (String.eqb_spec k "id"). }
  rewrite Ef. rewrite bool_decide_eq_true_2.
  - unfold rewired. do 2 f_equal.
    assert (omap str_value (JDoc <$> (DStr <$> <["from" := from]> (covered_of pairs).1)) = <["from" := from]> (covered_of pairs).1) as ->; [|done].
    apply map_eq. intros k. rewrite lookup_omap, !lookup_fmap. by destruct (<["from" := from]> (covered_of pairs).1 !! k).
  - intros k v Hv. rewrite !lookup_fmap in Hv. destruct (<["from" := from]> (covered_of pairs).1 !! k); [|done]. cbn in Hv. injection Hv as <-. by eexists.
Qed.
Lemma rewired_lookup covered from id signature n v : rewired covered from id signature !! n = Some v ->
  (exists k, n = "+freeq.at/" +:+ k /\ <["from" := from]> covered !! k = Some v) \/ (is_act_tag n = false /\ stripped_name n <> "from").
Proof.
  unfold rewired. intros H. set (base := kmap _ _ : Tags) in H.
  assert (base !! n = Some v \/ (is_act_tag n = false /\ stripped_name n <> "from")) as Hb.
  { destruct signature; repeat (apply lookup_insert_Some in H as [[<- _]|[_ H]]; [by right|]); by left. }
  destruct Hb as [Hk|Hk]; [left|by right].
  apply (lookup_kmap_Some (fun k : string => "+freeq.at/" +:+ k)) in Hk as (k & -> & Hk). by exists k.
Qed.
Lemma rewired_reads (covered : Tags) (from id : string) (signature : option string) (k v : string) :
  is_act_field k = true \/ k = "from" -> <["from" := from]> covered !! k = Some v ->
  rewired covered from id signature !! ("+freeq.at/" +:+ k) = Some v.
Proof.
  intros Hk Hv. unfold rewired. set (base := kmap _ _ : Tags).
  assert (base !! ("+freeq.at/" +:+ k) = Some v) as Hb.
  { unfold base. pose proof prefix_inj. by rewrite (lookup_kmap (fun k : string => "+freeq.at/" +:+ k)). }
  assert (forall x, is_act_field (stripped_name x) = false -> stripped_name x <> "from" -> x <> "+freeq.at/" +:+ k) as Hx.
  { intros x H1 H2 ->. rewrite stripped_prefix in H1, H2. destruct Hk; congruence. }
  destruct signature; rewrite ?lookup_insert_ne by (by apply Hx); done.
Qed.

(** C19: what is replayed verifies as the original did. The tags rebuilt from the
    bytes of a stored task event carry its id and its signature and build, for
    the same conversation, the very same bytes: any key accepts or refuses the
    replayed message as it did the one that was sent. *)
Theorem replayed_event_verifies (tags : Tags) (venue id canonical sig key : string) :
  act_canonical tags venue id = Ok canonical ->
  exists tags', wire_tags_from_canonical canonical id (Some sig) = Some tags'
    /\ event_id_of tags' = Some id /\ sig_of tags' = Some sig /\ act_canonical tags' venue id = Ok canonical
    /\ verify_act tags' venue id sig key = verify_act tags venue id sig key.
Proof.
  intros Hc. destruct (act_canonical_ok _ _ _ _ Hc) as [from Hs]. exists (rewired (covered_of (hash_iter tags)).1 from id (Some sig)).
  split; [by apply (wire_tags_of _ _ _ _ _ _ Hs)|].
  split; [by unfold event_id_of, rewired; rewrite !lookup_insert_ne, lookup_insert_eq by done|]. split; [by unfold sig_of, rewired; rewrite lookup_insert_eq|].
  assert (act_canonical (rewired (covered_of (hash_iter tags)).1 from id (Some sig)) venue id = Ok canonical) as E.
  2: { split; [done|]. unfold verify_act. by rewrite E, Hc. }
  destruct Hs as [H1 H2 H3 H4 ->]. set (cv := (covered_of (hash_iter tags)).1) in *. set (tags' := rewired cv from id (Some sig)).
  assert (NoDup (act_fields_of (hash_iter tags'))) as Hnd.
  { apply prefixed_once. intros n v Hv Ha. apply rewired_lookup in Hv as [(k & -> & _)|[Hf _]]; [by rewrite stripped_prefix|congruence]. }
  assert ((covered_of (hash_iter tags')).1 = cv) as Ecv.
  { apply map_eq. intros k. apply option_eq. intros v. rewrite covered_lookup by done. split.
    - intros (n & Hn & Ha & <-). apply hash_mem in Hn. apply rewired_lookup in Hn as [(k & -> & Hk)|[Hf _]]; [|congruence].
      rewrite stripped_prefix. apply lookup_insert_Some in Hk as [[<- _]|[_ Hk]]; [done|done].
    - intros Hk. exists ("+freeq.at/" +:+ k). rewrite is_act_tag_field, stripped_prefix. pose proof (covered_are_act _ _ _ Hk) as Ha. split_and!; [|done|done].
      apply hash_mem. apply rewired_reads; [by left|]. rewrite lookup_insert_ne; [done|]. intros <-. done. }
  assert ((covered_of (hash_iter tags')).2 = Some from) as Efrom.
  { change ((covered_tags tags').2 = Some from). rewrite tags_from; [apply (rewired_reads cv from id (Some sig) "from"); [by right|by rewrite lookup_insert_eq]| |].
    - destruct (tags' !! "from") eqn:E; [|done]. by apply rewired_lookup in E as [(k & Ek & _)|[_ Hn]].
    - destruct (tags' !! "freeq.at/from") eqn:E; [|done]. by apply rewired_lookup in E as [(k & Ek & _)|[_ Hn]]. }
  unfold act_canonical, act_canonical_of. rewrite H1, H2. destruct (covered_of (hash_iter tags')) as [c f]. cbn in Ecv, Efrom. subst.
  by rewrite bool_decide_eq_false_2.
Qed.
End Gate.
