(* ===== verification/TaskRelay.v ===== *)
(** * Task events from other servers

    What becomes of a task event a peer relays: [claimed_signer], [venue_for]
    and [relayed_task_verdict] of [freeq-server/src/act_relay.rs], and from
    [server.rs] the word of the referee an opener names, the judgement
    ([judge_relayed_task_event]), the filing, the events that wait in the queue
    of RelayQueue and are judged again when a key or another event arrives, and
    the move another server asks this one to rule on. The judgement is the
    argument FederatedChat leaves open.

    An event that is judged may release others that waited for it, and so on:
    the recursion is bounded by fuel. The ids of the receipts written on the way
    are drawn from [at_], one per judgement. *)
From stdpp Require Import base gmap strings list pretty fin_maps sorting.
From Stdlib Require Import ZArith Lia Ascii String.
From S2P Require Import Prelude Text Ulid IrcMessage ActTransitions Multiline RelayQueue NickMap RoomTables S2sMessage Channel S2sLink Crdt Federation Primitives SignedDocs MessageStore Routing Messaging MessagingOps FederatedChat TaskDocs TaskLog TaskGate.
Open Scope string_scope.
Open Scope list_scope.
Open Scope Z_scope.

(** ** State *)

(** What a referee's own site says of one of its keys. *)
Inductive OwnHostAnswer := Listed (public_key : string) (retired_at : option Z) | NotListed | CannotAnswer.

Record Network := mkNetwork {
  nw_tasks : Tasks;
  nw_held : Queue (HeldRelay S2sEvent);
  nw_deferred : DeferQueue;
  nw_answers : gmap (string * string) OwnHostAnswer;             (* held_own_host_answer *)
  nw_key_dates : gmap (string * string) (option Z * option Z);   (* removed_at and expires_at of signing_keys *)
  nw_drawn : nat                                                 (* judgements so far *)
}.
Definition set_tasks x (n : Network) := mkNetwork x (nw_held n) (nw_deferred n) (nw_answers n) (nw_key_dates n) (nw_drawn n).
Definition set_deferred x (n : Network) := mkNetwork (nw_tasks n) (nw_held n) x (nw_answers n) (nw_key_dates n) (nw_drawn n).
Definition drawn (n : Network) := mkNetwork (nw_tasks n) (nw_held n) (nw_deferred n) (nw_answers n) (nw_key_dates n) (S (nw_drawn n)).
Definition nw_chat (n : Network) : Chat := tk_chat (nw_tasks n).
Definition relays_of (n : Network) : Relays := mkRelays (nw_chat n) (nw_held n).
Definition set_relays (r : Relays) (n : Network) : Network :=
  mkNetwork (set_tk_chat (chat r) (nw_tasks n)) (held r) (nw_deferred n) (nw_answers n) (nw_key_dates n) (nw_drawn n).

Inductive RelayVerdict := RValid | RInvalid (why : string) | RUnverifiable (why : string).
Inductive TaskEventAction := TDeliver | TDrop | TPark.
Inductive TaskEventStored := Ruled (receipt : option Receipt) | WaitingOn (subject : string) | Withheld | WaitingOnTask (act_id : string).
Inductive RefereeWord := Today | Counts | WordRefused (why : string) | Unasked (referee kid : string).

(** One event as it is judged: as it arrived, and what is known of its wait. *)
Record Arrived := mkArrived {
  ar_from : string; ar_target : string; ar_tags : Tags; ar_origin : string; ar_peer : string; ar_account : option string;
  ar_declared : bool; ar_quiet : bool; ar_stamped : option string; ar_replayed_at : option Z; ar_answer : option OwnHostAnswer }.
Definition parked_as (a : Arrived) (event_id signer kid : string) (waiting_on : option string) (since : option Z) (for_referee : bool)
    : ParkedEvent :=
  mkParked (ar_tags a) (ar_target a) (ar_from a) (ar_account a) (ar_origin a) (ar_peer a) (ar_declared a) event_id signer kid waiting_on
    since (ar_quiet a) (ar_stamped a) (ar_replayed_at a) for_referee 0.
Definition arrived_as (answer : option OwnHostAnswer) (e : ParkedEvent) : Arrived :=
  mkArrived (pk_from e) (pk_target e) (pk_tags e) (pk_origin e) (pk_peer e) (pk_peer_account e) (pk_peer_declared_act e) (pk_quiet e)
    (pk_stamped_origin e) (pk_replayed_at e) answer.

(** ** The verdict *)

Definition claimed_signer (tags : Tags) (sender_did : option string) : option string :=
  if carries_act_tags tags then or_else (tags !! "+freeq.at/from") (tags !! "from") else sender_did.
Definition dm_venue_names (venue did : string) : bool :=
  match strip_prefix "dm:" venue with Some dids => existsb (String.eqb did) (str_split "," dids) | None => false end.

Section Relay.
Context {P : Primitives} {B64 : Base64} {J : JsonText} {KB : KeyBytes} {UD : UrlDecode} {IT : IsoTime} {CF : CaseFold} {TR : Trim} {HO : HashOrder}.
Variable sp : Spec.
Variable at_ : nat -> Now.

Definition venue_for (target from_did : string) (dm_recipient_did task_venue : option string) : option string :=
  if ChatSig.is_channel_name target then Some (ChatSig.channel_venue target)
  else if is_system_actor from_did then
    venue ← task_venue; addressed ← dm_recipient_did; if dm_venue_names venue addressed then Some venue else None
  else ChatSig.dm_venue from_did <$> dm_recipient_did.
Definition coordination_doc_from_tags (tags : Tags) (from event_id venue event_type : string) : ChatSig.ChatDoc :=
  ChatSig.opt_with ChatSig.with_evidence (tags !! "+freeq.at/evidence-type")
    (ChatSig.opt_with ChatSig.with_ref (or_else (tags !! "+freeq.at/ref") (tags !! "+freeq.at/task-id"))
      (ChatSig.opt_with ChatSig.with_payload (tags !! "+freeq.at/payload") (ChatSig.coordination from event_id venue event_type))).

Definition relayed_task_verdict (tags : Tags) (target : string) (sender_did dm_recipient_did task_venue : option string)
    (lookup : string -> string -> option string) : RelayVerdict :=
  let is_act := carries_act_tags tags in
  if negb is_act && negb (is_some (tags !! "+freeq.at/event")) then RUnverifiable "not a task event"
  else match claimed_signer tags sender_did with
  | None => RUnverifiable "missing from: the event names no actor DID"
  | Some from =>
  match event_id_of tags with
  | None => RUnverifiable "missing id: the event carries no signer-minted id"
  | Some event_id =>
  match venue_for target from dm_recipient_did task_venue with
  | None => RUnverifiable "missing target: no venue resolves for the delivery target"
  | Some venue =>
  match sig_of tags with
  | None => RUnverifiable "the event carries no signature"
  | Some sig_tag =>
  match SigTag.parse sig_tag with
  | Err (SigTag.UnsupportedAlgorithm _) => RUnverifiable "unsupported signature algorithm"
  | Err _ => RUnverifiable "sig tag is not alg:kid:sig"
  | Ok (kid, _) =>
  match lookup from kid with
  | None => RUnverifiable NO_KEY_ON_FILE
  | Some key =>
      if is_act then
        match verify_act tags venue event_id sig_tag key with
        | Ok _ => RValid
        | Err (ActSig SigTag.Invalid) => RInvalid "signature does not verify over the act document"
        | Err _ => RUnverifiable "unusable signature tag"
        end
      else
        match ChatSig.verify (coordination_doc_from_tags tags from event_id venue (default "" (tags !! "+freeq.at/event"))) sig_tag key with
        | Ok _ => RValid
        | Err e => if SigTag.is_unverifiable e then RUnverifiable "unusable signature tag"
                   else RInvalid "signature does not verify over the coordination document"
        end
  end end end end end end.

(** ** The task an event names *)

Definition opens_task (tags : Tags) : bool := bool_decide (opening_verb sp (kind_of tags) = Some (verb_of tags)).
Definition dropped_task_id (tags : Tags) (event_id : string) : option string :=
  if negb (carries_act_tags tags) then None else if opens_task tags then Some event_id else named_task tags.
Definition relayed_task_venue (t : Tasks) (tags : Tags) (event_id : string) : option string :=
  act_id ← dropped_task_id tags event_id; d ← task_db t; act_task_venue d act_id.
Definition dm_recipient (t : Tasks) (target : string) : option string :=
  if ChatSig.is_channel_name target then None else recipient_did_for_target (srv (tk_chat t)) target.

(** ** The referee's word *)

Definition own_key_row (n : Network) (did kid : string) : option (string * option Z) :=
  d ← db (nw_chat n);
  key ← get_signing_key_by_kid d did kid;
  let '(removed, expires) := default (None, None) (nw_key_dates n !! (did, kid)) in
  Some (key, match removed, expires with Some a, Some b => Some (Z.min a b) | Some a, None => Some a | None, b => b end).
(** [retired.saturating_mul(1000) <= at_ms] *)
Definition stopped_by (retired_at : option Z) (at_ : Z) : bool :=
  match retired_at with Some r => Z.max (- 2 ^ 63) (Z.min (2 ^ 63 - 1) (r * 1000)) <=? at_ | None => false end.
Definition minted_ms (event_id : string) (now : Now) : Z :=
  match msgid_timestamp_ms event_id with Some ms => if ms <? 2 ^ 63 then ms else at_ms now | None => at_ms now end.
Definition judge_key (tags : Tags) (target : string) (account : option string) (event_id : string) (recipient task_venue : option string)
    (referee kid key : string) (retired_at : option Z) (now : Now) : RefereeWord :=
  match relayed_task_verdict tags target account recipient task_venue
          (fun did asked => if String.eqb did referee && String.eqb asked kid then if key_decodes key then Some key else None else None) with
  | RValid => if stopped_by retired_at (minted_ms event_id now) then WordRefused "signed at or after its key stopped counting" else Counts
  | _ => WordRefused "does not verify against the referee's key"
  end.
Definition referee_word (n : Network) (tags : Tags) (target : string) (account : option string) (event_id : string)
    (recipient task_venue : option string) (settled : option OwnHostAnswer) (now : Now) : RefereeWord :=
  match parse_event tags with
  | None => Today
  | Some ev =>
  if negb (is_ruling sp (pa_verb ev)) then Today
  else match pa_fields ev !! "act-id" with
  | None => Today
  | Some act_id =>
  match (d ← task_db (nw_tasks n); act_task_home d act_id) with
  | None => Today
  | Some referee =>
  if negb (String.eqb (default "" (claimed_signer tags account)) referee)
  then WordRefused "signed by someone other than the task's referee"
  else match SigTag.parse (default "" (sig_of tags)) with
  | Err _ => WordRefused "not signed"
  | Ok (kid, _) =>
      if String.eqb referee (did_of (nw_tasks n)) then
        match own_key_row n referee kid with
        | Some (key, retired) => judge_key tags target account event_id recipient task_venue referee kid key retired now
        | None => WordRefused "a key this server does not list as its own"
        end
      else
        match match nw_answers n !! (referee, kid) with Some a => Some a | None => settled end with
        | None => Unasked referee kid
        | Some CannotAnswer => Today
        | Some NotListed => WordRefused "a key the referee's own site does not list"
        | Some (Listed key retired) => judge_key tags target account event_id recipient task_venue referee kid key retired now
        end
  end end end end.

(** ** Filing *)

Definition relayed_act_event (tags : Tags) (canonical event_id venue signer origin : string) (by_referee : bool) (filed_at : Z) : ActEvent :=
  mkActEvent canonical (sig_of tags) event_id (if opens_task tags then event_id else default "" (named_task tags)) (opens_task tags) venue
    signer (is_system_actor signer) by_referee (if is_empty origin then None else Some origin) filed_at.
(** What the log's answer comes to, once no receipt is owed. *)
Definition settle_write (t : Tasks) (tags : Tags) (target from signer : string) (ev : ActEvent) (written : ActWrite) (now : Now)
    : Tasks * TaskEventStored :=
  let home := d ← task_db t; act_task_origin d (ae_act_id ev) in
  match written with
  | Conflict _ | WrongVenue => (t, Withheld)
  | ReceiptBeforeSubject => (t, WaitingOn (default "" (tags !! ("+freeq.at/" +:+ cf_subject (sp_confirmation sp)))))
  | StoredNotApplied =>
      (route_transition_home t (mkWire (ae_act_id ev) (ae_event_id ev) tags target from (Some signer)) (default "" home) now, Ruled None)
  | UnknownTask => (t, if is_empty (ae_act_id ev) then Ruled None else WaitingOnTask (ae_act_id ev))
  | RefusedWrite _ => (t, if bool_decide (home = Some "") then Withheld else Ruled None)
  | _ => (t, Ruled None)
  end.
Definition store_act (t : Tasks) (tags : Tags) (target origin from signer event_id venue : string) (by_referee : bool) (filed_at : Z)
    (now : Now) : Tasks * TaskEventStored :=
  match act_canonical tags venue event_id with
  | Err _ => (t, Ruled None)
  | Ok canonical =>
      match task_db t with
      | None => (t, Ruled None)
      | Some d =>
          let ev := relayed_act_event tags canonical event_id venue signer origin by_referee filed_at in
          let '(d', written) := apply_act_event sp ev d in
          let '(t, receipt) := receipt_for_applied_move sp (put_db d' t)
                                 (mkMove (kind_of tags) (ae_act_id ev) event_id venue signer written) now in
          if is_some receipt then (t, Ruled receipt) else settle_write t tags target from signer ev written now
      end
  end.
Definition store_coordination (t : Tasks) (tags : Tags) (target signer event_id venue event_type : string) (filed_at : Z) : Tasks :=
  let canonical := ChatSig.canonical (coordination_doc_from_tags tags signer event_id venue event_type) in
  let payload := match tags !! "+freeq.at/payload" with None => "{}" | Some raw => default raw (url_decode raw) end in
  let event := mkCoord event_id event_type signer target (or_else (tags !! "+freeq.at/ref") (tags !! "+freeq.at/task-id")) payload
                 (sig_of tags) filed_at in
  set_tk_chat (on_db (fun d => (store_coordination_event event (Some (canonical, Valid)) d).1) (tk_chat t)) t.
Definition store_relayed_task_event (t : Tasks) (tags : Tags) (target origin : string) (account : option string) (from : string)
    (by_referee : bool) (replayed_at : option Z) (now : Now) : Tasks * TaskEventStored :=
  match claimed_signer tags account with
  | None => (t, Ruled None)
  | Some signer =>
  match event_id_of tags with
  | None => (t, Ruled None)
  | Some event_id =>
  match venue_for target signer (dm_recipient t target) (relayed_task_venue t tags event_id) with
  | None => (t, Ruled None)
  | Some venue =>
      let filed_at := default (secs now) replayed_at in
      if carries_act_tags tags then store_act t tags target origin from signer event_id venue by_referee filed_at now
      else match tags !! "+freeq.at/event" with
           | None => (t, Ruled None)
           | Some event_type => (store_coordination t tags target signer event_id venue event_type filed_at, Ruled None)
           end
  end end end.

(** ** Judging *)

Definition on_file (n : Network) (did kid : string) : option string :=
  d ← db (nw_chat n); key ← get_signing_key_by_kid d did kid; if key_decodes key then Some key else None.
Definition note_dropped_unchecked (n : Network) (e : ParkedEvent) : Network :=
  match dropped_task_id (pk_tags e) (pk_event_id e), task_db (nw_tasks n) with
  | Some act_id, Some d => set_tasks (put_db (bump_act_dropped_unchecked act_id d) (nw_tasks n)) n
  | _, _ => n
  end.
Definition deliver_unfiled (n : Network) (e : ParkedEvent) : list RelayEffect :=
  if pk_quiet e then [] else map Told (deliver_relayed_tagmsg (nw_chat n) (pk_from e) (pk_target e) (pk_tags e) (pk_peer_account e) true).
Definition names_ruling (tags : Tags) : bool := match parse_event tags with Some ev => is_ruling sp (pa_verb ev) | None => false end.

(** The rest is recursive through the queue: [judge] stands for
    [judge_parked_events]. *)
Section Wait.
Variable judge : Network -> list ParkedEvent -> option OwnHostAnswer -> Network * list RelayEffect.

Definition release_events_waiting_on (n : Network) (subject : string) : Network * list RelayEffect :=
  let '(waiting, q) := judged (nw_deferred n) subject true in
  let n := set_deferred q n in
  match waiting with [] => (n, []) | _ => judge n waiting None end.
Definition release_behind_dropped_ruling (n : Network) (e : ParkedEvent) : Network * list RelayEffect :=
  if names_ruling (pk_tags e) then release_events_waiting_on n (pk_event_id e) else (n, []).
Fixpoint settle_dropped (n : Network) (dropped : list ParkedEvent) : Network * list RelayEffect :=
  match dropped with
  | [] => (n, [])
  | e :: rest =>
      let '(n, out) := if is_some (pk_awaiting_task_since e) then (n, deliver_unfiled n e)
                       else release_behind_dropped_ruling (note_dropped_unchecked n e) e in
      let '(n, out') := settle_dropped n rest in (n, out ++ out')
  end.
Definition park_event (n : Network) (e : ParkedEvent) (now : Now) : Network * list RelayEffect :=
  let '(q, dropped) := park sp (nw_deferred n) (at_ms now) e in settle_dropped (set_deferred q n) dropped.
Definition retry_deferred_task_events_with (n : Network) (did kid : string) (answer : option OwnHostAnswer) : Network * list RelayEffect :=
  let '(r, out) := release_held_relays (relays_of n) did kid in
  let n := set_relays r n in
  let '(waiting, q) := defer_take_for_signer (nw_deferred n) did kid in
  let n := set_deferred q n in
  match waiting with [] => (n, out) | _ => let '(n, out') := judge n waiting answer in (n, out ++ out') end.
Definition park_for_referee (n : Network) (e : ParkedEvent) (now : Now) : Network * list RelayEffect :=
  let '(n, out) := park_event n e now in
  if is_some (nw_answers n !! (pk_signer e, pk_kid e))
  then let '(n, out') := retry_deferred_task_events_with n (pk_signer e) (pk_kid e) None in
       (n, out ++ [AskOwnHost (pk_signer e) (pk_kid e)] ++ out')
  else (n, out ++ [AskOwnHost (pk_signer e) (pk_kid e)]).
Definition park_for_key (n : Network) (e : ParkedEvent) (now : Now) : Network * list RelayEffect :=
  let '(n, out) := park_event n e now in
  if negb (is_empty (pk_signer e)) && negb (is_empty (pk_kid e)) && is_some (on_file n (pk_signer e) (pk_kid e))
  then let '(n, out') := retry_deferred_task_events_with n (pk_signer e) (pk_kid e) None in (n, out ++ out')
  else (n, out).

Definition waits (a : Arrived) (event_id : string) (n : Network) (waiting_on : string) (since : option Z) (now : Now)
    : Network * TaskEventAction * option Receipt * list RelayEffect :=
  let '(n, out) := park_event n (parked_as a event_id "" "" (Some waiting_on) since false) now in (n, TPark, None, out).
(** Past the queue and the referee's word. *)
Definition judge_signature (n : Network) (a : Arrived) (event_id signer : string) (recipient task_venue : option string) (by_referee : bool)
    (filed_origin : string) (now : Now) : Network * TaskEventAction * option Receipt * list RelayEffect :=
  match (if by_referee then RValid
         else relayed_task_verdict (ar_tags a) (ar_target a) (ar_account a) recipient task_venue (on_file n)) with
  | RValid =>
      let '(t, stored) := store_relayed_task_event (nw_tasks n) (ar_tags a) (ar_target a) filed_origin (ar_account a) (ar_from a) by_referee
                            (ar_replayed_at a) now in
      let n := drawn (set_tasks t n) in
      match stored with
      | Ruled receipt => (n, TDeliver, receipt, [])
      | WaitingOn subject => waits a event_id n subject None now
      | WaitingOnTask act_id => waits a event_id n act_id (Some (at_ms now)) now
      | Withheld => (n, TDrop, None, [])
      end
  | RInvalid _ => (n, TDrop, None, [])
  | RUnverifiable why =>
      let missing_key := String.eqb why NO_KEY_ON_FILE && negb (is_empty signer) in
      let sig_tag := default "" (sig_of (ar_tags a)) in
      let kid := match SigTag.parse sig_tag with Ok (kid, _) => kid | Err _ => "" end in
      let e := parked_as a event_id signer kid None None false in
      let '(n, out) := if missing_key then park_for_key n e now else park_event n e now in
      (n, TPark, None, (if missing_key then [FetchKey (ar_origin a) signer sig_tag] else []) ++ out)
  end.
Definition speaks_for_home (a : Arrived) (signer : string) : bool :=
  match parse_event (ar_tags a) with Some ev => is_confirmation sp (pa_verb ev) | None => false end || is_system_actor signer.
(** Held during catch-up, for the home, by a link that is not its home's. *)
Definition wrong_link (n : Network) (a : Arrived) : bool :=
  match (ev ← parse_event (ar_tags a); act_id ← pa_fields ev !! "act-id"; d ← task_db (nw_tasks n); act_task_origin d act_id) with
  | Some home => negb (is_empty home) && negb (String.eqb home (ar_peer a))
  | None => false
  end.
Definition judge_relayed_task_event (n : Network) (a : Arrived) : Network * TaskEventAction * option Receipt * list RelayEffect :=
  let now := at_ (nw_drawn n) in
  let tags := ar_tags a in
  let event_id := default "" (event_id_of tags) in
  if is_empty (ar_origin a) then (n, TDrop, None, [])
  else if is_some (repeated_field tags) then (n, TDrop, None, [])
  else match (task ← pa_task_id <$> parse_event tags; held_for_referee (nw_deferred n) task event_id) with
  | Some ruling => waits a event_id n ruling None now
  | None =>
      let recipient := dm_recipient (nw_tasks n) (ar_target a) in
      let task_venue := relayed_task_venue (nw_tasks n) tags event_id in
      let signer := default "" (claimed_signer tags (ar_account a)) in
      let go by_referee :=
        if ar_quiet a && negb by_referee && speaks_for_home a signer && wrong_link n a then (n, TDrop, None, [])
        else
          let filed_origin := match ar_stamped a with
                              | Some stamped => if speaks_for_home a signer then ar_origin a else stamped
                              | None => ar_origin a
                              end in
          judge_signature n a event_id signer recipient task_venue by_referee filed_origin now in
      match referee_word n tags (ar_target a) (ar_account a) event_id recipient task_venue (ar_answer a) now with
      | WordRefused _ => (n, TDrop, None, [])
      | Unasked referee kid =>
          let '(n, out) := park_for_referee n (parked_as a event_id referee kid None None true) now in (n, TPark, None, out)
      | Counts => go true
      | Today => go false
      end
  end.

(** One event taken out of the queue. *)
Definition judge_parked_event (n : Network) (e : ParkedEvent) (answer : option OwnHostAnswer) : Network * list RelayEffect :=
  let now := at_ (nw_drawn n) in
  let '(n, action, receipt, out) := judge_relayed_task_event n (arrived_as answer e) in
  let shown := match action with TDeliver => deliver_unfiled n e | _ => [] end in
  let confirmed := match receipt with Some r => map Told (broadcast_receipt (nw_chat n) r (pk_target e) now) | None => [] end in
  let '(n, released) :=
    match action with
    | TDeliver => release_events_waiting_on n (pk_event_id e)
    | TDrop => release_behind_dropped_ruling n e
    | TPark => if pk_for_referee e && negb (is_held_for_referee (nw_deferred n) (pk_event_id e))
               then release_events_waiting_on n (pk_event_id e) else (n, [])
    end in
  let n := if pk_for_referee e then set_deferred (judged (nw_deferred n) (pk_event_id e) false).2 n else n in
  (n, out ++ shown ++ confirmed ++ released).
Fixpoint judge_each (n : Network) (waiting : list ParkedEvent) (answer : option OwnHostAnswer) : Network * list RelayEffect :=
  match waiting with
  | [] => (n, [])
  | e :: rest => let '(n, out) := judge_parked_event n e answer in let '(n, out') := judge_each n rest answer in (n, out ++ out')
  end.
End Wait.

Fixpoint judge_parked_events (fuel : nat) (n : Network) (waiting : list ParkedEvent) (answer : option OwnHostAnswer)
    : Network * list RelayEffect :=
  match fuel with O => (n, []) | S f => judge_each (judge_parked_events f) n waiting answer end.

(** ** From the link *)

Variable fuel : nat.
Notation judge := (judge_parked_events fuel).
Definition release (n : Network) (subject : string) := release_events_waiting_on judge n subject.
Definition key_arrived (n : Network) (did kid : string) (answer : option OwnHostAnswer) := retry_deferred_task_events_with judge n did kid answer.
Definition release_overdue_task_waits (n : Network) (limit : Z) (now : Now) : Network * list RelayEffect :=
  let '(overdue, q) := take_overdue_task_waits (nw_deferred n) (at_ms now) limit in
  (set_deferred q n, flat_map (deliver_unfiled n) overdue).

(** What the effects of a message come to: receipts are told, and what waited
    for the event is judged. *)
Fixpoint carry_out (n : Network) (out : list RelayEffect) (now : Now) : Network * list RelayEffect :=
  match out with
  | [] => (n, [])
  | x :: rest =>
      let '(n, now_out) := match x with
                           | Told (BroadcastReceipt r target) => (n, map Told (broadcast_receipt (nw_chat n) r target now))
                           | ReleaseWaiting id => release n id
                           | x => (n, [x])
                           end in
      let '(n, out') := carry_out n rest now in (n, now_out ++ out')
  end.
Definition relayed_tagmsg (mgr : S2sManager) (n : Network) (v : Envelope) (from target : string) (tags : Tags) (account : option string)
    (now : Now) : Network * list RelayEffect :=
  let is_task := carries_act_tags tags || is_some (tags !! "+freeq.at/event") in
  let a := mkArrived (sanitize_s2s_str from 512) (sanitize_s2s_str target 200) tags (en_origin v) (en_peer v)
             ((fun x => sanitize_s2s_str x 512) <$> account) (peer_supports (declared_by mgr (en_peer v)) ACT) false None None None in
  let '(n', action, receipt, out) := if is_task then judge_relayed_task_event judge n a else (n, TDeliver, None, []) in
  let delivers := match action with TDeliver => true | _ => false end in
  let '(r, out) := s2s_tagmsg_in (fun _ _ _ _ _ _ _ _ => mkJudgement delivers receipt (relays_of n') out) mgr (relays_of n) v from target
                     tags account now in
  carry_out (set_relays r n') out now.

Definition act_events_naming (d : TaskDb) (subject : string) : list StoredEvent :=
  match act_event d subject with
  | Some e => act_task_events d (default (f_event_id (e_facts e)) (f_subject (e_facts e)))
  | None => []
  end.
Definition act_receipt_for_subject (d : TaskDb) (subject : string) : option StoredEvent :=
  List.find (fun e => match derive_act_view (sp_revival_tag sp) (e_canonical e) with
                      | Some view => is_confirmation sp (v_verb view)
                                     && bool_decide (v_fields view !! cf_subject (sp_confirmation sp) = Some subject)
                      | None => false
                      end) (act_events_naming d subject).
Definition stored_receipt (n : Network) (subject target : string) : option S2sMessage :=
  d ← task_db (nw_tasks n);
  stored ← act_receipt_for_subject d subject;
  tags ← wire_tags_from_canonical (e_canonical stored) (f_event_id (e_facts stored)) (e_signature stored);
  Some (Tagmsg (server_name (srv (nw_chat n))) (peer_target_for (f_venue (e_facts stored)) target) tags (Some (did_of (nw_tasks n)))).

(** The arm of [process_s2s_event] for a move this server is asked to rule on. *)
Definition act_route_in (mgr : S2sManager) (n : Network) (v : Envelope) (act_id act_event_id : string) (tags : Tags) (target from : string)
    (account : option string) (up : bool) (now : Now) : Network * list RelayEffect * option (S2sMessage * RouteOutcome) :=
  let act_id := sanitize_s2s_str act_id 100 in
  let act_event_id := sanitize_s2s_str act_event_id 100 in
  let target := sanitize_s2s_str target 200 in
  match (d ← task_db (nw_tasks n); act_task_origin d act_id) with
  | Some "" =>
      let a := mkArrived (sanitize_s2s_str from 512) target tags (en_origin v) (en_peer v) ((fun x => sanitize_s2s_str x 512) <$> account)
                 (peer_supports (declared_by mgr (en_peer v)) ACT) false None None None in
      let '(n, action, receipt, out) := judge_relayed_task_event judge n a in
      let '(n, released) := match action with TDeliver => release n act_event_id | _ => (n, []) end in
      match receipt with
      | Some r => (n, out ++ released ++ map Told (broadcast_receipt (nw_chat n) r target now), None)
      | None => (n, out ++ released, (fun m => (m, send_act_to_peer mgr (en_peer v) up)) <$> stored_receipt n act_event_id target)
      end
  | _ => (n, [], None)
  end.
End Relay.
