(* ===== verification/TaskRelaySpec.v ===== *)
(** * What holds of relayed task events

    Theorems about TaskRelay: whatever waits, is released and judged, in
    whatever order, nothing is filed that a key on file, or one the referee's
    own site lists, does not vouch for, apart from the server's own signed
    receipts; nothing is shown before it is proven; and a ruling on a task whose
    opener names its referee counts only as that referee's. *)
From stdpp Require Import base gmap strings list pretty fin_maps sorting.
From Stdlib Require Import ZArith Lia Ascii String.
From S2P Require Import Prelude Text Ulid IrcMessage ActTransitions Multiline RelayQueue NickMap RoomTables S2sMessage Channel S2sLink Crdt Federation Primitives SignedDocs MessageStore Routing Messaging MessagingOps FederatedChat TaskDocs TaskLog TaskLogSpec TaskGate TaskGateSpec TaskRelay.
Open Scope string_scope.
Open Scope list_scope.
Open Scope Z_scope.

Section Relay.
Context {P : Primitives} {B64 : Base64} {J : JsonText} {KB : KeyBytes} {UD : UrlDecode} {IT : IsoTime} {CF : CaseFold} {TR : Trim} {HO : HashOrder}.
Variable sp : Spec.
Variable at_ : nat -> Now.

(** ** What a step adds to the log *)

(** The key table stays, and every row, but for its ruling; a new row
    satisfies [Q]. *)
Record adds (Q : StoredEvent -> Prop) (d d' : MsgDb) : Prop := {
  ad_keys : signing_keys d' = signing_keys d;
  ad_kept : forall id e, events d !! id = Some e -> exists e', events d' !! id = Some e' /\ same_act e e';
  ad_rows : forall id e', events d' !! id = Some e' -> (exists e, events d !! id = Some e /\ same_act e e') \/ Q e'
}.
Definition stable (Q : StoredEvent -> Prop) : Prop := forall e e', same_act e e' -> Q e -> Q e'.
Lemma adds_refl Q d : adds Q d d.
Proof. split; [done|eauto using same_act_refl|]. intros id e H. left. eauto using same_act_refl. Qed.
Lemma adds_trans Q a b c : stable Q -> adds Q a b -> adds Q b c -> adds Q a c.
Proof.
  intros Hs [K1 P1 R1] [K2 P2 R2]. split; [congruence| |].
  { intros id e H. destruct (P1 _ _ H) as (e1 & E1 & S1). destruct (P2 _ _ E1) as (e2 & E2 & S2). eauto using same_act_trans. }
  intros id e H. destruct (R2 _ _ H) as [(e1 & E1 & S1)|]; [|by right].
  destruct (R1 _ _ E1) as [(e0 & E0 & S0)|Hq]; [left; exists e0; eauto using same_act_trans|right; by eapply Hs].
Qed.
Lemma adds_weaken (Q Q' : StoredEvent -> Prop) d d' : (forall e, Q e -> Q' e) -> adds Q d d' -> adds Q' d d'.
Proof. intros H [K Pk R]. split; [done|done|]. intros id e He. destruct (R _ _ He); [by left|right; auto]. Qed.
Lemma adds_events Q d d' : signing_keys d' = signing_keys d -> events d' = events d -> adds Q d d'.
Proof. intros K E. split; [done|rewrite E; eauto using same_act_refl|]. rewrite E. intros id e H. left. eauto using same_act_refl. Qed.

Lemma grown_kept d d' : log_grows d d' -> forall id e, events d !! id = Some e -> exists e', events d' !! id = Some e' /\ same_act e e'.
Proof. intros H. exact (keeps_grows (mkTaskDb d ∅) (mkTaskDb d' ∅) H). Qed.

(** The bytes and signature of one event. *)
Definition is_of (canonical : string) (signature : option string) (e : StoredEvent) : Prop :=
  e_canonical e = canonical /\ e_signature e = signature.
Lemma is_of_stable c s : stable (is_of c s).
Proof. intros e e' (S1 & S2 & _) [H1 H2]. split; congruence. Qed.

Lemma file_adds ev c d d' : file ev c d = Some d' -> adds (is_of (ae_canonical ev) (ae_signature ev)) (log d) (log d').
Proof.
  intros Hf. pose proof (file_keeps _ _ _ _ Hf) as Hk. revert Hf.
  unfold file, insert_event, act_record. cbn [r_shape r_signature r_ctx r_timestamp]. destruct (derive_facts _) as [f|]; [|done]. cbn.
  destruct (events (log d) !! f_event_id f); [done|]. intros [= <-]. split; [done|exact Hk|]. cbn. intros id e He.
  apply lookup_insert_Some in He as [[<- <-]|[_ He]]; [by right|]. left. eauto using same_act_refl.
Qed.
Lemma on_log_adds Q f d : log_keeps d (on_log f d) -> (forall id e', f (events_of d) !! id = Some e' -> exists e, events_of d !! id = Some e /\ same_act e e') ->
  adds Q (log d) (log (on_log f d)).
Proof. intros Hk H. split; [done|exact Hk|]. intros id e He. left. by apply H. Qed.
Lemma confirm_adds Q id d : adds Q (log d) (log (confirm_act_event id d)).
Proof.
  apply on_log_adds; [apply confirm_keeps|]. intros k e' H. rewrite lookup_alter in H. case_decide; [|eauto using same_act_refl]. subst.
  destruct (events_of d !! k) as [e|]; [|done]. cbn in H. injection H as <-. exists e. split; [done|]. by destruct (is_act e).
Qed.
Lemma supersede_adds Q act_id keep d : adds Q (log d) (log (supersede_refused_act_events sp act_id keep d)).
Proof.
  apply on_log_adds; [apply supersede_keeps|]. intros k e' H. rewrite lookup_fmap in H. destruct (events_of d !! k) as [e|]; [|done]. cbn in H. injection H as <-.
  exists e. split; [done|]. by destruct (outrun _ _ _ _ _).
Qed.
Lemma materialize_log ev view kind was landed named d : log (materialize_act sp ev view kind was landed named d) = log d.
Proof. unfold materialize_act. by destruct (is_terminal _ _ _), (ae_opens ev). Qed.

Lemma apply_adds ev d : adds (is_of (ae_canonical ev) (ae_signature ev)) (log d) (log (apply_act_event sp ev d).1).
Proof.
  pose proof (is_of_stable (ae_canonical ev) (ae_signature ev)) as Hst. set (Q := is_of _ _) in *.
  unfold apply_act_event. destruct (derive_act_view _ _) as [view|]; [|apply adds_refl]. destruct (if is_ruling _ _ then _ else _); [apply adds_refl|].
  assert (forall c, adds Q (log d) (log (match file ev c d with Some d' => d' | None => d end))) as Hf.
  { intros c. destruct (file ev c d) eqn:Ef; [by eapply file_adds|apply adds_refl]. }
  assert (forall kind was landed named, adds Q (log d) (log (take_move sp ev view kind was landed named d).1)) as Hm.
  { intros. unfold take_move. destruct (file ev _ d) as [d1|] eqn:Ef; [|apply adds_refl]. cbn [fst].
    eapply adds_trans; [done|by eapply file_adds|]. rewrite <- (materialize_log ev view kind was landed named d1). apply supersede_adds. }
  destruct (is_confirmation _ _).
  - unfold apply_receipt. destruct (negb _); [apply adds_refl|]. destruct (act_task_origin _ _); [|apply adds_refl].
    destruct (negb _); [specialize (Hf (Some Ignored)); by destruct (file ev _ d)|]. destruct (act_event d _) as [nm|]; [|apply adds_refl].
    specialize (Hf None). destruct (file ev None d) as [d1|]; [|apply adds_refl]. destruct (negb _); [done|].
    destruct (apply_confirmed_event _ _ _ _) as [[d2 l]|] eqn:Ea; [|done]. cbn [fst].
    assert (log d2 = log d1) as El.
    { unfold apply_confirmed_event in Ea. destruct (derive_act_view _ _); [|done]. destruct (act_task d1 _); [|done].
      destruct (check_move _ _ _ _ _ _ _ _); [|done]. injection Ea as <- _. apply materialize_log. }
    eapply adds_trans; [done|exact Hf|]. rewrite <- El. eapply adds_trans; [done|apply confirm_adds|apply supersede_adds].
  - destruct (revival_refusal _ _ _); [apply adds_refl|]. destruct (ae_opens ev).
    + destruct (check_open _ _ _ _ _); [apply Hm|apply adds_refl].
    + unfold apply_step. destruct (act_task d _); [|apply adds_refl]. destruct (negb _); [apply adds_refl|].
      destruct (_ && bool_decide _); [specialize (Hf (Some Unconfirmed)); by destruct (file ev _ d)|].
      destruct (check_move _ _ _ _ _ _ _ _); [apply Hm|apply adds_refl].
Qed.
Lemma card_adds event canonical state d :
  adds (is_of canonical (c_signature event)) d (store_coordination_event event (Some (canonical, state)) d).1.
Proof.
  pose proof (grown_kept _ _ (proj2 (store_card_log event (Some (canonical, state)) d))) as Hk. revert Hk.
  unfold store_coordination_event. destruct (coordination_events d !! c_event_id event) as [filed|].
  - destruct (negb _); [intros; apply adds_refl|]. destruct (same_content _ _); [intros; apply adds_refl|]. cbn. unfold record_event_conflict.
    intros Hk. split; [done|exact Hk|]. cbn. intros id e' H. rewrite lookup_alter in H. left. case_decide; [|eauto using same_act_refl]. subst.
    destruct (events d !! _) as [e|]; [|done]. cbn in H. injection H as <-. exists e. split; [done|]. unfold same_act, note_conflict. repeat case_match; done.
  - unfold insert_event. cbn [r_shape r_signature r_ctx r_timestamp]. destruct (derive_facts canonical) as [f|]; [|intros; apply adds_refl]. cbn.
    destruct (events d !! f_event_id f); [intros; apply adds_refl|]. cbn. intros Hk. split; [done|exact Hk|]. cbn. intros id e He.
    apply lookup_insert_Some in He as [[<- <-]|[_ He]]; [by right|]. left. eauto using same_act_refl.
Qed.

(** ** What vouches for an event *)

(** The keys on file, the answers of the referees' sites, the server's own key. *)
Definition Vouchers : Type := option (gmap (string * string) string) * gmap (string * string) OwnHostAnswer * string.
Definition vouchers (n : Network) : Vouchers := (signing_keys <$> db (nw_chat n), nw_answers n, msg_signing_key (nw_chat n)).
Definition known (x : Vouchers) (answer : option OwnHostAnswer) (did kid key : string) : Prop :=
  (exists keys, x.1.1 = Some keys /\ keys !! (did, kid) = Some key)
  \/ (exists r, x.1.2 !! (did, kid) = Some (Listed key r)) \/ (exists r, answer = Some (Listed key r)).
(** Signed with a key that is known, or by the server itself. *)
Definition proven (x : Vouchers) (answer : option OwnHostAnswer) (e : StoredEvent) : Prop :=
  (exists did kid sg key sig, e_signature e = Some sig /\ SigTag.parse sig = Ok (kid, sg) /\ known x answer did kid key
     /\ ed25519_verify key (e_canonical e) sg = true)
  \/ e_signature e = Some (SigTag.sign_canonical (e_canonical e) x.2).
Lemma proven_stable x answer : stable (proven x answer).
Proof. intros e e' (S1 & S2 & _). unfold proven. by rewrite S1, S2. Qed.
Lemma proven_weaken x answer e : proven x None e -> proven x answer e.
Proof.
  intros [(did & kid & sg & key & sig & H1 & H2 & H3 & H4)|H]; [left|by right]. exists did, kid, sg, key, sig. split_and!; try done.
  destruct H3 as [H3|[H3|[r H3]]]; [by left|by right; left|done].
Qed.

Definition dgrows (Q : StoredEvent -> Prop) (o o' : option MsgDb) : Prop :=
  match o, o' with Some d, Some d' => adds Q d d' | None, None => True | _, _ => False end.
Lemma dgrows_refl Q o : dgrows Q o o.
Proof. destruct o; [apply adds_refl|done]. Qed.
Lemma dgrows_trans Q a b c : stable Q -> dgrows Q a b -> dgrows Q b c -> dgrows Q a c.
Proof. destruct a, b, c; try done. apply adds_trans. Qed.
Lemma dgrows_weaken (Q Q' : StoredEvent -> Prop) o o' : (forall e, Q e -> Q' e) -> dgrows Q o o' -> dgrows Q' o o'.
Proof. intros H. destruct o, o'; try done. by apply adds_weaken. Qed.
Lemma dgrows_keys Q o o' : dgrows Q o o' -> signing_keys <$> o' = signing_keys <$> o.
Proof. destruct o, o'; try done. intros [K _ _]. cbn. by rewrite K. Qed.

(** What one step of the server may do. *)
Definition grows (answer : option OwnHostAnswer) (n n' : Network) : Prop :=
  vouchers n' = vouchers n /\ dgrows (proven (vouchers n) answer) (db (nw_chat n)) (db (nw_chat n')).
Lemma grows_refl answer n : grows answer n n.
Proof. split; [done|apply dgrows_refl]. Qed.
Lemma grows_trans answer a b c : grows answer a b -> grows answer b c -> grows answer a c.
Proof.
  intros [V1 D1] [V2 D2]. split; [congruence|]. rewrite V1 in D2. eapply dgrows_trans; [apply proven_stable|done|done].
Qed.
Lemma grows_weaken answer n n' : grows None n n' -> grows answer n n'.
Proof. intros [V D]. split; [done|]. eapply dgrows_weaken; [|exact D]. apply proven_weaken. Qed.
Lemma grows_same answer n n' : nw_chat n' = nw_chat n -> nw_answers n' = nw_answers n -> grows answer n n'.
Proof. intros E1 E2. split; [unfold vouchers; by rewrite E1, E2|]. rewrite E1. apply dgrows_refl. Qed.

(** On the tasks alone. *)
Definition tgrows (Q : StoredEvent -> Prop) (t t' : Tasks) : Prop :=
  msg_signing_key (tk_chat t') = msg_signing_key (tk_chat t) /\ dgrows Q (db (tk_chat t)) (db (tk_chat t')).
Lemma tgrows_refl Q t : tgrows Q t t.
Proof. split; [done|apply dgrows_refl]. Qed.
Lemma tgrows_trans Q a b c : stable Q -> tgrows Q a b -> tgrows Q b c -> tgrows Q a c.
Proof. intros Hs [V1 D1] [V2 D2]. split; [congruence|by eapply dgrows_trans]. Qed.
Lemma tgrows_weaken (Q Q' : StoredEvent -> Prop) t t' : (forall e, Q e -> Q' e) -> tgrows Q t t' -> tgrows Q' t t'.
Proof. intros H [V D]. split; [done|by eapply dgrows_weaken]. Qed.
Lemma put_tgrows Q t d d' : task_db t = Some d -> adds Q (log d) (log d') -> tgrows Q t (put_db d' t).
Proof.
  intros Hd Ha. split; [done|]. cbn. unfold task_db in Hd. destruct (db (tk_chat t)) as [l|]; [|done]. cbn in Hd. injection Hd as <-. exact Ha.
Qed.
Lemma set_tasks_grows answer n t : tgrows (proven (vouchers n) answer) (nw_tasks n) t -> grows answer n (set_tasks t n).
Proof. intros [V D]. split; [|done]. unfold vouchers, nw_chat. cbn [nw_tasks set_tasks nw_answers]. rewrite V. f_equal. f_equal. by eapply dgrows_keys. Qed.

Definition own_signed (key : string) (e : StoredEvent) : Prop := e_signature e = Some (SigTag.sign_canonical (e_canonical e) key).
Lemma own_event_tgrows t kind verb act_id extra venue now :
  tgrows (own_signed (msg_signing_key (tk_chat t))) t (file_own_event sp t kind verb act_id extra venue now).1.
Proof.
  unfold file_own_event. destruct (task_db t) as [d|] eqn:Ed; [|apply tgrows_refl]. destruct (act_canonical_of _ _ _) as [c|]; [|apply tgrows_refl].
  set (ev := own_event _ _ _ _ _ _ _). pose proof (apply_adds ev d) as Ha. destruct (apply_act_event _ _ _) as [d' w]. cbn [fst] in *.
  eapply put_tgrows; [done|]. eapply adds_weaken; [|exact Ha]. intros e [H1 H2]. unfold own_signed. by rewrite H1, H2.
Qed.
Lemma receipt_tgrows t m now : tgrows (own_signed (msg_signing_key (tk_chat t))) t (receipt_for_applied_move sp t m now).1.
Proof.
  unfold receipt_for_applied_move. destruct (mv_written m) as [[was|] landed| | | | | | | | | | | |]; try apply tgrows_refl.
  destruct (_ || _); [apply tgrows_refl|]. case_bool_decide as Hb; [|apply tgrows_refl]. unfold mint_receipt.
  pose proof (own_event_tgrows t (mv_kind m) (cf_verb (sp_confirmation sp)) (mv_act_id m)
    [("+freeq.at/" +:+ cf_subject (sp_confirmation sp), mv_event_id m)] (mv_venue m) now) as H.
  destruct (file_own_event _ _ _ _ _ _ _ _) as [t' [[tags []]|]]; exact H.
Qed.
Lemma route_tgrows Q t w home now : tgrows Q t (route_transition_home t w home now).
Proof. unfold route_transition_home. destruct (is_empty _); [apply tgrows_refl|]. split; [done|apply dgrows_refl]. Qed.
Lemma settle_write_tgrows Q t tags target from signer ev w now : tgrows Q t (settle_write sp t tags target from signer ev w now).1.
Proof. unfold settle_write. destruct w; try apply tgrows_refl. apply route_tgrows. Qed.

(** ** The verdict *)

Lemma relayed_verdict_valid tags target account recipient task_venue lookup :
  relayed_task_verdict tags target account recipient task_venue lookup = RValid ->
  exists from id venue sig kid sg key, claimed_signer tags account = Some from /\ event_id_of tags = Some id
    /\ venue_for target from recipient task_venue = Some venue /\ sig_of tags = Some sig /\ SigTag.parse sig = Ok (kid, sg)
    /\ lookup from kid = Some key
    /\ (if carries_act_tags tags then exists c, act_canonical tags venue id = Ok c /\ ed25519_verify key c sg = true
        else exists event_type, tags !! "+freeq.at/event" = Some event_type
             /\ ed25519_verify key (ChatSig.canonical (coordination_doc_from_tags tags from id venue event_type)) sg = true).
Proof.
  unfold relayed_task_verdict. destruct (negb _ && negb _) eqn:E0; [done|]. destruct (claimed_signer _ _) as [from|]; [|done].
  destruct (event_id_of tags) as [id|]; [|done]. destruct (venue_for _ _ _ _) as [venue|] eqn:Ev; [|done]. destruct (sig_of tags) as [sig|]; [|done].
  destruct (SigTag.parse sig) as [[kid sg]|[]] eqn:Ep; try done. destruct (lookup from kid) as [key|] eqn:El; [|done]. intros H.
  exists from, id, venue, sig, kid, sg, key. split_and!; try done. destruct (carries_act_tags tags).
  - unfold verify_act in H. rewrite Ep in H. destruct (act_canonical tags venue id) as [c|[| | | |[]]]; try done. exists c. split; [done|].
    revert H. unfold SigTag.verify_canonical. rewrite Ep. cbn [res_bind fst snd]. destruct (negb (String.eqb _ _)); [done|]. by destruct (ed25519_verify key c sg).
  - cbn in E0. destruct (tags !! "+freeq.at/event") as [et|]; [|done]. exists et. split; [done|]. revert H. cbn [default].
    unfold ChatSig.verify, SigTag.verify_canonical. rewrite Ep. cbn [res_bind fst snd]. destruct (negb (String.eqb _ _)); [done|]. by destruct (ed25519_verify _ _ _).
Qed.

Lemma store_grows n a answer lookup origin by_referee now :
  relayed_task_verdict (ar_tags a) (ar_target a) (ar_account a) (dm_recipient (nw_tasks n) (ar_target a))
    (relayed_task_venue sp (nw_tasks n) (ar_tags a) (default "" (event_id_of (ar_tags a)))) lookup = RValid ->
  (forall did kid key, lookup did kid = Some key -> known (vouchers n) answer did kid key) ->
  tgrows (proven (vouchers n) answer) (nw_tasks n)
    (store_relayed_task_event sp (nw_tasks n) (ar_tags a) (ar_target a) origin (ar_account a) (ar_from a) by_referee (ar_replayed_at a) now).1.
Proof.
  intros Hv Hk. destruct (relayed_verdict_valid _ _ _ _ _ _ Hv) as (from & id & venue & sig & kid & sg & key & E1 & E2 & E3 & E4 & E5 & E6 & E7).
  pose proof (Hk _ _ _ E6) as Hkn. unfold store_relayed_task_event. rewrite E1, E2. rewrite E2 in E3. change (default "" (Some id)) with id in E3. rewrite E3.
  assert (forall c, ed25519_verify key c sg = true -> forall e, is_of c (Some sig) e -> proven (vouchers n) answer e) as Hq.
  { intros c Hc e [H1 H2]. left. exists from, kid, sg, key, sig. by rewrite H1, H2. }
  destruct (carries_act_tags (ar_tags a)) eqn:Ea.
  - destruct E7 as (c & Ec & Hc). unfold store_act. rewrite Ec. destruct (task_db (nw_tasks n)) as [d|] eqn:Ed; [|apply tgrows_refl].
    set (ev := relayed_act_event _ _ _ _ _ _ _ _ _). pose proof (apply_adds ev d) as Ha. destruct (apply_act_event _ _ _) as [d' w]. cbn [fst] in Ha.
    assert (tgrows (proven (vouchers n) answer) (nw_tasks n) (put_db d' (nw_tasks n))) as H1.
    { eapply put_tgrows; [done|]. eapply adds_weaken; [|exact Ha]. change (ae_canonical ev) with c. change (ae_signature ev) with (sig_of (ar_tags a)).
      rewrite E4. by apply Hq. }
    pose proof (receipt_tgrows (put_db d' (nw_tasks n)) (mkMove (kind_of (ar_tags a)) (ae_act_id ev) id venue from w) now) as H2.
    destruct (receipt_for_applied_move _ _ _ _) as [t2 rc]. cbn [fst] in H2.
    assert (tgrows (proven (vouchers n) answer) (nw_tasks n) t2) as H3.
    { eapply tgrows_trans; [apply proven_stable|exact H1|]. eapply tgrows_weaken; [|exact H2]. intros e He. by right. }
    destruct (is_some rc); [done|]. eapply tgrows_trans; [apply proven_stable|exact H3|apply settle_write_tgrows].
  - destruct E7 as (et & Et & Hc). rewrite Et. split; [done|]. cbn. unfold store_coordination. cbn.
    destruct (db (tk_chat (nw_tasks n))) as [d|]; [|done]. cbn. set (card := mkCoord _ _ _ _ _ _ _ _).
    eapply adds_weaken; [|exact (card_adds card _ Valid d)]. change (c_signature card) with (sig_of (ar_tags a)). rewrite E4. by apply Hq.
Qed.

Lemma on_file_known n answer did kid key : on_file n did kid = Some key -> known (vouchers n) answer did kid key.
Proof.
  unfold on_file, get_signing_key_by_kid. destruct (db (nw_chat n)) as [d|] eqn:Ed; [|done]. cbn.
  destruct (signing_keys d !! (did, kid)) as [b|] eqn:Ek; [|done]. destruct (_ =? _)%nat; [|done]. cbn. destruct (key_decodes b); [|done].
  intros [= <-]. left. exists (signing_keys d). unfold vouchers. cbn. by rewrite Ed.
Qed.
Lemma own_row_known n answer did kid key r : own_key_row n did kid = Some (key, r) -> known (vouchers n) answer did kid key.
Proof.
  unfold own_key_row, get_signing_key_by_kid. destruct (db (nw_chat n)) as [d|] eqn:Ed; [|done]. cbn.
  destruct (signing_keys d !! (did, kid)) as [b|] eqn:Ek; [|done]. destruct (_ =? _)%nat; [|done]. cbn. destruct (default _ _).
  intros [= <- _]. left. exists (signing_keys d). unfold vouchers. cbn. by rewrite Ed.
Qed.

(** The referee's word rests on a verdict with one key, and that key is known. *)
Lemma judge_key_counts tags target account event_id recipient task_venue referee kid key retired now :
  judge_key tags target account event_id recipient task_venue referee kid key retired now = Counts ->
  exists lookup, relayed_task_verdict tags target account recipient task_venue lookup = RValid
    /\ forall did k x, lookup did k = Some x -> did = referee /\ k = kid /\ x = key.
Proof.
  unfold judge_key. set (lookup := fun did asked : string => _). destruct (relayed_task_verdict _ _ _ _ _ lookup) eqn:E; [|done..].
  intros _. exists lookup. split; [done|]. intros did k x H. unfold lookup in H. destruct (String.eqb_spec did referee); [|done].
  destruct (String.eqb_spec k kid); [|done]. cbn in H. destruct (key_decodes key); [|done]. by injection H as <-.
Qed.
Lemma judge_key_words tags target account event_id recipient task_venue referee kid key retired now :
  judge_key tags target account event_id recipient task_venue referee kid key retired now <> Today
  /\ forall r k, judge_key tags target account event_id recipient task_venue referee kid key retired now <> Unasked r k.
Proof. unfold judge_key. destruct (relayed_task_verdict _ _ _ _ _ _); try done. by destruct (stopped_by _ _). Qed.

Lemma referee_counts n tags target account event_id recipient task_venue settled now :
  referee_word sp n tags target account event_id recipient task_venue settled now = Counts ->
  exists lookup, relayed_task_verdict tags target account recipient task_venue lookup = RValid
    /\ forall did kid key, lookup did kid = Some key -> known (vouchers n) settled did kid key.
Proof.
  unfold referee_word. destruct (parse_event tags) as [ev|]; [|done]. destruct (negb _); [done|]. destruct (pa_fields ev !! "act-id") as [act_id|]; [|done].
  destruct (d ← _; _) as [referee|]; [|done]. destruct (negb _); [done|]. destruct (SigTag.parse _) as [[kid sg]|]; [|done].
  destruct (String.eqb referee _).
  - destruct (own_key_row n referee kid) as [[key retired]|] eqn:Eo; [|done]. intros H. destruct (judge_key_counts _ _ _ _ _ _ _ _ _ _ _ H) as (lookup & Hv & Hl).
    exists lookup. split; [done|]. intros did k x Hx. destruct (Hl _ _ _ Hx) as (-> & -> & ->). by eapply own_row_known.
  - destruct (nw_answers n !! (referee, kid)) as [[key retired| |]|] eqn:Ea; try done; [|destruct settled as [[key retired| |]|] eqn:Es; try done];
      intros H; destruct (judge_key_counts _ _ _ _ _ _ _ _ _ _ _ H) as (lookup & Hv & Hl); exists lookup; (split; [done|]);
      intros did k x Hx; destruct (Hl _ _ _ Hx) as (-> & -> & ->); [right; left; by exists retired|right; right; by exists retired].
Qed.

(** ** Waiting and release *)

Lemma deferred_grows answer n q : grows answer n (set_deferred q n).
Proof. by apply grows_same. Qed.
Lemma dropped_grows answer n e : grows answer n (note_dropped_unchecked sp n e).
Proof.
  unfold note_dropped_unchecked. destruct (dropped_task_id _ _ _); [|apply grows_refl]. destruct (task_db (nw_tasks n)) as [d|] eqn:Ed; [|apply grows_refl].
  apply set_tasks_grows. eapply put_tgrows; [done|apply adds_refl].
Qed.

Section Wait.
Variable judge : Network -> list ParkedEvent -> option OwnHostAnswer -> Network * list RelayEffect.
Hypothesis judge_grows : forall n waiting answer, grows answer n (judge n waiting answer).1.

Lemma release_grows answer n subject : grows answer n (release_events_waiting_on judge n subject).1.
Proof.
  unfold release_events_waiting_on. destruct (judged _ _ _) as [waiting q]. destruct waiting as [|e l]; [apply deferred_grows|].
  eapply grows_trans; [apply (deferred_grows answer n q)|]. apply grows_weaken, judge_grows.
Qed.
Lemma release_behind_grows answer n e : grows answer n (release_behind_dropped_ruling sp judge n e).1.
Proof. unfold release_behind_dropped_ruling. destruct (names_ruling _ _); [apply release_grows|apply grows_refl]. Qed.
Lemma settle_grows answer dropped : forall n, grows answer n (settle_dropped sp judge n dropped).1.
Proof.
  induction dropped as [|e l IH]; intros n; [apply grows_refl|]. cbn [settle_dropped].
  destruct (if is_some _ then _ else _) as [n1 o1] eqn:E1. assert (grows answer n n1) as H1.
  { change n1 with (n1, o1).1. rewrite <- E1. destruct (is_some _); [apply grows_refl|]. eapply grows_trans; [apply dropped_grows|apply release_behind_grows]. }
  specialize (IH n1). destruct (settle_dropped sp judge n1 l) as [n2 o2]. by eapply grows_trans.
Qed.
Lemma park_grows answer n e now : grows answer n (park_event sp judge n e now).1.
Proof.
  unfold park_event. destruct (park _ _ _ _) as [q dropped]. eapply grows_trans; [apply (deferred_grows answer n q)|apply settle_grows].
Qed.
Lemma retry_grows n did kid answer : grows answer n (retry_deferred_task_events_with judge n did kid answer).1.
Proof.
  unfold retry_deferred_task_events_with, release_held_relays. destruct (held_take_for_signer _ _ _) as [items q1].
  destruct (defer_take_for_signer _ _ _) as [waiting q].
  assert (grows answer n (set_deferred q (set_relays (set_held q1 (relays_of n)) n))) as H by (apply grows_same; [by destruct n as [[]]|done]).
  destruct waiting as [|e l]; [exact H|].
  pose proof (judge_grows (set_deferred q (set_relays (set_held q1 (relays_of n)) n)) (e :: l) answer) as H2.
  destruct (judge _ _ _) as [n2 o2]. exact (grows_trans _ _ _ _ H H2).
Qed.
Lemma retry_grows_any answer n did kid : grows answer n (retry_deferred_task_events_with judge n did kid None).1.
Proof. apply grows_weaken, retry_grows. Qed.
Lemma park_for_grows answer n e now :
  grows answer n (park_for_key sp judge n e now).1 /\ grows answer n (park_for_referee sp judge n e now).1.
Proof.
  unfold park_for_key, park_for_referee. pose proof (park_grows answer n e now) as H. destruct (park_event _ _ _ _ _) as [n1 o1]. cbn [fst] in H.
  pose proof (retry_grows_any answer n1 (pk_signer e) (pk_kid e)) as H2. destruct (retry_deferred_task_events_with _ _ _ _ _) as [n2 o2]. cbn [fst] in H2.
  split; [destruct (_ && is_some _)|destruct (is_some _)]; cbn [fst]; eauto using grows_trans.
Qed.
Lemma waits_grows answer a id n w since now : grows answer n (waits sp judge a id n w since now).1.1.1.
Proof. unfold waits. pose proof (park_grows answer n (parked_as a id "" "" (Some w) since false) now) as H. by destruct (park_event _ _ _ _ _). Qed.

Lemma judge_signature_grows n a signer by_referee origin now :
  (by_referee = true -> exists lookup,
     relayed_task_verdict (ar_tags a) (ar_target a) (ar_account a) (dm_recipient (nw_tasks n) (ar_target a))
       (relayed_task_venue sp (nw_tasks n) (ar_tags a) (default "" (event_id_of (ar_tags a)))) lookup = RValid
     /\ forall did kid key, lookup did kid = Some key -> known (vouchers n) (ar_answer a) did kid key) ->
  grows (ar_answer a) n
    (judge_signature sp judge n a (default "" (event_id_of (ar_tags a))) signer (dm_recipient (nw_tasks n) (ar_target a))
       (relayed_task_venue sp (nw_tasks n) (ar_tags a) (default "" (event_id_of (ar_tags a)))) by_referee origin now).1.1.1.
Proof.
  intros Hr. unfold judge_signature. set (id := default "" _) in *. set (recipient := dm_recipient _ _) in *. set (tv := relayed_task_venue _ _ _ _) in *.
  destruct (if by_referee then _ else _) as [|why|why] eqn:Ev; [|apply grows_refl|].
  - assert (tgrows (proven (vouchers n) (ar_answer a)) (nw_tasks n)
      (store_relayed_task_event sp (nw_tasks n) (ar_tags a) (ar_target a) origin (ar_account a) (ar_from a) by_referee (ar_replayed_at a) now).1) as Ht.
    { destruct by_referee; [destruct (Hr eq_refl) as (lookup & H1 & H2); by eapply store_grows|].
      eapply store_grows; [exact Ev|]. intros. by apply on_file_known. }
    destruct (store_relayed_task_event _ _ _ _ _ _ _ _ _ _) as [t stored]. cbn [fst] in Ht. apply set_tasks_grows in Ht.
    assert (grows (ar_answer a) n (drawn (set_tasks t n))) as Hd by (eapply grows_trans; [exact Ht|by apply grows_same]).
    destruct stored; try exact Hd; (eapply grows_trans; [exact Hd|apply waits_grows]).
  - set (e := parked_as _ _ _ _ _ _ _). pose proof (park_for_grows (ar_answer a) n e now) as [H1 _]. pose proof (park_grows (ar_answer a) n e now) as H2.
    destruct (_ && negb (is_empty signer)); [destruct (park_for_key _ _ _ _ _)|destruct (park_event _ _ _ _ _)]; done.
Qed.
Lemma judge_relayed_grows n a : grows (ar_answer a) n (judge_relayed_task_event sp at_ judge n a).1.1.1.
Proof.
  unfold judge_relayed_task_event. destruct (is_empty (ar_origin a)); [apply grows_refl|]. destruct (is_some (repeated_field _)); [apply grows_refl|].
  destruct (task ← _; _) as [ruling|]; [apply waits_grows|]. destruct (referee_word _ _ _ _ _ _ _ _ _ _) as [| |why|referee kid] eqn:Er; [| |apply grows_refl|].
  - destruct (_ && wrong_link _ _); [apply grows_refl|]. by apply judge_signature_grows.
  - destruct (_ && wrong_link _ _); [apply grows_refl|]. apply judge_signature_grows. intros _. by eapply referee_counts.
  - set (e := parked_as _ _ _ _ _ _ _). set (now := at_ _). pose proof (park_for_grows (ar_answer a) n e now) as [_ H].
    by destruct (park_for_referee _ _ _ _ _).
Qed.
Lemma judge_parked_event_grows n e answer : grows answer n (judge_parked_event sp at_ judge n e answer).1.
Proof.
  unfold judge_parked_event. pose proof (judge_relayed_grows n (arrived_as answer e)) as H. cbn [ar_answer arrived_as] in H.
  destruct (judge_relayed_task_event _ _ _ _ _) as [[[n1 action] rc] out]. cbn [fst] in H.
  destruct (match action with TDeliver => release_events_waiting_on _ _ _ | _ => _ end) as [n2 o2] eqn:E2.
  assert (grows answer n1 n2) as H2.
  { change n2 with (n2, o2).1. rewrite <- E2. destruct action; [apply release_grows|apply release_behind_grows|].
    destruct (_ && _); [apply release_grows|apply grows_refl]. }
  cbn [fst]. eapply grows_trans; [exact H|]. eapply grows_trans; [exact H2|]. destruct (pk_for_referee e); [apply deferred_grows|apply grows_refl].
Qed.
Lemma judge_each_grows waiting answer : forall n, grows answer n (judge_each sp at_ judge n waiting answer).1.
Proof.
  induction waiting as [|e l IH]; intros n; [apply grows_refl|]. cbn [judge_each]. pose proof (judge_parked_event_grows n e answer) as H.
  destruct (judge_parked_event _ _ _ _ _ _) as [n1 o1]. specialize (IH n1). destruct (judge_each _ _ _ _ _ _). by eapply grows_trans.
Qed.
End Wait.

Lemma judge_parked_grows fuel : forall n waiting answer, grows answer n (judge_parked_events sp at_ fuel n waiting answer).1.
Proof. induction fuel as [|f IH]; intros n waiting answer; [apply grows_refl|]. by apply judge_each_grows. Qed.

(** ** Theorems *)

(** What happens to the tasks from outside: an event arrives, a key or a site's
    answer does, an event others wait for is on file, or waits run out. *)
Inductive net_op :=
  | NEvent (a : Arrived)
  | NKey (did kid : string) (answer : option OwnHostAnswer)
  | NFiled (subject : string)
  | NOverdue (limit : Z) (now : Now).
Definition op_answer (o : net_op) : option OwnHostAnswer :=
  match o with NEvent a => ar_answer a | NKey _ _ answer => answer | _ => None end.
Definition net_step (fuel : nat) (n : Network) (o : net_op) : Network :=
  match o with
  | NEvent a => (judge_relayed_task_event sp at_ (judge_parked_events sp at_ fuel) n a).1.1.1
  | NKey did kid answer => (key_arrived sp at_ fuel n did kid answer).1
  | NFiled subject => (release sp at_ fuel n subject).1
  | NOverdue limit now => (release_overdue_task_waits n limit now).1
  end.
Lemma net_step_grows fuel n o : grows (op_answer o) n (net_step fuel n o).
Proof.
  destruct o; cbn [net_step op_answer].
  - apply judge_relayed_grows, judge_parked_grows.
  - apply retry_grows, judge_parked_grows.
  - apply release_grows, judge_parked_grows.
  - unfold release_overdue_task_waits. destruct (take_overdue_task_waits _ _ _). apply deferred_grows.
Qed.

(** C12: a relayed task event is filed only with proof. Whatever arrives, waits
    and is released, however long the chain of events that were waiting for one
    another: a row that is in the log afterwards and was not before carries a
    signature over its very bytes by a key on file, by one a referee's own site
    lists, or by this server. *)
Theorem relayed_events_are_proven (fuel : nat) (n : Network) (o : net_op) (d d' : MsgDb) (id : string) (e : StoredEvent) :
  db (nw_chat n) = Some d -> db (nw_chat (net_step fuel n o)) = Some d' -> events d' !! id = Some e -> events d !! id = None ->
  proven (vouchers n) (op_answer o) e.
Proof.
  intros Hd Hd' He Hn. destruct (net_step_grows fuel n o) as [_ Hg]. rewrite Hd, Hd' in Hg. destruct Hg as [_ _ Hr].
  destruct (Hr _ _ He) as [(e0 & E0 & _)|]; [congruence|done].
Qed.

Lemma judge_delivers judge n a n' r out :
  judge_relayed_task_event sp at_ judge n a = (n', TDeliver, r, out) ->
  exists lookup, relayed_task_verdict (ar_tags a) (ar_target a) (ar_account a) (dm_recipient (nw_tasks n) (ar_target a))
      (relayed_task_venue sp (nw_tasks n) (ar_tags a) (default "" (event_id_of (ar_tags a)))) lookup = RValid
    /\ forall did kid key, lookup did kid = Some key -> known (vouchers n) (ar_answer a) did kid key.
Proof.
  unfold judge_relayed_task_event. destruct (is_empty _); [done|]. destruct (is_some _); [done|]. destruct (task ← _; _).
  { unfold waits. by destruct (park_event _ _ _ _ _). }
  destruct (referee_word _ _ _ _ _ _ _ _ _ _) as [| |why|referee kid] eqn:Er; [| |done|by destruct (park_for_referee _ _ _ _ _)].
  - destruct (_ && wrong_link _ _); [done|]. unfold judge_signature. destruct (relayed_task_verdict _ _ _ _ _ (on_file n)) eqn:Ev; [|done|].
    + intros _. exists (on_file n). split; [done|]. intros. by apply on_file_known.
    + by destruct (if _ && _ then _ else _).
  - intros _. by eapply referee_counts.
Qed.

(** A relayed task event is shown only with proof. An event the judgement
    lets through names a signer and an id, and a key known for that signer has
    verified its signature over exactly the document the event's tags, its
    conversation and its id make. *)
Theorem shown_only_with_proof (fuel : nat) (n n' : Network) (a : Arrived) (r : option Receipt) (out : list RelayEffect) :
  judge_relayed_task_event sp at_ (judge_parked_events sp at_ fuel) n a = (n', TDeliver, r, out) ->
  exists from id venue sig kid sg key, claimed_signer (ar_tags a) (ar_account a) = Some from /\ event_id_of (ar_tags a) = Some id
    /\ sig_of (ar_tags a) = Some sig /\ SigTag.parse sig = Ok (kid, sg) /\ known (vouchers n) (ar_answer a) from kid key
    /\ (if carries_act_tags (ar_tags a) then exists c, act_canonical (ar_tags a) venue id = Ok c /\ ed25519_verify key c sg = true
        else exists event_type, ar_tags a !! "+freeq.at/event" = Some event_type
             /\ ed25519_verify key (ChatSig.canonical (coordination_doc_from_tags (ar_tags a) from id venue event_type)) sg = true).
Proof.
  intros H. destruct (judge_delivers _ _ _ _ _ _ H) as (lookup & Hv & Hk).
  destruct (relayed_verdict_valid _ _ _ _ _ _ Hv) as (from & id & venue & sig & kid & sg & key & E1 & E2 & _ & E4 & E5 & E6 & E7).
  exists from, id, venue, sig, kid, sg, key. split_and!; eauto.
Qed.

End Relay.
