(* ===== verification/TaskRuns.v ===== *)
(** * Tasks on a concrete server

    The server of MessagingRuns: Ana posts a task in the channel, Bob takes it;
    the theorems of TaskLogSpec and TaskGateSpec at work on it, and runs that
    show behaviour the comments of the code do not lead to expect. *)
From stdpp Require Import base gmap strings list pretty fin_maps sorting.
From Stdlib Require Import ZArith Lia Ascii String.
From S2P Require Import Prelude Text Ulid IrcMessage ActTransitions Multiline RelayQueue NickMap RoomTables S2sMessage Channel S2sLink Primitives SignedDocs MessageStore Routing Messaging MessagingOps MessagingSpec TaskDocs TaskLog TaskLogSpec TaskGate TaskGateSpec MessagingRuns.
Open Scope string_scope.
Open Scope list_scope.
Open Scope Z_scope.

#[local] Existing Instances ascii_fold ascii_trimming map_order toy_primitives toy_base64 toy_json any_key verbatim seconds.

(** ** The server *)

Definition tasks_on (ch : ChannelState) : Tasks := mkTasks (chat_on empty_db ch) ∅ (new_routes 8).
Definition act_tags (key : string) (id : string) (pairs : list (string * string)) : Tags :=
  let tags : Tags := <[ChatSig.EVENT_ID_TAG := id]> (list_to_map pairs) in
  match sign_act tags "#cats" id key with Ok sig => <[SIG_TAG := sig]> tags | Err _ => tags end.
Definition task_tags (key did kind verb id : string) (more : list (string * string)) : Tags :=
  act_tags key id ([(KIND_TAG, kind); (VERB_TAG, verb); (FROM_TAG, did)] ++ more).
Definition sends (t : Tasks) (c : Connection) (sid : string) (tags : Tags) (n : Z) : Tasks * list ChatEffect :=
  handle_task_tagmsg shipped t c sid "#cats" tags (at_time n).
Definition tabled (t : Tasks) : list (string * string * option string) :=
  map (fun kt => (kt.1, at_state kt.2, at_assignee kt.2)) (map_to_list (tk_actions t)).
Definition log_size (t : Tasks) : nat := match task_db t with Some d => List.length (act_rows d) | None => 0%nat end.
Definition posts (n : Z) : Tags := task_tags "ana" "did:plc:ana" "handoff" "offer" (ulid n) [("+freeq.at/act-title", "Paint")].
Definition claims (n task : Z) : Tags := task_tags "bob" "did:plc:bob" "handoff" "claim" (ulid n) [(ACT_ID_TAG, ulid task)].
Definition bob_says (verb : string) (n task : Z) : Tags := task_tags "bob" "did:plc:bob" "handoff" verb (ulid n) [(ACT_ID_TAG, ulid task)].
Definition posted : Tasks := (sends (tasks_on plain_channel) ana_conn "a1" (posts 1) 1).1.
(** The server's own events are minted at odd times here. *)
Definition claimed : Tasks := (sends posted bob_conn "b1" (claims 2 1) 3).1.

Example task_runs :
  tabled posted = [(ulid 1, "open", None)] /\ tabled claimed = [(ulid 1, "assigned", Some "did:plc:bob")]
  /\ log_size posted = 1%nat /\ log_size claimed = 3%nat
  /\ codes (sends claimed bob_conn "b1" (claims 4 1) 4).2 = ["ILLEGAL_STEP"].
Proof. vm_compute. repeat split. Qed.

(** ** The theorems at work *)

Definition db_of (t : Tasks) : TaskDb := default no_tasks_yet (task_db t).
Definition row_of_task (t : Tasks) (n : Z) : ActTask :=
  default (mkActTask "" "" "" "" "" "" None None None None None 0 0) (act_task (db_of t) (ulid n)).
Definition judged_by (t : Tasks) (c : Connection) (sid : string) (tags : Tags) (n : Z) : Gate * Tasks * list ChatEffect :=
  gate shipped t c sid "#cats" tags (at_time n).

Lemma accepted_witness :
  (judged_by posted bob_conn "b1" (claims 2 1) 3).1.1 <> GateRefused /\
  exists did id sig venue kid sg key canonical,
    c_authenticated_did bob_conn = Some did /\ event_id_of (claims 2 1) = Some id /\ sig_of (claims 2 1) = Some sig
    /\ signing_venue (srv (tk_chat posted)) did "#cats" = Some venue
    /\ SigTag.parse sig = Ok (kid, sg) /\ verifying_key_for (tk_chat posted) did kid (Some "b1") = Some key
    /\ act_canonical (claims 2 1) venue id = Ok canonical /\ ed25519_verify key canonical sg = true
    /\ forall d view, task_db posted = Some d -> derive_act_view (sp_revival_tag shipped) canonical = Some view ->
         is_ruling shipped (v_verb view) = false ->
         events_of d !! id = None
         /\ exists d' e, task_db (judged_by posted bob_conn "b1" (claims 2 1) 3).1.2 = Some d' /\ events_of d' !! id = Some e
              /\ e_canonical e = canonical /\ e_signature e = Some sig.
Proof.
  split; [vm_compute; discriminate|].
  refine (accepted_task_is_signed shipped posted _ bob_conn "b1" "#cats" (claims 2 1) (at_time 3)
            (match (judged_by posted bob_conn "b1" (claims 2 1) 3).1.1 with Accepted r => r | _ => None end)
            (judged_by posted bob_conn "b1" (claims 2 1) 3).2 _).
  vm_compute. reflexivity.
Defined.
Lemma refused_witness :
  tk_actions (judged_by claimed ana_conn "a1" (claims 4 1) 5).1.2 = tk_actions claimed
  /\ tk_routes (judged_by claimed ana_conn "a1" (claims 4 1) 5).1.2 = tk_routes claimed
  /\ same_but_counts (tk_chat claimed) (tk_chat (judged_by claimed ana_conn "a1" (claims 4 1) 5).1.2)
  /\ only_replies "a1" (judged_by claimed ana_conn "a1" (claims 4 1) 5).2.
Proof.
  refine (refused_task_leaves_no_trace shipped claimed (judged_by claimed ana_conn "a1" (claims 4 1) 5).1.2 ana_conn "a1" "#cats" (claims 4 1)
            (at_time 5) (judged_by claimed ana_conn "a1" (claims 4 1) 5).2 _).
  vm_compute. reflexivity.
Defined.
Definition a_day : list task_cmd :=
  [CSent ana_conn "a1" "#cats" (posts 1) (at_time 1); CSent bob_conn "b1" "#cats" (claims 2 1) (at_time 3);
   CExpiry 1000 (fun n => at_time (10 + Z.of_nat n))].
Lemma replayed_witness :
  exists tags', wire_tags_from_canonical (match act_canonical (posts 1) "#cats" (ulid 1) with Ok c => c | Err _ => "" end) (ulid 1)
                  (Some (default "" (sig_of (posts 1)))) = Some tags'
    /\ event_id_of tags' = Some (ulid 1) /\ sig_of tags' = Some (default "" (sig_of (posts 1)))
    /\ act_canonical tags' "#cats" (ulid 1) = Ok (match act_canonical (posts 1) "#cats" (ulid 1) with Ok c => c | Err _ => "" end)
    /\ verify_act tags' "#cats" (ulid 1) (default "" (sig_of (posts 1))) (ed25519_verifying_key "ana")
       = verify_act (posts 1) "#cats" (ulid 1) (default "" (sig_of (posts 1))) (ed25519_verifying_key "ana").
Proof. apply (replayed_event_verifies (posts 1) "#cats" (ulid 1)). vm_compute. reflexivity. Defined.

(** Events as the log is handed them. *)
Definition filed_as (did : string) (origin : option string) (tags : Tags) (n : Z) : ActEvent :=
  let canonical := match act_canonical tags "#cats" (ulid n) with Ok c => c | Err _ => "" end in
  let opens := bool_decide (opening_verb shipped (kind_of tags) = Some (verb_of tags)) in
  mkActEvent canonical (sig_of tags) (ulid n) (if opens then ulid n else default "" (named_task tags)) opens "#cats" did
    (is_system_actor did) false origin 0.
Definition post_event (origin : option string) : ActEvent := filed_as "did:plc:ana" origin (posts 1) 1.
Definition claim_by (key did : string) (n : Z) : ActEvent :=
  filed_as did None (task_tags key did "handoff" "claim" (ulid n) [(ACT_ID_TAG, ulid 1)]) n.
Definition peer_expires : ActEvent :=
  filed_as "did:web:peer" (Some "peer") (task_tags "peer" "did:web:peer" "handoff" "expire" (ulid 2) [(ACT_ID_TAG, ulid 1)]) 2.
Lemma event_reads ev f : derive_facts (ae_canonical ev) = Some f ->
  (f_kind f = "act" /\ f_event_id f = ae_event_id ev /\ f_venue f = ae_venue ev /\ f_actor_did f = Some (ae_actor ev)
   /\ (if ae_opens ev then f_subject f = None /\ ae_act_id ev = ae_event_id ev else default "" (f_subject f) = ae_act_id ev)) ->
  reads_as ev.
Proof. intros H Hf g Hg. rewrite H in Hg. by injection Hg as <-. Qed.
Ltac reads := eapply event_reads; [vm_compute; reflexivity|vm_compute; repeat split].


(** ** Behaviour worth knowing *)

Definition with_act_cap (t : Tasks) : Tasks :=
  let s := tk_chat t in
  set_tk_chat (mkChat (srv s) (db s) (history s) (cap_server_time s) (cap_account_tag s) (cap_echo_message s) (cap_draft_multiline s) {["a1"]}
    (session_away s) (session_msg_keys s) (msg_timestamps s) (prune_counters s) (msg_signing_key s) (max_messages_per_channel s)) t.
Definition post_bounty (n : Z) : Tags := task_tags "ana" "did:plc:ana" "bounty" "offer" (ulid n) [].
Definition on_bounty (key did verb : string) (n task : Z) (more : list (string * string)) : Tags :=
  task_tags key did "bounty" verb (ulid n) ((ACT_ID_TAG, ulid task) :: more).
Definition bounty_open : Tasks := (sends (with_act_cap (tasks_on plain_channel)) ana_conn "a1" (post_bounty 1) 1).1.
Definition actors (t : Tasks) : list (option string) := map (fun e => f_actor_did (e_facts e)) (act_task_events (db_of t) (ulid 1)).

(** The comment in [gate] says no answer for a receipt is reachable from a
    client. A client that has filed any event with a number gets one: a ruling
    it may not make, under that number, is refused by nobody, filed nowhere,
    and carried to the room. *)
Definition numbered_bid : Tasks := (sends bounty_open bob_conn "b1" (on_bounty "bob" "did:plc:bob" "bid" 2 1 [(SEQ_TAG, "1")]) 3).1.
Lemma client_ruling_reaches_the_room :
  let expire more := sends numbered_bid bob_conn "b1" (on_bounty "bob" "did:plc:bob" "expire" 4 1 more) 5 in
  codes (expire []).2 = ["WRONG_SENDER"] /\ lines_for "a1" (expire []).2 = 0%nat
  /\ codes (expire [(SEQ_TAG, "1")]).2 = [] /\ lines_for "a1" (expire [(SEQ_TAG, "1")]).2 = 1%nat
  /\ log_size (expire [(SEQ_TAG, "1")]).1 = log_size numbered_bid
  /\ tabled (expire [(SEQ_TAG, "1")]).1 = [(ulid 1, "open", None)].
Proof. vm_compute. repeat split. Qed.

(** A message that names its actor twice, under two spellings: the gate compares
    one with the sender, the document keeps the other. Bob files a bid the log
    calls Ana's, and its award is hers; or he signs as the server, under the
    number the server would use next, and the server can rule on the task no
    more. *)
Definition from_twice (verb : string) (n : Z) (other : string) (more : list (string * string)) : Tags :=
  act_tags "bob" (ulid n) ([(KIND_TAG, "bounty"); (VERB_TAG, verb); (ACT_ID_TAG, ulid 1); (FROM_TAG, "did:plc:bob"); ("from", other)] ++ more).
Lemma actor_named_twice :
  let bid := sends bounty_open bob_conn "b1" (from_twice "bid" 2 "did:plc:ana" []) 3 in
  let awarded := sends bid.1 ana_conn "a1" (task_tags "ana" "did:plc:ana" "bounty" "award" (ulid 4)
                                             [(ACT_ID_TAG, ulid 1); ("+freeq.at/act-accepts", ulid 2)]) 5 in
  codes bid.2 = [] /\ actors bid.1 = [Some "did:plc:ana"; Some "did:plc:ana"]
  /\ tabled awarded.1 = [(ulid 1, "assigned", Some "did:plc:ana")]
  /\ let blocked := sends bounty_open bob_conn "b1" (from_twice "bid" 2 "did:web:freeq.test" [(SEQ_TAG, "1")]) 3 in
     codes blocked.2 = []
     /\ tabled (act_expiry_sweep shipped 1000 blocked.1 (fun n => at_time (2000000 + Z.of_nat n))).1 = [(ulid 1, "open", None)]
     /\ tabled (act_expiry_sweep shipped 1000 bounty_open (fun n => at_time (2000000 + Z.of_nat n))).1 = [].
Proof. vm_compute. repeat split. Qed.

(** An opener may not name a task, but the check reads two of the three
    spellings the signature covers: one that names it under the third is live,
    and in the log it is an event of another task, so a rebuild has it not. *)
Lemma opener_names_a_task :
  let plain := sends claimed ana_conn "a1" (task_tags "ana" "did:plc:ana" "handoff" "offer" (ulid 6) [(ACT_ID_TAG, ulid 1)]) 7 in
  let other := sends claimed ana_conn "a1" (task_tags "ana" "did:plc:ana" "handoff" "offer" (ulid 6) [("freeq.at/act-id", ulid 1)]) 7 in
  codes plain.2 = ["ILLEGAL_STEP"] /\ codes other.2 = []
  /\ tabled other.1 = [(ulid 1, "assigned", Some "did:plc:bob"); (ulid 6, "open", None)]
  /\ map fst (map_to_list (rebuild_act_actions shipped (db_of other.1))) = [ulid 1].
Proof. vm_compute. repeat split. Qed.

(** A rebuild replays in the order ids were minted, the server files in the
    order events come: a step whose sender's clock is behind is taken, and the
    rebuilt task stands elsewhere than the live one, with every event in the
    log. *)
Definition worked : Tasks :=
  let t := (sends bounty_open bob_conn "b1" (on_bounty "bob" "did:plc:bob" "bid" 2 1 []) 3).1 in
  let t := (sends t ana_conn "a1" (on_bounty "ana" "did:plc:ana" "award" 4 1 [("+freeq.at/act-accepts", ulid 2)]) 5).1 in
  let t := (sends t bob_conn "b1" (on_bounty "bob" "did:plc:bob" "submit" 6 1 []) 7).1 in
  (sends t ana_conn "a1" (on_bounty "ana" "did:plc:ana" "revise" 20 1 []) 21).1.
Lemma rebuild_order_differs :
  let late := (sends worked bob_conn "b1" (on_bounty "bob" "did:plc:bob" "submit" 15 1 []) 3000).1 in
  let on_time := (sends worked bob_conn "b1" (on_bounty "bob" "did:plc:bob" "submit" 30 1 []) 3000).1 in
  let rebuilt t := map (fun kt => (kt.1, at_state kt.2)) (map_to_list (rebuild_act_actions shipped (db_of t))) in
  map (fun x => (x.1.1, x.1.2)) (tabled late) = [(ulid 1, "under_review")] /\ rebuilt late = [(ulid 1, "assigned")]
  /\ map (fun x => (x.1.1, x.1.2)) (tabled on_time) = [(ulid 1, "under_review")] /\ rebuilt on_time = [(ulid 1, "under_review")].
Proof. vm_compute. repeat split. Qed.
