(* ===== verification/TaskRelayRuns.v ===== *)
(** * Relayed task events on a concrete server

    The server of MessagingRuns with a peer on which Zoe posts and claims tasks:
    a post before its key and after it, a move before its post, a ruling by the
    referee an opener names; the theorems of TaskRelaySpec at work, and a run
    that shows behaviour the comments of the code do not lead to expect. *)
From stdpp Require Import base gmap strings list pretty fin_maps sorting.
From Stdlib Require Import ZArith Lia Ascii String.
From S2P Require Import Prelude Text Ulid IrcMessage ActTransitions Multiline RelayQueue NickMap RoomTables S2sMessage Channel S2sLink Crdt Federation Primitives SignedDocs MessageStore Routing Messaging MessagingOps FederatedChat TaskDocs TaskLog TaskLogSpec TaskGate TaskGateSpec TaskRelay TaskRelaySpec MessagingRuns FederatedRuns TaskRuns.
Open Scope string_scope.
Open Scope list_scope.
Open Scope Z_scope.

#[local] Existing Instances ascii_fold ascii_trimming map_order toy_primitives toy_base64 toy_json any_key verbatim seconds.

(** ** The link *)

Definition clock (k : nat) : Now := at_time (1000 + Z.of_nat k).
Definition network (t : Tasks) : Network := mkNetwork t (new_queue 8 64) (mkDefer (new_queue 8 64) ∅) ∅ ∅ 0.
Definition knows_zoe (t : Tasks) : Tasks := set_tk_chat (on_db with_key (tk_chat t)) t.
Definition zoe_task (verb : string) (n : Z) (more : list (string * string)) : Tags := task_tags "zoe" zoe "handoff" verb (ulid n) more.
Definition arriving (tags : Tags) : Arrived := mkArrived "zoe!zoe@peer" "#cats" tags "peer" "peer" (Some zoe) true false None None None.
Definition takes (n : Network) (o : net_op) : Network := net_step shipped clock 10 n o.
Definition live (n : Network) : list (string * string * option string) := tabled (nw_tasks n).
Definition queued (n : Network) : Z := total (dq (nw_deferred n)).
Definition learned (n : Network) : Network := set_tasks (knows_zoe (nw_tasks n)) n.

Definition zoe_posts : Tags := zoe_task "offer" 1 [].
Definition zoe_claims (n task : Z) : Tags := zoe_task "claim" n [(ACT_ID_TAG, ulid task)].
Definition unknown_net : Network := network (tasks_on plain_channel).
Definition known_net : Network := network (knows_zoe (tasks_on plain_channel)).
Definition local_post : Network := network (knows_zoe posted).

Example relay_task_runs :
  (* a post by a known key; one whose key is missing waits for it *)
  live (takes known_net (NEvent (arriving zoe_posts))) = [(ulid 1, "open", None)]
  /\ live (takes unknown_net (NEvent (arriving zoe_posts))) = [] /\ queued (takes unknown_net (NEvent (arriving zoe_posts))) = 1
  /\ live (takes (learned (takes unknown_net (NEvent (arriving zoe_posts)))) (NKey zoe zoe_kid None)) = [(ulid 1, "open", None)]
  (* a move that comes before its post waits for it *)
  /\ queued (takes known_net (NEvent (arriving (zoe_claims 2 1)))) = 1
  /\ map (fun e => f_event_id (e_facts e)) (act_rows (db_of (nw_tasks
       (takes (takes (takes known_net (NEvent (arriving (zoe_claims 2 1)))) (NEvent (arriving zoe_posts))) (NFiled (ulid 1)))))) = [ulid 1; ulid 2]
  (* a move on a task opened here is ruled on here, and confirmed *)
  /\ live (takes local_post (NEvent (arriving (zoe_claims 2 1)))) = [(ulid 1, "assigned", Some zoe)]
  /\ log_size (nw_tasks (takes local_post (NEvent (arriving (zoe_claims 2 1))))) = 3%nat.
Proof. vm_compute. repeat split. Qed.

(** ** The referee an opener names *)

Definition referee : string := "did:web:peer".
Definition referee_kid : string := SigTag.derive_kid (ed25519_verifying_key "peer").
Definition refereed_post : Tags := zoe_task "offer" 1 [("+freeq.at/act-home", referee)].
Definition refereed : Network := takes known_net (NEvent (arriving refereed_post)).
Definition ruling_by (key did : string) : Tags := task_tags key did "handoff" "expire" (ulid 9) [(ACT_ID_TAG, ulid 1)].
(** Carried by a third server. *)
Definition carried (tags : Tags) (answer : option OwnHostAnswer) : Arrived :=
  mkArrived "peer" "#cats" tags "third" "third" None true false None None answer.
Definition listed (retired : option Z) : option OwnHostAnswer := Some (Listed (ed25519_verifying_key "peer") retired).

Example referee_runs :
  live (takes refereed (NEvent (carried (ruling_by "peer" referee) (listed None)))) = []
  /\ live (takes refereed (NEvent (carried (ruling_by "peer" referee) (listed (Some 1))))) = [(ulid 1, "open", None)]
  /\ live (takes refereed (NEvent (carried (ruling_by "peer" referee) (Some NotListed)))) = [(ulid 1, "open", None)]
  /\ live (takes refereed (NEvent (carried (ruling_by "third" "did:web:third") (listed None)))) = [(ulid 1, "open", None)]
  (* unasked, it waits, and what comes after it waits behind it *)
  /\ queued (takes refereed (NEvent (carried (ruling_by "peer" referee) None))) = 1
  /\ queued (takes (takes refereed (NEvent (carried (ruling_by "peer" referee) None))) (NEvent (arriving (zoe_claims 2 1)))) = 2
  /\ live (takes (takes refereed (NEvent (carried (ruling_by "peer" referee) None))) (NKey referee referee_kid (listed None))) = [].
Proof. vm_compute. repeat split. Qed.

(** ** The theorems at work *)

Definition msgs (n : Network) : MsgDb := default empty_db (db (nw_chat n)).
Definition row_under (n : Network) (id : string) : StoredEvent :=
  default (mkStoredEvent "" None Unsigned (mkFacts "" "" "" None None None None) None None None 0) (events (msgs n) !! id).
Lemma proven_witness :
  let waiting := takes unknown_net (NEvent (arriving zoe_posts)) in
  proven (vouchers (learned waiting)) None (row_under (takes (learned waiting) (NKey zoe zoe_kid None)) (ulid 1)).
Proof.
  refine (relayed_events_are_proven shipped clock 10 (learned (takes unknown_net (NEvent (arriving zoe_posts)))) (NKey zoe zoe_kid None)
            (msgs (learned (takes unknown_net (NEvent (arriving zoe_posts)))))
            (msgs (takes (learned (takes unknown_net (NEvent (arriving zoe_posts)))) (NKey zoe zoe_kid None))) (ulid 1) _ _ _ _ _);
    vm_compute; reflexivity.
Defined.
Definition judged_arrival (n : Network) (a : Arrived) : Network * TaskEventAction * option Receipt * list RelayEffect :=
  judge_relayed_task_event shipped clock (judge_parked_events shipped clock 10) n a.
Lemma shown_witness :
  exists from id venue sig kid sg key, claimed_signer zoe_posts (Some zoe) = Some from /\ event_id_of zoe_posts = Some id
    /\ sig_of zoe_posts = Some sig /\ SigTag.parse sig = Ok (kid, sg) /\ known (vouchers known_net) None from kid key
    /\ (if carries_act_tags zoe_posts then exists c, act_canonical zoe_posts venue id = Ok c /\ ed25519_verify key c sg = true
        else exists event_type, zoe_posts !! "+freeq.at/event" = Some event_type
             /\ ed25519_verify key (ChatSig.canonical (coordination_doc_from_tags zoe_posts from id venue event_type)) sg = true).
Proof.
  refine (shown_only_with_proof shipped clock 10 known_net (judged_arrival known_net (arriving zoe_posts)).1.1.1 (arriving zoe_posts)
            (judged_arrival known_net (arriving zoe_posts)).1.2 (judged_arrival known_net (arriving zoe_posts)).2 _).
  vm_compute. reflexivity.
Defined.
Definition ruling_arrives : Arrived := carried (ruling_by "peer" referee) (listed None).
Definition parsed_ruling : ParsedAct := default (mkParsed "" "" None "" "" ∅ None false) (parse_event (ruling_by "peer" referee)).

(** ** Behaviour worth knowing *)

(** The arm for a move this server is asked to rule on looks at the task the
    envelope names, the judgement at the one the tags name: under the envelope
    of a task opened here, a move on one never opened here waits for its post,
    and one on another server's task is filed, both of which the comment rules
    out. *)
Definition asked_to_rule (n : Network) (task : Z) (tags : Tags) : Network :=
  (act_route_in shipped clock 10 sample_manager n (mkEnvelope "peer" "peer" ∅ None (from_peer 7 (zoe_tags tags))) (ulid task) (ulid 2) tags
     "#cats" "zoe!zoe@peer" (Some zoe) true (at_time 2000)).1.1.
Lemma envelope_names_another_task :
  queued (asked_to_rule local_post 77 (zoe_claims 2 77)) = 0 /\ queued (asked_to_rule local_post 1 (zoe_claims 2 77)) = 1
  /\ let n := takes local_post (NEvent (arriving (zoe_task "offer" 5 []))) in
     log_size (nw_tasks (asked_to_rule n 5 (zoe_claims 2 5))) = log_size (nw_tasks n)
     /\ log_size (nw_tasks (asked_to_rule n 1 (zoe_claims 2 5))) = S (log_size (nw_tasks n)).
Proof. vm_compute. repeat split. Qed.
