(* ===== verification/Catchup.v ===== *)
(** * Catching up after a link was down

    What a server sends a peer that asks for the events it missed, and what it
    makes of the events it is sent: the arms of [process_s2s_event] for
    [CatchupRequest] and [CatchupEvents] in [freeq-server/src/server.rs], with
    [apply_replayed_event], [file_replayed_task_event] and the receipts that
    wait; [events_since_federated] of [db.rs]; and the asking of [s2s.rs]. A task
    event goes through the task log of TaskLog and may wait in the queue of
    TaskRelay, whose fuel and clock are used here too. *)
From stdpp Require Import base gmap strings list pretty fin_maps sorting.
From Stdlib Require Import ZArith Lia Ascii String.
From S2P Require Import Prelude Text Ulid IrcMessage ActTransitions Multiline RelayQueue NickMap RoomTables S2sMessage Channel S2sLink Crdt Federation Primitives SignedDocs MessageStore Routing Messaging MessagingOps FederatedChat TaskDocs TaskLog TaskGate TaskRelay.
Open Scope string_scope.
Open Scope list_scope.
Open Scope Z_scope.

Inductive ReplayOutcome := ReplayFiled | AlreadyHeld | Conflicted | Unusable.
#[export] Instance replay_outcome_eq_dec : EqDecision ReplayOutcome.
Proof. solve_decision. Defined.

(** ** Asking and answering *)

Definition CATCHUP_WINDOW_SECS : Z := 24 * 60 * 60.
Definition MAX_REPLAY : Z := 500.

(** Twenty looks at what the peer declares, a tenth of a second apart: the
    request, once catch-up is among it. [declared k] and [now k] are what the
    [k]-th look finds. *)
Fixpoint request_catchup_when_supported (tries k : nat) (our_id : string) (declared : nat -> list string) (now : nat -> Z)
    : option S2sMessage :=
  match tries with
  | O => None
  | S t =>
      if peer_supports (declared k) CATCHUP then Some (CatchupRequest our_id (Z.max 0 (now k - CATCHUP_WINDOW_SECS)) 0)
      else request_catchup_when_supported t (S k) our_id declared now
  end.

(** [ORDER BY timestamp, event_id LIMIT]; the venues of rooms are left out. *)
Definition events_since_federated (l : MsgDb) (room_venues : gset string) (since_ts : Z) (limit : nat) : list StoredEvent :=
  take limit (merge_sort event_le (List.filter (fun e => (u64_as_i64 since_ts <=? e_timestamp e)
                                                         && negb (bool_decide (f_venue (e_facts e) ∈ room_venues)))
                                     (map snd (map_to_list (events l))))).
Definition room_venues (s : Server) : gset string := match room_db s with Some r => dom (rooms r) | None => ∅ end.
Definition to_replayed (own_id : string) (e : StoredEvent) : ReplayedEvent :=
  let f := e_facts e in
  mkReplayed (f_event_id f) (e_canonical e) (e_signature e) (f_kind f) (f_venue f) (f_actor_did f) (f_subject f) (f_emoji f)
    (match e_origin e with Some o => if is_empty o then own_id else o | None => own_id end) (wrap 64 (e_timestamp e)).
(** The reply, when the peer is one this server sends events to and its link is up. *)
Definition catchup_request_in (mgr : S2sManager) (s : Chat) (peer : string) (since_ts limit : Z) : option S2sMessage :=
  if negb (may_relay_to mgr peer) then None
  else
    let limit := Z.to_nat (if limit =? 0 then MAX_REPLAY else Z.min limit MAX_REPLAY) in
    let rows := match db s with Some l => events_since_federated l (room_venues (srv s)) since_ts (S limit) | None => [] end in
    let more := (limit <? List.length rows)%nat in
    if bool_decide (peer ∈ peers mgr) then Some (CatchupEvents (map (to_replayed (server_id mgr)) (take limit rows)) more) else None.

(** ** The order of a batch *)

Definition replay_group_key (ev : ReplayedEvent) : string * bool :=
  if String.eqb (re_kind ev) "act"
  then match re_subject ev with Some act_id => (act_id, true) | None => (re_event_id ev, false) end
  else (re_event_id ev, false).
(** Mint order, then, by a stable sort, each task's opener ahead of its follow-ups. *)
Definition replay_le (a b : ReplayedEvent) : Prop :=
  let '(ga, fa) := replay_group_key a in
  let '(gb, fb) := replay_group_key b in
  (if String.eqb ga gb then if Bool.eqb fa fb then String.leb (re_event_id a) (re_event_id b) else fb else String.leb ga gb) = true.
#[export] Instance replay_le_dec : RelDecision replay_le.
Proof. intros a b. unfold replay_le. destruct (replay_group_key a), (replay_group_key b). apply _. Defined.

Section Catchup.
Context {P : Primitives} {B64 : Base64} {J : JsonText} {KB : KeyBytes} {UD : UrlDecode} {IT : IsoTime} {CF : CaseFold} {TR : Trim} {HO : HashOrder}.
Variable sp : Spec.
Variable at_ : nat -> Now.

(** ** Where an event was minted *)

Definition replay_origin (own_id relayed_by claimed : string) (ours_on_file : bool) : string :=
  let claimed := trim claimed in
  let named := if is_empty claimed then relayed_by
               else if String.eqb claimed own_id && negb ours_on_file then relayed_by else claimed in
  if String.eqb named own_id then "" else sanitize_s2s_str named 64.
(** Whether our records bear out a claim that the event is ours. *)
Definition ours_on_file (n : Network) (ev : ReplayedEvent) : bool :=
  if String.eqb (re_kind ev) "act"
  then match (act_id ← re_subject ev; d ← task_db (nw_tasks n); act_task d act_id) with Some t => is_empty (at_origin t) | None => false end
  else true.

(** ** The signature *)

Definition replayed_signature_verdict (n : Network) (ev : ReplayedEvent) (sig : string) : ClientSigVerdict :=
  match re_actor_did ev with
  | None => SigUnverifiable "replayed event names no actor"
  | Some did => verify_canonical_bytes (nw_chat n) did (re_canonical ev) sig
  end.
(** [None]: the signature is wrong. *)
Definition replay_sig_state (n : Network) (ev : ReplayedEvent) : option SigState :=
  match re_signature ev with
  | None => Some Unsigned
  | Some sig =>
      if is_empty (re_canonical ev) then Some Unverifiable
      else match replayed_signature_verdict n ev sig with
           | SigValid => Some Valid
           | SigInvalid => None
           | SigUnverifiable _ => Some Unverifiable
           end
  end.
Definition asks_for_key (n : Network) (ev : ReplayedEvent) : list RelayEffect :=
  match re_signature ev, re_actor_did ev with
  | Some sig, Some did =>
      if negb (is_empty (re_canonical ev)) && bool_decide (replayed_signature_verdict n ev sig = SigUnverifiable NO_KEY_ON_FILE)
      then [FetchFromAnyPeer did sig] else []
  | _, _ => []
  end.

(** ** Task events *)

Definition replayed_tags (ev : ReplayedEvent) (event_id : string) : option Tags :=
  wire_tags_from_canonical (re_canonical ev) event_id (re_signature ev).
(** As it waits: under the connection it came in on, to be shown to nobody. *)
Definition held_replay (ev : ReplayedEvent) (facts : EventFacts) (relayed_by event_id : string) (tags : Tags) (signer kid : string)
    (waiting_on stamped : option string) (for_referee : bool) : ParkedEvent :=
  let actor := default "" (f_actor_did facts) in
  mkParked tags (peer_target_for (f_venue facts) (f_venue facts)) actor (Some actor) relayed_by relayed_by true event_id signer kid waiting_on
    None true stamped (Some (u64_as_i64 (re_timestamp ev))) for_referee 0.

Section Wait.
Variable judge : Network -> list ParkedEvent -> option OwnHostAnswer -> Network * list RelayEffect.

Definition hold_replayed_receipt (n : Network) (event_id relayed_by : string) (ev : ReplayedEvent) (facts : EventFacts) (have_key : bool)
    : Network * list RelayEffect :=
  match replayed_tags ev event_id with
  | None => (n, [])
  | Some tags =>
      let signer := default "" (f_actor_did facts) in
      let sig_tag := default "" (re_signature ev) in
      let kid := match SigTag.parse sig_tag with Ok (kid, _) => kid | Err _ => "" end in
      let e := if have_key then held_replay ev facts relayed_by event_id tags "" "" (f_subject facts) None false
               else held_replay ev facts relayed_by event_id tags signer kid None None false in
      let '(n, out) := park_for_key sp judge n e (at_ (nw_drawn n)) in
      (n, (if negb have_key && negb (is_empty signer) then [FetchKey relayed_by signer sig_tag] else []) ++ out)
  end.
Definition park_replayed_receipt (n : Network) (event_id relayed_by : string) (ev : ReplayedEvent) (facts : EventFacts)
    : Network * list RelayEffect :=
  let signer := default "" (f_actor_did facts) in
  let kid := match re_signature ev with Some sig_tag => match SigTag.parse sig_tag with Ok (kid, _) => kid | Err _ => "" end | None => "" end in
  let have_key := negb (is_empty signer) && negb (is_empty kid) && is_some (d ← db (nw_chat n); get_signing_key_by_kid d signer kid) in
  hold_replayed_receipt n event_id relayed_by ev facts have_key.

(** The log, and what follows from its answer. *)
Definition file_replayed_act (n : Network) (event_id origin relayed_by act_id : string) (ev : ReplayedEvent) (view : ActView)
    (facts : EventFacts) (opens from_system by_referee : bool) : Network * list RelayEffect * ReplayOutcome :=
  let now := at_ (nw_drawn n) in
  match task_db (nw_tasks n) with
  | None => (n, [], ReplayFiled)
  | Some d =>
      let actor := default "" (f_actor_did facts) in
      let event := mkActEvent (re_canonical ev) (re_signature ev) event_id act_id opens (f_venue facts) actor from_system by_referee
                     (if is_empty origin then None else Some origin) (u64_as_i64 (re_timestamp ev)) in
      let '(d', written) := apply_act_event sp event d in
      let '(t, receipt) := receipt_for_applied_move sp (put_db d' (nw_tasks n))
                             (mkMove (v_kind view) act_id event_id (f_venue facts) actor written) now in
      let n := drawn (set_tasks t n) in
      let told := match receipt with
                  | Some r => map Told (broadcast_receipt (nw_chat n) r (own_event_target (f_venue facts)) now)
                  | None => []
                  end in
      match written with
      | Filed _ _ | ConfirmedWrite _ | StoredNotApplied =>
          let '(n, out) := release_events_waiting_on judge n event_id in (n, told ++ out, ReplayFiled)
      | ReceiptIgnored | ReceiptRefused _ | Recorded => (n, told, ReplayFiled)
      | ReceiptBeforeSubject =>
          let '(n, out) := park_replayed_receipt n event_id relayed_by ev facts in (n, told ++ out, Unusable)
      | Duplicate => (n, told, AlreadyHeld)
      | _ => (n, told, Unusable)
      end
  end.

(** The word of a referee the opener names: whether it counts, or what became
    of the ruling. *)
Definition replayed_word (n : Network) (event_id relayed_by act_id : string) (ev : ReplayedEvent) (view : ActView) (facts : EventFacts)
    : result bool (Network * list RelayEffect) :=
  if negb (is_ruling sp (v_verb view)) || negb (is_some (d ← task_db (nw_tasks n); act_task_home d act_id)) then Ok false
  else match replayed_tags ev event_id with
       | None => Err (n, [])
       | Some tags =>
           match referee_word sp n tags (peer_target_for (f_venue facts) (f_venue facts)) (Some (default "" (f_actor_did facts))) event_id None
                   (relayed_task_venue sp (nw_tasks n) tags event_id) None (at_ (nw_drawn n)) with
           | Today => Ok false
           | Counts => Ok true
           | WordRefused _ => Err (n, [])
           | Unasked referee kid =>
               Err (park_for_referee sp judge n (held_replay ev facts relayed_by event_id tags referee kid None None true) (at_ (nw_drawn n)))
           end
       end.

(** The home a receipt or a server's own ruling speaks for, when it is not here. *)
Definition owning_peer (n : Network) (act_id actor : string) (is_receipt by_referee : bool) : option string :=
  if negb by_referee && (is_receipt || is_system_actor actor)
  then match (d ← task_db (nw_tasks n); act_task_origin d act_id) with Some home => if is_empty home then None else Some home | None => None end
  else None.
Definition judge_replayed (n : Network) (event_id origin relayed_by act_id : string) (ev : ReplayedEvent) (view : ActView)
    (facts : EventFacts) (sig_state : SigState) (opens by_referee : bool) : Network * list RelayEffect * ReplayOutcome :=
  let actor := default "" (f_actor_did facts) in
  let is_receipt := is_confirmation sp (v_verb view) in
  let owner := owning_peer n act_id actor is_receipt by_referee in
  if match owner with Some home => negb (String.eqb home relayed_by) | None => false end then (n, [], Unusable)
  else
    let origin := if is_some owner then relayed_by else origin in
    let from_system := match (d ← task_db (nw_tasks n); act_task_origin d act_id) with
                       | Some "" => String.eqb actor (did_of (nw_tasks n))
                       | _ => is_system_actor actor
                       end in
    if negb by_referee && negb (bool_decide (sig_state = Valid)) then
      if is_receipt then let '(n, out) := park_replayed_receipt n event_id relayed_by ev facts in (n, out, Unusable)
      else (n, [], Unusable)
    else file_replayed_act n event_id origin relayed_by act_id ev view facts opens from_system by_referee.

(** [None]: the bytes are not a task event. *)
Definition file_replayed_task_event (n : Network) (event_id origin relayed_by : string) (ev : ReplayedEvent) (sig_state : SigState)
    : option (Network * list RelayEffect * ReplayOutcome) :=
  view ← derive_act_view (sp_revival_tag sp) (re_canonical ev);
  facts ← derive_facts (re_canonical ev);
  let opens := bool_decide (opening_verb sp (v_kind view) = Some (v_verb view)) in
  let act_id := if opens then event_id else default "" (f_subject facts) in
  Some match (if opens then None else held_for_referee (nw_deferred n) act_id event_id) with
       | Some ruling =>
           match replayed_tags ev event_id with
           | None => (n, [], Unusable)
           | Some tags =>
               let '(n, out) := park_event sp judge n (held_replay ev facts relayed_by event_id tags "" "" (Some ruling) (Some origin) false)
                                  (at_ (nw_drawn n)) in (n, out, Unusable)
           end
       | None =>
           match replayed_word n event_id relayed_by act_id ev view facts with
           | Err (n, out) => (n, out, Unusable)
           | Ok by_referee => judge_replayed n event_id origin relayed_by act_id ev view facts sig_state opens by_referee
           end
       end.

(** ** One replayed event *)

(** Any other event: its bytes, or, when it has none, what it says of itself. *)
Definition replay_record (event_id origin : string) (ev : ReplayedEvent) (sig_state : SigState) : EventRecord :=
  mkRecord (if is_empty (re_canonical ev)
            then Bare (mkFacts event_id (sanitize_s2s_str (re_kind ev) 32) (venue_of (sanitize_s2s_str (re_venue ev) 200))
                         ((fun d => sanitize_s2s_str d 512) <$> re_actor_did ev) ((fun s => sanitize_s2s_str s 100) <$> re_subject ev) None
                         ((fun e => sanitize_s2s_str e 64) <$> re_emoji ev))
            else Document (re_canonical ev))
    (re_signature ev) (mkContext sig_state (if is_empty origin then None else Some origin) None) (u64_as_i64 (re_timestamp ev)).
Definition set_log_of (l : MsgDb) (n : Network) : Network :=
  set_tasks (set_tk_chat (set_db (Some l) (nw_chat n)) (nw_tasks n)) n.
Definition file_replayed (n : Network) (r : EventRecord) : Network * ReplayOutcome :=
  match db (nw_chat n) with
  | None => (n, ReplayFiled)
  | Some l => let '(l', written) := insert_event r l in (set_log_of l' n, if written then ReplayFiled else Unusable)
  end.
Definition apply_replayed_event (n : Network) (own_id relayed_by : string) (ev : ReplayedEvent)
    : Network * list RelayEffect * ReplayOutcome :=
  let event_id := sanitize_s2s_str (re_event_id ev) 100 in
  if is_empty event_id then (n, [], Unusable)
  else
    let origin := replay_origin own_id relayed_by (re_origin ev) (ours_on_file n ev) in
    match (l ← db (nw_chat n); e ← events l !! event_id; Some (l, e)) with
    | Some (l, existing) =>
        if String.eqb (e_canonical existing) (re_canonical ev) then (n, [], AlreadyHeld)
        else (set_log_of (record_event_conflict event_id (fingerprint (re_canonical ev)) l) n, [], Conflicted)
    | None =>
        match replay_sig_state n ev with
        | None => (n, [], Unusable)
        | Some sig_state =>
            match file_replayed_task_event n event_id origin relayed_by ev sig_state with
            | Some (n', out, outcome) => (n', asks_for_key n ev ++ out, outcome)
            | None => let '(n', outcome) := file_replayed n (replay_record event_id origin ev sig_state) in (n', asks_for_key n ev, outcome)
            end
        end
    end.
End Wait.

(** The arm for a reply. *)
Variable fuel : nat.
Definition replay_one (own_id relayed_by : string) (acc : Network * list RelayEffect) (ev : ReplayedEvent) : Network * list RelayEffect :=
  let '(n, out, _) := apply_replayed_event (judge_parked_events sp at_ fuel) acc.1 own_id relayed_by ev in (n, acc.2 ++ out).
Definition catchup_events_in (own_id relayed_by : string) (n : Network) (evs : list ReplayedEvent) : Network * list RelayEffect :=
  fold_left (replay_one own_id relayed_by) (merge_sort replay_le evs) (n, []).
End Catchup.
