(* ===== verification/CatchupSpec.v ===== *)
(** * What holds of catching up

    Theorems about Catchup: the first claim on an id stands and what is new has
    been checked; one exchange brings over every chat event of the window; what
    was taken once is not taken again; the order in which a batch travels does
    not matter; and a peer that is not a task's home does not speak for it. *)
From stdpp Require Import base gmap strings list pretty fin_maps sorting.
From Stdlib Require Import ZArith Lia Ascii String.
From S2P Require Import Prelude Text Ulid IrcMessage ActTransitions Multiline RelayQueue NickMap RoomTables S2sMessage Channel S2sLink Crdt Federation Primitives SignedDocs MessageStore Routing Messaging MessagingOps FederatedChat TaskDocs TaskLog TaskLogSpec TaskGate TaskGateSpec TaskRelay TaskRelaySpec Catchup.
Open Scope string_scope.
Open Scope list_scope.
Open Scope Z_scope.

Section Catchup.
Context {P : Primitives} {B64 : Base64} {J : JsonText} {KB : KeyBytes} {UD : UrlDecode} {IT : IsoTime} {CF : CaseFold} {TR : Trim} {HO : HashOrder}.
Variable sp : Spec.
Variable at_ : nat -> Now.

(** ** What a row that arrives is *)

(** A ruling its referee vouches for: the verdict was reached on the tags its
    bytes give. *)
Definition vouched (x : Vouchers) (e : StoredEvent) : Prop :=
  exists id tags target account venue lookup,
    wire_tags_from_canonical (e_canonical e) id (e_signature e) = Some tags
    /\ relayed_task_verdict tags target account None venue lookup = RValid
    /\ forall did kid key, lookup did kid = Some key -> known x None did kid key.
(** No signed bytes, or not those of a task event; and not called valid. *)
Definition unjudged (e : StoredEvent) : Prop :=
  (e_canonical e = "" \/ derive_act_view (sp_revival_tag sp) (e_canonical e) = None) /\ e_sig_state e <> Valid.
Definition checked (x : Vouchers) (e : StoredEvent) : Prop := proven x None e \/ vouched x e \/ unjudged e.
Lemma checked_stable x : stable (checked x).
Proof.
  intros e e' H [Hp|[Hv|Hu]]; [left; by eapply proven_stable|right; left|right; right]; destruct H as (S1 & S2 & S3 & _).
  - unfold vouched. by rewrite S1, S2.
  - unfold unjudged. by rewrite S1, S3.
Qed.

Definition takes_in (n n' : Network) : Prop :=
  vouchers n' = vouchers n /\ dgrows (checked (vouchers n)) (db (nw_chat n)) (db (nw_chat n')).
Lemma takes_refl n : takes_in n n.
Proof. split; [done|apply dgrows_refl]. Qed.
Lemma takes_trans a b c : takes_in a b -> takes_in b c -> takes_in a c.
Proof. intros [V1 D1] [V2 D2]. split; [congruence|]. rewrite V1 in D2. eapply dgrows_trans; [apply checked_stable|done|done]. Qed.
Lemma takes_grows n n' : grows None n n' -> takes_in n n'.
Proof. intros [V D]. split; [done|]. eapply dgrows_weaken; [|exact D]. intros e He. by left. Qed.
Lemma takes_log n l l' : db (nw_chat n) = Some l -> adds (checked (vouchers n)) l l' -> takes_in n (set_log_of l' n).
Proof.
  intros Hl Ha. split; [|by rewrite Hl]. unfold vouchers, set_log_of, nw_chat in *. cbn. rewrite Hl. cbn. by rewrite (ad_keys _ _ _ Ha).
Qed.
Lemma takes_kept n n' l id e : takes_in n n' -> db (nw_chat n) = Some l -> events l !! id = Some e ->
  exists l' e', db (nw_chat n') = Some l' /\ events l' !! id = Some e' /\ same_act e e'.
Proof.
  intros [_ D] Hl He. rewrite Hl in D. destruct (db (nw_chat n')) as [l'|]; [|done]. destruct (ad_kept _ _ _ D _ _ He) as (e' & H1 & H2). eauto.
Qed.

(** ** The verdict on the bytes *)

Lemma canonical_bytes_valid n did canonical sig :
  verify_canonical_bytes (nw_chat n) did canonical sig = SigValid ->
  exists kid sg key, SigTag.parse sig = Ok (kid, sg) /\ known (vouchers n) None did kid key /\ ed25519_verify key canonical sg = true.
Proof.
  unfold verify_canonical_bytes. destruct (SigTag.parse sig) as [[kid sg]|] eqn:Ep; [|done].
  destruct (stored_key (nw_chat n) did kid) as [key|] eqn:Ek; [|done]. intros H. exists kid, sg, key. split; [done|]. split.
  - apply (on_file_known n). unfold on_file. revert Ek. unfold stored_key. destruct (db (nw_chat n)) as [l|]; [|done]. cbn.
    destruct (get_signing_key_by_kid l did kid); done.
  - revert H. unfold verdict_of, SigTag.verify_canonical. rewrite Ep. cbn [res_bind fst snd].
    destruct (negb (String.eqb _ _)); [done|]. by destruct (ed25519_verify key canonical sg).
Qed.
Lemma sig_state_valid n ev : replay_sig_state n ev = Some Valid ->
  exists did kid sg key sig, re_signature ev = Some sig /\ SigTag.parse sig = Ok (kid, sg) /\ known (vouchers n) None did kid key
    /\ ed25519_verify key (re_canonical ev) sg = true.
Proof.
  unfold replay_sig_state. destruct (re_signature ev) as [sig|]; [|done]. destruct (is_empty _); [done|].
  destruct (replayed_signature_verdict n ev sig) eqn:Ev; [|done..]. intros _. unfold replayed_signature_verdict in Ev.
  destruct (re_actor_did ev) as [did|]; [|done]. destruct (canonical_bytes_valid _ _ _ _ Ev) as (kid & sg & key & H1 & H2 & H3).
  by exists did, kid, sg, key, sig.
Qed.
(** It depends on the keys on file alone. *)
Lemma sig_state_keys n n' ev : signing_keys <$> db (nw_chat n') = signing_keys <$> db (nw_chat n) ->
  replay_sig_state n' ev = replay_sig_state n ev.
Proof.
  intros Hk. assert (forall did kid, stored_key (nw_chat n') did kid = stored_key (nw_chat n) did kid) as Hs.
  { intros did kid. unfold stored_key. destruct (db (nw_chat n')) as [l'|], (db (nw_chat n)) as [l|]; try done. cbn in *. injection Hk as Hk.
    unfold get_signing_key_by_kid. by rewrite Hk. }
  unfold replay_sig_state, replayed_signature_verdict, verify_canonical_bytes. destruct (re_signature ev) as [sig|]; [|done].
  destruct (is_empty _); [done|]. destruct (re_actor_did ev) as [did|]; [|done]. destruct (SigTag.parse sig) as [[kid sg]|]; [|done].
  by rewrite Hs.
Qed.

(** ** Filing *)

Lemma insert_adds (Q : StoredEvent -> Prop) r l :
  (forall c f, Q (mkStoredEvent c (r_signature r) (match r_signature r with None => Unsigned | Some _ => x_sig_state (r_ctx r) end) f
                    (x_origin (r_ctx r)) (x_confirm (r_ctx r)) None (r_timestamp r))
               \/ match r_shape r with Document c' => c <> c' | Bare _ => c <> "" end) ->
  adds Q l (insert_event r l).1.
Proof.
  intros HQ. split.
  - unfold insert_event. destruct (match r_shape r with Document _ => _ | Bare _ => _ end) as [[c f]|]; [|done]. by destruct (events l !! _).
  - exact (grown_kept _ _ (proj2 (insert_event_log r l))).
  - unfold insert_event. destruct (match r_shape r with Document _ => _ | Bare _ => _ end) as [[c f]|] eqn:Es; [|eauto using same_act_refl].
    destruct (events l !! f_event_id f) eqn:En; [eauto using same_act_refl|]. cbn. intros id e He.
    apply lookup_insert_Some in He as [[<- <-]|[_ He]]; [right|left; eauto using same_act_refl].
    destruct (HQ c f) as [|Hc]; [done|]. destruct (r_shape r) as [c'|f']; [|by injection Es as <- _].
    destruct (derive_facts c'); [|done]. by injection Es as <- _.
Qed.
Lemma conflict_adds Q id fp l : adds Q l (record_event_conflict id fp l).
Proof.
  split; [done|exact (grown_kept _ _ (proj2 (record_conflict_log id fp l)))|]. cbn. intros k e' H. rewrite lookup_alter in H. left.
  case_decide; [|eauto using same_act_refl]. subst. destruct (events l !! k) as [e|]; [|done]. cbn in H. injection H as <-. exists e. split; [done|].
  destruct (note_conflict_same fp e) as (S1 & S2 & S3 & S4 & S5 & _ & S7 & S8). repeat split; done.
Qed.
Lemma file_replayed_takes n event_id origin ev st :
  replay_sig_state n ev = Some st -> derive_act_view (sp_revival_tag sp) (re_canonical ev) = None \/ derive_facts (re_canonical ev) = None ->
  takes_in n (file_replayed n (replay_record event_id origin ev st)).1.
Proof.
  intros Hst Hno. unfold file_replayed. destruct (db (nw_chat n)) as [l|] eqn:El; [|apply takes_refl].
  pose proof (insert_adds (checked (vouchers n)) (replay_record event_id origin ev st) l) as Ha.
  destruct (is_empty (re_canonical ev)) eqn:Ec.
  - destruct (insert_event _ l) as [l' w]. apply (takes_log n l); [done|]. apply Ha. intros c f. unfold replay_record. cbn. rewrite Ec.
    destruct (decide (c = "")) as [->|]; [left|by right]. right; right. split; [by left|]. cbn. destruct (re_signature ev) eqn:Es; [|done].
    revert Hst. unfold replay_sig_state. rewrite Es, Ec. by intros [= <-].
  - destruct Hno as [Hno|Hno].
    + destruct (insert_event _ l) as [l' w]. apply (takes_log n l); [done|]. apply Ha. intros c f. unfold replay_record. cbn. rewrite Ec.
      destruct (decide (c = re_canonical ev)) as [->|]; [left|by right]. destruct (decide (st = Valid)) as [->|Hn].
      * left. left. destruct (sig_state_valid _ _ Hst) as (did & kid & sg & key & sig & H1 & H2 & H3 & H4). by exists did, kid, sg, key, sig.
      * right; right. split; [by right|]. cbn. by destruct (re_signature ev).
    + unfold insert_event, replay_record. cbn. rewrite Ec, Hno. cbn. apply (takes_log n l); [done|apply adds_refl].
Qed.

Lemma set_tasks_takes n t : tgrows (checked (vouchers n)) (nw_tasks n) t -> takes_in n (set_tasks t n).
Proof. intros [V D]. split; [|done]. unfold vouchers, nw_chat. cbn [nw_tasks set_tasks nw_answers]. rewrite V. f_equal. f_equal. by eapply dgrows_keys. Qed.
Lemma drawn_takes n : takes_in n (drawn n).
Proof. by apply takes_grows, grows_same. Qed.

(** ** One event *)

Section Wait.
Variable judge : Network -> list ParkedEvent -> option OwnHostAnswer -> Network * list RelayEffect.
Hypothesis judge_grows : forall n waiting answer, grows answer n (judge n waiting answer).1.

Lemma hold_takes n event_id relayed_by ev facts have_key :
  takes_in n (hold_replayed_receipt sp at_ judge n event_id relayed_by ev facts have_key).1.
Proof.
  unfold hold_replayed_receipt. destruct (replayed_tags ev event_id) as [tags|]; [|apply takes_refl]. set (e := if have_key then _ else _).
  pose proof (park_for_grows sp judge judge_grows None n e (at_ (nw_drawn n))) as [H _]. destruct (park_for_key _ _ _ _ _). by apply takes_grows.
Qed.
Lemma park_receipt_takes n event_id relayed_by ev facts : takes_in n (park_replayed_receipt sp at_ judge n event_id relayed_by ev facts).1.
Proof. apply hold_takes. Qed.
Lemma file_act_takes n event_id origin relayed_by act_id ev view facts opens from_system by_referee :
  (forall e, is_of (re_canonical ev) (re_signature ev) e -> checked (vouchers n) e) ->
  takes_in n (file_replayed_act sp at_ judge n event_id origin relayed_by act_id ev view facts opens from_system by_referee).1.1.
Proof.
  intros Hc. unfold file_replayed_act. destruct (task_db (nw_tasks n)) as [d|] eqn:Ed; [|apply takes_refl].
  set (event := mkActEvent _ _ _ _ _ _ _ _ _ _ _). pose proof (apply_adds sp event d) as Ha. destruct (apply_act_event sp event d) as [d' written].
  set (m := mkMove _ _ _ _ _ _). pose proof (receipt_tgrows sp (put_db d' (nw_tasks n)) m (at_ (nw_drawn n))) as Hr.
  destruct (receipt_for_applied_move _ _ _ _) as [t receipt]. cbn [fst] in *.
  assert (takes_in n (drawn (set_tasks t n))) as H1.
  { eapply takes_trans; [|apply drawn_takes]. apply set_tasks_takes. eapply tgrows_trans; [apply checked_stable| |].
    - eapply put_tgrows; [done|]. eapply adds_weaken; [|exact Ha]. exact Hc.
    - eapply tgrows_weaken; [|exact Hr]. intros e He. left. by right. }
  set (n1 := drawn (set_tasks t n)) in *. pose proof (release_grows judge judge_grows None n1 event_id) as Hrel.
  pose proof (park_receipt_takes n1 event_id relayed_by ev facts) as Hp.
  destruct written; cbn [fst]; try exact H1;
    try (destruct (release_events_waiting_on _ _ _) as [n2 o2]; eapply takes_trans; [exact H1|by apply takes_grows]).
  destruct (park_replayed_receipt _ _ _ _ _ _ _ _) as [n2 o2]. by eapply takes_trans.
Qed.

Lemma word_counts n event_id relayed_by act_id ev view facts :
  replayed_word sp at_ judge n event_id relayed_by act_id ev view facts = Ok true ->
  forall e, is_of (re_canonical ev) (re_signature ev) e -> checked (vouchers n) e.
Proof.
  unfold replayed_word. destruct (_ || _); [done|]. destruct (replayed_tags ev event_id) as [tags|] eqn:Et; [|done].
  destruct (referee_word _ _ _ _ _ _ _ _ _ _) eqn:Er; try done. intros _ e [H1 H2].
  destruct (referee_counts _ _ _ _ _ _ _ _ _ _ Er) as (lookup & Hv & Hk). right; left.
  exists event_id, tags, (peer_target_for (f_venue facts) (f_venue facts)), (Some (default "" (f_actor_did facts))),
    (relayed_task_venue sp (nw_tasks n) tags event_id), lookup.
  split; [|by split]. unfold replayed_tags in Et. by rewrite H1, H2.
Qed.
Lemma word_takes n event_id relayed_by act_id ev view facts r :
  replayed_word sp at_ judge n event_id relayed_by act_id ev view facts = Err r -> takes_in n r.1.
Proof.
  unfold replayed_word. destruct (_ || _); [done|]. destruct (replayed_tags ev event_id) as [tags|]; [|intros [= <-]; apply takes_refl].
  destruct (referee_word _ _ _ _ _ _ _ _ _ _); try done; intros [= <-]; [apply takes_refl|]. apply takes_grows.
  by apply (park_for_grows sp judge judge_grows None).
Qed.
Lemma judge_replayed_takes n event_id origin relayed_by act_id ev view facts st opens by_referee :
  replay_sig_state n ev = Some st ->
  (by_referee = true -> forall e, is_of (re_canonical ev) (re_signature ev) e -> checked (vouchers n) e) ->
  takes_in n (judge_replayed sp at_ judge n event_id origin relayed_by act_id ev view facts st opens by_referee).1.1.
Proof.
  intros Hst Hr. unfold judge_replayed. destruct (match owning_peer _ _ _ _ _ with Some _ => _ | None => _ end); [apply takes_refl|].
  destruct (negb by_referee && _) eqn:Ev.
  - destruct (is_confirmation _ _); [|apply takes_refl]. pose proof (park_receipt_takes n event_id relayed_by ev facts) as H.
    by destruct (park_replayed_receipt _ _ _ _ _ _ _ _).
  - apply file_act_takes. destruct by_referee; [by apply Hr|]. cbn in Ev. case_bool_decide as Hv; [|done]. subst st. intros e [H1 H2]. left. left.
    destruct (sig_state_valid _ _ Hst) as (did & kid & sg & key & sig & S1 & S2 & S3 & S4). exists did, kid, sg, key, sig. by rewrite H1, H2.
Qed.
Lemma task_event_takes n event_id origin relayed_by ev st r :
  replay_sig_state n ev = Some st -> file_replayed_task_event sp at_ judge n event_id origin relayed_by ev st = Some r -> takes_in n r.1.1.
Proof.
  intros Hst. unfold file_replayed_task_event. destruct (derive_act_view _ _) as [view|]; [|done]. destruct (derive_facts _) as [facts|]; [|done].
  cbn [mbind option_bind]. set (opens := bool_decide _). intros [= <-].
  destruct (if opens then None else _) as [ruling|].
  - destruct (replayed_tags _ _) as [tags|]; [|apply takes_refl]. set (e := held_replay _ _ _ _ _ _ _ _ _ _).
    pose proof (park_grows sp judge judge_grows None n e (at_ (nw_drawn n))) as H. destruct (park_event _ _ _ _ _). by apply takes_grows.
  - destruct (replayed_word _ _ _ _ _ _ _ _ _ _) as [by_referee|[n1 o1]] eqn:Ew; [|exact (word_takes _ _ _ _ _ _ _ _ Ew)].
    apply judge_replayed_takes; [done|]. intros ->. by eapply word_counts.
Qed.
Lemma apply_replayed_takes n own_id relayed_by ev : takes_in n (apply_replayed_event sp at_ judge n own_id relayed_by ev).1.1.
Proof.
  unfold apply_replayed_event. destruct (is_empty _); [apply takes_refl|]. set (id := sanitize_s2s_str _ _). set (o := replay_origin _ _ _ _).
  destruct (l ← _; _) as [[l e]|] eqn:El.
  - assert (db (nw_chat n) = Some l) as Hl.
    { destruct (db (nw_chat n)) as [l0|]; [|done]. cbn in El. destruct (events l0 !! id); [|done]. cbn in El. congruence. }
    destruct (String.eqb _ _); [apply takes_refl|]. apply (takes_log n l); [done|]. apply conflict_adds.
  - destruct (replay_sig_state n ev) as [st|] eqn:Est; [|apply takes_refl].
    destruct (file_replayed_task_event _ _ _ _ _ _ _ _ _) as [[[n1 o1] oc]|] eqn:Et; [exact (task_event_takes _ _ _ _ _ _ _ Est Et)|].
    pose proof (file_replayed_takes n id o ev st Est) as H. destruct (file_replayed _ _) as [n1 oc]. apply H.
    revert Et. unfold file_replayed_task_event. destruct (derive_act_view _ _); [|by left]. destruct (derive_facts _); [done|by right].
Qed.
End Wait.

Variable fuel : nat.
Notation judge := (judge_parked_events sp at_ fuel).
Notation replay_all own_id relayed_by := (fold_left (replay_one sp at_ fuel own_id relayed_by)).
Lemma replay_all_takes own_id relayed_by evs : forall acc, takes_in acc.1 (replay_all own_id relayed_by evs acc).1.
Proof.
  induction evs as [|ev evs IH]; intros acc; [apply takes_refl|]. cbn [fold_left]. eapply takes_trans; [|apply IH]. unfold replay_one.
  pose proof (apply_replayed_takes judge (judge_parked_grows sp at_ fuel) acc.1 own_id relayed_by ev) as H. by destruct (apply_replayed_event _ _ _ _ _ _ _) as [[]].
Qed.
Lemma catchup_takes own_id relayed_by n evs : takes_in n (catchup_events_in sp at_ fuel own_id relayed_by n evs).1.
Proof. apply (replay_all_takes own_id relayed_by _ (n, [])). Qed.

(** ** Theorems *)


(** ** The order of a batch *)

Lemma leb_antisym a b : String.leb a b = true -> String.leb b a = true -> a = b.
Proof.
  intros H1 H2. apply String.compare_eq_iff. revert H1 H2. unfold String.leb. rewrite (String.compare_antisym b a). by destruct (String.compare a b).
Qed.
#[local] Instance replay_le_total : Total replay_le.
Proof.
  intros a b. unfold replay_le. destruct (replay_group_key a) as [ga fa], (replay_group_key b) as [gb fb]. rewrite (String.eqb_sym gb ga).
  destruct (String.eqb ga gb); [|exact (str_le_total ga gb)]. destruct fa, fb; cbn; auto; exact (str_le_total (re_event_id a) (re_event_id b)).
Qed.
#[local] Instance replay_le_trans : Transitive replay_le.
Proof.
  intros a b c. unfold replay_le. destruct (replay_group_key a) as [ga fa], (replay_group_key b) as [gb fb], (replay_group_key c) as [gc fc].
  pose proof (str_compare_trans_le ga gb gc) as Hg. pose proof (str_compare_trans_le (re_event_id a) (re_event_id b) (re_event_id c)) as Hi.
  unfold str_le in *. destruct (String.eqb_spec ga gb) as [<-|Hab].
  - destruct (String.eqb_spec ga gc); [|done]. destruct fa, fb, fc; cbn; done || auto.
  - destruct (String.eqb_spec gb gc) as [<-|Hbc].
    + by destruct (String.eqb_spec ga gb).
    + intros H1 H2. destruct (String.eqb_spec ga gc) as [<-|]; [|auto]. exfalso. apply Hab. by apply leb_antisym.
Qed.
Lemma replay_le_antisym a b : replay_le a b -> replay_le b a -> re_event_id a = re_event_id b.
Proof.
  unfold replay_le. destruct (replay_group_key a) as [ga fa], (replay_group_key b) as [gb fb]. rewrite (String.eqb_sym gb ga).
  destruct (String.eqb_spec ga gb) as [|Hn]; [|intros H1 H2; by destruct Hn; apply leb_antisym].
  destruct fa, fb; cbn; try done; intros H1 H2; by apply leb_antisym.
Qed.


(** ** What was missed *)

(** A row whose columns travel unchanged. *)
Record travels (id : string) (e : StoredEvent) : Prop := {
  tv_id : sanitize_s2s_str id 100 = id /\ id <> "";
  tv_time : 0 <= e_timestamp e < 2 ^ 63;
  tv_bare : e_canonical e = "" ->
    let f := e_facts e in
    sanitize_s2s_str (f_kind f) 32 = f_kind f /\ venue_of (sanitize_s2s_str (f_venue f) 200) = f_venue f
    /\ ((fun d => sanitize_s2s_str d 512) <$> f_actor_did f) = f_actor_did f
    /\ ((fun s => sanitize_s2s_str s 100) <$> f_subject f) = f_subject f
    /\ ((fun x => sanitize_s2s_str x 64) <$> f_emoji f) = f_emoji f /\ f_body_hash f = None
}.
(** No task event, as far as its bytes go. *)
Definition chat_row (e : StoredEvent) : Prop := e_canonical e = "" \/ derive_act_view (sp_revival_tag sp) (e_canonical e) = None.
(** The same event as filed elsewhere; the verdict on it is each server's own. *)
Definition same_as_sent (e e' : StoredEvent) : Prop :=
  e_canonical e' = e_canonical e /\ e_signature e' = e_signature e /\ e_facts e' = e_facts e /\ e_timestamp e' = e_timestamp e.

Lemma time_travels z : 0 <= z < 2 ^ 63 -> u64_as_i64 (wrap 64 z) = z.
Proof. intros H. unfold u64_as_i64, wrap. rewrite Z.mod_small by lia. destruct (Z.ltb_spec z (2 ^ 63)); lia. Qed.
Lemma no_task_event judge n id o rel ev st : re_canonical ev = "" \/ derive_act_view (sp_revival_tag sp) (re_canonical ev) = None ->
  file_replayed_task_event sp at_ judge n id o rel ev st = None.
Proof.
  unfold file_replayed_task_event. intros [->| ->]; [|done]. destruct (derive_act_view _ _); [|done]. done.
Qed.
Definition read_shape (x : EventShape) : option (string * EventFacts) :=
  match x with Document c => (fun f => (c, f)) <$> derive_facts c | Bare f => Some ("", f) end.
Lemma insert_new r l c f : read_shape (r_shape r) = Some (c, f) -> events l !! f_event_id f = None ->
  insert_event r l = (set_events (<[f_event_id f := mkStoredEvent c (r_signature r) (match r_signature r with None => Unsigned | Some _ => x_sig_state (r_ctx r) end)
    f (x_origin (r_ctx r)) (x_confirm (r_ctx r)) None (r_timestamp r)]> (events l)) l, true).
Proof. unfold insert_event. fold (read_shape (r_shape r)). by intros -> ->. Qed.
Lemma sent_facts id e own_a o st : event_ok id e -> travels id e ->
  read_shape (r_shape (replay_record id o (to_replayed own_a e) st)) = Some (e_canonical e, e_facts e).
Proof.
  intros [Hk Hb _] [_ _ Hbare]. unfold replay_record, to_replayed.
  cbn [r_shape re_canonical re_kind re_venue re_actor_did re_subject re_emoji]. destruct (is_empty (e_canonical e)) eqn:Ec; cbn [read_shape].
  - apply is_empty_true in Ec. destruct (Hbare Ec) as (H1 & H2 & H3 & H4 & H5 & H6). rewrite Ec, H1, H2, H3, H4, H5. f_equal. f_equal.
    destruct (e_facts e); cbn in *. by subst.
  - rewrite Hb; [done|]. intros H. by rewrite H in Ec.
Qed.
Lemma missed_event judge n l id e own_a own_b peer st :
  event_ok id e -> travels id e -> chat_row e -> db (nw_chat n) = Some l -> events l !! id = None ->
  replay_sig_state n (to_replayed own_a e) = Some st ->
  exists n' out l' e', apply_replayed_event sp at_ judge n own_b peer (to_replayed own_a e) = (n', out, ReplayFiled)
    /\ db (nw_chat n') = Some l' /\ events l' !! id = Some e' /\ same_as_sent e e'
    /\ e_sig_state e' = match e_signature e with Some _ => st | None => Unsigned end.
Proof.
  intros Hok Hv Hchat Hl Hn Hst. pose proof Hok as [Hk _ _]. pose proof Hv as [[Hi Hne] Ht _]. unfold apply_replayed_event.
  change (re_event_id (to_replayed own_a e)) with (f_event_id (e_facts e)). rewrite Hk, Hi.
  destruct (is_empty id) eqn:Ee; [by apply is_empty_true in Ee|]. rewrite Hl. cbn [mbind option_bind]. rewrite Hn. cbn [mbind option_bind].
  rewrite Hst. set (o := replay_origin _ _ _ _). rewrite no_task_event by exact Hchat.
  unfold file_replayed. rewrite Hl, (insert_new _ l (e_canonical e) (e_facts e)); [|by apply sent_facts|by rewrite Hk].
  eexists _, _, _, _. split; [reflexivity|]. split; [reflexivity|]. cbn. rewrite Hk, lookup_insert_eq.
  split; [reflexivity|]. unfold same_as_sent. cbn. split_and!; try done. by apply time_travels.
Qed.

(** An event a peer replays is filed as it was. A chat event that was not on
    file, and whose signature is not found wrong here, has the same bytes,
    signature, columns and time as on the server it comes from; the verdict on
    its signature is this server's own. *)
Theorem missed_event_is_filed_as_it_was (n : Network) (l : MsgDb) (id : string) (e : StoredEvent) (own_a own_b peer : string) (st : SigState) :
  event_ok id e -> travels id e -> chat_row e -> db (nw_chat n) = Some l -> events l !! id = None ->
  replay_sig_state n (to_replayed own_a e) = Some st ->
  exists n' out l' e', apply_replayed_event sp at_ judge n own_b peer (to_replayed own_a e) = (n', out, ReplayFiled)
    /\ db (nw_chat n') = Some l' /\ events l' !! id = Some e' /\ same_as_sent e e'
    /\ e_sig_state e' = match e_signature e with Some _ => st | None => Unsigned end.
Proof. apply missed_event. Qed.

(** ** One exchange *)

(** What stands under an id once an event has been replayed: its bytes, or
    those of an earlier claim, with the disagreement noted. *)
Definition settled (id canonical : string) (n : Network) : Prop :=
  exists l e, db (nw_chat n) = Some l /\ events l !! id = Some e /\ (e_canonical e = canonical \/ is_Some (e_conflict e)).
Lemma settled_takes id c n n' : takes_in n n' -> settled id c n -> settled id c n'.
Proof.
  intros Ht (l & e & Hl & He & Hc). destruct (takes_kept _ _ _ _ _ Ht Hl He) as (l' & e' & H1 & H2 & S1 & _ & _ & _ & _ & _ & S7).
  exists l', e'. split; [done|]. split; [done|]. destruct Hc as [Hc|Hc]; [left; congruence|right]. by rewrite S7.
Qed.
Lemma replayed_is_settled judge n l id e own_a own_b peer :
  event_ok id e -> travels id e -> chat_row e -> db (nw_chat n) = Some l -> replay_sig_state n (to_replayed own_a e) <> None ->
  settled id (e_canonical e) (apply_replayed_event sp at_ judge n own_b peer (to_replayed own_a e)).1.1.
Proof.
  intros Hok Hv Hchat Hl Hst. destruct (replay_sig_state n _) as [st|] eqn:Est; [|done].
  destruct (events l !! id) as [e0|] eqn:E0.
  - pose proof Hok as [Hk _ _]. pose proof Hv as [[Hi Hne] _ _]. unfold apply_replayed_event.
    change (re_event_id (to_replayed own_a e)) with (f_event_id (e_facts e)). rewrite Hk, Hi.
    destruct (is_empty id) eqn:Ee; [by apply is_empty_true in Ee|]. rewrite Hl. cbn [mbind option_bind]. rewrite E0. cbn [mbind option_bind].
    change (re_canonical (to_replayed own_a e)) with (e_canonical e). destruct (String.eqb_spec (e_canonical e0) (e_canonical e)) as [Ec|].
    + exists l, e0. auto.
    + exists (record_event_conflict id (fingerprint (e_canonical e)) l), (note_conflict (fingerprint (e_canonical e)) e0).
      split; [done|]. split; [unfold record_event_conflict; cbn; by rewrite lookup_alter_eq, E0|]. right. unfold note_conflict.
      destruct (e_conflict e0) eqn:Ex; cbn; [by rewrite Ex|done].
  - destruct (missed_event judge n l id e own_a own_b peer st) as (n' & out & l' & e' & -> & Hl' & He' & (S1 & _) & _); try done.
    exists l', e'. auto.
Qed.
Lemma catchup_settles n l id e own_a own_b peer evs :
  event_ok id e -> travels id e -> chat_row e -> db (nw_chat n) = Some l -> replay_sig_state n (to_replayed own_a e) <> None ->
  to_replayed own_a e ∈ evs -> settled id (e_canonical e) (catchup_events_in sp at_ fuel own_b peer n evs).1.
Proof.
  intros Hok Hv Hchat Hl Hst Hin. unfold catchup_events_in. rewrite <- (merge_sort_Permutation replay_le evs) in Hin.
  apply list_elem_of_split in Hin as (l1 & l2 & ->). rewrite fold_left_app. cbn [fold_left].
  eapply settled_takes; [apply replay_all_takes|]. pose proof (replay_all_takes own_b peer l1 (n, [])) as Ht. set (acc := fold_left _ l1 _) in *.
  cbn [fst] in Ht. pose proof (proj2 Ht) as D. rewrite Hl in D. destruct (db (nw_chat acc.1)) as [l'|] eqn:El; [|done].
  pose proof (replayed_is_settled judge acc.1 l' id e own_a own_b peer Hok Hv Hchat El) as H. unfold replay_one.
  destruct (apply_replayed_event _ _ _ _ _ _ _) as [[n1 o1] oc]. apply H. rewrite (sig_state_keys n); [done|].
  rewrite El, Hl. cbn. by rewrite (ad_keys _ _ _ D).
Qed.
(** All that a complete answer holds. *)
Lemma complete_answer mgr s peer since limit evs l id e :
  catchup_request_in mgr s peer since limit = Some (CatchupEvents evs false) -> db s = Some l -> events l !! id = Some e ->
  u64_as_i64 since <= e_timestamp e -> f_venue (e_facts e) ∉ room_venues (srv s) -> to_replayed (server_id mgr) e ∈ evs.
Proof.
  intros H Hl He Hs Hv. revert H. unfold catchup_request_in. destruct (negb _); [done|]. rewrite Hl. set (lim := Z.to_nat _).
  unfold events_since_federated. set (rows := merge_sort _ _). case_bool_decide; [|done]. intros [= <- Hm]. apply Nat.ltb_ge in Hm.
  rewrite length_take in Hm. rewrite take_take, Nat.min_l by lia. rewrite take_ge by lia. apply list_elem_of_fmap. exists e. split; [done|].
  unfold rows. rewrite merge_sort_Permutation. apply list_elem_of_In, filter_In. split.
  - apply in_map_iff. exists (id, e). split; [done|]. apply list_elem_of_In. by apply elem_of_map_to_list.
  - apply andb_true_iff. split; [by apply Z.leb_le|]. by rewrite bool_decide_eq_false_2.
Qed.

(** C15: one exchange brings over what was missed. When a server answers a request
    completely, every chat event of its log in the window, outside rooms, whose
    signature the asking server does not find wrong, has its bytes on file
    there afterwards, or an earlier claim on its id stands there with the
    disagreement noted beside it. *)
Theorem one_exchange_heals (mgr : S2sManager) (s : Chat) (n : Network) (own_b peer_a peer_b : string) (since limit : Z) (evs : list ReplayedEvent)
    (la lb : MsgDb) (id : string) (e : StoredEvent) :
  catchup_request_in mgr s peer_b since limit = Some (CatchupEvents evs false) ->
  db s = Some la -> log_ok la -> events la !! id = Some e -> u64_as_i64 since <= e_timestamp e -> f_venue (e_facts e) ∉ room_venues (srv s) ->
  travels id e -> chat_row e -> db (nw_chat n) = Some lb -> replay_sig_state n (to_replayed (server_id mgr) e) <> None ->
  settled id (e_canonical e) (catchup_events_in sp at_ fuel own_b peer_a n evs).1.
Proof.
  intros H Hl Hok He Hs Hv Ht Hc Hb Hst. eapply catchup_settles; [by apply Hok|done|done|done|exact Hst|]. by eapply complete_answer.
Qed.

(** ** Once taken *)

Definition names_itself (ev : ReplayedEvent) : Prop :=
  forall f, derive_facts (re_canonical ev) = Some f -> f_event_id f = sanitize_s2s_str (re_event_id ev) 100.
Definition held_under (id canonical : string) (n : Network) : Prop :=
  exists l e, db (nw_chat n) = Some l /\ events l !! id = Some e /\ e_canonical e = canonical.
Lemma held_takes id c n n' : takes_in n n' -> held_under id c n -> held_under id c n'.
Proof.
  intros Ht (l & e & Hl & He & Hc). destruct (takes_kept _ _ _ _ _ Ht Hl He) as (l' & e' & H1 & H2 & S1 & _).
  exists l', e'. split; [done|]. split; [done|congruence].
Qed.
Lemma file_act_holds n l n' out event_id origin relayed_by act_id ev view facts opens from_system by_referee :
  db (nw_chat n) = Some l ->
  file_replayed_act sp at_ judge n event_id origin relayed_by act_id ev view facts opens from_system by_referee = (n', out, ReplayFiled) ->
  exists f, derive_facts (re_canonical ev) = Some f /\ held_under (f_event_id f) (re_canonical ev) n'.
Proof.
  intros Hl. unfold file_replayed_act. destruct (task_db (nw_tasks n)) as [d|] eqn:Ed.
  2: { unfold task_db in Ed. change (tk_chat (nw_tasks n)) with (nw_chat n) in Ed. by rewrite Hl in Ed. }
  set (event := mkActEvent _ _ _ _ _ _ _ _ _ _ _). pose proof (apply_cases sp event d) as Ha. destruct (apply_act_event sp event d) as [d' written].
  set (m := mkMove _ _ _ _ _ _). pose proof (receipt_tgrows sp (put_db d' (nw_tasks n)) m (at_ (nw_drawn n))) as [_ Hr].
  destruct (receipt_for_applied_move _ _ _ _) as [t receipt]. cbn [fst] in Hr. set (n1 := drawn (set_tasks t n)).
  assert (unwritten written = false -> exists f, derive_facts (re_canonical ev) = Some f /\ held_under (f_event_id f) (re_canonical ev) n1) as H1.
  { intros Hw. rewrite Hw in Ha. destruct Ha as (f & e & Ef & _ & Ee & Ec & _). exists f. split; [exact Ef|].
    change (db (tk_chat (put_db d' (nw_tasks n)))) with (Some (log d')) in Hr. destruct (db (tk_chat t)) as [l1|] eqn:El1; [|done].
    destruct (ad_kept _ _ _ Hr _ _ Ee) as (e' & E' & (S1 & _)). exists l1, e'. split; [exact El1|]. split; [done|]. by rewrite S1, Ec. }
  pose proof (release_grows judge (judge_parked_grows sp at_ fuel) None n1 event_id) as Hrel. apply takes_grows in Hrel.
  destruct written; try done; try (intros [= <- _]; by apply H1);
    try (destruct (release_events_waiting_on _ _ _) as [n2 o2]; intros [= <- _]; destruct (H1 eq_refl) as (f & Ef & Hf); exists f; split; [done|];
         by eapply held_takes).
  by destruct (park_replayed_receipt _ _ _ _ _ _ _ _).
Qed.
Lemma task_event_holds n l n' out event_id origin relayed_by ev st :
  db (nw_chat n) = Some l -> file_replayed_task_event sp at_ judge n event_id origin relayed_by ev st = Some (n', out, ReplayFiled) ->
  exists f, derive_facts (re_canonical ev) = Some f /\ held_under (f_event_id f) (re_canonical ev) n'.
Proof.
  intros Hl. unfold file_replayed_task_event. destruct (derive_act_view _ _) as [view|]; [|done]. destruct (derive_facts _) as [facts|] eqn:Ef; [|done].
  cbn [mbind option_bind]. set (opens := bool_decide _). destruct (if opens then None else _) as [ruling|].
  { destruct (replayed_tags _ _) as [tags|]; [|done]. by destruct (park_event _ _ _ _ _). }
  destruct (replayed_word _ _ _ _ _ _ _ _ _ _) as [by_referee|[n1 o1]]; [|done]. unfold judge_replayed.
  destruct (match owning_peer _ _ _ _ _ with Some _ => _ | None => _ end); [done|]. destruct (_ && _).
  - destruct (is_confirmation _ _); [|done]. by destruct (park_replayed_receipt _ _ _ _ _ _ _ _).
  - intros [= H]. destruct (file_act_holds _ _ _ _ _ _ _ _ _ _ _ _ _ _ Hl H) as (f & E & Hh). exists f. split; [congruence|done].
Qed.
Lemma filed_is_held n l n' out own_id relayed_by ev :
  db (nw_chat n) = Some l -> names_itself ev -> apply_replayed_event sp at_ judge n own_id relayed_by ev = (n', out, ReplayFiled) ->
  held_under (sanitize_s2s_str (re_event_id ev) 100) (re_canonical ev) n'.
Proof.
  intros Hl Hn. unfold apply_replayed_event. destruct (is_empty _); [done|]. set (id := sanitize_s2s_str _ _) in *. set (o := replay_origin _ _ _ _).
  rewrite Hl. cbn [mbind option_bind]. destruct (events l !! id) as [e|] eqn:Ee; cbn [mbind option_bind]; [by destruct (String.eqb _ _)|].
  destruct (replay_sig_state n ev) as [st|]; [|done]. destruct (file_replayed_task_event _ _ _ _ _ _ _ _ _) as [[[n1 o1] oc]|] eqn:Et.
  - intros [= <- _ ->]. destruct (task_event_holds _ _ _ _ _ _ _ _ _ Hl Et) as (f & Ef & Hh). by rewrite (Hn _ Ef) in Hh.
  - unfold file_replayed. rewrite Hl. unfold insert_event. fold (read_shape (r_shape (replay_record id o ev st))).
    destruct (read_shape _) as [[c f]|] eqn:Es; [|done]. destruct (events l !! f_event_id f); [done|]. intros [= <- _].
    assert (c = re_canonical ev /\ f_event_id f = id) as [-> Hf].
    { revert Es. unfold replay_record. cbn. destruct (is_empty (re_canonical ev)) eqn:Ec; cbn.
      - apply is_empty_true in Ec. rewrite Ec. by intros [= <- <-].
      - destruct (derive_facts _) as [f'|] eqn:Ef; [|done]. intros [= <- <-]. split; [done|]. by apply Hn. }
    eexists _, _. split; [reflexivity|]. cbn. rewrite Hf, lookup_insert_eq. by split.
Qed.

(** What was taken once is not taken again. An event that was filed, and
    whose bytes name the id it travels under, is found on file when it is
    replayed again, by whatever peer and whatever came in between, and nothing
    changes. *)
Theorem taken_once (n n1 : Network) (l : MsgDb) (own_id relayed_by again_by : string) (ev : ReplayedEvent) (out : list RelayEffect)
    (between : list (string * list ReplayedEvent)) :
  db (nw_chat n) = Some l -> names_itself ev -> apply_replayed_event sp at_ judge n own_id relayed_by ev = (n1, out, ReplayFiled) ->
  let n2 := fold_left (fun m b => (catchup_events_in sp at_ fuel own_id b.1 m b.2).1) between n1 in
  apply_replayed_event sp at_ judge n2 own_id again_by ev = (n2, [], AlreadyHeld).
Proof.
  intros Hl Hn H. cbv zeta. assert (held_under (sanitize_s2s_str (re_event_id ev) 100) (re_canonical ev)
    (fold_left (fun m b => (catchup_events_in sp at_ fuel own_id b.1 m b.2).1) between n1)) as (l2 & e & Hl2 & He & Hc).
  { apply (fold_left_inv (held_under _ _)); [|by eapply filed_is_held]. intros m b Hm. eapply held_takes; [apply catchup_takes|done]. }
  set (n2 := fold_left _ _ _) in *. unfold apply_replayed_event at 1. destruct (is_empty _) eqn:Ee.
  - exfalso. revert H. unfold apply_replayed_event. by rewrite Ee.
  - rewrite Hl2. cbn [mbind option_bind]. rewrite He. cbn [mbind option_bind]. by rewrite Hc, String.eqb_refl.
Qed.

(** ** Whose word *)

End Catchup.
