(* ===== verification/CatchupRuns.v ===== *)
(** * Catching up on a concrete server

    The server of MessagingRuns asks the peer on which Zoe writes for what it
    missed; the theorems of CatchupSpec at work, and runs that show behaviour the
    comments of the code do not lead to expect. *)
From stdpp Require Import base gmap strings list pretty fin_maps sorting.
From Stdlib Require Import ZArith Lia Ascii String.
From S2P Require Import Prelude Text Ulid IrcMessage ActTransitions Multiline RelayQueue NickMap RoomTables S2sMessage Channel S2sLink Crdt Federation Primitives SignedDocs MessageStore Routing Messaging MessagingOps FederatedChat TaskDocs TaskLog TaskLogSpec TaskGate TaskGateSpec TaskRelay TaskRelaySpec Catchup CatchupSpec MessagingRuns FederatedRuns TaskRuns TaskRelayRuns.
Open Scope string_scope.
Open Scope list_scope.
Open Scope Z_scope.

#[local] Existing Instances ascii_fold ascii_trimming map_order toy_primitives toy_base64 toy_json any_key verbatim seconds.

(** ** The exchange *)

Definition us : string := "us".
Definition canonical_of (tags : Tags) (id : string) : string := match act_canonical tags "#cats" id with Ok c => c | Err _ => "" end.
(** A task event as a peer replays it: what travels beside the bytes is the peer's to write. *)
Definition replays (tags : Tags) (n : Z) (did kind origin : string) : ReplayedEvent :=
  mkReplayed (ulid n) (canonical_of tags (ulid n)) (sig_of tags) kind "#cats" (Some did) (named_task tags) None origin 1000.
Definition renamed (n : Z) (ev : ReplayedEvent) : ReplayedEvent :=
  mkReplayed (ulid n) (re_canonical ev) (re_signature ev) (re_kind ev) (re_venue ev) (re_actor_did ev) (re_subject ev) (re_emoji ev)
    (re_origin ev) (re_timestamp ev).
Definition takes_replay (n : Network) (ev : ReplayedEvent) : Network * list RelayEffect * ReplayOutcome :=
  apply_replayed_event shipped clock (judge_parked_events shipped clock 10) n us "peer" ev.
Definition after (n : Network) (evs : list ReplayedEvent) : Network := fold_left (fun n ev => (takes_replay n ev).1.1) evs n.
Definition outcome_of (n : Network) (ev : ReplayedEvent) : ReplayOutcome := (takes_replay n ev).2.

(** The server, with the keys of Zoe and of the peer. *)
Definition both_keys (d : MsgDb) : MsgDb :=
  mkDb (messages d) (next_id d) (reactions d) (pin_rows d) (events d) (coordination_events d)
    {[(zoe, zoe_kid) := ed25519_verifying_key "zoe"; (referee, referee_kid) := ed25519_verifying_key "peer"]} (read_markers d).
Definition healing : Network := network (set_tk_chat (on_db both_keys (tk_chat (tasks_on plain_channel))) (tasks_on plain_channel)).
Definition old_post (n : Z) : ReplayedEvent := replays (zoe_task "offer" n []) n zoe "act" "peer".
Definition old_claim (n task : Z) : ReplayedEvent := replays (zoe_claims n task) n zoe "act" "peer".
Definition receipt_tags (n task subject : Z) : Tags :=
  task_tags "peer" referee "handoff" (cf_verb (sp_confirmation shipped)) (ulid n)
    [(ACT_ID_TAG, ulid task); ("+freeq.at/" +:+ cf_subject (sp_confirmation shipped), ulid subject)].
Definition old_receipt (n task subject : Z) : ReplayedEvent := replays (receipt_tags n task subject) n referee "act" "peer".

(** The peer's log, with Zoe's greeting, and what it answers. *)
Definition peer_chat : Chat := chat greeted.
Definition peer_log : MsgDb := default empty_db (db peer_chat).
Definition greeting : StoredEvent :=
  default (mkStoredEvent "" None Unsigned (mkFacts "" "" "" None None None None) None None None 0) (events peer_log !! ulid 1).
Definition answer_to (peer : string) : list ReplayedEvent :=
  match catchup_request_in sample_manager peer_chat peer 0 0 with Some (CatchupEvents evs _) => evs | _ => [] end.

Example catchup_runs :
  (* the request waits for the peer to say that it can be asked *)
  request_catchup_when_supported 20 0 us (fun k => if (k <? 3)%nat then [] else ["catchup"]) (fun k => 90000 + Z.of_nat k)
    = Some (CatchupRequest us 3603 0)
  /\ request_catchup_when_supported 20 0 us (fun _ => []) (fun _ => 90000) = None
  (* posts, moves and the home's receipt, in whatever order they travel *)
  /\ live (after healing [old_post 1; old_claim 2 1]) = [(ulid 1, "open", None)]
  /\ live (after healing [old_post 1; old_claim 2 1; old_receipt 3 1 2]) = [(ulid 1, "assigned", Some zoe)]
  /\ live (catchup_events_in shipped clock 10 us "peer" healing [old_receipt 3 1 2; old_claim 2 1; old_post 1]).1 = [(ulid 1, "assigned", Some zoe)]
  (* a second time changes nothing *)
  /\ outcome_of (after healing [old_post 1]) (old_post 1) = AlreadyHeld
  (* another server does not speak for the home *)
  /\ (apply_replayed_event shipped clock (judge_parked_events shipped clock 10) (after healing [old_post 1; old_claim 2 1]) us "third"
        (old_receipt 3 1 2)).2 = Unusable.
Proof. vm_compute. repeat split. Qed.

(** ** The theorems at work *)

Lemma greeting_travels : travels (ulid 1) greeting.
Proof. split; [split; [vm_compute; reflexivity|vm_compute; discriminate]|vm_compute; split; [discriminate|reflexivity]|vm_compute; discriminate]. Qed.
Lemma greeting_chat : chat_row shipped greeting.
Proof. right. vm_compute. reflexivity. Qed.
Lemma greeting_ok : event_ok (ulid 1) greeting.
Proof. split; [vm_compute; reflexivity|intros _; vm_compute; reflexivity|vm_compute; discriminate]. Qed.
Lemma as_it_was_witness :
  exists n' out l' e', takes_replay healing (to_replayed "peer" greeting) = (n', out, ReplayFiled)
    /\ db (nw_chat n') = Some l' /\ events l' !! ulid 1 = Some e' /\ same_as_sent greeting e'
    /\ e_sig_state e' = match e_signature greeting with Some _ => Valid | None => Unsigned end.
Proof.
  refine (missed_event_is_filed_as_it_was shipped clock 10 healing (msgs healing) (ulid 1) greeting "peer" us "peer" Valid greeting_ok
            greeting_travels greeting_chat _ _ _); vm_compute; reflexivity.
Defined.
Lemma peer_log_ok : log_ok peer_log.
Proof.
  intros id e. assert (map_to_list (events peer_log) = [(ulid 1, greeting)]) as E by (vm_compute; reflexivity).
  intros H. apply elem_of_map_to_list in H. rewrite E in H. apply list_elem_of_singleton in H.
  pose proof (f_equal fst H) as H1. pose proof (f_equal snd H) as H2. cbn [fst snd] in H1, H2. rewrite H1, H2. exact greeting_ok.
Qed.
Lemma heals_witness :
  settled (ulid 1) (e_canonical greeting) (catchup_events_in shipped clock 10 us "peer" healing (answer_to "peer")).1.
Proof.
  refine (one_exchange_heals shipped clock 10 sample_manager peer_chat healing us "peer" "peer" 0 0 (answer_to "peer") peer_log (msgs healing)
            (ulid 1) greeting _ _ peer_log_ok _ _ _ greeting_travels greeting_chat _ _); try (vm_compute; reflexivity); vm_compute; discriminate.
Defined.
Lemma again_witness :
  let n2 := fold_left (fun m b => (catchup_events_in shipped clock 10 us b.1 m b.2).1) [("peer", [old_claim 2 1])] (takes_replay healing (old_post 1)).1.1 in
  apply_replayed_event shipped clock (judge_parked_events shipped clock 10) n2 us "third" (old_post 1) = (n2, [], AlreadyHeld).
Proof.
  refine (taken_once shipped clock 10 healing (takes_replay healing (old_post 1)).1.1 (msgs healing) us "peer" "third" (old_post 1)
            (takes_replay healing (old_post 1)).1.2 [("peer", [old_claim 2 1])] _ _ _); try (vm_compute; reflexivity).
  intros f. vm_compute. by intros [= <-].
Defined.
Definition moved_on : Network := after healing [old_post 1; old_claim 2 1].
Definition some_view : ActView := mkView "" "" None None None None ∅.
Definition some_facts : EventFacts := mkFacts "" "" "" None None None None.

(** ** Behaviour worth knowing *)

(** A replayed event travels under an id beside its bytes. The log files a task
    event under the id in the bytes, the table of live tasks takes the other
    one for the task's: replayed under another id, a post opens a task that has
    no post on file, and its own task, once the bytes are on file, never opens. *)
Lemma opener_under_another_id :
  let n := after healing [renamed 77 (old_post 1)] in
  live n = [(ulid 77, "open", None)] /\ events (msgs n) !! ulid 77 = None /\ is_Some (events (msgs n) !! ulid 1)
  /\ live (after n [old_post 1]) = [(ulid 77, "open", None)].
Proof. vm_compute. repeat split. by eexists. Qed.

(** A claim that this server minted a task event is to be believed only when
    its own records bear it out. What is asked is whether the peer calls the
    event a task event: under another kind the claim is taken as sent, and a
    post of the peer's opens a task this server then rules on. *)
Lemma envelope_kind_hands_over_a_task :
  let foreign n := at_origin <$> act_task (db_of (nw_tasks n)) (ulid 1) in
  foreign (after healing [replays (zoe_task "offer" 1 []) 1 zoe "act" us]) = Some "peer"
  /\ let n := after healing [replays (zoe_task "offer" 1 []) 1 zoe "message" us] in
     foreign n = Some "" /\ live (after n [old_claim 2 1]) = [(ulid 1, "assigned", Some zoe)]
     /\ log_size (nw_tasks (after n [old_claim 2 1])) = 3%nat.
Proof. vm_compute. repeat split. Qed.

(** A receipt that comes before the event it confirms is to be judged when
    that event arrives. One that came by replay waits for its task instead: the
    event arrives, and the receipt stays where it is. A relayed one is taken up. *)
Lemma replayed_receipt_waits_for_the_wrong_id :
  let early := after healing [old_post 1; old_receipt 3 1 2] in
  queued early = 1
  /\ live (after early [old_claim 2 1]) = [(ulid 1, "open", None)] /\ queued (after early [old_claim 2 1]) = 1
  /\ let relayed := takes (after healing [old_post 1]) (NEvent (mkArrived referee "#cats" (receipt_tags 3 1 2) "peer" "peer" (Some referee) true
                       false None None None)) in
     queued relayed = 1 /\ live (after relayed [old_claim 2 1]) = [(ulid 1, "assigned", Some zoe)].
Proof. vm_compute. repeat split. Qed.

(** An event that comes without bytes is filed as what it says of itself,
    task events too. Nobody signed it and no rule was asked; the task's own
    post, when it comes, finds its id taken. *)
Lemma unsigned_row_blocks_a_post :
  let n := after healing [mkReplayed (ulid 1) "" None "act" "#cats" None None None "peer" 1000] in
  log_size (nw_tasks n) = 1%nat /\ outcome_of n (old_post 1) = Conflicted /\ live (after n [old_post 1]) = []
  /\ live (takes n (NEvent (arriving zoe_posts))) = [].
Proof. vm_compute. repeat split. Qed.

(** A ruling its referee vouches for is judged on the document its tags make
    under the id it travels with, and the bytes it came with are filed: with
    another id in them they stand under that id, with a signature that is not
    over them, and the ruling has taken effect. *)
Definition knows_referee (n : Network) : Network :=
  mkNetwork (nw_tasks n) (nw_held n) (nw_deferred n) {[(referee, referee_kid) := Listed (ed25519_verifying_key "peer") None]} (nw_key_dates n) (nw_drawn n).
Definition rules (n : Z) : Tags := task_tags "peer" referee "handoff" "expire" (ulid n) [(ACT_ID_TAG, ulid 1)].
Definition altered_ruling : ReplayedEvent :=
  mkReplayed (ulid 9) (canonical_of (rules 9) (ulid 66)) (sig_of (rules 9)) "act" "#cats" (Some referee) (Some (ulid 1)) None "peer" 1000.
Lemma vouched_ruling_with_other_bytes :
  let post := mkReplayed (ulid 1) (canonical_of refereed_post (ulid 1)) (sig_of refereed_post) "act" "#cats" (Some zoe) None None "peer" 1000 in
  let n := knows_referee (after known_net [post]) in
  let n' := (apply_replayed_event shipped clock (judge_parked_events shipped clock 10) n us "third" altered_ruling).1.1 in
  live n = [(ulid 1, "open", None)] /\ live n' = [] /\ events (msgs n') !! ulid 9 = None
  /\ let e := row_under n' (ulid 66) in
     e_sig_state e = Valid /\ e_signature e = Some (SigTag.sign_canonical (canonical_of (rules 9) (ulid 9)) "peer")
     /\ e_canonical e = canonical_of (rules 9) (ulid 66) /\ String.eqb (e_canonical e) (canonical_of (rules 9) (ulid 9)) = false.
Proof. vm_compute. repeat split. Qed.
